(* ===== verification/_CoqProject ===== *)
-Q . S2P
Prelude.v
Double.v
Metric.v
Mm.v
Rbuf.v
Queue.v
Tailq.v
Lists.v
Circleq.v
Pool.v
Buf.v
Dbuf.v
Array.v
WeakMem.v
RingArray.v
RingWeak.v
Log.v
Bstring.v
Print.v
Option.v
Histogram.v
Words.v
Util.v
Murmur3.v
Xxh.v
Xxh32.v
Xxh64.v
Xxh3Vec.v
Xxh3.v
Xxh3Stream.v
XxhUtil.v
Timer.v
TimerDarwin.v
Wheel.v
WheelReentry.v
WheelRecur.v
Pooled.v
Sys.v
Signal.v
Channel.v
Tcp.v
Pipe.v
Sockio.v
Event.v
Kqueue.v
Debug.v
LogFlush.v
Stats.v
Optprint.v
Config.v
