(* ===== verification/Prelude.v ===== *)
(** * ccommon: a verification of Twitter's C library for cache servers

    ccommon is a library of C modules that cache servers link: byte and element
    containers, object pools, logging, options, statistics, time and channels.
    This development translates the modules below function by function into
    Rocq and proves what they promise their callers.  Sources are named relative
    to the repository (include/ and src/).

    ** How C is modelled

    A w-bit integer is a [Z] with its wrap-around written out ([u32], [u64],
    [i64], ... of this file).  A C object of n bytes is a list of length n and a
    pointer into it an offset; [memread]/[memwrite] are [None] outside the object.
    Operations pass their state explicitly and return [option]: [None] is
    undefined behaviour (an access outside an object, a NULL dereference, a signed
    overflow where it matters) or a loop that its [fuel] did not end.  Whatever
    the program cannot decide is an argument or a list of answers in the state:
    whether and where malloc/realloc allocate, what fgets, strtod and
    clock_gettime answer; the calls on descriptors are those of a kernel that is a
    parameter ([Sys]).  Functions the user passes (pool constructors, array
    callbacks, timeout and event callbacks) are parameters.  The platform is x86-64 Linux
    ([TimerDarwin] and [Kqueue]: Darwin; the hash functions of xxHash: any machine,
    their build options being fields of the class [Xxh.Build]), CC_STATS is on,
    ASSERT only logs (it does unless CC_ASSERT_PANIC is set), XXH_ASSERT is off (as it is
    unless XXH_DEBUGLEVEL is 1 or more) and log output is left out except in [Log],
    [Debug], [Stats] and [Optprint].  Memory is
    sequentially consistent but in [WeakMem] and [RingWeak], which follow the single
    accesses of two threads.

    ** The files

    - [Prelude]: integers, byte ranges, return codes (cc_define.h), automation.
    - [Double]: C doubles (binary64), their exactness on integers below 2^53, and the
      ceiling of a hundredth of an integer.
    - [Metric]: struct metric and the INCR/DECR/UPDATE_VAL macros (cc_metric.h,
      stats/cc_metric.c).  Every module below updates its metrics through these.
    - [Mm]: the allocation wrappers (cc_mm.c).
    - [Rbuf]: the byte ring buffer (cc_rbuf.c).  A write appends what fits, a read
      takes the oldest bytes; with rpos = 0 a write may exceed the capacity.
    - [Queue]: the memory of linked queues and the STAILQ macros (cc_queue.h),
      refining lists; the class [SQueue]/[SQueueLaws] is their interface.
    - [Tailq]: the TAILQ macros of the same header, refining lists; swap and
      relocation of an element keep the queue, traversals visit it in order.
    - [Lists]: the SLIST and LIST macros of the same header, refining lists; states
      are compared up to the links of elements outside every list ([links_eq]).
    - [Circleq]: the CIRCLEQ macros of the same header, refining lists.
    - [Pool]: the FREEPOOL macros (cc_pool.h) over any [SQueue] and any
      [PoolClient]: no object is handed out twice, limits hold, loops end.
    - [Buf]: struct buf and its pool (buffer/cc_buf.h, cc_buf.c), a client of
      [Pool]: reads and writes are a stream; the gauges equal the allocated and
      borrowed buffers in every history; setup and teardown leak nothing.
    - [Dbuf]: resizing of borrowed buffers (buffer/cc_dbuf.c) on top of [Buf]:
      contents survive every outcome; the doubling loop ends within 32 steps up to
      2 GiB and never beyond that.
    - [Array]: growing arrays (cc_array.c, cc_array.h).
    - [RingArray]: the single-producer single-consumer ring (cc_ring_array.c),
      sequentially and as the step relation [rstep] of two threads.
    - [WeakMem]: two memory models over any threads, C11 with views and race
      detection and x86 with store buffers; threads that write different
      locations do on the second only what they can do on the first.
    - [RingWeak]: the ring access by access on both: a queue on x86 and with
      acquire and release, but with the relaxed orderings of the source a race
      and a wrong element under C11.
    - [Log]: loggers over [Rbuf] and write (cc_log.c): the output is the accepted
      messages, whole and in order, whatever write answers.
    - [Bstring], [Print]: number parsing and printing (cc_bstring.c, cc_print.c)
      and their round trips.
    - [Option]: option files (cc_option.c): the expression evaluator agrees with
      arithmetic on parenthesised expressions and stays within its buffers on all
      inputs; lines round-trip; loading a file is total.
    - [Histogram]: log-linear histograms (stats/cc_histogram.c): buckets partition
      the range, records, and the bucket of a percentile; stores into a profile are
      checked against its blocks.
    - [Words]: numbers in little-endian bytes, rotations and masks, for the hashes.
    - [Util]: alignment, rounding, character search (cc_util.h) and the macros that
      compare with short constants (cc_bstring.h), exact for ASCII constants.
    - [Murmur3]: the three hash functions (hash/cc_murmur3.c) equal a definition by
      blocks, and the 32-bit one separates keys that differ in one block.
    - [Xxh]: build options, pointers, reads and byte order of xxHash
      (hash/xxhash.h), and what its streaming functions share.
    - [Xxh32], [Xxh64]: XXH32 and XXH64, in one call and as a stream.
    - [Xxh3Vec]: the kernels of XXH3 in six instruction sets, on 64-bit lanes, and
      that they compute one function (a secret for the seed 2^63 excepted, on which three
      of them overflow).
    - [Xxh3]: the 64 and 128-bit hashes of XXH3 in one call, for every length: one
      value whatever the machine and the place of the bytes.
    - [Xxh3Stream]: XXH3 as a stream, with the default secret, a seed or a secret: a
      stream is hashed like its whole.
    - [XxhUtil]: canonical forms and order of 128-bit hashes, secrets from seeds of
      any length, and the aligned memory of states over the heap of [Mm].
    - [Timer], [TimerDarwin]: durations and timeouts on clock_gettime and on
      mach_absolute_time (time/cc_timer_linux.c, cc_timer_darwin.c).
    - [Wheel]: the timing wheel and its pool of events (time/cc_wheel.c), over
      [Tailq], [Pool], [Timer] and [Double], for callbacks that do not touch the wheel:
      an event fires in the tick its delay rounds up to, not before, and can be removed
      until then; a tick fires exactly its slot, flush fires everything once and
      returns every event; execute ticks as long as the due time has come and its
      limit allows, and its due time never moves back.
    - [WheelReentry]: callbacks that insert events into the wheel that calls them,
      and the boundary at a delay of zero.
    - [WheelRecur]: a recurring event fires once in every period, exactly, again for
      callbacks that do not touch the wheel.
    - [Pooled]: what the modules that keep their objects in a FREEPOOL share.
    - [Sys]: system calls as the parameter [Kernel] with its documented behaviour
      [KernelLaws], the state monad [st] the modules over them are written in and
      its weakest precondition; [ideal] is a kernel that meets the laws.
    - [Signal]: signal_override and its table (cc_signal.c).
    - [Channel]: the channel interface (channel/cc_channel.h) and what a receive
      and a send may do.
    - [Tcp]: TCP connections (channel/cc_tcp.c): received bytes are a prefix of the
      stream, in order; connect and listen leak no descriptor on failure but 0;
      accept registers the connection the kernel gives, reject goes on until accept
      fails; the send buffer search finds the maximum; the pool
      leaks nothing.
    - [Pipe]: pipes (channel/cc_pipe.c): what is sent is received, in order.
    - [Sockio]: buffered sockets (stream/cc_sockio.c) over [Tcp], [Buf] and [Dbuf]:
      end to end, a socket is a pair of byte queues; every socket owns a connection
      and two buffers, through creation, failure half way, use and teardown.
    - [Event]: the event loop on epoll (event/cc_epoll.c, cc_shared.c): the events of
      the kernel's answer are dispatched once each, with the mask of their flags; what is registered is what
      the successful calls made of it; bases leak nothing.
    - [Kqueue]: the same interface on kqueue (event/cc_kqueue.c): events are
      dispatched in report order, interrupted waits are retried.
    - [Debug]: debug logging (cc_debug.c) over [Log] and [Signal]: lines are cut,
      terminated and written whole and in order; hex dumps equal a definition by
      rows; setup and teardown keep the number of loggers.
    - [LogFlush]: [Debug] and [WheelRecur] together: a log that a recurring event
      flushes holds back only the messages of the last period.
    - [Stats]: printing of metrics and the statistics log (stats/cc_metric.c,
      stats/cc_stats_log.c) over [Metric], [Print] and [Log].
    - [Optprint]: printing of options and defaults (cc_option.c), what is printed
      for a value parsing back to it, and the release of their strings.
    - [Config]: the tables of metrics and options of every module: whatever a
      configuration file says the options keep their types, whatever is counted
      the metrics do, and setting up with loaded defaults is setting up with NULL.

    ** Fuel

    Loops whose bound is not structural take [fuel]; each theorem about them says
    how much is enough: the number of objects for pool loops, 32 for doubling and
    for the rounds of dbuf_tcp_read, the length of the line or expression in
    [Option], the events of the wheel and its capacity or tick limit in [Wheel],
    one more than the pending signals for the loops that retry on EINTR, 29 for
    the search of tcp_maximize_sndbuf, the rows of a hex dump, one more than the
    reported events for the loop of [Kqueue], the length of the queue for
    traversals, the length of the input for the loops of xxHash over blocks, 16 and
    32 for its rerolled tails and 96 for the filling of its seeds.
    [Dbuf.dbuf_fit_diverges] shows the one loop no fuel ends.

    ** Not modelled

    The malloc_usable_size wrapper (a pure call of the C library), QMD_TRACE (file and
    line numbers in debug builds), the aliases of C library functions in cc_util.h and
    cc_bstring.h, the tracing hooks of cc_itt.h, the prefetches and compiler hints of
    xxhash.h (they change no value) and the Rust bindings, which are declarations. *)

From stdpp Require Export base numbers list gmap strings.
From Stdlib Require Export ZArith Lia.

#[export] Set Default Goal Selector "!".
#[export] Set Warnings "-clear-no-such-hyp,-level-tolerance".
Local Open Scope Z_scope.

(** ** Machine integers

    A C integer of width [w] is a [Z]; the conversions below write the
    wrap-around out.  [u*] are the unsigned types (reduction modulo 2^w), [i*]
    the signed types under the two's-complement conversion gcc implements. *)

Definition u8 (x : Z) : Z := x mod 256.
Definition u16 (x : Z) : Z := x mod 65536.
Definition u32 (x : Z) : Z := x mod 4294967296.
Definition u64 (x : Z) : Z := x mod 18446744073709551616.
Definition i32 (x : Z) : Z := (x + 2147483648) mod 4294967296 - 2147483648.
Definition i64 (x : Z) : Z :=
  (x + 9223372036854775808) mod 18446744073709551616 - 9223372036854775808.

Definition UINT32_MAX : Z := 4294967295.
Definition UINT64_MAX : Z := 18446744073709551615.
Definition INT64_MAX : Z := 9223372036854775807.
Definition INT64_MIN : Z := -9223372036854775808.

(** [lia] after the euclidean equations of every [/] and [mod] are added. *)
Ltac mlia := Z.to_euclidean_division_equations; lia.

Create HintDb ints.

Lemma u8_small x : 0 <= x < 256 -> u8 x = x.
Proof. apply Z.mod_small. Qed.

Lemma u32_small x : 0 <= x < 4294967296 -> u32 x = x.
Proof. apply Z.mod_small. Qed.

Lemma u64_small x : 0 <= x < 18446744073709551616 -> u64 x = x.
Proof. apply Z.mod_small. Qed.

Lemma i32_small x : -2147483648 <= x < 2147483648 -> i32 x = x.
Proof. unfold i32; mlia. Qed.

Lemma i64_small x :
  -9223372036854775808 <= x < 9223372036854775808 -> i64 x = x.
Proof. unfold i64; mlia. Qed.

Lemma u8_range x : 0 <= u8 x < 256.
Proof. unfold u8; mlia. Qed.

Lemma u32_range x : 0 <= u32 x < 4294967296.
Proof. unfold u32; mlia. Qed.

Lemma u64_range x : 0 <= u64 x < 18446744073709551616.
Proof. unfold u64; mlia. Qed.

Lemma i64_range x : -9223372036854775808 <= i64 x < 9223372036854775808.
Proof. unfold i64; mlia. Qed.

Lemma u32_add_l x y : u32 (u32 x + y) = u32 (x + y).
Proof. apply Zplus_mod_idemp_l. Qed.

Lemma u32_add_r x y : u32 (x + u32 y) = u32 (x + y).
Proof. apply Zplus_mod_idemp_r. Qed.

Lemma u32_sub_l x y : u32 (u32 x - y) = u32 (x - y).
Proof. apply Zminus_mod_idemp_l. Qed.

Lemma u64_add_l x y : u64 (u64 x + y) = u64 (x + y).
Proof. apply Zplus_mod_idemp_l. Qed.

Lemma i64_add_l x y : i64 (i64 x + y) = i64 (x + y).
Proof.
  unfold i64. set (h := 9223372036854775808). f_equal.
  replace ((x + h) mod 18446744073709551616 - h + y + h)
    with ((x + h) mod 18446744073709551616 + y) by lia.
  rewrite Zplus_mod_idemp_l. f_equal. lia.
Qed.

Lemma i64_sub_l x y : i64 (i64 x - y) = i64 (x - y).
Proof. apply (i64_add_l x (- y)). Qed.

#[export] Hint Resolve u8_range u32_range u64_range i64_range : ints.

(** Remove the conversions whose argument [lia] sees to be in range, innermost
    first. *)
Ltac unwrap_in_goal :=
  repeat match goal with
  | |- context [u8 ?x] => rewrite (u8_small x) by lia
  | |- context [u32 ?x] => rewrite (u32_small x) by lia
  | |- context [u64 ?x] => rewrite (u64_small x) by lia
  | |- context [i32 ?x] => rewrite (i32_small x) by lia
  | |- context [i64 ?x] => rewrite (i64_small x) by lia
  end.

Ltac unwrap_in H :=
  repeat match type of H with
  | context [u8 ?x] => rewrite (u8_small x) in H by lia
  | context [u32 ?x] => rewrite (u32_small x) in H by lia
  | context [u64 ?x] => rewrite (u64_small x) in H by lia
  | context [i32 ?x] => rewrite (i32_small x) in H by lia
  | context [i64 ?x] => rewrite (i64_small x) in H by lia
  end.

(** Case on the integer comparisons a definition branches on. *)
Ltac case_zcmp :=
  repeat match goal with
  | |- context [?a <? ?b] => destruct (Z.ltb_spec a b)
  | |- context [?a <=? ?b] => destruct (Z.leb_spec a b)
  | |- context [?a =? ?b] => destruct (Z.eqb_spec a b)
  end.

(** ** Return codes (cc_define.h) *)

Definition CC_OK : Z := 0.
Definition CC_ERROR : Z := -1.
Definition CC_EAGAIN : Z := -2.
Definition CC_ERETRY : Z := -3.
Definition CC_ENOMEM : Z := -4.
Definition CC_EEMPTY : Z := -5.
Definition CC_ERDHUP : Z := -6.
Definition CC_EINVAL : Z := -7.
Definition CC_UNFIN : Z := 1.

(** ** Byte ranges

    A C object of n bytes is a list of length n; a pointer into it is an
    offset.  [memread] and [memwrite] are memcpy out of and into such an object
    and are [None] where the access leaves the object (undefined behaviour). *)

Abbreviation byte := Z (only parsing).

Section Mem.
Context {A : Type}.
Implicit Types (l src : list A) (off n : Z).

Definition zlen l : Z := Z.of_nat (length l).

Definition slice l off n : list A := take (Z.to_nat n) (drop (Z.to_nat off) l).

Definition memread l off n : option (list A) :=
  if (0 <=? off) && (0 <=? n) && (off + n <=? zlen l)
  then Some (slice l off n) else None.

Definition splice l off src : list A :=
  take (Z.to_nat off) l ++ src ++ drop (Z.to_nat off + length src) l.

Definition memwrite l off src : option (list A) :=
  if (0 <=? off) && (off + zlen src <=? zlen l)
  then Some (splice l off src) else None.

Lemma zlen_nonneg l : 0 <= zlen l.
Proof. unfold zlen; lia. Qed.

Lemma zlen_app l1 l2 : zlen (l1 ++ l2) = zlen l1 + zlen l2.
Proof. unfold zlen; rewrite length_app; lia. Qed.

Lemma zlen_nil : zlen [] = 0.
Proof. done. Qed.

Lemma zlen_cons x l : zlen (x :: l) = 1 + zlen l.
Proof. unfold zlen; simpl; lia. Qed.

Lemma zlen_take n l : 0 <= n <= zlen l -> zlen (take (Z.to_nat n) l) = n.
Proof. unfold zlen; rewrite length_take; lia. Qed.

Lemma zlen_drop n l : 0 <= n <= zlen l -> zlen (drop (Z.to_nat n) l) = zlen l - n.
Proof. unfold zlen; rewrite length_drop; lia. Qed.

Lemma zlen_slice l off n :
  0 <= off -> 0 <= n -> off + n <= zlen l -> zlen (slice l off n) = n.
Proof. unfold zlen, slice; rewrite length_take, length_drop; lia. Qed.

Lemma slice_zero l off : slice l off 0 = [].
Proof. done. Qed.

Lemma slice_full l : slice l 0 (zlen l) = l.
Proof. unfold slice, zlen. rewrite Nat2Z.id, drop_0. by apply take_ge. Qed.

Lemma slice_split l off n1 n2 :
  0 <= off -> 0 <= n1 -> 0 <= n2 ->
  slice l off (n1 + n2) = slice l off n1 ++ slice l (off + n1) n2.
Proof.
  intros. unfold slice. rewrite !Z2Nat.inj_add by lia.
  rewrite <- drop_drop. symmetry. apply take_take_drop.
Qed.

Lemma slice_app_r (a b : list A) o n : 0 <= o -> slice (a ++ b) (zlen a + o) n = slice b o n.
Proof. intros. unfold slice, zlen. rewrite drop_app_ge by lia. do 2 f_equal. lia. Qed.

Lemma slice_app_l (a b : list A) o n : 0 <= o -> 0 <= n -> o + n <= zlen a -> slice (a ++ b) o n = slice a o n.
Proof.
  intros. unfold slice, zlen in *. rewrite drop_app_le by lia. apply take_app_le. rewrite length_drop. lia.
Qed.

Lemma take_slice l off n k :
  take (Z.to_nat n) (slice l off k) = slice l off (Z.min n k).
Proof. unfold slice. rewrite take_take. f_equal. lia. Qed.

Lemma drop_slice l off n k :
  0 <= off -> 0 <= n -> drop (Z.to_nat n) (slice l off k) = slice l (off + n) (k - n).
Proof.
  intros. unfold slice. rewrite skipn_firstn_comm, drop_drop.
  rewrite Z2Nat.inj_add by lia. f_equal. lia.
Qed.

Lemma slice_neg l off n : n <= 0 -> slice l off n = [].
Proof. intros. unfold slice. by replace (Z.to_nat n) with 0%nat by lia. Qed.

Lemma slice_prefix l r : 0 <= r -> slice l 0 (Z.min r (zlen l)) = take (Z.to_nat r) l.
Proof.
  intros. unfold slice, zlen. rewrite drop_0.
  destruct (Z.le_gt_cases r (Z.of_nat (length l))).
  - f_equal; lia.
  - rewrite !take_ge by lia. done.
Qed.

Lemma memread_some l off n :
  0 <= off -> 0 <= n -> off + n <= zlen l ->
  memread l off n = Some (slice l off n).
Proof.
  intros. unfold memread.
  by rewrite !(proj2 (Z.leb_le _ _)) by lia.
Qed.

Lemma memwrite_some l off src :
  0 <= off -> off + zlen src <= zlen l ->
  memwrite l off src = Some (splice l off src).
Proof.
  intros. unfold memwrite. by rewrite !(proj2 (Z.leb_le _ _)) by lia.
Qed.

Lemma memwrite_inv l off src l' :
  memwrite l off src = Some l' ->
  0 <= off /\ off + zlen src <= zlen l /\ l' = splice l off src.
Proof.
  unfold memwrite. destruct (_ && _) eqn:E; [|done].
  apply andb_prop in E as [E1%Z.leb_le E2%Z.leb_le]. intros [= <-]. lia || done.
Qed.

Lemma zlen_splice l off src :
  0 <= off -> off + zlen src <= zlen l -> zlen (splice l off src) = zlen l.
Proof.
  unfold zlen, splice; intros.
  rewrite !length_app, length_take, length_drop; lia.
Qed.

Lemma splice_adjacent l off a b :
  0 <= off -> off + zlen a + zlen b <= zlen l ->
  splice (splice l (off + zlen a) b) off a = splice l off (a ++ b).
Proof.
  unfold splice, zlen. intros Ho Hl. rewrite length_app.
  replace (Z.to_nat (off + Z.of_nat (length a))) with (Z.to_nat off + length a)%nat by lia.
  rewrite take_app_le by (rewrite length_take; lia). rewrite take_take.
  rewrite drop_app_ge by (rewrite length_take; lia). rewrite length_take, <- app_assoc.
  replace (Z.to_nat off `min` (Z.to_nat off + length a))%nat with (Z.to_nat off) by lia.
  replace (Z.to_nat off + length a - (Z.to_nat off + length a) `min` length l)%nat with 0%nat by lia.
  by rewrite drop_0, Nat.add_assoc.
Qed.

(** What was written is read back. *)
Lemma slice_splice_same l off src :
  0 <= off -> off + zlen src <= zlen l ->
  slice (splice l off src) off (zlen src) = src.
Proof.
  unfold zlen, slice, splice; intros.
  rewrite drop_app_length' by (rewrite length_take; lia).
  by rewrite take_app_length' by lia.
Qed.

(** A read that ends before, or starts after, the written range is unaffected. *)
Lemma slice_splice_before l off src o n :
  0 <= o -> 0 <= n -> o + n <= off -> off + zlen src <= zlen l ->
  slice (splice l off src) o n = slice l o n.
Proof.
  unfold zlen, slice, splice; intros.
  rewrite drop_app_le by (rewrite length_take; lia).
  rewrite take_app_le by (rewrite length_drop, length_take; lia).
  rewrite !take_drop_commute, take_take. do 2 f_equal; lia.
Qed.

Lemma slice_splice_after l off src o n :
  0 <= off -> off + zlen src <= o -> off + zlen src <= zlen l ->
  slice (splice l off src) o n = slice l o n.
Proof.
  unfold zlen, slice, splice; intros. f_equal.
  rewrite drop_app_ge by (rewrite length_take; lia).
  rewrite drop_app_ge by (rewrite length_take; lia).
  rewrite drop_drop. f_equal. rewrite length_take. lia.
Qed.

End Mem.

Create Rewrite HintDb zlen.
#[export] Hint Rewrite @zlen_app @zlen_nil @zlen_cons : zlen.

(** Normalise the lengths of the goal and close it by [lia]. *)
Ltac len_lia :=
  autorewrite with zlen in *;
  repeat match goal with
  | |- context [zlen ?l] =>
      lazymatch goal with
      | _ : 0 <= zlen l |- _ => fail
      | _ => pose proof (zlen_nonneg l)
      end
  end; lia.
