(* ===== verification/Double.v ===== *)
(** * C doubles

    A double is an IEEE binary64 value ([spec_float] of the Standard Library),
    rounded to nearest even.  [is_int f z]: [f] is the integer [z], |z| < 2^53;
    on such values addition, subtraction, multiplication and comparison are
    exact.  [is_ceil f t]: [t] is the least integer not below [f]; dividing an
    integer below 2^52 by 100 keeps the ceiling. *)

From Stdlib Require Import SpecFloat.
From S2P Require Import Prelude.
Local Open Scope Z_scope.

(** The conversion (double)x of an integer. *)
Definition double_of_Z (x : Z) : spec_float := binary_normalize 53 1024 x 0 false.
Definition dbl (x : Z) : spec_float := double_of_Z x.
Definition dadd := SFadd 53 1024.
Definition dsub := SFsub 53 1024.
Definition dmul := SFmul 53 1024.
Definition ddiv := SFdiv 53 1024.
Definition dsqrt := SFsqrt 53 1024.

(** 2^-52 *)
Definition DBL_EPSILON : spec_float := S754_finite false 4503599627370496 (-104).

Definition dge (a b : spec_float) : bool :=
  match SFcompare a b with Some Eq | Some Gt => true | _ => false end.
Definition dlt (a b : spec_float) : bool :=
  match SFcompare a b with Some Lt => true | _ => false end.

(** (uint64_t)x; [None] where the conversion is undefined. *)
Definition u64_of_double (x : spec_float) : option Z :=
  match x with
  | S754_zero _ => Some 0
  | S754_finite s m e =>
      let z := if s then - Zpos m else Zpos m in
      let t := if 0 <=? e then z * 2 ^ e else Z.quot z (2 ^ (- e)) in
      if (0 <=? t) && (t <=? UINT64_MAX) then Some t else None
  | _ => None
  end.

(** ** Exactness on integers *)

Section Exact.

Definition ndig (p : positive) : Z := Z.log2 (Zpos p) + 1.

Lemma digits_log2 p : Zpos (digits2_pos p) = ndig p.
Proof.
  unfold ndig. induction p as [p IH|p IH|]; [..|done]; cbn [digits2_pos]; rewrite Pos2Z.inj_succ, IH.
  - rewrite Pos2Z.inj_xI, Z.log2_succ_double by lia. lia.
  - rewrite Pos2Z.inj_xO, Z.log2_double by lia. lia.
Qed.

Lemma ndig_shift p q k : 0 <= k -> Zpos q = Zpos p * 2 ^ k -> ndig q = ndig p + k.
Proof. intros Hk E. unfold ndig. rewrite E, Z.log2_mul_pow2 by lia. lia. Qed.

Lemma ndig_pos p : 1 <= ndig p.
Proof. unfold ndig. pose proof (Z.log2_nonneg (Zpos p)). lia. Qed.

Lemma ndig_le p n : 0 <= n -> Zpos p < 2 ^ n <-> ndig p <= n.
Proof. intros. unfold ndig. rewrite Z.log2_lt_pow2 by lia. lia. Qed.

Lemma shr_exact n : forall m, 0 < m ->
  SpecFloat.iter_pos shr_1 n (Build_shr_record (m * 2 ^ Zpos n) false false) = Build_shr_record m false false.
Proof.
  assert (H1 : forall m, 0 < m ->
    shr_1 (Build_shr_record (m * 2) false false) = Build_shr_record m false false)
    by (intros [|m|m] Hm; [lia| |lia]; simpl; by rewrite Pos.mul_comm).
  assert (H0 : forall m k, 0 < m -> 0 < m * 2 ^ Zpos k) by (intros; apply Z.mul_pos_pos; [done|lia]).
  induction n as [n IH|n IH|]; intros m Hm; cbn [SpecFloat.iter_pos].
  - replace (Zpos n~1) with (Zpos n + Zpos n + 1) by lia. rewrite !Z.pow_add_r, Z.pow_1_r by lia.
    replace (m * (2 ^ Zpos n * 2 ^ Zpos n * 2)) with (m * 2 ^ Zpos n * 2 ^ Zpos n * 2) by ring.
    rewrite H1 by auto. rewrite IH by auto. by apply IH.
  - replace (Zpos n~0) with (Zpos n + Zpos n) by lia.
    rewrite Z.pow_add_r, Z.mul_assoc by lia. rewrite IH by auto. by apply IH.
  - by apply H1.
Qed.

(** The binary64 with value p: 53 significant digits. *)
Definition canon (s : bool) (p : positive) : spec_float :=
  S754_finite s (Z.to_pos (Zpos p * 2 ^ (53 - ndig p))) (ndig p - 53).

Lemma fexp_int d : 1 <= d -> fexp 53 1024 d = d - 53.
Proof. intros. unfold fexp, emin. lia. Qed.

Lemma round_exact s p m k :
  Zpos p < 2 ^ 53 -> 53 - ndig p <= k -> Zpos m = Zpos p * 2 ^ k ->
  binary_round_aux 53 1024 s (Zpos m) (- k) loc_Exact = canon s p.
Proof.
  intros Hp Hk Hm. pose proof (ndig_pos p). apply ndig_le in Hp; [|lia].
  unfold binary_round_aux, shr_fexp. cbn [Zdigits2 shr_record_of_loc].
  rewrite digits_log2, (ndig_shift p m k) by (done || lia).
  replace (ndig p + k + - k) with (ndig p) by lia.
  rewrite fexp_int by done.
  set (q := Z.to_pos (Zpos p * 2 ^ (53 - ndig p))).
  assert (Hq : Zpos q = Zpos p * 2 ^ (53 - ndig p)).
  { unfold q. rewrite Z2Pos.id; [done|]. apply Z.mul_pos_pos; lia. }
  assert (Hs : shr (Build_shr_record (Zpos m) false false) (- k) (ndig p - 53 - - k) =
    (Build_shr_record (Zpos q) false false, ndig p - 53)).
  { destruct (ndig p - 53 - - k) as [|n|n] eqn:En; [| |lia]; unfold shr.
    - f_equal; [|lia]. f_equal. rewrite Hm, Hq. do 2 f_equal. lia.
    - f_equal; [|lia]. rewrite Hm. replace k with (53 - ndig p + Zpos n) by lia.
      rewrite Z.pow_add_r, Z.mul_assoc, <- Hq by lia. by apply shr_exact. }
  rewrite Hs. cbn [loc_of_shr_record shr_m round_nearest_even Zdigits2].
  rewrite digits_log2, (ndig_shift p q (53 - ndig p)) by (done || lia).
  replace (ndig p + (53 - ndig p) + (ndig p - 53)) with (ndig p) by lia.
  rewrite fexp_int, Z.sub_diag by done. cbn [shr shr_m].
  by rewrite (proj2 (Z.leb_le _ _)) by lia.
Qed.

Lemma iter_xO m d : Zpos (Pos.iter xO m d) = Zpos m * 2 ^ Zpos d.
Proof.
  induction d as [|d IH] using Pos.peano_ind; [simpl; lia|].
  rewrite Pos.iter_succ, Pos2Z.inj_xO, IH, Pos2Z.inj_succ, Z.pow_succ_r by lia. ring.
Qed.

Lemma shl_align_spec m e e' :
  e' <= e -> exists m', shl_align m e e' = (m', e') /\ Zpos m' = Zpos m * 2 ^ (e - e').
Proof.
  intros He. unfold shl_align. destruct (e' - e) as [|d|d] eqn:E; [|lia|].
  - exists m. replace (e - e') with 0 by lia. split; [f_equal; lia|lia].
  - exists (Pos.iter xO m d). split; [done|]. rewrite iter_xO. do 2 f_equal. lia.
Qed.

Lemma binary_round_exact s p m k :
  Zpos p < 2 ^ 53 -> 0 <= k -> Zpos m = Zpos p * 2 ^ k -> binary_round 53 1024 s m (- k) = canon s p.
Proof.
  intros Hp Hk Hm. unfold binary_round. rewrite digits_log2, (ndig_shift p m k) by done.
  replace (ndig p + k + - k) with (ndig p) by lia. rewrite fexp_int by apply ndig_pos.
  pose proof (proj1 (ndig_le p 53 ltac:(lia)) Hp).
  destruct (Z_le_gt_dec (ndig p - 53) (- k)) as [Hle|Hgt].
  - destruct (shl_align_spec m (- k) (ndig p - 53) Hle) as (m' & -> & Hm').
    replace (ndig p - 53) with (- (53 - ndig p)) by lia. apply round_exact; [done|lia|].
    rewrite Hm', Hm, <- Z.mul_assoc, <- Z.pow_add_r by lia. do 2 f_equal. lia.
  - unfold shl_align. destruct (ndig p - 53 - - k) as [|d|d] eqn:E; [lia| |lia].
    apply round_exact; [done|lia|done].
Qed.

(** [f] is the integer [z]; zero has two representations. *)
Definition is_int (f : spec_float) (z : Z) : Prop :=
  Z.abs z < 2 ^ 53 /\
  match z with
  | Z0 => exists s, f = S754_zero s
  | Zpos p => f = canon false p
  | Zneg p => f = canon true p
  end.

Lemma normalize_exact z m k :
  Z.abs z < 2 ^ 53 -> 0 <= k -> m = z * 2 ^ k -> is_int (binary_normalize 53 1024 m (- k) false) z.
Proof.
  intros Hz Hk ->. split; [done|]. assert (0 < 2 ^ k) by lia. destruct z as [|p|p]; simpl.
  - by exists false.
  - destruct (Zpos p * 2 ^ k) as [|m|m] eqn:E; [lia| |lia]. simpl. by apply (binary_round_exact _ _ _ k).
  - destruct (Zneg p * 2 ^ k) as [|m|m] eqn:E; [lia|lia|]. simpl.
    apply (binary_round_exact _ _ _ k); [done|done|]. lia.
Qed.

Lemma dbl_int z : Z.abs z < 2 ^ 53 -> is_int (dbl z) z.
Proof. intros. apply (normalize_exact z z 0); [done|lia|lia]. Qed.

(** A non-zero integer: sign, mantissa and exponent. *)
Lemma int_finite f z :
  is_int f z -> z <> 0 ->
  exists s m e, f = S754_finite s m e /\ e <= 0 /\ cond_Zopp s (Zpos m) = z * 2 ^ (- e).
Proof.
  intros [Hz Hf] Hne. destruct z as [|p|p]; [done|..]; subst f; pose proof (ndig_le p 53 ltac:(lia)) as Hd;
    do 3 eexists; (split; [done|]); (split; [simpl in Hz; lia|]);
    unfold cond_Zopp; rewrite Z2Pos.id by (apply Z.mul_pos_pos; simpl in Hz; lia);
    replace (- (ndig p - 53)) with (53 - ndig p) by lia; lia.
Qed.

Lemma align_int s m e ez z :
  ez <= e -> e <= 0 -> cond_Zopp s (Zpos m) = z * 2 ^ (- e) ->
  cond_Zopp s (Zpos (fst (shl_align m e ez))) = z * 2 ^ (- ez).
Proof.
  intros He He0 E. destruct (shl_align_spec m e ez He) as (m' & -> & Hm'). simpl.
  assert (2 ^ (- ez) = 2 ^ (- e) * 2 ^ (e - ez)) as -> by (rewrite <- Z.pow_add_r by lia; f_equal; lia).
  rewrite Z.mul_assoc, <- E, Hm'. unfold cond_Zopp. destruct s; lia.
Qed.

Lemma dadd_int f g x y :
  is_int f x -> is_int g y -> Z.abs (x + y) < 2 ^ 53 -> is_int (dadd f g) (x + y).
Proof.
  intros Hf Hg Hb. unfold dadd.
  destruct (Z.eq_dec x 0) as [->|Hx]; [|destruct (Z.eq_dec y 0) as [->|Hy]].
  - destruct Hf as [_ [s ->]]. destruct (Z.eq_dec y 0) as [->|Hy].
    + destruct Hg as [_ [s' ->]]. split; [done|]. destruct s, s'; simpl; eauto.
    + rewrite Z.add_0_l. by destruct (int_finite g y Hg Hy) as (? & ? & ? & -> & _).
  - rewrite Z.add_0_r. destruct (int_finite f x Hf Hx) as (? & ? & ? & -> & _).
    by destruct Hg as [_ [s' ->]].
  - destruct (int_finite f x Hf Hx) as (sx & mx & ex & -> & Hex & Ex).
    destruct (int_finite g y Hg Hy) as (sy & my & ey & -> & Hey & Ey). cbn [SFadd].
    rewrite (align_int _ _ _ _ x), (align_int _ _ _ _ y) by (done || lia).
    replace (Z.min ex ey) with (- (- Z.min ex ey)) at 3 by lia.
    apply normalize_exact; [done|lia|lia].
Qed.

Lemma dsub_int f g x y :
  is_int f x -> is_int g y -> Z.abs (x - y) < 2 ^ 53 -> is_int (dsub f g) (x - y).
Proof.
  intros Hf Hg Hb. unfold dsub.
  destruct (Z.eq_dec x 0) as [->|Hx]; [|destruct (Z.eq_dec y 0) as [->|Hy]].
  - destruct Hf as [_ [s ->]]. destruct (Z.eq_dec y 0) as [->|Hy].
    + destruct Hg as [_ [s' ->]]. split; [done|]. destruct s, s'; simpl; eauto.
    + destruct Hg as [_ Hg]. split; [done|]. destruct y as [|p|p]; [done|by subst g..].
  - rewrite Z.sub_0_r. destruct (int_finite f x Hf Hx) as (? & ? & ? & -> & _).
    by destruct Hg as [_ [s' ->]].
  - destruct (int_finite f x Hf Hx) as (sx & mx & ex & -> & Hex & Ex).
    destruct (int_finite g y Hg Hy) as (sy & my & ey & -> & Hey & Ey). cbn [SFsub].
    rewrite (align_int _ _ _ _ x), (align_int _ _ _ _ y) by (done || lia).
    replace (Z.min ex ey) with (- (- Z.min ex ey)) at 3 by lia.
    apply normalize_exact; [done|lia|lia].
Qed.

Lemma mul_canon s s' p q :
  Zpos (p * q) < 2 ^ 53 -> dmul (canon s p) (canon s' q) = canon (xorb s s') (p * q).
Proof.
  intros Hb. unfold dmul, canon at 1 2. cbn [SFmul].
  pose proof (ndig_pos p). pose proof (ndig_pos q).
  assert (Zpos p <= Zpos (p * q) /\ Zpos q <= Zpos (p * q)) by (rewrite Pos2Z.inj_mul; nia).
  assert (Hp : ndig p <= 53) by (apply (proj1 (ndig_le p 53 ltac:(lia))); lia).
  assert (Hq : ndig q <= 53) by (apply (proj1 (ndig_le q 53 ltac:(lia))); lia).
  assert (Hd : ndig p + ndig q - 1 <= ndig (p * q)).
  { unfold ndig. rewrite Pos2Z.inj_mul. pose proof (Z.log2_mul_below (Zpos p) (Zpos q) ltac:(lia) ltac:(lia)). lia. }
  replace (ndig p - 53 + (ndig q - 53)) with (- (106 - ndig p - ndig q)) by lia.
  apply round_exact; [done|lia|].
  rewrite Pos2Z.inj_mul, !Z2Pos.id by (apply Z.mul_pos_pos; lia). rewrite Pos2Z.inj_mul.
  replace (106 - ndig p - ndig q) with ((53 - ndig p) + (53 - ndig q)) by lia.
  rewrite Z.pow_add_r by lia. ring.
Qed.

Lemma dmul_int f g x y :
  is_int f x -> is_int g y -> Z.abs (x * y) < 2 ^ 53 -> is_int (dmul f g) (x * y).
Proof.
  intros [Hx Hf] [Hy Hg] Hb. split; [done|].
  destruct x as [|p|p], y as [|q|q];
    repeat match goal with H : exists s, _ = S754_zero s |- _ => destruct H as [? ->] end;
    subst; first [by apply mul_canon|simpl; eauto].
Qed.

(** An exact quotient. *)
Lemma div_canon s s' p q :
  Zpos (p * q) < 2 ^ 53 -> ddiv (canon s (p * q)) (canon s' q) = canon (xorb s s') p.
Proof.
  intros Hb. unfold ddiv, canon at 1 2. cbn [SFdiv].
  assert (Hlt : Zpos p <= Zpos (p * q) /\ Zpos q <= Zpos (p * q)) by (rewrite Pos2Z.inj_mul; nia).
  assert (Hpq : ndig (p * q) <= 53) by (by apply (proj1 (ndig_le _ 53 ltac:(lia)))).
  assert (Hq : ndig q <= ndig (p * q)) by (unfold ndig; pose proof (Z.log2_le_mono (Zpos q) (Zpos (p * q))); lia).
  assert (Hd : ndig (p * q) <= ndig p + ndig q).
  { unfold ndig. rewrite Pos2Z.inj_mul. pose proof (Z.log2_mul_above (Zpos p) (Zpos q) ltac:(lia) ltac:(lia)). lia. }
  pose proof (ndig_pos q). pose proof (ndig_pos p). set (D := ndig (p * q) - ndig q).
  assert (Hm : forall r, ndig r <= 53 -> Zdigits2 (Zpos (Z.to_pos (Zpos r * 2 ^ (53 - ndig r)))) = 53).
  { intros r Hr. cbn [Zdigits2]. rewrite digits_log2, (ndig_shift r _ (53 - ndig r)); [lia|lia|].
    rewrite Z2Pos.id; [done|]. apply Z.mul_pos_pos; lia. }
  unfold SFdiv_core_binary. rewrite !Hm by lia.
  replace (53 + (ndig (p * q) - 53) - (53 + (ndig q - 53))) with D by (unfold D; lia).
  replace (ndig (p * q) - 53 - (ndig q - 53)) with D by (unfold D; lia).
  replace (Z.min (fexp 53 1024 D) D) with (D - 53) by (unfold fexp, emin; lia).
  replace (D - (D - 53)) with 53 by lia. rewrite Z.shiftl_mul_pow2, !Z2Pos.id by (lia || apply Z.mul_pos_pos; lia).
  assert (E : Zpos (p * q) * 2 ^ (53 - ndig (p * q)) * 2 ^ 53 = Zpos p * 2 ^ (53 - D) * (Zpos q * 2 ^ (53 - ndig q))).
  { rewrite Pos2Z.inj_mul. transitivity (Zpos p * Zpos q * (2 ^ (53 - ndig (p * q)) * 2 ^ 53)); [ring|].
    transitivity (Zpos p * Zpos q * (2 ^ (53 - D) * 2 ^ (53 - ndig q))); [|ring]. do 1 f_equal.
    rewrite <- !Z.pow_add_r by (unfold D; lia). f_equal. unfold D. lia. }
  assert (Hm2 : 0 < Zpos q * 2 ^ (53 - ndig q)) by (apply Z.mul_pos_pos; lia).
  rewrite E. pose proof (Z.div_mul (Zpos p * 2 ^ (53 - D)) (Zpos q * 2 ^ (53 - ndig q)) ltac:(lia)) as Hdiv.
  pose proof (Z.mod_mul (Zpos p * 2 ^ (53 - D)) (Zpos q * 2 ^ (53 - ndig q)) ltac:(lia)) as Hmod.
  unfold Z.div in Hdiv. unfold Z.modulo in Hmod. destruct (Z.div_eucl _ _) as [a b]. subst a b.
  assert (Hl : forall x, new_location x 0 = loc_Exact).
  { intros x. unfold new_location, new_location_even, new_location_odd. by destruct (Z.even x). }
  rewrite Hl. destruct (Zpos p * 2 ^ (53 - D)) as [|m|m] eqn:Em; [| |].
  - pose proof (Z.mul_pos_pos (Zpos p) (2 ^ (53 - D))). lia.
  - replace (D - 53) with (- (53 - D)) by lia. apply round_exact; [lia|unfold D; lia|done].
  - pose proof (Z.mul_pos_pos (Zpos p) (2 ^ (53 - D))). lia.
Qed.

Lemma ddiv_int f g x y :
  is_int f (x * y) -> is_int g y -> y <> 0 -> is_int (ddiv f g) x.
Proof.
  intros [Hx Hf] [Hy Hg] Hne. assert (Hb : Z.abs x < 2 ^ 53) by nia. split; [done|].
  destruct x as [|p|p], y as [|q|q]; simpl in Hf, Hg, Hx; try done;
    repeat match goal with H : exists s, _ = S754_zero s |- _ => destruct H as [? ->] end; subst;
    first [by apply div_canon|simpl; eauto].
Qed.

Lemma canon_compare p q :
  Zpos p < 2 ^ 53 -> Zpos q < 2 ^ 53 ->
  match (ndig p - 53) ?= (ndig q - 53) with
  | Lt => Lt
  | Gt => Gt
  | Eq => Pos.compare_cont Eq (Z.to_pos (Zpos p * 2 ^ (53 - ndig p))) (Z.to_pos (Zpos q * 2 ^ (53 - ndig q)))
  end = (p ?= q)%positive.
Proof.
  intros Hp Hq. apply (ndig_le p 53) in Hp; [|lia]. apply (ndig_le q 53) in Hq; [|lia].
  assert (Hm : forall a b, ndig a < ndig b -> (a < b)%positive).
  { intros a b H. destruct (Pos.lt_total a b) as [Hl|Hl]; [done|]. unfold ndig in H.
    pose proof (Z.log2_le_mono (Zpos b) (Zpos a)). exfalso. destruct Hl as [->|Hl]; lia. }
  destruct (Z.compare_spec (ndig p - 53) (ndig q - 53)) as [E|E|E].
  - assert (ndig q = ndig p) as -> by lia. change (Pos.compare_cont Eq) with Pos.compare.
    rewrite !Pos2Z.inj_compare, !Z2Pos.id by (apply Z.mul_pos_pos; lia).
    rewrite <- Zmult_compare_compat_r by lia. done.
  - symmetry. apply Pos.compare_lt_iff, Hm. lia.
  - symmetry. apply Pos.compare_gt_iff, Hm. lia.
Qed.

Lemma compare_int f g x y : is_int f x -> is_int g y -> SFcompare f g = Some (x ?= y).
Proof.
  intros [Hx Hf] [Hy Hg]. destruct x as [|p|p], y as [|q|q]; simpl in *;
    repeat match goal with H : exists s, _ = S754_zero s |- _ => destruct H as [? ->] end;
    subst; try done; simpl; f_equal; [by apply canon_compare|].
  rewrite <- (canon_compare p q) by done. by destruct (_ ?= _).
Qed.

Lemma dlt_int f g x y : is_int f x -> is_int g y -> dlt f g = (x <? y).
Proof.
  intros Hf Hg. unfold dlt. rewrite (compare_int f g x y) by done. unfold Z.ltb. by destruct (x ?= y).
Qed.

Lemma trunc_int f z : is_int f z -> 0 <= z -> u64_of_double f = Some z.
Proof.
  intros Hf Hz. destruct (Z.eq_dec z 0) as [->|Hne]; [by destruct Hf as [_ [s ->]]|].
  destruct (int_finite f z Hf Hne) as (s & m & e & -> & He & E). unfold u64_of_double.
  change (if s then - Zpos m else Zpos m) with (cond_Zopp s (Zpos m)). rewrite E.
  assert ((if 0 <=? e then z * 2 ^ (- e) * 2 ^ e else z * 2 ^ (- e) ÷ 2 ^ (- e)) = z) as ->.
  { destruct (Z.leb_spec 0 e); [assert (e = 0) as -> by lia; simpl; lia|]. apply Z.quot_mul. lia. }
  destruct Hf as [Hb _]. unfold UINT64_MAX. by rewrite !(proj2 (Z.leb_le _ _)) by lia.
Qed.

Lemma digits_range m n : 0 < n -> 2 ^ (n - 1) <= Zpos m < 2 ^ n -> Zpos (digits2_pos m) = n.
Proof.
  intros Hn Hm. rewrite digits_log2. unfold ndig. rewrite (Z.log2_unique (Zpos m) (n - 1)); [lia|lia|].
  replace (Z.succ (n - 1)) with n by lia. done.
Qed.

(** The second normalisation of a rounded mantissa. *)
Lemma round_second s w e1 :
  2 ^ 52 <= w <= 2 ^ 53 -> -1000 <= e1 <= 901 ->
  exists m e2, e1 <= e2 <= e1 + 1 /\ Zpos m * 2 ^ (e2 - e1) = w /\
    (let '(mrs, e'') := shr_fexp 53 1024 w e1 loc_Exact in
     match shr_m mrs with
     | Z0 => S754_zero s
     | Zpos m => if e'' <=? 1024 - 53 then S754_finite s m e'' else S754_infinity s
     | _ => S754_nan
     end) = S754_finite s m e2.
Proof.
  intros Hw He1. unfold shr_fexp. destruct w as [|w|w]; [lia| |lia]. cbn [Zdigits2].
  destruct (Z.eq_dec (Zpos w) (2 ^ 53)) as [E|E].
  - rewrite E. replace w with (2 ^ 53)%positive by lia. exists (2 ^ 52)%positive, (e1 + 1).
    split; [lia|]. split; [by replace (e1 + 1 - e1) with 1 by lia|].
    replace (Zpos (digits2_pos (2 ^ 53))) with 54 by done. unfold fexp, emin.
    replace (Z.max (54 + e1 - 53) (3 - 1024 - 53) - e1) with 1 by lia. simpl.
    by rewrite (proj2 (Z.leb_le _ _)) by lia.
  - exists w, e1. split; [lia|]. split; [rewrite Z.sub_diag; lia|].
    rewrite (digits_range w 53) by lia. unfold fexp, emin.
    replace (Z.max (53 + e1 - 53) (3 - 1024 - 53) - e1) with 0 by lia. simpl.
    by rewrite (proj2 (Z.leb_le _ _)) by lia.
Qed.

(** Rounding a mantissa of 53 or 54 digits, of which [l] says what was cut off: the
    mantissa with the last digit cut, or the next one if something was cut. *)
Lemma round_bracket s a e l :
  2 ^ 52 <= Zpos a < 2 ^ 54 -> -1000 <= e <= 900 ->
  exists c w m e2, (c = 0 \/ c = 1) /\ Zpos a / 2 ^ c <= w <= Zpos a / 2 ^ c + 1 /\
    (l = loc_Exact -> Zpos a mod 2 ^ c = 0 -> w = Zpos a / 2 ^ c) /\
    e + c <= e2 <= e + c + 1 /\ Zpos m * 2 ^ (e2 - (e + c)) = w /\
    binary_round_aux 53 1024 s (Zpos a) e l = S754_finite s m e2.
Proof.
  intros Ha He.
  assert (Hr : forall x lx, x <= round_nearest_even x lx <= x + 1 /\ (lx = loc_Exact -> round_nearest_even x lx = x)).
  { intros x [|[| |]]; simpl; try (split; [lia|done]). destruct (Z.even x); split; done || lia. }
  unfold binary_round_aux, shr_fexp at 1. cbn [Zdigits2].
  destruct (Z_lt_le_dec (Zpos a) (2 ^ 53)) as [Hlt|Hge].
  - rewrite (digits_range a 53) by lia. unfold fexp at 1, emin at 1.
    replace (Z.max (53 + e - 53) (3 - 1024 - 53) - e) with 0 by lia. cbn [shr].
    assert (El : shr_m (shr_record_of_loc (Zpos a) l) = Zpos a /\ loc_of_shr_record (shr_record_of_loc (Zpos a) l) = l)
      by (by destruct l as [|[| |]]). destruct El as [-> ->].
    destruct (Hr (Zpos a) l) as [R1 R2].
    destruct (round_second s (round_nearest_even (Zpos a) l) e) as (m & e2 & B1 & B2 & B3); [lia|lia|].
    exists 0, (round_nearest_even (Zpos a) l), m, e2. rewrite Z.pow_0_r, Z.div_1_r, Z.add_0_r.
    split; [by left|]. split; [done|]. split; [by intros ? _; auto|]. done.
  - rewrite (digits_range a 54) by lia. unfold fexp at 1, emin at 1.
    replace (Z.max (54 + e - 53) (3 - 1024 - 53) - e) with 1 by lia. cbn [shr SpecFloat.iter_pos].
    assert (El : exists l', shr_m (shr_1 (shr_record_of_loc (Zpos a) l)) = Zpos a / 2 /\
      loc_of_shr_record (shr_1 (shr_record_of_loc (Zpos a) l)) = l' /\
      (l = loc_Exact -> Zpos a mod 2 = 0 -> l' = loc_Exact)).
    { destruct a as [a|a|]; [..|lia].
      - eexists. split; [|split; [done|]].
        + replace (Zpos a~1 / 2) with (Zpos a); [by destruct l as [|[| |]]|].
          rewrite Pos2Z.inj_xI. apply (Z.div_unique _ _ _ 1); lia.
        + intros _ Hm. rewrite Pos2Z.inj_xI in Hm. rewrite Z.add_comm, Z.mul_comm, Z.mod_add in Hm by lia. done.
      - eexists. split; [|split; [done|]].
        + replace (Zpos a~0 / 2) with (Zpos a); [by destruct l as [|[| |]]|].
          rewrite Pos2Z.inj_xO. apply (Z.div_unique _ _ _ 0); lia.
        + by intros -> _. }
    destruct El as (l' & -> & -> & Hl'). destruct (Hr (Zpos a / 2) l') as [R1 R2].
    assert (Ha2 : 2 ^ 52 <= Zpos a / 2 < 2 ^ 53).
    { split; [apply Z.div_le_lower_bound; lia|apply Z.div_lt_upper_bound; lia]. }
    destruct (round_second s (round_nearest_even (Zpos a / 2) l') (e + 1)) as (m & e2 & B1 & B2 & B3); [lia|lia|].
    exists 1, (round_nearest_even (Zpos a / 2) l'), m, e2. rewrite Z.pow_1_r.
    split; [by right|]. split; [done|]. split; [intros; auto|]. done.
Qed.

(** [t] is the least integer not below the double. *)
Definition is_ceil (f : spec_float) (t : Z) : Prop :=
  match f with
  | S754_zero _ => t = 0
  | S754_finite s m e =>
      (t - 1) * 2 ^ Z.max 0 (- e) < cond_Zopp s (Zpos m) * 2 ^ Z.max 0 e <= t * 2 ^ Z.max 0 (- e)
  | _ => False
  end.

Lemma canon_digits r : ndig r <= 53 -> Zdigits2 (Zpos (Z.to_pos (Zpos r * 2 ^ (53 - ndig r)))) = 53.
Proof.
  intros Hr. cbn [Zdigits2]. rewrite digits_log2, (ndig_shift r _ (53 - ndig r)); [lia|lia|].
  rewrite Z2Pos.id; [done|]. apply Z.mul_pos_pos; lia.
Qed.

(** The mantissa before rounding of the quotient of an integer by 100, at the scale
    2^(60 - ndig p), and what was cut off. *)
Lemma div100_core p :
  Zpos p < 2 ^ 52 ->
  let F := 2 ^ (60 - ndig p) in
  exists a l, 2 ^ 52 <= Zpos a < 2 ^ 54 /\ 100 * Zpos a <= Zpos p * F < 100 * Zpos a + 100 /\
    (100 * Zpos a = Zpos p * F -> l = loc_Exact) /\
    ddiv (canon false p) (canon false 100) = binary_round_aux 53 1024 false (Zpos a) (ndig p - 60) l.
Proof.
  intros Hp F. pose proof (ndig_pos p). assert (Hd : ndig p <= 52) by (by apply ndig_le).
  pose proof (Z.log2_spec (Zpos p) ltac:(lia)) as Hlog.
  replace (Z.log2 (Zpos p)) with (ndig p - 1) in Hlog by (unfold ndig; lia).
  replace (Z.succ (ndig p - 1)) with (ndig p) in Hlog by lia.
  assert (Hpf : 2 ^ 59 <= Zpos p * F < 2 ^ 60).
  { assert (2 ^ (ndig p - 1) * F = 2 ^ 59 /\ 2 ^ ndig p * F = 2 ^ 60) as [<- <-].
    { unfold F. rewrite <- !Z.pow_add_r by lia. split; f_equal; lia. }
    assert (0 < F) by (apply Z.pow_pos_nonneg; lia). clearbody F. nia. }
  unfold ddiv, canon. cbn [SFdiv]. unfold SFdiv_core_binary. rewrite (canon_digits p) by lia.
  replace (ndig 100) with 7 by done.
  rewrite (canon_digits 100 ltac:(done) : Zdigits2 (Zpos (Z.to_pos (100 * 2 ^ (53 - 7)))) = 53).
  replace (53 + (ndig p - 53) - (53 + (7 - 53))) with (ndig p - 7) by lia.
  replace (ndig p - 53 - (7 - 53)) with (ndig p - 7) by lia.
  replace (Z.min (fexp 53 1024 (ndig p - 7)) (ndig p - 7)) with (ndig p - 60) by (unfold fexp, emin; lia).
  replace (ndig p - 7 - (ndig p - 60)) with 53 by lia.
  rewrite Z.shiftl_mul_pow2, !Z2Pos.id by (lia || apply Z.mul_pos_pos; lia).
  assert (Zpos p * 2 ^ (53 - ndig p) * 2 ^ 53 = Zpos p * F * 2 ^ 46) as ->.
  { rewrite <- !Z.mul_assoc. f_equal. unfold F. rewrite <- !Z.pow_add_r by lia. f_equal. lia. }
  replace (100 * 2 ^ (53 - 7)) with (100 * 2 ^ 46) by done.
  pose proof (Z_div_mod (Zpos p * F * 2 ^ 46) (100 * 2 ^ 46) ltac:(lia)) as Hdm.
  destruct (Z.div_eucl _ _) as [a b]. destruct Hdm as [Ha Hb]. clearbody F.
  destruct a as [|a|a]; [lia| |lia].
  exists a, (new_location (100 * 2 ^ 46) b). split; [lia|]. split; [lia|]. split; [|done].
  intros Hex. by assert (b = 0) as -> by lia.
Qed.

(** The ceiling of the quotient of an integer by 100 survives the rounding of the
    quotient. *)
Lemma div100_ceil p :
  Zpos p < 2 ^ 52 -> is_ceil (ddiv (canon false p) (canon false 100)) ((Zpos p + 99) / 100).
Proof.
  intros Hp. destruct (div100_core p Hp) as (a & l & Har & Hab & Hl & ->).
  pose proof (ndig_pos p). assert (Hd : ndig p <= 52) by (by apply ndig_le).
  set (K := (Zpos p + 99) / 100).
  assert (HK : 100 * (K - 1) + 1 <= Zpos p <= 100 * K).
  { pose proof (Z.div_mod (Zpos p + 99) 100). pose proof (Z.mod_pos_bound (Zpos p + 99) 100). fold K in H0. lia. }
  clearbody K.
  destruct (round_bracket false a (ndig p - 60) l) as (c & w & m & e2 & Hc & Hw & Hex & He2 & Hm & ->); [done|lia|].
  simpl. rewrite (Z.max_l 0 e2), (Z.max_r 0 (- e2)), Z.pow_0_r, Z.mul_1_r by lia.
  set (j := e2 - (ndig p - 60 + c)) in *. set (F := 2 ^ (60 - ndig p)) in *.
  assert (HFs : F = 2 ^ (- e2) * (2 ^ c * 2 ^ j))
    by (unfold F; rewrite <- !Z.pow_add_r by (unfold j in *; lia); f_equal; unfold j; lia).
  assert (HF : 2 ^ 8 <= F) by (apply Z.pow_le_mono_r; lia).
  assert (Hcj : 0 < 2 ^ c * 2 ^ j) by (apply Z.mul_pos_pos; apply Z.pow_pos_nonneg; unfold j in *; lia).
  assert (Hev : K * F = K * 2 ^ (60 - ndig p - c) * 2 ^ c).
  { rewrite <- Z.mul_assoc, <- Z.pow_add_r by lia. unfold F. do 2 f_equal. lia. }
  assert (Hc2 : 2 ^ c = 1 \/ 2 ^ c = 2) by (destruct Hc as [->| ->]; [by left|by right]).
  assert (Hlo : (K - 1) * F + 2 <= Zpos a).
  { clear -HF HK Hab. clearbody F. assert (Zpos p * F - 100 * ((K - 1) * F) >= F) by nia. lia. }
  assert (Hwc : (K - 1) * F < w * 2 ^ c <= K * F).
  { pose proof (Z.div_mod (Zpos a) (2 ^ c) ltac:(lia)) as Hdv. pose proof (Z.mod_pos_bound (Zpos a) (2 ^ c) ltac:(lia)).
    destruct (Z.eq_dec (Zpos p) (100 * K)) as [Ex|Ex].
    - assert (Ea : Zpos a = K * F) by (clear -Hab Ex; clearbody F; rewrite Ex in Hab; lia).
      assert (Hm0 : Zpos a mod 2 ^ c = 0) by (rewrite Ea, Hev; apply Z.mod_mul; lia).
      rewrite (Hex (Hl ltac:(rewrite Ex, Ea; ring)) Hm0), (Z.mul_comm (_ / _)).
      rewrite Hm0, Z.add_0_r in Hdv. rewrite <- Hdv. lia.
    - assert (Hup : Zpos a <= K * F - 3).
      { clear -HF HK Hab Ex. clearbody F. assert (100 * (K * F) - Zpos p * F >= F) by nia. lia. }
      clear Hev Hex HFs Hl Hab. clearbody F. destruct Hc2 as [Hc2|Hc2]; rewrite Hc2 in *; lia. }
  rewrite HFs, <- Hm in Hwc. clear -Hwc Hcj. nia.
Qed.

(** Percentile k of n records, k * n < 2^52: the threshold before the conversion. *)
Lemma percent_ceil k n :
  0 <= k -> 0 <= n -> k < 2 ^ 53 -> n < 2 ^ 53 -> k * n < 2 ^ 52 ->
  is_ceil (ddiv (dmul (dbl k) (dbl n)) (dbl 100)) ((k * n + 99) / 100).
Proof.
  intros Hk Hn Hkb Hnb Hb.
  destruct (dmul_int (dbl k) (dbl n) k n) as [_ Hm]; [apply dbl_int; lia|apply dbl_int; lia|lia|].
  destruct (dbl_int 100) as [_ H100]; [lia|]. rewrite H100.
  destruct (k * n) as [|p|p] eqn:E; [|rewrite Hm; by apply div100_ceil|lia].
  destruct Hm as [s ->]. by destruct s.
Qed.

(** An integer against the machine epsilon. *)
Lemma dge_eps_int f z : is_int f z -> dge f DBL_EPSILON = (0 <? z).
Proof.
  intros [Hz Hf]. destruct z as [|p|p]; simpl in Hf; [by destruct Hf as [[|] ->]|..]; subst f; [|done].
  unfold dge, canon, DBL_EPSILON. cbn [SFcompare]. pose proof (ndig_pos p).
  by rewrite (proj2 (Z.compare_gt_iff (ndig p - 53) (-104))) by lia.
Qed.

End Exact.
