(* ===== verification/Metric.v ===== *)
(** * Metrics (include/cc_metric.h, src/stats/cc_metric.c)

    A [struct metric] is a name, a description and a union tagged by its type.
    A module keeps a pointer to a struct of metrics that may be NULL; here that
    pointer is an [option] and the struct a map from field names to metrics.
    The INCR/DECR/UPDATE_VAL macros act on one field through the pointer.

    The development models the build with CC_STATS on (the default of
    CMakeLists.txt). *)

From Stdlib Require Import SpecFloat.
From S2P Require Import Prelude Double.
Local Open Scope Z_scope.

Inductive metric_type_e := METRIC_COUNTER | METRIC_GAUGE | METRIC_FPN.

#[export] Instance metric_type_eq_dec : EqDecision metric_type_e.
Proof. solve_decision. Defined.

(** The anonymous union of [struct metric], tagged by the metric's type:
    uint64_t counter, int64_t gauge, double fpn. *)
Inductive metric_val :=
| Counter (n : Z)
| Gauge (n : Z)
| Fpn (d : spec_float).

Record metric := Metric { m_name : string; m_desc : string; m_val : metric_val }.

Definition m_type (m : metric) : metric_type_e :=
  match m_val m with
  | Counter _ => METRIC_COUNTER
  | Gauge _ => METRIC_GAUGE
  | Fpn _ => METRIC_FPN
  end.

Definition with_val (m : metric) (v : metric_val) : metric :=
  Metric (m_name m) (m_desc m) v.

Definition metric_incr_n (m : metric) (delta : Z) : metric :=
  match m_val m with
  | Counter n => with_val m (Counter (u64 (n + delta)))
  | Gauge n => with_val m (Gauge (i64 (n + delta)))
  | Fpn _ => m
  end.

Definition metric_decr_n (m : metric) (delta : Z) : metric :=
  match m_val m with
  | Gauge n => with_val m (Gauge (i64 (n - delta)))
  | _ => m
  end.

Definition metric_update_val (m : metric) (v : Z) : metric :=
  match m_val m with
  | Counter _ => with_val m (Counter (u64 v))
  | Gauge _ => with_val m (Gauge (i64 v))
  | Fpn _ => with_val m (Fpn (double_of_Z v))
  end.

(** A possibly NULL pointer to a module's metrics struct. *)
Abbreviation metrics_st := (option (gmap string metric)).

Definition on_metric (f : metric -> metric) (ms : metrics_st) (field : string)
  : metrics_st := match ms with
                  | None => None
                  | Some s => Some (alter f field s)
                  end.

Definition INCR_N (ms : metrics_st) (field : string) (delta : Z) : metrics_st :=
  on_metric (fun m => metric_incr_n m delta) ms field.

Definition INCR (ms : metrics_st) (field : string) : metrics_st := INCR_N ms field 1.

Definition DECR_N (ms : metrics_st) (field : string) (delta : Z) : metrics_st :=
  on_metric (fun m => metric_decr_n m delta) ms field.

Definition DECR (ms : metrics_st) (field : string) : metrics_st := DECR_N ms field 1.

Definition UPDATE_VAL (ms : metrics_st) (field : string) (v : Z) : metrics_st :=
  on_metric (fun m => metric_update_val m v) ms field.

(** METRIC_INIT: a field initialised from its declaration, value zeroed. *)
Definition zero_val (t : metric_type_e) : metric_val :=
  match t with
  | METRIC_COUNTER => Counter 0
  | METRIC_GAUGE => Gauge 0
  | METRIC_FPN => Fpn (S754_zero false)
  end.

Definition METRIC_INIT (name : string) (t : metric_type_e) (desc : string)
  : string * metric := (name, Metric name desc (zero_val t)).

Definition metric_reset1 (m : metric) : metric := with_val m (zero_val (m_type m)).

(** metric_reset over an array of metrics, [None] being a NULL array. *)
Definition metric_reset (sarr : option (list metric)) (n : Z)
  : option (list metric) :=
  match sarr with
  | None => None
  | Some l => Some (map metric_reset1 (take (Z.to_nat n) l) ++ drop (Z.to_nat n) l)
  end.

(** ** Reading a field *)

Definition counter_of (ms : metrics_st) (field : string) : option Z :=
  match ms with
  | Some s => match s !! field with
              | Some (Metric _ _ (Counter n)) => Some n
              | _ => None
              end
  | None => None
  end.

Definition gauge_of (ms : metrics_st) (field : string) : option Z :=
  match ms with
  | Some s => match s !! field with
              | Some (Metric _ _ (Gauge n)) => Some n
              | _ => None
              end
  | None => None
  end.

Create Rewrite HintDb metric.

Section Lemmas.
Implicit Types (ms : metrics_st) (f g : string) (d : Z).

Lemma on_metric_other h ms f g :
  f ≠ g -> on_metric h ms f = None \/
  (forall s s', ms = Some s -> on_metric h ms f = Some s' -> s' !! g = s !! g).
Proof.
  intros Hne. destruct ms as [s|]; [right|by left].
  simpl. intros ? ? [= <-] [= <-]. by apply lookup_alter_ne.
Qed.

Lemma gauge_on_ne h ms f g : f ≠ g -> gauge_of (on_metric h ms f) g = gauge_of ms g.
Proof. intros. destruct ms as [s|]; [|done]. simpl. by rewrite lookup_alter_ne. Qed.

Lemma counter_on_ne h ms f g : f ≠ g -> counter_of (on_metric h ms f) g = counter_of ms g.
Proof. intros. destruct ms as [s|]; [|done]. simpl. by rewrite lookup_alter_ne. Qed.

Lemma gauge_incr ms f d v :
  gauge_of ms f = Some v -> gauge_of (INCR_N ms f d) f = Some (i64 (v + d)).
Proof.
  destruct ms as [s|]; [|done]. simpl. rewrite lookup_alter_eq.
  by destruct (s !! f) as [[? ? []]|]; intros [= ->].
Qed.

Lemma gauge_decr ms f d v :
  gauge_of ms f = Some v -> gauge_of (DECR_N ms f d) f = Some (i64 (v - d)).
Proof.
  destruct ms as [s|]; [|done]. simpl. rewrite lookup_alter_eq.
  by destruct (s !! f) as [[? ? []]|]; intros [= ->].
Qed.

Lemma counter_incr ms f d v :
  counter_of ms f = Some v -> counter_of (INCR_N ms f d) f = Some (u64 (v + d)).
Proof.
  destruct ms as [s|]; [|done]. simpl. rewrite lookup_alter_eq.
  by destruct (s !! f) as [[? ? []]|]; intros [= ->].
Qed.

(** A counter never goes down: DECR leaves it as it is. *)
Lemma counter_decr ms f g d : counter_of (DECR_N ms f d) g = counter_of ms g.
Proof.
  destruct (decide (f = g)) as [->|]; [|by apply counter_on_ne].
  destruct ms as [s|]; [|done]. simpl. rewrite lookup_alter_eq.
  by destruct (s !! g) as [[? ? []]|].
Qed.

Lemma gauge_incr_ne ms f g d : f ≠ g -> gauge_of (INCR_N ms f d) g = gauge_of ms g.
Proof. apply gauge_on_ne. Qed.

Lemma gauge_decr_ne ms f g d : f ≠ g -> gauge_of (DECR_N ms f d) g = gauge_of ms g.
Proof. apply gauge_on_ne. Qed.

End Lemmas.

(** The value of a gauge after a sequence of updates. *)
Ltac gauge :=
  unfold INCR, DECR;
  match goal with
  | |- gauge_of (INCR_N _ ?f _) ?f = _ => eapply gauge_incr; gauge
  | |- gauge_of (DECR_N _ ?f _) ?f = _ => eapply gauge_decr; gauge
  | |- gauge_of (INCR_N _ _ _) _ = _ => rewrite gauge_incr_ne by discriminate; gauge
  | |- gauge_of (DECR_N _ _ _) _ = _ => rewrite gauge_decr_ne by discriminate; gauge
  | _ => eassumption
  end.

(** ** Metrics under a sequence of updates *)

(** Counter [f] went up by [n], modulo 2^64. *)
Definition counts (f : string) (n : Z) (ms ms' : metrics_st) : Prop :=
  forall v, counter_of ms f = Some v -> exists v', counter_of ms' f = Some v' /\ u64 v' = u64 (v + n).

Lemma counts_refl f ms : counts f 0 ms ms.
Proof. intros v Hv. exists v. by rewrite Z.add_0_r. Qed.

Lemma counts_incr f d n ms ms' : counts f n ms ms' -> counts f (n + d) ms (INCR_N ms' f d).
Proof.
  intros H v Hv. destruct (H v Hv) as (v' & H1 & H2). exists (u64 (v' + d)).
  split; [by apply counter_incr|]. rewrite <- u64_add_l, H2. unfold u64. mlia.
Qed.

Lemma counts_other f g d n ms ms' : f ≠ g -> counts f n ms ms' -> counts f n ms (INCR_N ms' g d).
Proof.
  intros Hne H v Hv. destruct (H v Hv) as (v' & H1 & H2). exists v'. split; [|done].
  unfold INCR_N. by rewrite counter_on_ne.
Qed.

Lemma counts_trans f n1 n2 ms ms' ms'' :
  counts f n1 ms ms' -> counts f n2 ms' ms'' -> counts f (n1 + n2) ms ms''.
Proof.
  intros H1 H2 v Hv. destruct (H1 v Hv) as (v1 & Hv1 & E1). destruct (H2 v1 Hv1) as (v2 & Hv2 & E2).
  exists v2. split; [done|]. rewrite E2, <- u64_add_l, E1. unfold u64. mlia.
Qed.

Lemma counts_eq f n m ms ms' : counts f n ms ms' -> n = m -> counts f m ms ms'.
Proof. by intros ? <-. Qed.

(** The counts a chain of INCRs makes, up to the form of the sum. *)
Ltac counts_go :=
  lazymatch goal with
  | |- counts ?f _ _ (INCR_N _ ?f _) => eapply counts_incr; counts_go
  | |- counts _ _ _ (INCR_N _ _ _) => eapply counts_other; [discriminate|counts_go]
  | |- counts _ _ ?ms ?ms => apply counts_refl
  | _ => eassumption
  end.

Ltac counts := unfold INCR in *; eapply counts_eq; [counts_go|first [lia|reflexivity]].

(** A chain of INCRs, then the counts of [H]. *)
Ltac counts_then H :=
  unfold INCR in *; eapply counts_eq; [eapply counts_trans; [|exact H]; counts_go|lia].

#[export] Hint Rewrite gauge_on_ne counter_on_ne using discriminate : metric.

(** Resetting an array zeroes each of the first [n] metrics, keeps its
    name and type, and keeps the metrics behind them. *)
Theorem metric_reset_spec (l : list metric) (n : Z) (i : nat) (m : metric) :
  l !! i = Some m ->
  exists l', metric_reset (Some l) n = Some l' /\ length l' = length l /\
    l' !! i = Some (if bool_decide (Z.of_nat i < n) then metric_reset1 m else m).
Proof.
  intros Hi. eexists. split; [done|].
  assert (Hl : (i < length l)%nat) by (by apply lookup_lt_Some in Hi).
  rewrite length_app, length_map, length_take, length_drop. split; [lia|].
  case_bool_decide.
  - rewrite lookup_app_l by (rewrite length_map, length_take; lia).
    rewrite list_lookup_fmap, lookup_take_lt by lia. by rewrite Hi.
  - rewrite lookup_app_r by (rewrite length_map, length_take; lia).
    rewrite lookup_drop, length_map, length_take.
    by replace (Z.to_nat n + (i - Z.to_nat n `min` length l))%nat with i by lia.
Qed.
