(* ===== verification/Mm.v ===== *)
(** * Memory management wrappers (include/cc_mm.h, src/cc_mm.c)

    The heap maps addresses to blocks of bytes.  malloc, realloc and free are
    the C library's: what they decide (the address they return, or NULL, and the
    bytes of fresh memory) is an argument of the definitions, and
    [malloc_ok] states what the C standard promises about it. *)

From S2P Require Import Prelude.
Local Open Scope Z_scope.

(** cc_alloc as the other components use it, for an object of type [A]:
    [p] is what malloc returns. *)
Definition cc_alloc {A : Type} (size : Z) (p : option A) : option A :=
  if size =? 0 then None else p.

Abbreviation heap := (gmap Z (list byte)).

(** malloc(size): a fresh block of [size] bytes at [p], or NULL. *)
Definition malloc_ok (h : heap) (size : Z) (r : option (Z * list byte)) : Prop :=
  match r with
  | None => True
  | Some (p, bytes) => p ≠ 0 /\ h !! p = None /\ zlen bytes = size
  end.

Definition malloc (h : heap) (r : option (Z * list byte)) : Z * heap :=
  match r with
  | None => (0, h)
  | Some (p, bytes) => (p, <[p := bytes]> h)
  end.

(** free(NULL) does nothing; freeing anything but a live block is undefined. *)
Definition free (h : heap) (p : Z) : option heap :=
  if p =? 0 then Some h else
  match h !! p with
  | Some _ => Some (delete p h)
  | None => None
  end.

(** realloc(ptr, size): on failure the old block stays; on success its first
    bytes move to the new block, whose remaining bytes are those of [r]. *)
Definition realloc (h : heap) (ptr size : Z) (r : option (Z * list byte))
  : option (Z * heap) :=
  if ptr =? 0 then Some (malloc h r) else
  match h !! ptr with
  | None => None
  | Some old =>
      match r with
      | None => Some (0, h)
      | Some (p, bytes) =>
          Some (p, <[p := take (Z.to_nat size) old ++ drop (length old) bytes]>
                     (delete ptr h))
      end
  end.

(** What realloc may return: NULL, the old address, or a fresh one. *)
Definition realloc_ok (h : heap) (ptr size : Z) (r : option (Z * list byte)) : Prop :=
  malloc_ok (delete ptr h) size r.

Definition _cc_alloc (h : heap) (size : Z) (r : option (Z * list byte)) : Z * heap :=
  if size =? 0 then (0, h) else malloc h r.

Definition _cc_zalloc (h : heap) (size : Z) (r : option (Z * list byte)) : Z * heap :=
  let '(p, h') := _cc_alloc h size r in
  if p =? 0 then (p, h')
  else (p, <[p := replicate (Z.to_nat size) 0]> h').

Definition _cc_calloc (h : heap) (nmemb size : Z) (r : option (Z * list byte)) : Z * heap :=
  _cc_zalloc h (u64 (nmemb * size)) r.

Definition _cc_realloc (h : heap) (ptr size : Z) (r : option (Z * list byte))
  : option (Z * heap) :=
  if size =? 0 then h' ← free h ptr; Some (0, h')
  else realloc h ptr size r.

(** realloc, then malloc of a second block and a copy into it, so that the
    address changes; the realloc'd block is freed on every path. *)
Definition _cc_realloc_move (h : heap) (ptr size : Z) (r r2 : option (Z * list byte))
  : option (Z * heap) :=
  if size =? 0 then h' ← free h ptr; Some (0, h')
  else
    '(pr, h1) ← realloc h ptr size r;
    if pr =? 0 then h' ← free h1 pr; Some (0, h')
    else
      let '(p, h2) := malloc h1 r2 in
      if p =? 0 then h' ← free h2 pr; Some (0, h')
      else
        src ← h2 !! pr;
        bytes ← memread src 0 size;
        h' ← free (<[p := bytes]> h2) pr;
        Some (p, h').

Definition _cc_free (h : heap) (ptr : Z) : option heap := free h ptr.

(** cc_free(_p) also sets _p to NULL. *)
Definition cc_free (h : heap) (p : Z) : option (Z * heap) := h ← _cc_free h p; Some (0, h).

(** cc_realloc is the moving variant in debug builds. *)
Definition cc_realloc (CC_DEBUG_MM : bool) (h : heap) (ptr size : Z) (r r2 : option (Z * list byte))
  : option (Z * heap) :=
  if CC_DEBUG_MM then _cc_realloc_move h ptr size r r2 else _cc_realloc h ptr size r.

(** Mapped regions are blocks of zeroes; [r] is what mmap returns, [None] for
    MAP_FAILED, and [status] what munmap of a whole region returns. *)
Definition _cc_mmap (h : heap) (size : Z) (r : option Z) : Z * heap :=
  match r with
  | None => (0, h)
  | Some p => (p, <[p := replicate (Z.to_nat size) 0]> h)
  end.
Definition _cc_munmap (h : heap) (p size status : Z) : Z * heap :=
  (status, if status <? 0 then h else delete p h).

(** ** Properties *)

Lemma alloc_live h size r p h' :
  malloc_ok h size r -> _cc_alloc h size r = (p, h') -> p ≠ 0 ->
  h !! p = None /\ exists bytes, h' !! p = Some bytes /\ zlen bytes = size.
Proof.
  unfold _cc_alloc, malloc, malloc_ok. case_zcmp; [by intros _ [= <- <-]|].
  destruct r as [[q bytes]|]; intros Hr [= <- <-] Hp; [|done].
  destruct Hr as (? & ? & ?). split; [done|]. exists bytes.
  by rewrite lookup_insert_eq.
Qed.

(** Growing or shrinking a block keeps its common prefix. *)
Lemma realloc_prefix h ptr size r p h' old :
  realloc_ok h ptr size r -> 0 < size -> ptr ≠ 0 -> h !! ptr = Some old ->
  _cc_realloc h ptr size r = Some (p, h') -> p ≠ 0 ->
  exists new, h' !! p = Some new /\ zlen new = size /\
    take (Z.to_nat (Z.min (zlen old) size)) new =
    take (Z.to_nat (Z.min (zlen old) size)) old.
Proof.
  intros Hr Hs Hp Ho. unfold _cc_realloc, realloc. case_zcmp; [lia..|].
  rewrite Ho. destruct r as [[q bytes]|]; intros [= <- <-] Hq; [|done].
  destruct Hr as (_ & _ & Hb). unfold zlen in *.
  eexists. rewrite lookup_insert_eq. split; [done|]. split.
  - rewrite length_app, length_take, length_drop. lia.
  - rewrite take_app_le by (rewrite length_take; lia).
    rewrite take_take. f_equal. lia.
Qed.

(** cc_calloc zeroes what it returns. *)
Lemma calloc_zero h n size r p h' :
  _cc_calloc h n size r = (p, h') -> p ≠ 0 ->
  h' !! p = Some (replicate (Z.to_nat (u64 (n * size))) 0).
Proof.
  unfold _cc_calloc, _cc_zalloc. destruct (_cc_alloc _ _ _) as [q h1].
  destruct (Z.eqb_spec q 0); intros [= <- <-] Hp; [done|]. by rewrite lookup_insert_eq.
Qed.

Theorem realloc_failure_keeps_block h ptr size p h' :
  0 < size -> is_Some (h !! ptr) -> ptr ≠ 0 ->
  _cc_realloc h ptr size None = Some (p, h') -> p = 0 /\ h' = h.
Proof.
  intros Hs [old Ho] Hp. unfold _cc_realloc, realloc. case_zcmp; [lia..|].
  rewrite Ho. by intros [= <- <-].
Qed.

(** The moving variant loses the block when the second allocation fails: the
    call returns NULL and the caller's pointer is dangling. *)
Theorem realloc_move_failure_frees h ptr size p bytes :
  0 < size -> is_Some (h !! ptr) -> ptr ≠ 0 -> p ≠ 0 ->
  realloc_ok h ptr size (Some (p, bytes)) ->
  exists h', _cc_realloc_move h ptr size (Some (p, bytes)) None = Some (0, h') /\
    h' !! ptr = None.
Proof.
  intros Hs [old Ho] Hp Hq (Hq0 & Hfree & _).
  unfold _cc_realloc_move, realloc. case_zcmp; [lia..|].
  rewrite Ho. simpl. case_zcmp; [done|]. unfold free. case_zcmp; [done|].
  rewrite lookup_insert_eq. simpl. eexists. split; [done|].
  destruct (decide (p = ptr)) as [->|]; [apply lookup_delete_eq|].
  rewrite lookup_delete_ne by done. rewrite lookup_insert_ne by done.
  apply lookup_delete_eq.
Qed.

(** What is mapped reads as zeroes and is gone after cc_munmap. *)
Lemma mmap_munmap h size p q h1 h2 st :
  h !! p = None -> _cc_mmap h size (Some p) = (q, h1) -> _cc_munmap h1 q size 0 = (st, h2) ->
  h1 !! q = Some (replicate (Z.to_nat size) 0) /\ st = 0 /\ h2 = h.
Proof.
  intros Hp [= <- <-] [= <- <-]. rewrite lookup_insert_eq. split; [done|]. split; [done|]. by rewrite delete_insert_id.
Qed.
