(* ===== verification/Rbuf.v ===== *)
(** * The byte ring buffer (include/cc_rbuf.h, src/cc_rbuf.c)

    [struct rbuf] holds two uint32_t offsets, the capacity and cap + 1 data
    bytes.  rbuf_read and rbuf_write copy in up to two runs around the end of
    the data.  The abstract value of a buffer is the list of its unread bytes
    ([contents]); the theorems show that the operations are those of a FIFO of
    at most [cap] bytes, and where rbuf_write leaves that contract. *)

From S2P Require Import Prelude Metric Mm.
Local Open Scope Z_scope.

Record rbuf := Rbuf { rpos : Z; wpos : Z; cap : Z; data : list byte }.

(** offsetof(struct rbuf, data): three uint32_t. *)
Definition RBUF_HDR_SIZE : Z := 12.

Definition get_rpos (b : rbuf) : Z := rpos b.
Definition get_wpos (b : rbuf) : Z := wpos b.
Definition set_rpos (b : rbuf) (p : Z) : rbuf := Rbuf p (wpos b) (cap b) (data b).
Definition set_wpos (b : rbuf) (p : Z) : rbuf := Rbuf (rpos b) p (cap b) (data b).
Definition set_data (b : rbuf) (d : list byte) : rbuf :=
  Rbuf (rpos b) (wpos b) (cap b) d.

(** ** Module state, setup, creation *)

Record rbuf_module := RbufModule { rbuf_metrics : metrics_st; rbuf_init : bool }.

Definition rbuf_setup (metrics : metrics_st) (m : rbuf_module) : rbuf_module :=
  RbufModule metrics true.

Definition rbuf_teardown (m : rbuf_module) : rbuf_module := RbufModule None false.

Definition on_metrics (f : metrics_st -> metrics_st) (m : rbuf_module) : rbuf_module :=
  RbufModule (f (rbuf_metrics m)) (rbuf_init m).

(** rbuf_create: [mem] is what malloc returns, the (uninitialised) data area of
    the new object or NULL.  The struct is returned with the module's metrics. *)
Definition rbuf_create (c : Z) (mem : option (list byte)) (m : rbuf_module)
  : option rbuf * rbuf_module :=
  match cc_alloc (u64 (RBUF_HDR_SIZE + c + 1)) mem with
  | None => (None, on_metrics (fun ms => INCR ms "rbuf_create_ex") m)
  | Some d =>
      (Some (Rbuf 0 0 c d),
       on_metrics (fun ms =>
         INCR_N (INCR (INCR ms "rbuf_create") "rbuf_curr") "rbuf_byte"
           (RBUF_HDR_SIZE + c + 1)) m)
  end.

(** rbuf_destroy: the pointer cell after the call, and the metrics. *)
Definition rbuf_destroy (b : option rbuf) (m : rbuf_module) : option rbuf * rbuf_module :=
  match b with
  | None => (None, m)
  | Some b =>
      (None,
       on_metrics (fun ms =>
         DECR_N (DECR (INCR ms "rbuf_destroy") "rbuf_curr") "rbuf_byte"
           (RBUF_HDR_SIZE + cap b + 1)) m)
  end.

(** ** Capacities *)

Definition rbuf_rcap (b : rbuf) : Z :=
  let rpos := get_rpos b in
  let wpos := get_wpos b in
  if wpos <? rpos
  then u32 (u32 (u32 (cap b + wpos) - rpos) + 1)
  else u32 (wpos - rpos).

Definition rbuf_wcap (b : rbuf) : Z :=
  let rpos := get_rpos b in
  let wpos := get_wpos b in
  if wpos <? rpos
  then u32 (u32 (rpos - wpos) - 1)
  else u32 (u32 (cap b - wpos) + rpos).

(** The arguments are converted to uint32_t. *)
Definition _min (first second : Z) : Z :=
  if u32 first <? u32 second then u32 first else u32 second.

(** ** Reading and writing

    [None] is an access outside the data area.  rbuf_read yields the bytes it
    stored at dst, its return value and the buffer. *)

Definition rbuf_read (src : rbuf) (n : Z) : option (list byte * Z * rbuf) :=
  let rpos := get_rpos src in
  let wpos := get_wpos src in
  if wpos <? rpos then
    let capacity := u32 (u32 (cap src - rpos) + 1) in
    let ret := _min capacity n in
    d1 ← memread (data src) rpos ret;
    if ret <? n then
      let capacity := wpos in
      let remaining_bytes := _min capacity (u64 (n - ret)) in
      d2 ← memread (data src) 0 remaining_bytes;
      let ret := u64 (ret + remaining_bytes) in
      Some (d1 ++ d2, ret, set_rpos src remaining_bytes)
    else Some (d1, ret, set_rpos src (u32 (rpos + ret)))
  else
    let capacity := u32 (wpos - rpos) in
    let ret := _min capacity n in
    d1 ← memread (data src) rpos ret;
    Some (d1, ret, set_rpos src (u32 (rpos + ret))).

(** rbuf_write of the n bytes at [src]: the return value and the buffer. *)
Definition rbuf_write (dst : rbuf) (src : list byte) (n : Z) : option (Z * rbuf) :=
  let rpos := get_rpos dst in
  let wpos := get_wpos dst in
  if wpos <? rpos then
    let capacity := u32 (u32 (rpos - wpos) - 1) in
    let ret := _min capacity n in
    s1 ← memread src 0 ret;
    d ← memwrite (data dst) wpos s1;
    Some (ret, set_wpos (set_data dst d) (u32 (wpos + ret)))
  else
    let capacity := u32 (u32 (cap dst - wpos) + 1) in
    let ret := _min capacity n in
    s1 ← memread src 0 ret;
    d ← memwrite (data dst) wpos s1;
    if ret <? n then
      let capacity := u32 (rpos - 1) in
      let remaining_bytes := _min capacity (u64 (n - ret)) in
      s2 ← memread src ret remaining_bytes;
      d' ← memwrite d 0 s2;
      Some (u64 (ret + remaining_bytes),
            set_wpos (set_data dst d') remaining_bytes)
    else Some (ret, set_wpos (set_data dst d) (u32 (wpos + ret))).

(** ** The abstract queue *)

Definition contents (b : rbuf) : list byte :=
  if wpos b <? rpos b
  then slice (data b) (rpos b) (cap b + 1 - rpos b) ++ slice (data b) 0 (wpos b)
  else slice (data b) (rpos b) (wpos b - rpos b).

(** Offsets lie in [0, cap + 1]: the code leaves an offset at cap + 1 where the
    run it copied ends exactly at the end of the data, and wraps it at the next
    access.  cap + 1 must itself fit uint32_t. *)
Record rbuf_wf (b : rbuf) : Prop := {
  wf_cap : 0 <= cap b < UINT32_MAX;
  wf_data : zlen (data b) = cap b + 1;
  wf_rpos : 0 <= rpos b <= cap b + 1;
  wf_wpos : 0 <= wpos b <= cap b + 1;
  wf_room : wpos b - rpos b <= cap b;
}.

(** The number of unread bytes. *)
Definition used (b : rbuf) : Z :=
  if wpos b <? rpos b then cap b + 1 - rpos b + wpos b else wpos b - rpos b.

Ltac wf_facts H :=
  pose proof (wf_cap _ H); pose proof (wf_data _ H); pose proof (wf_rpos _ H);
  pose proof (wf_wpos _ H); pose proof (wf_room _ H); unfold UINT32_MAX in *.

Section Lemmas.
Implicit Types b : rbuf.

Lemma min_small x y :
  0 <= x < 4294967296 -> 0 <= y < 4294967296 -> _min x y = Z.min x y.
Proof. intros. unfold _min. unwrap_in_goal. case_zcmp; lia. Qed.

Lemma used_range b : rbuf_wf b -> 0 <= used b <= cap b.
Proof. intros H. wf_facts H. unfold used. case_zcmp; lia. Qed.

Lemma contents_length b : rbuf_wf b -> zlen (contents b) = used b.
Proof.
  intros H. wf_facts H. unfold contents, used. case_zcmp.
  - rewrite zlen_app, !zlen_slice; lia.
  - rewrite zlen_slice; lia.
Qed.

Lemma rcap_used b : rbuf_wf b -> rbuf_rcap b = used b.
Proof.
  intros H. wf_facts H. unfold rbuf_rcap, used, get_rpos, get_wpos, u32.
  case_zcmp; mlia.
Qed.

Lemma wcap_room b : rbuf_wf b -> rbuf_wcap b = cap b - used b.
Proof.
  intros H. wf_facts H. unfold rbuf_wcap, used, get_rpos, get_wpos, u32.
  case_zcmp; mlia.
Qed.


(** The run that is read or written without wrapping. *)
Lemma read_straight b n :
  rbuf_wf b -> 0 <= n < 4294967296 -> rpos b <= wpos b ->
  exists b', rbuf_read b n =
      Some (take (Z.to_nat n) (contents b), Z.min n (used b), b') /\
    rbuf_wf b' /\ contents b' = drop (Z.to_nat n) (contents b) /\ cap b' = cap b.
Proof.
  intros H Hn Hle. wf_facts H.
  unfold rbuf_read, contents, used, get_rpos, get_wpos.
  rewrite (proj2 (Z.ltb_ge _ _)) by lia. unwrap_in_goal.
  rewrite min_small by lia. rewrite memread_some by lia. simpl.
  eexists. split.
  { rewrite take_slice by lia. do 3 f_equal; [f_equal; lia|lia]. }
  unwrap_in_goal. split; [constructor; simpl; unfold UINT32_MAX; lia|].
  split; [|done]. simpl. rewrite (proj2 (Z.ltb_ge _ _)) by lia.
  rewrite drop_slice by lia. destruct (Z.le_gt_cases n (wpos b - rpos b)).
  - rewrite Z.min_r by lia. f_equal; lia.
  - rewrite !slice_neg by lia. done.
Qed.

Lemma read_wrapped b n :
  rbuf_wf b -> 0 <= n < 4294967296 -> wpos b < rpos b ->
  exists b', rbuf_read b n =
      Some (take (Z.to_nat n) (contents b), Z.min n (used b), b') /\
    rbuf_wf b' /\ contents b' = drop (Z.to_nat n) (contents b) /\ cap b' = cap b.
Proof.
  intros H Hn Hlt. wf_facts H.
  unfold rbuf_read, contents, used, get_rpos, get_wpos.
  remember (cap b + 1 - rpos b) as k eqn:Ek.
  assert (Hk : zlen (slice (data b) (rpos b) k) = k) by (apply zlen_slice; lia).
  rewrite (proj2 (Z.ltb_lt _ _)) by lia.
  replace (u32 (u32 (cap b - rpos b) + 1)) with k
    by (unfold u32; mlia).
  rewrite (min_small k) by lia. rewrite (memread_some _ (rpos b)) by lia. simpl.
  unfold zlen in Hk. destruct (Z.ltb_spec (Z.min k n) n).
  - rewrite (u64_small (n - _)) by lia. rewrite min_small by lia.
    rewrite memread_some by lia. simpl. eexists. split.
    { rewrite Z.min_l by lia. rewrite take_app_ge by lia.
      replace (Z.to_nat n - length (slice (data b) (rpos b) k))%nat
        with (Z.to_nat (n - k)) by lia.
      rewrite take_slice by lia. rewrite u64_small by lia.
      do 3 f_equal; [f_equal; f_equal; lia|lia]. }
    split; [constructor; simpl; unfold UINT32_MAX; lia|]. split; [|done].
    simpl. rewrite (proj2 (Z.ltb_ge _ _)) by lia.
    rewrite drop_app_ge by lia.
    replace (Z.to_nat n - length (slice (data b) (rpos b) k))%nat
      with (Z.to_nat (n - k)) by lia.
    rewrite drop_slice by lia. destruct (Z.le_gt_cases (n - k) (wpos b)).
    + f_equal; lia.
    + by rewrite !slice_neg by lia.
  - rewrite Z.min_r by lia. eexists. split.
    { rewrite take_app_le by lia. rewrite take_slice by lia.
      do 3 f_equal; [f_equal; lia|lia]. }
    unwrap_in_goal. split; [constructor; simpl; unfold UINT32_MAX; lia|].
    split; [|done]. simpl. rewrite (proj2 (Z.ltb_lt _ _)) by lia.
    rewrite drop_app_le by lia. rewrite drop_slice by lia. f_equal. f_equal; lia.
Qed.


(** What a write of [src] leaves to be appended: the bytes there is room for. *)
Definition write_post b src b' : Prop :=
  rbuf_wf b' /\ contents b' = contents b ++ take (Z.to_nat (cap b - used b)) src /\
  cap b' = cap b.

Lemma write_low b src :
  rbuf_wf b -> zlen src < 4294967296 -> wpos b < rpos b ->
  exists b', rbuf_write b src (zlen src) =
      Some (Z.min (zlen src) (cap b - used b), b') /\ write_post b src b'.
Proof.
  intros H Hn Hlt. wf_facts H. pose proof (zlen_nonneg src).
  unfold rbuf_write, write_post, used, contents, get_rpos, get_wpos.
  rewrite (proj2 (Z.ltb_lt (wpos b) _)) by lia. unwrap_in_goal.
  replace (cap b - (cap b + 1 - rpos b + wpos b)) with (rpos b - wpos b - 1) by lia.
  remember (rpos b - wpos b - 1) as r eqn:Er.
  rewrite min_small by lia. rewrite memread_some by lia. simpl.
  rewrite slice_prefix by lia.
  assert (Hl : zlen (take (Z.to_nat r) src) = Z.min r (zlen src))
    by (unfold zlen; rewrite length_take; lia).
  rewrite memwrite_some by lia. simpl.
  eexists. split; [by rewrite Z.min_comm|]. unwrap_in_goal.
  split; [constructor; simpl; rewrite ?zlen_splice; unfold UINT32_MAX; lia|].
  split; [|done]. simpl. rewrite (proj2 (Z.ltb_lt _ _)) by lia.
  rewrite slice_splice_after by lia. rewrite <- app_assoc. f_equal.
  rewrite slice_split by lia. rewrite slice_splice_before by lia. f_equal.
  rewrite Z.min_comm, <- Hl. apply slice_splice_same; lia.
Qed.

Lemma write_high_wrap b src :
  rbuf_wf b -> zlen src < 4294967296 -> rpos b <= wpos b -> 0 < rpos b ->
  cap b - wpos b + 1 < zlen src ->
  exists b', rbuf_write b src (zlen src) =
      Some (Z.min (zlen src) (cap b - used b), b') /\ write_post b src b'.
Proof.
  intros H Hn Hle Hr Hk. wf_facts H. pose proof (zlen_nonneg src).
  unfold rbuf_write, write_post, used, contents, get_rpos, get_wpos.
  rewrite (proj2 (Z.ltb_ge (wpos b) _)) by lia.
  replace (u32 (u32 (cap b - wpos b) + 1)) with (cap b - wpos b + 1)
    by (unfold u32; mlia).
  remember (cap b - wpos b + 1) as k eqn:Ek. rewrite (u32_small (rpos b - 1)) by lia.
  rewrite (min_small k) by lia. rewrite (Z.min_l k) by lia.
  rewrite (memread_some src 0 k) by lia. simpl.
  assert (H1l : zlen (slice src 0 k) = k) by (apply zlen_slice; lia).
  rewrite memwrite_some by lia. simpl.
  rewrite (proj2 (Z.ltb_lt k _)) by lia.
  rewrite (u64_small (zlen src - k)) by lia. rewrite min_small by lia.
  remember (Z.min (rpos b - 1) (zlen src - k)) as rem eqn:Erem.
  rewrite memread_some by lia. simpl.
  assert (H2l : zlen (slice src k rem) = rem) by (apply zlen_slice; lia).
  rewrite memwrite_some by (rewrite ?zlen_splice; lia). simpl.
  eexists. split; [rewrite u64_small by lia; do 2 f_equal; lia|].
  split; [constructor; simpl; rewrite ?zlen_splice; rewrite ?zlen_splice; unfold UINT32_MAX; lia|].
  split; [|done]. simpl. rewrite (proj2 (Z.ltb_lt _ _)) by lia.
  rewrite slice_splice_after by (rewrite ?zlen_splice; lia).
  replace (cap b + 1 - rpos b) with (wpos b - rpos b + k) by lia.
  rewrite slice_split by lia. rewrite slice_splice_before by lia.
  replace (rpos b + (wpos b - rpos b)) with (wpos b) by lia.
  rewrite <- app_assoc. f_equal.
  rewrite <- H1l at 2. rewrite slice_splice_same by lia.
  rewrite <- H2l at 2. rewrite slice_splice_same by (rewrite ?zlen_splice; lia).
  change k with (0 + k) at 2. rewrite <- slice_split by lia.
  rewrite <- slice_prefix by lia. f_equal. lia.
Qed.

Lemma write_high_fits b src :
  rbuf_wf b -> zlen src < 4294967296 -> rpos b <= wpos b ->
  (0 < rpos b \/ zlen src <= cap b - used b) ->
  zlen src <= cap b - wpos b + 1 ->
  exists b', rbuf_write b src (zlen src) =
      Some (Z.min (zlen src) (cap b - used b), b') /\ write_post b src b'.
Proof.
  intros H Hn Hle Hroom Hk. wf_facts H. pose proof (zlen_nonneg src).
  unfold rbuf_write, write_post, used, contents, get_rpos, get_wpos in *.
  rewrite (proj2 (Z.ltb_ge (wpos b) _)) in * by lia.
  replace (u32 (u32 (cap b - wpos b) + 1)) with (cap b - wpos b + 1)
    by (unfold u32; mlia).
  rewrite (min_small (cap b - wpos b + 1)) by lia. rewrite (Z.min_r _ (zlen src)) by lia.
  rewrite (memread_some src 0) by lia. simpl. rewrite slice_full.
  rewrite memwrite_some by lia. simpl.
  rewrite Z.ltb_irrefl. rewrite u32_small by lia.
  eexists. split; [do 2 f_equal; lia|].
  split; [constructor; simpl; rewrite ?zlen_splice; unfold UINT32_MAX; lia|].
  split; [|done]. simpl. rewrite (proj2 (Z.ltb_ge _ _)) by lia.
  replace (wpos b + zlen src - rpos b) with (wpos b - rpos b + zlen src) by lia.
  rewrite slice_split by lia. rewrite slice_splice_before by lia. f_equal.
  replace (rpos b + (wpos b - rpos b)) with (wpos b) by lia.
  rewrite slice_splice_same by lia. symmetry. apply take_ge. unfold zlen in *. lia.
Qed.

(** A write when the bytes fit, or when the read offset is not 0. *)
Lemma write_fits b src :
  rbuf_wf b -> zlen src <= UINT32_MAX ->
  (0 < rpos b \/ zlen src <= rbuf_wcap b) ->
  exists b', rbuf_write b src (zlen src) =
      Some (Z.min (zlen src) (rbuf_wcap b), b') /\
    rbuf_wf b' /\ contents b' = contents b ++ take (Z.to_nat (rbuf_wcap b)) src /\
    cap b' = cap b.
Proof.
  unfold UINT32_MAX. intros H Hn Hroom. rewrite wcap_room in * by done.
  destruct (Z.lt_ge_cases (wpos b) (rpos b)).
  { apply write_low; [done|lia|done]. }
  destruct (Z.lt_ge_cases (cap b - wpos b + 1) (zlen src)).
  - apply write_high_wrap; try done; [lia|]. destruct Hroom as [|Hroom]; [done|].
    unfold used in Hroom. rewrite (proj2 (Z.ltb_ge _ _)) in Hroom by lia. lia.
  - apply write_high_fits; try done; lia.
Qed.

End Lemmas.

(** ** Theorems *)

(** C2: reading n bytes returns the first n unread bytes (all of them if
    there are fewer), in order, never leaves the data area, and leaves the
    rest queued. *)
Theorem rbuf_read_fifo (b : rbuf) (n : Z) :
  rbuf_wf b -> 0 <= n <= UINT32_MAX ->
  exists b', rbuf_read b n =
      Some (take (Z.to_nat n) (contents b), Z.min n (used b), b') /\
    rbuf_wf b' /\ contents b' = drop (Z.to_nat n) (contents b) /\ cap b' = cap b.
Proof.
  unfold UINT32_MAX. intros H Hn. destruct (Z.lt_ge_cases (wpos b) (rpos b)).
  - apply read_wrapped; [done|lia|done].
  - apply read_straight; [done|lia|done].
Qed.

(** C1: a write appends the bytes there is room for and returns their
    number, provided the bytes fit or the read offset is not 0. *)
Theorem rbuf_write_fifo (b : rbuf) (src : list byte) :
  rbuf_wf b -> zlen src <= UINT32_MAX ->
  (0 < rpos b \/ zlen src <= rbuf_wcap b) ->
  exists b', rbuf_write b src (zlen src) =
      Some (Z.min (zlen src) (rbuf_wcap b), b') /\
    rbuf_wf b' /\ contents b' = contents b ++ take (Z.to_nat (rbuf_wcap b)) src /\
    cap b' = cap b.
Proof. apply write_fits. Qed.

(** The two capacities are the bytes queued and the bytes free. *)
Theorem rbuf_caps (b : rbuf) :
  rbuf_wf b ->
  rbuf_rcap b = zlen (contents b) /\ rbuf_wcap b = cap b - zlen (contents b) /\
  0 <= zlen (contents b) <= cap b.
Proof.
  intros H. rewrite contents_length, rcap_used, wcap_room by done.
  pose proof (used_range b H). lia.
Qed.

(** With the read offset at 0, rbuf_write does not stop at the
    capacity.  A write of exactly one byte more than the free space is accepted
    in full, after which rbuf_wcap reports UINT32_MAX free bytes; a write longer
    than that by more than the whole data area runs past the end of it. *)
Theorem rbuf_write_overrun (b : rbuf) (src : list byte) :
  rbuf_wf b -> rpos b = 0 -> zlen src <= UINT32_MAX ->
  (zlen src = rbuf_wcap b + 1 ->
     exists b', rbuf_write b src (zlen src) = Some (rbuf_wcap b + 1, b') /\
       rbuf_wcap b' = UINT32_MAX) /\
  (zlen src > rbuf_wcap b + 1 + (cap b + 1) ->
     rbuf_write b src (zlen src) = None).
Proof.
  intros H Hr Hn. rewrite wcap_room by done. wf_facts H. unfold used.
  pose proof (zlen_nonneg src).
  rewrite (proj2 (Z.ltb_ge (wpos b) _)) by lia.
  unfold rbuf_write, get_rpos, get_wpos. rewrite (proj2 (Z.ltb_ge (wpos b) _)) by lia.
  replace (u32 (u32 (cap b - wpos b) + 1)) with (cap b - wpos b + 1)
    by (unfold u32; mlia).
  replace (u32 (rpos b - 1)) with 4294967295 by (unfold u32; mlia).
  remember (cap b - wpos b + 1) as k eqn:Ek. rewrite (min_small k) by lia.
  split; intros Hlen.
  - rewrite Z.min_r by lia. rewrite (memread_some src 0) by lia. simpl.
    rewrite slice_full. rewrite memwrite_some by lia. simpl. rewrite Z.ltb_irrefl.
    eexists. split; [do 2 f_equal; lia|].
    unfold rbuf_wcap, get_rpos, get_wpos; simpl. rewrite Hr. unfold u32 in *.
    case_zcmp; mlia.
  - rewrite Z.min_l by lia. rewrite (memread_some src 0) by lia. simpl.
    rewrite memwrite_some by (rewrite ?zlen_slice; lia). simpl.
    rewrite (proj2 (Z.ltb_lt k _)) by lia. rewrite (u64_small (zlen src - k)) by lia.
    rewrite min_small by lia. rewrite Z.min_r by lia.
    rewrite (memread_some src k) by lia. simpl. unfold memwrite.
    rewrite zlen_splice, !zlen_slice by (rewrite ?zlen_slice; lia).
    rewrite (proj2 (Z.leb_gt _ (zlen (data b)))) by lia. by rewrite andb_false_r.
Qed.

(** ** A concrete buffer *)

Definition small : rbuf := Rbuf 2 4 4 [10; 11; 12; 13; 14].

Lemma small_wf : rbuf_wf small.
Proof. constructor; vm_compute; intuition discriminate. Qed.

Lemma rbuf_read_fifo_witness :
  contents small = [12; 13] /\
  exists b', rbuf_read small 1 = Some ([12], 1, b') /\ contents b' = [13].
Proof.
  split; [reflexivity|].
  destruct (rbuf_read_fifo small 1 small_wf) as (b' & Hr & _ & Hc & _);
    [vm_compute; intuition discriminate|].
  exists b'. split; [exact Hr|exact Hc].
Defined.

Lemma rbuf_write_fifo_witness :
  exists b', rbuf_write small [20; 21; 22] 3 = Some (2, b') /\
    contents b' = [12; 13; 20; 21].
Proof.
  destruct (rbuf_write_fifo small [20; 21; 22] small_wf) as (b' & Hw & _ & Hc & _);
    [vm_compute; intuition discriminate|left; reflexivity|].
  exists b'. split; [exact Hw|exact Hc].
Defined.

Lemma rbuf_caps_witness : rbuf_rcap small = 2 /\ rbuf_wcap small = 2.
Proof. destruct (rbuf_caps small small_wf) as (Hr & Hw & _). split; [exact Hr|exact Hw]. Defined.

Lemma rbuf_write_overrun_witness :
  exists b', rbuf_write (Rbuf 0 0 2 [0; 0; 0]) [1; 2; 3] 3 = Some (3, b') /\
    rbuf_wcap b' = UINT32_MAX.
Proof.
  assert (H : rbuf_wf (Rbuf 0 0 2 [0; 0; 0]))
    by (constructor; vm_compute; intuition discriminate).
  destruct (rbuf_write_overrun _ [1; 2; 3] H eq_refl) as [H1 _];
    [vm_compute; intuition discriminate|].
  exact (H1 eq_refl).
Defined.
