(* ===== verification/Queue.v ===== *)
(** * Intrusive queues (include/cc_queue.h)

    The macros are modelled at the level of the pointers they store.  A [slot]
    is the address of a pointer cell: the first field of a head, or the next
    field of an element.  [cell] is what those cells hold, [tail] the
    stqh_last/tqh_last field of a head (the address of the last next field) and
    [prev] the tqe_prev/le_prev field of an element (the address of the previous
    next field).  Each definition performs the assignments of its macro in
    order; [None] is a dereference of NULL.

    [stailq m h l] and [tailq m h l] say that head [h] represents the list [l];
    the theorems show that each macro implements the list operation it stands
    for.  QUEUE_MACRO_SCRUB is on in the source, so TRASHIT stores NULL. *)

From stdpp Require Import functions.
From S2P Require Import Prelude.

(** Addresses of elements and of heads. *)
Abbreviation loc := positive (only parsing).

Inductive slot := HeadFirst (h : positive) | NextOf (e : positive).

#[export] Instance slot_eq_dec : EqDecision slot.
Proof. solve_decision. Defined.

Record qmem := QMem {
  cell : slot -> option positive;
  tail : positive -> slot;
  prev : positive -> option slot;
}.

Definition set_cell (m : qmem) (s : slot) (p : option positive) : qmem :=
  QMem (<[s := p]> (cell m)) (tail m) (prev m).
Definition set_tail (m : qmem) (h : positive) (s : slot) : qmem :=
  QMem (cell m) (<[h := s]> (tail m)) (prev m).
Definition set_prev (m : qmem) (e : positive) (s : option slot) : qmem :=
  QMem (cell m) (tail m) (<[e := s]> (prev m)).


(** Memory in which nothing is linked. *)
Definition qmem_empty : qmem :=
  QMem (fun _ => None) (fun h => HeadFirst h) (fun _ => None).

(** *ptr = v through a saved pointer to a cell. *)
Definition store (m : qmem) (s : option slot) (p : option positive) : option qmem :=
  s' ← s; Some (set_cell m s' p).

(** ** Represented lists *)

Fixpoint chain (m : qmem) (s : slot) (l : list positive) : Prop :=
  match l with
  | [] => cell m s = None
  | x :: l => cell m s = Some x /\ chain m (NextOf x) l
  end.

Fixpoint last_slot (s : slot) (l : list positive) : slot :=
  match l with
  | [] => s
  | x :: l => last_slot (NextOf x) l
  end.

Fixpoint prevs (m : qmem) (s : slot) (l : list positive) : Prop :=
  match l with
  | [] => True
  | x :: l => prev m x = Some s /\ prevs m (NextOf x) l
  end.

Record stailq (m : qmem) (h : positive) (l : list positive) : Prop := {
  stq_chain : chain m (HeadFirst h) l;
  stq_tail : tail m h = last_slot (HeadFirst h) l;
  stq_nodup : NoDup l;
}.

Record tailq (m : qmem) (h : positive) (l : list positive) : Prop := {
  tq_chain : chain m (HeadFirst h) l;
  tq_tail : tail m h = last_slot (HeadFirst h) l;
  tq_prevs : prevs m (HeadFirst h) l;
  tq_nodup : NoDup l;
}.

(** [m'] differs from [m] only in head [h] and in the fields of [es]. *)
Record modifies (m m' : qmem) (h : positive) (es : list positive) : Prop := {
  mod_cell : forall t, t ≠ HeadFirst h -> t ∉ map NextOf es -> cell m' t = cell m t;
  mod_tail : forall h', h' ≠ h -> tail m' h' = tail m h';
  mod_prev : forall e, e ∉ es -> prev m' e = prev m e;
}.

(** ** Shared lemmas on chains *)

(** The links over the elements of [l], and the cells that hold them. *)
Fixpoint seg (m : qmem) (s : slot) (l : list positive) : Prop :=
  match l with
  | [] => True
  | x :: l => cell m s = Some x /\ seg m (NextOf x) l
  end.

Fixpoint links (s : slot) (l : list positive) : list slot :=
  match l with
  | [] => []
  | x :: l => s :: links (NextOf x) l
  end.

Create Rewrite HintDb queue.

Section Chains.
Implicit Types (m : qmem) (s t : slot) (l k : list positive) (x e : positive).

Lemma next_elem x l : NextOf x ∈ map NextOf l <-> x ∈ l.
Proof. rewrite list_elem_of_fmap. split; [by intros (y & [= <-] & Hy)|eauto]. Qed.

Lemma head_elem h l : HeadFirst h ∉ map NextOf l.
Proof. rewrite list_elem_of_fmap. by intros (y & ? & ?). Qed.

Lemma chain_app m s l k :
  chain m s (l ++ k) <-> seg m s l /\ chain m (last_slot s l) k.
Proof. revert s; induction l as [|x l IH]; intros s; simpl; [tauto|]. rewrite IH. tauto. Qed.

Lemma chain_seg m s l : chain m s l <-> seg m s l /\ cell m (last_slot s l) = None.
Proof. rewrite <- (app_nil_r l) at 1. apply chain_app. Qed.

Lemma seg_app m s l k : seg m s (l ++ k) <-> seg m s l /\ seg m (last_slot s l) k.
Proof. revert s; induction l as [|x l IH]; intros s; simpl; [tauto|]. rewrite IH. tauto. Qed.

Lemma prevs_app m s l k : prevs m s (l ++ k) <-> prevs m s l /\ prevs m (last_slot s l) k.
Proof. revert s; induction l as [|x l IH]; intros s; simpl; [tauto|]. rewrite IH. tauto. Qed.

Lemma last_slot_app s l k : last_slot s (l ++ k) = last_slot (last_slot s l) k.
Proof. revert s; induction l as [|x l IH]; intros s; simpl; auto. Qed.

Lemma last_slot_elem s l : last_slot s l = s \/ last_slot s l ∈ map NextOf l.
Proof.
  revert s; induction l as [|x l IH]; intros s; simpl; [by left|]. right.
  destruct (IH (NextOf x)) as [->|?]; set_solver.
Qed.

Lemma last_slot_ne s l x : s ≠ NextOf x -> x ∉ l -> last_slot s l ≠ NextOf x.
Proof.
  intros Hs Hx Heq. destruct (last_slot_elem s l) as [Hl|Hin]; [congruence|].
  rewrite Heq, next_elem in Hin. done.
Qed.

Lemma links_elem t s l : t ∈ links s l -> t = s \/ t ∈ map NextOf l.
Proof.
  revert s; induction l as [|x l IH]; intros s; simpl; [set_solver|].
  intros [->|Ht]%elem_of_cons; [by left|]. right. destruct (IH _ Ht) as [->|?]; set_solver.
Qed.

(** The cell behind the last element holds none of the links. *)
Lemma last_slot_not_link s l :
  NoDup l -> s ∉ map NextOf l -> last_slot s l ∉ links s l.
Proof.
  revert s; induction l as [|x l IH]; intros s Hnd Hs; simpl; [set_solver|].
  apply NoDup_cons in Hnd as [Hx Hnd]. simpl in Hs.
  intros [Heq|Hin]%elem_of_cons.
  - destruct (last_slot_elem (NextOf x) l) as [Hl|Hl]; set_solver.
  - by apply (IH (NextOf x)); rewrite ?next_elem.
Qed.

Lemma seg_frame m m' s l :
  (forall t, t ∈ links s l -> cell m' t = cell m t) -> seg m s l -> seg m' s l.
Proof.
  revert s; induction l as [|x l IH]; intros s Hf; simpl; [done|].
  intros [Hc Hr]. rewrite Hf by set_solver. split; [done|].
  apply IH; [set_solver|done].
Qed.

Lemma prevs_frame m m' s l :
  (forall x, x ∈ l -> prev m' x = prev m x) -> prevs m s l -> prevs m' s l.
Proof.
  revert s; induction l as [|x l IH]; intros s Hf; simpl; [done|].
  intros [Hc Hr]. rewrite Hf by set_solver. split; [done|].
  apply IH; [set_solver|done].
Qed.

(** A list over cells the update does not touch. *)
Lemma chain_frame m m' s l :
  (forall t, t = s \/ t ∈ map NextOf l -> cell m' t = cell m t) ->
  chain m s l -> chain m' s l.
Proof.
  intros Hf. rewrite !chain_seg. intros [Hs Hl]. split.
  - eapply seg_frame; [|done]. intros t Ht. apply Hf. by apply links_elem.
  - rewrite Hf; [done|]. apply last_slot_elem.
Qed.

Lemma cell_set m t p s : cell (set_cell m t p) s = if decide (t = s) then p else cell m s.
Proof. simpl. unfold insert, fn_insert. by case_decide. Qed.

Lemma tail_set m h s h' : tail (set_tail m h s) h' = if decide (h = h') then s else tail m h'.
Proof. simpl. unfold insert, fn_insert. by case_decide. Qed.

Lemma prev_set m e (s : option slot) e' : prev (set_prev m e s) e' = if decide (e = e') then s else prev m e'.
Proof. simpl. unfold insert, fn_insert. by case_decide. Qed.

Lemma cell_set_tail m h s t : cell (set_tail m h s) t = cell m t.
Proof. done. Qed.

Lemma cell_set_prev m e (s : option slot) t : cell (set_prev m e s) t = cell m t.
Proof. done. Qed.

Lemma tail_set_cell m t p h : tail (set_cell m t p) h = tail m h.
Proof. done. Qed.

Lemma tail_set_prev m e (s : option slot) h : tail (set_prev m e s) h = tail m h.
Proof. done. Qed.

Lemma prev_set_cell m t p e : prev (set_cell m t p) e = prev m e.
Proof. done. Qed.

Lemma prev_set_tail m h s e : prev (set_tail m h s) e = prev m e.
Proof. done. Qed.

Lemma modifies_stailq m m' h es h' l :
  modifies m m' h es -> h' ≠ h -> l ## es -> stailq m h' l -> stailq m' h' l.
Proof.
  intros [Hc Ht Hp] Hne Hd [H1 H2 H3]. split; [|by rewrite Ht|done].
  eapply chain_frame; [|done]. intros t [->|Hin]; apply Hc.
  - congruence.
  - apply head_elem.
  - intros ->. by eapply head_elem.
  - apply list_elem_of_fmap in Hin as (y & -> & Hy). rewrite next_elem. set_solver.
Qed.

Lemma modifies_tailq m m' h es h' l :
  modifies m m' h es -> h' ≠ h -> l ## es -> tailq m h' l -> tailq m' h' l.
Proof.
  intros Hm Hne Hd [H1 H2 H3 H4].
  destruct (modifies_stailq m m' h es h' l) as [H1' H2' _]; [done..|by split|].
  split; [done..| |done]. eapply prevs_frame; [|done].
  intros x Hx. apply (mod_prev _ _ _ _ Hm). set_solver.
Qed.

End Chains.

#[global] Opaque set_cell set_tail set_prev.

#[export] Hint Rewrite cell_set tail_set prev_set cell_set_tail cell_set_prev
  tail_set_cell tail_set_prev prev_set_cell prev_set_tail : queue.

(** Reduce the reads of an updated memory and decide the address tests. *)
Ltac qmem_cases :=
  repeat (autorewrite with queue in *; simpl in *;
    repeat match goal with
    | |- context [decide ?P] => destruct (decide P); simplify_eq/=
    | H : context [decide ?P] |- _ => destruct (decide P); simplify_eq/=
    end).

(** Frame conditions: two cells of the goal are the same one, or membership
    refutes that they are. *)
Ltac slots :=
  intros; qmem_cases;
  repeat match goal with
  | H : _ \/ _ |- _ => destruct H; simplify_eq
  | H : _ ∈ links _ _ |- _ => apply links_elem in H
  | H : HeadFirst _ ∈ map NextOf _ |- _ => by apply head_elem in H
  | H : NextOf _ ∈ map NextOf _ |- _ => rewrite next_elem in H
  | H : NextOf _ ∉ map NextOf _ |- _ => rewrite next_elem in H
  | |- NextOf _ ∉ map NextOf _ => rewrite next_elem
  | |- HeadFirst _ ∉ map NextOf _ => apply head_elem
  end; try done; try congruence; try set_solver.

(** ** Singly-linked tail queues *)

Module Stailq.

Definition STAILQ_FIRST (m : qmem) (h : positive) : option positive := cell m (HeadFirst h).

Definition STAILQ_EMPTY (m : qmem) (h : positive) : bool :=
  bool_decide (STAILQ_FIRST m h = None).

Definition STAILQ_NEXT (m : qmem) (e : positive) : option positive := cell m (NextOf e).

Definition STAILQ_INIT (m : qmem) (h : positive) : qmem :=
  set_tail (set_cell m (HeadFirst h) None) h (HeadFirst h).

Definition STAILQ_INSERT_AFTER (m : qmem) (h tqelm elm : positive) : qmem :=
  let m := set_cell m (NextOf elm) (STAILQ_NEXT m tqelm) in
  let m := if decide (STAILQ_NEXT m elm = None) then set_tail m h (NextOf elm) else m in
  set_cell m (NextOf tqelm) (Some elm).

Definition STAILQ_INSERT_HEAD (m : qmem) (h elm : positive) : qmem :=
  let m := set_cell m (NextOf elm) (STAILQ_FIRST m h) in
  let m := if decide (STAILQ_NEXT m elm = None) then set_tail m h (NextOf elm) else m in
  set_cell m (HeadFirst h) (Some elm).

Definition STAILQ_INSERT_TAIL (m : qmem) (h elm : positive) : qmem :=
  let m := set_cell m (NextOf elm) None in
  let m := set_cell m (tail m h) (Some elm) in
  set_tail m h (NextOf elm).

(** The element whose next field is the one stqh_last points to; the container
    computation is only meaningful for a non-empty queue. *)
Definition STAILQ_LAST (m : qmem) (h : positive) : option positive :=
  if STAILQ_EMPTY m h then None else
  match tail m h with
  | NextOf e => Some e
  | HeadFirst _ => None
  end.

Definition STAILQ_REMOVE_HEAD (m : qmem) (h : positive) : option qmem :=
  f ← STAILQ_FIRST m h;
  let nxt := STAILQ_NEXT m f in
  let m := set_cell m (HeadFirst h) nxt in
  let m := if decide (nxt = None) then set_tail m h (HeadFirst h) else m in
  Some (set_cell m (NextOf f) None).

Definition STAILQ_REMOVE_AFTER (m : qmem) (h elm : positive) : option qmem :=
  n ← STAILQ_NEXT m elm;
  let nxt := STAILQ_NEXT m n in
  let m := set_cell m (NextOf elm) nxt in
  let m := if decide (nxt = None) then set_tail m h (NextOf elm) else m in
  Some (set_cell m (NextOf n) None).

(** The search loop of STAILQ_REMOVE: the element whose next is [elm]. *)
Fixpoint find_prev (fuel : nat) (m : qmem) (cur : option positive) (elm : positive)
  : option positive :=
  match fuel with
  | O => None
  | S fuel =>
      c ← cur;
      if decide (STAILQ_NEXT m c = Some elm) then Some c
      else find_prev fuel m (STAILQ_NEXT m c) elm
  end.

Definition STAILQ_REMOVE (fuel : nat) (m : qmem) (h elm : positive) : option qmem :=
  if decide (STAILQ_FIRST m h = Some elm) then STAILQ_REMOVE_HEAD m h
  else
    c ← find_prev fuel m (STAILQ_FIRST m h) elm;
    STAILQ_REMOVE_AFTER m h c.

Definition STAILQ_CONCAT (m : qmem) (h1 h2 : positive) : qmem :=
  if STAILQ_EMPTY m h2 then m else
  let m := set_cell m (tail m h1) (STAILQ_FIRST m h2) in
  let m := set_tail m h1 (tail m h2) in
  STAILQ_INIT m h2.

Definition STAILQ_SWAP (m : qmem) (h1 h2 : positive) : qmem :=
  let swap_first := STAILQ_FIRST m h1 in
  let swap_last := tail m h1 in
  let m := set_cell m (HeadFirst h1) (STAILQ_FIRST m h2) in
  let m := set_tail m h1 (tail m h2) in
  let m := set_cell m (HeadFirst h2) swap_first in
  let m := set_tail m h2 swap_last in
  let m := if STAILQ_EMPTY m h1 then set_tail m h1 (HeadFirst h1) else m in
  if STAILQ_EMPTY m h2 then set_tail m h2 (HeadFirst h2) else m.

(** STAILQ_FOREACH: the elements visited, in order. *)
Fixpoint foreach (fuel : nat) (m : qmem) (var : option positive) : list positive :=
  match fuel, var with
  | S fuel, Some x => x :: foreach fuel m (STAILQ_NEXT m x)
  | _, _ => []
  end.

Definition STAILQ_FOREACH (fuel : nat) (m : qmem) (h : positive) : list positive :=
  foreach fuel m (STAILQ_FIRST m h).

(** [body] may unlink and change the element it is given, the next one is read
    before. *)
Fixpoint foreach_next (fuel : nat) (body : positive -> qmem -> option qmem) (m : qmem)
    (var : option positive) : option qmem :=
  match var with
  | None => Some m
  | Some x =>
      match fuel with
      | O => None
      | S fuel =>
          let tvar := STAILQ_NEXT m x in
          m ← body x m; foreach_next fuel body m tvar
      end
  end.

Definition STAILQ_FOREACH_SAFE (fuel : nat) (body : positive -> qmem -> option qmem)
    (m : qmem) (h : positive) : option qmem :=
  foreach_next fuel body m (STAILQ_FIRST m h).

(** A body that removes some of the elements. *)
Definition drop_if (fuel : nat) (f : positive -> bool) (h x : positive) (m : qmem) : option qmem :=
  if f x then STAILQ_REMOVE fuel m h x else Some m.

Section Refinement.
Implicit Types (m : qmem) (h e : positive) (l : list positive).

Lemma first_spec m h l : stailq m h l -> STAILQ_FIRST m h = head l.
Proof. intros [H _ _]. destruct l; simpl in *; [done|]. apply H. Qed.

Lemma empty_spec m h l : stailq m h l -> STAILQ_EMPTY m h = bool_decide (l = []).
Proof.
  intros H. unfold STAILQ_EMPTY. rewrite (first_spec _ _ _ H).
  by destruct l.
Qed.

Lemma init_spec m h : stailq (STAILQ_INIT m h) h [].
Proof. unfold STAILQ_INIT. split; simpl; slots. apply NoDup_nil_2. Qed.

Lemma insert_head_spec m h l e :
  stailq m h l -> e ∉ l -> stailq (STAILQ_INSERT_HEAD m h e) h (e :: l).
Proof.
  intros [Hc Ht Hn] He. unfold STAILQ_INSERT_HEAD, STAILQ_FIRST, STAILQ_NEXT.
  destruct l as [|x l]; simpl in *.
  - split; simpl; [|slots|by apply NoDup_singleton]. slots.
  - destruct Hc as [Hx Hc]. rewrite Hx.
    split; simpl; [|slots|by apply NoDup_cons].
    split; [slots|split; [slots|]]. eapply chain_frame; [|exact Hc]. slots.
Qed.

Lemma insert_tail_spec m h l e :
  stailq m h l -> e ∉ l -> stailq (STAILQ_INSERT_TAIL m h e) h (l ++ [e]).
Proof.
  intros [Hc Ht Hn] He. unfold STAILQ_INSERT_TAIL.
  autorewrite with queue. rewrite Ht.
  apply chain_seg in Hc as [Hs Hl].
  pose proof (last_slot_not_link (HeadFirst h) l Hn (head_elem h l)) as Hnl.
  assert (Hne : last_slot (HeadFirst h) l ≠ NextOf e) by (by apply last_slot_ne).
  split; [|rewrite last_slot_app; slots|apply NoDup_app; set_solver by auto using NoDup_singleton].
  - apply chain_app. split; [|simpl; slots].
    eapply seg_frame; [|exact Hs]. slots.
Qed.

Lemma remove_head_spec m h x l :
  stailq m h (x :: l) ->
  exists m', STAILQ_REMOVE_HEAD m h = Some m' /\ stailq m' h l /\
    STAILQ_NEXT m' x = None.
Proof.
  intros [[Hx Hc] Ht [Hxl Hn]%NoDup_cons].
  unfold STAILQ_REMOVE_HEAD, STAILQ_FIRST, STAILQ_NEXT. rewrite Hx. simpl.
  eexists. split; [done|]. split; [|slots]. destruct l as [|y l]; simpl in *.
  - rewrite Hc. split; simpl; [slots..|done].
  - destruct Hc as [Hy Hc]. rewrite Hy. split; simpl; [split; [slots|]|slots|done].
    eapply chain_frame; [|exact Hc]. slots.
Qed.

Lemma insert_after_spec m h a x b e :
  stailq m h (a ++ x :: b) -> e ∉ a ++ x :: b ->
  stailq (STAILQ_INSERT_AFTER m h x e) h (a ++ x :: e :: b).
Proof.
  intros [[Hs [Hx Hc]]%chain_app Ht Hn] He.
  unfold STAILQ_INSERT_AFTER, STAILQ_NEXT. rewrite last_slot_app in Ht.
  apply NoDup_app in Hn as (Ha & Hab & [Hxb Hb]%NoDup_cons).
  pose proof (last_slot_not_link (HeadFirst h) a Ha (head_elem h a)) as Hnl.
  assert (Hxa : x ∉ a) by set_solver. assert (Hea : e ∉ a) by set_solver.
  assert (Heb : e ∉ b) by set_solver. assert (Hex : e ≠ x) by set_solver.
  assert (Hlx : last_slot (HeadFirst h) a ≠ NextOf x) by (by apply last_slot_ne).
  assert (Hle : last_slot (HeadFirst h) a ≠ NextOf e) by (by apply last_slot_ne).
  simpl in Ht. split.
  - apply chain_app. split; [|simpl; split_and!].
    + eapply seg_frame; [|exact Hs]. clear He Hab. destruct b; slots.
    + destruct b; slots.
    + destruct b; slots.
    + destruct b as [|y b]; simpl in *; [slots|]. destruct Hc as [Hy Hc].
      rewrite Hy. split; [slots|]. eapply chain_frame; [|exact Hc]. clear He Hab. slots.
  - rewrite last_slot_app. clear He Hab. destruct b as [|y b]; simpl in *; [slots|].
    destruct Hc as [Hy Hc]. rewrite Hy. slots.
  - apply NoDup_app. rewrite !NoDup_cons. set_solver.
Qed.

Lemma remove_after_spec m h a x n b :
  stailq m h (a ++ x :: n :: b) ->
  exists m', STAILQ_REMOVE_AFTER m h x = Some m' /\ stailq m' h (a ++ x :: b) /\
    STAILQ_NEXT m' n = None.
Proof.
  intros [[Hs [Hx [Hxn Hc]]]%chain_app Ht Hn].
  rewrite last_slot_app in Ht. simpl in Ht.
  apply NoDup_app in Hn as (Ha & Hab & [Hxb [Hnb Hb]%NoDup_cons]%NoDup_cons).
  pose proof (last_slot_not_link (HeadFirst h) a Ha (head_elem h a)) as Hnl.
  assert (Hxa : x ∉ a) by set_solver. assert (Hna : n ∉ a) by set_solver.
  assert (Hxn' : x ≠ n) by set_solver. assert (Hxb' : x ∉ b) by set_solver.
  assert (Hlx : last_slot (HeadFirst h) a ≠ NextOf x) by (by apply last_slot_ne).
  assert (Hln : last_slot (HeadFirst h) a ≠ NextOf n) by (by apply last_slot_ne).
  assert (Hab' : NoDup (a ++ x :: b)) by (apply NoDup_app; rewrite NoDup_cons; set_solver).
  unfold STAILQ_REMOVE_AFTER, STAILQ_NEXT. rewrite Hxn. simpl.
  eexists. split; [done|]. clear Hab Hxb. split; [|slots]. split; [| |done].
  - apply chain_app. clear Hab'. split; [|simpl; split].
    + eapply seg_frame; [|exact Hs]. destruct b; slots.
    + destruct b; slots.
    + destruct b as [|y b]; simpl in *; [slots|]. destruct Hc as [Hy Hc].
      rewrite Hy. split; [slots|]. eapply chain_frame; [|exact Hc]. slots.
  - rewrite last_slot_app. clear Hab'. destruct b as [|y b]; simpl in *; [slots|].
    destruct Hc as [Hy Hc]. rewrite Hy. slots.
Qed.

(** The search finds the predecessor within as many steps as there are elements
    in front of it. *)
Lemma find_prev_spec m s a x e b fuel :
  chain m s (a ++ x :: e :: b) -> e ∉ a -> e ≠ x -> (length a < fuel)%nat ->
  find_prev fuel m (cell m s) e = Some x.
Proof.
  revert s fuel. induction a as [|y a IH]; intros s fuel Hc He Hx Hf;
    (destruct fuel as [|fuel]; [simpl in Hf; lia|]); simpl in *.
  - destruct Hc as (-> & Hxe & _). simpl. unfold STAILQ_NEXT. by rewrite decide_True.
  - destruct Hc as (-> & Hc). simpl. unfold STAILQ_NEXT.
    rewrite decide_False.
    + apply IH; [done|set_solver|done|lia].
    + destruct a as [|z a]; simpl in Hc; destruct Hc as [-> _]; set_solver.
Qed.

Lemma remove_spec m h a e b fuel :
  stailq m h (a ++ e :: b) -> (length a <= fuel)%nat ->
  exists m', STAILQ_REMOVE fuel m h e = Some m' /\ stailq m' h (a ++ b) /\
    STAILQ_NEXT m' e = None.
Proof.
  intros Hq Hf. unfold STAILQ_REMOVE. rewrite (first_spec _ _ _ Hq).
  destruct Hq as [Hc Ht Hn]. assert (Hn' := Hn).
  apply NoDup_app in Hn' as (Ha & Hab & _).
  destruct a as [|x a] using rev_ind.
  - rewrite decide_True by done. by apply remove_head_spec.
  - clear IHa. rewrite <- app_assoc in *. simpl in *.
    assert (He : e ∉ a ++ [x]) by set_solver.
    rewrite decide_False by (destruct a; set_solver).
    replace (head (a ++ x :: e :: b)) with (cell m (HeadFirst h))
      by (destruct a; simpl in Hc; apply Hc).
    rewrite length_app in Hf. simpl in Hf.
    rewrite (find_prev_spec m (HeadFirst h) a x e b) by (done || set_solver || lia).
    simpl. rewrite <- app_assoc. by apply remove_after_spec.
Qed.

Lemma last_spec m h l : stailq m h l -> STAILQ_LAST m h = last l.
Proof.
  intros H. unfold STAILQ_LAST. rewrite (empty_spec _ _ _ H).
  destruct H as [_ Ht _]. rewrite Ht. case_bool_decide as E; [by subst|].
  destruct l as [|x l _] using rev_ind; [done|].
  by rewrite last_slot_app, last_snoc.
Qed.

Lemma foreach_spec m s l fuel :
  chain m s l -> (length l <= fuel)%nat -> foreach fuel m (cell m s) = l.
Proof.
  revert s fuel. induction l as [|x l IH]; intros s fuel; simpl.
  - intros -> _. by destruct fuel.
  - intros [-> Hc] Hf. destruct fuel as [|fuel]; [lia|]. simpl.
    f_equal. apply IH; [done|lia].
Qed.

Lemma foreach_next_spec f m h a b n fuel :
  stailq m h (a ++ b) -> (length (a ++ b) <= n)%nat -> (length b <= fuel)%nat ->
  exists m', foreach_next fuel (drop_if n f h) m (head b) = Some m' /\
    stailq m' h (a ++ List.filter (fun x => negb (f x)) b).
Proof.
  revert m a fuel. induction b as [|x b IH]; intros m a fuel Hq Hn Hf.
  - exists m. by destruct fuel.
  - destruct fuel as [|fuel]; simpl in *; [lia|]. rewrite length_app in Hn. simpl in Hn.
    assert (Hx : STAILQ_NEXT m x = head b).
    { destruct Hq as [Hc _ _]. apply chain_app in Hc as [_ Hc]. simpl in Hc. destruct Hc as [_ Hc].
      unfold STAILQ_NEXT. destruct b; simpl in Hc; [done|]. apply Hc. }
    rewrite Hx. change (drop_if n f h x m) with (if f x then STAILQ_REMOVE n m h x else Some m).
    destruct (f x); simpl.
    + destruct (remove_spec m h a x b n Hq) as (m1 & -> & Hq1 & _); [lia|]. simpl.
      apply IH; [done|rewrite length_app; lia|lia].
    + destruct (IH m (a ++ [x]) fuel) as (m' & -> & Hq');
        [by rewrite <- app_assoc|rewrite !length_app; simpl; lia|lia|].
      exists m'. split; [done|]. by rewrite <- app_assoc in Hq'.
Qed.

Lemma concat_spec m h1 h2 l1 l2 :
  h1 ≠ h2 -> stailq m h1 l1 -> stailq m h2 l2 -> l1 ## l2 ->
  stailq (STAILQ_CONCAT m h1 h2) h1 (l1 ++ l2) /\ stailq (STAILQ_CONCAT m h1 h2) h2 [].
Proof.
  intros Hh [Hc1 Ht1 Hn1] H2 Hd. unfold STAILQ_CONCAT.
  rewrite (empty_spec _ _ _ H2). case_bool_decide as E.
  { subst. rewrite app_nil_r. by split; [split|]. }
  rewrite (first_spec _ _ _ H2). destruct H2 as [Hc2 Ht2 Hn2].
  destruct l2 as [|y l2]; [done|]. destruct Hc2 as [Hy Hc2].
  apply chain_seg in Hc1 as [Hs1 Hl1].
  pose proof (last_slot_not_link (HeadFirst h1) l1 Hn1 (head_elem h1 l1)) as Hnl.
  assert (Hne2 : last_slot (HeadFirst h1) l1 ≠ HeadFirst h2).
  { destruct (last_slot_elem (HeadFirst h1) l1) as [->|Hin]; [congruence|].
    intros Heq. rewrite Heq in Hin. by apply head_elem in Hin. }
  assert (Hnk : forall x, x ∈ y :: l2 -> last_slot (HeadFirst h1) l1 ≠ NextOf x)
    by (intros x Hx; apply last_slot_ne; [done|set_solver]).
  assert (Hd12 : NoDup (l1 ++ y :: l2)) by (apply NoDup_app; set_solver).
  unfold STAILQ_INIT. rewrite Ht1. clear Hd. split; split; [| |done| |slots|apply NoDup_nil_2].
  - apply chain_app. split; [|split].
    + eapply seg_frame; [|exact Hs1]. clear Hd12 Hnk. slots.
    + clear Hd12 Hnk. slots.
    + eapply chain_frame; [|exact Hc2]. intros t Ht. clear Hd12 Hnl Hn1 Hn2.
      autorewrite with queue. rewrite decide_False, decide_False; [done| |].
      * destruct Ht as [->|Ht]; [apply Hnk; left|].
        apply list_elem_of_fmap in Ht as (z & -> & Hz). apply Hnk. by right.
      * destruct Ht as [->|Ht]; [done|]. intros <-. by apply head_elem in Ht.
  - rewrite last_slot_app. autorewrite with queue. rewrite decide_False by done.
    rewrite decide_True by done. by rewrite Ht2.
  - simpl. clear Hd12 Hnk. slots.
Qed.

(** What STAILQ_SWAP leaves in the fields it may have written. *)
Lemma swap_fields m h1 h2 :
  h1 ≠ h2 ->
  let m' := STAILQ_SWAP m h1 h2 in
  cell m' (HeadFirst h1) = cell m (HeadFirst h2) /\
  cell m' (HeadFirst h2) = cell m (HeadFirst h1) /\
  (forall e, cell m' (NextOf e) = cell m (NextOf e)) /\
  tail m' h1 = (if decide (cell m (HeadFirst h2) = None) then HeadFirst h1 else tail m h2) /\
  tail m' h2 = (if decide (cell m (HeadFirst h1) = None) then HeadFirst h2 else tail m h1).
Proof.
  intros Hh. unfold STAILQ_SWAP, STAILQ_EMPTY, STAILQ_FIRST. simpl.
  repeat case_bool_decide; split_and!; intros; qmem_cases; congruence.
Qed.

(** A list moved to another head by copying the head's first pointer. *)
Lemma chain_rehead m m' h h' l :
  cell m' (HeadFirst h') = cell m (HeadFirst h) ->
  (forall e, cell m' (NextOf e) = cell m (NextOf e)) ->
  chain m (HeadFirst h) l -> chain m' (HeadFirst h') l.
Proof.
  intros Hh Hn. destruct l as [|x l]; simpl; rewrite Hh; [done|].
  intros [? Hc]. split; [done|]. eapply chain_frame; [|exact Hc].
  intros t [->|(y & -> & _)%list_elem_of_fmap]; apply Hn.
Qed.

Lemma swap_spec m h1 h2 l1 l2 :
  h1 ≠ h2 -> stailq m h1 l1 -> stailq m h2 l2 ->
  stailq (STAILQ_SWAP m h1 h2) h1 l2 /\ stailq (STAILQ_SWAP m h1 h2) h2 l1.
Proof.
  intros Hh [Hc1 Ht1 Hn1] [Hc2 Ht2 Hn2].
  destruct (swap_fields m h1 h2 Hh) as (Hs1 & Hs2 & Hn & Ha & Hb).
  split; split; try done.
  - by eapply chain_rehead.
  - rewrite Ha. clear Ha Hb. destruct l2; simpl in *; case_decide; intuition congruence.
  - by eapply chain_rehead.
  - rewrite Hb. clear Ha Hb. destruct l1; simpl in *; case_decide; intuition congruence.
Qed.

End Refinement.
End Stailq.

(** ** The interface the free pools rely on

    A free pool keeps its idle elements on a STAILQ used as a stack; these are
    the macros it calls and what it relies on about them.  [sq_repr m h l]: the
    queue at head [h] holds [l]. *)

Class SQueue (M : Type) := {
  sq_repr : M -> positive -> list positive -> Prop;
  sq_init : M -> positive -> M;
  sq_first : M -> positive -> option positive;
  sq_next : M -> positive -> option positive;
  sq_clear_next : M -> positive -> M;
  sq_insert_head : M -> positive -> positive -> M;
  sq_remove_head : M -> positive -> option M;
}.

Class SQueueLaws (M : Type) `{!SQueue M} := {
  sq_repr_nodup m h l : sq_repr m h l -> NoDup l;
  sq_init_repr m h : sq_repr (sq_init m h) h [];
  sq_first_repr m h l : sq_repr m h l -> sq_first m h = head l;
  sq_next_repr m h x l : sq_repr m h (x :: l) -> sq_next m x = head l;
  sq_clear_next_repr m h l e : sq_repr m h l -> e ∉ l -> sq_repr (sq_clear_next m e) h l;
  sq_insert_head_repr m h l e :
    sq_repr m h l -> e ∉ l -> sq_repr (sq_insert_head m h e) h (e :: l);
  sq_remove_head_repr m h x l :
    sq_repr m h (x :: l) -> exists m', sq_remove_head m h = Some m' /\ sq_repr m' h l;
}.

#[export] Instance stailq_squeue : SQueue qmem := {
  sq_repr := stailq;
  sq_init := Stailq.STAILQ_INIT;
  sq_first := Stailq.STAILQ_FIRST;
  sq_next := Stailq.STAILQ_NEXT;
  sq_clear_next m e := set_cell m (NextOf e) None;
  sq_insert_head := Stailq.STAILQ_INSERT_HEAD;
  sq_remove_head := Stailq.STAILQ_REMOVE_HEAD;
}.

(** Writing the next field of an element that is not queued. *)
Lemma stailq_set_next m h l e v :
  stailq m h l -> e ∉ l -> stailq (set_cell m (NextOf e) v) h l.
Proof.
  intros [Hc Ht Hn] He. split; [|by autorewrite with queue|done].
  eapply chain_frame; [|exact Hc]. slots.
Qed.

#[export] Instance stailq_squeue_laws : SQueueLaws qmem.
Proof.
  split; simpl.
  - by intros m h l [].
  - apply Stailq.init_spec.
  - apply Stailq.first_spec.
  - intros m h x l [[_ Hc] _ _]. destruct l; [done|apply Hc].
  - intros m h l e. apply stailq_set_next.
  - apply Stailq.insert_head_spec.
  - intros m h x l Hq. destruct (Stailq.remove_head_spec m h x l Hq) as (m' & ? & ? & _). eauto.
Qed.

(** ** Properties *)

(** C8: on a STAILQ that holds the list [a ++ x :: b] (a NoDup list of
    element addresses), every macro implements the list operation it stands
    for: insertion at the head, at the tail and after [x], removal of the head,
    of the element after [x] and of [x] itself wherever it sits (the search loop
    of STAILQ_REMOVE ends within length [a] steps), STAILQ_LAST, and
    STAILQ_FOREACH visits the list in order.  STAILQ_FOREACH_SAFE with a body
    that removes some of the elements leaves the others in order.  The scrubbed
    next field of a removed element is NULL. *)
Theorem stailq_refines_list (m : qmem) (h : positive) (a b : list positive)
    (x e : positive) (f : positive -> bool) (fuel : nat) :
  stailq m h (a ++ x :: b) -> e ∉ a ++ x :: b -> (length (a ++ x :: b) <= fuel)%nat ->
  stailq (Stailq.STAILQ_INSERT_HEAD m h e) h (e :: a ++ x :: b) /\
  stailq (Stailq.STAILQ_INSERT_TAIL m h e) h ((a ++ x :: b) ++ [e]) /\
  stailq (Stailq.STAILQ_INSERT_AFTER m h x e) h (a ++ x :: e :: b) /\
  (exists m', Stailq.STAILQ_REMOVE_HEAD m h = Some m' /\ stailq m' h (list.tail (a ++ x :: b))) /\
  (forall n b', b = n :: b' ->
    exists m', Stailq.STAILQ_REMOVE_AFTER m h x = Some m' /\ stailq m' h (a ++ x :: b') /\
      Stailq.STAILQ_NEXT m' n = None) /\
  (exists m', Stailq.STAILQ_REMOVE fuel m h x = Some m' /\ stailq m' h (a ++ b) /\
    Stailq.STAILQ_NEXT m' x = None) /\
  Stailq.STAILQ_FIRST m h = head (a ++ x :: b) /\
  Stailq.STAILQ_LAST m h = last (a ++ x :: b) /\
  Stailq.STAILQ_EMPTY m h = false /\
  Stailq.STAILQ_FOREACH fuel m h = a ++ x :: b /\
  (exists m', Stailq.STAILQ_FOREACH_SAFE fuel (Stailq.drop_if fuel f h) m h = Some m' /\
    stailq m' h (List.filter (fun x => negb (f x)) (a ++ x :: b))).
Proof.
  intros Hq He Hf. split_and!.
  - by apply Stailq.insert_head_spec.
  - by apply Stailq.insert_tail_spec.
  - by apply Stailq.insert_after_spec.
  - destruct (a ++ x :: b) as [|y l] eqn:E; [by destruct a|].
    destruct (Stailq.remove_head_spec m h y l Hq) as (m' & ? & ? & _). eauto.
  - intros n b' ->. by apply Stailq.remove_after_spec.
  - apply Stailq.remove_spec; [done|]. rewrite length_app in Hf. lia.
  - by apply Stailq.first_spec.
  - by apply Stailq.last_spec.
  - rewrite (Stailq.empty_spec _ _ _ Hq). by destruct a.
  - apply Stailq.foreach_spec; [apply Hq|done].
  - unfold Stailq.STAILQ_FOREACH_SAFE. rewrite (Stailq.first_spec _ _ _ Hq).
    by apply (Stailq.foreach_next_spec f m h []).
Qed.

(** The queue 1, 2, 3 at head 1, built by the macros. *)
Definition q123 : qmem :=
  Stailq.STAILQ_INSERT_TAIL (Stailq.STAILQ_INSERT_TAIL
    (Stailq.STAILQ_INSERT_HEAD (Stailq.STAILQ_INIT qmem_empty 1) 1 1) 1 2) 1 3.

Lemma q123_repr : stailq q123 1 [1; 2; 3]%positive.
Proof.
  unfold q123. pose proof (Stailq.init_spec qmem_empty 1) as H0.
  apply (Stailq.insert_head_spec _ _ _ 1) in H0; [|set_solver].
  apply (Stailq.insert_tail_spec _ _ _ 2) in H0; [|set_solver].
  apply (Stailq.insert_tail_spec _ _ _ 3) in H0; [done|set_solver].
Qed.

Lemma stailq_refines_list_witness :
  exists m', Stailq.STAILQ_REMOVE 3 q123 1 2 = Some m' /\ stailq m' 1 [1; 3]%positive.
Proof.
  destruct (stailq_refines_list q123 1 [1%positive] [3%positive] 2 4 (fun _ => true) 3)
    as (_ & _ & _ & _ & _ & (m' & H & Hq & _) & _);
    [exact q123_repr|set_solver|simpl; lia|]. by exists m'.
Defined.

(** STAILQ_CONCAT appends the second queue to the first and
    leaves the second empty, and STAILQ_SWAP exchanges two queues, empty ones
    included. *)
Theorem stailq_concat_swap (m : qmem) (h1 h2 : positive) (l1 l2 : list positive) :
  h1 ≠ h2 -> stailq m h1 l1 -> stailq m h2 l2 -> l1 ## l2 ->
  stailq (Stailq.STAILQ_CONCAT m h1 h2) h1 (l1 ++ l2) /\
  stailq (Stailq.STAILQ_CONCAT m h1 h2) h2 [] /\
  stailq (Stailq.STAILQ_SWAP m h1 h2) h1 l2 /\
  stailq (Stailq.STAILQ_SWAP m h1 h2) h2 l1.
Proof.
  intros Hh H1 H2 Hd.
  destruct (Stailq.concat_spec m h1 h2 l1 l2) as [? ?]; [done..|].
  destruct (Stailq.swap_spec m h1 h2 l1 l2) as [? ?]; [done..|].
  by split_and!.
Qed.

Lemma stailq_concat_swap_witness :
  stailq (Stailq.STAILQ_SWAP (Stailq.STAILQ_INIT q123 2) 1 2) 2 [1; 2; 3]%positive.
Proof.
  apply (stailq_concat_swap (Stailq.STAILQ_INIT q123 2) 1 2 [1; 2; 3]%positive []);
    [done| |apply Stailq.init_spec|set_solver].
  apply (modifies_stailq q123 (Stailq.STAILQ_INIT q123 2) 2 []);
    [|done|set_solver|exact q123_repr].
  unfold Stailq.STAILQ_INIT. split; intros; slots.
Defined.
