(* ===== verification/Tailq.v ===== *)
(** * Doubly-linked tail queues (the TAILQ macros of include/cc_queue.h)

    Same memory as [Queue]; an element also has a tqe_prev field, the address of
    the next field in front of it.  The checks QMD_TAILQ_CHECK_* exist only in
    CC_ASSERT_PANIC builds; they are definitions of their own and hold on every
    queue.  The traces QMD_TRACE_* of those builds are left out. *)

From stdpp Require Import functions.
From S2P Require Import Prelude Queue.

Definition TAILQ_FIRST (m : qmem) (h : positive) : option positive := cell m (HeadFirst h).

Definition TAILQ_EMPTY (m : qmem) (h : positive) : bool :=
  bool_decide (TAILQ_FIRST m h = None).

Definition TAILQ_NEXT (m : qmem) (e : positive) : option positive := cell m (NextOf e).

Definition TAILQ_INIT (m : qmem) (h : positive) : qmem :=
  set_tail (set_cell m (HeadFirst h) None) h (HeadFirst h).

Definition TAILQ_INSERT_HEAD (m : qmem) (h elm : positive) : qmem :=
  let m := set_cell m (NextOf elm) (TAILQ_FIRST m h) in
  let m := match TAILQ_NEXT m elm with
           | Some f => set_prev m f (Some (NextOf elm))
           | None => set_tail m h (NextOf elm)
           end in
  let m := set_cell m (HeadFirst h) (Some elm) in
  set_prev m elm (Some (HeadFirst h)).

Definition TAILQ_INSERT_TAIL (m : qmem) (h elm : positive) : qmem :=
  let m := set_cell m (NextOf elm) None in
  let m := set_prev m elm (Some (tail m h)) in
  let m := set_cell m (tail m h) (Some elm) in
  set_tail m h (NextOf elm).

Definition TAILQ_INSERT_AFTER (m : qmem) (h listelm elm : positive) : qmem :=
  let m := set_cell m (NextOf elm) (TAILQ_NEXT m listelm) in
  let m := match TAILQ_NEXT m elm with
           | Some n => set_prev m n (Some (NextOf elm))
           | None => set_tail m h (NextOf elm)
           end in
  let m := set_cell m (NextOf listelm) (Some elm) in
  set_prev m elm (Some (NextOf listelm)).

Definition TAILQ_INSERT_BEFORE (m : qmem) (listelm elm : positive) : option qmem :=
  p ← prev m listelm;
  let m := set_prev m elm (Some p) in
  let m := set_cell m (NextOf elm) (Some listelm) in
  let m := set_cell m p (Some elm) in
  Some (set_prev m listelm (Some (NextOf elm))).

Definition TAILQ_REMOVE (m : qmem) (h elm : positive) : option qmem :=
  p ← prev m elm;
  let m := match TAILQ_NEXT m elm with
           | Some n => set_prev m n (Some p)
           | None => set_tail m h p
           end in
  let m := set_cell m p (TAILQ_NEXT m elm) in
  let m := set_cell m (NextOf elm) None in
  Some (set_prev m elm None).

(** TAILQ_LAST and TAILQ_PREV read the cell at [s] as if it were a head: the
    word behind a head's first field is its tqh_last, the one behind an
    element's next field its tqe_prev. *)
Definition second_word (m : qmem) (s : slot) : option slot :=
  match s with
  | HeadFirst h => Some (tail m h)
  | NextOf e => prev m e
  end.

Definition TAILQ_LAST (m : qmem) (h : positive) : option (option positive) :=
  s ← second_word m (tail m h); Some (cell m s).

Definition TAILQ_PREV (m : qmem) (e : positive) : option (option positive) :=
  s ← prev m e; s' ← second_word m s; Some (cell m s').

Definition TAILQ_CONCAT (m : qmem) (h1 h2 : positive) : qmem :=
  match TAILQ_FIRST m h2 with
  | None => m
  | Some f =>
      let m := set_cell m (tail m h1) (Some f) in
      let m := set_prev m f (Some (tail m h1)) in
      let m := set_tail m h1 (tail m h2) in
      TAILQ_INIT m h2
  end.

Definition TAILQ_SWAP (m : qmem) (h1 h2 : positive) : qmem :=
  let swap_first := TAILQ_FIRST m h1 in
  let swap_last := tail m h1 in
  let m := set_cell m (HeadFirst h1) (TAILQ_FIRST m h2) in
  let m := set_tail m h1 (tail m h2) in
  let m := set_cell m (HeadFirst h2) swap_first in
  let m := set_tail m h2 swap_last in
  let m := match TAILQ_FIRST m h1 with
           | Some f => set_prev m f (Some (HeadFirst h1))
           | None => set_tail m h1 (HeadFirst h1)
           end in
  match TAILQ_FIRST m h2 with
  | Some f => set_prev m f (Some (HeadFirst h2))
  | None => set_tail m h2 (HeadFirst h2)
  end.

(** TAILQ_FOREACH and TAILQ_FOREACH_REVERSE: the elements visited, in order. *)
Definition TAILQ_FOREACH (fuel : nat) (m : qmem) (h : positive) : list positive :=
  Stailq.foreach fuel m (TAILQ_FIRST m h).

Fixpoint foreach_reverse (fuel : nat) (m : qmem) (var : option positive)
  : option (list positive) :=
  match var with
  | None => Some []
  | Some x =>
      match fuel with
      | O => None
      | S fuel => p ← TAILQ_PREV m x; l ← foreach_reverse fuel m p; Some (x :: l)
      end
  end.

Definition TAILQ_FOREACH_REVERSE (fuel : nat) (m : qmem) (h : positive)
  : option (list positive) :=
  v ← TAILQ_LAST m h; foreach_reverse fuel m v.

(** The _SAFE loops: [body] may unlink and change the element it is given, the
    next one is read before. *)
Fixpoint foreach_safe (fuel : nat) (body : positive -> qmem -> option qmem) (m : qmem)
    (var : option positive) : option qmem :=
  match var with
  | None => Some m
  | Some x =>
      match fuel with
      | O => None
      | S fuel =>
          let tvar := TAILQ_NEXT m x in
          m ← body x m; foreach_safe fuel body m tvar
      end
  end.

Definition TAILQ_FOREACH_SAFE (fuel : nat) (body : positive -> qmem -> option qmem)
    (m : qmem) (h : positive) : option qmem :=
  foreach_safe fuel body m (TAILQ_FIRST m h).

Fixpoint foreach_reverse_safe (fuel : nat) (body : positive -> qmem -> option qmem)
    (m : qmem) (var : option positive) : option qmem :=
  match var with
  | None => Some m
  | Some x =>
      match fuel with
      | O => None
      | S fuel =>
          tvar ← TAILQ_PREV m x;
          m ← body x m; foreach_reverse_safe fuel body m tvar
      end
  end.

Definition TAILQ_FOREACH_REVERSE_SAFE (fuel : nat)
    (body : positive -> qmem -> option qmem) (m : qmem) (h : positive) : option qmem :=
  v ← TAILQ_LAST m h; foreach_reverse_safe fuel body m v.

(** Pointers moved by [offset]; an address is positive. *)
Definition shift (offset : Z) (p : positive) : option positive :=
  match (Z.pos p + offset)%Z with
  | Z.pos q => Some q
  | _ => None
  end.

Definition shift_slot (offset : Z) (s : slot) : option slot :=
  match s with
  | NextOf e => NextOf <$> shift offset e
  | HeadFirst _ => None
  end.

(** One round of the loop of TAILQ_REINIT. *)
Definition reinit_elem (m : qmem) (h : positive) (offset : Z) (v : positive) : option qmem :=
  m ← (match TAILQ_NEXT m v with
       | Some n => n' ← shift offset n; Some (set_cell m (NextOf v) (Some n'))
       | None => Some m
       end);
  m ← (if decide (TAILQ_FIRST m h = Some v) then Some (set_prev m v (Some (HeadFirst h)))
       else p ← prev m v; p' ← shift_slot offset p; Some (set_prev m v (Some p')));
  Some (set_tail m h (NextOf v)).

Fixpoint reinit_loop (fuel : nat) (m : qmem) (h : positive) (offset : Z)
    (var : option positive) : option qmem :=
  match var with
  | None => Some m
  | Some v =>
      match fuel with
      | O => None
      | S fuel =>
          m ← reinit_elem m h offset v;
          reinit_loop fuel m h offset (TAILQ_NEXT m v)
      end
  end.

Definition TAILQ_REINIT (fuel : nat) (m : qmem) (h : positive) (var : option positive)
    (offset : Z) : option qmem :=
  let m := set_cell m (HeadFirst h) var in
  reinit_loop fuel m h offset (TAILQ_FIRST m h).

(** The checks of CC_ASSERT_PANIC builds: [false] is a panic, [None] a NULL
    dereference. *)
Definition QMD_TAILQ_CHECK_HEAD (m : qmem) (h : positive) : bool :=
  match TAILQ_FIRST m h with
  | None => true
  | Some f => bool_decide (prev m f = Some (HeadFirst h))
  end.

Definition QMD_TAILQ_CHECK_TAIL (m : qmem) (h : positive) : bool :=
  bool_decide (cell m (tail m h) = None).

Definition QMD_TAILQ_CHECK_NEXT (m : qmem) (elm : positive) : bool :=
  match TAILQ_NEXT m elm with
  | None => true
  | Some n => bool_decide (prev m n = Some (NextOf elm))
  end.

Definition QMD_TAILQ_CHECK_PREV (m : qmem) (elm : positive) : option bool :=
  p ← prev m elm; Some (bool_decide (cell m p = Some elm)).

Section Refinement.
Implicit Types (m : qmem) (h e : positive) (l a b : list positive).

Lemma tq_first m h l : tailq m h l -> TAILQ_FIRST m h = head l.
Proof. intros [H _ _ _]. destruct l; simpl in *; [done|]. apply H. Qed.

Lemma tq_next m h a e b : tailq m h (a ++ e :: b) -> TAILQ_NEXT m e = head b.
Proof.
  intros [[_ [_ H]]%chain_app _ _ _]. unfold TAILQ_NEXT.
  destruct b; simpl in H; [done|apply H].
Qed.

Lemma tq_init m h : tailq (TAILQ_INIT m h) h [].
Proof. unfold TAILQ_INIT. split; simpl; slots. apply NoDup_nil_2. Qed.

(** What the proofs below need about the parts of [a ++ e :: b]. *)
Lemma split_facts h a e b :
  NoDup (a ++ e :: b) ->
  NoDup a /\ NoDup b /\ e ∉ a /\ e ∉ b /\ (forall x, x ∈ a -> x ∉ b) /\
  last_slot (HeadFirst h) a ∉ links (HeadFirst h) a /\
  last_slot (HeadFirst h) a ≠ NextOf e /\
  (forall x, x ∈ b -> last_slot (HeadFirst h) a ≠ NextOf x).
Proof.
  intros (Ha & Hab & [He Hb]%NoDup_cons)%NoDup_app.
  assert (Hea : e ∉ a) by set_solver.
  split_and!; try done; [set_solver|..].
  - apply last_slot_not_link; [done|apply head_elem].
  - by apply last_slot_ne.
  - intros x Hx. apply last_slot_ne; [done|set_solver].
Qed.

(** Cells outside a queue are none of those its operations store to. *)
Lemma outside_ne h a es t :
  (forall x, x ∈ a -> x ∈ es) -> t ≠ HeadFirst h -> t ∉ map NextOf es ->
  last_slot (HeadFirst h) a ≠ t /\ forall x, x ∈ es -> NextOf x ≠ t.
Proof.
  intros Hsub Ht1 Ht2. split.
  - intros <-. destruct (last_slot_elem (HeadFirst h) a) as [|Hin]; [done|].
    apply list_elem_of_fmap in Hin as (x & Hx & Hxa). apply Ht2. rewrite Hx.
    apply next_elem. by apply Hsub.
  - intros x Hx <-. apply Ht2. by apply next_elem.
Qed.

Lemma tq_remove m h a e b :
  tailq m h (a ++ e :: b) ->
  exists m', TAILQ_REMOVE m h e = Some m' /\ tailq m' h (a ++ b) /\
    TAILQ_NEXT m' e = None /\ prev m' e = None /\ modifies m m' h (a ++ e :: b).
Proof.
  intros [[Hs [Hx Hc]]%chain_app Ht [Hpa [Hpe Hpb]]%prevs_app Hn].
  rewrite last_slot_app in Ht. simpl in Ht.
  assert (Hab : NoDup (a ++ b)).
  { rewrite <- Permutation_middle in Hn. by apply NoDup_cons in Hn as [_ ?]. }
  destruct (split_facts h a e b Hn) as (Ha & Hb & Hea & Heb & Hd & Hnl & Hne & Hnb).
  remember (last_slot (HeadFirst h) a) as p eqn:Ep.
  unfold TAILQ_REMOVE, TAILQ_NEXT. rewrite Hpe. simpl.
  eexists. split; [done|]. clear Hn.
  assert (Hmod : forall t, t ≠ HeadFirst h -> t ∉ map NextOf (a ++ e :: b) ->
    p ≠ t /\ NextOf e ≠ t).
  { intros t Ht1 Ht2. destruct (outside_ne h a (a ++ e :: b) t) as [H1 H2];
      [set_solver|done..|]. rewrite Ep. split; [done|]. apply H2. set_solver. }
  destruct b as [|n b]; simpl in *.
  - rewrite Hc. rewrite app_nil_r in *. autorewrite with queue. rewrite Hc.
    split_and!; [split; [|slots|eapply prevs_frame; [|exact Hpa]; slots|done]|slots|slots|].
    + apply chain_seg. rewrite <- Ep. split; [|slots].
      eapply seg_frame; [|exact Hs]. clear Hmod Hnb. slots.
    + constructor; [|slots|clear Hmod; slots]. intros t Ht1 Ht2.
      destruct (Hmod t Ht1 Ht2). slots.
  - destruct Hc as [Hn Hc]. destruct Hpb as [Hpn Hpb]. rewrite Hn.
    autorewrite with queue. rewrite Hn.
    apply NoDup_cons in Hb as [Hnb' Hb].
    assert (Hen : e ≠ n) by set_solver. assert (Heb' : e ∉ b) by set_solver.
    assert (Hpn' : p ≠ NextOf n) by (apply Hnb; left).
    assert (Hna : n ∉ a) by (intros ?; by apply (Hd n); [|left]).
    split_and!; [split; [| | |done]|slots|slots|].
    + apply chain_app. rewrite <- Ep. split; [|split; [slots|]].
      * eapply seg_frame; [|exact Hs]. clear Hmod Hnb Hd. slots.
      * eapply chain_frame; [|exact Hc]. intros t Ht'. autorewrite with queue.
        rewrite decide_False, decide_False; [done| |].
        -- destruct Ht' as [->|Ht']; [done|].
           apply list_elem_of_fmap in Ht' as (z & -> & Hz). apply Hnb. by right.
        -- destruct Ht' as [->|Ht']; [congruence|]. intros <-. by rewrite next_elem in Ht'.
    + rewrite last_slot_app. clear Hmod Hnb Hd. slots.
    + apply prevs_app. clear Hmod Hnb Hd. split; [|split].
      * eapply prevs_frame; [|exact Hpa]. slots.
      * rewrite <- Ep. slots.
      * eapply prevs_frame; [|exact Hpb]. slots.
    + constructor; [|slots|clear Hmod; slots]. intros t Ht1 Ht2.
      destruct (Hmod t Ht1 Ht2). slots.
Qed.

Lemma tq_insert_tail m h l e :
  tailq m h l -> e ∉ l ->
  tailq (TAILQ_INSERT_TAIL m h e) h (l ++ [e]) /\
  modifies m (TAILQ_INSERT_TAIL m h e) h (l ++ [e]).
Proof.
  intros [Hc Ht Hp Hn] He. unfold TAILQ_INSERT_TAIL.
  autorewrite with queue. rewrite Ht.
  apply chain_seg in Hc as [Hs Hl].
  pose proof (last_slot_not_link (HeadFirst h) l Hn (head_elem h l)) as Hnl.
  assert (Hne : last_slot (HeadFirst h) l ≠ NextOf e) by (by apply last_slot_ne).
  split; [split|].
  - apply chain_app. split; [|simpl; slots]. eapply seg_frame; [|exact Hs]. slots.
  - rewrite last_slot_app. slots.
  - apply prevs_app. split; [|simpl; slots]. eapply prevs_frame; [|exact Hp]. slots.
  - apply NoDup_app. split_and!; [done|set_solver|apply NoDup_singleton].
  - constructor; [|slots|slots]. intros t Ht1 Ht2.
    destruct (outside_ne h l (l ++ [e]) t) as [H1 H2]; [set_solver|done..|].
    specialize (H2 e). slots.
Qed.

Lemma tq_insert_head m h l e :
  tailq m h l -> e ∉ l -> tailq (TAILQ_INSERT_HEAD m h e) h (e :: l).
Proof.
  intros [Hc Ht Hp Hn] He. unfold TAILQ_INSERT_HEAD, TAILQ_FIRST, TAILQ_NEXT.
  autorewrite with queue. rewrite decide_True by done.
  destruct l as [|x l]; simpl in *.
  - rewrite Hc. split; simpl; [slots..|by apply NoDup_singleton].
  - destruct Hc as [Hx Hc], Hp as [Hpx Hp]. rewrite Hx.
    assert (Hxl : x ∉ l) by (by apply NoDup_cons in Hn as [? _]).
    assert (Hel : e ∉ l) by set_solver. assert (Hex : e ≠ x) by set_solver.
    split; simpl; [split; [slots|split; [slots|]]|slots|split; [slots|split; [slots|]]|].
    + eapply chain_frame; [|exact Hc]. clear He. slots.
    + eapply prevs_frame; [|exact Hp]. clear He. slots.
    + by apply NoDup_cons.
Qed.

Lemma tq_insert_before m h a x b e :
  tailq m h (a ++ x :: b) -> e ∉ a ++ x :: b ->
  exists m', TAILQ_INSERT_BEFORE m x e = Some m' /\ tailq m' h (a ++ e :: x :: b).
Proof.
  intros [[Hs [Hx Hc]]%chain_app Ht [Hpa [Hpx Hpb]]%prevs_app Hn] He.
  destruct (split_facts h a x b Hn) as (Ha & Hb & Hxa & Hxb & Hd & Hnl & Hne & Hnb).
  rewrite last_slot_app in Ht. simpl in Ht.
  assert (Hea : e ∉ a) by set_solver. assert (Heb : e ∉ b) by set_solver.
  assert (Hex : e ≠ x) by set_solver.
  assert (Hle : last_slot (HeadFirst h) a ≠ NextOf e) by (by apply last_slot_ne).
  assert (Hn' : NoDup (a ++ e :: x :: b)).
  { rewrite <- Permutation_middle. by apply NoDup_cons. }
  clear He Hn. unfold TAILQ_INSERT_BEFORE. rewrite Hpx. simpl. eexists. split; [done|].
  remember (last_slot (HeadFirst h) a) as p eqn:Ep.
  split; [| | |done].
  - apply chain_app. rewrite <- Ep. split; [|split; [slots|split; [slots|]]].
    + eapply seg_frame; [|exact Hs]. clear Hnb Hd Hn'. slots.
    + eapply chain_frame; [|exact Hc]. intros t Ht'. autorewrite with queue.
      rewrite decide_False, decide_False; [done| |].
      * destruct Ht' as [->|Ht']; [congruence|]. intros <-. by rewrite next_elem in Ht'.
      * destruct Ht' as [->|Ht']; [done|].
        apply list_elem_of_fmap in Ht' as (z & -> & Hz). by apply Hnb.
  - rewrite last_slot_app. clear Hnb Hd Hn'. slots.
  - apply prevs_app. rewrite <- Ep. clear Hnb Hd Hn'. split; [|split; [slots|split; [slots|]]].
    + eapply prevs_frame; [|exact Hpa]. slots.
    + eapply prevs_frame; [|exact Hpb]. slots.
Qed.

Lemma tq_insert_after m h a x b e :
  tailq m h (a ++ x :: b) -> e ∉ a ++ x :: b ->
  tailq (TAILQ_INSERT_AFTER m h x e) h (a ++ x :: e :: b).
Proof.
  intros [[Hs [Hx Hc]]%chain_app Ht [Hpa [Hpx Hpb]]%prevs_app Hn] He.
  destruct (split_facts h a x b Hn) as (Ha & Hb & Hxa & Hxb & Hd & Hnl & Hne & Hnb).
  rewrite last_slot_app in Ht. simpl in Ht.
  assert (Hea : e ∉ a) by set_solver. assert (Heb : e ∉ b) by set_solver.
  assert (Hex : e ≠ x) by set_solver.
  assert (Hle : last_slot (HeadFirst h) a ≠ NextOf e) by (by apply last_slot_ne).
  assert (Hn' : NoDup (a ++ x :: e :: b)).
  { change (a ++ x :: e :: b) with (a ++ [x] ++ e :: b). rewrite app_assoc.
    rewrite <- Permutation_middle. apply NoDup_cons. rewrite <- app_assoc. by split. }
  clear He Hn. unfold TAILQ_INSERT_AFTER, TAILQ_NEXT. autorewrite with queue.
  rewrite decide_True by done. remember (last_slot (HeadFirst h) a) as p eqn:Ep.
  destruct b as [|y b]; simpl in *.
  - rewrite Hc. split; [| | |done].
    + apply chain_app. rewrite <- Ep. split; [|simpl; slots].
      eapply seg_frame; [|exact Hs]. clear Hnb Hd Hn'. slots.
    + rewrite last_slot_app. slots.
    + apply prevs_app. rewrite <- Ep. split; [|simpl; slots].
      eapply prevs_frame; [|exact Hpa]. clear Hnb Hd Hn'. slots.
  - destruct Hc as [Hy Hc], Hpb as [Hpy Hpb]. rewrite Hy.
    assert (Hya : y ∉ a) by (intros ?; by apply (Hd y); [|left]).
    apply NoDup_cons in Hb as [Hyb Hb]. assert (Hxy : x ≠ y) by set_solver.
    assert (Hey : e ≠ y) by set_solver. assert (Hxb' : x ∉ b) by set_solver.
    assert (Heb' : e ∉ b) by set_solver.
    split; [| | |done]; clear Hnb Hd Hn'.
    + apply chain_app. rewrite <- Ep. split; [|split; [slots|split; [slots|split; [slots|]]]].
      * eapply seg_frame; [|exact Hs]. slots.
      * eapply chain_frame; [|exact Hc]. slots.
    + rewrite last_slot_app. slots.
    + apply prevs_app. rewrite <- Ep.
      split; [|split; [slots|split; [slots|split; [slots|]]]].
      * eapply prevs_frame; [|exact Hpa]. slots.
      * eapply prevs_frame; [|exact Hpb]. slots.
Qed.

Lemma tq_end_null m h l : tailq m h l -> cell m (tail m h) = None.
Proof. intros [[_ Hl]%chain_seg -> _ _]. done. Qed.

(** The cast in TAILQ_LAST and TAILQ_PREV finds the element in front. *)
Lemma tq_prev m h a x b :
  tailq m h (a ++ x :: b) -> TAILQ_PREV m x = Some (last a).
Proof.
  intros Hq. pose proof (tq_end_null _ _ _ Hq) as Hend.
  destruct Hq as [[Hs [Hx _]]%chain_app Ht [Hpa [Hpx _]]%prevs_app Hn].
  unfold TAILQ_PREV. rewrite Hpx. simpl. destruct a as [|y a _] using rev_ind.
  - simpl. by rewrite Hend.
  - rewrite last_slot_app. simpl. apply prevs_app in Hpa as [_ [-> _]]. simpl.
    apply seg_app in Hs as [_ [-> _]]. by rewrite last_snoc.
Qed.

Lemma tq_last m h l : tailq m h l -> TAILQ_LAST m h = Some (last l).
Proof.
  intros Hq. pose proof (tq_end_null _ _ _ Hq) as Hend.
  destruct Hq as [Hc Ht Hp Hn]. unfold TAILQ_LAST.
  destruct l as [|y l _] using rev_ind.
  - rewrite Ht. simpl in *. by rewrite Hend.
  - rewrite Ht, last_slot_app. simpl. apply prevs_app in Hp as [_ [-> _]]. simpl.
    apply chain_app in Hc as [_ [-> _]]. by rewrite last_snoc.
Qed.

Lemma tq_concat m h1 h2 l1 l2 :
  h1 ≠ h2 -> tailq m h1 l1 -> tailq m h2 l2 -> l1 ## l2 ->
  tailq (TAILQ_CONCAT m h1 h2) h1 (l1 ++ l2) /\ tailq (TAILQ_CONCAT m h1 h2) h2 [].
Proof.
  intros Hh [Hc1 Ht1 Hp1 Hn1] H2 Hd. unfold TAILQ_CONCAT.
  rewrite (tq_first _ _ _ H2). destruct H2 as [Hc2 Ht2 Hp2 Hn2].
  destruct l2 as [|y l2]; simpl in *.
  { rewrite app_nil_r. by split; split. }
  destruct Hc2 as [Hy Hc2], Hp2 as [Hpy Hp2].
  apply chain_seg in Hc1 as [Hs1 Hl1].
  pose proof (last_slot_not_link (HeadFirst h1) l1 Hn1 (head_elem h1 l1)) as Hnl.
  assert (Hne2 : last_slot (HeadFirst h1) l1 ≠ HeadFirst h2).
  { destruct (last_slot_elem (HeadFirst h1) l1) as [->|Hin]; [congruence|].
    intros Heq. rewrite Heq in Hin. by apply head_elem in Hin. }
  assert (Hnk : forall x, x ∈ y :: l2 -> last_slot (HeadFirst h1) l1 ≠ NextOf x)
    by (intros x Hx; apply last_slot_ne; [done|set_solver]).
  assert (Hd12 : NoDup (l1 ++ y :: l2)) by (apply NoDup_app; set_solver).
  assert (Hy1 : y ∉ l1) by set_solver. apply NoDup_cons in Hn2 as [Hy2 Hn2].
  unfold TAILQ_INIT. autorewrite with queue. rewrite Ht1. clear Hd.
  split; split; [| | |done| |clear Hd12 Hnk; slots|done|apply NoDup_nil_2].
  - apply chain_app. split; [|split].
    + eapply seg_frame; [|exact Hs1]. clear Hd12 Hnk. slots.
    + clear Hd12 Hnk. slots.
    + eapply chain_frame; [|exact Hc2]. intros t Ht. clear Hd12 Hnl Hn1.
      autorewrite with queue. rewrite decide_False, decide_False; [done| |].
      * destruct Ht as [->|Ht]; [apply Hnk; left|].
        apply list_elem_of_fmap in Ht as (z & -> & Hz). apply Hnk. by right.
      * destruct Ht as [->|Ht]; [done|]. intros <-. by apply head_elem in Ht.
  - rewrite last_slot_app. autorewrite with queue. rewrite decide_False by done.
    rewrite decide_True by done. by rewrite Ht2.
  - apply prevs_app. clear Hd12 Hnk. split; [|split; [slots|]].
    + eapply prevs_frame; [|exact Hp1]. slots.
    + eapply prevs_frame; [|exact Hp2]. slots.
  - simpl. clear Hd12 Hnk. slots.
Qed.

(** What TAILQ_SWAP leaves in the fields it may have written. *)
Lemma tq_swap_fields m h1 h2 :
  h1 ≠ h2 ->
  let m' := TAILQ_SWAP m h1 h2 in
  cell m' (HeadFirst h1) = cell m (HeadFirst h2) /\
  cell m' (HeadFirst h2) = cell m (HeadFirst h1) /\
  (forall e, cell m' (NextOf e) = cell m (NextOf e)) /\
  tail m' h1 = (if cell m (HeadFirst h2) is Some _ then tail m h2 else HeadFirst h1) /\
  tail m' h2 = (if cell m (HeadFirst h1) is Some _ then tail m h1 else HeadFirst h2) /\
  (forall e, cell m (HeadFirst h1) ≠ Some e -> cell m (HeadFirst h2) = Some e ->
    prev m' e = Some (HeadFirst h1)) /\
  (forall e, cell m (HeadFirst h1) = Some e -> prev m' e = Some (HeadFirst h2)) /\
  (forall e, cell m (HeadFirst h1) ≠ Some e -> cell m (HeadFirst h2) ≠ Some e ->
    prev m' e = prev m e).
Proof.
  intros Hh. unfold TAILQ_SWAP, TAILQ_FIRST. autorewrite with queue.
  rewrite (decide_False (P := HeadFirst h2 = HeadFirst h1)) by congruence.
  rewrite (decide_True (P := HeadFirst h1 = HeadFirst h1)) by done.
  destruct (cell m (HeadFirst h2)) as [f2|] eqn:E2; autorewrite with queue;
    rewrite (decide_True (P := HeadFirst h2 = HeadFirst h2)) by done;
    destruct (cell m (HeadFirst h1)) as [f1|] eqn:E1;
    split_and!; intros; qmem_cases; congruence.
Qed.

Lemma tq_swap m h1 h2 l1 l2 :
  h1 ≠ h2 -> tailq m h1 l1 -> tailq m h2 l2 -> l1 ## l2 ->
  tailq (TAILQ_SWAP m h1 h2) h1 l2 /\ tailq (TAILQ_SWAP m h1 h2) h2 l1.
Proof.
  intros Hh [Hc1 Ht1 Hp1 Hn1] [Hc2 Ht2 Hp2 Hn2] Hd.
  destruct (tq_swap_fields m h1 h2 Hh) as (Hs1 & Hs2 & Hn & Ha & Hb & Hf1 & Hf2 & Hfr).
  split; split; try done.
  - by eapply Stailq.chain_rehead.
  - rewrite Ha. clear Ha Hb. destruct l2; simpl in *; [by rewrite Hc2|].
    destruct Hc2 as [-> _]. done.
  - destruct l2 as [|y l2]; [done|]. destruct Hc2 as [Hy Hc2], Hp2 as [Hpy Hp2].
    assert (Hfst : forall z, z ∈ y :: l2 -> cell m (HeadFirst h1) ≠ Some z).
    { intros z Hz Hz'. destruct l1 as [|z' l1]; simpl in Hc1; [congruence|].
      destruct Hc1 as [Hc1 _]. set_solver. }
    split; [apply Hf1; [apply Hfst; left|done]|]. eapply prevs_frame; [|exact Hp2].
    intros z Hz. apply Hfr; [apply Hfst; by right|]. rewrite Hy. intros [= ->].
    by apply NoDup_cons in Hn2 as [? _].
  - by eapply Stailq.chain_rehead.
  - rewrite Hb. clear Ha Hb. destruct l1; simpl in *; [by rewrite Hc1|].
    destruct Hc1 as [-> _]. done.
  - destruct l1 as [|y l1]; [done|]. destruct Hc1 as [Hy Hc1], Hp1 as [Hpy Hp1].
    split; [by apply Hf2|]. eapply prevs_frame; [|exact Hp1].
    intros z Hz. apply Hfr.
    + rewrite Hy. intros [= ->]. by apply NoDup_cons in Hn1 as [? _].
    + intros Hz'. destruct l2 as [|z' l2]; simpl in Hc2; [congruence|].
      destruct Hc2 as [Hc2 _]. set_solver.
Qed.

(** ** Traversals *)

Lemma tq_foreach m h l fuel :
  tailq m h l -> (length l <= fuel)%nat -> TAILQ_FOREACH fuel m h = l.
Proof. intros [Hc _ _ _]. by apply Stailq.foreach_spec. Qed.

Lemma foreach_reverse_spec m h a b fuel :
  tailq m h (a ++ b) -> (length a <= fuel)%nat ->
  foreach_reverse fuel m (last a) = Some (rev a).
Proof.
  revert b fuel. induction a as [|x a IH] using rev_ind; intros b fuel Hq Hf.
  - by destruct fuel.
  - rewrite length_app in Hf. simpl in Hf. destruct fuel as [|fuel]; [lia|].
    rewrite last_snoc, rev_app_distr. simpl. rewrite <- app_assoc in Hq. simpl in Hq.
    rewrite (tq_prev _ _ _ _ _ Hq). simpl. by rewrite (IH (x :: b)) by (done || lia).
Qed.

Lemma tq_foreach_reverse m h l fuel :
  tailq m h l -> (length l <= fuel)%nat -> TAILQ_FOREACH_REVERSE fuel m h = Some (rev l).
Proof.
  intros Hq Hf. unfold TAILQ_FOREACH_REVERSE. rewrite (tq_last _ _ _ Hq). simpl.
  apply (foreach_reverse_spec m h l []); [by rewrite app_nil_r|done].
Qed.

(** The safe loops may unlink the element they are at. *)
Definition remove_if (f : positive -> bool) (h x : positive) (m : qmem) : option qmem :=
  if f x then TAILQ_REMOVE m h x else Some m.

Lemma tq_remove_if f m h a x b :
  tailq m h (a ++ x :: b) ->
  exists m', remove_if f h x m = Some m' /\
    tailq m' h (a ++ (if f x then [] else [x]) ++ b).
Proof.
  intros Hq. unfold remove_if. destruct (f x); simpl; [|by exists m].
  destruct (tq_remove _ _ _ _ _ Hq) as (m' & ? & ? & _). eauto.
Qed.

Lemma foreach_safe_filter f m h a b fuel :
  tailq m h (a ++ b) -> (length b <= fuel)%nat ->
  exists m', foreach_safe fuel (remove_if f h) m (head b) = Some m' /\
    tailq m' h (a ++ List.filter (fun x => negb (f x)) b).
Proof.
  revert m a fuel. induction b as [|x b IH]; intros m a fuel Hq Hf.
  - exists m. by destruct fuel.
  - destruct fuel as [|fuel]; simpl in *; [lia|]. rewrite (tq_next _ _ _ _ _ Hq).
    destruct (tq_remove_if f _ _ _ _ _ Hq) as (m1 & -> & Hq1). simpl.
    rewrite app_assoc in Hq1. destruct (IH m1 _ fuel Hq1) as (m' & -> & Hq'); [lia|].
    exists m'. split; [done|]. rewrite <- app_assoc in Hq'. by destruct (f x).
Qed.

Lemma foreach_reverse_safe_filter f m h a b fuel :
  tailq m h (a ++ b) -> (length a <= fuel)%nat ->
  exists m', foreach_reverse_safe fuel (remove_if f h) m (last a) = Some m' /\
    tailq m' h (List.filter (fun x => negb (f x)) a ++ b).
Proof.
  revert m b fuel. induction a as [|x a IH] using rev_ind; intros m b fuel Hq Hf.
  - exists m. by destruct fuel.
  - rewrite length_app in Hf. simpl in Hf. destruct fuel as [|fuel]; [lia|].
    rewrite last_snoc. simpl. rewrite <- app_assoc in Hq. simpl in Hq.
    rewrite (tq_prev _ _ _ _ _ Hq). simpl.
    destruct (tq_remove_if f _ _ _ _ _ Hq) as (m1 & -> & Hq1). simpl.
    destruct (IH m1 _ fuel Hq1) as (m' & -> & Hq'); [lia|].
    exists m'. split; [done|]. rewrite List.filter_app, <- app_assoc. simpl.
    by destruct (f x).
Qed.

(** ** Relocation *)

(** What a queue looks like after its elements were copied from the addresses
    [old] to the addresses [new]: the links still name the old addresses. *)
Fixpoint relocated (m : qmem) (old new : list positive) : Prop :=
  match old, new with
  | [], [] => True
  | [x], [x'] => TAILQ_NEXT m x' = None
  | x :: (y :: _) as old, x' :: (y' :: _) as new =>
      TAILQ_NEXT m x' = Some y /\ prev m y' = Some (NextOf x) /\ relocated m old new
  | _, _ => False
  end.

Lemma relocated_frame m m' old new :
  (forall e, e ∈ new -> cell m' (NextOf e) = cell m (NextOf e)) ->
  (forall e, e ∈ new -> prev m' e = prev m e) ->
  relocated m old new -> relocated m' old new.
Proof.
  revert new. induction old as [|x old IH]; intros [|x' new] Hc Hp; simpl; try done.
  unfold TAILQ_NEXT in *. destruct old as [|y old], new as [|y' new]; try done.
  - intros H. rewrite Hc; [done|left].
  - intros (H1 & H2 & H3). rewrite Hc by left. rewrite Hp by (right; left).
    split_and!; [done..|]. apply IH; [| |done]; intros; [apply Hc|apply Hp]; by right.
Qed.

Lemma shift_inj o x y z : shift o x = Some z -> shift o y = Some z -> x = y.
Proof. unfold shift. destruct (_ + o)%Z eqn:E1, (Z.pos y + o)%Z eqn:E2; intros; simplify_eq; lia. Qed.

Abbreviation shifted o := (Forall2 (fun x x' => shift o x = Some x')).

(** The element the loop is at: its link to the next element is moved, its
    back link is [p]. *)
Lemma reinit_elem_spec m h o x x' p old new :
  relocated m (x :: old) (x' :: new) -> shifted o old new ->
  (TAILQ_FIRST m h = Some x' /\ p = HeadFirst h \/
   TAILQ_FIRST m h ≠ Some x' /\ exists w w', prev m x' = Some (NextOf w) /\
     shift o w = Some w' /\ p = NextOf w') ->
  exists m1, reinit_elem m h o x' = Some m1 /\
    TAILQ_NEXT m1 x' = head new /\ prev m1 x' = Some p /\ tail m1 h = NextOf x' /\
    (forall t, t ≠ NextOf x' -> cell m1 t = cell m t) /\
    (forall e, e ≠ x' -> prev m1 e = prev m e).
Proof.
  intros Hr Hs Hp. unfold reinit_elem.
  assert (exists m0, (match TAILQ_NEXT m x' with
       | Some n => n' ← shift o n; Some (set_cell m (NextOf x') (Some n'))
       | None => Some m end) = Some m0 /\ TAILQ_NEXT m0 x' = head new /\
       (forall t, t ≠ NextOf x' -> cell m0 t = cell m t) /\ prev m0 = prev m) as (m0 & -> & Hn & Hc & Hpv).
  { destruct Hs as [|y y' old new Hy Hs]; simpl in Hr.
    - rewrite Hr. by exists m.
    - destruct Hr as (-> & _). simpl. rewrite Hy. simpl. eexists. split; [done|].
      unfold TAILQ_NEXT. split_and!; [slots|slots|done]. }
  simpl. assert (Hf : TAILQ_FIRST m0 h = TAILQ_FIRST m h) by (by apply Hc).
  rewrite Hf, Hpv. destruct Hp as [[Hp ->]|(Hp & w & w' & Hw & Hw' & ->)].
  - rewrite decide_True by done. simpl. eexists. split; [done|].
    unfold TAILQ_NEXT in *. split_and!; intros; qmem_cases; rewrite ?Hpv; auto.
  - rewrite decide_False by done. rewrite Hw. simpl. rewrite Hw'. simpl. eexists. split; [done|].
    unfold TAILQ_NEXT in *. split_and!; intros; qmem_cases; rewrite ?Hpv; auto.
Qed.

Lemma reinit_loop_spec h o old new :
  shifted o old new -> forall fuel m x x' p,
  shift o x = Some x' -> NoDup (x' :: new) -> (length new < fuel)%nat ->
  relocated m (x :: old) (x' :: new) ->
  (forall y', y' ∈ new -> TAILQ_FIRST m h ≠ Some y') ->
  (TAILQ_FIRST m h = Some x' /\ p = HeadFirst h \/
   TAILQ_FIRST m h ≠ Some x' /\ exists w w', prev m x' = Some (NextOf w) /\
     shift o w = Some w' /\ p = NextOf w') ->
  exists m', reinit_loop fuel m h o (Some x') = Some m' /\
    chain m' (NextOf x') new /\ prevs m' p (x' :: new) /\
    tail m' h = last_slot p (x' :: new) /\
    (forall t, t ∉ map NextOf (x' :: new) -> cell m' t = cell m t) /\
    (forall e, e ∉ x' :: new -> prev m' e = prev m e).
Proof.
  induction 1 as [|y y' old new Hy Hs IH]; intros fuel m x x' p Hx Hd Hf Hr Hfst Hp;
    (destruct fuel as [|fuel]; simpl in Hf; [lia|]).
  - destruct (reinit_elem_spec m h o x x' p [] []) as (m1 & Hm & Hn & Hp1 & Ht & Hc & Hpv); [done..|].
    exists m1. simpl. rewrite Hm. simpl. rewrite Hn. split; [by destruct fuel|].
    split_and!; [done..| |]; intros t Hin; [apply Hc|apply Hpv]; set_solver.
  - destruct (reinit_elem_spec m h o x x' p (y :: old) (y' :: new))
      as (m1 & Hm & Hn & Hp1 & Ht & Hc & Hpv); [done|by constructor|done|].
    simpl in Hr. destruct Hr as (_ & Hpy & Hr).
    assert (Hd' := Hd). apply NoDup_cons in Hd' as [Hx' Hd'].
    assert (Hfst1 : TAILQ_FIRST m1 h = TAILQ_FIRST m h) by (by apply Hc).
    destruct (IH fuel m1 y y' (NextOf x')) as (m' & Hl & Hch & Hprs & Htl & Hfr & Hfp); [done..|lia| | | |].
    + eapply relocated_frame; [| |exact Hr].
      * intros e He. apply Hc. intros [= ->]. done.
      * intros e He. apply Hpv. by intros ->.
    + intros z Hz. rewrite Hfst1. apply Hfst. by right.
    + right. rewrite Hfst1. split; [apply Hfst; left|]. exists x, x'.
      rewrite Hpv by set_solver. done.
    + exists m'. split.
      { simpl. rewrite Hm. simpl. rewrite Hn. exact Hl. }
      split; [split; [|done]|split; [split; [|done]|split; [done|split]]].
      * rewrite Hfr by (rewrite next_elem; done). done.
      * by rewrite Hfp.
      * intros t Ht'. rewrite Hfr by set_solver. apply Hc. set_solver.
      * intros e He. rewrite Hfp by set_solver. apply Hpv. set_solver.
Qed.

Lemma tq_reinit m h o x x' old new :
  NoDup (x' :: new) -> shifted o (x :: old) (x' :: new) ->
  relocated m (x :: old) (x' :: new) ->
  exists m', TAILQ_REINIT (length (x :: old)) m h (Some x') o = Some m' /\
    tailq m' h (x' :: new).
Proof.
  intros Hd [Hx Hs]%Forall2_cons Hr. unfold TAILQ_REINIT, TAILQ_FIRST.
  autorewrite with queue. rewrite decide_True by done.
  destruct (reinit_loop_spec h o old new Hs (length (x :: old))
    (set_cell m (HeadFirst h) (Some x')) x x' (HeadFirst h))
    as (m' & -> & Hc & Hp & Ht & Hf & _); [done..| | | | |].
  - apply Forall2_length in Hs. simpl. lia.
  - eapply relocated_frame; [| |exact Hr]; slots.
  - intros y' Hy. unfold TAILQ_FIRST. apply NoDup_cons in Hd as [? _]. slots.
  - left. unfold TAILQ_FIRST. slots.
  - exists m'. split; [done|]. split; [split; [|done]|done..].
    rewrite Hf by (apply head_elem). slots.
Qed.

(** ** The checks of debug builds *)

Lemma tq_checks m h a x b :
  tailq m h (a ++ x :: b) ->
  QMD_TAILQ_CHECK_HEAD m h = true /\ QMD_TAILQ_CHECK_TAIL m h = true /\
  QMD_TAILQ_CHECK_NEXT m x = true /\ QMD_TAILQ_CHECK_PREV m x = Some true.
Proof.
  intros Hq. pose proof (tq_end_null _ _ _ Hq) as Hend.
  pose proof (tq_first _ _ _ Hq) as Hf. pose proof (tq_next _ _ _ _ _ Hq) as Hn.
  destruct Hq as [[_ [Hx _]]%chain_app _ Hp _].
  unfold QMD_TAILQ_CHECK_HEAD, QMD_TAILQ_CHECK_TAIL, QMD_TAILQ_CHECK_NEXT, QMD_TAILQ_CHECK_PREV.
  rewrite Hf, Hn, Hend. split_and!.
  - destruct (a ++ x :: b); [done|]. simpl. by rewrite bool_decide_true by apply Hp.
  - done.
  - apply prevs_app in Hp as [_ [_ Hp]]. destruct b; [done|]. simpl.
    by rewrite bool_decide_true by apply Hp.
  - apply prevs_app in Hp as [_ [-> _]]. simpl. by rewrite bool_decide_true.
Qed.

End Refinement.

(** ** Properties *)

(** C9: on a TAILQ that holds the list [a ++ x :: b], every macro
    implements the list operation it stands for, and the back links stay
    consistent: insertion at either end and on either side of [x], removal of
    [x] (after which its own links are NULL), and the casts through the head
    type by which TAILQ_PREV and TAILQ_LAST find the preceding and the last
    element.  The loops visit every element once, forwards or backwards, and the
    safe ones may unlink the element they are at: what remains is the elements
    not chosen, in order.  None of the checks of debug builds panics. *)
Theorem tailq_refines_list (m : qmem) (h : positive) (a b : list positive)
    (x e : positive) (fuel : nat) (f : positive -> bool) :
  tailq m h (a ++ x :: b) -> e ∉ a ++ x :: b -> (length (a ++ x :: b) <= fuel)%nat ->
  tailq (TAILQ_INSERT_HEAD m h e) h (e :: a ++ x :: b) /\
  tailq (TAILQ_INSERT_TAIL m h e) h ((a ++ x :: b) ++ [e]) /\
  tailq (TAILQ_INSERT_AFTER m h x e) h (a ++ x :: e :: b) /\
  (exists m', TAILQ_INSERT_BEFORE m x e = Some m' /\ tailq m' h (a ++ e :: x :: b)) /\
  (exists m', TAILQ_REMOVE m h x = Some m' /\ tailq m' h (a ++ b) /\
    TAILQ_NEXT m' x = None /\ prev m' x = None) /\
  TAILQ_FIRST m h = head (a ++ x :: b) /\
  TAILQ_NEXT m x = head b /\
  TAILQ_PREV m x = Some (last a) /\
  TAILQ_LAST m h = Some (last (a ++ x :: b)) /\
  TAILQ_FOREACH fuel m h = a ++ x :: b /\
  TAILQ_FOREACH_REVERSE fuel m h = Some (rev (a ++ x :: b)) /\
  (exists m', TAILQ_FOREACH_SAFE fuel (remove_if f h) m h = Some m' /\
    tailq m' h (List.filter (fun y => negb (f y)) (a ++ x :: b))) /\
  (exists m', TAILQ_FOREACH_REVERSE_SAFE fuel (remove_if f h) m h = Some m' /\
    tailq m' h (List.filter (fun y => negb (f y)) (a ++ x :: b))) /\
  QMD_TAILQ_CHECK_HEAD m h = true /\ QMD_TAILQ_CHECK_TAIL m h = true /\
  QMD_TAILQ_CHECK_NEXT m x = true /\ QMD_TAILQ_CHECK_PREV m x = Some true.
Proof.
  intros Hq He Hf. split_and!; try (by apply (tq_checks m h a x b)).
  - by apply tq_insert_head.
  - by apply tq_insert_tail.
  - by apply tq_insert_after.
  - by apply tq_insert_before.
  - destruct (tq_remove m h a x b Hq) as (m' & ? & ? & ? & ? & _). eauto 6.
  - by apply tq_first.
  - by eapply tq_next.
  - by eapply tq_prev.
  - by apply tq_last.
  - by apply tq_foreach.
  - by apply tq_foreach_reverse.
  - unfold TAILQ_FOREACH_SAFE. rewrite (tq_first _ _ _ Hq).
    by apply (foreach_safe_filter f m h []).
  - unfold TAILQ_FOREACH_REVERSE_SAFE. rewrite (tq_last _ _ _ Hq). cbn [mbind option_bind].
    destruct (foreach_reverse_safe_filter f m h (a ++ x :: b) [] fuel) as (m' & H & Hq');
      [by rewrite app_nil_r|done|]. rewrite app_nil_r in Hq'. eauto.
Qed.

(** The queue 1, 2, 3 at head 1, built by the macros. *)
Definition tq123 : qmem :=
  TAILQ_INSERT_TAIL (TAILQ_INSERT_TAIL
    (TAILQ_INSERT_HEAD (TAILQ_INIT qmem_empty 1) 1 1) 1 2) 1 3.

Lemma tq123_repr : tailq tq123 1 [1; 2; 3]%positive.
Proof.
  pose proof (tq_init qmem_empty 1) as H0.
  apply (tq_insert_head _ _ _ 1) in H0; [|set_solver].
  apply (tq_insert_tail _ _ _ 2) in H0 as [H0 _]; [|set_solver].
  apply (tq_insert_tail _ _ _ 3) in H0 as [H0 _]; [done|set_solver].
Qed.

Lemma tailq_refines_list_witness :
  exists m', TAILQ_REMOVE tq123 1 2 = Some m' /\ tailq m' 1 [1; 3]%positive.
Proof.
  destruct (tailq_refines_list tq123 1 [1%positive] [3%positive] 2 4 3 (fun _ => true))
    as (_ & _ & _ & _ & (m' & H & Hq & _) & _); [exact tq123_repr|set_solver|simpl; lia|].
  by exists m'.
Defined.

(** Queues move.  TAILQ_CONCAT appends the second queue to the first
    and empties the second; TAILQ_SWAP exchanges two queues, empty ones included.
    TAILQ_REINIT repairs a non-empty queue whose elements were copied from the
    addresses [old] to the addresses [new], each [o] bytes away, with links that
    still name the old addresses: given the new address of the first element it
    leaves the queue [new] at head [h], whatever that head held. *)
Theorem tailq_moves (m : qmem) (h1 h2 h : positive) (l1 l2 : list positive)
    (o : Z) (x x' : positive) (old new : list positive) :
  h1 ≠ h2 -> tailq m h1 l1 -> tailq m h2 l2 -> l1 ## l2 ->
  NoDup (x' :: new) ->
  Forall2 (fun y y' => shift o y = Some y') (x :: old) (x' :: new) ->
  relocated m (x :: old) (x' :: new) ->
  tailq (TAILQ_CONCAT m h1 h2) h1 (l1 ++ l2) /\ tailq (TAILQ_CONCAT m h1 h2) h2 [] /\
  tailq (TAILQ_SWAP m h1 h2) h1 l2 /\ tailq (TAILQ_SWAP m h1 h2) h2 l1 /\
  exists m', TAILQ_REINIT (length (x :: old)) m h (Some x') o = Some m' /\
    tailq m' h (x' :: new).
Proof.
  intros Hh H1 H2 Hd Hn Hs Hr.
  destruct (tq_concat m h1 h2 l1 l2) as [? ?]; [done..|].
  destruct (tq_swap m h1 h2 l1 l2) as [? ?]; [done..|].
  destruct (tq_reinit m h o x x' old new) as (m' & ? & ?); eauto 10.
Qed.

(** The elements 1, 2, 3 copied 100 bytes up, with the links they had. *)
Definition tq_moved : qmem :=
  let m := TAILQ_INIT tq123 2 in
  let m := set_cell m (NextOf 101) (Some 2%positive) in
  let m := set_cell m (NextOf 102) (Some 3%positive) in
  let m := set_prev m 102 (Some (NextOf 1)) in
  set_prev m 103 (Some (NextOf 2)).

Lemma tailq_moves_witness :
  tailq (TAILQ_SWAP tq_moved 1 2) 2 [1; 2; 3]%positive /\
  exists m', TAILQ_REINIT 3 tq_moved 3 (Some 101%positive) 100 = Some m' /\
    tailq m' 3 [101; 102; 103]%positive.
Proof.
  assert (Hm : modifies tq123 tq_moved 2 [101; 102; 103]%positive).
  { unfold tq_moved, TAILQ_INIT. split; slots. }
  destruct (tailq_moves tq_moved 1 2 3 [1; 2; 3]%positive [] 100 1 101 [2; 3]%positive
    [102; 103]%positive) as (_ & _ & _ & H & H'); [done|..| |by split].
  - apply (modifies_tailq _ _ _ _ _ _ Hm); [done|set_solver|exact tq123_repr].
  - unfold tq_moved, TAILQ_INIT. split; simpl; slots. apply NoDup_nil_2.
  - set_solver.
  - repeat constructor; set_solver.
  - repeat constructor.
  - by vm_compute.
Defined.

(** TAILQ_REINIT of an empty queue does not reset tqh_last. *)
Example reinit_empty_tail :
  tail <$> TAILQ_REINIT 1 (set_tail qmem_empty 1 (NextOf 7)) 1 None 100 =
    Some (tail (set_tail qmem_empty 1 (NextOf 7))).
Proof. reflexivity. Qed.
