(* ===== verification/Lists.v ===== *)
(** * Lists (the SLIST and LIST macros of include/cc_queue.h)

    The memory is that of [Queue]: an SLIST head has only a first field and an
    SLIST element only a next field; a LIST element also has le_prev, the address
    of the next field in front of it.  Neither has a tail, so what a list does is
    what the tail queue of the same links does, up to tails: [links_eq] is that
    equivalence, every predicate and operation here respects it, and each macro is
    shown equal up to [links_eq] to its STAILQ or TAILQ counterpart, from which it
    inherits its specification. *)

From stdpp Require Import functions.
From S2P Require Import Prelude Queue Tailq.

(** ** Memories up to tails *)

#[export] Instance links_eq : Equiv qmem := fun m m' =>
  (forall s, cell m s = cell m' s) /\ (forall e, prev m e = prev m' e).

#[export] Instance links_eq_equivalence : Equivalence (≡@{qmem}).
Proof.
  split; [by split|intros m m' [H1 H2]; by split|].
  intros m1 m2 m3 [H1 H2] [H3 H4]. split; intros; [by rewrite H1|by rewrite H2].
Qed.

#[export] Instance cell_proper : Proper ((≡) ==> (=) ==> (=)) cell.
Proof. intros m m' [H _] s ? <-. apply H. Qed.

#[export] Instance prev_proper : Proper ((≡) ==> (=) ==> (=)) prev.
Proof. intros m m' [_ H] e ? <-. apply H. Qed.

(** For the tests, which [decide] the contents of a field. *)
Lemma cell_eq m m' s : m ≡ m' -> cell m s = cell m' s.
Proof. intros [H _]. apply H. Qed.

Lemma prev_eq m m' e : m ≡ m' -> prev m e = prev m' e.
Proof. intros [_ H]. apply H. Qed.

#[export] Instance set_cell_proper : Proper ((≡) ==> (=) ==> (=) ==> (≡)) set_cell.
Proof.
  intros m m' [Hc Hp] s ? <- p ? <-.
  split; intros; autorewrite with queue; rewrite ?Hc, ?Hp; done.
Qed.

#[export] Instance set_prev_proper : Proper ((≡) ==> (=) ==> (=) ==> (≡)) set_prev.
Proof.
  intros m m' [Hc Hp] s ? <- p ? <-.
  split; intros; autorewrite with queue; rewrite ?Hc, ?Hp; done.
Qed.

Lemma set_tail_equiv m h s : set_tail m h s ≡ m.
Proof. split; intros; by autorewrite with queue. Qed.

#[export] Instance chain_proper : Proper ((≡) ==> (=) ==> (=) ==> iff) chain.
Proof.
  intros m m' [Hc _] s ? <- l ? <-. revert s.
  induction l as [|x l IH]; intros s; simpl; rewrite Hc; [done|by rewrite IH].
Qed.

#[export] Instance prevs_proper : Proper ((≡) ==> (=) ==> (=) ==> iff) prevs.
Proof.
  intros m m' [_ Hp] s ? <- l ? <-. revert s.
  induction l as [|x l IH]; intros s; simpl; [done|]. by rewrite Hp, IH.
Qed.

(** ** Represented lists *)

Definition slist (m : qmem) (h : positive) (l : list positive) : Prop :=
  chain m (HeadFirst h) l /\ NoDup l.

Definition dlist (m : qmem) (h : positive) (l : list positive) : Prop :=
  chain m (HeadFirst h) l /\ prevs m (HeadFirst h) l /\ NoDup l.

#[export] Instance slist_proper : Proper ((≡) ==> (=) ==> (=) ==> iff) slist.
Proof. intros m m' H h ? <- l ? <-. unfold slist. by rewrite H. Qed.

#[export] Instance dlist_proper : Proper ((≡) ==> (=) ==> (=) ==> iff) dlist.
Proof. intros m m' H h ? <- l ? <-. unfold dlist. by rewrite H. Qed.

(** A list is the queue of the same links whose tail is where it should be. *)
Definition with_tail (m : qmem) (h : positive) (l : list positive) : qmem :=
  set_tail m h (last_slot (HeadFirst h) l).

Lemma with_tail_equiv m h l : with_tail m h l ≡ m.
Proof. apply set_tail_equiv. Qed.

Lemma slist_stailq m h l : slist m h l -> stailq (with_tail m h l) h l.
Proof.
  intros [Hc Hn]. split; [by rewrite with_tail_equiv| |done].
  unfold with_tail. autorewrite with queue. by rewrite decide_True.
Qed.

Lemma stailq_slist m h l : stailq m h l -> slist m h l.
Proof. by intros []. Qed.

Lemma dlist_tailq m h l : dlist m h l -> tailq (with_tail m h l) h l.
Proof.
  intros (Hc & Hp & Hn). split; [by rewrite with_tail_equiv| |by rewrite with_tail_equiv|done].
  unfold with_tail. autorewrite with queue. by rewrite decide_True.
Qed.

Lemma tailq_dlist m h l : tailq m h l -> dlist m h l.
Proof. by intros []. Qed.

(** ** Singly-linked lists *)

Definition SLIST_FIRST (m : qmem) (h : positive) : option positive := cell m (HeadFirst h).

Definition SLIST_EMPTY (m : qmem) (h : positive) : bool :=
  bool_decide (SLIST_FIRST m h = None).

Definition SLIST_NEXT (m : qmem) (e : positive) : option positive := cell m (NextOf e).

Definition SLIST_INIT (m : qmem) (h : positive) : qmem := set_cell m (HeadFirst h) None.

Definition SLIST_INSERT_AFTER (m : qmem) (slistelm elm : positive) : qmem :=
  let m := set_cell m (NextOf elm) (SLIST_NEXT m slistelm) in
  set_cell m (NextOf slistelm) (Some elm).

Definition SLIST_INSERT_HEAD (m : qmem) (h elm : positive) : qmem :=
  let m := set_cell m (NextOf elm) (SLIST_FIRST m h) in
  set_cell m (HeadFirst h) (Some elm).

Definition SLIST_REMOVE_HEAD (m : qmem) (h : positive) : option qmem :=
  f ← SLIST_FIRST m h;
  let m := set_cell m (HeadFirst h) (SLIST_NEXT m f) in
  Some (set_cell m (NextOf f) None).

Definition SLIST_REMOVE_AFTER (m : qmem) (elm : positive) : option qmem :=
  n ← SLIST_NEXT m elm;
  let m := set_cell m (NextOf elm) (SLIST_NEXT m n) in
  Some (set_cell m (NextOf n) None).

(** The search loop of SLIST_REMOVE. *)
Fixpoint slist_find_prev (fuel : nat) (m : qmem) (curelm : option positive)
    (elm : positive) : option positive :=
  match fuel with
  | O => None
  | S fuel =>
      c ← curelm;
      if decide (SLIST_NEXT m c = Some elm) then Some c
      else slist_find_prev fuel m (SLIST_NEXT m c) elm
  end.

Definition SLIST_REMOVE (fuel : nat) (m : qmem) (h elm : positive) : option qmem :=
  if decide (SLIST_FIRST m h = Some elm) then SLIST_REMOVE_HEAD m h
  else
    c ← slist_find_prev fuel m (SLIST_FIRST m h) elm;
    SLIST_REMOVE_AFTER m c.

(** SLIST_FOREACH and SLIST_FOREACH_PREVPTR: what is visited, in order; the second
    also has the address of the pointer to each element. *)
Fixpoint slist_foreach (fuel : nat) (m : qmem) (var : option positive)
  : option (list positive) :=
  match var with
  | None => Some []
  | Some x =>
      match fuel with
      | O => None
      | S fuel => l ← slist_foreach fuel m (SLIST_NEXT m x); Some (x :: l)
      end
  end.

Definition SLIST_FOREACH (fuel : nat) (m : qmem) (h : positive) : option (list positive) :=
  slist_foreach fuel m (SLIST_FIRST m h).

Fixpoint foreach_prevptr (fuel : nat) (m : qmem) (varp : slot)
  : option (list (slot * positive)) :=
  match cell m varp with
  | None => Some []
  | Some x =>
      match fuel with
      | O => None
      | S fuel => l ← foreach_prevptr fuel m (NextOf x); Some ((varp, x) :: l)
      end
  end.

Definition SLIST_FOREACH_PREVPTR (fuel : nat) (m : qmem) (h : positive)
  : option (list (slot * positive)) :=
  foreach_prevptr fuel m (HeadFirst h).

(** SLIST_FOREACH_SAFE: [body] may change the element it is given. *)
Fixpoint slist_foreach_safe (fuel : nat) (body : positive -> qmem -> option qmem)
    (m : qmem) (var : option positive) : option qmem :=
  match var with
  | None => Some m
  | Some x =>
      match fuel with
      | O => None
      | S fuel =>
          let tvar := SLIST_NEXT m x in
          m ← body x m; slist_foreach_safe fuel body m tvar
      end
  end.

Definition SLIST_FOREACH_SAFE (fuel : nat) (body : positive -> qmem -> option qmem)
    (m : qmem) (h : positive) : option qmem :=
  slist_foreach_safe fuel body m (SLIST_FIRST m h).

(** ** Lists *)

Definition LIST_FIRST (m : qmem) (h : positive) : option positive := cell m (HeadFirst h).

Definition LIST_EMPTY (m : qmem) (h : positive) : bool :=
  bool_decide (LIST_FIRST m h = None).

Definition LIST_NEXT (m : qmem) (e : positive) : option positive := cell m (NextOf e).

Definition LIST_INIT (m : qmem) (h : positive) : qmem := set_cell m (HeadFirst h) None.

Definition LIST_INSERT_AFTER (m : qmem) (listelm elm : positive) : qmem :=
  let m := set_cell m (NextOf elm) (LIST_NEXT m listelm) in
  let m := match LIST_NEXT m elm with
           | Some _ =>
               match LIST_NEXT m listelm with
               | Some n => set_prev m n (Some (NextOf elm))
               | None => m
               end
           | None => m
           end in
  let m := set_cell m (NextOf listelm) (Some elm) in
  set_prev m elm (Some (NextOf listelm)).

Definition LIST_INSERT_BEFORE (m : qmem) (listelm elm : positive) : option qmem :=
  let m := set_prev m elm (prev m listelm) in
  let m := set_cell m (NextOf elm) (Some listelm) in
  m ← store m (prev m listelm) (Some elm);
  Some (set_prev m listelm (Some (NextOf elm))).

Definition LIST_INSERT_HEAD (m : qmem) (h elm : positive) : qmem :=
  let m := set_cell m (NextOf elm) (LIST_FIRST m h) in
  let m := match LIST_NEXT m elm with
           | Some _ =>
               match LIST_FIRST m h with
               | Some f => set_prev m f (Some (NextOf elm))
               | None => m
               end
           | None => m
           end in
  let m := set_cell m (HeadFirst h) (Some elm) in
  set_prev m elm (Some (HeadFirst h)).

Definition LIST_REMOVE (m : qmem) (elm : positive) : option qmem :=
  let m := match LIST_NEXT m elm with
           | Some n => set_prev m n (prev m elm)
           | None => m
           end in
  m ← store m (prev m elm) (LIST_NEXT m elm);
  let m := set_cell m (NextOf elm) None in
  Some (set_prev m elm None).

Definition LIST_SWAP (m : qmem) (h1 h2 : positive) : qmem :=
  let swap_tmp := LIST_FIRST m h1 in
  let m := set_cell m (HeadFirst h1) (LIST_FIRST m h2) in
  let m := set_cell m (HeadFirst h2) swap_tmp in
  let m := match LIST_FIRST m h1 with
           | Some f => set_prev m f (Some (HeadFirst h1))
           | None => m
           end in
  match LIST_FIRST m h2 with
  | Some f => set_prev m f (Some (HeadFirst h2))
  | None => m
  end.

Fixpoint list_foreach (fuel : nat) (m : qmem) (var : option positive)
  : option (list positive) :=
  match var with
  | None => Some []
  | Some x =>
      match fuel with
      | O => None
      | S fuel => l ← list_foreach fuel m (LIST_NEXT m x); Some (x :: l)
      end
  end.

Definition LIST_FOREACH (fuel : nat) (m : qmem) (h : positive) : option (list positive) :=
  list_foreach fuel m (LIST_FIRST m h).

Fixpoint list_foreach_safe (fuel : nat) (body : positive -> qmem -> option qmem)
    (m : qmem) (var : option positive) : option qmem :=
  match var with
  | None => Some m
  | Some x =>
      match fuel with
      | O => None
      | S fuel =>
          let tvar := LIST_NEXT m x in
          m ← body x m; list_foreach_safe fuel body m tvar
      end
  end.

Definition LIST_FOREACH_SAFE (fuel : nat) (body : positive -> qmem -> option qmem)
    (m : qmem) (h : positive) : option qmem :=
  list_foreach_safe fuel body m (LIST_FIRST m h).

(** The checks of CC_ASSERT_PANIC builds: [false] is a panic. *)
Definition QMD_LIST_CHECK_HEAD (m : qmem) (h : positive) : bool :=
  match LIST_FIRST m h with
  | None => true
  | Some f => bool_decide (prev m f = Some (HeadFirst h))
  end.

Definition QMD_LIST_CHECK_NEXT (m : qmem) (elm : positive) : bool :=
  match LIST_NEXT m elm with
  | None => true
  | Some n => bool_decide (prev m n = Some (NextOf elm))
  end.

Definition QMD_LIST_CHECK_PREV (m : qmem) (elm : positive) : option bool :=
  p ← prev m elm; Some (bool_decide (cell m p = Some elm)).

(** ** Equality with the tail-queue macros, up to tails *)

Section Equivalence.
Implicit Types (m : qmem) (h e : positive) (l a b : list positive).

(** Operations that fail together and agree up to tails. *)
Lemma equiv_Some_inv m (o o' : option qmem) :
  o ≡ o' -> o' = Some m -> exists m1, o = Some m1 /\ m1 ≡ m.
Proof. intros H ->. inversion H; subst. eauto. Qed.

Lemma SLIST_INSERT_AFTER_equiv m m' h x e :
  m ≡ m' -> SLIST_INSERT_AFTER m x e ≡ Stailq.STAILQ_INSERT_AFTER m' h x e.
Proof.
  intros H. unfold SLIST_INSERT_AFTER, SLIST_NEXT, Stailq.STAILQ_INSERT_AFTER, Stailq.STAILQ_NEXT.
  case_decide; by rewrite ?set_tail_equiv, !H.
Qed.

Lemma SLIST_INSERT_HEAD_equiv m m' h e :
  m ≡ m' -> SLIST_INSERT_HEAD m h e ≡ Stailq.STAILQ_INSERT_HEAD m' h e.
Proof.
  intros H. unfold SLIST_INSERT_HEAD, SLIST_FIRST, Stailq.STAILQ_INSERT_HEAD, Stailq.STAILQ_FIRST.
  case_decide; by rewrite ?set_tail_equiv, !H.
Qed.

Lemma SLIST_REMOVE_HEAD_equiv m m' h :
  m ≡ m' -> SLIST_REMOVE_HEAD m h ≡ Stailq.STAILQ_REMOVE_HEAD m' h.
Proof.
  intros H. unfold SLIST_REMOVE_HEAD, SLIST_FIRST, SLIST_NEXT,
    Stailq.STAILQ_REMOVE_HEAD, Stailq.STAILQ_FIRST, Stailq.STAILQ_NEXT.
  rewrite H. destruct (cell m' (HeadFirst h)) as [f|]; simpl; [|constructor].
  constructor. case_decide; by rewrite ?set_tail_equiv, !H.
Qed.

Lemma SLIST_REMOVE_AFTER_equiv m m' h e :
  m ≡ m' -> SLIST_REMOVE_AFTER m e ≡ Stailq.STAILQ_REMOVE_AFTER m' h e.
Proof.
  intros H. unfold SLIST_REMOVE_AFTER, SLIST_NEXT, Stailq.STAILQ_REMOVE_AFTER, Stailq.STAILQ_NEXT.
  rewrite H. destruct (cell m' (NextOf e)) as [f|]; simpl; [|constructor].
  constructor. case_decide; by rewrite ?set_tail_equiv, !H.
Qed.

Lemma slist_find_prev_equiv m m' fuel c e :
  m ≡ m' -> slist_find_prev fuel m c e = Stailq.find_prev fuel m' c e.
Proof.
  intros H. revert c. induction fuel as [|fuel IH]; intros c; [done|]. simpl.
  destruct c as [c|]; [|done]. simpl. unfold SLIST_NEXT, Stailq.STAILQ_NEXT. rewrite (cell_eq m m') by done.
  case_decide; [done|apply IH].
Qed.

Lemma SLIST_REMOVE_equiv m m' fuel h e :
  m ≡ m' -> SLIST_REMOVE fuel m h e ≡ Stailq.STAILQ_REMOVE fuel m' h e.
Proof.
  intros H. unfold SLIST_REMOVE, Stailq.STAILQ_REMOVE, SLIST_FIRST, Stailq.STAILQ_FIRST.
  rewrite (cell_eq m m') by done. case_decide; [by apply SLIST_REMOVE_HEAD_equiv|].
  rewrite (slist_find_prev_equiv m m') by done.
  destruct (Stailq.find_prev _ _ _ _); [by apply SLIST_REMOVE_AFTER_equiv|constructor].
Qed.

Lemma LIST_INSERT_HEAD_equiv m m' h e :
  m ≡ m' -> LIST_INSERT_HEAD m h e ≡ TAILQ_INSERT_HEAD m' h e.
Proof.
  intros H. unfold LIST_INSERT_HEAD, LIST_FIRST, LIST_NEXT, TAILQ_INSERT_HEAD, TAILQ_FIRST, TAILQ_NEXT.
  autorewrite with queue. rewrite !(decide_True (P := NextOf e = NextOf e)) by done.
  rewrite (decide_False (P := NextOf e = HeadFirst h)) by done. rewrite (cell_eq m m') by done.
  destruct (cell m' (HeadFirst h)); by rewrite ?set_tail_equiv, H.
Qed.

Lemma LIST_INSERT_AFTER_equiv m m' h x e :
  x ≠ e -> m ≡ m' -> LIST_INSERT_AFTER m x e ≡ TAILQ_INSERT_AFTER m' h x e.
Proof.
  intros Hx H. unfold LIST_INSERT_AFTER, LIST_NEXT, TAILQ_INSERT_AFTER, TAILQ_NEXT.
  autorewrite with queue. rewrite !(decide_True (P := NextOf e = NextOf e)) by done.
  rewrite (decide_False (P := NextOf e = NextOf x)) by congruence. rewrite (cell_eq m m') by done.
  destruct (cell m' (NextOf x)); by rewrite ?set_tail_equiv, H.
Qed.

Lemma LIST_INSERT_BEFORE_equiv m m' x e :
  x ≠ e -> m ≡ m' -> LIST_INSERT_BEFORE m x e ≡ TAILQ_INSERT_BEFORE m' x e.
Proof.
  intros Hx H. unfold LIST_INSERT_BEFORE, TAILQ_INSERT_BEFORE, store.
  autorewrite with queue. rewrite decide_False by congruence. rewrite (prev_eq m m') by done.
  destruct (prev m' x); simpl; [|constructor]. constructor. by rewrite H.
Qed.

Lemma LIST_REMOVE_equiv m m' h e :
  cell m' (NextOf e) ≠ Some e -> m ≡ m' -> LIST_REMOVE m e ≡ TAILQ_REMOVE m' h e.
Proof.
  intros Hne H. unfold LIST_REMOVE, LIST_NEXT, TAILQ_REMOVE, TAILQ_NEXT, store.
  rewrite (cell_eq m m'), (prev_eq m m') by done.
  destruct (cell m' (NextOf e)) as [n|] eqn:En; autorewrite with queue;
    rewrite ?(decide_False (P := n = e)), (prev_eq m m') by congruence;
    destruct (prev m' e) as [p|]; simpl; constructor;
    autorewrite with queue; by rewrite ?set_tail_equiv, H.
Qed.

Lemma fix_first_equiv m m' s v h t :
  m ≡ m' ->
  match cell m s with Some f => set_prev m f v | None => m end ≡
  match cell m' s with Some f => set_prev m' f v | None => set_tail m' h t end.
Proof.
  intros H. rewrite (cell_eq m m') by done. destruct (cell m' s); by rewrite ?set_tail_equiv, H.
Qed.

Lemma LIST_SWAP_equiv m m' h1 h2 : m ≡ m' -> LIST_SWAP m h1 h2 ≡ TAILQ_SWAP m' h1 h2.
Proof.
  intros H. unfold LIST_SWAP, TAILQ_SWAP, LIST_FIRST, TAILQ_FIRST.
  do 2 apply fix_first_equiv. rewrite !(cell_eq m m') by done. by rewrite !set_tail_equiv, H.
Qed.

End Equivalence.

(** ** What the macros do to the list *)

Section Refinement.
Implicit Types (m : qmem) (h e x : positive) (l a b : list positive).

Lemma slist_remove m h a x b fuel :
  slist m h (a ++ x :: b) -> (length a <= fuel)%nat ->
  exists m', SLIST_REMOVE fuel m h x = Some m' /\ slist m' h (a ++ b) /\ SLIST_NEXT m' x = None.
Proof.
  intros Hq%slist_stailq Hf.
  destruct (Stailq.remove_spec _ _ _ _ _ fuel Hq) as (m1 & H1 & Hq1 & Hn); [done|].
  eapply equiv_Some_inv in H1 as (m' & ? & He);
    [|apply SLIST_REMOVE_equiv; symmetry; apply with_tail_equiv].
  exists m'. split_and!; [done|rewrite He; by apply stailq_slist|].
  unfold SLIST_NEXT. by rewrite He.
Qed.

Lemma slist_remove_after m h a x n b :
  slist m h (a ++ x :: n :: b) ->
  exists m', SLIST_REMOVE_AFTER m x = Some m' /\ slist m' h (a ++ x :: b) /\
    SLIST_NEXT m' n = None.
Proof.
  intros Hq%slist_stailq.
  destruct (Stailq.remove_after_spec _ _ _ _ _ _ Hq) as (m1 & H1 & Hq1 & Hn).
  eapply equiv_Some_inv in H1 as (m' & ? & He);
    [|apply SLIST_REMOVE_AFTER_equiv; symmetry; apply with_tail_equiv].
  exists m'. split_and!; [done|rewrite He; by apply stailq_slist|].
  unfold SLIST_NEXT. by rewrite He.
Qed.

Lemma slist_remove_head m h x l :
  slist m h (x :: l) ->
  exists m', SLIST_REMOVE_HEAD m h = Some m' /\ slist m' h l /\ SLIST_NEXT m' x = None.
Proof.
  intros Hq%slist_stailq.
  destruct (Stailq.remove_head_spec _ _ _ _ Hq) as (m1 & H1 & Hq1 & Hn).
  eapply equiv_Some_inv in H1 as (m' & ? & He);
    [|apply SLIST_REMOVE_HEAD_equiv; symmetry; apply with_tail_equiv].
  exists m'. split_and!; [done|rewrite He; by apply stailq_slist|].
  unfold SLIST_NEXT. by rewrite He.
Qed.

Lemma slist_insert_head m h l e : slist m h l -> e ∉ l -> slist (SLIST_INSERT_HEAD m h e) h (e :: l).
Proof.
  intros Hq%slist_stailq He. rewrite SLIST_INSERT_HEAD_equiv by (symmetry; apply with_tail_equiv).
  apply stailq_slist. by apply Stailq.insert_head_spec.
Qed.

Lemma slist_insert_after m h a x b e :
  slist m h (a ++ x :: b) -> e ∉ a ++ x :: b ->
  slist (SLIST_INSERT_AFTER m x e) h (a ++ x :: e :: b).
Proof.
  intros Hq%slist_stailq He.
  rewrite (SLIST_INSERT_AFTER_equiv _ _ h) by (symmetry; apply with_tail_equiv).
  apply stailq_slist. by apply Stailq.insert_after_spec.
Qed.

Lemma chain_next m s a x b : chain m s (a ++ x :: b) -> cell m (NextOf x) = head b.
Proof. intros [_ [_ H]]%chain_app. destruct b; [done|apply H]. Qed.

Lemma chain_first m s l : chain m s l -> cell m s = head l.
Proof. destruct l; [done|]. by intros [? _]. Qed.

Lemma slist_foreach_spec m s l fuel :
  chain m s l -> (length l <= fuel)%nat -> slist_foreach fuel m (cell m s) = Some l.
Proof.
  revert s fuel. induction l as [|x l IH]; intros s fuel; simpl.
  - intros -> _. by destruct fuel.
  - intros [-> Hc] Hf. destruct fuel as [|fuel]; [lia|]. simpl.
    unfold SLIST_NEXT. by rewrite IH by (done || lia).
Qed.

Lemma foreach_prevptr_spec m s l fuel :
  chain m s l -> (length l <= fuel)%nat ->
  foreach_prevptr fuel m s = Some (zip (links s l) l).
Proof.
  revert s fuel. induction l as [|x l IH]; intros s fuel Hc Hf.
  - simpl in Hc. destruct fuel; simpl; by rewrite Hc.
  - destruct Hc as [Hx Hc], fuel as [|fuel]; simpl in *; [lia|].
    rewrite Hx. by rewrite IH by (done || lia).
Qed.

(** Unlinking the chosen elements inside the safe loop filters the list. *)
Lemma slist_foreach_safe_filter (f : positive -> bool) m h a b fuel fuel' :
  slist m h (a ++ b) -> (length b <= fuel)%nat -> (length (a ++ b) <= fuel')%nat ->
  exists m', slist_foreach_safe fuel
      (fun x m => if f x then SLIST_REMOVE fuel' m h x else Some m) m (head b) = Some m' /\
    slist m' h (a ++ List.filter (fun x => negb (f x)) b).
Proof.
  revert m a fuel. induction b as [|x b IH]; intros m a fuel Hq Hf Hf'.
  - exists m. by destruct fuel.
  - destruct fuel as [|fuel]; simpl in *; [lia|].
    unfold SLIST_NEXT. rewrite (chain_next _ _ _ _ _ (proj1 Hq)). destruct (f x); simpl.
    + destruct (slist_remove m h a x b fuel') as (m1 & -> & Hq1 & _);
        [done|rewrite length_app in Hf'; lia|]. simpl. apply IH; [done|lia|].
      rewrite length_app in *. simpl in *. lia.
    + rewrite (cons_middle x a b), app_assoc in Hq.
      destruct (IH m (a ++ [x]) fuel Hq) as (m' & -> & Hq'); [lia| |].
      * rewrite !length_app in *. simpl in *. lia.
      * exists m'. split; [done|]. by rewrite <- app_assoc in Hq'.
Qed.

Lemma list_foreach_spec m s l fuel :
  chain m s l -> (length l <= fuel)%nat -> list_foreach fuel m (cell m s) = Some l.
Proof. exact (slist_foreach_spec m s l fuel). Qed.

Lemma dlist_insert_head m h l e : dlist m h l -> e ∉ l -> dlist (LIST_INSERT_HEAD m h e) h (e :: l).
Proof.
  intros Hq%dlist_tailq He. rewrite LIST_INSERT_HEAD_equiv by (symmetry; apply with_tail_equiv).
  apply tailq_dlist. by apply tq_insert_head.
Qed.

Lemma dlist_insert_after m h a x b e :
  dlist m h (a ++ x :: b) -> e ∉ a ++ x :: b ->
  dlist (LIST_INSERT_AFTER m x e) h (a ++ x :: e :: b).
Proof.
  intros Hq%dlist_tailq He.
  rewrite (LIST_INSERT_AFTER_equiv _ (with_tail m h (a ++ x :: b)) h);
    [|set_solver|symmetry; apply with_tail_equiv].
  apply tailq_dlist. by apply tq_insert_after.
Qed.

Lemma dlist_insert_before m h a x b e :
  dlist m h (a ++ x :: b) -> e ∉ a ++ x :: b ->
  exists m', LIST_INSERT_BEFORE m x e = Some m' /\ dlist m' h (a ++ e :: x :: b).
Proof.
  intros Hq%dlist_tailq He. destruct (tq_insert_before _ _ _ _ _ e Hq) as (m1 & H1 & Hq1); [done|].
  eapply equiv_Some_inv in H1 as (m' & ? & Hm);
    [|apply LIST_INSERT_BEFORE_equiv; [set_solver|symmetry; apply with_tail_equiv]].
  exists m'. split; [done|]. rewrite Hm. by apply tailq_dlist.
Qed.

Lemma dlist_remove m h a x b :
  dlist m h (a ++ x :: b) ->
  exists m', LIST_REMOVE m x = Some m' /\ dlist m' h (a ++ b) /\
    LIST_NEXT m' x = None /\ prev m' x = None.
Proof.
  intros Hq. pose proof Hq as (Hc & _ & Hn). apply dlist_tailq in Hq.
  destruct (tq_remove _ _ _ _ _ Hq) as (m1 & H1 & Hq1 & Hx & Hp & _).
  eapply equiv_Some_inv in H1 as (m' & ? & Hm);
    [|apply LIST_REMOVE_equiv; [|symmetry; apply with_tail_equiv]].
  - exists m'. unfold LIST_NEXT. split_and!; [done|rewrite Hm; by apply tailq_dlist|..].
    + by rewrite Hm.
    + by rewrite Hm.
  - rewrite (cell_eq _ m) by apply with_tail_equiv. rewrite (chain_next _ _ _ _ _ Hc).
    apply NoDup_app in Hn as (_ & _ & [Hxb _]%NoDup_cons). destruct b; set_solver.
Qed.

Lemma dlist_swap m h1 h2 l1 l2 :
  h1 ≠ h2 -> dlist m h1 l1 -> dlist m h2 l2 -> l1 ## l2 ->
  dlist (LIST_SWAP m h1 h2) h1 l2 /\ dlist (LIST_SWAP m h1 h2) h2 l1.
Proof.
  intros Hh H1%dlist_tailq H2 Hd. set (m1 := with_tail m h1 l1) in *.
  assert (H2' : tailq (with_tail m1 h2 l2) h2 l2).
  { apply dlist_tailq. unfold m1. by rewrite with_tail_equiv. }
  assert (H1' : tailq (with_tail m1 h2 l2) h1 l1).
  { eapply (modifies_tailq m1 _ h2 []); [|done|set_solver|done].
    unfold with_tail. split; slots. }
  rewrite (LIST_SWAP_equiv m (with_tail m1 h2 l2)) by (unfold m1; by rewrite !with_tail_equiv).
  destruct (tq_swap _ _ _ _ _ Hh H1' H2' Hd). split; by apply tailq_dlist.
Qed.

Lemma list_foreach_safe_filter (f : positive -> bool) m h a b fuel :
  dlist m h (a ++ b) -> (length b <= fuel)%nat ->
  exists m', list_foreach_safe fuel
      (fun x m => if f x then LIST_REMOVE m x else Some m) m (head b) = Some m' /\
    dlist m' h (a ++ List.filter (fun x => negb (f x)) b).
Proof.
  revert m a fuel. induction b as [|x b IH]; intros m a fuel Hq Hf.
  - exists m. by destruct fuel.
  - destruct fuel as [|fuel]; simpl in *; [lia|].
    unfold LIST_NEXT. rewrite (chain_next _ _ _ _ _ (proj1 Hq)). destruct (f x); simpl.
    + destruct (dlist_remove m h a x b) as (m1 & -> & Hq1 & _); [done|].
      simpl. apply IH; [done|lia].
    + rewrite (cons_middle x a b), app_assoc in Hq.
      destruct (IH m (a ++ [x]) fuel Hq) as (m' & -> & Hq'); [lia|].
      exists m'. split; [done|]. by rewrite <- app_assoc in Hq'.
Qed.

Lemma dlist_checks m h a x b :
  dlist m h (a ++ x :: b) ->
  QMD_LIST_CHECK_HEAD m h = true /\ QMD_LIST_CHECK_NEXT m x = true /\
  QMD_LIST_CHECK_PREV m x = Some true.
Proof.
  intros Hq%dlist_tailq. destruct (tq_checks _ _ _ _ _ Hq) as (H1 & _ & H2 & H3).
  unfold QMD_TAILQ_CHECK_HEAD, QMD_TAILQ_CHECK_NEXT, QMD_TAILQ_CHECK_PREV, TAILQ_FIRST, TAILQ_NEXT in *.
  unfold QMD_LIST_CHECK_HEAD, QMD_LIST_CHECK_NEXT, QMD_LIST_CHECK_PREV, LIST_FIRST, LIST_NEXT.
  unfold with_tail in *. by autorewrite with queue in *.
Qed.

End Refinement.

(** ** Properties *)

(** On an SLIST that holds the list [a ++ x :: b], every macro implements
    the list operation it stands for: insertion at the head and after [x], removal
    of the head, of the element after [x] and of [x] itself (whose search loop ends
    within length [a] steps and whose next field is scrubbed), and the loops visit
    the list in order, with the addresses of its links in the PREVPTR variant; the
    safe loop may unlink elements as it goes. *)
Theorem slist_refines_list (m : qmem) (h : positive) (a b : list positive) (x e : positive)
    (fuel : nat) (f : positive -> bool) :
  slist m h (a ++ x :: b) -> e ∉ a ++ x :: b -> (length (a ++ x :: b) <= fuel)%nat ->
  slist (SLIST_INIT m h) h [] /\
  slist (SLIST_INSERT_HEAD m h e) h (e :: a ++ x :: b) /\
  slist (SLIST_INSERT_AFTER m x e) h (a ++ x :: e :: b) /\
  (exists m', SLIST_REMOVE_HEAD m h = Some m' /\ slist m' h (list.tail (a ++ x :: b))) /\
  (forall n b', b = n :: b' ->
    exists m', SLIST_REMOVE_AFTER m x = Some m' /\ slist m' h (a ++ x :: b') /\
      SLIST_NEXT m' n = None) /\
  (exists m', SLIST_REMOVE fuel m h x = Some m' /\ slist m' h (a ++ b) /\
    SLIST_NEXT m' x = None) /\
  SLIST_FIRST m h = head (a ++ x :: b) /\ SLIST_NEXT m x = head b /\
  SLIST_EMPTY m h = false /\
  SLIST_FOREACH fuel m h = Some (a ++ x :: b) /\
  SLIST_FOREACH_PREVPTR fuel m h =
    Some (zip (links (HeadFirst h) (a ++ x :: b)) (a ++ x :: b)) /\
  exists m', SLIST_FOREACH_SAFE fuel
      (fun y m => if f y then SLIST_REMOVE fuel m h y else Some m) m h = Some m' /\
    slist m' h (List.filter (fun y => negb (f y)) (a ++ x :: b)).
Proof.
  intros Hq He Hf. pose proof Hq as [Hc _].
  pose proof (chain_first _ _ _ Hc) as Hfst. split_and!.
  - split; [unfold SLIST_INIT; simpl; slots|apply NoDup_nil_2].
  - by apply slist_insert_head.
  - by apply slist_insert_after.
  - destruct (a ++ x :: b) as [|y l] eqn:E; [by destruct a|].
    destruct (slist_remove_head m h y l Hq) as (m' & ? & ? & _). eauto.
  - intros n b' ->. by apply slist_remove_after.
  - apply slist_remove; [done|]. rewrite length_app in Hf. lia.
  - done.
  - by eapply chain_next.
  - unfold SLIST_EMPTY, SLIST_FIRST. rewrite Hfst. by destruct a.
  - by apply slist_foreach_spec.
  - by apply foreach_prevptr_spec.
  - unfold SLIST_FOREACH_SAFE, SLIST_FIRST. rewrite Hfst.
    by apply (slist_foreach_safe_filter f m h []).
Qed.

(** The list 1, 2, 3 at head 1, built by the macros. *)
Definition sl123 : qmem :=
  SLIST_INSERT_AFTER (SLIST_INSERT_AFTER (SLIST_INSERT_HEAD (SLIST_INIT qmem_empty 1) 1 1) 1 2) 2 3.

Lemma sl123_repr : slist sl123 1 [1; 2; 3]%positive.
Proof.
  apply (slist_insert_after _ 1 [1%positive] 2 [] 3); [|set_solver].
  apply (slist_insert_after _ 1 [] 1 [] 2); [|set_solver].
  apply slist_insert_head; [|set_solver]. split; [|apply NoDup_nil_2].
  unfold SLIST_INIT. simpl. slots.
Qed.

Lemma slist_refines_list_witness :
  exists m', SLIST_REMOVE 3 sl123 1 2 = Some m' /\ slist m' 1 [1; 3]%positive.
Proof.
  destruct (slist_refines_list sl123 1 [1%positive] [3%positive] 2 4 3 (fun _ => true))
    as (_ & _ & _ & _ & _ & (m' & ? & ? & _) & _); [exact sl123_repr|set_solver|simpl; lia|].
  by exists m'.
Defined.

(** On a LIST that holds [a ++ x :: b], next to a disjoint one that holds
    [l2], every macro implements the list operation it stands for and keeps the
    back links consistent: insertion at the head and on either side of [x],
    removal of [x] without its head (after which its own links are NULL), the
    exchange of the two lists, the loops, and none of the checks of debug builds
    panics. *)
Theorem list_refines_list (m : qmem) (h h2 : positive) (a b l2 : list positive)
    (x e : positive) (fuel : nat) (f : positive -> bool) :
  dlist m h (a ++ x :: b) -> e ∉ a ++ x :: b -> (length (a ++ x :: b) <= fuel)%nat ->
  h ≠ h2 -> dlist m h2 l2 -> a ++ x :: b ## l2 ->
  dlist (LIST_INIT m h) h [] /\
  dlist (LIST_INSERT_HEAD m h e) h (e :: a ++ x :: b) /\
  dlist (LIST_INSERT_AFTER m x e) h (a ++ x :: e :: b) /\
  (exists m', LIST_INSERT_BEFORE m x e = Some m' /\ dlist m' h (a ++ e :: x :: b)) /\
  (exists m', LIST_REMOVE m x = Some m' /\ dlist m' h (a ++ b) /\
    LIST_NEXT m' x = None /\ prev m' x = None) /\
  (dlist (LIST_SWAP m h h2) h l2 /\ dlist (LIST_SWAP m h h2) h2 (a ++ x :: b)) /\
  LIST_FIRST m h = head (a ++ x :: b) /\ LIST_NEXT m x = head b /\
  LIST_EMPTY m h = false /\
  LIST_FOREACH fuel m h = Some (a ++ x :: b) /\
  (exists m', LIST_FOREACH_SAFE fuel
      (fun y m => if f y then LIST_REMOVE m y else Some m) m h = Some m' /\
    dlist m' h (List.filter (fun y => negb (f y)) (a ++ x :: b))) /\
  QMD_LIST_CHECK_HEAD m h = true /\ QMD_LIST_CHECK_NEXT m x = true /\
  QMD_LIST_CHECK_PREV m x = Some true.
Proof.
  intros Hq He Hf Hh H2 Hd. pose proof Hq as (Hc & _ & _).
  pose proof (chain_first _ _ _ Hc) as Hfst.
  split_and!; try (by apply (dlist_checks m h a x b)).
  - split; [unfold LIST_INIT; simpl; slots|]. split; [done|apply NoDup_nil_2].
  - by apply dlist_insert_head.
  - by apply dlist_insert_after.
  - by apply dlist_insert_before.
  - by apply dlist_remove.
  - by apply (dlist_swap m h h2 (a ++ x :: b) l2).
  - by apply (dlist_swap m h h2 (a ++ x :: b) l2).
  - done.
  - by eapply chain_next.
  - unfold LIST_EMPTY, LIST_FIRST. rewrite Hfst. by destruct a.
  - by apply list_foreach_spec.
  - unfold LIST_FOREACH_SAFE, LIST_FIRST. rewrite Hfst.
    by apply (list_foreach_safe_filter f m h []).
Qed.

(** The list 1, 2, 3 at head 1, next to the list 4 at head 2. *)
Definition dl123 : qmem :=
  let m := LIST_INSERT_HEAD (LIST_INIT (LIST_INIT qmem_empty 2) 1) 2 4 in
  LIST_INSERT_AFTER (LIST_INSERT_AFTER (LIST_INSERT_HEAD m 1 1) 1 2) 2 3.

Lemma list_refines_list_witness :
  exists m', LIST_REMOVE dl123 2 = Some m' /\ dlist m' 1 [1; 3]%positive.
Proof.
  destruct (list_refines_list dl123 1 2 [1%positive] [3%positive] [4%positive] 2 5 3 (fun _ => true))
    as (_ & _ & _ & _ & (m' & ? & ? & _) & _); [|set_solver|simpl; lia|done| |set_solver|by exists m'].
  - split; [by vm_compute|]. split; [by vm_compute|]. repeat constructor; set_solver.
  - split; [by vm_compute|]. split; [by vm_compute|]. repeat constructor; set_solver.
Defined.
