(* ===== verification/Circleq.v ===== *)
(** * Circular queues (the CIRCLEQ macros of include/cc_queue.h)

    A pointer in a circular queue is either to an element or, at the ends, to the
    head itself cast to void *.  [cnext] is the field a forward step reads, cqh_first
    of a head and cqe_next of an element, [cprev] the one a backward step reads,
    cqh_last and cqe_prev.  [None] is an access to a head as if it were an element.

    [circleq m h l]: the ring through head [h] is [l], in both directions. *)

From stdpp Require Import functions.
From S2P Require Import Prelude.

Inductive cptr := PHead (h : positive) | PElem (e : positive).

#[export] Instance cptr_eq_dec : EqDecision cptr.
Proof. solve_decision. Defined.

Record cmem := CMem { cnext : cptr -> cptr; cprev : cptr -> cptr }.

Definition set_cnext (m : cmem) (p q : cptr) : cmem := CMem (<[p := q]> (cnext m)) (cprev m).
Definition set_cprev (m : cmem) (p q : cptr) : cmem := CMem (cnext m) (<[p := q]> (cprev m)).

(** CIRCLEQ_NEXT(p) = q and CIRCLEQ_PREV(p) = q for a pointer that must be to an
    element. *)
Definition store_next (m : cmem) (p q : cptr) : option cmem :=
  match p with PElem _ => Some (set_cnext m p q) | PHead _ => None end.
Definition store_prev (m : cmem) (p q : cptr) : option cmem :=
  match p with PElem _ => Some (set_cprev m p q) | PHead _ => None end.

Definition CIRCLEQ_FIRST (m : cmem) (h : positive) : cptr := cnext m (PHead h).
Definition CIRCLEQ_LAST (m : cmem) (h : positive) : cptr := cprev m (PHead h).
Definition CIRCLEQ_NEXT (m : cmem) (elm : positive) : cptr := cnext m (PElem elm).
Definition CIRCLEQ_PREV (m : cmem) (elm : positive) : cptr := cprev m (PElem elm).

Definition CIRCLEQ_EMPTY (m : cmem) (h : positive) : bool :=
  bool_decide (CIRCLEQ_FIRST m h = PHead h).

Definition CIRCLEQ_INIT (m : cmem) (h : positive) : cmem :=
  let m := set_cnext m (PHead h) (PHead h) in
  set_cprev m (PHead h) (PHead h).

Definition CIRCLEQ_INSERT_AFTER (m : cmem) (h listelm elm : positive) : option cmem :=
  let m := set_cnext m (PElem elm) (CIRCLEQ_NEXT m listelm) in
  let m := set_cprev m (PElem elm) (PElem listelm) in
  m ← (if decide (CIRCLEQ_NEXT m listelm = PHead h)
       then Some (set_cprev m (PHead h) (PElem elm))
       else store_prev m (CIRCLEQ_NEXT m listelm) (PElem elm));
  Some (set_cnext m (PElem listelm) (PElem elm)).

Definition CIRCLEQ_INSERT_BEFORE (m : cmem) (h listelm elm : positive) : option cmem :=
  let m := set_cnext m (PElem elm) (PElem listelm) in
  let m := set_cprev m (PElem elm) (CIRCLEQ_PREV m listelm) in
  m ← (if decide (CIRCLEQ_PREV m listelm = PHead h)
       then Some (set_cnext m (PHead h) (PElem elm))
       else store_next m (CIRCLEQ_PREV m listelm) (PElem elm));
  Some (set_cprev m (PElem listelm) (PElem elm)).

Definition CIRCLEQ_INSERT_HEAD (m : cmem) (h elm : positive) : option cmem :=
  let m := set_cnext m (PElem elm) (CIRCLEQ_FIRST m h) in
  let m := set_cprev m (PElem elm) (PHead h) in
  m ← (if decide (CIRCLEQ_LAST m h = PHead h)
       then Some (set_cprev m (PHead h) (PElem elm))
       else store_prev m (CIRCLEQ_FIRST m h) (PElem elm));
  Some (set_cnext m (PHead h) (PElem elm)).

Definition CIRCLEQ_INSERT_TAIL (m : cmem) (h elm : positive) : option cmem :=
  let m := set_cnext m (PElem elm) (PHead h) in
  let m := set_cprev m (PElem elm) (CIRCLEQ_LAST m h) in
  m ← (if decide (CIRCLEQ_FIRST m h = PHead h)
       then Some (set_cnext m (PHead h) (PElem elm))
       else store_next m (CIRCLEQ_LAST m h) (PElem elm));
  Some (set_cprev m (PHead h) (PElem elm)).

Definition CIRCLEQ_REMOVE (m : cmem) (h elm : positive) : option cmem :=
  m ← (if decide (CIRCLEQ_NEXT m elm = PHead h)
       then Some (set_cprev m (PHead h) (CIRCLEQ_PREV m elm))
       else store_prev m (CIRCLEQ_NEXT m elm) (CIRCLEQ_PREV m elm));
  if decide (CIRCLEQ_PREV m elm = PHead h)
  then Some (set_cnext m (PHead h) (CIRCLEQ_NEXT m elm))
  else store_next m (CIRCLEQ_PREV m elm) (CIRCLEQ_NEXT m elm).

(** The loops: the elements visited, in order. *)
Fixpoint cforeach (fuel : nat) (m : cmem) (h : positive) (var : cptr) : option (list positive) :=
  if decide (var = PHead h) then Some [] else
  match fuel, var with
  | S fuel, PElem x => l ← cforeach fuel m h (CIRCLEQ_NEXT m x); Some (x :: l)
  | _, _ => None
  end.

Definition CIRCLEQ_FOREACH (fuel : nat) (m : cmem) (h : positive) : option (list positive) :=
  cforeach fuel m h (CIRCLEQ_FIRST m h).

Fixpoint cforeach_reverse (fuel : nat) (m : cmem) (h : positive) (var : cptr)
  : option (list positive) :=
  if decide (var = PHead h) then Some [] else
  match fuel, var with
  | S fuel, PElem x => l ← cforeach_reverse fuel m h (CIRCLEQ_PREV m x); Some (x :: l)
  | _, _ => None
  end.

Definition CIRCLEQ_FOREACH_REVERSE (fuel : nat) (m : cmem) (h : positive)
  : option (list positive) :=
  cforeach_reverse fuel m h (CIRCLEQ_LAST m h).

(** ** Represented rings *)

(** The links between [s] and the elements of [l], in both directions. *)
Fixpoint inner (m : cmem) (s : cptr) (l : list positive) : Prop :=
  match l with
  | [] => True
  | x :: l => cnext m s = PElem x /\ cprev m (PElem x) = s /\ inner m (PElem x) l
  end.

(** The pointers in front of and behind a part of the ring. *)
Definition lastp (s : cptr) (l : list positive) : cptr := from_option PElem s (last l).
Definition firstp (l : list positive) (t : cptr) : cptr := from_option PElem t (head l).

Record circleq (m : cmem) (h : positive) (l : list positive) : Prop := {
  cq_inner : inner m (PHead h) l;
  cq_next : cnext m (lastp (PHead h) l) = PHead h;
  cq_prev : cprev m (PHead h) = lastp (PHead h) l;
  cq_nodup : NoDup l;
}.

Lemma cnext_set m p q u : cnext (set_cnext m p q) u = if decide (p = u) then q else cnext m u.
Proof. done. Qed.

Lemma cprev_set m p q u : cprev (set_cprev m p q) u = if decide (p = u) then q else cprev m u.
Proof. done. Qed.

Lemma cnext_set_cprev m p q : cnext (set_cprev m p q) = cnext m.
Proof. done. Qed.

Lemma cprev_set_cnext m p q : cprev (set_cnext m p q) = cprev m.
Proof. done. Qed.

#[global] Opaque set_cnext set_cprev.

Create Rewrite HintDb circ.
#[export] Hint Rewrite cnext_set cprev_set cnext_set_cprev cprev_set_cnext : circ.

(** Reduce the reads of an updated memory and decide the address tests. *)
Ltac cmem_cases :=
  intros; autorewrite with circ in *; repeat (case_decide; simplify_eq/=); try done; try congruence.

Section Rings.
Implicit Types (m : cmem) (h e x : positive) (s t u : cptr) (l a b : list positive).

Lemma lastp_app s a b : lastp s (a ++ b) = lastp (lastp s a) b.
Proof. unfold lastp. rewrite last_app. by destruct (last b). Qed.

Lemma lastp_cons s x l : lastp s (x :: l) = lastp (PElem x) l.
Proof. apply (lastp_app s [x] l). Qed.

Lemma lastp_cases s l : lastp s l = s /\ l = [] \/ exists x, x ∈ l /\ lastp s l = PElem x.
Proof.
  destruct l as [|x l _] using rev_ind; [by left|right]. exists x.
  rewrite lastp_app. set_solver.
Qed.

Lemma inner_app m s a b : inner m s (a ++ b) <-> inner m s a /\ inner m (lastp s a) b.
Proof.
  revert s. induction a as [|x a IH]; intros s; [naive_solver|].
  rewrite lastp_cons. simpl. rewrite IH. tauto.
Qed.

(** Stores elsewhere; the link that leaves the last element is not one of
    [inner]. *)
Lemma inner_frame m m' s l :
  NoDup l -> (forall x, s = PElem x -> x ∉ l) ->
  (forall u, u = s \/ (exists x, x ∈ l /\ u = PElem x) -> u ≠ lastp s l -> cnext m' u = cnext m u) ->
  (forall x, x ∈ l -> cprev m' (PElem x) = cprev m (PElem x)) ->
  inner m s l -> inner m' s l.
Proof.
  revert s. induction l as [|x l IH]; intros s Hn Hs Hc Hp; [done|].
  rewrite lastp_cons in Hc. intros (H1 & H2 & H3). apply NoDup_cons in Hn as [Hx Hn].
  split_and!.
  - rewrite Hc; [done|by left|]. intros ->.
    destruct (lastp_cases (PElem x) l) as [[E _]|(y & Hy & E)]; rewrite E in *;
      by eapply Hs; [done|set_solver].
  - rewrite Hp; [done|left].
  - apply IH; [done|by intros ? [= <-]| | |done].
    + intros u [->|(y & Hy & ->)] Hu; apply Hc; try done; right; eexists; split; set_solver.
    + intros y Hy. apply Hp. by right.
Qed.

(** Linking [e] between two neighbours of the ring. *)
Lemma ring_insert m m' h a b e :
  circleq m h (a ++ b) -> e ∉ a ++ b ->
  let p := lastp (PHead h) a in let q := firstp b (PHead h) in
  cnext m' p = PElem e -> cprev m' (PElem e) = p ->
  cnext m' (PElem e) = q -> cprev m' q = PElem e ->
  (forall u, u ≠ p -> u ≠ PElem e -> cnext m' u = cnext m u) ->
  (forall u, u ≠ q -> u ≠ PElem e -> cprev m' u = cprev m u) ->
  circleq m' h (a ++ e :: b).
Proof.
  intros [[Ha Hb]%inner_app Hn Hp Hd] He p q H1 H2 H3 H4 Hc Hv. subst p q.
  assert (Hd' := Hd). apply NoDup_app in Hd' as (Hda & Hab & Hdb).
  assert (Hea : forall x, x ∈ a -> x ≠ e) by (intros x Hx ->; set_solver +He Hx).
  assert (Heb : forall x, x ∈ b -> x ≠ e) by (intros x Hx ->; set_solver +He Hx).
  assert (Hpb : forall x, x ∈ b -> PElem x ≠ lastp (PHead h) a).
  { intros x Hx E. destruct (lastp_cases (PHead h) a) as [[E' _]|(z & Hz & E')];
      rewrite E' in E; simplify_eq. by apply (Hab z). }
  assert (Hia : inner m' (PHead h) a).
  { eapply inner_frame; [done|done| | |exact Ha].
    - intros u Hu Hne. apply Hc; [done|]. destruct Hu as [->|(x & Hx & ->)]; [done|].
      intros [= ->]. by apply (Hea e).
    - intros x Hx. apply Hv; [|intros [= ->]; by apply (Hea e)].
      destruct b as [|y b]; [done|]. intros [= ->]. apply (Hab y); [done|left]. }
  rewrite lastp_app in Hn, Hp. split.
  - apply inner_app. split; [done|]. split_and!; [done..|].
    destruct b as [|y b]; [done|]. destruct Hb as (_ & _ & Hb).
    apply NoDup_cons in Hdb as [Hy Hdb]. split_and!; [done..|].
    eapply inner_frame; [done|by intros ? [= <-]| | |exact Hb].
    + intros u [->|(x & Hx & ->)] _; apply Hc; try (apply Hpb; by constructor);
        intros [= ->]; by apply (Heb e); constructor.
    + intros x Hx. apply Hv; intros [= ->]; [done|]. by apply (Heb e); [right|].
  - rewrite lastp_app, lastp_cons. destruct b as [|y b]; [done|].
    rewrite lastp_cons in *.
    assert (Hl : exists z, z ∈ y :: b /\ lastp (PElem y) b = PElem z).
    { destruct (lastp_cases (PElem y) b) as [[E _]|(z & Hz & E)]; eexists; (split; [|exact E]).
      - left.
      - by right. }
    destruct Hl as (z & Hz & E). rewrite E in *. rewrite Hc; [done|by apply Hpb|].
    intros [= ->]. by apply (Heb e).
  - rewrite lastp_app, lastp_cons. destruct b as [|y b]; [done|].
    rewrite lastp_cons in *. by rewrite Hv.
  - rewrite <- Permutation_middle. by apply NoDup_cons.
Qed.

(** Linking the neighbours of [x] to each other. *)
Lemma ring_remove m m' h a x b :
  circleq m h (a ++ x :: b) ->
  let p := lastp (PHead h) a in let q := firstp b (PHead h) in
  cnext m' p = q -> cprev m' q = p ->
  (forall u, u ≠ p -> cnext m' u = cnext m u) ->
  (forall u, u ≠ q -> cprev m' u = cprev m u) ->
  circleq m' h (a ++ b).
Proof.
  intros [[Ha [_ [_ Hb]]]%inner_app Hn Hp Hd] p q H1 H2 Hc Hv. subst p q.
  assert (Hd' : NoDup (a ++ b)).
  { rewrite <- Permutation_middle in Hd. by apply NoDup_cons in Hd as [_ ?]. }
  assert (Hda := Hd'). apply NoDup_app in Hda as (Hda & Hab & Hdb).
  assert (Hpb : forall x, x ∈ b -> PElem x ≠ lastp (PHead h) a).
  { intros y Hy E. destruct (lastp_cases (PHead h) a) as [[E' _]|(z & Hz & E')];
      rewrite E' in E; simplify_eq. by apply (Hab z). }
  assert (Hia : inner m' (PHead h) a).
  { eapply inner_frame; [done|done| | |exact Ha].
    - intros u _ Hne. by apply Hc.
    - intros y Hy. apply Hv. destruct b as [|z b]; [done|]. intros [= ->].
      apply (Hab z); [done|left]. }
  rewrite lastp_app, lastp_cons in Hn, Hp. split; [| | |done].
  - apply inner_app. split; [done|]. destruct b as [|y b]; [done|].
    destruct Hb as (_ & _ & Hb). apply NoDup_cons in Hdb as [Hy Hdb]. split_and!; [done..|].
    eapply inner_frame; [done|by intros ? [= <-]| | |exact Hb].
    + intros u [->|(z & Hz & ->)] _; apply Hc, Hpb; by constructor.
    + intros z Hz. apply Hv. by intros [= ->].
  - rewrite lastp_app. destruct b as [|y b]; [done|]. rewrite lastp_cons in *.
    destruct (lastp_cases (PElem y) b) as [[E _]|(z & Hz & E)]; rewrite E in *;
      (rewrite Hc; [done|]; apply Hpb; by constructor).
  - rewrite lastp_app. destruct b as [|y b]; [done|]. rewrite lastp_cons in *. by rewrite Hv.
Qed.

(** ** What the macros read *)

Lemma circ_first m h l : circleq m h l -> CIRCLEQ_FIRST m h = firstp l (PHead h).
Proof. intros [Hi Hn _ _]. destruct l; [done|apply Hi]. Qed.

Lemma circ_last m h l : circleq m h l -> CIRCLEQ_LAST m h = lastp (PHead h) l.
Proof. by intros []. Qed.

Lemma circ_next m h a x b : circleq m h (a ++ x :: b) -> CIRCLEQ_NEXT m x = firstp b (PHead h).
Proof.
  intros [[_ (_ & _ & Hb)]%inner_app Hn _ _]. rewrite lastp_app, lastp_cons in Hn.
  destruct b; [done|apply Hb].
Qed.

Lemma circ_prev m h a x b : circleq m h (a ++ x :: b) -> CIRCLEQ_PREV m x = lastp (PHead h) a.
Proof. by intros [[_ (_ & H & _)]%inner_app _ _ _]. Qed.

Lemma firstp_head l h : firstp l (PHead h) = PHead h <-> l = [].
Proof. by destruct l. Qed.

Lemma lastp_head l h : lastp (PHead h) l = PHead h <-> l = [].
Proof. destruct (lastp_cases (PHead h) l) as [[-> ->]|(x & Hx & ->)]; [done|]. split; [done|set_solver]. Qed.

Lemma firstp_mem l h e : firstp l (PHead h) = PElem e -> e ∈ l.
Proof. destruct l; [done|]. intros [= ->]. left. Qed.

Lemma lastp_mem l h e : lastp (PHead h) l = PElem e -> e ∈ l.
Proof. destruct (lastp_cases (PHead h) l) as [[-> ->]|(x & Hx & ->)]; [done|]. by intros [= ->]. Qed.

(** ** What they do *)

(** The store to the neighbour behind is one to its cprev field, whether the
    neighbour is an element or the head. *)
Lemma store_behind m h l q :
  (if decide (firstp l (PHead h) = PHead h) then Some (set_cprev m (PHead h) q)
   else store_prev m (firstp l (PHead h)) q) = Some (set_cprev m (firstp l (PHead h)) q).
Proof. destruct l; by case_decide. Qed.

Lemma store_before m h l q :
  (if decide (lastp (PHead h) l = PHead h) then Some (set_cnext m (PHead h) q)
   else store_next m (lastp (PHead h) l) q) = Some (set_cnext m (lastp (PHead h) l) q).
Proof.
  case_decide as E; [by rewrite E|].
  destruct (lastp_cases (PHead h) l) as [[E' _]|(x & _ & ->)]; done.
Qed.

Lemma circ_insert_after m h a x b e :
  circleq m h (a ++ x :: b) -> e ∉ a ++ x :: b ->
  exists m', CIRCLEQ_INSERT_AFTER m h x e = Some m' /\ circleq m' h (a ++ x :: e :: b).
Proof.
  intros Hq He. pose proof (circ_next _ _ _ _ _ Hq) as Hn.
  assert (Hxe : x ≠ e) by set_solver +He.
  assert (Hqe : firstp b (PHead h) ≠ PElem e) by (intros ?%firstp_mem; set_solver).
  unfold CIRCLEQ_INSERT_AFTER, CIRCLEQ_NEXT in *. autorewrite with circ.
  rewrite (decide_False (P := PElem e = PElem x)) by congruence.
  rewrite Hn, store_behind. simpl. eexists. split; [done|].
  rewrite (cons_middle x a b), app_assoc in Hq, He.
  rewrite (cons_middle x a (e :: b)), app_assoc.
  assert (Hl : lastp (PHead h) (a ++ [x]) = PElem x) by (by rewrite lastp_app).
  apply (ring_insert m _ h (a ++ [x]) b e Hq He); rewrite ?Hl; cmem_cases.
Qed.

Lemma circ_insert_before m h a x b e :
  circleq m h (a ++ x :: b) -> e ∉ a ++ x :: b ->
  exists m', CIRCLEQ_INSERT_BEFORE m h x e = Some m' /\ circleq m' h (a ++ e :: x :: b).
Proof.
  intros Hq He. pose proof (circ_prev _ _ _ _ _ Hq) as Hn.
  assert (Hxe : x ≠ e) by set_solver +He.
  assert (Hqe : lastp (PHead h) a ≠ PElem e) by (intros ?%lastp_mem; set_solver).
  unfold CIRCLEQ_INSERT_BEFORE, CIRCLEQ_PREV in *. autorewrite with circ.
  rewrite (decide_False (P := PElem e = PElem x)) by congruence.
  rewrite Hn, store_before. simpl. eexists. split; [done|].
  apply (ring_insert m _ h a (x :: b) e Hq He); simpl; cmem_cases.
Qed.

Lemma circ_insert_head m h l e :
  circleq m h l -> e ∉ l ->
  exists m', CIRCLEQ_INSERT_HEAD m h e = Some m' /\ circleq m' h (e :: l).
Proof.
  intros Hq He. pose proof (circ_first _ _ _ Hq) as Hf. pose proof (circ_last _ _ _ Hq) as Hl.
  assert (Hqe : firstp l (PHead h) ≠ PElem e) by (intros ?%firstp_mem; set_solver).
  unfold CIRCLEQ_INSERT_HEAD, CIRCLEQ_FIRST, CIRCLEQ_LAST in *. autorewrite with circ.
  rewrite !(decide_False (P := PElem e = PHead h)) by done. rewrite Hl, Hf.
  rewrite (decide_ext _ (firstp l (PHead h) = PHead h)) by (by rewrite firstp_head, lastp_head).
  rewrite store_behind. simpl. eexists. split; [done|].
  apply (ring_insert m _ h [] l e Hq He); simpl; cmem_cases.
Qed.

Lemma circ_insert_tail m h l e :
  circleq m h l -> e ∉ l ->
  exists m', CIRCLEQ_INSERT_TAIL m h e = Some m' /\ circleq m' h (l ++ [e]).
Proof.
  intros Hq He. pose proof (circ_first _ _ _ Hq) as Hf. pose proof (circ_last _ _ _ Hq) as Hl.
  assert (Hqe : lastp (PHead h) l ≠ PElem e) by (intros ?%lastp_mem; set_solver).
  unfold CIRCLEQ_INSERT_TAIL, CIRCLEQ_FIRST, CIRCLEQ_LAST in *. autorewrite with circ.
  rewrite !(decide_False (P := PElem e = PHead h)) by done. rewrite Hl, Hf.
  rewrite (decide_ext _ (lastp (PHead h) l = PHead h)) by (by rewrite firstp_head, lastp_head).
  rewrite store_before. simpl. eexists. split; [done|].
  rewrite <- (app_nil_r l) in Hq, He.
  apply (ring_insert m _ h l [] e Hq He); simpl; cmem_cases.
Qed.

Lemma circ_remove m h a x b :
  circleq m h (a ++ x :: b) ->
  exists m', CIRCLEQ_REMOVE m h x = Some m' /\ circleq m' h (a ++ b).
Proof.
  intros Hq. pose proof (circ_next _ _ _ _ _ Hq) as Hn. pose proof (circ_prev _ _ _ _ _ Hq) as Hp.
  pose proof (cq_nodup _ _ _ Hq) as Hd. apply NoDup_app in Hd as (_ & Hax & [Hxb _]%NoDup_cons).
  assert (Hqx : firstp b (PHead h) ≠ PElem x) by (by intros ?%firstp_mem).
  unfold CIRCLEQ_REMOVE. rewrite Hn, Hp, store_behind. cbn [mbind option_bind].
  unfold CIRCLEQ_NEXT, CIRCLEQ_PREV in *. autorewrite with circ.
  rewrite (decide_False (P := firstp b (PHead h) = PElem x)) by done.
  rewrite Hn, Hp, store_before. eexists. split; [done|].
  apply (ring_remove m _ h a x b Hq); cmem_cases.
Qed.

Lemma cforeach_spec m h a b fuel :
  circleq m h (a ++ b) -> (length b <= fuel)%nat ->
  cforeach fuel m h (firstp b (PHead h)) = Some b.
Proof.
  revert a fuel. induction b as [|x b IH]; intros a fuel Hq Hf.
  - destruct fuel; simpl; by rewrite decide_True.
  - destruct fuel as [|fuel]; simpl in *; [lia|].
    rewrite (circ_next _ _ _ _ _ Hq). rewrite (cons_middle x a b), app_assoc in Hq.
    by rewrite (IH (a ++ [x])) by (done || lia).
Qed.

Lemma cforeach_reverse_spec m h a b fuel :
  circleq m h (a ++ b) -> (length a <= fuel)%nat ->
  cforeach_reverse fuel m h (lastp (PHead h) a) = Some (rev a).
Proof.
  revert b fuel. induction a as [|x a IH] using rev_ind; intros b fuel Hq Hf.
  - destruct fuel; simpl; by rewrite decide_True.
  - rewrite length_app in Hf. simpl in Hf. destruct fuel as [|fuel]; [lia|].
    rewrite lastp_app, rev_app_distr. change (lastp _ [x]) with (PElem x). simpl.
    rewrite <- app_assoc in Hq. rewrite (circ_prev _ _ _ _ _ Hq).
    by rewrite (IH (x :: b)) by (done || lia).
Qed.

End Rings.

(** ** Properties *)

(** On a CIRCLEQ whose ring is [a ++ x :: b] in both directions, every
    macro implements the list operation it stands for and keeps the ring closed:
    insertion at either end and on either side of [x], removal of [x], the ends and
    neighbours (the head itself past the last and before the first element), and
    the loops visit each element once, forwards and backwards.  No macro uses the
    head as an element. *)
Theorem circleq_refines_list (m : cmem) (h : positive) (a b : list positive) (x e : positive)
    (fuel : nat) :
  circleq m h (a ++ x :: b) -> e ∉ a ++ x :: b -> (length (a ++ x :: b) <= fuel)%nat ->
  circleq (CIRCLEQ_INIT m h) h [] /\
  (exists m', CIRCLEQ_INSERT_HEAD m h e = Some m' /\ circleq m' h (e :: a ++ x :: b)) /\
  (exists m', CIRCLEQ_INSERT_TAIL m h e = Some m' /\ circleq m' h ((a ++ x :: b) ++ [e])) /\
  (exists m', CIRCLEQ_INSERT_AFTER m h x e = Some m' /\ circleq m' h (a ++ x :: e :: b)) /\
  (exists m', CIRCLEQ_INSERT_BEFORE m h x e = Some m' /\ circleq m' h (a ++ e :: x :: b)) /\
  (exists m', CIRCLEQ_REMOVE m h x = Some m' /\ circleq m' h (a ++ b)) /\
  CIRCLEQ_FIRST m h = firstp (a ++ x :: b) (PHead h) /\
  CIRCLEQ_LAST m h = lastp (PHead h) (a ++ x :: b) /\
  CIRCLEQ_NEXT m x = firstp b (PHead h) /\ CIRCLEQ_PREV m x = lastp (PHead h) a /\
  CIRCLEQ_EMPTY m h = false /\
  CIRCLEQ_FOREACH fuel m h = Some (a ++ x :: b) /\
  CIRCLEQ_FOREACH_REVERSE fuel m h = Some (rev (a ++ x :: b)).
Proof.
  intros Hq He Hf. split_and!.
  - unfold CIRCLEQ_INIT. split; [done|cbn; cmem_cases..|apply NoDup_nil_2].
  - by apply circ_insert_head.
  - by apply circ_insert_tail.
  - by apply circ_insert_after.
  - by apply circ_insert_before.
  - by apply circ_remove.
  - by apply circ_first.
  - by apply circ_last.
  - by eapply circ_next.
  - by eapply circ_prev.
  - unfold CIRCLEQ_EMPTY. rewrite (circ_first _ _ _ Hq), bool_decide_false; [done|].
    rewrite firstp_head. by destruct a.
  - unfold CIRCLEQ_FOREACH. rewrite (circ_first _ _ _ Hq). by apply (cforeach_spec m h []).
  - unfold CIRCLEQ_FOREACH_REVERSE. rewrite (circ_last _ _ _ Hq).
    apply (cforeach_reverse_spec m h _ []); [by rewrite app_nil_r|done].
Qed.

(** The ring of 1, 2 and 3 at head 1. *)
Definition cq123 : cmem :=
  CMem (fun p => match p with
                 | PHead _ => PElem 1 | PElem 1 => PElem 2 | PElem 2 => PElem 3 | PElem _ => PHead 1
                 end)
       (fun p => match p with
                 | PHead _ => PElem 3 | PElem 3 => PElem 2 | PElem 2 => PElem 1 | PElem _ => PHead 1
                 end).

Lemma circleq_refines_list_witness :
  CIRCLEQ_FOREACH_REVERSE 3 cq123 1 = Some [3; 2; 1]%positive /\
  exists m', CIRCLEQ_REMOVE cq123 1 2 = Some m' /\ circleq m' 1 [1; 3]%positive.
Proof.
  destruct (circleq_refines_list cq123 1 [1%positive] [3%positive] 2 4 3)
    as (_ & _ & _ & _ & _ & (m' & ? & ?) & _ & _ & _ & _ & _ & _ & Hr);
    [|set_solver|simpl; lia|split; [exact Hr|by exists m']].
  split; [by vm_compute..|]. repeat constructor; set_solver.
Defined.
