(* ===== verification/Pool.v ===== *)
(** * Free pools (include/cc_pool.h)

    The FREEPOOL macros over any queue with the STAILQ interface of [Queue] and
    any client: [create] and [destroy] are the macro arguments of those names,
    functions on the queue memory and on the client's own state [W].  [pool] is
    the struct the FREEPOOL macro declares; the free queue is named by the
    address of its head.  The ASSERTs of the macros only log and are left out.

    [pool_rel s free used] is the abstract pool: the elements on the free queue,
    top first, and the elements borrowed from it. *)

From S2P Require Import Prelude Queue.
Local Open Scope Z_scope.

Record pool := Pool {
  freeq : positive;
  nfree : Z;
  nused : Z;
  nmax : Z;
  initialized : bool;
}.

Definition set_nfree (p : pool) (n : Z) : pool :=
  Pool (freeq p) n (nused p) (nmax p) (initialized p).
Definition set_nused (p : pool) (n : Z) : pool :=
  Pool (freeq p) (nfree p) n (nmax p) (initialized p).
Definition set_initialized (p : pool) (b : bool) : pool :=
  Pool (freeq p) (nfree p) (nused p) (nmax p) b.

(** The queue memory, the pool and the client's state. *)
Record pstate (M W : Type) := PState { mem : M; ctl : pool; world : W }.
Arguments PState {M W} _ _ _.
Arguments mem {M W} _.
Arguments ctl {M W} _.
Arguments world {M W} _.

(** What a client passes to the macros. *)
Class PoolClient (M W : Type) := {
  pc_create : M -> W -> option positive * (M * W);
  pc_destroy : positive -> M -> W -> M * W;
}.

(** Either the function that sets a pool up returns, or the process exits. *)
Inductive outcome (A : Type) := Returns (x : A) | Exits.
Arguments Returns {A} _.
Arguments Exits {A}.

Section Ops.
Context {M W : Type} `{!SQueue M} `{!PoolClient M W}.
Implicit Types (s : pstate M W).

Definition FREEPOOL_CREATE s (max : Z) : pstate M W :=
  let h := freeq (ctl s) in
  PState (sq_init (mem s) h)
    (Pool h 0 0 (if 0 <? max then max else UINT32_MAX) true) (world s).

(** The STAILQ_FOREACH_SAFE loop of FREEPOOL_DESTROY: [var] is the current
    element, whose successor is read before the body runs. *)
Fixpoint destroy_loop (fuel : nat) (var : option positive) s : option (pstate M W) :=
  match var with
  | None => Some s
  | Some x =>
      match fuel with
      | O => None
      | S fuel =>
          let tvar := sq_next (mem s) x in
          m ← sq_remove_head (mem s) (freeq (ctl s));
          let p := set_nfree (ctl s) (u32 (nfree (ctl s) - 1)) in
          let '(m, w) := pc_destroy x m (world s) in
          destroy_loop fuel tvar (PState m p w)
      end
  end.

Definition FREEPOOL_DESTROY (fuel : nat) s : option (pstate M W) :=
  s ← destroy_loop fuel (sq_first (mem s) (freeq (ctl s))) s;
  Some (PState (mem s) (set_initialized (ctl s) false) (world s)).

(** The while loop of FREEPOOL_PREALLOC; [None] when [fuel] iterations do not
    end it. *)
Fixpoint FREEPOOL_PREALLOC (fuel : nat) s (size : Z) : option (pstate M W) :=
  if nfree (ctl s) <? size then
    match fuel with
    | O => None
    | S fuel =>
        match pc_create (mem s) (world s) with
        | (Some e, (m, w)) =>
            let m := sq_insert_head m (freeq (ctl s)) e in
            FREEPOOL_PREALLOC fuel
              (PState m (set_nfree (ctl s) (u32 (nfree (ctl s) + 1))) w) size
        | (None, (m, w)) => Some (PState m (ctl s) w)
        end
    end
  else Some s.

Definition FREEPOOL_BORROW s : option (option positive * pstate M W) :=
  '(var, s) ←
    match sq_first (mem s) (freeq (ctl s)) with
    | Some x =>
        m ← sq_remove_head (mem s) (freeq (ctl s));
        Some (Some x, PState m (set_nfree (ctl s) (u32 (nfree (ctl s) - 1))) (world s))
    | None =>
        if u32 (nfree (ctl s) + nused (ctl s)) <? nmax (ctl s) then
          let '(r, (m, w)) := pc_create (mem s) (world s) in
          Some (r, PState m (ctl s) w)
        else Some (None, s)
    end;
  match var with
  | Some x =>
      Some (Some x, PState (sq_clear_next (mem s) x)
                     (set_nused (ctl s) (u32 (nused (ctl s) + 1))) (world s))
  | None => Some (None, s)
  end.

Definition FREEPOOL_RETURN s (var : positive) : pstate M W :=
  let m := sq_insert_head (mem s) (freeq (ctl s)) var in
  let p := set_nfree (ctl s) (u32 (nfree (ctl s) + 1)) in
  PState m (set_nused p (u32 (nused p - 1))) (world s).

(** A predicate on the client's state that creation preserves holds after the
    macros that create. *)
Lemma borrow_world (P : W -> Prop) s r s' :
  (forall m w r m' w', pc_create m w = (r, (m', w')) -> P w -> P w') ->
  FREEPOOL_BORROW s = Some (r, s') -> P (world s) -> P (world s').
Proof.
  intros HP. unfold FREEPOOL_BORROW. destruct (sq_first _ _) as [x|]; simpl.
  - destruct (sq_remove_head _ _); simpl; [|done]. by intros [= <- <-].
  - case_zcmp; simpl; [|by intros [= <- <-]].
    destruct (pc_create _ _) as [[e|] [m w]] eqn:E; simpl; intros [= <- <-]; simpl; eauto.
Qed.

Lemma prealloc_world (P : W -> Prop) fuel s size s' :
  (forall m w r m' w', pc_create m w = (r, (m', w')) -> P w -> P w') ->
  FREEPOOL_PREALLOC fuel s size = Some s' -> P (world s) -> P (world s').
Proof.
  intros HP. revert s. induction fuel as [|fuel IH]; intros s; simpl; case_zcmp; try done.
  - by intros [= <-].
  - destruct (pc_create _ _) as [[e|] [m w]] eqn:E; simpl.
    + intros Hr Hw. apply (IH _ Hr). simpl. eauto.
    + intros [= <-]. simpl. eauto.
  - by intros [= <-].
Qed.

End Ops.

Lemma live_not_elem (e : positive) (l : list positive) (X : gset positive) : e ∉ X -> list_to_set l ⊆ X -> e ∉ l.
Proof. intros He Hs Hin. apply He, Hs. by apply elem_of_list_to_set. Qed.

(** ** The client's obligations

    [pc_live w X]: the objects of the client that are allocated are those of
    [X].  [create] hands out an object that was not allocated and leaves a
    queue of allocated objects as it is; [destroy] frees the one it is given. *)
Class PoolClientLaws (M W : Type) `{!SQueue M} `{!PoolClient M W} := {
  pc_live : W -> gset positive -> Prop;
  pc_create_frame m w r m' w' h l X :
    pc_create m w = (r, (m', w')) -> pc_live w X -> list_to_set l ⊆ X ->
    sq_repr m h l -> sq_repr m' h l;
  pc_create_some m w e m' w' X :
    pc_create m w = (Some e, (m', w')) -> pc_live w X -> e ∉ X /\ pc_live w' ({[e]} ∪ X);
  pc_create_none m w m' w' X :
    pc_create m w = (None, (m', w')) -> pc_live w X -> pc_live w' X;
  pc_destroy_frame e m w m' w' h l :
    pc_destroy e m w = (m', w') -> sq_repr m h l -> e ∉ l -> sq_repr m' h l;
  pc_destroy_live e m w m' w' X :
    pc_destroy e m w = (m', w') -> pc_live w X -> e ∈ X -> pc_live w' (X ∖ {[e]});
}.

(** ** The abstract pool *)

Section Spec.
Context {M W : Type} `{!SQueue M} `{!SQueueLaws M} `{!PoolClient M W} `{!PoolClientLaws M W}.
Implicit Types (s : pstate M W) (free used : list positive) (X : gset positive).

Record pool_rel s free used X : Prop := {
  pr_queue : sq_repr (mem s) (freeq (ctl s)) free;
  pr_nfree : nfree (ctl s) = zlen free;
  pr_nused : nused (ctl s) = zlen used;
  pr_max : zlen free + zlen used <= nmax (ctl s) <= UINT32_MAX;
  pr_init : initialized (ctl s) = true;
  pr_nodup : NoDup (free ++ used);
  pr_live : pc_live (world s) X;
  pr_sub : list_to_set (free ++ used) ⊆ X;
}.

(** What borrowing may do to the abstract pool. *)
Inductive borrow_step (max : Z) (X : gset positive)
  : list positive -> list positive ->
    option positive -> list positive -> list positive -> gset positive -> Prop :=
| Borrow_reuse x free used : borrow_step max X (x :: free) used (Some x) free (x :: used) X
| Borrow_new e used :
    zlen used < max -> e ∉ X -> borrow_step max X [] used (Some e) [] (e :: used) ({[e]} ∪ X)
| Borrow_oom used : zlen used < max -> borrow_step max X [] used None [] used X
| Borrow_limit used : max <= zlen used -> borrow_step max X [] used None [] used X.

Lemma create_rel s (max : Z) X :
  pc_live (world s) X -> 0 <= max <= UINT32_MAX ->
  pool_rel (FREEPOOL_CREATE s max) [] [] X /\
  nmax (ctl (FREEPOOL_CREATE s max)) = (if 0 <? max then max else UINT32_MAX).
Proof.
  intros Hl Hm. unfold FREEPOOL_CREATE, UINT32_MAX in *. split; [|done]. split; simpl.
  - apply sq_init_repr.
  - done.
  - done.
  - case_zcmp; unfold UINT32_MAX, zlen; simpl; lia.
  - done.
  - apply NoDup_nil_2.
  - done.
  - set_solver.
Qed.

Lemma borrow_rel s free used X :
  pool_rel s free used X ->
  exists r s' free' used' X',
    FREEPOOL_BORROW s = Some (r, s') /\
    borrow_step (nmax (ctl s)) X free used r free' used' X' /\
    pool_rel s' free' used' X' /\ nmax (ctl s') = nmax (ctl s).
Proof.
  intros [Hq Hf Hu Hm Hi Hnd Hl Hs]. unfold FREEPOOL_BORROW, UINT32_MAX in *.
  rewrite (sq_first_repr _ _ _ Hq). destruct free as [|x free]; simpl.
  - rewrite Hf, Hu. rewrite zlen_nil in *. pose proof (zlen_nonneg used).
    rewrite u32_small by lia. case_zcmp.
    + destruct (pc_create (mem s) (world s)) as [[e|] [m' w']] eqn:E; simpl.
      * destruct (pc_create_some _ _ _ _ _ _ E Hl) as [He Hl'].
        assert (e ∉ used) by (by eapply live_not_elem).
        do 5 eexists. split; [done|]. split; [by apply Borrow_new; [lia|]|].
        split; [|done]. split; simpl; unfold UINT32_MAX in *.
        -- apply sq_clear_next_repr; [|set_solver].
           eapply pc_create_frame; [exact E|done|set_solver|done].
        -- done.
        -- rewrite u32_small, zlen_cons by lia. lia.
        -- rewrite zlen_cons, zlen_nil. lia.
        -- done.
        -- by apply NoDup_cons.
        -- done.
        -- set_solver.
      * do 5 eexists. split; [done|]. split; [apply Borrow_oom; lia|]. split; [|done].
        split; simpl; unfold UINT32_MAX in *; rewrite ?zlen_nil; try done.
        -- eapply pc_create_frame; [exact E|done|set_solver|done].
        -- by eapply pc_create_none.
    + do 5 eexists. split; [done|]. split; [apply Borrow_limit; lia|]. split; [|done].
      split; done.
  - destruct (sq_remove_head_repr _ _ _ _ Hq) as (m' & -> & Hq'). simpl in *.
    rewrite zlen_cons in *. pose proof (zlen_nonneg free). pose proof (zlen_nonneg used).
    apply NoDup_cons in Hnd as [Hx Hnd].
    do 5 eexists. split; [done|]. split; [apply Borrow_reuse|]. split; [|done].
    split; simpl; unfold UINT32_MAX in *.
    + apply sq_clear_next_repr; [done|set_solver].
    + rewrite Hf, u32_small by lia. lia.
    + rewrite Hu, u32_small, zlen_cons by lia. lia.
    + rewrite zlen_cons. lia.
    + done.
    + rewrite <- Permutation_middle. by apply NoDup_cons.
    + done.
    + set_solver.
Qed.

Lemma return_rel s free used X x :
  pool_rel s free used X -> x ∈ used ->
  exists used', used ≡ₚ x :: used' /\
    pool_rel (FREEPOOL_RETURN s x) (x :: free) used' X /\
    nmax (ctl (FREEPOOL_RETURN s x)) = nmax (ctl s).
Proof.
  intros [Hq Hf Hu Hm Hi Hnd Hl Hs] [used' Hp]%elem_of_Permutation.
  assert (Hz : zlen used = 1 + zlen used').
  { unfold zlen. rewrite Hp. simpl. lia. }
  assert (Hnd' : NoDup (x :: free ++ used')).
  { rewrite Permutation_middle, <- Hp. done. }
  exists used'. split; [done|]. split; [|done].
  pose proof (zlen_nonneg free). pose proof (zlen_nonneg used').
  unfold FREEPOOL_RETURN, UINT32_MAX in *. split; simpl; unfold UINT32_MAX in *.
  - apply sq_insert_head_repr; [done|]. apply NoDup_cons in Hnd' as [? _]. set_solver.
  - rewrite Hf, u32_small, zlen_cons by lia. lia.
  - rewrite Hu, u32_small by lia. lia.
  - rewrite zlen_cons. lia.
  - done.
  - done.
  - done.
  - assert (list_to_set (free ++ used) ≡@{gset positive} list_to_set (x :: free ++ used')) as <-;
      [|done]. by rewrite Hp, <- Permutation_middle.
Qed.

(** Preallocation fills the free queue up to [size], or stops where an
    allocation fails; [size - nfree] iterations are enough. *)
Lemma prealloc_rel fuel s free used X size :
  pool_rel s free used X -> size + zlen used <= nmax (ctl s) ->
  (Z.to_nat (size - zlen free) <= fuel)%nat ->
  exists s' new X',
    FREEPOOL_PREALLOC fuel s size = Some s' /\
    pool_rel s' (new ++ free) used X' /\ nmax (ctl s') = nmax (ctl s) /\
    X' = list_to_set new ∪ X /\ zlen new <= Z.max 0 (size - zlen free) /\
    (nfree (ctl s') < size ->
     exists st, pool_rel st (new ++ free) used X' /\
       fst (pc_create (mem st) (world st)) = None).
Proof.
  revert s free X. induction fuel as [|fuel IH]; intros s free X Hr Hmax Hfu.
  - pose proof (pr_nfree _ _ _ _ Hr) as Hf. unfold FREEPOOL_PREALLOC. rewrite Hf.
    pose proof (zlen_nonneg free).
    case_zcmp; [lia|]. exists s, [], X. rewrite Hf, zlen_nil.
    split_and!; [done..|set_solver|lia|lia].
  - pose proof (pr_nfree _ _ _ _ Hr) as Hf. simpl. rewrite Hf.
    case_zcmp; [|exists s, [], X; rewrite Hf, zlen_nil; split_and!; [done..|set_solver|lia|lia]].
    destruct (pc_create (mem s) (world s)) as [[e|] [m' w']] eqn:E.
    + destruct Hr as [Hq _ Hu Hm Hi Hnd Hl Hs].
      destruct (pc_create_some _ _ _ _ _ _ E Hl) as [He Hl'].
      assert (Hef : e ∉ free ++ used) by (by eapply live_not_elem).
      pose proof (zlen_nonneg free). pose proof (zlen_nonneg used). unfold UINT32_MAX in *.
      destruct (IH (PState (sq_insert_head m' (freeq (ctl s)) e)
        (set_nfree (ctl s) (u32 (zlen free + 1))) w') (e :: free) ({[e]} ∪ X))
        as (s' & new & X' & P1 & P2 & P3 & P4 & P5 & P6).
      * split; simpl; unfold UINT32_MAX in *.
        -- apply sq_insert_head_repr; [|set_solver].
           eapply pc_create_frame; [exact E|done|set_solver|done].
        -- rewrite u32_small, zlen_cons by lia. lia.
        -- done.
        -- rewrite zlen_cons. lia.
        -- done.
        -- by apply NoDup_cons.
        -- done.
        -- set_solver.
      * done.
      * rewrite zlen_cons. lia.
      * rewrite zlen_cons in P5. exists s', (new ++ [e]), X'. rewrite <- app_assoc.
        rewrite zlen_app, zlen_cons, zlen_nil. split_and!; [done..| |lia|done].
        rewrite P4, list_to_set_app_L. simpl. set_solver.
    + assert (Hr' : pool_rel (PState m' (ctl s) w') free used X).
      { destruct Hr as [Hq _ Hu Hm Hi Hnd Hl Hs]. split; simpl; try done.
        - eapply pc_create_frame; [exact E|done|set_solver|done].
        - by eapply pc_create_none. }
      exists (PState m' (ctl s) w'), [], X. rewrite zlen_nil.
      split_and!; [done..|set_solver|lia|]. intros _. exists s. by rewrite E.
Qed.

(** Destroying a pool empties the free queue and frees each of its elements
    once. *)
Lemma destroy_rel fuel s free used X :
  pool_rel s free used X -> (length free <= fuel)%nat ->
  exists s', FREEPOOL_DESTROY fuel s = Some s' /\
    sq_repr (mem s') (freeq (ctl s')) [] /\ nfree (ctl s') = 0 /\
    initialized (ctl s') = false /\ pc_live (world s') (X ∖ list_to_set free).
Proof.
  unfold FREEPOOL_DESTROY. intros Hr. rewrite (sq_first_repr _ _ _ (pr_queue _ _ _ _ Hr)).
  revert s X fuel Hr. induction free as [|x free IH]; intros s X fuel Hr Hfu.
  - destruct Hr as [Hq Hf Hu Hm Hi Hnd Hl Hs]. eexists. split; [by destruct fuel|].
    simpl. split_and!; [done..|]. by rewrite difference_empty_L.
  - destruct Hr as [Hq Hf Hu Hm Hi Hnd Hl Hs]. destruct fuel as [|fuel]; [simpl in Hfu; lia|].
    simpl. destruct (sq_remove_head_repr _ _ _ _ Hq) as (m' & -> & Hq'). simpl.
    rewrite (sq_next_repr _ _ _ _ Hq).
    destruct (pc_destroy x m' (world s)) as [m'' w''] eqn:E.
    simpl in Hnd. apply NoDup_cons in Hnd as [Hx Hnd]. rewrite zlen_cons in *.
    pose proof (zlen_nonneg free). pose proof (zlen_nonneg used). unfold UINT32_MAX in *.
    destruct (IH (PState m'' (set_nfree (ctl s) (u32 (nfree (ctl s) - 1))) w'') (X ∖ {[x]}) fuel)
      as (s' & -> & H1 & H2 & H3 & H4).
    + split; simpl; unfold UINT32_MAX in *.
      * eapply pc_destroy_frame; [exact E|done|set_solver].
      * rewrite Hf, u32_small by lia. lia.
      * done.
      * lia.
      * done.
      * done.
      * eapply pc_destroy_live; [exact E|done|set_solver].
      * set_solver.
    + simpl in Hfu. lia.
    + exists s'. split_and!; [done..|].
      by rewrite difference_difference_l_L in H4.
Qed.

Lemma pool_rel_perm s free used used' X :
  used ≡ₚ used' -> pool_rel s free used X -> pool_rel s free used' X.
Proof.
  intros Hp [Hq Hf Hu Hm Hi Hnd Hl Hs].
  assert (zlen used = zlen used') by (unfold zlen; by rewrite Hp).
  split; try done; [lia|lia|by rewrite <- Hp|].
  assert (list_to_set (free ++ used) ≡@{gset positive} list_to_set (free ++ used')) as <-;
    [|done]. by rewrite Hp.
Qed.

(** ** Histories

    Events of a pool's users, latest first; an element may be returned while it
    is outstanding. *)
Inductive pool_event := EvBorrow (r : option positive) | EvReturn (x : positive).

Fixpoint outstanding (evs : list pool_event) : list positive :=
  match evs with
  | [] => []
  | EvBorrow (Some x) :: evs => x :: outstanding evs
  | EvBorrow None :: evs => outstanding evs
  | EvReturn x :: evs => filter (fun y => y ≠ x) (outstanding evs)
  end.

Inductive pool_trace s0 : list pool_event -> pstate M W -> Prop :=
| Trace_nil : pool_trace s0 [] s0
| Trace_borrow evs s r s' :
    pool_trace s0 evs s -> FREEPOOL_BORROW s = Some (r, s') ->
    pool_trace s0 (EvBorrow r :: evs) s'
| Trace_return evs s x :
    pool_trace s0 evs s -> x ∈ outstanding evs ->
    pool_trace s0 (EvReturn x :: evs) (FREEPOOL_RETURN s x).

Lemma filter_out (x : positive) l l' :
  NoDup l -> l ≡ₚ x :: l' -> filter (fun y => y ≠ x) l ≡ₚ l'.
Proof.
  intros Hnd Hp. assert (Hnd' := Hnd). rewrite Hp in Hnd'. apply NoDup_cons in Hnd' as [Hx _].
  rewrite Hp, filter_cons_False by naive_solver.
  replace (filter (fun y => y ≠ x) l') with l'; [done|].
  symmetry. clear -Hx. induction l' as [|y l' IH]; [done|].
  rewrite filter_cons_True by set_solver. f_equal. apply IH. set_solver.
Qed.

Lemma trace_rel s0 free X evs s :
  pool_rel s0 free [] X -> pool_trace s0 evs s ->
  exists free' X', pool_rel s free' (outstanding evs) X' /\ nmax (ctl s) = nmax (ctl s0).
Proof.
  intros H0. induction 1 as [|evs s r s' _ IH HB|evs s x _ IH Hx]; simpl.
  - eauto.
  - destruct IH as (f & Y & Hr & Hmx).
    destruct (borrow_rel _ _ _ _ Hr) as (r' & s'' & f' & u' & Y' & E & Hst & Hr' & Hmx').
    rewrite E in HB. simplify_eq. exists f', Y'. split; [|congruence].
    by destruct Hst.
  - destruct IH as (f & Y & Hr & Hmx).
    destruct (return_rel _ _ _ _ _ Hr Hx) as (u' & Hp & Hr' & Hmx').
    exists (x :: f), Y. split; [|congruence].
    eapply pool_rel_perm; [|exact Hr']. symmetry. apply filter_out; [|done].
    destruct Hr as [_ _ _ _ _ Hnd _ _]. by apply NoDup_app in Hnd as (_ & _ & ?).
Qed.

End Spec.

(** ** Properties *)

(** C6: a pool is created with limit [max] (0 for unlimited) and then
    used by any history of borrows and returns in which only outstanding
    elements are returned.  Then at every point: the next borrow is defined, it
    never hands out an element that is outstanding, it fails only when the free
    queue is empty; nused is the number of outstanding elements, no element is
    outstanding twice, and together with the idle ones they never exceed the
    limit.  Proved for any queue and any client that meet their interfaces. *)
Theorem freepool_trace_safe {M W : Type} `{!SQueue M} `{!SQueueLaws M} `{!PoolClient M W}
    `{!PoolClientLaws M W} (s0 s : pstate M W) (X : gset positive) (max : Z)
    (evs : list pool_event) :
  pc_live (world s0) X -> 0 <= max <= UINT32_MAX ->
  pool_trace (FREEPOOL_CREATE s0 max) evs s ->
  NoDup (outstanding evs) /\
  nused (ctl s) = zlen (outstanding evs) /\
  nfree (ctl s) + nused (ctl s) <= (if 0 <? max then max else UINT32_MAX) /\
  exists r s', FREEPOOL_BORROW s = Some (r, s') /\
    match r with
    | Some x => x ∉ outstanding evs
    | None => nfree (ctl s) = 0
    end.
Proof.
  intros Hl Hm Ht. destruct (create_rel s0 max X Hl Hm) as [H0 Hmx].
  destruct (trace_rel _ _ _ _ _ H0 Ht) as (f & Y & Hr & Hmx').
  destruct (borrow_rel _ _ _ _ Hr) as (r & s' & f' & u' & Y' & E & Hst & _).
  destruct Hr as [Hq Hf Hu Hmax Hi Hnd Hl' Hs].
  split_and!; [by apply NoDup_app in Hnd as (_ & _ & ?)|done| |].
  - rewrite <- Hmx, <- Hmx'. lia.
  - exists r, s'. split; [done|]. destruct Hst.
    + simpl in Hnd. apply NoDup_cons in Hnd as [Hx _]. set_solver.
    + intros Hin. match goal with H : _ ∉ Y |- _ => apply H end. apply Hs.
      rewrite elem_of_list_to_set. set_solver.
    + by rewrite Hf.
    + by rewrite Hf.
Qed.

(** C7: preallocation to [size] within the limit ends after at most
    [size - nfree] iterations; it leaves [size] idle elements unless an
    allocation failed.  Destroying the pool afterwards frees every idle element
    and only those, and leaves an empty queue. *)
Theorem freepool_prealloc_destroy {M W : Type} `{!SQueue M} `{!SQueueLaws M}
    `{!PoolClient M W} `{!PoolClientLaws M W} (s0 : pstate M W) (X : gset positive)
    (max size : Z) (fuel : nat) :
  pc_live (world s0) X -> 0 <= max <= UINT32_MAX ->
  0 <= size <= (if 0 <? max then max else UINT32_MAX) -> (Z.to_nat size <= fuel)%nat ->
  exists s1 new s2,
    FREEPOOL_PREALLOC fuel (FREEPOOL_CREATE s0 max) size = Some s1 /\
    sq_repr (mem s1) (freeq (ctl s1)) new /\ zlen new <= size /\
    nfree (ctl s1) = zlen new /\ pc_live (world s1) (list_to_set new ∪ X) /\
    (zlen new < size -> exists st, pool_rel st new [] (list_to_set new ∪ X) /\
       fst (pc_create (mem st) (world st)) = None) /\
    FREEPOOL_DESTROY fuel s1 = Some s2 /\
    sq_repr (mem s2) (freeq (ctl s2)) [] /\ nfree (ctl s2) = 0 /\
    pc_live (world s2) ((list_to_set new ∪ X) ∖ list_to_set new).
Proof.
  intros Hl Hm Hsz Hfu. destruct (create_rel s0 max X Hl Hm) as [H0 Hmx].
  destruct (prealloc_rel fuel _ _ _ _ size H0) as (s1 & new & X' & E & Hr & Hmx' & -> & Hn & Hoom);
    [rewrite Hmx, zlen_nil; lia|rewrite zlen_nil; lia|].
  rewrite app_nil_r in *. change (zlen (@nil positive)) with 0 in Hn.
  destruct (destroy_rel fuel _ _ _ _ Hr) as (s2 & E2 & Hq2 & Hf2 & _ & Hl2);
    [unfold zlen in Hn; lia|].
  destruct Hr as [Hq Hf Hu Hmax Hi Hnd Hl' Hs].
  exists s1, new, s2. split_and!; try done; [lia|]. by rewrite <- Hf.
Qed.

(** A client over a finite supply of addresses, as an allocator's answers. *)
Definition supply_client : PoolClient qmem (list positive * gset positive) :=
  {| pc_create m w :=
       match w.1 with
       | p :: ps => if decide (p ∈ w.2) then (None, (m, (ps, w.2)))
                    else (Some p, (m, (ps, {[p]} ∪ w.2)))
       | [] => (None, (m, w))
       end;
     pc_destroy e m w := (m, (w.1, w.2 ∖ {[e]})) |}.

#[local] Existing Instance supply_client.

#[local] Instance supply_client_laws : PoolClientLaws qmem (list positive * gset positive).
Proof.
  unshelve econstructor; [exact (fun w X => w.2 = X)|..]; simpl.
  - intros m [[|p ps] Y] r m' w' h l X; simpl; [by intros; simplify_eq|].
    case_decide; by intros; simplify_eq.
  - intros m [[|p ps] Y] r m' w' X; simpl; [done|]. case_decide; [done|].
    intros ? <-. by simplify_eq/=.
  - intros m [[|p ps] Y] m' w' X; simpl; [by intros; simplify_eq|].
    case_decide; by intros; simplify_eq/=.
  - intros e m [ps Y] m' w' h l. by intros [= <- <-].
  - intros e m [ps Y] m' w' X [= <- <-]. by intros <-.
Defined.

Definition supply_start : pstate qmem (list positive * gset positive) :=
  PState qmem_empty (Pool 1 0 0 0 false) ([5; 6; 7]%positive, ∅).

Lemma freepool_trace_safe_witness :
  exists s, pool_trace (FREEPOOL_CREATE supply_start 2)
      [EvBorrow None; EvBorrow (Some 5%positive); EvReturn 5; EvBorrow (Some 6%positive);
       EvBorrow (Some 5%positive)] s /\
    nused (ctl s) = 2.
Proof.
  assert (H : exists s, pool_trace (FREEPOOL_CREATE supply_start 2)
      [EvBorrow None; EvBorrow (Some 5%positive); EvReturn 5; EvBorrow (Some 6%positive);
       EvBorrow (Some 5%positive)] s).
  { eexists.
    eapply Trace_borrow.
    { eapply Trace_borrow.
      { eapply Trace_return.
        { eapply Trace_borrow.
          { eapply Trace_borrow; [apply Trace_nil|reflexivity]. }
          reflexivity. }
        set_solver. }
      reflexivity. }
    reflexivity. }
  destruct H as [s H]. exists s. split; [exact H|].
  apply (freepool_trace_safe supply_start _ ∅ 2 _) in H as (_ & -> & _);
    [reflexivity|reflexivity|unfold UINT32_MAX; lia].
Defined.

Lemma freepool_prealloc_destroy_witness :
  exists s1 s2, FREEPOOL_PREALLOC 4 (FREEPOOL_CREATE supply_start 4) 4 = Some s1 /\
    FREEPOOL_DESTROY 4 s1 = Some s2 /\ nfree (ctl s2) = 0.
Proof.
  destruct (freepool_prealloc_destroy supply_start ∅ 4 4 4)
    as (s1 & new & s2 & H1 & _ & _ & _ & _ & _ & H2 & _ & H3 & _);
    [reflexivity|unfold UINT32_MAX; lia|simpl; lia|lia|]. by exists s1, s2.
Defined.
