(* ===== verification/Buf.v ===== *)
(** * Buffers and their pool (include/buffer/cc_buf.h, src/buffer/cc_buf.c)

    A [buf] is the struct: its positions are offsets from [begin], [bend] is
    the offset of [end] and [data] the bytes of the flexible array.  The link
    field [next] lives in the queue memory ([Queue]).  [buf_world] is the
    module's state beside the pool: the live buffers, buf_init_size,
    buf_metrics, and the answers that the successive malloc calls will get.

    Buffers are modelled for buf_init_size >= BUF_HDR_SIZE (the theorems say
    so): below that the struct does not fit in the block. *)

From S2P Require Import Prelude Metric Mm Queue Pool.
Local Open Scope Z_scope.

(** LP64: next, rpos, wpos, end take 8 bytes each, free one. *)
Definition BUF_HDR_SIZE : Z := 33.
Definition BUF_INIT_SIZE : Z := 16384.
Definition BUF_POOLSIZE : Z := 0.

Record buf := Buf { rpos : Z; wpos : Z; bend : Z; bfree : bool; data : list byte }.

Definition BUF_EMTPY (b : buf) : bool := rpos b =? wpos b.
Definition BUF_FULL (b : buf) : bool := wpos b =? bend b.

Definition buf_rsize (b : buf) : Z := u32 (wpos b - rpos b).
Definition buf_wsize (b : buf) : Z := u32 (bend b - wpos b).
Definition buf_size (b : buf) : Z := u32 (bend b + BUF_HDR_SIZE).
Definition buf_capacity (b : buf) : Z := u32 (bend b).
Definition buf_new_cap (b : buf) (count : Z) : Z :=
  if count <=? buf_wsize b then 0 else u32 (count - buf_wsize b).

(** buf_reset, the part on the struct; [buf_reset_next] is its first line. *)
Definition buf_reset (b : buf) : buf := Buf 0 0 (bend b) false (data b).
Definition buf_reset_next (m : qmem) (p : positive) : qmem := sq_clear_next m p.

Definition set_rpos (b : buf) (p : Z) : buf := Buf p (wpos b) (bend b) (bfree b) (data b).
Definition set_wpos (b : buf) (p : Z) : buf := Buf (rpos b) p (bend b) (bfree b) (data b).
Definition set_bfree (b : buf) (f : bool) : buf := Buf (rpos b) (wpos b) (bend b) f (data b).
Definition set_data (b : buf) (d : list byte) : buf :=
  Buf (rpos b) (wpos b) (bend b) (bfree b) d.

(** The bytes copied to [dst], the return value and the buffer. *)
Definition buf_read (src : buf) (count : Z) : option (list byte * Z * buf) :=
  let len := Z.min (buf_rsize src) count in
  bytes ← memread (data src) (rpos src) len;
  Some (bytes, len, set_rpos src (rpos src + len)).

Definition buf_write (dst : buf) (src : list byte) (count : Z) : option (Z * buf) :=
  if count =? 0 then Some (0, dst) else
  let len := Z.min (buf_wsize dst) count in
  bytes ← memread src 0 len;
  d ← memwrite (data dst) (wpos dst) bytes;
  Some (len, set_wpos (set_data dst d) (wpos dst + len)).

(** memmove(base + to, base + from, n) inside one object. *)
Definition memmove (d : list byte) (to from n : Z) : option (list byte) :=
  bytes ← memread d from n; memwrite d to bytes.

Definition buf_lshift (b : buf) : option buf :=
  let size := buf_rsize b in
  d ← (if 0 <? size then memmove (data b) 0 (rpos b) size else Some (data b));
  Some (Buf 0 size (bend b) (bfree b) d).

Definition buf_rshift (b : buf) : option buf :=
  let size := buf_rsize b in
  d ← (if 0 <? size then memmove (data b) (bend b - size) (rpos b) size else Some (data b));
  Some (Buf (bend b - size) (bend b) (bend b) (bfree b) d).

(** ** The module *)

Record buf_world := BufWorld {
  bufs : gmap positive buf;
  answers : list (option (positive * list byte));
  buf_init_size : Z;
  buf_metrics : metrics_st;
}.

Definition set_bufs (w : buf_world) (bs : gmap positive buf) : buf_world :=
  BufWorld bs (answers w) (buf_init_size w) (buf_metrics w).
Definition on_metrics (f : metrics_st -> metrics_st) (w : buf_world) : buf_world :=
  BufWorld (bufs w) (answers w) (buf_init_size w) (f (buf_metrics w)).

(** The next answer of malloc(size): an answer that names a live object, or
    a block of another size, is not one malloc gives and counts as NULL. *)
Definition next_block (w : buf_world) (size : Z) : option (positive * list byte) * buf_world :=
  match answers w with
  | [] => (None, w)
  | a :: rest =>
      (match a with
       | Some (p, g) => if decide (bufs w !! p = None /\ zlen g = size) then a else None
       | None => None
       end,
       BufWorld (bufs w) rest (buf_init_size w) (buf_metrics w))
  end.

Definition buf_create (m : qmem) (w : buf_world) : option positive * (qmem * buf_world) :=
  let '(blk, w) := next_block w (buf_init_size w) in
  match cc_alloc (buf_init_size w) blk with
  | None => (None, (m, on_metrics (fun ms => INCR ms "buf_create_ex") w))
  | Some (p, g) =>
      let b := buf_reset (Buf 0 0 (buf_init_size w - BUF_HDR_SIZE) false
                 (drop (Z.to_nat BUF_HDR_SIZE) g)) in
      let w := set_bufs w (<[p := b]> (bufs w)) in
      (Some p, (buf_reset_next m p,
        on_metrics (fun ms =>
          INCR_N (INCR (INCR ms "buf_create") "buf_curr") "buf_memory" (buf_init_size w)) w))
  end.

(** buf_destroy on a non-NULL pointer; what it points at must be live. *)
Definition buf_destroy_at (w : buf_world) (p : positive) : option buf_world :=
  b ← bufs w !! p;
  let cap := buf_size b in
  let w := set_bufs w (delete p (bufs w)) in
  Some (on_metrics (fun ms =>
    DECR_N (DECR (INCR ms "buf_destroy") "buf_curr") "buf_memory" cap) w).

(** buf_destroy(struct buf **buf): [None] for a NULL argument, [Some None] for a
    pointer to NULL.  Returns the new value of the pointer. *)
Definition buf_destroy (pp : option (option positive)) (w : buf_world)
  : option (option (option positive) * buf_world) :=
  match pp with
  | Some (Some p) => w ← buf_destroy_at w p; Some (Some None, w)
  | _ => Some (pp, w)
  end.

#[export] Instance buf_pool_client : PoolClient qmem buf_world := {
  pc_create := buf_create;
  pc_destroy p m w := (m, default w (buf_destroy_at w p));
}.

Record buf_module := BufModule {
  bufp : pstate qmem buf_world;
  buf_init : bool;
  bufp_init : bool;
}.

Definition on_bufp (f : pstate qmem buf_world -> pstate qmem buf_world) (s : buf_module) :=
  BufModule (f (bufp s)) (buf_init s) (bufp_init s).

Definition buf_pool_destroy (fuel : nat) (s : buf_module) : option buf_module :=
  if negb (bufp_init s) then Some s else
  p ← FREEPOOL_DESTROY fuel (bufp s);
  Some (BufModule p (buf_init s) false).

Definition buf_pool_create (fuel : nat) (max : Z) (s : buf_module) : option (outcome buf_module) :=
  s ← (if bufp_init s then buf_pool_destroy fuel s else Some s);
  p ← FREEPOOL_PREALLOC fuel (FREEPOOL_CREATE (bufp s) max) max;
  let s := BufModule p (buf_init s) true in
  Some (if nfree (ctl p) <? max then Exits else Returns s).

(** [options]: buf_init_size and buf_poolsize. *)
Definition buf_setup (fuel : nat) (options : option (Z * Z)) (metrics : metrics_st)
    (s : buf_module) : option (outcome buf_module) :=
  let w := world (bufp s) in
  let size := match options with Some (n, _) => u32 n | None => buf_init_size w end in
  let max := match options with Some (_, n) => u32 n | None => BUF_POOLSIZE end in
  let w := BufWorld (bufs w) (answers w) size metrics in
  r ← buf_pool_create fuel max
        (BufModule (PState (mem (bufp s)) (ctl (bufp s)) w) (buf_init s) (bufp_init s));
  Some (match r with
        | Returns s => Returns (BufModule (bufp s) true (bufp_init s))
        | Exits => Exits
        end).

Definition buf_teardown (fuel : nat) (s : buf_module) : option buf_module :=
  s ← buf_pool_destroy fuel s;
  let p := bufp s in
  Some (BufModule (PState (mem p) (ctl p) (on_metrics (fun _ => None) (world p)))
          false (bufp_init s)).

Definition upd_buf (w : buf_world) (p : positive) (f : buf -> buf) : buf_world :=
  set_bufs w (alter f p (bufs w)).

Definition buf_borrow (s : buf_module) : option (option positive * buf_module) :=
  '(r, p) ← FREEPOOL_BORROW (bufp s);
  match r with
  | None =>
      Some (None, BufModule (PState (mem p) (ctl p)
        (on_metrics (fun ms => INCR ms "buf_borrow_ex") (world p))) (buf_init s) (bufp_init s))
  | Some x =>
      Some (Some x, BufModule (PState (buf_reset_next (mem p) x) (ctl p)
        (on_metrics (fun ms => INCR (INCR ms "buf_borrow") "buf_active")
           (upd_buf (world p) x buf_reset))) (buf_init s) (bufp_init s))
  end.

Definition buf_return (pp : option (option positive)) (s : buf_module)
  : option (option (option positive) * buf_module) :=
  match pp with
  | Some (Some elm) =>
      b ← bufs (world (bufp s)) !! elm;
      if bfree b then Some (pp, s) else
      let p := bufp s in
      let p := PState (mem p) (ctl p) (upd_buf (world p) elm (fun b => set_bfree b true)) in
      let p := FREEPOOL_RETURN p elm in
      let w := on_metrics (fun ms => DECR (INCR ms "buf_return") "buf_active") (world p) in
      Some (Some None, BufModule (PState (mem p) (ctl p) w) (buf_init s) (bufp_init s))
  | _ => Some (pp, s)
  end.

(** ** One buffer *)

Definition content (b : buf) : list byte := slice (data b) (rpos b) (wpos b - rpos b).

Record buf_wf (b : buf) : Prop := {
  wf_rpos : 0 <= rpos b;
  wf_wpos : rpos b <= wpos b;
  wf_end : wpos b <= bend b;
  wf_data : zlen (data b) = bend b;
  wf_size : bend b + BUF_HDR_SIZE <= UINT32_MAX;
}.

Section One.
Implicit Types (b : buf).

Ltac bwf H := destruct H as [H1 H2 H3 H4 H5]; unfold BUF_HDR_SIZE, UINT32_MAX in H5.

Lemma content_length b : buf_wf b -> zlen (content b) = wpos b - rpos b.
Proof. intros H; bwf H. unfold content. rewrite zlen_slice; lia. Qed.

Lemma rsize_eq b : buf_wf b -> buf_rsize b = zlen (content b).
Proof. intros H. rewrite content_length by done. bwf H. apply u32_small. lia. Qed.

Lemma wsize_eq b : buf_wf b -> buf_wsize b = bend b - wpos b.
Proof. intros H; bwf H. apply u32_small. lia. Qed.

Lemma size_eq b : buf_wf b -> buf_size b = bend b + BUF_HDR_SIZE.
Proof. intros H; bwf H. unfold BUF_HDR_SIZE. apply u32_small. unfold BUF_HDR_SIZE. lia. Qed.

Lemma read_spec b count :
  buf_wf b -> 0 <= count ->
  exists bytes b', buf_read b count = Some (bytes, Z.min (buf_rsize b) count, b') /\
    zlen bytes = Z.min (buf_rsize b) count /\ content b = bytes ++ content b' /\ buf_wf b' /\
    bend b' = bend b /\ bfree b' = bfree b.
Proof.
  intros Hwf Hc. unfold buf_read. rewrite rsize_eq, content_length by done.
  pose proof Hwf as H; bwf H. set (n := Z.min (wpos b - rpos b) count).
  rewrite memread_some by lia. simpl.
  do 2 eexists. split; [done|]. rewrite zlen_slice by lia. split; [done|].
  unfold content. simpl. split; [|split; [split; simpl; unfold UINT32_MAX, BUF_HDR_SIZE; lia|done]].
  rewrite <- slice_split by lia. f_equal. lia.
Qed.

Lemma write_spec b src count :
  buf_wf b -> 0 <= count <= zlen src ->
  exists b', buf_write b src count = Some (Z.min (buf_wsize b) count, b') /\
    content b' = content b ++ take (Z.to_nat (Z.min (buf_wsize b) count)) src /\ buf_wf b' /\
    bend b' = bend b /\ bfree b' = bfree b.
Proof.
  intros Hwf Hc. unfold buf_write. rewrite wsize_eq by done.
  pose proof Hwf as H; bwf H. case_zcmp.
  - exists b. subst. rewrite Z.min_r, app_nil_r by lia. done.
  - set (k := Z.min (bend b - wpos b) count).
    rewrite memread_some by lia. simpl.
    assert (Hn : zlen (slice src 0 k) = k) by (rewrite zlen_slice; lia).
    rewrite memwrite_some by lia. simpl. eexists. split; [done|].
    unfold content. simpl. split; [|split; [|done]].
    + replace (wpos b + k - rpos b) with ((wpos b - rpos b) + k) by lia.
      rewrite slice_split by lia.
      rewrite slice_splice_before by lia. f_equal.
      replace (rpos b + (wpos b - rpos b)) with (wpos b) by lia.
      rewrite <- Hn at 2. by rewrite slice_splice_same by lia.
    + split; simpl; rewrite ?zlen_splice; unfold UINT32_MAX, BUF_HDR_SIZE; lia.
Qed.

(** Moving the unread bytes to offset [to]. *)
Lemma move_spec b to :
  buf_wf b -> 0 <= to <= bend b - buf_rsize b ->
  exists d, (if 0 <? buf_rsize b then memmove (data b) to (rpos b) (buf_rsize b)
             else Some (data b)) = Some d /\
    zlen d = bend b /\ slice d to (buf_rsize b) = content b.
Proof.
  intros Hwf Ht. pose proof (content_length b Hwf) as Hl.
  rewrite rsize_eq in * by done. rewrite Hl in *. pose proof Hwf as H; bwf H. case_zcmp.
  - unfold memmove. rewrite memread_some by lia. simpl.
    change (slice (data b) (rpos b) (wpos b - rpos b)) with (content b).
    rewrite memwrite_some by lia. eexists. split; [done|].
    rewrite zlen_splice by lia. split; [done|]. rewrite <- Hl.
    apply slice_splice_same; lia.
  - eexists. split; [done|]. split; [done|].
    unfold content. by rewrite !slice_neg by lia.
Qed.

Lemma lshift_spec b :
  buf_wf b ->
  exists b', buf_lshift b = Some b' /\ content b' = content b /\ buf_wf b' /\
    rpos b' = 0 /\ bend b' = bend b /\ bfree b' = bfree b.
Proof.
  intros Hwf. pose proof (content_length b Hwf) as Hl. pose proof (rsize_eq b Hwf) as Hr.
  pose proof Hwf as H; bwf H.
  destruct (move_spec b 0 Hwf) as (d & E & Hd & Hs); [lia|].
  unfold buf_lshift. rewrite E. simpl. eexists. split; [done|].
  unfold content at 1. simpl. rewrite Z.sub_0_r. split; [done|].
  split; [|done]. split; simpl; unfold UINT32_MAX, BUF_HDR_SIZE; lia.
Qed.

Lemma rshift_spec b :
  buf_wf b ->
  exists b', buf_rshift b = Some b' /\ content b' = content b /\ buf_wf b' /\
    wpos b' = bend b /\ bend b' = bend b /\ bfree b' = bfree b.
Proof.
  intros Hwf. pose proof (content_length b Hwf) as Hl. pose proof (rsize_eq b Hwf) as Hr.
  pose proof Hwf as H; bwf H.
  destruct (move_spec b (bend b - buf_rsize b) Hwf) as (d & E & Hd & Hs); [lia|].
  unfold buf_rshift. rewrite E. simpl. eexists. split; [done|].
  unfold content at 1. simpl.
  replace (bend b - (bend b - buf_rsize b)) with (buf_rsize b) by lia. split; [done|].
  split; [|done]. split; simpl; unfold UINT32_MAX, BUF_HDR_SIZE; lia.
Qed.

End One.

(** ** The module's invariant *)

Definition total_size (bs : gmap positive buf) : Z :=
  map_fold (fun _ b acc => bend b + BUF_HDR_SIZE + acc) 0 bs.

Lemma total_insert bs p b :
  bs !! p = None -> total_size (<[p := b]> bs) = bend b + BUF_HDR_SIZE + total_size bs.
Proof. intros. unfold total_size. rewrite map_fold_insert_L; [done|intros; lia|done]. Qed.

Lemma total_delete bs p b :
  bs !! p = Some b -> total_size (delete p bs) = total_size bs - (bend b + BUF_HDR_SIZE).
Proof.
  intros. unfold total_size.
  rewrite (map_fold_delete_L _ _ p b bs); [lia|intros; lia|done].
Qed.

Lemma total_alter bs p f :
  (forall b, bs !! p = Some b -> bend (f b) = bend b) -> total_size (alter f p bs) = total_size bs.
Proof.
  intros Hf. destruct (bs !! p) as [b|] eqn:E.
  - rewrite <- (insert_delete_id bs p b E) at 1. rewrite alter_insert_eq.
    rewrite total_insert by apply lookup_delete_eq. rewrite (total_delete _ _ _ E), Hf by done. lia.
  - f_equal. apply map_eq. intros q. destruct (decide (q = p)) as [->|].
    + by rewrite lookup_alter_eq, E.
    + by rewrite lookup_alter_ne.
Qed.

#[export] Instance buf_pool_client_laws : PoolClientLaws qmem buf_world.
Proof.
  unshelve econstructor; [exact (fun w X => dom (bufs w) = X)|..]; simpl.
  - intros m w r m' w' h l X. unfold buf_create, next_block, cc_alloc.
    destruct (answers w) as [|[[p g]|] rest]; simpl; case_zcmp; try case_decide as Hd;
      try (by intros [= <- <- <-]).
    intros [= <- <- <-] <- Hsub Hq. apply stailq_set_next; [done|].
    eapply live_not_elem; [|done]. apply not_elem_of_dom, Hd.
  - intros m w e m' w' X. unfold buf_create, next_block, cc_alloc.
    destruct (answers w) as [|[[p g]|] rest]; simpl; case_zcmp; try done.
    case_decide as Hd; [|done]. destruct Hd as [Hd _]. intros [= <- <- <-] <-. simpl.
    split; [by apply not_elem_of_dom|]. by rewrite dom_insert_L.
  - intros m w m' w' X. unfold buf_create, next_block, cc_alloc.
    destruct (answers w) as [|[[p g]|] rest]; simpl; case_zcmp; try case_decide;
      by intros [= <- <-].
  - intros e m w m' w' h l [= <- <-]. done.
  - intros e m w m' w' X [= <- <-] <- [b Hb]%elem_of_dom. unfold buf_destroy_at.
    rewrite Hb. simpl. by rewrite dom_delete_L.
Defined.

(** The gauges agree with what is allocated and borrowed. *)
Record accounted (w : buf_world) (nact : Z) : Prop := {
  ac_curr : gauge_of (buf_metrics w) "buf_curr" = Some (i64 (Z.of_nat (size (bufs w))));
  ac_active : gauge_of (buf_metrics w) "buf_active" = Some (i64 nact);
  ac_memory : gauge_of (buf_metrics w) "buf_memory" = Some (i64 (total_size (bufs w)));
  ac_wf : map_Forall (fun _ b => buf_wf b) (bufs w);
}.

Definition size_ok (w : buf_world) : Prop := BUF_HDR_SIZE <= buf_init_size w <= UINT32_MAX.

Section Module.
Implicit Types (w : buf_world) (s : buf_module) (p : positive).

Lemma accounted_metrics w n f :
  accounted w n ->
  (forall g v, g ∈ ["buf_curr"; "buf_active"; "buf_memory"] ->
     gauge_of (buf_metrics w) g = Some v -> gauge_of (f (buf_metrics w)) g = Some v) ->
  accounted (on_metrics f w) n.
Proof. intros [H1 H2 H3 H4] Hf. split; simpl; [apply Hf; [set_solver|done]..|done]. Qed.

Lemma create_accounted m w r m' w' n :
  buf_create m w = (r, (m', w')) -> size_ok w /\ accounted w n -> size_ok w' /\ accounted w' n.
Proof.
  intros E [Hs [H1 H2 H3 H4]]. unfold size_ok, BUF_HDR_SIZE, UINT32_MAX in Hs.
  unfold buf_create, next_block, cc_alloc in E.
  assert (Hfail : forall rest, accounted (on_metrics (fun ms => INCR ms "buf_create_ex")
    (BufWorld (bufs w) rest (buf_init_size w) (buf_metrics w))) n).
  { intros rest. split; simpl; [gauge|gauge|gauge|done]. }
  destruct (answers w) as [|[[p g]|] rest] eqn:Ea; simpl in E.
  - revert E. case_zcmp; intros [= <- <- <-]; (split; [done|]);
      (specialize (Hfail []); rewrite <- Ea in Hfail; by destruct w).
  - revert E. case_zcmp; [by intros [= <- <- <-]|].
    case_decide as Hd; [|by intros [= <- <- <-]].
    destruct Hd as [Hp Hg]. intros [= <- <- <-]. split; [done|]. split; simpl.
    + eapply eq_trans; [gauge|]. rewrite map_size_insert_None by done.
      rewrite i64_add_l. do 2 f_equal. lia.
    + gauge.
    + eapply eq_trans; [gauge|]. rewrite total_insert by done.
      rewrite i64_add_l. simpl. unfold BUF_HDR_SIZE. do 2 f_equal. lia.
    + apply map_Forall_insert_2; [|done].
      split; simpl; unfold BUF_HDR_SIZE, UINT32_MAX; [lia..| |lia].
      rewrite (zlen_drop 33) by lia. lia.
  - revert E. case_zcmp; by intros [= <- <- <-].
Qed.

Definition busy w (used : list positive) : Prop :=
  forall x, x ∈ used -> exists b, bufs w !! x = Some b /\ bfree b = false.

Lemma create_busy m w r m' w' used :
  buf_create m w = (r, (m', w')) -> busy w used -> busy w' used.
Proof.
  unfold buf_create, next_block, cc_alloc. intros E Hb x Hx.
  destruct (Hb x Hx) as (b & Hl & Hf). exists b. split; [|done]. revert E.
  destruct (answers w) as [|[[p g]|] rest]; simpl; case_zcmp; try case_decide as Hd;
    intros [= <- <- <-]; simpl; try done.
  rewrite lookup_insert_ne; [done|]. destruct Hd. congruence.
Qed.

Lemma accounted_upd w n p f :
  (forall b, bufs w !! p = Some b -> bend (f b) = bend b /\ (buf_wf b -> buf_wf (f b))) ->
  accounted w n -> accounted (upd_buf w p f) n.
Proof.
  intros Hf [H1 H2 H3 H4]. split; simpl; [|done| |].
  - assert (Hd : dom (alter f p (bufs w)) = dom (bufs w)) by apply dom_alter_L.
    rewrite <- size_dom, Hd, size_dom. done.
  - rewrite total_alter; [done|]. intros b Hb. by apply Hf.
  - intros q b Hb. apply lookup_alter_Some in Hb as [(-> & b' & Hb & ->)|[_ Hb]].
    + apply (Hf b'); [done|]. by apply (H4 _ b' Hb).
    + by apply (H4 q).
Qed.

Record buf_inv s (used : list positive) : Prop := {
  bi_pool : exists free, pool_rel (bufp s) free used (dom (bufs (world (bufp s)))) /\
    dom (bufs (world (bufp s))) = list_to_set (free ++ used);
  bi_acct : accounted (world (bufp s)) (zlen used);
  bi_size : size_ok (world (bufp s));
  bi_busy : busy (world (bufp s)) used;
}.

(** The pool's relation only reads the domain of the client's map. *)
Lemma pool_rel_world (st : pstate qmem buf_world) free used m' w' :
  pool_rel st free used (dom (bufs (world st))) ->
  dom (bufs w') = dom (bufs (world st)) -> sq_repr m' (freeq (ctl st)) free ->
  pool_rel (PState m' (ctl st) w') free used (dom (bufs w')).
Proof. intros [? ? ? ? ? ? ? ?] Hd Hq. split; simpl; try done. by rewrite Hd. Qed.

Lemma reset_wf b : buf_wf b -> buf_wf (buf_reset b).
Proof. intros [? ? ? ? ?]. split; simpl; unfold UINT32_MAX, BUF_HDR_SIZE in *; lia. Qed.

Lemma borrow_inv s used :
  buf_inv s used ->
  exists r s', buf_borrow s = Some (r, s') /\
    match r with
    | Some x => x ∉ used /\ buf_inv s' (x :: used) /\
        exists b, bufs (world (bufp s')) !! x = Some b /\ content b = [] /\ rpos b = 0
    | None => buf_inv s' used /\ nfree (ctl (bufp s)) = 0
    end.
Proof.
  intros [(free & Hr & Hdom) Ha Hs Hb]. unfold buf_borrow.
  destruct (borrow_rel _ _ _ _ Hr) as (r & p & f' & u' & X' & E & Hst & Hr' & _). rewrite E. simpl.
  assert (HP : (size_ok (world p) /\ accounted (world p) (zlen used)) /\ busy (world p) used).
  { refine (borrow_world (fun w => (size_ok w /\ accounted w (zlen used)) /\ busy w used)
      _ _ _ _ E _); [|done]. intros ? ? ? ? ? Hc [? ?].
    split; [by eapply create_accounted|by eapply create_busy]. }
  destruct HP as [[Hs' Ha'] Hb']. pose proof (pr_live _ _ _ _ Hr') as Hl. simpl in Hl.
  rewrite <- Hl in Hr'. destruct r as [x|].
  - assert (Hu : u' = x :: used) by (by inversion Hst). subst u'.
    assert (Hx : x ∉ f' ++ used).
    { pose proof (pr_nodup _ _ _ _ Hr') as Hnd. rewrite <- Permutation_middle in Hnd.
      by apply NoDup_cons in Hnd as [? _]. }
    assert (Hin : x ∈ dom (bufs (world p))).
    { apply (pr_sub _ _ _ _ Hr'). rewrite elem_of_list_to_set. set_solver. }
    apply elem_of_dom in Hin as [b Hlk].
    do 2 eexists. split; [done|]. simpl. split; [set_solver|]. split.
    + split; simpl.
      * exists f'. split; [|rewrite dom_alter_L, Hl; clear -Hst Hdom; inversion Hst; set_solver].
        apply (pool_rel_world p _ _ _ (on_metrics _ (upd_buf (world p) x buf_reset)));
          [done|by apply dom_alter_L|]. apply stailq_set_next; [apply Hr'|set_solver].
      * assert (Hu : accounted (upd_buf (world p) x buf_reset) (zlen used)).
        { apply accounted_upd; [|done]. intros; split; [done|apply reset_wf]. }
        destruct Hu as [H1 H2 H3 H4]. split; simpl in *; [gauge| |gauge|done].
        eapply eq_trans; [gauge|]. rewrite i64_add_l, zlen_cons. do 2 f_equal. lia.
      * done.
      * intros y [->|Hy]%elem_of_cons; simpl.
        -- rewrite lookup_alter_eq, Hlk. simpl. eauto.
        -- rewrite lookup_alter_ne by set_solver. by apply Hb'.
    + exists (buf_reset b). rewrite lookup_alter_eq, Hlk. split_and!; [done| |done].
      unfold content. simpl. by rewrite slice_neg by lia.
  - assert (Hu : u' = used) by (by inversion Hst). subst u'.
    do 2 eexists. split; [done|]. simpl. split.
    + split; simpl; [|destruct Ha' as [H1 H2 H3 H4]; split; simpl; [gauge..|done]|done|done].
      exists f'. split; [|rewrite Hl; clear -Hst Hdom; by inversion Hst; subst].
      apply (pool_rel_world p _ _ _ (on_metrics _ (world p))); [done|done|apply Hr'].
    + rewrite (pr_nfree _ _ _ _ Hr). by inversion Hst.
Qed.

Lemma return_inv s used x :
  buf_inv s used -> x ∈ used ->
  exists s', buf_return (Some (Some x)) s = Some (Some None, s') /\
    buf_inv s' (filter (fun y => y ≠ x) used) /\
    exists b, bufs (world (bufp s')) !! x = Some b /\ bfree b = true.
Proof.
  intros [(free & Hr & Hdom) Ha Hs Hb] Hx. unfold buf_return.
  destruct (Hb x Hx) as (b & Hlk & Hf). rewrite Hlk. simpl. rewrite Hf.
  set (w1 := upd_buf (world (bufp s)) x (fun b => set_bfree b true)).
  set (st := PState (mem (bufp s)) (ctl (bufp s)) w1).
  assert (Hr1 : pool_rel st free used (dom (bufs w1))).
  { apply (pool_rel_world (bufp s)); [done|apply dom_alter_L|apply Hr]. }
  destruct (return_rel _ _ _ _ _ Hr1 Hx) as (used' & Hp & Hr2 & _).
  assert (Hnd : NoDup used) by (apply (NoDup_app free), (pr_nodup _ _ _ _ Hr)).
  pose proof (filter_out x used used' Hnd Hp) as Hfil.
  assert (Hz : zlen used = 1 + zlen (filter (fun y => y ≠ x) used)).
  { unfold zlen. rewrite Hfil, Hp. simpl. lia. }
  eexists. split; [done|]. split; [split; simpl|].
  - exists (x :: free). split.
    2:{ rewrite dom_alter_L, Hdom. clear -Hx.
        apply set_eq. intros y. rewrite !elem_of_list_to_set.
        rewrite !elem_of_app, elem_of_cons, list_elem_of_filter.
        destruct (decide (y = x)) as [->|]; tauto. }
    apply (pool_rel_perm _ _ used'); [done|].
    apply (pool_rel_world (FREEPOOL_RETURN st x) (x :: free) used' _
      (on_metrics (fun ms => DECR (INCR ms "buf_return") "buf_active") w1));
      [done|done|apply Hr2].
  - assert (Hu : accounted w1 (zlen used)).
    { apply accounted_upd; [|done]. intros b' _. split; [done|].
      intros [? ? ? ? ?]. by split. }
    destruct Hu as [H1 H2 H3 H4]. split; simpl in *; [gauge| |gauge|done].
    eapply eq_trans; [gauge|]. rewrite i64_sub_l, Hz. do 2 f_equal. lia.
  - done.
  - intros y Hy. apply list_elem_of_filter in Hy as [Hne Hy]. simpl.
    rewrite lookup_alter_ne by done. by apply Hb.
  - simpl. rewrite lookup_alter_eq, Hlk. simpl. eauto.
Qed.

(** The holder of a borrowed buffer changes it within its bounds. *)
Definition buf_edit s x (f : buf -> buf) : buf_module :=
  on_bufp (fun st => PState (mem st) (ctl st) (upd_buf (world st) x f)) s.

Lemma edit_inv s used x f :
  buf_inv s used -> x ∈ used ->
  (forall b, buf_wf b -> buf_wf (f b) /\ bend (f b) = bend b /\ bfree (f b) = bfree b) ->
  buf_inv (buf_edit s x f) used.
Proof.
  intros [(free & Hr & Hdom) Ha Hs Hb] Hx Hf. destruct (Hb x Hx) as (b0 & Hl0 & _).
  split; simpl.
  - exists free. split; [|by rewrite dom_alter_L].
    apply (pool_rel_world (bufp s)); [done|apply dom_alter_L|apply Hr].
  - apply accounted_upd; [|done]. intros b Hlk.
    destruct (Hf b) as (? & ? & _); [by apply (ac_wf _ _ Ha x)|done].
  - done.
  - intros y Hy. simpl. destruct (Hb y Hy) as (b & Hlk & Hfr).
    destruct (decide (y = x)) as [->|].
    + rewrite lookup_alter_eq, Hlk. simpl. eexists. split; [done|].
      destruct (Hf b) as (_ & _ & ->); [by apply (ac_wf _ _ Ha x)|done].
    + rewrite lookup_alter_ne by done. eauto.
Qed.

Lemma setup_inv fuel n max ms s :
  bufp_init s = false -> bufs (world (bufp s)) = ∅ ->
  gauge_of ms "buf_curr" = Some 0 -> gauge_of ms "buf_active" = Some 0 ->
  gauge_of ms "buf_memory" = Some 0 ->
  BUF_HDR_SIZE <= n <= UINT32_MAX -> 0 <= max <= UINT32_MAX -> (Z.to_nat max <= fuel)%nat ->
  exists r, buf_setup fuel (Some (n, max)) ms s = Some r /\
    match r with
    | Returns s' => buf_inv s' [] /\ nfree (ctl (bufp s')) = max /\ bufp_init s' = true
    | Exits => True
    end.
Proof.
  intros Hi Hbs H1 H2 H3 Hn Hmax Hfu. unfold buf_setup, buf_pool_create.
  unfold BUF_HDR_SIZE, UINT32_MAX in *. rewrite !u32_small by lia. cbn [bufp_init]. rewrite Hi.
  set (st0 := PState (mem (bufp s)) (ctl (bufp s))
                (BufWorld (bufs (world (bufp s))) (answers (world (bufp s))) n ms)).
  destruct (create_rel st0 max ∅) as [H0 Hmx]; [simpl; by rewrite Hbs|unfold UINT32_MAX; lia|].
  destruct (prealloc_rel fuel _ _ _ _ max H0) as (p & new & X' & E & Hr & _ & HX & Hz & _);
    [rewrite Hmx, zlen_nil; unfold UINT32_MAX; case_zcmp; lia|rewrite zlen_nil; lia|].
  simpl. rewrite E. simpl. eexists. split; [done|]. case_zcmp; [done|].
  rewrite app_nil_r in Hr. pose proof (pr_live _ _ _ _ Hr) as Hl. simpl in Hl.
  assert (HP : size_ok (world p) /\ accounted (world p) 0).
  { refine (prealloc_world (fun w => size_ok w /\ accounted w 0) _ _ _ _ _ E _);
      [intros; by eapply create_accounted|].
    split; [by simpl|]. split; simpl; rewrite ?Hbs; try done. }
  destruct HP as [Hs Ha]. split; [|split; [|done]].
  - split; simpl; [|done|done|].
    + exists new. rewrite Hl. split; [done|]. rewrite HX, app_nil_r. set_solver.
    + intros x Hx. by apply elem_of_nil in Hx.
  - simpl. rewrite (pr_nfree _ _ _ _ Hr) in *. unfold zlen in *. simpl in Hz. lia.
Qed.

(** With every buffer returned, teardown frees them all. *)
Lemma teardown_frees fuel s :
  buf_inv s [] -> bufp_init s = true -> (size (bufs (world (bufp s))) <= fuel)%nat ->
  exists s', buf_teardown fuel s = Some s' /\ bufs (world (bufp s')) = ∅ /\
    bufp_init s' = false /\ buf_init s' = false.
Proof.
  intros [(free & Hr & Hdom) _ _ _] Hi Hfu. unfold buf_teardown, buf_pool_destroy. rewrite Hi.
  rewrite app_nil_r in Hdom. simpl.
  assert (Hnd : NoDup free) by (pose proof (pr_nodup _ _ _ _ Hr) as H; by rewrite app_nil_r in H).
  destruct (destroy_rel fuel _ _ _ _ Hr) as (p & -> & _ & _ & _ & Hl).
  { rewrite <- size_dom, Hdom, size_list_to_set in Hfu by done. done. }
  simpl. eexists. split; [done|]. simpl. split; [|done].
  simpl in Hl. rewrite Hdom, difference_diag_L in Hl. by apply dom_empty_inv_L.
Qed.

(** ** Histories of the module

    What a program may do after setup: borrow, change a buffer it holds, return
    one it holds. *)
Inductive buf_run (s0 : buf_module) : buf_module -> list positive -> Prop :=
| Run_start : buf_run s0 s0 []
| Run_borrow s used x s' :
    buf_run s0 s used -> buf_borrow s = Some (Some x, s') -> buf_run s0 s' (x :: used)
| Run_borrow_ex s used s' :
    buf_run s0 s used -> buf_borrow s = Some (None, s') -> buf_run s0 s' used
| Run_edit s used x f :
    buf_run s0 s used -> x ∈ used ->
    (forall b, buf_wf b -> buf_wf (f b) /\ bend (f b) = bend b /\ bfree (f b) = bfree b) ->
    buf_run s0 (buf_edit s x f) used
| Run_return s used x s' pp :
    buf_run s0 s used -> x ∈ used -> buf_return (Some (Some x)) s = Some (pp, s') ->
    buf_run s0 s' (filter (fun y => y ≠ x) used).

Lemma run_inv s0 s used : buf_inv s0 [] -> buf_run s0 s used -> buf_inv s used.
Proof.
  intros H0. induction 1 as [|s used x s' _ IH E|s used s' _ IH E|s used x f _ IH Hx Hf|
                             s used x s' pp _ IH Hx E].
  - done.
  - destruct (borrow_inv s used IH) as (r & s1 & E1 & Hr). rewrite E1 in E. simplify_eq. apply Hr.
  - destruct (borrow_inv s used IH) as (r & s1 & E1 & Hr). rewrite E1 in E. simplify_eq. apply Hr.
  - by apply edit_inv.
  - destruct (return_inv s used x IH Hx) as (s1 & E1 & Hr & _). rewrite E1 in E. by simplify_eq.
Qed.

Lemma run_bufp_init s0 s used : buf_run s0 s used -> bufp_init s = bufp_init s0.
Proof.
  induction 1 as [|s used x s' _ IH E|s used s' _ IH E|s used x f _ IH Hx Hf|
                  s used x s' pp _ IH Hx E]; [done| | |done|]; rewrite <- IH.
  - unfold buf_borrow in E. destruct (FREEPOOL_BORROW _) as [[[]]|]; by simplify_eq/=.
  - unfold buf_borrow in E. destruct (FREEPOOL_BORROW _) as [[[]]|]; by simplify_eq/=.
  - unfold buf_return in E. destruct (bufs _ !! x) as [b|]; simpl in E; [|done].
    destruct (bfree b); by simplify_eq/=.
Qed.

End Module.

(** ** Properties *)

(** C19: on a well-formed buffer, read takes the oldest min(unread,
    count) bytes, write appends the first min(room, count) bytes of its source,
    left and right shift move the unread bytes to the beginning and to the end
    of the buffer without changing them; none of them leaves the buffer's
    memory. *)
Theorem buf_stream (b : buf) (src : list byte) (count : Z) :
  buf_wf b -> 0 <= count <= zlen src ->
  (exists bytes b', buf_read b count = Some (bytes, Z.min (buf_rsize b) count, b') /\
     zlen bytes = Z.min (buf_rsize b) count /\ content b = bytes ++ content b' /\ buf_wf b') /\
  (exists b', buf_write b src count = Some (Z.min (buf_wsize b) count, b') /\
     content b' = content b ++ take (Z.to_nat (Z.min (buf_wsize b) count)) src /\ buf_wf b') /\
  (exists b', buf_lshift b = Some b' /\ content b' = content b /\ rpos b' = 0 /\
     buf_wsize b' = bend b - zlen (content b) /\ buf_wf b') /\
  (exists b', buf_rshift b = Some b' /\ content b' = content b /\ BUF_FULL b' = true /\ buf_wf b').
Proof.
  intros Hwf Hc. split_and!.
  - destruct (read_spec b count Hwf) as (? & ? & ? & ? & ? & ? & _); [lia|eauto 8].
  - destruct (write_spec b src count Hwf Hc) as (? & ? & ? & ? & _). eauto 8.
  - destruct (lshift_spec b Hwf) as (b' & E & Hct & Hwf' & Hr & He & _).
    exists b'. split_and!; try done. rewrite wsize_eq by done.
    rewrite <- Hct, content_length by done. lia.
  - destruct (rshift_spec b Hwf) as (b' & E & Hct & Hwf' & Hw & He & _).
    exists b'. split_and!; try done. unfold BUF_FULL. apply Z.eqb_eq. lia.
Qed.

Lemma buf_stream_witness :
  exists b', buf_write (Buf 1 3 5 false [1; 2; 3; 0; 0]) [7; 8; 9] 3 = Some (2, b') /\
    content b' = [2; 3; 7; 8].
Proof.
  destruct (buf_stream (Buf 1 3 5 false [1; 2; 3; 0; 0]) [7; 8; 9] 3)
    as (_ & (b' & H1 & H2 & _) & _).
  - split; vm_compute; congruence.
  - vm_compute. split; congruence.
  - exists b'. split; [exact H1|exact H2].
Defined.

(** C20: after buf_setup with a pool of [max] buffers and any history
    of borrowing, editing and returning: buf_curr, buf_active and buf_memory
    equal the number of live buffers, the number of borrowed ones and the bytes
    allocated to all of them; a further buf_borrow is defined, and either hands
    out an empty buffer nobody holds or reports failure, the latter only with
    no idle buffer left. *)
Theorem buf_accounting (fuel : nat) (n max : Z) (ms : metrics_st) (s0 s1 s : buf_module)
    (used : list positive) :
  bufp_init s0 = false -> bufs (world (bufp s0)) = ∅ ->
  gauge_of ms "buf_curr" = Some 0 -> gauge_of ms "buf_active" = Some 0 ->
  gauge_of ms "buf_memory" = Some 0 ->
  BUF_HDR_SIZE <= n <= UINT32_MAX -> 0 <= max <= UINT32_MAX -> (Z.to_nat max <= fuel)%nat ->
  buf_setup fuel (Some (n, max)) ms s0 = Some (Returns s1) -> buf_run s1 s used ->
  let w := world (bufp s) in
  gauge_of (buf_metrics w) "buf_curr" = Some (i64 (Z.of_nat (size (bufs w)))) /\
  gauge_of (buf_metrics w) "buf_active" = Some (i64 (zlen used)) /\
  gauge_of (buf_metrics w) "buf_memory" = Some (i64 (total_size (bufs w))) /\
  exists r s', buf_borrow s = Some (r, s') /\
    match r with
    | Some x => x ∉ used /\
        exists b, bufs (world (bufp s')) !! x = Some b /\ content b = [] /\ buf_wf b
    | None => nfree (ctl (bufp s)) = 0
    end.
Proof.
  intros Hi Hb H1 H2 H3 Hn Hmax Hfu Hset Hrun w.
  destruct (setup_inv fuel n max ms s0) as (r & E & Hr); [done..|].
  rewrite E in Hset. simplify_eq. destruct Hr as [H0 _].
  pose proof (run_inv s1 s used H0 Hrun) as Hinv.
  destruct (bi_acct _ _ Hinv) as [? ? ? ?]. split_and!; try done.
  destruct (borrow_inv s used Hinv) as (r & s' & Eb & Hr). exists r, s'. split; [done|].
  destruct r as [x|]; [|apply Hr]. destruct Hr as (Hx & Hinv' & b & Hlk & Hc & _).
  split; [done|]. exists b. split_and!; [done..|].
  apply (ac_wf _ _ (bi_acct _ _ Hinv') x b Hlk).
Qed.

(** The metrics struct of the module, all zero. *)
Definition buf_metrics0 : metrics_st :=
  Some (list_to_map (map (fun f => METRIC_INIT f.1 f.2 "") [
    ("buf_curr", METRIC_GAUGE); ("buf_active", METRIC_GAUGE); ("buf_create", METRIC_COUNTER);
    ("buf_create_ex", METRIC_COUNTER); ("buf_destroy", METRIC_COUNTER);
    ("buf_borrow", METRIC_COUNTER); ("buf_borrow_ex", METRIC_COUNTER);
    ("buf_return", METRIC_COUNTER); ("buf_memory", METRIC_GAUGE)])).

(** The state before setup, with three 40-byte blocks to hand out. *)
Definition buf_start : buf_module :=
  BufModule (PState qmem_empty (Pool 1 0 0 0 false)
    (BufWorld ∅ [Some (7%positive, replicate 40 0); Some (8%positive, replicate 40 0); None]
       BUF_INIT_SIZE None)) false false.

Lemma buf_accounting_witness :
  exists s1 x s, buf_setup 2 (Some (40, 2)) buf_metrics0 buf_start = Some (Returns s1) /\
    buf_borrow s1 = Some (Some x, s) /\
    gauge_of (buf_metrics (world (bufp s))) "buf_active" = Some 1.
Proof.
  destruct (setup_inv 2 40 2 buf_metrics0 buf_start) as ([s1|] & H1 & Hr);
    [reflexivity..|vm_compute; split; congruence|vm_compute; split; congruence|simpl; lia| |];
    [|discriminate H1].
  destruct Hr as (Hinv & Hnf & _). destruct (borrow_inv s1 [] Hinv) as ([x|] & s & H2 & Hx);
    [|destruct Hx as [_ Hx]; rewrite Hnf in Hx; discriminate].
  exists s1, x, s.
  destruct (buf_accounting 2 40 2 buf_metrics0 buf_start s1 s [x]) as (_ & Ha & _);
    [reflexivity..|vm_compute; split; congruence|vm_compute; split; congruence|simpl; lia
    |exact H1| |].
  - eapply Run_borrow; [apply Run_start|exact H2].
  - split; [exact H1|]. split; [exact H2|exact Ha].
Defined.

(** Buf_setup with a pool of [max] buffers ends.  Unless it exits
    the process, the pool then holds exactly [max] idle buffers; in every later
    state, returning a borrowed buffer clears the caller's pointer, and
    returning it a second time through another copy of the pointer changes
    nothing; once every borrowed buffer is returned, buf_teardown ends and no
    buffer is leaked. *)
Theorem buf_lifecycle (fuel : nat) (n max : Z) (ms : metrics_st) (s0 : buf_module) :
  bufp_init s0 = false -> bufs (world (bufp s0)) = ∅ ->
  gauge_of ms "buf_curr" = Some 0 -> gauge_of ms "buf_active" = Some 0 ->
  gauge_of ms "buf_memory" = Some 0 ->
  BUF_HDR_SIZE <= n <= UINT32_MAX -> 0 <= max <= UINT32_MAX -> (Z.to_nat max <= fuel)%nat ->
  exists r, buf_setup fuel (Some (n, max)) ms s0 = Some r /\
    match r with
    | Exits => True
    | Returns s1 =>
        nfree (ctl (bufp s1)) = max /\
        (forall s used x, buf_run s1 s used -> x ∈ used ->
          exists s2, buf_return (Some (Some x)) s = Some (Some None, s2) /\
            buf_return (Some (Some x)) s2 = Some (Some (Some x), s2)) /\
        (forall s fuel', buf_run s1 s [] -> (size (bufs (world (bufp s))) <= fuel')%nat ->
          exists s3, buf_teardown fuel' s = Some s3 /\ bufs (world (bufp s3)) = ∅)
    end.
Proof.
  intros Hi Hb H1 H2 H3 Hn Hmax Hfu.
  destruct (setup_inv fuel n max ms s0) as (r & E & Hr); [done..|].
  exists r. split; [done|]. destruct r as [s1|]; [|done]. destruct Hr as (H0 & Hnf & Hbi).
  split_and!; [done| |].
  - intros s used x Hrun Hx. pose proof (run_inv s1 s used H0 Hrun) as Hinv.
    destruct (return_inv s used x Hinv Hx) as (s2 & E2 & _ & b & Hlk & Hfr).
    exists s2. split; [done|]. unfold buf_return. rewrite Hlk. simpl. by rewrite Hfr.
  - intros s fuel' Hrun Hsz. pose proof (run_inv s1 s [] H0 Hrun) as Hinv.
    destruct (teardown_frees fuel' s) as (s3 & ? & ? & _);
      [done|by rewrite (run_bufp_init _ _ _ Hrun)|done|eauto].
Qed.

Lemma buf_lifecycle_witness :
  exists s1, buf_setup 2 (Some (40, 2)) buf_metrics0 buf_start = Some (Returns s1) /\
    nfree (ctl (bufp s1)) = 2.
Proof.
  destruct (buf_lifecycle 2 40 2 buf_metrics0 buf_start) as ([s1|] & H & Hr);
    try reflexivity; try (vm_compute; split; congruence); try discriminate H.
  exists s1. split; [exact H|apply Hr].
Defined.
