(* ===== verification/Dbuf.v ===== *)
(** * Doubling buffers (include/buffer/cc_dbuf.h, src/buffer/cc_dbuf.c)

    The resizing functions take the address of a pointer to a buffer: they are
    modelled as functions of the pointer that return its new value with the
    status.  [dst] is the module's state beside the one it shares with [Buf]
    (the live buffers, buf_init_size, buf_metrics and the allocator's answers).
    realloc is the C library's: its answer is the next one of the list, an
    address that is the old one or not in use. *)

From S2P Require Import Prelude Metric Mm Queue Pool Buf.
Local Open Scope Z_scope.

Definition DBUF_DEFAULT_MAX : Z := 8.

Record dbuf_module := DbufModule {
  dmem : qmem;
  dworld : buf_world;
  max_power : Z;
  max_size : Z;
  dbuf_metrics : metrics_st;
  dbuf_init : bool;
}.

Definition set_state (s : dbuf_module) (m : qmem) (w : buf_world) : dbuf_module :=
  DbufModule m w (max_power s) (max_size s) (dbuf_metrics s) (dbuf_init s).
Definition on_dmetrics (f : metrics_st -> metrics_st) (s : dbuf_module) : dbuf_module :=
  DbufModule (dmem s) (dworld s) (max_power s) (max_size s) (f (dbuf_metrics s)) (dbuf_init s).

(** The static initialisers. *)
Definition dbuf_static (m : qmem) (w : buf_world) : dbuf_module :=
  DbufModule m w DBUF_DEFAULT_MAX (u32 (Z.shiftl BUF_INIT_SIZE DBUF_DEFAULT_MAX)) None false.

(** A shift by 32 or more is undefined. *)
Definition dbuf_setup (options : option Z) (metrics : metrics_st) (s : dbuf_module)
  : option dbuf_module :=
  match options with
  | None => Some (DbufModule (dmem s) (dworld s) (max_power s) (max_size s) metrics true)
  | Some n =>
      let power := u8 n in
      if power <? 32 then
        Some (DbufModule (dmem s) (dworld s) power
                (u32 (Z.shiftl (buf_init_size (dworld s)) power)) metrics true)
      else None
  end.

Definition dbuf_teardown (s : dbuf_module) : dbuf_module :=
  DbufModule (dmem s) (dworld s) (max_power s) (max_size s) (dbuf_metrics s) false.

(** The next answer of realloc(p, size); answers realloc cannot give count as
    NULL. *)
Definition next_realloc (w : buf_world) (p : positive) (size : Z)
  : option (positive * list byte) * buf_world :=
  match answers w with
  | [] => (None, w)
  | a :: rest =>
      (match a with
       | Some (q, g) =>
           if decide ((q = p \/ bufs w !! q = None) /\ zlen g = size) then a else None
       | None => None
       end,
       BufWorld (bufs w) rest (buf_init_size w) (buf_metrics w))
  end.

(** The bytes behind the header after realloc: the old ones as far as they fit,
    then whatever fresh memory holds. *)
Definition realloc_data (old g : list byte) (size : Z) : list byte :=
  take (Z.to_nat (size - BUF_HDR_SIZE)) old ++ drop (Z.to_nat (BUF_HDR_SIZE + zlen old)) g.

(** realloc(p, 0) frees the block and returns NULL (glibc). *)
Definition _dbuf_resize (s : dbuf_module) (p : positive) (nsize : Z)
  : option (Z * positive * dbuf_module) :=
  if max_size s <? nsize then Some (CC_ERROR, p, s) else
  let w := dworld s in
  b ← bufs w !! p;
  let osize := buf_size b in
  let roffset := u32 (rpos b) in
  let woffset := u32 (wpos b) in
  if nsize =? 0 then
    Some (CC_ENOMEM, p, set_state s (dmem s) (set_bufs w (delete p (bufs w))))
  else
  match next_realloc w p nsize with
  | (None, w) => Some (CC_ENOMEM, p, set_state s (dmem s) w)
  | (Some (q, g), w) =>
      let nbuf := Buf roffset woffset (nsize - BUF_HDR_SIZE) (bfree b)
                    (realloc_data (data b) g nsize) in
      let m := set_cell (dmem s) (NextOf q) (cell (dmem s) (NextOf p)) in
      let w := set_bufs w (<[q := nbuf]> (delete p (bufs w))) in
      let w := on_metrics (fun ms => INCR_N (DECR_N ms "buf_memory" osize) "buf_memory" nsize) w in
      Some (CC_OK, q, set_state s m w)
  end.

(** Count the outcome of a resize. *)
Definition note (ok ex : string) (r : Z * positive * dbuf_module) : Z * positive * dbuf_module :=
  let '(status, p, s) := r in
  (status, p, on_dmetrics (fun ms => INCR ms (if status =? CC_OK then ok else ex)) s).

Definition dbuf_double (s : dbuf_module) (p : positive) : option (Z * positive * dbuf_module) :=
  b ← bufs (dworld s) !! p;
  let nsize := u32 (buf_size b * 2) in
  r ← _dbuf_resize s p nsize;
  Some (note "dbuf_double" "dbuf_double_ex" r).

(** while (nsize < cap + BUF_HDR_SIZE) nsize *= 2; the sum is a size_t, nsize a
    uint32_t.  [None] when [fuel] iterations do not end it. *)
Fixpoint grow (fuel : nat) (nsize target : Z) : option Z :=
  if nsize <? target then
    match fuel with
    | O => None
    | S fuel => grow fuel (u32 (nsize * 2)) target
    end
  else Some nsize.

Definition dbuf_fit (fuel : nat) (s : dbuf_module) (p : positive) (cap : Z)
  : option (Z * positive * dbuf_module) :=
  let w := dworld s in
  b ← bufs w !! p;
  if cap <? buf_rsize b then Some (CC_ERROR, p, s) else
  b ← buf_lshift b;
  let s := set_state s (dmem s) (set_bufs w (<[p := b]> (bufs w))) in
  nsize ← grow fuel (buf_init_size w) (cap + BUF_HDR_SIZE);
  if negb (nsize =? buf_size b) then
    r ← _dbuf_resize s p nsize;
    Some (note "dbuf_fit" "dbuf_fit_ex" r)
  else Some (CC_OK, p, s).

Definition dbuf_shrink (fuel : nat) (s : dbuf_module) (p : positive)
  : option (Z * positive * dbuf_module) :=
  let w := dworld s in
  b ← bufs w !! p;
  let cap := buf_rsize b in
  b ← buf_lshift b;
  let s := set_state s (dmem s) (set_bufs w (<[p := b]> (bufs w))) in
  nsize ← grow fuel (buf_init_size w) (cap + BUF_HDR_SIZE);
  if negb (nsize =? buf_size b) then
    r ← _dbuf_resize s p nsize;
    Some (note "dbuf_shrink" "dbuf_shrink_ex" r)
  else Some (CC_OK, p, s).

(** ** The growth loop *)

Section Grow.

(** [n] is the least [init * 2^k] that reaches the target. *)
Definition least_double (init target n : Z) : Prop :=
  exists k, 0 <= k /\ n = init * 2 ^ k /\ target <= n /\ (k = 0 \/ n < 2 * target).

Lemma grow_ends fuel init target :
  0 < init -> target <= 2147483648 -> init <= 4294967295 -> target <= init * 2 ^ Z.of_nat fuel ->
  exists n, grow fuel init target = Some n /\ least_double init target n /\
    n <= Z.max init 4294967295.
Proof.
  revert init. induction fuel as [|fuel IH]; intros init Hi Ht Hm Hf; simpl; case_zcmp.
  - simpl in Hf. lia.
  - eexists. split; [done|]. split; [|lia]. exists 0. lia.
  - rewrite u32_small by lia.
    destruct (IH (init * 2)) as (n & E & (k & Hk & -> & Hn & Hd) & Hl); [lia..| |].
    { rewrite Nat2Z.inj_succ, Z.pow_succ_r in Hf by lia. lia. }
    eexists. split; [exact E|]. split; [|lia]. exists (k + 1).
    rewrite Z.pow_add_r by lia. change (2 ^ 1) with 2. split_and!; try lia.
    right. destruct Hd as [->|Hd]; lia.
  - eexists. split; [done|]. split; [|lia]. exists 0. lia.
Qed.

(** 32 iterations are enough for any positive initial size. *)
Lemma grow_32 init target :
  0 < init <= 4294967295 -> target <= 2147483648 ->
  exists n, grow 32 init target = Some n /\ least_double init target n /\ n <= 4294967295.
Proof.
  intros Hi Ht. destruct (grow_ends 32 init target) as (n & E & Hl & Hm); [lia..| |].
  - change (2 ^ Z.of_nat 32) with 4294967296. lia.
  - exists n. split_and!; [done..|lia].
Qed.

Lemma grow_zero fuel target : 0 < target -> grow fuel 0 target = None.
Proof. intros Ht. induction fuel as [|fuel IH]; simpl; case_zcmp; try lia; done. Qed.

(** From a power of two the size doubles to 2^31, wraps to 0 and stays there. *)
Lemma grow_diverges fuel k target :
  0 <= k <= 31 -> 2147483648 < target -> grow fuel (2 ^ k) target = None.
Proof.
  intros Hk Ht. revert k Hk. induction fuel as [|fuel IH]; intros k Hk; simpl.
  - assert (2 ^ k <= 2 ^ 31) by (apply Z.pow_le_mono_r; lia).
    change (2 ^ 31) with 2147483648 in *. case_zcmp; [done|lia].
  - assert (2 ^ k <= 2 ^ 31) by (apply Z.pow_le_mono_r; lia).
    change (2 ^ 31) with 2147483648 in *. case_zcmp; [|lia].
    destruct (decide (k = 31)) as [->|].
    + change (u32 (2 ^ 31 * 2)) with 0. apply grow_zero. lia.
    + assert (2 ^ k <= 2 ^ 30) by (apply Z.pow_le_mono_r; lia).
      change (2 ^ 30) with 1073741824 in *.
      assert (0 < 2 ^ k) by (apply Z.pow_pos_nonneg; lia).
      rewrite u32_small by lia. replace (2 ^ k * 2) with (2 ^ (k + 1)).
      * apply IH. lia.
      * rewrite Z.pow_add_r; lia.
Qed.

End Grow.

#[local] Opaque grow.

(** ** Resizing *)

Section Resize.
Implicit Types (s : dbuf_module) (b : buf) (p : positive).

(** What a resize to [nsize] does, by its status. *)
Inductive resized s p b nsize : Z -> positive -> dbuf_module -> Prop :=
| Resized_ok q b' s' :
    nsize <= max_size s -> (q = p \/ bufs (dworld s) !! q = None) ->
    content b' = content b -> wpos b' = wpos b -> bfree b' = bfree b ->
    buf_size b' = nsize -> buf_wf b' ->
    dmem s' = set_cell (dmem s) (NextOf q) (cell (dmem s) (NextOf p)) ->
    bufs (dworld s') = <[q := b']> (delete p (bufs (dworld s))) ->
    buf_init_size (dworld s') = buf_init_size (dworld s) ->
    buf_metrics (dworld s') =
      INCR_N (DECR_N (buf_metrics (dworld s)) "buf_memory" (buf_size b)) "buf_memory" nsize ->
    resized s p b nsize CC_OK q s'
| Resized_limit :
    max_size s < nsize -> resized s p b nsize CC_ERROR p s
| Resized_oom s' :
    nsize <= max_size s -> dmem s' = dmem s -> bufs (dworld s') = bufs (dworld s) ->
    buf_init_size (dworld s') = buf_init_size (dworld s) ->
    buf_metrics (dworld s') = buf_metrics (dworld s) ->
    resized s p b nsize CC_ENOMEM p s'.

Lemma realloc_keeps (d g : list byte) nsize off n :
  0 <= off -> 0 <= n -> off + n <= zlen d -> off + n <= nsize - BUF_HDR_SIZE ->
  slice (realloc_data d g nsize) off n = slice d off n.
Proof.
  intros Ho Hn Hd Hs. unfold realloc_data, slice, zlen in *.
  rewrite drop_app_le by (rewrite length_take; lia).
  rewrite take_app_le by (rewrite length_drop, length_take; lia).
  rewrite skipn_firstn_comm, take_take. f_equal. lia.
Qed.

Lemma zlen_realloc (d g : list byte) nsize :
  BUF_HDR_SIZE <= nsize -> zlen g = nsize -> zlen (realloc_data d g nsize) = nsize - BUF_HDR_SIZE.
Proof.
  unfold realloc_data, BUF_HDR_SIZE, zlen. intros Hn Hg.
  rewrite length_app, length_take, length_drop. lia.
Qed.

Lemma resize_spec s p b nsize :
  bufs (dworld s) !! p = Some b -> buf_wf b -> wpos b + BUF_HDR_SIZE <= nsize <= UINT32_MAX ->
  exists st q s', _dbuf_resize s p nsize = Some (st, q, s') /\ resized s p b nsize st q s'.
Proof.
  intros Hl Hwf Hn. pose proof Hwf as [H1 H2 H3 H4 H5]. unfold BUF_HDR_SIZE, UINT32_MAX in *.
  unfold _dbuf_resize. destruct (Z.ltb_spec (max_size s) nsize) as [Hm|Hm].
  { do 3 eexists. split; [done|]. by apply Resized_limit. }
  rewrite Hl. simpl. destruct (Z.eqb_spec nsize 0) as [|_]; [lia|].
  unfold next_realloc. destruct (answers (dworld s)) as [|[[q g]|] rest]; simpl.
  - do 3 eexists. split; [done|]. by apply Resized_oom.
  - case_decide as Hd; [|do 3 eexists; split; [done|]; by apply Resized_oom].
    destruct Hd as [Hq Hg]. do 3 eexists. split; [done|].
    rewrite !u32_small by lia. unfold BUF_HDR_SIZE.
    apply (Resized_ok s p b nsize q (Buf (rpos b) (wpos b) (nsize - 33) (bfree b)
      (realloc_data (data b) g nsize))); try done; simpl.
    + unfold content. simpl. apply realloc_keeps; unfold BUF_HDR_SIZE; lia.
    + unfold buf_size, BUF_HDR_SIZE. simpl. rewrite u32_small by lia. lia.
    + split; simpl; unfold BUF_HDR_SIZE, UINT32_MAX; try lia.
      apply zlen_realloc; unfold BUF_HDR_SIZE; lia.
  - do 3 eexists. split; [done|]. by apply Resized_oom.
Qed.

Lemma resize_max_size s p nsize st q s' :
  _dbuf_resize s p nsize = Some (st, q, s') -> max_size s' = max_size s.
Proof.
  unfold _dbuf_resize. destruct (_ <? _); [by intros [= _ _ <-]|].
  destruct (bufs (dworld s) !! p); simpl; [|done].
  destruct (_ =? 0); [by intros [= _ _ <-]|].
  destruct (next_realloc _ _ _) as [[[]|] ?]; by intros [= _ _ <-].
Qed.

(** A live, well-formed buffer is still there after a resize, with the same
    unread bytes. *)
Lemma resized_content s p b nsize st q s' :
  bufs (dworld s) !! p = Some b -> buf_wf b -> resized s p b nsize st q s' ->
  exists b', bufs (dworld s') !! q = Some b' /\ content b' = content b /\ buf_wf b' /\
    buf_size b' = (if st =? CC_OK then nsize else buf_size b) /\ rpos b' = rpos b.
Proof.
  intros Hl Hwf Hr. destruct Hr as [q b' s' ? ? Hc Hw ? ? Hwf' ? Hb| |s' ? ? Hb].
  - exists b'. rewrite Hb, lookup_insert_eq. split_and!; try done.
    pose proof (content_length b Hwf). pose proof (content_length b' Hwf'). rewrite Hc in *. lia.
  - by exists b.
  - exists b. by rewrite Hb.
Qed.

Lemma note_world ok ex st q s' :
  exists s'', note ok ex (st, q, s') = (st, q, s'') /\ dworld s'' = dworld s' /\
    dmem s'' = dmem s'.
Proof. eexists. split; [done|]. done. Qed.

End Resize.

(** ** Resizing a pooled buffer

    [dbuf] works on the buffers the pool of [Buf] has handed out; [with_dbuf]
    is the state of that module after a resizing function ran. *)
Definition with_dbuf (bm : buf_module) (s : dbuf_module) : buf_module :=
  BufModule (PState (dmem s) (ctl (bufp bm)) (dworld s)) (buf_init bm) (bufp_init bm).

Definition rename (p q : positive) (l : list positive) : list positive :=
  map (fun y => if decide (y = p) then q else y) l.

Section Pooled.
Implicit Types (s : dbuf_module) (b : buf) (p q : positive) (bm : buf_module).

Lemma rename_id p l : rename p p l = l.
Proof. induction l as [|y l IH]; simpl; [done|]. rewrite IH. by case_decide; subst. Qed.

Lemma rename_elem p q l x : p ∈ l -> x ∈ rename p q l <-> x = q \/ (x ∈ l /\ x ≠ p).
Proof.
  intros Hp. unfold rename. rewrite list_elem_of_fmap. split.
  - intros (y & -> & Hy). case_decide; [by left|by right].
  - intros [->|[Hx Hne]]; [exists p|exists x]; by case_decide.
Qed.

Lemma rename_nodup p q l : NoDup l -> (q = p \/ q ∉ l) -> NoDup (rename p q l).
Proof.
  intros Hnd [->|Hq]; [by rewrite rename_id|]. apply NoDup_fmap_2_strong; [|done].
  intros x y Hx Hy. repeat case_decide; subst; naive_solver.
Qed.

(** The gauges follow a buffer whose address and size change. *)
Lemma resized_accounted w w' n p q b b' nsize :
  accounted w n -> bufs w !! p = Some b -> delete p (bufs w) !! q = None -> buf_size b' = nsize -> buf_wf b' ->
  bufs w' = <[q := b']> (delete p (bufs w)) ->
  buf_metrics w' = INCR_N (DECR_N (buf_metrics w) "buf_memory" (buf_size b)) "buf_memory" nsize ->
  accounted w' n.
Proof.
  intros Ha Hl Hq0 Hsz Hwf' Hbs Hms.
  assert (Hsz' : buf_size b = bend b + BUF_HDR_SIZE) by (apply size_eq; by apply (ac_wf _ _ Ha p)).
  rewrite size_eq in Hsz by done. destruct Ha as [H1 H2 H3 H4]. split; rewrite ?Hms.
  - eapply eq_trans; [gauge|]. rewrite Hbs, map_size_insert_None by done.
    rewrite map_size_delete_Some by done. do 3 f_equal.
    assert (size (bufs w) ≠ 0%nat) by (apply map_size_non_empty_iff; intros E; by rewrite E in Hl).
    lia.
  - gauge.
  - eapply eq_trans; [gauge|]. rewrite Hbs, total_insert by done.
    rewrite (total_delete _ _ _ Hl), i64_add_l. f_equal.
    match goal with |- i64 (i64 ?x - ?a + ?n) = _ =>
      replace (i64 x - a + n) with (i64 x + (n - a)) by lia end.
    rewrite i64_add_l. f_equal. lia.
  - rewrite Hbs. apply map_Forall_insert_2; [done|]. by apply map_Forall_delete.
Qed.

(** The pool's bookkeeping follows a buffer whose address and size change. *)
Lemma resized_inv bm used s p b nsize st q s' :
  buf_inv bm used -> p ∈ used -> dmem s = mem (bufp bm) -> dworld s = world (bufp bm) ->
  bufs (dworld s) !! p = Some b -> resized s p b nsize st q s' ->
  buf_inv (with_dbuf bm s') (rename p q used).
Proof.
  intros [(free & Hr & Hdom) Ha Hs Hb] Hp Hm Hw Hl Hres.
  destruct Hr as [Hq Hf Hu Hmx Hi Hnd Hlv Hsub].
  destruct Hres as [q b' s' Hmax Hqp Hc Hwp Hfr Hsz Hwf' Hmem Hbs Hisz Hms| Hmax |s' Hmax Hmem Hbs Hisz Hms].
  2: { rewrite rename_id. split; simpl; rewrite ?Hm, ?Hw; [|done..].
       exists free. split; [|done]. by split. }
  2: { rewrite rename_id. rewrite Hw in *. split; simpl.
       - exists free. rewrite Hbs, Hmem, Hm. split; [|done]. split; simpl; try done. by rewrite Hbs.
       - destruct Ha as [? ? ? ?]. split; rewrite ?Hms, ?Hbs; done.
       - unfold size_ok. by rewrite Hisz.
       - intros x Hx. rewrite Hbs. by apply Hb. }
  rewrite Hw in *. rewrite Hm in *.
  assert (Hqf : q ∉ free).
  { destruct Hqp as [->|Hq0].
    - apply NoDup_app in Hnd as (_ & Hnd & _). intros Hin. by apply (Hnd p).
    - intros Hin. apply not_elem_of_dom in Hq0. apply Hq0. rewrite Hdom. set_solver. }
  assert (Hqu : q = p \/ q ∉ used).
  { destruct Hqp as [->|Hq0]; [by left|right]. intros Hin. apply not_elem_of_dom in Hq0.
    apply Hq0. rewrite Hdom. set_solver. }
  assert (Hlen : zlen (rename p q used) = zlen used) by (unfold zlen, rename; by rewrite length_map).
  assert (Hq0 : delete p (bufs (world (bufp bm))) !! q = None).
  { destruct Hqp as [->|Hq0]; [apply lookup_delete_eq|].
    rewrite lookup_delete_ne; [done|]. intros ->. congruence. }
  assert (Hdom' : dom (bufs (dworld s')) = list_to_set (free ++ rename p q used)).
  { rewrite Hbs, dom_insert_L, dom_delete_L, Hdom. apply set_eq. intros x.
    assert (p ∉ free) by (intros Hin; apply NoDup_app in Hnd as (_ & Hnd & _); by apply (Hnd p)).
    rewrite elem_of_union, elem_of_difference, !elem_of_list_to_set, !elem_of_app, rename_elem by done.
    rewrite !elem_of_singleton. destruct (decide (x = p)) as [->|]; tauto. }
  split; simpl.
  - exists free. split; [|done]. split; simpl; rewrite ?Hlen; try done.
    + rewrite Hmem. by apply stailq_set_next.
    + apply NoDup_app in Hnd as (? & Hd & ?). apply NoDup_app. split_and!; [done| |].
      * intros x Hx [->|[Hxu _]]%rename_elem; [done|by apply (Hd x)|done].
      * by apply rename_nodup.
    + by rewrite Hdom'.
  - rewrite Hlen. by apply (resized_accounted (world (bufp bm)) _ _ p q b b' nsize).
  - unfold size_ok. by rewrite Hisz.
  - intros x Hx. apply rename_elem in Hx; [|done]. rewrite Hbs.
    destruct (decide (x = q)) as [->|].
    + rewrite lookup_insert_eq. exists b'. split; [done|]. rewrite Hfr.
      destruct (Hb p Hp) as (b0 & Hb0 & ?). congruence.
    + destruct Hx as [?|[Hx Hxp]]; [done|].
      rewrite lookup_insert_ne, lookup_delete_ne by done. by apply Hb.
Qed.

(** The state a resizing function starts from: [s] shares the memory, the
    buffers and the metrics of the pool, and [p] is a borrowed buffer. *)
Record holds bm used s p b : Prop := {
  h_inv : buf_inv bm used;
  h_mem : dmem s = mem (bufp bm);
  h_world : dworld s = world (bufp bm);
  h_used : p ∈ used;
  h_live : bufs (dworld s) !! p = Some b;
}.

Lemma holds_wf bm used s p b : holds bm used s p b -> buf_wf b.
Proof. intros [Hi _ Hw _ Hl]. rewrite Hw in Hl. by apply (ac_wf _ _ (bi_acct _ _ Hi) p). Qed.

(** Shifting the buffer first. *)
Lemma holds_lshift bm used s p b :
  holds bm used s p b ->
  exists b1 bm1, buf_lshift b = Some b1 /\ content b1 = content b /\
    wpos b1 = buf_rsize b /\ rpos b1 = 0 /\ bend b1 = bend b /\
    holds bm1 used (set_state s (dmem s) (set_bufs (dworld s) (<[p := b1]> (bufs (dworld s)))))
      p b1 /\
    (forall s', with_dbuf bm1 s' = with_dbuf bm s').
Proof.
  intros H. pose proof (holds_wf _ _ _ _ _ H) as Hwf. destruct H as [Hi Hm Hw Hu Hl].
  destruct (lshift_spec b Hwf) as (b1 & E & Hc & Hwf1 & Hr & He & Hfr).
  exists b1, (buf_edit bm p (fun b => default b (buf_lshift b))).
  assert (Hw1 : wpos b1 = buf_rsize b).
  { rewrite rsize_eq, <- Hc, content_length by done. lia. }
  split_and!; try done. split; simpl; [|done| |done|].
  - apply edit_inv; [done..|]. intros b2 Hwf2.
    destruct (lshift_spec b2 Hwf2) as (b3 & -> & ? & ? & ? & ? & ?). done.
  - rewrite Hw. unfold upd_buf. f_equal. rewrite Hw in Hl.
    apply map_eq. intros x. destruct (decide (x = p)) as [->|].
    + rewrite lookup_insert_eq, lookup_alter_eq, Hl. simpl. by rewrite E.
    + by rewrite lookup_insert_ne, lookup_alter_ne.
  - apply lookup_insert_eq.
Qed.

(** The tail dbuf_fit and dbuf_shrink share. *)
Lemma refit_spec bm used s p b cap ok ex :
  holds bm used s p b -> wpos b <= cap -> cap + BUF_HDR_SIZE <= 2147483648 ->
  exists st q s' b',
    (nsize ← grow 32 (buf_init_size (dworld s)) (cap + BUF_HDR_SIZE);
     if negb (nsize =? buf_size b) then
       r ← _dbuf_resize s p nsize; Some (note ok ex r)
     else Some (CC_OK, p, s)) = Some (st, q, s') /\
    buf_inv (with_dbuf bm s') (rename p q used) /\
    bufs (dworld s') !! q = Some b' /\ content b' = content b /\ buf_wf b' /\
    (st = CC_OK -> least_double (buf_init_size (dworld s)) (cap + BUF_HDR_SIZE) (buf_size b')) /\
    (st ≠ CC_OK -> buf_size b' = buf_size b) /\ rpos b' = rpos b.
Proof.
  intros H Hcap Htg. pose proof (holds_wf _ _ _ _ _ H) as Hwf. destruct H as [Hi Hm Hw Hu Hl].
  pose proof (bi_size _ _ Hi) as Hsz. rewrite <- Hw in Hsz.
  unfold size_ok, BUF_HDR_SIZE, UINT32_MAX in Hsz.
  destruct (grow_32 (buf_init_size (dworld s)) (cap + BUF_HDR_SIZE)) as (n & -> & Hld & Hn);
    [lia|done|]. simpl.
  assert (Hlow : cap + BUF_HDR_SIZE <= n) by (destruct Hld as (? & ? & ? & ? & ?); lia).
  destruct (Z.eqb_spec n (buf_size b)) as [->|Hne]; simpl.
  - do 4 eexists. split; [done|]. rewrite rename_id. split_and!; try done.
    unfold with_dbuf. rewrite Hm, Hw. by destruct bm as [[]].
  - destruct (resize_spec s p b n Hl Hwf) as (st & q & s' & -> & Hres);
      [unfold UINT32_MAX; lia|]. simpl.
    destruct (resized_content _ _ _ _ _ _ _ Hl Hwf Hres) as (b' & Hl' & Hc' & Hwf' & Hs' & Hrp').
    do 4 eexists. split; [done|]. split; [|split; [exact Hl'|]].
    + exact (resized_inv bm used s p b n st q s' Hi Hu Hm Hw Hl Hres).
    + split_and!; [done|done| | |done].
      * intros ->. simpl in Hs'. by rewrite Hs'.
      * intros Hst. rewrite Hs'. by rewrite (proj2 (Z.eqb_neq _ _) Hst).
Qed.

End Pooled.

(** ** Properties *)

(** Doubling a borrowed buffer of less than 2 GiB either doubles
    its size, possibly at a new address, with the unread bytes kept, or fails
    and leaves it as it is: CC_ERROR exactly when the doubled size exceeds the
    limit, CC_ENOMEM when realloc fails.  In all cases the pool's invariant and
    its gauges hold afterwards for the new pointer. *)
Theorem dbuf_double_spec (bm : buf_module) (used : list positive) (s : dbuf_module)
    (p : positive) (b : buf) :
  holds bm used s p b -> buf_size b < 2147483648 ->
  exists st q s' b',
    dbuf_double s p = Some (st, q, s') /\
    buf_inv (with_dbuf bm s') (rename p q used) /\
    bufs (dworld s') !! q = Some b' /\ content b' = content b /\ buf_wf b' /\
    buf_size b' = (if st =? CC_OK then 2 * buf_size b else buf_size b) /\
    (st = CC_ERROR <-> max_size s < 2 * buf_size b) /\
    (st ≠ CC_OK -> q = p /\ bufs (dworld s') = bufs (dworld s)).
Proof.
  intros H Hsz. pose proof (holds_wf _ _ _ _ _ H) as Hwf. destruct H as [Hi Hm Hw Hu Hl].
  pose proof (size_eq b Hwf) as Hse. pose proof Hwf as [H1 H2 H3 H4 H5].
  unfold BUF_HDR_SIZE in Hse. unfold dbuf_double. rewrite Hl. simpl. rewrite u32_small by lia.
  destruct (resize_spec s p b (buf_size b * 2) Hl Hwf) as (st & q & s' & -> & Hres);
    [unfold BUF_HDR_SIZE, UINT32_MAX; lia|]. simpl.
  destruct (resized_content _ _ _ _ _ _ _ Hl Hwf Hres) as (b' & Hl' & Hc' & Hwf' & Hs' & Hrp').
  pose proof (resized_inv bm used s p b _ st q s' Hi Hu Hm Hw Hl Hres) as Hinv.
  do 4 eexists. split; [done|]. split_and!; [exact Hinv|exact Hl'|done|done| | |].
  - rewrite Hs'. destruct (st =? CC_OK); lia.
  - destruct Hres; unfold CC_OK, CC_ERROR, CC_ENOMEM; split; lia.
  - destruct Hres; simpl; [by intros []|done|done].
Qed.

(** C21: fitting a borrowed buffer to [cap] bytes ends (32 doublings are
    enough when [cap] and the header stay within 2^31 bytes).  It refuses a
    [cap] below the number of unread bytes, and then changes nothing; otherwise it moves
    the unread bytes to the front, whatever the outcome (rpos is 0 and wpos their number);
    on success the size is the least doubling of the initial size that holds [cap] bytes,
    on failure it is the old one.  The unread bytes survive every outcome, and the
    pool's invariant and gauges hold for the new pointer. *)
Theorem dbuf_fit_spec (bm : buf_module) (used : list positive) (s : dbuf_module)
    (p : positive) (b : buf) (cap : Z) :
  holds bm used s p b -> 0 <= cap -> cap + BUF_HDR_SIZE <= 2147483648 ->
  exists st q s' b',
    dbuf_fit 32 s p cap = Some (st, q, s') /\
    buf_inv (with_dbuf bm s') (rename p q used) /\
    bufs (dworld s') !! q = Some b' /\ content b' = content b /\ buf_wf b' /\
    (cap < buf_rsize b -> st = CC_ERROR /\ b' = b) /\
    (buf_rsize b <= cap -> rpos b' = 0 /\ wpos b' = buf_rsize b /\
       (st ≠ CC_OK -> buf_size b' = buf_size b)) /\
    (st = CC_OK -> cap <= buf_capacity b' /\
       least_double (buf_init_size (dworld s)) (cap + BUF_HDR_SIZE) (buf_size b')).
Proof.
  intros H Hc Ht. pose proof (holds_wf _ _ _ _ _ H) as Hwf. unfold dbuf_fit.
  rewrite (h_live _ _ _ _ _ H). simpl. destruct (Z.ltb_spec cap (buf_rsize b)) as [Hlt|Hge].
  - do 4 eexists. split; [done|]. rewrite rename_id. split_and!;
      [|by apply H|done|done|done|lia|intros [=]].
    destruct H as [Hi Hm Hw _ _]. unfold with_dbuf. rewrite Hm, Hw. by destruct bm as [[]].
  - destruct (holds_lshift _ _ _ _ _ H) as (b1 & bm1 & -> & Hct & Hw1 & Hr1 & He & H1 & Hwd). simpl.
    destruct (refit_spec bm1 used _ p b1 cap "dbuf_fit" "dbuf_fit_ex" H1)
      as (st & q & s' & b' & E & Hinv & Hl' & Hc' & Hwf' & Hok & Hex & Hrp); [lia|done|].
    simpl in E. exists st, q, s', b'. split; [exact E|]. rewrite Hwd in Hinv.
    split_and!; [done|done|congruence|done|lia| |].
    { intros _. rewrite Hrp, Hr1. split; [done|]. split.
      - rewrite (rsize_eq b), <- Hct, <- Hc', content_length by done. lia.
      - intros Hst. rewrite (Hex Hst). unfold buf_size. by rewrite He. }
    intros Hst. specialize (Hok Hst).
    split; [|done]. destruct Hok as (k & _ & _ & Hle & _). rewrite size_eq in Hle by done.
    destruct Hwf' as [? ? ? ? ?]. unfold buf_capacity, BUF_HDR_SIZE, UINT32_MAX in *.
    rewrite u32_small; lia.
Qed.

(** Shrinking a borrowed buffer of at most 2 GiB ends, keeps the
    unread bytes on every outcome, and on success leaves the least doubling of
    the initial size that holds them: the initial size itself when they fit. *)
Theorem dbuf_shrink_spec (bm : buf_module) (used : list positive) (s : dbuf_module)
    (p : positive) (b : buf) :
  holds bm used s p b -> buf_size b <= 2147483648 ->
  exists st q s' b',
    dbuf_shrink 32 s p = Some (st, q, s') /\
    buf_inv (with_dbuf bm s') (rename p q used) /\
    bufs (dworld s') !! q = Some b' /\ content b' = content b /\ buf_wf b' /\
    (st = CC_OK ->
       least_double (buf_init_size (dworld s)) (zlen (content b) + BUF_HDR_SIZE) (buf_size b')) /\
    (st ≠ CC_OK -> buf_size b' = buf_size b).
Proof.
  intros H Hsz. pose proof (holds_wf _ _ _ _ _ H) as Hwf. unfold dbuf_shrink.
  rewrite (h_live _ _ _ _ _ H). simpl.
  destruct (holds_lshift _ _ _ _ _ H) as (b1 & bm1 & -> & Hct & Hw1 & Hr1 & He & H1 & Hwd). simpl.
  pose proof (size_eq b Hwf) as Hse. pose proof Hwf as [? ? ? ? ?].
  assert (Hrs : buf_rsize b = wpos b - rpos b) by (rewrite rsize_eq, content_length; done).
  destruct (refit_spec bm1 used _ p b1 (buf_rsize b) "dbuf_shrink" "dbuf_shrink_ex" H1)
    as (st & q & s' & b' & E & Hinv & Hl' & Hc' & Hwf' & Hok & Hex & _);
    [lia|unfold BUF_HDR_SIZE in *; lia|].
  simpl in E. exists st, q, s', b'. split; [exact E|]. rewrite Hwd in Hinv.
  split_and!; [done|done|congruence|done| |].
  - intros Hst. rewrite <- rsize_eq by done. by apply Hok.
  - intros Hst. rewrite (Hex Hst). unfold buf_size. by rewrite He.
Qed.

(** With an initial size that is a power of two (as the default
    is), dbuf_fit never returns when the capacity and the header exceed 2^31
    bytes: the uint32_t size wraps to 0 and the loop runs forever. *)
Theorem dbuf_fit_diverges (fuel : nat) (s : dbuf_module) (p : positive) (b : buf) (cap k : Z) :
  bufs (dworld s) !! p = Some b -> buf_wf b -> buf_rsize b <= cap ->
  buf_init_size (dworld s) = 2 ^ k -> 0 <= k <= 31 -> 2147483648 < cap + BUF_HDR_SIZE ->
  dbuf_fit fuel s p cap = None.
Proof.
  intros Hl Hwf Hc Hi Hk Ht. unfold dbuf_fit. rewrite Hl. simpl.
  destruct (Z.ltb_spec cap (buf_rsize b)); [lia|].
  destruct (lshift_spec b Hwf) as (b1 & -> & _). simpl.
  by rewrite Hi, grow_diverges.
Qed.

(** A pool of one 40-byte buffer that holds the bytes 4 and 5 and is borrowed;
    realloc will grant 80 bytes at another address. *)
Definition sample_buf : buf := Buf 1 3 7 false [9; 4; 5; 0; 0; 0; 0].

Definition sample_world : buf_world :=
  BufWorld {[1%positive := sample_buf]} [Some (2%positive, replicate 80 0)] 40
    (INCR_N (INCR (INCR buf_metrics0 "buf_curr") "buf_active") "buf_memory" 40).

Definition sample_module : buf_module :=
  BufModule (PState (Stailq.STAILQ_INIT qmem_empty 1) (Pool 1 0 1 2 true) sample_world) true true.

Definition sample_dbuf : dbuf_module :=
  DbufModule (Stailq.STAILQ_INIT qmem_empty 1) sample_world 8 10240 None true.

Lemma sample_holds : holds sample_module [1%positive] sample_dbuf 1 sample_buf.
Proof.
  split; [|reflexivity|reflexivity|set_solver|reflexivity]. split.
  - exists []. split; [|by simpl; rewrite dom_singleton_L; set_solver].
    split; try reflexivity.
    + apply Stailq.init_spec.
    + vm_compute. split; congruence.
    + apply NoDup_singleton.
  - split; [vm_compute; reflexivity..|]. intros p b Hl. simpl in Hl.
    apply lookup_singleton_Some in Hl as [_ <-]. split; vm_compute; congruence.
  - vm_compute. split; congruence.
  - intros x Hx. apply list_elem_of_singleton in Hx as ->. exists sample_buf. by split.
Qed.

Lemma dbuf_double_spec_witness :
  exists q s' b', dbuf_double sample_dbuf 1 = Some (CC_OK, q, s') /\
    bufs (dworld s') !! q = Some b' /\ content b' = [4; 5] /\ buf_size b' = 80.
Proof.
  destruct (dbuf_double_spec sample_module [1%positive] sample_dbuf 1 sample_buf sample_holds)
    as (st & q & s' & b' & E & _ & Hl & Hc & _ & Hs & _); [vm_compute; reflexivity|].
  assert (st = CC_OK) as -> by (vm_compute in E; injection E; intros; subst; reflexivity).
  exists q, s', b'. split; [exact E|]. split; [exact Hl|]. split; [exact Hc|exact Hs].
Defined.

Lemma dbuf_fit_spec_witness :
  exists q s' b', dbuf_fit 32 sample_dbuf 1 40 = Some (CC_OK, q, s') /\
    bufs (dworld s') !! q = Some b' /\ content b' = [4; 5] /\ rpos b' = 0 /\ 40 <= buf_capacity b'.
Proof.
  destruct (dbuf_fit_spec sample_module [1%positive] sample_dbuf 1 sample_buf 40 sample_holds)
    as (st & q & s' & b' & E & _ & Hl & Hc & _ & _ & Hfr & Hok); [lia|unfold BUF_HDR_SIZE; lia|].
  assert (st = CC_OK) as -> by (vm_compute in E; injection E; intros; subst; reflexivity).
  exists q, s', b'. split; [exact E|]. split; [exact Hl|]. split; [exact Hc|].
  split; [apply Hfr; vm_compute; congruence|by apply Hok].
Defined.

Lemma dbuf_shrink_spec_witness :
  exists st q s' b', dbuf_shrink 32 sample_dbuf 1 = Some (st, q, s') /\
    bufs (dworld s') !! q = Some b' /\ content b' = [4; 5].
Proof.
  destruct (dbuf_shrink_spec sample_module [1%positive] sample_dbuf 1 sample_buf sample_holds)
    as (st & q & s' & b' & E & _ & Hl & Hc & _); [vm_compute; congruence|].
  exists st, q, s', b'. split; [exact E|]. split; [exact Hl|exact Hc].
Defined.

Lemma dbuf_fit_diverges_witness :
  dbuf_fit 1000 (set_state sample_dbuf qmem_empty
    (BufWorld (bufs sample_world) [] 16384 None)) 1 2147483616 = None.
Proof.
  apply (dbuf_fit_diverges 1000 _ 1 sample_buf 2147483616 14);
    [reflexivity|split; vm_compute; congruence|vm_compute; congruence|reflexivity|lia
    |unfold BUF_HDR_SIZE; lia].
Defined.
