(* ===== verification/Array.v ===== *)
(** * Growable arrays (include/cc_array.h, src/cc_array.c)

    [array] is the struct; [data] is the block it points to, [None] for NULL, and
    a pointer to an element is its byte offset in that block.  The answers of
    malloc and realloc (the bytes of the fresh block, [None] for NULL) are
    arguments of the functions that allocate, and have the size asked for.  [elements] is the abstract value:
    the list of the element's byte strings. *)

From S2P Require Import Prelude Mm.
Local Open Scope Z_scope.

Definition NELEM_DELTA : Z := 16.

Record array := Array { size : Z; nalloc : Z; nelem : Z; data : option (list byte) }.

Record array_module := ArrayModule { array_init : bool; max_nelem_delta : Z }.

Definition array_setup (options : option Z) (m : array_module) : array_module :=
  ArrayModule true (match options with Some n => u32 n | None => max_nelem_delta m end).

Definition array_teardown (m : array_module) : array_module :=
  ArrayModule false (max_nelem_delta m).

Definition array_size (arr : array) : Z := size arr.
Definition array_nalloc (arr : array) : Z := nalloc arr.
Definition array_nelem (arr : array) : Z := nelem arr.
Definition array_nfree (arr : array) : Z := u32 (nalloc arr - nelem arr).

Definition array_reset (arr : array) : array := Array 0 0 0 None.

Definition array_data_assign (arr : array) (n sz : Z) (d : list byte) : array :=
  Array sz n 0 (Some d).

(** elem - data is a ptrdiff_t divided by a size_t: an unsigned division, whose
    result is converted to int. *)
Definition array_locate (arr : array) (elem : Z) : Z :=
  let idx := i32 (u64 elem / size arr) in
  if (idx <? 0) || negb (u64 (u64 idx * size arr) =? u64 elem) then -1 else idx.

Definition array_get (arr : array) (idx : Z) : Z := size arr * idx.
Definition array_first (arr : array) : Z := array_get arr 0.
Definition array_last (arr : array) : Z := array_get arr (u32 (nelem arr - 1)).

(** A block of [nbyte] bytes: a block of another size is no answer to a request for
    [nbyte] bytes and counts as NULL. *)
Definition block_of (nbyte : Z) (p : option (list byte)) : option (list byte) :=
  g ← p; if zlen g =? nbyte then Some g else None.

(** [p]: the block malloc returns. *)
Definition array_data_create (arr : array) (n sz : Z) (p : option (list byte)) : Z * array :=
  let nbyte := u64 (n * sz) in
  match cc_alloc nbyte (block_of nbyte p) with
  | None => (CC_ENOMEM, Array (size arr) (nalloc arr) (nelem arr) None)
  | Some d => (CC_OK, Array sz n 0 (Some d))
  end.

Definition array_data_destroy (arr : array) : array := arr.

(** [a]: the block for the struct, with whatever its fields hold. *)
Definition array_create (n sz : Z) (a : option array) (p : option (list byte))
  : Z * option array :=
  match a with
  | None => (CC_ENOMEM, None)
  | Some arr =>
      let '(ret, arr) := array_data_create arr n sz p in
      if negb (ret =? CC_OK) then (ret, None) else (CC_OK, Some arr)
  end.

Definition array_destroy (arr : option array) : option array := None.

(** realloc(old, nbyte): [r] is the block it returns, of [nbyte] bytes, of which it
    fills the first with those of the old block. *)
Definition realloc_bytes (old : option (list byte)) (nbyte : Z) (r : option (list byte))
  : option (list byte) :=
  g ← block_of nbyte r;
  Some (match old with
        | None => g
        | Some d => take (Z.to_nat nbyte) d ++ drop (length d) g
        end).

(** The new allocation; it is also what realloc is asked for. *)
Definition expanded (m : array_module) (arr : array) : Z :=
  if max_nelem_delta m <=? nalloc arr then u32 (nalloc arr + max_nelem_delta m)
  else u32 (nalloc arr * 2).

Definition _array_expand (m : array_module) (arr : array) (r : option (list byte)) : Z * array :=
  let n := expanded m arr in
  let nbyte := u64 (n * size arr) in
  match realloc_bytes (data arr) nbyte r with
  | None => (CC_ERROR, arr)
  | Some d => (CC_OK, Array (size arr) n (nelem arr) (Some d))
  end.

Definition array_push (m : array_module) (arr : array) (r : option (list byte))
  : option Z * array :=
  let '(status, arr) :=
    if nelem arr =? nalloc arr then _array_expand m arr r else (CC_OK, arr) in
  if negb (status =? CC_OK) then (None, arr) else
  let arr := Array (size arr) (nalloc arr) (u32 (nelem arr + 1)) (data arr) in
  (Some (array_last arr), arr).

Definition array_pop (arr : array) : Z * array :=
  (array_get arr (u32 (nelem arr - 1)),
   Array (size arr) (nalloc arr) (u32 (nelem arr - 1)) (data arr)).

(** *elem = v and *elem through a pointer to an element. *)
Definition array_store (arr : array) (elem : Z) (v : list byte) : option array :=
  d ← data arr; d ← memwrite d elem v;
  Some (Array (size arr) (nalloc arr) (nelem arr) (Some d)).

Definition array_load (arr : array) (elem : Z) : option (list byte) :=
  d ← data arr; memread d elem (size arr).

Section Each.
Context {S : Type} (func : list byte -> S -> Z * list byte * S).

(** The for loop from index [i]; the callback sees the element's bytes and may
    change them and [arg].  Returns the array, [arg], *err if it was set, and
    the index. *)
Fixpoint each_loop (fuel : nat) (arr : array) (i n : Z) (arg : S)
  : option (Z * option Z * array * S) :=
  if i <? n then
    match fuel with
    | O => None
    | Datatypes.S fuel =>
        let elem := array_get arr i in
        v ← array_load arr elem;
        let '(status, v, arg) := func v arg in
        arr ← array_store arr elem v;
        if negb (status =? CC_OK) then Some (i, Some status, arr, arg)
        else each_loop fuel arr (u32 (i + 1)) n arg
    end
  else Some (n, None, arr, arg).

Definition array_each (fuel : nat) (arr : array) (arg : S)
  : option (Z * option Z * array * S) :=
  each_loop fuel arr 0 (nelem arr) arg.

End Each.

(** ** The abstract value *)

Definition elem_at (arr : array) (d : list byte) (i : nat) : list byte :=
  slice d (size arr * Z.of_nat i) (size arr).

Definition elements (arr : array) : list (list byte) :=
  match data arr with
  | None => []
  | Some d => map (elem_at arr d) (seq 0 (Z.to_nat (nelem arr)))
  end.

(** qsort, the C library's, as a function on the elements. *)
Definition array_sort (qsort : list (list byte) -> list (list byte)) (arr : array) : array :=
  let els := qsort (elements arr) in
  Array (size arr) (nalloc arr) (nelem arr)
    (d ← data arr; Some (concat els ++ drop (Z.to_nat (nelem arr * size arr)) d)).

Record array_wf (arr : array) (d : list byte) : Prop := {
  aw_data : data arr = Some d;
  aw_size : 0 < size arr;
  aw_nelem : 0 <= nelem arr <= nalloc arr;
  aw_nalloc : nalloc arr < 4294967296;
  aw_len : zlen d = nalloc arr * size arr;
  aw_max : nalloc arr * size arr <= INT64_MAX;
}.

Section Lemmas.
Implicit Types (arr : array) (d v : list byte).

Ltac awf H := destruct H as [Hd Hs Hn Ha Hl Hm]; unfold INT64_MAX in Hm.

Lemma elements_eq arr d :
  data arr = Some d -> elements arr = map (elem_at arr d) (seq 0 (Z.to_nat (nelem arr))).
Proof. unfold elements. by intros ->. Qed.

Lemma elements_length arr d : array_wf arr d -> zlen (elements arr) = nelem arr.
Proof. intros H; awf H. rewrite (elements_eq _ _ Hd). unfold zlen. rewrite length_map, length_seq. lia. Qed.

Lemma elements_lookup arr d i :
  array_wf arr d -> (i < Z.to_nat (nelem arr))%nat -> elements arr !! i = Some (elem_at arr d i).
Proof.
  intros H Hi; awf H. rewrite (elements_eq _ _ Hd), list_lookup_fmap, lookup_seq_lt by done. done.
Qed.

(** The elements depend only on the bytes below nelem * size. *)
Lemma elements_ext arr arr' d d' :
  data arr = Some d -> data arr' = Some d' -> size arr' = size arr -> nelem arr' = nelem arr ->
  (forall i, (i < Z.to_nat (nelem arr))%nat -> elem_at arr' d' i = elem_at arr d i) ->
  elements arr' = elements arr.
Proof.
  intros H1 H2 H3 H4 H5. rewrite (elements_eq _ _ H1), (elements_eq _ _ H2), H4.
  apply map_ext_in. intros i Hi%in_seq. apply H5. lia.
Qed.

Lemma elem_bound arr d i :
  array_wf arr d -> 0 <= i < nalloc arr -> size arr * i + size arr <= zlen d.
Proof. intros H Hi; awf H. nia. Qed.

(** Storing an element replaces it in the list. *)
Lemma store_elements arr d i v :
  array_wf arr d -> (i < Z.to_nat (nelem arr))%nat -> zlen v = size arr ->
  exists arr' d', array_store arr (size arr * Z.of_nat i) v = Some arr' /\ array_wf arr' d' /\
    elements arr' = <[i := v]> (elements arr) /\
    size arr' = size arr /\ nalloc arr' = nalloc arr /\ nelem arr' = nelem arr.
Proof.
  intros Hwf Hi Hv. pose proof Hwf as H; awf H.
  pose proof (elem_bound arr d (Z.of_nat i) Hwf) as Hb. unfold array_store. rewrite Hd. simpl.
  rewrite memwrite_some by lia. simpl. do 2 eexists. split; [done|].
  assert (Hwf' : array_wf (Array (size arr) (nalloc arr) (nelem arr)
    (Some (splice d (size arr * Z.of_nat i) v))) (splice d (size arr * Z.of_nat i) v)).
  { split; simpl; try done. by rewrite zlen_splice by lia. }
  split; [done|]. split; [|done]. apply list_eq. intros j.
  destruct (decide (j < Z.to_nat (nelem arr))%nat) as [Hj|Hj].
  - rewrite (elements_lookup _ _ j Hwf') by done. unfold elem_at. simpl.
    destruct (decide (j = i)) as [->|Hne].
    + rewrite list_lookup_insert_eq.
      * rewrite <- Hv. by rewrite slice_splice_same by lia.
      * pose proof (elements_length _ _ Hwf) as Hel. unfold zlen in Hel. lia.
    + rewrite list_lookup_insert_ne, (elements_lookup _ _ j Hwf) by done. unfold elem_at. f_equal.
      pose proof (elem_bound arr d (Z.of_nat j) Hwf).
      destruct (decide (j < i)%nat); [apply slice_splice_before|apply slice_splice_after]; nia.
  - pose proof (elements_length _ _ Hwf) as H1. pose proof (elements_length _ _ Hwf') as H2.
    unfold zlen in *. simpl in H2. rewrite !lookup_ge_None_2; [done| |lia].
    rewrite length_insert. lia.
Qed.

Lemma load_element arr d i :
  array_wf arr d -> (i < Z.to_nat (nelem arr))%nat ->
  array_load arr (size arr * Z.of_nat i) = Some (elem_at arr d i).
Proof.
  intros Hwf Hi. pose proof Hwf as H; awf H.
  pose proof (elem_bound arr d (Z.of_nat i) Hwf). unfold array_load. rewrite Hd. simpl.
  by rewrite memread_some by lia.
Qed.

Lemma elements_snoc arr d n' :
  array_wf arr d -> nelem arr < nalloc arr -> n' = nelem arr + 1 ->
  let arr' := Array (size arr) (nalloc arr) n' (Some d) in
  array_wf arr' d /\ elements arr' = elements arr ++ [elem_at arr d (Z.to_nat (nelem arr))].
Proof.
  intros Hwf Hlt ->. pose proof Hwf as H; awf H. simpl. split.
  - split; simpl; try done. lia.
  - rewrite (elements_eq arr d) by done. unfold elements. simpl.
    replace (Z.to_nat (nelem arr + 1)) with (Z.to_nat (nelem arr) + 1)%nat by lia.
    by rewrite seq_app, map_app.
Qed.

(** A successful expansion keeps the elements and makes room. *)
Lemma expand_spec m arr d g :
  array_wf arr d -> 0 < max_nelem_delta m -> 0 < nalloc arr ->
  let n := if max_nelem_delta m <=? nalloc arr then nalloc arr + max_nelem_delta m
           else nalloc arr * 2 in
  n < 4294967296 -> n * size arr <= INT64_MAX -> zlen g = n * size arr ->
  exists arr' d', _array_expand m arr (Some g) = (CC_OK, arr') /\ array_wf arr' d' /\
    elements arr' = elements arr /\ nalloc arr' = n /\ nalloc arr < n /\
    nelem arr' = nelem arr /\ size arr' = size arr.
Proof.
  intros Hwf Hdl Hna n Hn32 Hb Hg. pose proof Hwf as H; awf H. unfold INT64_MAX in Hb.
  assert (Hlt : nalloc arr < n) by (unfold n; case_zcmp; lia).
  unfold _array_expand. replace (expanded m arr) with n.
  2:{ unfold expanded, n in *. revert Hn32 Hlt. case_zcmp; intros; rewrite u32_small; lia. }
  rewrite u64_small by nia. rewrite Hd. unfold realloc_bytes, block_of. simpl.
  rewrite Hg, Z.eqb_refl. simpl. do 2 eexists. split; [done|].
  assert (Hsm : zlen d <= n * size arr) by nia.
  assert (Htk : take (Z.to_nat (n * size arr)) d = d) by (apply take_ge; unfold zlen in *; lia).
  rewrite Htk. split; [|split; [|done]].
  - split; simpl; unfold INT64_MAX; try done; [lia|]. unfold zlen in *.
    rewrite length_app, length_drop. lia.
  - apply (elements_ext arr _ d (d ++ drop (length d) g)); try done.
    intros i Hi. unfold elem_at, slice. simpl.
    pose proof (elem_bound arr d (Z.of_nat i) Hwf). unfold zlen in *.
    rewrite drop_app_le, take_app_le; [done|rewrite length_drop; lia|lia].
Qed.

(** What array_push needs of realloc when the array is full. *)
Definition room m arr (r : option (list byte)) : Prop :=
  nelem arr < nalloc arr \/
  exists g, r = Some g /\ 0 < max_nelem_delta m /\ 0 < nalloc arr /\
    let n := if max_nelem_delta m <=? nalloc arr then nalloc arr + max_nelem_delta m
             else nalloc arr * 2 in
    n < 4294967296 /\ n * size arr <= INT64_MAX /\ zlen g = n * size arr.

Lemma push_spec m arr d r :
  array_wf arr d -> room m arr r ->
  exists arr' d', array_push m arr r = (Some (size arr * nelem arr), arr') /\ array_wf arr' d' /\
    nelem arr' = nelem arr + 1 /\ size arr' = size arr /\
    elements arr' = elements arr ++ [elem_at arr d' (Z.to_nat (nelem arr))].
Proof.
  intros Hwf Hroom.
  assert (Hx : exists arr1 d1, array_push m arr r =
      (let arr' := Array (size arr1) (nalloc arr1) (u32 (nelem arr1 + 1)) (data arr1) in
       (Some (array_last arr'), arr')) /\
    array_wf arr1 d1 /\ elements arr1 = elements arr /\ nelem arr1 < nalloc arr1 /\
    nelem arr1 = nelem arr /\ size arr1 = size arr).
  { unfold array_push. destruct (Z.eqb_spec (nelem arr) (nalloc arr)) as [Hf|Hf].
    - destruct Hroom as [|(g & -> & Hdl & Hna & Hn & Hb & Hg)]; [lia|].
      destruct (expand_spec m arr d g Hwf Hdl Hna Hn Hb Hg)
        as (arr1 & d1 & -> & Hwf1 & He & Hal & Hlt & Hne & Hsz).
      exists arr1, d1. split_and!; try done. lia.
    - exists arr, d. split_and!; try done. destruct Hwf; lia. }
  destruct Hx as (arr1 & d1 & -> & Hwf1 & He & Hlt & Hne & Hsz).
  pose proof Hwf1 as H; awf H. rewrite u32_small by lia. rewrite Hd.
  destruct (elements_snoc arr1 d1 _ Hwf1 Hlt eq_refl) as [Hwf2 He2].
  exists (Array (size arr1) (nalloc arr1) (nelem arr1 + 1) (Some d1)), d1.
  split_and!; simpl; try done; [|lia|].
  - do 2 f_equal. unfold array_last, array_get. simpl. rewrite u32_small by lia.
    rewrite Hsz, <- Hne. f_equal. lia.
  - rewrite He2, He. unfold elem_at. by rewrite Hsz, Hne.
Qed.

Lemma pop_spec arr d els v :
  array_wf arr d -> elements arr = els ++ [v] ->
  array_load arr (fst (array_pop arr)) = Some v /\
  elements (snd (array_pop arr)) = els /\ array_wf (snd (array_pop arr)) d /\
  fst (array_pop arr) = size arr * (nelem arr - 1).
Proof.
  intros Hwf He. pose proof (elements_length _ _ Hwf) as Hlen.
  rewrite He, zlen_app, zlen_cons, zlen_nil in Hlen. pose proof (zlen_nonneg els).
  pose proof Hwf as H0; awf H0. unfold array_pop. simpl. rewrite u32_small by lia.
  unfold array_get. split_and!; [| | |done].
  - replace (nelem arr - 1) with (Z.of_nat (length els)) by (unfold zlen in *; lia).
    rewrite (load_element _ d) by (done || unfold zlen in *; lia).
    rewrite <- (elements_lookup arr d) by (done || unfold zlen in *; lia).
    rewrite He, lookup_app_r, Nat.sub_diag by lia. done.
  - rewrite (elements_eq arr d Hd) in He. unfold elements. simpl. rewrite Hd.
    replace (Z.to_nat (nelem arr)) with (Z.to_nat (nelem arr - 1) + 1)%nat in He by lia.
    rewrite seq_app, map_app in He. simpl in He. by apply app_inj_tail in He as [? _].
  - split; simpl; try done. lia.
Qed.

(** ** array_each against a fold over the elements *)

Section Each.
Context {St : Type} (func : list byte -> St -> Z * list byte * St).

(** The index of the first failure (the length if there is none), the error,
    the changed elements and the argument. *)
Fixpoint each_ref (els : list (list byte)) (arg : St)
  : nat * option Z * list (list byte) * St :=
  match els with
  | [] => (0%nat, None, [], arg)
  | v :: els =>
      let '(status, v, arg) := func v arg in
      if negb (status =? CC_OK) then (0%nat, Some status, v :: els, arg)
      else let '(i, err, els, arg) := each_ref els arg in (Datatypes.S i, err, v :: els, arg)
  end.

Lemma each_loop_spec (sz : Z) fuel arr d i arg :
  (forall v s, zlen v = sz -> zlen (func v s).1.2 = sz) ->
  array_wf arr d -> size arr = sz -> (i <= Z.to_nat (nelem arr))%nat ->
  (Z.to_nat (nelem arr) - i <= fuel)%nat ->
  let '(k, err, els, arg') := each_ref (drop i (elements arr)) arg in
  exists arr' d', each_loop func fuel arr (Z.of_nat i) (nelem arr) arg =
      Some (Z.of_nat (i + k), err, arr', arg') /\
    array_wf arr' d' /\ elements arr' = take i (elements arr) ++ els.
Proof.
  intros Hfn. revert arr d i arg. induction fuel as [|fuel IH]; intros arr d i arg Hwf Hsz Hi Hfu.
  - pose proof (elements_length _ _ Hwf) as Hlen. unfold zlen in Hlen.
    rewrite drop_ge by lia. simpl. destruct (Z.ltb_spec (Z.of_nat i) (nelem arr)); [lia|].
    exists arr, d. rewrite take_ge, app_nil_r by lia.
    replace (Z.of_nat (i + 0)) with (nelem arr) by lia. done.
  - pose proof (elements_length _ _ Hwf) as Hlen. unfold zlen in Hlen.
    cbn [each_loop]. destruct (Z.ltb_spec (Z.of_nat i) (nelem arr)) as [Hlt|Hge].
    2:{ rewrite drop_ge by lia. simpl. exists arr, d. rewrite take_ge, app_nil_r by lia.
        replace (Z.of_nat (i + 0)) with (nelem arr) by lia. done. }
    assert (Hi' : (i < Z.to_nat (nelem arr))%nat) by lia.
    pose proof (elements_lookup arr d i Hwf Hi') as Hlk.
    rewrite (drop_S _ _ _ Hlk). simpl. unfold array_get.
    rewrite (load_element arr d i Hwf Hi'). simpl.
    assert (Hzv : zlen (elem_at arr d i) = size arr).
    { pose proof (elem_bound arr d (Z.of_nat i) Hwf). destruct Hwf.
      unfold elem_at. rewrite zlen_slice; nia. }
    rewrite Hsz in Hzv. specialize (Hfn _ arg Hzv).
    destruct (func (elem_at arr d i) arg) as [[status v'] arg1]. simpl in Hfn.
    destruct (store_elements arr d i v' Hwf Hi') as (arr1 & d1 & -> & Hwf1 & He1 & Hs1 & Ha1 & Hn1);
      [lia|]. simpl.
    destruct (status =? CC_OK); simpl.
    + pose proof Hwf as H; awf H. rewrite u32_small by lia.
      specialize (IH arr1 d1 (Datatypes.S i) arg1 Hwf1).
      replace (drop (Datatypes.S i) (elements arr)) with (drop (Datatypes.S i) (elements arr1))
        by (rewrite He1; apply drop_insert_lt; lia).
      destruct (each_ref _ arg1) as [[[k err] els] arg2].
      destruct IH as (arr2 & d2 & E & Hwf2 & He2); [lia..|].
      rewrite Hn1 in E. exists arr2, d2.
      replace (Z.of_nat i + 1) with (Z.of_nat (Datatypes.S i)) by lia. rewrite E.
      split; [do 4 f_equal; lia|]. split; [done|].
      rewrite He2, He1. rewrite (take_S_r _ _ v') by (apply list_lookup_insert_eq; lia).
      rewrite take_insert_ge, <- app_assoc by lia. done.
    + exists arr1, d1. rewrite Nat.add_0_r. split; [done|]. split; [done|].
      rewrite He1, insert_take_drop by lia. done.
Qed.

End Each.

End Lemmas.

(** ** Properties *)

(** C29: pushing onto a well-formed array that has a free slot, or is not empty
    and gets from realloc a block for its expansion (twice its elements, or
    max_nelem_delta more if it has at least that many; max_nelem_delta is not 0,
    the elements fit uint32_t and the bytes a positive int64_t), returns the
    address of a new last slot within the block; after the caller stores [v]
    there, the array holds its old elements followed by [v], and popping returns
    that address (where [v] can still be read) and restores the old elements.
    The block has the size the code asks for.  When the array is full and realloc
    fails, array_push returns NULL and changes nothing. *)
Theorem array_push_pop (m : array_module) (arr : array) (d v : list byte)
    (r : option (list byte)) :
  array_wf arr d -> room m arr r -> zlen v = size arr ->
  (exists arr1 arr2 d2 arr3,
    array_push m arr r = (Some (size arr * nelem arr), arr1) /\
    array_store arr1 (size arr * nelem arr) v = Some arr2 /\
    array_wf arr2 d2 /\ elements arr2 = elements arr ++ [v] /\
    array_pop arr2 = (size arr * nelem arr, arr3) /\
    array_load arr2 (size arr * nelem arr) = Some v /\
    array_wf arr3 d2 /\ elements arr3 = elements arr) /\
  (nelem arr = nalloc arr -> array_push m arr None = (None, arr)).
Proof.
  intros Hwf Hroom Hv. split.
  - destruct (push_spec m arr d r Hwf Hroom) as (arr1 & d1 & E & Hwf1 & Hn & Hs & He).
    pose proof (aw_nelem _ _ Hwf).
    destruct (store_elements arr1 d1 (Z.to_nat (nelem arr)) v Hwf1)
      as (arr2 & d2 & Es & Hwf2 & He2 & Hs2 & _ & Hn2); [lia|congruence|].
    rewrite Hs, Z2Nat.id in Es by lia.
    assert (He3 : elements arr2 = elements arr ++ [v]).
    { rewrite He2, He. pose proof (elements_length _ _ Hwf). unfold zlen in *.
      rewrite insert_app_r_alt by lia.
      by replace (Z.to_nat (nelem arr) - length (elements arr))%nat with 0%nat by lia. }
    destruct (pop_spec arr2 d2 (elements arr) v Hwf2 He3) as (Hld & Hel & Hwf3 & Hoff).
    destruct (array_pop arr2) as [off arr3] eqn:Ep. simpl in *. subst off.
    rewrite Hn2, Hn, Hs2, Hs in *. replace (nelem arr + 1 - 1) with (nelem arr) in * by lia.
    by exists arr1, arr2, d2, arr3.
  - intros Hf. unfold array_push. rewrite Hf, Z.eqb_refl. unfold _array_expand.
    by destruct (data arr).
Qed.

(** A new array is empty, with room for what was asked; without memory there is
    none. *)
Lemma array_create_spec n sz a block :
  0 < n < 4294967296 -> 0 < sz -> n * sz <= INT64_MAX -> zlen block = n * sz ->
  (exists arr, array_create n sz (Some a) (Some block) = (CC_OK, Some arr) /\ array_wf arr block /\
    elements arr = [] /\ nalloc arr = n) /\
  array_create n sz None (Some block) = (CC_ENOMEM, None) /\
  array_create n sz (Some a) None = (CC_ENOMEM, None).
Proof.
  unfold INT64_MAX. intros Hn Hs Hm Hb. unfold array_create, array_data_create, cc_alloc, block_of. simpl.
  rewrite u64_small by lia. rewrite Hb, Z.eqb_refl, (proj2 (Z.eqb_neq _ _)) by nia. split_and!; [|done..].
  eexists. split; [done|]. split; [|done]. split; simpl; unfold INT64_MAX; try done; lia.
Qed.

(** An array of 2-byte elements, full with one element. *)
Definition arr1 : array := Array 2 1 1 (Some [7; 8]).

Lemma arr1_wf : array_wf arr1 [7; 8].
Proof. split; vm_compute; try split; congruence. Qed.

Lemma array_push_pop_witness :
  exists a1 a2, array_push (ArrayModule true 16) arr1 (Some [0; 0; 0; 0]) = (Some 2, a1) /\
    array_store a1 2 [5; 6] = Some a2 /\ elements a2 = [[7; 8]; [5; 6]].
Proof.
  destruct (array_push_pop (ArrayModule true 16) arr1 [7; 8] [5; 6] (Some [0; 0; 0; 0]) arr1_wf)
    as [(a1 & a2 & d2 & a3 & H1 & H2 & _ & H3 & _) _].
  - right. exists [0; 0; 0; 0]. vm_compute. repeat split; congruence.
  - reflexivity.
  - exists a1, a2. split; [exact H1|]. split; [exact H2|exact H3].
Defined.

(** Array_each is the fold [each_ref] over the elements: it calls
    the function on each element in order, stops at the first failure, whose
    index it returns with the error stored, and returns the number of elements
    when there is none; elements behind a failure are untouched.  The callback
    may change the element it is given, within its size. *)
Theorem array_each_refines {St : Type} (func : list byte -> St -> Z * list byte * St)
    (arr : array) (d : list byte) (arg : St) (fuel : nat) :
  array_wf arr d -> (forall v s, zlen v = size arr -> zlen (func v s).1.2 = size arr) ->
  (Z.to_nat (nelem arr) <= fuel)%nat ->
  let '(k, err, els, arg') := each_ref func (elements arr) arg in
  exists arr' d', array_each func fuel arr arg = Some (Z.of_nat k, err, arr', arg') /\
    array_wf arr' d' /\ elements arr' = els.
Proof.
  intros Hwf Hfn Hfu.
  pose proof (each_loop_spec func (size arr) fuel arr d 0 arg Hfn Hwf eq_refl) as H.
  rewrite drop_0 in H. destruct (each_ref func (elements arr) arg) as [[[k err] els] arg'].
  destruct H as (arr' & d' & E & Hwf' & He); [lia..|]. by exists arr', d'.
Qed.

Lemma array_each_refines_witness :
  exists a' d', array_each (fun v (s : Z) => (if s <? 1 then CC_OK else CC_ERROR, v, s + 1)) 3
      (Array 1 3 3 (Some [7; 8; 9])) 0 = Some (1, Some CC_ERROR, a', 2) /\ array_wf a' d'.
Proof.
  destruct (array_each_refines (fun v (s : Z) => (if s <? 1 then CC_OK else CC_ERROR, v, s + 1))
    (Array 1 3 3 (Some [7; 8; 9])) [7; 8; 9] 0 3) as (a' & d' & E & Hwf & _).
  - split; vm_compute; try split; congruence.
  - intros v s H. exact H.
  - vm_compute. lia.
  - exists a', d'. split; [exact E|exact Hwf].
Defined.

(** For a pointer at or above the data, array_locate returns the
    index of the slot it points to, and -1 exactly when it is not at a slot's
    beginning.  In particular locating array_get of an index gives the index
    back; the element count is not consulted, so a slot behind the last element
    is located too. *)
Theorem array_locate_spec (arr : array) (off : Z) :
  0 < size arr -> 0 <= off <= INT64_MAX -> off / size arr < 2147483648 ->
  array_locate arr off = (if off mod size arr =? 0 then off / size arr else -1) /\
  array_locate arr (array_get arr (off / size arr)) = off / size arr.
Proof.
  intros Hs Ho Hq. unfold INT64_MAX in Ho.
  assert (H0 : 0 <= off / size arr) by (apply Z.div_pos; lia).
  assert (Hd : off = size arr * (off / size arr) + off mod size arr) by (apply Z.div_mod; lia).
  assert (Hm : 0 <= off mod size arr < size arr) by (apply Z.mod_pos_bound; lia).
  set (q := off / size arr) in *. unfold array_locate, array_get.
  assert (Hqs : u64 (size arr * q) = size arr * q) by (apply u64_small; nia).
  rewrite Hqs, (Z.mul_comm (size arr) q), Z.div_mul by lia.
  rewrite (u64_small off) by lia. fold q. rewrite i32_small, (u64_small q) by lia.
  rewrite (Z.mul_comm q), Hqs. split.
  - destruct (Z.ltb_spec q 0); [lia|]. simpl. case_zcmp; simpl; lia.
  - destruct (Z.ltb_spec q 0); [lia|]. by rewrite Z.eqb_refl.
Qed.

Lemma array_locate_spec_witness :
  array_locate arr1 1 = -1 /\ array_locate arr1 (array_get arr1 3) = 3.
Proof.
  split.
  - apply (array_locate_spec arr1 1); vm_compute; try split; congruence.
  - apply (array_locate_spec arr1 6); vm_compute; try split; congruence.
Defined.
