(* ===== verification/WeakMem.v ===== *)
(** * Shared memory of two threads

    Two threads are labelled transition systems whose labels are reads and writes
    of shared locations, with the ordering the source asks for.  Two machines run
    them.

    The machine of views is the operational reading of the C11 model for the
    accesses this library uses (plain, relaxed, acquire and release loads and
    stores).  A location keeps all the writes to it in order; a thread has a view,
    the oldest write of each location it may still read, and a read may return any
    write that is not older.  An acquire load of a release store joins the view of
    the store.  A view also counts the accesses that happen before it, so that a
    data race is what the standard says: two accesses of one location by different
    threads, one of them a write, one of them plain, and neither ordered before the
    other.

    The machine of store buffers is x86: a store waits in a first-in first-out
    buffer of its thread, which reads its own pending stores.

    [tso_simulation]: if no location is written by both threads, whatever a program
    can do on store buffers it can do on views, with every ordering. *)

From S2P Require Import Prelude.
From stdpp Require Export functions relations.
Local Open Scope nat_scope.

(** The value of an updated function, at its point or elsewhere. *)
Ltac fn_simpl := repeat first [rewrite fn_lookup_insert | rewrite fn_lookup_insert_ne by congruence].

Inductive ordering := Plain | Relaxed | AcqRel.

Definition plain (o : ordering) : bool := match o with Plain => true | _ => false end.
Definition synchronizes (o : ordering) : bool := match o with AcqRel => true | _ => false end.

Section Machine.
Context {loc T : Type} `{EqDecision loc}.

Inductive label :=
| Rd (o : ordering) (l : loc) (v : Z)
| Wr (o : ordering) (l : loc) (v : Z).

(** An access: the thread, whether it writes, whether it is plain, and where. *)
Inductive acc := Acc (t w p : bool) (l : loc).

(** What a view knows: the position in the writes of a location, and the number of
    accesses of each sort that happened before. *)
Inductive stamp := Ts (l : loc) | Seen (a : acc).

#[global] Instance acc_eq_dec : EqDecision acc.
Proof. solve_decision. Defined.
#[global] Instance stamp_eq_dec : EqDecision stamp.
Proof. solve_decision. Defined.

Local Abbreviation view := (stamp -> nat).
Definition vbot : view := fun _ => 0.
Definition vjoin (V W : view) : view := fun x => V x `max` W x.
Definition vle (V W : view) : Prop := forall x, V x <= W x.

Record msg := Msg { mval : Z; mview : view }.

Record vstate := VState {
  hist : loc -> list msg;
  count : acc -> nat;
  thr : bool -> T * view;
}.

(** The program: what a thread may do next. *)
Context (tstep : bool -> T -> label -> T -> Prop).

Definition lower (o : ordering) (V : view) : view := if synchronizes o then V else vbot.

(** What an access does to the view of its thread. *)
Definition read_view (a : acc) (n : nat) (o : ordering) (l : loc) (ts : nat) (mv V : view) : view :=
  vjoin (<[Seen a := n]> (<[Ts l := ts]> V)) (lower o mv).
Definition write_view (a : acc) (n : nat) (l : loc) (ts : nat) (V : view) : view :=
  <[Seen a := n]> (<[Ts l := ts]> V).

Inductive vstep : vstate -> vstate -> Prop :=
| VRead h c th t s V o l v s' ts mv :
    th t = (s, V) -> tstep t s (Rd o l v) s' ->
    h l !! ts = Some (Msg v mv) -> V (Ts l) <= ts ->
    let a := Acc t false (plain o) l in
    vstep (VState h c th)
      (VState h (<[a := S (c a)]> c) (<[t := (s', read_view a (S (c a)) o l ts mv V)]> th))
| VWrite h c th t s V o l v s' :
    th t = (s, V) -> tstep t s (Wr o l v) s' ->
    let a := Acc t true (plain o) l in
    let V' := write_view a (S (c a)) l (length (h l)) V in
    vstep (VState h c th)
      (VState (<[l := h l ++ [Msg v (lower o V')]]> h) (<[a := S (c a)]> c) (<[t := (s', V')]> th)).

(** The next access [e] of thread [t] races: the other thread has made a conflicting
    access that is not ordered before it. *)
Definition conflicts (σ : vstate) (t w : bool) (o : ordering) (l : loc) : Prop :=
  exists w' p', (w || w') && (plain o || p') = true /\
    (thr σ t).2 (Seen (Acc (negb t) w' p' l)) < count σ (Acc (negb t) w' p' l).
Definition racy (σ : vstate) (t : bool) (e : label) : Prop :=
  match e with Rd o l _ => conflicts σ t false o l | Wr o l _ => conflicts σ t true o l end.
Definition race (σ : vstate) : Prop :=
  exists t e s', tstep t (thr σ t).1 e s' /\ racy σ t e.

(** Store buffers. *)
Record tstate := TState {
  mem : loc -> Z;
  buffers : bool -> list (loc * Z);
  pcs : bool -> T;
}.

(** The memory after the stores of a buffer. *)
Fixpoint drain (m : loc -> Z) (b : list (loc * Z)) : loc -> Z :=
  match b with [] => m | (l, v) :: b => drain (<[l := v]> m) b end.

Inductive tso_step : tstate -> tstate -> Prop :=
| TsoRead m b p t o l v s' :
    tstep t (p t) (Rd o l v) s' -> drain m (b t) l = v ->
    tso_step (TState m b p) (TState m b (<[t := s']> p))
| TsoWrite m b p t o l v s' :
    tstep t (p t) (Wr o l v) s' ->
    tso_step (TState m b p) (TState m (<[t := b t ++ [(l, v)]]> b) (<[t := s']> p))
| TsoCommit m b p t l v rest :
    b t = (l, v) :: rest ->
    tso_step (TState m b p) (TState (<[l := v]> m) (<[t := rest]> b) p).

Definition vinit (m : loc -> Z) (p : bool -> T) : vstate :=
  VState (fun l => [Msg (m l) vbot]) (fun _ => 0) (fun t => (p t, vbot)).
Definition tinit (m : loc -> Z) (p : bool -> T) : tstate := TState m (fun _ => []) p.

End Machine.
Arguments label : clear implicits.
Arguments acc : clear implicits.
Arguments stamp : clear implicits.
Abbreviation view loc := (stamp loc -> nat).
Arguments msg : clear implicits.
Arguments vstate : clear implicits.
Arguments tstate : clear implicits.

(** ** Store buffers are views

    [cm l] is the write of [l] that has reached memory; a buffer takes it to
    [advance cm b]. *)
Section Simulation.
Context {loc T : Type} `{EqDecision loc} (tstep : bool -> T -> label loc -> T -> Prop) (owner : loc -> bool).
Implicit Types (m : loc -> Z) (b : list (loc * Z)) (cm : loc -> nat) (h : loc -> list (msg loc)) (V : view loc).

Hypothesis owned : forall t s o l v s', tstep t s (Wr o l v) s' -> owner l = t.

Fixpoint advance cm b : loc -> nat :=
  match b with [] => cm | (l, _) :: b => advance (<[l := S (cm l)]> cm) b end.

(** The writes a view may require are among the first [cm]. *)
Definition within V cm : Prop := forall l, V (Ts l) <= cm l.
Definition cle cm cm' : Prop := forall l, cm l <= cm' l.

(** The stores of [b] are the next writes of their locations, in order, and what
    each of them publishes has reached memory when it does. *)
Fixpoint pending h (t : bool) cm b : Prop :=
  match b with
  | [] => True
  | (l, v) :: b =>
      let cm' := <[l := S (cm l)]> cm in
      owner l = t /\ (exists mv, h l !! S (cm l) = Some (Msg v mv) /\ within mv cm') /\ pending h t cm' b
  end.

Record at_mem h m cm : Prop := {
  am_val : forall l, exists mv, h l !! cm l = Some (Msg (m l) mv);
  am_within : forall l k v mv, k <= cm l -> h l !! k = Some (Msg v mv) -> within mv cm;
}.

Record sim (τ : tstate loc T) (σ : vstate loc T) : Prop := {
  sim_pcs : forall t, (thr σ t).1 = pcs τ t;
  sim_mem : exists cm, at_mem (hist σ) (mem τ) cm /\
    forall t, pending (hist σ) t cm (buffers τ t) /\
      within (thr σ t).2 (advance cm (buffers τ t)) /\
      forall l, owner l = t -> length (hist σ l) = S (advance cm (buffers τ t) l);
}.

Lemma cle_insert cm l : cle cm (<[l := S (cm l)]> cm).
Proof. intros k. destruct (decide (k = l)) as [->|]; fn_simpl; lia. Qed.

Lemma insert_mono cm cm' l : cle cm cm' -> cle (<[l := S (cm l)]> cm) (<[l := S (cm' l)]> cm').
Proof.
  intros Hle k. specialize (Hle k). destruct (decide (k = l)) as [->|]; fn_simpl; lia.
Qed.

Lemma within_mono V cm cm' : within V cm -> cle cm cm' -> within V cm'.
Proof. intros HV Hle l. specialize (HV l). specialize (Hle l). lia. Qed.

Lemma advance_mono b : forall cm cm', cle cm cm' -> cle (advance cm b) (advance cm' b).
Proof. induction b as [|[l v] b IH]; intros cm cm' Hle; [done|]. by apply IH, insert_mono. Qed.

Lemma advance_snoc b : forall cm l v,
  advance cm (b ++ [(l, v)]) = <[l := S (advance cm b l)]> (advance cm b).
Proof. induction b as [|[k u] b IH]; intros cm l v; [done|]. apply IH. Qed.

Lemma advance_at b x : forall cm cm', cm x = cm' x -> advance cm b x = advance cm' b x.
Proof.
  induction b as [|[l v] b IH]; intros cm cm' E; [done|]. apply IH.
  destruct (decide (l = x)) as [->|]; fn_simpl; congruence.
Qed.

Lemma advance_other h t b : forall cm l, pending h t cm b -> owner l <> t -> advance cm b l = cm l.
Proof.
  induction b as [|[k v] b IH]; intros cm l Hp Hl; [done|]. destruct Hp as (Ho & _ & Hp). simpl.
  rewrite IH by done. apply fn_lookup_insert_ne. congruence.
Qed.

(** The other thread may move on. *)
Lemma pending_mono h t b : forall cm cm',
  pending h t cm b -> cle cm cm' -> (forall l, owner l = t -> cm' l = cm l) -> pending h t cm' b.
Proof.
  induction b as [|[l v] b IH]; intros cm cm' Hp Hle Heq; [done|].
  destruct Hp as (Ho & (mv & Hh & Hw) & Hp). pose proof (insert_mono cm cm' l Hle) as Hi.
  simpl. rewrite (Heq l Ho) in *. split; [done|]. split.
  - exists mv. split; [done|]. by apply (within_mono _ _ _ Hw).
  - apply (IH _ _ Hp Hi).
    intros k Hk. destruct (decide (k = l)) as [->|]; fn_simpl; auto.
Qed.

(** New writes come after the old ones. *)
Definition hle h h' : Prop := forall l k x, h l !! k = Some x -> h' l !! k = Some x.

Lemma hle_snoc h l x : hle h (<[l := h l ++ [x]]> h).
Proof.
  intros k i y Hy. destruct (decide (k = l)) as [->|]; fn_simpl; [|done].
  by apply lookup_app_l_Some.
Qed.

Lemma pending_hist h h' t b : hle h h' -> forall cm, pending h t cm b -> pending h' t cm b.
Proof.
  intros Hh. induction b as [|[l v] b IH]; intros cm Hp; [done|].
  destruct Hp as (Ho & (mv & Hm & Hw) & Hp). split; [done|]. split; eauto.
Qed.

Lemma pending_snoc h t b l v mv : forall cm,
  pending h t cm b -> owner l = t -> h l !! S (advance cm b l) = Some (Msg v mv) ->
  within mv (advance cm (b ++ [(l, v)])) -> pending h t cm (b ++ [(l, v)]).
Proof.
  induction b as [|[k u] b IH]; intros cm Hp Ho Hl Hw.
  { split; [done|]. split; [by exists mv|done]. }
  destruct Hp as (Hk & Hm & Hp). split; [done|]. split; [done|]. by apply IH.
Qed.

Lemma at_mem_commit h m cm t l v b :
  at_mem h m cm -> pending h t cm ((l, v) :: b) -> at_mem h (<[l := v]> m) (<[l := S (cm l)]> cm).
Proof.
  intros [Hv Hw] (_ & (mv & Hl & Hm) & _). split.
  - intros k. destruct (decide (k = l)) as [->|]; fn_simpl; eauto.
  - intros k i u mu. destruct (decide (k = l)) as [->|]; fn_simpl; intros Hi Hk.
    + destruct (decide (i = S (cm l))) as [->|]; [by simplify_eq|].
      eapply within_mono; [apply (Hw l i u); [lia|done]|apply cle_insert].
    + eapply within_mono; [by eapply Hw|apply cle_insert].
Qed.

Lemma at_mem_drain h t b : forall m cm,
  at_mem h m cm -> pending h t cm b -> at_mem h (drain m b) (advance cm b).
Proof.
  induction b as [|[l v] b IH]; intros m cm Hm Hp; [done|]. simpl. apply IH; [by eapply at_mem_commit|apply Hp].
Qed.

Lemma at_mem_hist h h' m cm : hle h h' -> (forall l, cm l < length (h l)) -> at_mem h m cm -> at_mem h' m cm.
Proof.
  intros Hh Hlt [Hv Hw]. split.
  - intros l. destruct (Hv l) as [mv ?]. eauto.
  - intros l k v mv Hk Hl. destruct (lookup_lt_is_Some_2 (h l) k) as [x Hx]; [specialize (Hlt l); lia|].
    pose proof (Hh _ _ _ Hx) as Hx'.
    rewrite Hl in Hx'. simplify_eq. by apply (Hw l k v).
Qed.

(** Every step on store buffers is a step on views, except that a store that
    reaches memory is none. *)
Lemma sim_read τ σ t o l s' :
  sim τ σ -> tstep t (pcs τ t) (Rd o l (drain (mem τ) (buffers τ t) l)) s' ->
  exists σ', vstep tstep σ σ' /\ sim (TState (mem τ) (buffers τ) (<[t := s']> (pcs τ))) σ'.
Proof.
  intros [Hpc (cm & Hm & Hb)] Hst. destruct σ as [h c th]. simpl in *.
  destruct (Hb t) as (Hp & HV & Hlast). destruct (at_mem_drain _ _ _ _ _ Hm Hp) as [Hv Hw].
  destruct (Hv l) as [mv Hl]. destruct (th t) as [s V] eqn:Eth. simpl in *. specialize (Hpc t) as Et. rewrite Eth in Et.
  simpl in Et. subst s. eexists. split; [eapply VRead; [exact Eth|exact Hst|exact Hl|apply HV]|]. split; simpl.
  - intros k. destruct (decide (k = t)) as [->|]; fn_simpl; [done|apply Hpc].
  - exists cm. split; [done|]. intros k. destruct (Hb k) as (Hpk & HVk & Hk).
    destruct (decide (k = t)) as [->|]; fn_simpl; [|done]. split; [done|]. split; [|done].
    intros x. simpl. unfold read_view, vjoin, lower. rewrite fn_lookup_insert_ne by done.
    assert (Hx : within mv (advance cm (buffers τ t))) by (by eapply Hw).
    specialize (Hx x). specialize (HV x). unfold vbot.
    destruct (decide (x = l)) as [->|]; fn_simpl; destruct (synchronizes o); simpl; lia.
Qed.

Lemma sim_write τ σ t o l v s' :
  sim τ σ -> tstep t (pcs τ t) (Wr o l v) s' ->
  exists σ', vstep tstep σ σ' /\
    sim (TState (mem τ) (<[t := buffers τ t ++ [(l, v)]]> (buffers τ)) (<[t := s']> (pcs τ))) σ'.
Proof.
  intros [Hpc (cm & Hm & Hb)] Hst. destruct σ as [h c th]. simpl in *. pose proof (owned _ _ _ _ _ _ Hst) as Ho.
  destruct (Hb t) as (Hp & HV & Hlast). destruct (th t) as [s V] eqn:Eth. simpl in *.
  specialize (Hpc t) as Et. rewrite Eth in Et. simpl in Et. subst s.
  eexists. split; [eapply VWrite; [exact Eth|exact Hst]|]. set (a := Acc t true (plain o) l).
  set (V' := write_view a (S (c a)) l (length (h l)) V). set (h' := <[l := _]> h).
  assert (Hh : hle h h') by apply hle_snoc.
  assert (HV' : within V' (advance cm (buffers τ t ++ [(l, v)]))).
  { rewrite advance_snoc. intros x. unfold V', write_view. rewrite fn_lookup_insert_ne by done. specialize (HV x).
    destruct (decide (x = l)) as [->|]; fn_simpl; [|done]. rewrite (Hlast l Ho). lia. }
  split; simpl.
  - intros k. destruct (decide (k = t)) as [->|]; fn_simpl; [done|apply Hpc].
  - exists cm. split.
    { apply (at_mem_hist h); [done| |done]. intros x. destruct (am_val _ _ _ Hm x) as [mv Hx]. by eapply lookup_lt_Some. }
    intros k. destruct (Hb k) as (Hpk & HVk & Hk). destruct (decide (k = t)) as [->|]; fn_simpl; simpl.
    + split; [|split; [done|]].
      * apply (pending_snoc _ _ _ _ _ (lower o V')); [by eapply pending_hist|done| |].
        -- unfold h'. rewrite fn_lookup_insert, <- (Hlast l Ho). by apply list_lookup_middle.
        -- unfold lower. destruct (synchronizes o); [done|]. intros x. unfold vbot. lia.
      * intros x Hx. rewrite advance_snoc. unfold h'. destruct (decide (x = l)) as [->|]; fn_simpl; [|auto].
        rewrite length_app, (Hlast l Ho). simpl. lia.
    + split; [by eapply pending_hist|]. split; [done|]. intros x Hx. unfold h'. fn_simpl. auto.
Qed.

Lemma sim_commit τ σ t l v rest :
  sim τ σ -> buffers τ t = (l, v) :: rest ->
  sim (TState (<[l := v]> (mem τ)) (<[t := rest]> (buffers τ)) (pcs τ)) σ.
Proof.
  intros [Hpc (cm & Hm & Hb)] Hl. split; [done|]. simpl. exists (<[l := S (cm l)]> cm).
  destruct (Hb t) as (Hp & HV & Hlast). rewrite Hl in Hp, HV, Hlast.
  split; [by eapply at_mem_commit|]. intros k. destruct (Hb k) as (Hpk & HVk & Hk).
  destruct (decide (k = t)) as [->|]; fn_simpl; [split; [apply Hp|done]|].
  assert (Hne : owner l <> k) by (destruct Hp as [-> _]; done). split; [|split].
  - apply (pending_mono _ _ _ cm); [done|apply cle_insert|]. intros x Hx. fn_simpl. done.
  - eapply within_mono; [exact HVk|]. apply advance_mono, cle_insert.
  - intros x Hx. rewrite Hk by done. f_equal. apply advance_at. fn_simpl. done.
Qed.

Lemma sim_step τ τ' σ : tso_step tstep τ τ' -> sim τ σ -> exists σ', rtc (vstep tstep) σ σ' /\ sim τ' σ'.
Proof.
  intros Hst Hs. destruct Hst as [m b p t o l v s' Hst <-|m b p t o l v s' Hst|m b p t l v rest Hl].
  - destruct (sim_read _ _ _ _ _ _ Hs Hst) as (σ' & ? & ?). eauto using rtc_once.
  - destruct (sim_write _ _ _ _ _ _ _ Hs Hst) as (σ' & ? & ?). eauto using rtc_once.
  - exists σ. split; [apply rtc_refl|]. by apply (sim_commit (TState m b p)).
Qed.

Lemma sim_init m p : sim (tinit m p) (vinit m p).
Proof.
  split; [done|]. exists (fun _ => 0). split; [split|].
  - intros l. by exists vbot.
  - intros l k v mv Hk Hl. assert (k = 0) as -> by lia. simpl in Hl. simplify_eq. by intros x.
  - intros t. split; [done|]. split; [by intros x|done].
Qed.

(** Whatever the threads can do on store buffers they can do on views. *)
Lemma tso_simulation m p τ :
  rtc (tso_step tstep) (tinit m p) τ ->
  exists σ, rtc (vstep tstep) (vinit m p) σ /\ forall t, (thr σ t).1 = pcs τ t.
Proof.
  intros Hr. cut (exists σ, rtc (vstep tstep) (vinit m p) σ /\ sim τ σ).
  { intros (σ & ? & [? _]). by exists σ. }
  remember (tinit m p) as τ0 eqn:E. assert (H0 : exists σ, rtc (vstep tstep) (vinit m p) σ /\ sim τ0 σ).
  { exists (vinit m p). subst. split; [apply rtc_refl|apply sim_init]. }
  clear E. induction Hr as [|τ1 τ2 τ3 Hst _ IH]; [done|]. apply IH. destruct H0 as (σ & Hσ & Hs).
  destruct (sim_step _ _ _ Hst Hs) as (σ' & ? & ?). exists σ'. split; [by etransitivity|done].
Qed.

End Simulation.

(** ** What views always know

    A thread has seen its own accesses and its own writes; nobody has seen more
    than there is.  [allowed] are the accesses the program makes. *)
Section Accounting.
Context {loc T : Type} `{EqDecision loc} (tstep : bool -> T -> label loc -> T -> Prop).
Context (owner : loc -> bool) (allowed : acc loc -> Prop).
Implicit Types (h : loc -> list (msg loc)) (V : view loc) (c : acc loc -> nat).

Definition access (t : bool) (e : label loc) : acc loc :=
  match e with Rd o l _ => Acc t false (plain o) l | Wr o l _ => Acc t true (plain o) l end.

Hypothesis owned : forall t s o l v s', tstep t s (Wr o l v) s' -> owner l = t.
Hypothesis typed : forall t s e s', tstep t s e s' -> allowed (access t e).

Definition bounded h c V : Prop := (forall a, V (Seen a) <= c a) /\ forall l, V (Ts l) < length (h l).

Record vwf (σ : vstate loc T) : Prop := {
  vw_bounded : forall t, bounded (hist σ) (count σ) (thr σ t).2;
  vw_own : forall t w p l, (thr σ t).2 (Seen (Acc t w p l)) = count σ (Acc t w p l);
  vw_last : forall l, S ((thr σ (owner l)).2 (Ts l)) = length (hist σ l);
  vw_msg : forall l k m, hist σ l !! k = Some m -> bounded (hist σ) (count σ) (mview m);
  vw_typed : forall a, count σ a <> 0 -> allowed a;
}.

Lemma vle_refl V : vle V V.
Proof. by intros x. Qed.

Lemma vle_lower o V : vle (lower o V) V.
Proof. intros x. unfold lower, vbot. destruct (synchronizes o); lia. Qed.

Lemma vle_insert V x n : V x <= n -> vle V (<[x := n]> V).
Proof. intros Hn y. destruct (decide (y = x)) as [->|]; fn_simpl; lia. Qed.

Lemma write_view_le a n l ts V : V (Seen a) <= n -> V (Ts l) <= ts -> vle V (write_view a n l ts V).
Proof.
  intros Ha Hl x. unfold write_view. pose proof (vle_insert V (Ts l) ts Hl x).
  pose proof (vle_insert (<[Ts l := ts]> V) (Seen a) n) as Hi. rewrite fn_lookup_insert_ne in Hi by done.
  specialize (Hi Ha x). lia.
Qed.

Lemma read_view_le a n o l ts mv V :
  V (Seen a) <= n -> V (Ts l) <= ts -> vle V (read_view a n o l ts mv V) /\ vle (lower o mv) (read_view a n o l ts mv V).
Proof.
  intros Ha Hl. split; intros x; unfold read_view, vjoin; [|lia].
  pose proof (write_view_le a n l ts V Ha Hl x) as Hw. unfold write_view in Hw. lia.
Qed.

Lemma bounded_mono h h' c c' V :
  bounded h c V -> (forall a, c a <= c' a) -> (forall l, length (h l) <= length (h' l)) -> bounded h' c' V.
Proof. intros [Ha Hl] Hc Hh. split; [intros a; specialize (Ha a); specialize (Hc a)|intros l; specialize (Hl l); specialize (Hh l)]; lia. Qed.

Lemma count_le c a b : c b <= (<[a := S (c a)]> c) b.
Proof. destruct (decide (b = a)) as [->|]; fn_simpl; lia. Qed.

Lemma bounded_lower h c o V : (forall l, h l <> []) -> bounded h c V -> bounded h c (lower o V).
Proof.
  intros Hn [Ha Hl]. unfold lower. destruct (synchronizes o); [done|]. split; unfold vbot; [lia|].
  intros l. specialize (Hn l). destruct (h l); simpl; [done|lia].
Qed.

Lemma bounded_write h c V a l ts :
  bounded h c V -> ts < length (h l) -> bounded h (<[a := S (c a)]> c) (write_view a (S (c a)) l ts V).
Proof.
  intros [Ha Hl] Hts. unfold write_view. split.
  - intros b. specialize (Ha b). destruct (decide (b = a)) as [->|]; by fn_simpl.
  - intros k. specialize (Hl k). fn_simpl. destruct (decide (k = l)) as [->|]; by fn_simpl.
Qed.

Lemma bounded_join h c V W : bounded h c V -> bounded h c W -> bounded h c (vjoin V W).
Proof.
  intros [Ha Hl] [Ha' Hl']. split; [intros a; specialize (Ha a); specialize (Ha' a)|intros l; specialize (Hl l); specialize (Hl' l)];
    unfold vjoin; lia.
Qed.

Lemma hist_nonempty σ : vwf σ -> forall l, hist σ l <> [].
Proof. intros Hw l E. destruct (vw_bounded _ Hw true) as [_ Hl]. specialize (Hl l). rewrite E in Hl. simpl in Hl. lia. Qed.

Lemma typed_count σ t s e s' b :
  vwf σ -> tstep t s e s' -> <[access t e := S (count σ (access t e))]> (count σ) b <> 0 -> allowed b.
Proof.
  intros Hw Hst. destruct (decide (b = access t e)) as [->|]; fn_simpl; [|apply Hw]. intros _. by eapply typed.
Qed.

(** The view of a thread after it read. *)
Lemma bounded_read σ t o l ts m :
  vwf σ -> hist σ l !! ts = Some m -> let a := Acc t false (plain o) l in
  bounded (hist σ) (<[a := S (count σ a)]> (count σ)) (read_view a (S (count σ a)) o l ts (mview m) (thr σ t).2).
Proof.
  intros Hw Hl a. apply bounded_join.
  - apply bounded_write; [apply Hw|by eapply lookup_lt_Some].
  - apply bounded_lower; [by apply hist_nonempty|]. eapply bounded_mono; [by eapply Hw|apply count_le|done].
Qed.

Lemma read_wf h c th t s V o l v s' ts mv :
  vwf (VState h c th) -> th t = (s, V) -> tstep t s (Rd o l v) s' -> h l !! ts = Some (Msg v mv) -> V (Ts l) <= ts ->
  let a := Acc t false (plain o) l in
  vwf (VState h (<[a := S (c a)]> c) (<[t := (s', read_view a (S (c a)) o l ts mv V)]> th)).
Proof.
  intros Hw Eth Hst Hl HV a. pose proof (bounded_read _ t o _ _ _ Hw Hl) as Hb. simpl in Hb. rewrite Eth in Hb. simpl in Hb. fold a in Hb.
  set (V' := read_view a (S (c a)) o l ts mv V) in *. pose proof (vw_bounded _ Hw t) as [Ha Hts]. simpl in Ha, Hts. rewrite Eth in Ha, Hts.
  destruct (read_view_le a (S (c a)) o l ts mv V) as [Hle _]; [specialize (Ha a); simpl in Ha; lia|done|]. fold V' in Hle.
  split; simpl.
  - intros k. destruct (decide (k = t)) as [->|]; fn_simpl; [done|].
    eapply bounded_mono; [apply (vw_bounded _ Hw)|apply count_le|done].
  - intros k w p x. destruct (decide (k = t)) as [->|]; fn_simpl; simpl; [|unfold a; fn_simpl; apply (vw_own _ Hw)].
    destruct Hb as [Hb _]. specialize (Hb (Acc t w p x)). specialize (Hle (Seen (Acc t w p x))).
    pose proof (vw_own _ Hw t w p x) as Ho. simpl in Ho. rewrite Eth in Ho. simpl in Ho. fold V' in Hb.
    destruct (decide (Acc t w p x = a)) as [E|]; revert Hb; fn_simpl; intros Hb; [|lia]. rewrite E in *.
    assert (S (c a) <= V' (Seen a)) by (unfold V', read_view, vjoin; fn_simpl; lia). rewrite fn_lookup_insert in *. lia.
  - intros x. pose proof (vw_last _ Hw x) as Hx. simpl in Hx. destruct (decide (owner x = t)) as [E|]; [|by fn_simpl].
    rewrite E in *. fn_simpl. rewrite Eth in Hx. destruct Hb as [_ Hb]. specialize (Hb x). specialize (Hle (Ts x)). simpl in *. lia.
  - intros x k m Hm. eapply bounded_mono; [by eapply (vw_msg _ Hw)|apply count_le|done].
  - intros b. by apply (typed_count _ _ _ _ _ _ Hw Hst).
Qed.

Lemma write_wf h c th t s V o l v s' :
  vwf (VState h c th) -> th t = (s, V) -> tstep t s (Wr o l v) s' ->
  let a := Acc t true (plain o) l in
  let V' := write_view a (S (c a)) l (length (h l)) V in
  vwf (VState (<[l := h l ++ [Msg v (lower o V')]]> h) (<[a := S (c a)]> c) (<[t := (s', V')]> th)).
Proof.
  intros Hw Eth Hst a V'. set (h' := <[l := _]> h). pose proof (vw_bounded _ Hw t) as Hbt. simpl in Hbt. rewrite Eth in Hbt.
  assert (Hlen : forall x, length (h x) <= length (h' x)).
  { intros x. unfold h'. destruct (decide (x = l)) as [->|]; fn_simpl; rewrite ?length_app; lia. }
  assert (Hl' : length (h' l) = S (length (h l))) by (unfold h'; fn_simpl; rewrite length_app; simpl; lia).
  assert (Hb : bounded h' (<[a := S (c a)]> c) V').
  { apply bounded_write; [|lia]. by eapply bounded_mono; [exact Hbt| |]. }
  split; simpl.
  - intros k. destruct (decide (k = t)) as [->|]; fn_simpl; [done|].
    eapply bounded_mono; [apply (vw_bounded _ Hw)|apply count_le|done].
  - intros k w p x. destruct (decide (k = t)) as [->|]; fn_simpl; simpl; [|unfold a; fn_simpl; apply (vw_own _ Hw)].
    pose proof (vw_own _ Hw t w p x) as Ho. simpl in Ho. rewrite Eth in Ho. unfold V', write_view.
    destruct (decide (Acc t w p x = a)) as [->|]; by fn_simpl.
  - intros x. pose proof (vw_last _ Hw x) as Hx. simpl in Hx. pose proof (owned _ _ _ _ _ _ Hst) as Ho.
    destruct (decide (x = l)) as [->|].
    + rewrite Ho, Hl'. fn_simpl. simpl. unfold V', write_view. by fn_simpl.
    + unfold h'. rewrite (fn_lookup_insert_ne h l x) by done. destruct (decide (owner x = t)) as [E|]; [|by fn_simpl].
      rewrite E in *. fn_simpl. rewrite Eth in Hx. simpl in *. unfold V', write_view. by fn_simpl.
  - intros x k m. unfold h' at 1. destruct (decide (x = l)) as [->|]; fn_simpl.
    + intros [Hm|[_ Hm]]%lookup_app_Some.
      * eapply bounded_mono; [by eapply (vw_msg _ Hw)|apply count_le|done].
      * apply list_lookup_singleton_Some in Hm as [_ <-]. apply bounded_lower; [|done].
        intros y E. pose proof (Hlen y) as Hy. rewrite E in Hy. pose proof (hist_nonempty _ Hw y) as Hn. simpl in *.
        by destruct (h y); [|simpl in Hy; lia].
    + intros Hm. eapply bounded_mono; [by eapply (vw_msg _ Hw)|apply count_le|done].
  - intros b. by apply (typed_count _ _ _ _ _ _ Hw Hst).
Qed.

Lemma vstep_wf σ σ' : vstep tstep σ σ' -> vwf σ -> vwf σ'.
Proof. intros [] Hw; [by eapply read_wf|by eapply write_wf]. Qed.

Lemma init_wf m p : vwf (vinit m p).
Proof.
  split; simpl; try done; [by split; simpl; intros; unfold vbot; lia|].
  intros l k x Hx. apply list_lookup_singleton_Some in Hx as [_ <-]. split; simpl; intros; unfold vbot; lia.
Qed.

Definition target (e : label loc) : loc := match e with Rd _ l _ | Wr _ l _ => l end.
Definition writing (e : label loc) : bool := match e with Rd _ _ _ => false | Wr _ _ _ => true end.
Definition plainly (e : label loc) : bool := match e with Rd o _ _ | Wr o _ _ => plain o end.

(** A race is with an access the program makes. *)
Lemma race_allowed σ : vwf σ -> race tstep σ -> exists t e s' w' p',
  tstep t (thr σ t).1 e s' /\ (writing e || w') && (plainly e || p') = true /\
  allowed (Acc (negb t) w' p' (target e)) /\
  (thr σ t).2 (Seen (Acc (negb t) w' p' (target e))) < count σ (Acc (negb t) w' p' (target e)).
Proof.
  intros Hw (t & e & s' & Hst & Hr). exists t, e, s'.
  destruct e as [o l v|o l v]; destruct Hr as (w' & p' & Hc & Hlt); exists w', p'; simpl;
    (split; [done|split; [done|split; [apply (vw_typed _ Hw); lia|done]]]).
Qed.

End Accounting.
