(* ===== verification/RingArray.v ===== *)
(** * Single-producer single-consumer ring (include/cc_ring_array.h, src/cc_ring_array.c)

    The sequential functions come first.  The file then models the two threads
    the ring is made for as a step relation in which the producer's and the
    consumer's accesses to the shared struct interleave in any order: each
    thread takes its snapshot of the other's position, copies the element (the
    producer's copy may be seen half done), and publishes its own position.  The
    accesses are sequentially consistent here; [RingWeak] has the reorderings that
    weaker memory permits. *)

From S2P Require Import Prelude Mm.
Local Open Scope Z_scope.

Record ring_array := RingArray {
  elem_size : Z;
  cap : Z;
  rpos : Z;
  wpos : Z;
  data : list byte;
}.

(** size_t, three uint32_t and the padding in front of the union. *)
Definition RING_ARRAY_HDR_SIZE : Z := 24.

Definition set_rpos (a : ring_array) (p : Z) : ring_array :=
  RingArray (elem_size a) (cap a) p (wpos a) (data a).
Definition set_wpos (a : ring_array) (p : Z) : ring_array :=
  RingArray (elem_size a) (cap a) (rpos a) p (data a).
Definition set_data (a : ring_array) (d : list byte) : ring_array :=
  RingArray (elem_size a) (cap a) (rpos a) (wpos a) d.

Definition ring_array_nelem (r w c : Z) : Z :=
  if r <=? w then u32 (w - r) else u32 (w + (c - r + 1)).

Definition ring_array_full (a : ring_array) : bool :=
  ring_array_nelem (rpos a) (wpos a) (cap a) =? cap a.

Definition ring_array_empty (a : ring_array) : bool :=
  ring_array_nelem (rpos a) (wpos a) (cap a) =? 0.

(** x % (cap + 1) in uint32_t; [None] for a division by zero. *)
Definition wrap (a : ring_array) (x : Z) : option Z :=
  let n := u32 (cap a + 1) in if n =? 0 then None else Some (u32 x mod n).

(** The memcpy of push and of pop. *)
Definition copy_in (a : ring_array) (elem : list byte) : option ring_array :=
  d ← memwrite (data a) (elem_size a * wpos a) elem; Some (set_data a d).
Definition copy_out (a : ring_array) : option (list byte) :=
  memread (data a) (elem_size a * rpos a) (elem_size a).

Definition ring_array_push (elem : list byte) (a : ring_array) : option (Z * ring_array) :=
  if ring_array_full a then Some (CC_ERROR, a) else
  a ← copy_in a elem;
  new_wpos ← wrap a (wpos a + 1);
  Some (CC_OK, set_wpos a new_wpos).

(** [want]: elem is not NULL.  Returns what was copied to it. *)
Definition ring_array_pop (want : bool) (a : ring_array)
  : option (Z * option (list byte) * ring_array) :=
  if ring_array_empty a then Some (CC_ERROR, None, a) else
  elem ← (if want then v ← copy_out a; Some (Some v) else Some None);
  new_rpos ← wrap a (rpos a + 1);
  Some (CC_OK, elem, set_rpos a new_rpos).

Definition ring_array_flush (a : ring_array) : ring_array := set_rpos a (wpos a).

(** The size asked of the allocator, and the array in the block it returns. *)
Definition ring_array_bytes (es c : Z) : Z := u64 (RING_ARRAY_HDR_SIZE + es * u32 (c + 1)).

Definition ring_array_create (es c : Z) (mem : option (list byte)) : option ring_array :=
  match cc_alloc (ring_array_bytes es c) mem with
  | None => None
  | Some block => Some (RingArray es c 0 0 (drop (Z.to_nat RING_ARRAY_HDR_SIZE) block))
  end.

Definition ring_array_destroy (a : option (option ring_array)) : option (option ring_array) :=
  match a with
  | Some (Some _) => Some None
  | _ => a
  end.

(** ** The queue a ring represents *)

Definition slot (a : ring_array) (i : Z) : list byte := slice (data a) (elem_size a * i) (elem_size a).

Definition contents (a : ring_array) : list (list byte) :=
  map (fun k => slot a ((rpos a + Z.of_nat k) mod (cap a + 1)))
    (seq 0 (Z.to_nat (ring_array_nelem (rpos a) (wpos a) (cap a)))).

Record ring_wf (a : ring_array) : Prop := {
  rw_size : 0 < elem_size a;
  rw_cap : 0 <= cap a < 4294967295;
  rw_rpos : 0 <= rpos a <= cap a;
  rw_wpos : 0 <= wpos a <= cap a;
  rw_data : elem_size a * (cap a + 1) <= zlen (data a);
}.

(** [R] elements were taken and [W] put since some point in the past. *)
Record counts (a : ring_array) (R W : Z) : Prop := {
  ct_r : rpos a = R mod (cap a + 1);
  ct_w : wpos a = W mod (cap a + 1);
  ct_le : 0 <= R <= W;
  ct_cap : W - R <= cap a;
}.

Section Lemmas.
Implicit Types (a : ring_array) (v : list byte).

Ltac rwf H := destruct H as [Hes Hcap Hrp Hwp Hdat].

Lemma nelem_counts c R W :
  0 <= c < 4294967295 -> 0 <= R <= W -> W - R <= c ->
  ring_array_nelem (R mod (c + 1)) (W mod (c + 1)) c = W - R.
Proof.
  intros Hc HR HW. unfold ring_array_nelem.
  pose proof (Z.mod_pos_bound R (c + 1)). pose proof (Z.mod_pos_bound W (c + 1)).
  pose proof (Z.div_mod R (c + 1)). pose proof (Z.div_mod W (c + 1)).
  set (n := c + 1) in *. set (r := R mod n) in *. set (w := W mod n) in *.
  set (qr := R / n) in *. set (qw := W / n) in *.
  assert (Hq : qw = qr \/ qw = qr + 1) by nia.
  destruct Hq as [->| ->]; case_zcmp; rewrite u32_small; nia.
Qed.

Lemma wrap_eq a p : ring_wf a -> 0 <= p <= cap a -> wrap a (p + 1) = Some ((p + 1) mod (cap a + 1)).
Proof.
  intros H Hp; rwf H. unfold wrap. rewrite !u32_small by lia.
  destruct (Z.eqb_spec (cap a + 1) 0); [lia|done].
Qed.

Lemma counts_wf a R W : ring_wf a -> counts a R W ->
  ring_array_nelem (rpos a) (wpos a) (cap a) = W - R.
Proof. intros H [-> -> ? ?]; rwf H. by apply nelem_counts. Qed.

Lemma wf_counts a : ring_wf a ->
  counts a (rpos a) (rpos a + ring_array_nelem (rpos a) (wpos a) (cap a)).
Proof.
  intros H; rwf H. unfold ring_array_nelem.
  assert (Hm : forall x, 0 <= x <= cap a -> x mod (cap a + 1) = x) by (intros; apply Z.mod_small; lia).
  split.
  - by rewrite Hm.
  - case_zcmp; rewrite u32_small by lia.
    + replace (rpos a + (wpos a - rpos a)) with (wpos a) by lia. by rewrite Hm.
    + replace (rpos a + (wpos a + (cap a - rpos a + 1))) with (wpos a + 1 * (cap a + 1)) by lia.
      by rewrite Z.mod_add, Hm by lia.
  - case_zcmp; rewrite u32_small by lia; lia.
  - case_zcmp; rewrite u32_small by lia; lia.
Qed.

Lemma contents_counts a R W : ring_wf a -> counts a R W ->
  contents a = map (fun k => slot a ((R + Z.of_nat k) mod (cap a + 1))) (seq 0 (Z.to_nat (W - R))).
Proof.
  intros Hwf Hc. unfold contents. rewrite (counts_wf a R W) by done.
  destruct Hc as [-> _ _ _]. apply map_ext. intros k. by rewrite Zplus_mod_idemp_l.
Qed.

Lemma slot_set_pos a p i : slot (set_wpos a p) i = slot a i /\ slot (set_rpos a p) i = slot a i.
Proof. done. Qed.

(** Two positions less than a full turn apart are different slots. *)
Lemma slots_differ n i j : 0 < n -> i < j -> j - i < n -> i mod n ≠ j mod n.
Proof.
  intros Hn Hij Hd Heq. assert (Hm : (j - i) mod n = 0).
  { rewrite Zminus_mod, Heq, Z.sub_diag. apply Z.mod_0_l. lia. }
  rewrite Z.mod_small in Hm; lia.
Qed.

(** Copying an element in changes its slot only. *)
Lemma copy_in_spec a v :
  ring_wf a -> zlen v = elem_size a ->
  exists a', copy_in a v = Some a' /\ ring_wf a' /\
    a' = set_data a (data a') /\ slot a' (wpos a) = v /\
    (forall i, 0 <= i <= cap a -> i ≠ wpos a -> slot a' i = slot a i).
Proof.
  intros Hwf Hv. pose proof Hwf as H; rwf H. unfold copy_in.
  rewrite memwrite_some by nia. simpl. eexists. split; [done|].
  split; [split; simpl; try done; rewrite zlen_splice; nia|].
  split; [done|]. unfold slot. simpl. split.
  - rewrite <- Hv. apply slice_splice_same; nia.
  - intros i Hi Hne. destruct (Z.lt_ge_cases i (wpos a));
      [apply slice_splice_before|apply slice_splice_after]; nia.
Qed.

Lemma copy_out_spec a : ring_wf a -> copy_out a = Some (slot a (rpos a)).
Proof. intros H; rwf H. unfold copy_out. by rewrite memread_some by nia. Qed.

Lemma counts_push a R W : ring_wf a -> counts a R W -> W - R < cap a ->
  counts (set_wpos a ((wpos a + 1) mod (cap a + 1))) R (W + 1).
Proof.
  intros H [Hr Hw Hle Hc] Hlt; rwf H. split; simpl; [done| |lia|lia].
  by rewrite Hw, Zplus_mod_idemp_l.
Qed.

Lemma counts_pop a R W : ring_wf a -> counts a R W -> R < W ->
  counts (set_rpos a ((rpos a + 1) mod (cap a + 1))) (R + 1) W.
Proof.
  intros H [Hr Hw Hle Hc] Hlt; rwf H. split; simpl; [|done|lia|lia].
  by rewrite Hr, Zplus_mod_idemp_l.
Qed.

Lemma wf_set_wpos a p : ring_wf a -> ring_wf (set_wpos a (p mod (cap a + 1))).
Proof.
  intros H; rwf H. pose proof (Z.mod_pos_bound p (cap a + 1)).
  split; simpl; try done; lia.
Qed.

Lemma wf_set_rpos a p : ring_wf a -> ring_wf (set_rpos a (p mod (cap a + 1))).
Proof.
  intros H; rwf H. pose proof (Z.mod_pos_bound p (cap a + 1)).
  split; simpl; try done; lia.
Qed.

(** ** Sequential behaviour *)

Lemma push_seq a v :
  ring_wf a -> zlen v = elem_size a ->
  if zlen (contents a) =? cap a then ring_array_push v a = Some (CC_ERROR, a)
  else exists a', ring_array_push v a = Some (CC_OK, a') /\ ring_wf a' /\
    contents a' = contents a ++ [v] /\ cap a' = cap a.
Proof.
  intros Hwf Hv. pose proof (wf_counts a Hwf) as Hc.
  set (R := rpos a) in Hc. set (W := R + _) in Hc.
  rewrite (contents_counts a R W) by done. unfold zlen at 1. rewrite length_map, length_seq.
  unfold ring_array_push, ring_array_full. rewrite (counts_wf a R W) by done.
  pose proof Hc as [Hr Hw Hle Hcp]. rewrite Z2Nat.id by lia.
  destruct (Z.eqb_spec (W - R) (cap a)) as [|Hne]; [done|].
  destruct (copy_in_spec a v Hwf Hv) as (a1 & -> & Hwf1 & Ha1 & Hs1 & Hs2). simpl.
  assert (H1 : wpos a1 = wpos a /\ rpos a1 = rpos a /\ cap a1 = cap a) by (by rewrite Ha1).
  destruct H1 as (Hwp & Hrp & Hcp1).
  assert (Hc1 : counts a1 R W) by (rewrite Ha1; by split).
  rewrite wrap_eq by (done || apply Hwf1). simpl. eexists. split; [done|].
  pose proof (counts_push a1 R W Hwf1 Hc1) as Hc2.
  pose proof (wf_set_wpos a1 (wpos a1 + 1) Hwf1) as Hwf2.
  split; [done|]. split; [|by simpl].
  rewrite (contents_counts _ R (W + 1)) by (done || apply Hc2; lia). simpl.
  replace (Z.to_nat (W + 1 - R)) with (Z.to_nat (W - R) + 1)%nat by lia.
  rewrite seq_app, map_app, Hcp1. f_equal.
  - apply map_ext_in. intros k [_ Hk]%in_seq. simpl.
    rewrite (proj1 (slot_set_pos a1 _ _)). pose proof (Z.mod_pos_bound (R + Z.of_nat k) (cap a + 1)).
    apply Hs2; [lia|]. rewrite Hw. apply slots_differ; lia.
  - simpl. f_equal. rewrite (proj1 (slot_set_pos a1 _ _)), Z2Nat.id by lia.
    replace (R + (W - R)) with W by lia. by rewrite <- Hw.
Qed.

Lemma pop_seq a want :
  ring_wf a ->
  match contents a with
  | [] => ring_array_pop want a = Some (CC_ERROR, None, a)
  | x :: l => exists a', ring_array_pop want a =
      Some (CC_OK, if want then Some x else None, a') /\ ring_wf a' /\
      contents a' = l /\ cap a' = cap a
  end.
Proof.
  intros Hwf. pose proof (wf_counts a Hwf) as Hc.
  set (R := rpos a) in Hc. set (W := R + _) in Hc.
  rewrite (contents_counts a R W) by done.
  unfold ring_array_pop, ring_array_empty. rewrite (counts_wf a R W) by done.
  pose proof Hc as [Hr Hw Hle Hcp].
  destruct (Z.eqb_spec (W - R) 0) as [->|Hne]; [done|].
  replace (Z.to_nat (W - R)) with (S (Z.to_nat (W - (R + 1)))) by lia. simpl.
  rewrite copy_out_spec, Z.add_0_r, <- Hr by done.
  rewrite wrap_eq by (done || apply Hwf).
  pose proof (counts_pop a R W Hwf Hc) as Hc2.
  pose proof (wf_set_rpos a (rpos a + 1) Hwf) as Hwf2.
  exists (set_rpos a ((rpos a + 1) mod (cap a + 1))). split; [by destruct want|].
  split; [done|]. split; [|done].
  rewrite (contents_counts _ (R + 1) W) by (done || apply Hc2; lia). simpl.
  rewrite <- seq_shift, map_map. apply map_ext. intros k.
  rewrite (proj2 (slot_set_pos a _ _)). do 2 f_equal. lia.
Qed.

Lemma flush_seq a : ring_wf a -> ring_wf (ring_array_flush a) /\ contents (ring_array_flush a) = [].
Proof.
  intros H; rwf H. split; [split; simpl; done|]. unfold contents, ring_array_nelem. simpl.
  by rewrite Z.leb_refl, Z.sub_diag.
Qed.

Lemma create_seq es c block :
  0 < es -> 0 <= c < 4294967295 -> RING_ARRAY_HDR_SIZE + es * (c + 1) <= UINT64_MAX ->
  zlen block = ring_array_bytes es c ->
  exists a, ring_array_create es c (Some block) = Some a /\ ring_wf a /\ contents a = [] /\
    cap a = c /\ elem_size a = es.
Proof.
  intros Hes Hc Hb Hl. unfold ring_array_create, cc_alloc, UINT64_MAX in *.
  unfold ring_array_bytes, RING_ARRAY_HDR_SIZE in *.
  rewrite (u32_small (c + 1)) in * by lia. rewrite u64_small in * by nia.
  destruct (Z.eqb_spec (24 + es * (c + 1)) 0); [nia|].
  eexists. split; [done|]. split; [|done]. split; simpl; try lia.
  unfold RING_ARRAY_HDR_SIZE. rewrite zlen_drop; nia.
Qed.

End Lemmas.

(** ** Two threads

    [PChecked v]: the producer, inside ring_array_push, saw the ring not full
    and has yet to finish copying [v]; [PCopied v]: wpos is not yet published.
    [CChecked want], [CReady r]: the consumer in ring_array_pop before and after
    its copy; [CFlushing w]: ring_array_flush with its snapshot of wpos.  The
    ghost fields record the elements published by the producer and those the
    consumer took, with [true] for those copied out to a caller. *)

Inductive producer := PIdle | PChecked (v : list byte) | PCopied (v : list byte).
Inductive consumer :=
| CIdle
| CChecked (want : bool)
| CReady (r : option (list byte))
| CFlushing (w : Z).

Record conc := Conc {
  ring : ring_array;
  prod : producer;
  cons : consumer;
  pushed : list (list byte);
  taken : list (bool * list byte);
}.

(** The elements from rpos to the position [w]. *)
Definition upto (a : ring_array) (w : Z) : list (list byte) :=
  map (fun k => slot a ((rpos a + Z.of_nat k) mod (cap a + 1)))
    (seq 0 (Z.to_nat (ring_array_nelem (rpos a) w (cap a)))).

Inductive rstep : conc -> conc -> Prop :=
| Push_full a c ps ts :
    ring_array_full a = true -> rstep (Conc a PIdle c ps ts) (Conc a PIdle c ps ts)
| Push_check a c ps ts v :
    zlen v = elem_size a -> ring_array_full a = false ->
    rstep (Conc a PIdle c ps ts) (Conc a (PChecked v) c ps ts)
| Push_partial a c ps ts v g a' :
    zlen g = elem_size a -> copy_in a g = Some a' ->
    rstep (Conc a (PChecked v) c ps ts) (Conc a' (PChecked v) c ps ts)
| Push_copy a c ps ts v a' :
    copy_in a v = Some a' -> rstep (Conc a (PChecked v) c ps ts) (Conc a' (PCopied v) c ps ts)
| Push_publish a c ps ts v p :
    wrap a (wpos a + 1) = Some p ->
    rstep (Conc a (PCopied v) c ps ts) (Conc (set_wpos a p) PIdle c (ps ++ [v]) ts)
| Pop_empty a p ps ts :
    ring_array_empty a = true -> rstep (Conc a p CIdle ps ts) (Conc a p CIdle ps ts)
| Pop_check a p ps ts want :
    ring_array_empty a = false -> rstep (Conc a p CIdle ps ts) (Conc a p (CChecked want) ps ts)
| Pop_copy a p ps ts v :
    copy_out a = Some v ->
    rstep (Conc a p (CChecked true) ps ts) (Conc a p (CReady (Some v)) ps ts)
| Pop_skip a p ps ts :
    rstep (Conc a p (CChecked false) ps ts) (Conc a p (CReady None) ps ts)
| Pop_publish a p ps ts r q :
    wrap a (rpos a + 1) = Some q ->
    rstep (Conc a p (CReady r) ps ts)
      (Conc (set_rpos a q) p CIdle ps
         (ts ++ [match r with Some v => (true, v) | None => (false, slot a (rpos a)) end]))
| Flush_load a p ps ts :
    rstep (Conc a p CIdle ps ts) (Conc a p (CFlushing (wpos a)) ps ts)
| Flush_store a p ps ts w :
    rstep (Conc a p (CFlushing w) ps ts)
      (Conc (set_rpos a w) p CIdle ps (ts ++ map (pair false) (upto a w))).

(** [held a R W ps]: the slots from [R] to [W] hold the elements of [ps]. *)
Definition held (a : ring_array) (R W : Z) (ps : list (list byte)) : Prop :=
  forall i, R <= i < W -> ps !! Z.to_nat i = Some (slot a (i mod (cap a + 1))).

Definition prod_ok (a : ring_array) (p : producer) (R W : Z) : Prop :=
  match p with
  | PIdle => True
  | PChecked v => zlen v = elem_size a /\ W - R < cap a
  | PCopied v => W - R < cap a /\ slot a (wpos a) = v
  end.

Definition cons_ok (a : ring_array) (c : consumer) (R W : Z) (ps : list (list byte)) : Prop :=
  match c with
  | CIdle => True
  | CChecked _ => R < W
  | CReady r => R < W /\ (forall v, r = Some v -> ps !! Z.to_nat R = Some v)
  | CFlushing w => exists W0, R <= W0 <= W /\ w = W0 mod (cap a + 1)
  end.

Record conc_inv (c : conc) : Prop := {
  ci_wf : ring_wf (ring c);
  ci_counts : counts (ring c) (zlen (taken c)) (zlen (pushed c));
  ci_taken : map snd (taken c) = take (length (taken c)) (pushed c);
  ci_held : held (ring c) (zlen (taken c)) (zlen (pushed c)) (pushed c);
  ci_prod : prod_ok (ring c) (prod c) (zlen (taken c)) (zlen (pushed c));
  ci_cons : cons_ok (ring c) (cons c) (zlen (taken c)) (zlen (pushed c)) (pushed c);
}.

Section Threads.
Implicit Types (a : ring_array) (ps : list (list byte)).

(** The producer's copy leaves the published slots alone. *)
Lemma copy_held a a' v R W ps :
  ring_wf a -> counts a R W -> W - R < cap a -> zlen v = elem_size a -> copy_in a v = Some a' ->
  held a R W ps ->
  ring_wf a' /\ a' = set_data a (data a') /\ held a' R W ps /\ slot a' (wpos a') = v.
Proof.
  intros Hwf Hc Hlt Hv E Hh. destruct (copy_in_spec a v Hwf Hv) as (a1 & E1 & Hwf1 & Ha1 & Hs1 & Hs2).
  rewrite E1 in E. simplify_eq. split; [done|]. split; [done|].
  assert (H1 : wpos a' = wpos a /\ cap a' = cap a) by (by rewrite Ha1).
  destruct H1 as [Hw Hcap]. split; [|by rewrite Hw].
  intros i Hi. rewrite (Hh i Hi), Hcap. f_equal. symmetry. destruct Hwf.
  pose proof (Z.mod_pos_bound i (cap a + 1)). apply Hs2; [lia|].
  destruct Hc as [_ -> _ Hcp]. apply slots_differ; lia.
Qed.

Lemma counts_data a d R W : counts a R W -> counts (set_data a d) R W.
Proof. by intros []. Qed.

Lemma take_more {A} (l k : list A) n : (n <= length l)%nat -> take n (l ++ k) = take n l.
Proof. intros. by rewrite take_app_le. Qed.

(** The elements up to a snapshot are the next ones of the history. *)
Lemma upto_held a R W W0 ps :
  ring_wf a -> counts a R W -> held a R W ps -> R <= W0 <= W ->
  upto a (W0 mod (cap a + 1)) = take (Z.to_nat (W0 - R)) (drop (Z.to_nat R) ps) /\
  zlen (upto a (W0 mod (cap a + 1))) = W0 - R.
Proof.
  intros Hwf [Hr Hw Hle Hcp] Hh H0. destruct Hwf. unfold upto. rewrite Hr, nelem_counts by lia.
  split; [|unfold zlen; rewrite length_map, length_seq; lia].
  apply list_eq. intros i. destruct (decide (i < Z.to_nat (W0 - R))%nat) as [Hi|Hi].
  - rewrite list_lookup_fmap, lookup_seq_lt by done. simpl.
    rewrite lookup_take_lt, lookup_drop by done.
    replace (Z.to_nat R + i)%nat with (Z.to_nat (R + Z.of_nat i)) by lia.
    rewrite (Hh (R + Z.of_nat i)) by lia. by rewrite Zplus_mod_idemp_l.
  - rewrite !lookup_ge_None_2; [done| |].
    + rewrite length_take. lia.
    + rewrite length_map, length_seq. lia.
Qed.

Lemma nelem_zero a R W : ring_wf a -> counts a R W -> ring_array_empty a = false -> R < W.
Proof.
  intros Hwf Hc. unfold ring_array_empty. rewrite (counts_wf a R W) by done.
  destruct Hc. intros H%Z.eqb_neq. lia.
Qed.

Lemma nelem_full a R W : ring_wf a -> counts a R W -> ring_array_full a = false -> W - R < cap a.
Proof.
  intros Hwf Hc. unfold ring_array_full. rewrite (counts_wf a R W) by done.
  destruct Hc. intros H%Z.eqb_neq. lia.
Qed.

(** The producer publishes the element it has copied. *)
Lemma publish_inv a c ps ts v p :
  conc_inv (Conc a (PCopied v) c ps ts) -> wrap a (wpos a + 1) = Some p ->
  conc_inv (Conc (set_wpos a p) PIdle c (ps ++ [v]) ts).
Proof.
  intros [Hwf Hc Ht Hh [Hlt Hs] Hco] E. simpl in *. rewrite wrap_eq in E by (done || apply Hwf). simplify_eq.
  pose proof (counts_push a _ _ Hwf Hc Hlt) as Hc'.
  assert (Hzl : (length ts <= length ps)%nat) by (destruct Hc; unfold zlen in *; lia).
  assert (Hl : zlen (ps ++ [slot a (wpos a)]) = zlen ps + 1) by (rewrite zlen_app; done).
  split; simpl; rewrite ?Hl; try done.
  - by apply wf_set_wpos.
  - by rewrite take_more.
  - intros i Hi. destruct (decide (i = zlen ps)) as [->|].
    + rewrite lookup_app_r by (unfold zlen; lia). destruct Hc as [_ Hw _ _].
      replace (Z.to_nat (zlen ps) - length ps)%nat with 0%nat by (unfold zlen; lia).
      simpl. by rewrite <- Hw.
    + rewrite lookup_app_l by (unfold zlen in *; lia). apply Hh. lia.
  - destruct c as [|want|r|w]; simpl in *; try lia.
    + destruct Hco as [Hco Hr]. split; [lia|]. intros v Hv. specialize (Hr v Hv). by apply lookup_app_l_Some.
    + destruct Hco as (W0 & ? & ?). exists W0. split; [lia|done].
Qed.

(** The consumer gives the slot it has read back. *)
Lemma release_inv a p ps ts r q :
  conc_inv (Conc a p (CReady r) ps ts) -> wrap a (rpos a + 1) = Some q ->
  conc_inv (Conc (set_rpos a q) p CIdle ps
    (ts ++ [match r with Some v => (true, v) | None => (false, slot a (rpos a)) end])).
Proof.
  intros [Hwf Hc Ht Hh Hp [Hlt Hr]] E. simpl in *. rewrite wrap_eq in E by (done || apply Hwf). simplify_eq.
  pose proof (counts_pop a _ _ Hwf Hc Hlt) as Hc'.
  assert (Hnx : ps !! length ts = Some (slot a (rpos a))).
  { pose proof (Hh (zlen ts)) as Hx. destruct Hc as [-> _ _ _]. unfold zlen in *.
    rewrite Nat2Z.id in Hx. apply Hx. lia. }
  set (x := match r with Some v => (true, v) | None => (false, slot a (rpos a)) end).
  assert (Hx : x.2 = slot a (rpos a)).
  { unfold x. destruct r as [v|]; [|done]. specialize (Hr v eq_refl). simpl.
    unfold zlen in Hr. rewrite Nat2Z.id in Hr. congruence. }
  assert (Hl : zlen (ts ++ [x]) = zlen ts + 1) by (rewrite zlen_app; done).
  split; simpl; rewrite ?Hl; try done.
  - by apply wf_set_rpos.
  - rewrite map_app, Ht, length_app. simpl. rewrite Hx, Nat.add_1_r. by rewrite (take_S_r _ _ _ Hnx).
  - intros i Hi. apply Hh. lia.
  - destruct p; simpl in *; intuition lia.
Qed.

(** The consumer drops what its snapshot holds. *)
Lemma flush_inv a p ps ts w :
  conc_inv (Conc a p (CFlushing w) ps ts) ->
  conc_inv (Conc (set_rpos a w) p CIdle ps (ts ++ map (pair false) (upto a w))).
Proof.
  intros [Hwf Hc Ht Hh Hp (W0 & HW0 & ->)]. simpl in *.
  destruct (upto_held a _ _ W0 ps Hwf Hc Hh HW0) as [Hu Hlu].
  assert (Hl : zlen (ts ++ map (pair false) (upto a (W0 mod (cap a + 1)))) = W0).
  { rewrite zlen_app. unfold zlen in *. rewrite length_map. lia. }
  split; simpl; rewrite ?Hl; try done.
  - by apply wf_set_rpos.
  - destruct Hc. split; simpl; try done; lia.
  - rewrite length_app, length_map. unfold zlen in *.
    replace (length (upto a (W0 mod (cap a + 1)))) with (Z.to_nat (W0 - Z.of_nat (length ts))) by lia.
    rewrite map_app, map_map. simpl. rewrite map_id, Ht, Hu, Nat2Z.id. apply take_take_drop.
  - intros i Hi. apply Hh. lia.
  - destruct p; simpl in *; intuition lia.
Qed.

Lemma rstep_inv c c' : rstep c c' -> conc_inv c -> conc_inv c'.
Proof.
  intros Hst Hinv.
  destruct Hst as [a c ps ts Hf|a c ps ts v Hv Hf|a c ps ts v g a' Hg E|a c ps ts v a' E|
    a c ps ts v p E|a p ps ts E|a p ps ts want E|a p ps ts v E|a p ps ts|a p ps ts r q E|
    a p ps ts|a p ps ts w]; try (by apply publish_inv); try (by apply release_inv); try (by apply flush_inv);
    destruct Hinv as [Hwf Hc Ht Hh Hp Hco]; simpl in *; try (by split).
  - split; try done. split; [done|]. by apply (nelem_full a).
  - destruct Hp as [Hv Hlt].
    destruct (copy_held a a' g _ _ ps Hwf Hc Hlt Hg E Hh) as (Hwf' & Ha' & Hh' & _).
    rewrite Ha' in *. split; simpl; try done; by apply counts_data.
  - destruct Hp as [Hv Hlt].
    destruct (copy_held a a' v _ _ ps Hwf Hc Hlt Hv E Hh) as (Hwf' & Ha' & Hh' & Hs).
    rewrite Ha' in *. split; simpl; try done; by apply counts_data.
  - split; try done. by apply (nelem_zero a).
  - split; simpl; try done. split; [done|]. intros v0 [= <-].
    rewrite copy_out_spec in E by done. simplify_eq.
    rewrite (Hh (zlen ts)) by lia. destruct Hc as [-> _ _ _]. done.
  - split; simpl; try done. exists (zlen ps). destruct Hc as [_ -> ? _]. split; [lia|done].
Qed.

Definition conc_start a : conc := Conc a PIdle CIdle [] [].

Lemma start_inv a : ring_wf a -> rpos a = 0 -> wpos a = 0 -> conc_inv (conc_start a).
Proof.
  intros Hwf Hr Hw. destruct Hwf as [? ? ? ? ?].
  split; simpl; [by split| |done| |done|done].
  - split; unfold zlen; simpl; rewrite ?Z.mod_0_l by lia; lia.
  - intros i Hi. unfold zlen in Hi. simpl in Hi. lia.
Qed.

Lemma reach_inv a c :
  ring_wf a -> rpos a = 0 -> wpos a = 0 -> rtc rstep (conc_start a) c -> conc_inv c.
Proof.
  intros Hwf Hr Hw Hrt. remember (conc_start a) as c0 eqn:E.
  assert (H0 : conc_inv c0) by (subst; by apply start_inv). clear E.
  induction Hrt; eauto using rstep_inv.
Qed.

End Threads.

(** ** Properties *)

(** C4: used by one thread, a ring is a bounded queue:
    push appends unless the queue already holds cap elements, when it
    fails and changes nothing; pop takes the oldest element, copying it out if a
    destination is given, and fails on an empty queue; flush empties it. *)
Theorem ring_array_fifo (a : ring_array) (v : list byte) (want : bool) :
  ring_wf a -> zlen v = elem_size a ->
  (if zlen (contents a) =? cap a then ring_array_push v a = Some (CC_ERROR, a)
   else exists a', ring_array_push v a = Some (CC_OK, a') /\ ring_wf a' /\
     contents a' = contents a ++ [v] /\ cap a' = cap a) /\
  match contents a with
  | [] => ring_array_pop want a = Some (CC_ERROR, None, a)
  | x :: l => exists a', ring_array_pop want a =
      Some (CC_OK, if want then Some x else None, a') /\ ring_wf a' /\
      contents a' = l /\ cap a' = cap a
  end /\
  ring_wf (ring_array_flush a) /\ contents (ring_array_flush a) = [].
Proof.
  intros Hwf Hv. split; [by apply push_seq|]. split; [by apply pop_seq|by apply flush_seq].
Qed.

(** A ring of capacity 2 with 1-byte elements, as created. *)
Definition ring2 : ring_array := RingArray 1 2 0 0 [0; 0; 0].

Lemma ring2_wf : ring_wf ring2.
Proof. split; vm_compute; try split; congruence. Qed.

Lemma ring_array_fifo_witness :
  exists a', ring_array_push [5] ring2 = Some (CC_OK, a') /\ contents a' = [[5]].
Proof.
  destruct (ring_array_fifo ring2 [5] true ring2_wf eq_refl) as [(a' & H1 & _ & H2 & _) _].
  exists a'. split; [exact H1|exact H2].
Defined.

(** With one producer and one consumer whose accesses interleave in
    any order, in every reachable state the elements the consumer took (copied
    out or flushed), followed by those in the ring, are exactly the elements the
    producer published, in order: nothing is lost, duplicated, reordered or read
    half written.  The ring never holds more than cap elements, and no access of
    either thread leaves the allocated slots. *)
Theorem ring_array_spsc (a : ring_array) (c : conc) :
  ring_wf a -> rpos a = 0 -> wpos a = 0 -> rtc rstep (conc_start a) c ->
  map snd (taken c) ++ contents (ring c) = pushed c /\
  zlen (contents (ring c)) <= cap (ring c) /\
  (forall v, cons c = CReady (Some v) -> head (contents (ring c)) = Some v) /\
  (forall v, prod c = PChecked v -> is_Some (copy_in (ring c) v)) /\
  is_Some (copy_out (ring c)).
Proof.
  intros Hwf Hr Hw Hrt. destruct (reach_inv a c Hwf Hr Hw Hrt) as [Hwf' Hc Ht Hh Hp Hco].
  assert (HU : upto (ring c) (wpos (ring c)) = contents (ring c)) by done.
  pose proof Hc as [Hcr Hcw Hle Hcp].
  destruct (upto_held (ring c) _ _ (zlen (pushed c)) (pushed c) Hwf' Hc Hh) as [Hu Hlu]; [lia|].
  rewrite <- Hcw, HU in Hu, Hlu.
  assert (Hu' : contents (ring c) = drop (length (taken c)) (pushed c)).
  { rewrite Hu. unfold zlen in *. rewrite Nat2Z.id, take_ge; [done|]. rewrite length_drop. lia. }
  split_and!.
  - rewrite Ht, Hu'. apply take_drop.
  - lia.
  - intros v Hv. rewrite Hv in Hco. destruct Hco as [_ Hco]. specialize (Hco v eq_refl).
    rewrite Hu'. unfold zlen in Hco. rewrite Nat2Z.id in Hco. by rewrite (drop_S _ _ _ Hco).
  - intros v Hv. rewrite Hv in Hp. destruct Hp as [Hz _].
    destruct (copy_in_spec (ring c) v Hwf' Hz) as (a' & -> & _). eauto.
  - rewrite copy_out_spec by done. eauto.
Qed.

Lemma ring_array_spsc_witness :
  exists c, rtc rstep (conc_start ring2) c /\ pushed c = [[5]] /\
    map snd (taken c) ++ contents (ring c) = [[5]].
Proof.
  assert (H : exists c, rtc rstep (conc_start ring2) c /\ pushed c = [[5]]).
  { eexists. split.
    - eapply rtc_l; [apply (Push_check _ _ _ _ [5]); reflexivity|].
      eapply rtc_l; [apply (Push_partial _ _ _ _ _ [9]); reflexivity|].
      eapply rtc_l; [eapply Push_copy; reflexivity|].
      eapply rtc_l; [eapply Push_publish; reflexivity|].
      eapply rtc_l; [apply (Pop_check _ _ _ _ true); reflexivity|].
      eapply rtc_l; [eapply Pop_copy; reflexivity|]. apply rtc_refl.
    - reflexivity. }
  destruct H as (c & Hr & Hp). exists c. split; [exact Hr|]. split; [exact Hp|].
  destruct (ring_array_spsc ring2 c ring2_wf eq_refl eq_refl Hr) as [H _].
  rewrite H. exact Hp.
Defined.
