(* ===== verification/RingWeak.v ===== *)
(** * The ring array on shared memory (src/cc_ring_array.c)

    The accesses of ring_array_push, ring_array_pop and ring_array_flush to the
    shared struct, one by one and with their orderings, as the two programs of
    [WeakMem].  The copies move single bytes in any order.

    On x86 (store buffers) the ring is a queue.  The source asks for
    __ATOMIC_RELAXED only, and for C11 that is not enough: [ring_array_relaxed]
    is a run in which pop returns an element that was never pushed.  With acquire
    loads and release stores in the same places the ring is a queue without data
    races in the model of views, which is also how x86 is proved. *)

From S2P Require Import Prelude RingArray WeakMem.
From Stdlib Require Import Sorted.
Local Open Scope Z_scope.

Inductive loc := LRpos | LWpos | LData (off : Z).

#[global] Instance loc_eq_dec : EqDecision loc.
Proof. solve_decision. Defined.

(** Where the producer is: before a push, after the load of rpos, after the test
    for room, in the copy ([todo]: the bytes to copy) and before the store. *)
Inductive push_pc :=
| PIdle
| PCheck (v : list byte) (r : Z)
| PAddr (v : list byte)
| PCopy (v : list byte) (w : Z) (todo : list nat)
| PStore (v : list byte) (p : Z).

(** Where the consumer is; [dst] is what elem points to, [None] for NULL. *)
Inductive pop_pc :=
| CIdle
| CCheck (dst : option (list byte)) (w : Z)
| CAddr (dst : list byte)
| CCopy (dst : list byte) (r : Z) (todo : list nat)
| CNext
| CStore (x : option (list byte)) (p : Z)
| CFlush (w : Z).

(** A thread with what it has done: the elements pushed; the number of elements
    taken and those copied out, each with its number. *)
Inductive thread :=
| Prod (pc : push_pc) (ps : list (list byte))
| Cons (pc : pop_pc) (R : nat) (got : list (nat * list byte)).

Section Programs.
(** elem_size and cap do not change. *)
Context (a : ring_array) (load store : ordering).

Definition all_bytes : list nat := seq 0 (Z.to_nat (elem_size a)).

(** ring_array_push *)
Inductive push_step : thread -> label loc -> thread -> Prop :=
| Push_load v r ps :
    zlen v = elem_size a ->
    push_step (Prod PIdle ps) (Rd load LRpos r) (Prod (PCheck v r) ps)
| Push_check v r w ps :
    push_step (Prod (PCheck v r) ps) (Rd Plain LWpos w)
      (Prod (if ring_array_nelem r w (cap a) =? cap a then PIdle else PAddr v) ps)
| Push_addr v w ps :
    push_step (Prod (PAddr v) ps) (Rd Plain LWpos w) (Prod (PCopy v w all_bytes) ps)
| Push_byte v w b j c x ps :
    v !! j = Some x ->
    push_step (Prod (PCopy v w (b ++ j :: c)) ps) (Wr Plain (LData (elem_size a * w + Z.of_nat j)) x)
      (Prod (PCopy v w (b ++ c)) ps)
| Push_next v w w' p ps :
    wrap a (w' + 1) = Some p ->
    push_step (Prod (PCopy v w []) ps) (Rd Plain LWpos w') (Prod (PStore v p) ps)
| Push_store v p ps :
    push_step (Prod (PStore v p) ps) (Wr store LWpos p) (Prod PIdle (ps ++ [v])).

(** ring_array_pop and ring_array_flush *)
Inductive pop_step : thread -> label loc -> thread -> Prop :=
| Pop_load dst w R g :
    match dst with Some d => zlen d = elem_size a | None => True end ->
    pop_step (Cons CIdle R g) (Rd load LWpos w) (Cons (CCheck dst w) R g)
| Pop_check dst w r R g :
    pop_step (Cons (CCheck dst w) R g) (Rd Plain LRpos r)
      (Cons (if ring_array_nelem r w (cap a) =? 0 then CIdle
             else match dst with Some d => CAddr d | None => CNext end) R g)
| Pop_addr d r R g :
    pop_step (Cons (CAddr d) R g) (Rd Plain LRpos r) (Cons (CCopy d r all_bytes) R g)
| Pop_byte d r b j c x R g :
    pop_step (Cons (CCopy d r (b ++ j :: c)) R g) (Rd Plain (LData (elem_size a * r + Z.of_nat j)) x)
      (Cons (CCopy (<[j := x]> d) r (b ++ c)) R g)
| Pop_copied d r r' p R g :
    wrap a (r' + 1) = Some p ->
    pop_step (Cons (CCopy d r []) R g) (Rd Plain LRpos r') (Cons (CStore (Some d) p) R g)
| Pop_dropped r' p R g :
    wrap a (r' + 1) = Some p ->
    pop_step (Cons CNext R g) (Rd Plain LRpos r') (Cons (CStore None p) R g)
| Pop_store x p R g :
    pop_step (Cons (CStore x p) R g) (Wr store LRpos p)
      (Cons CIdle (S R) (match x with Some d => g ++ [(R, d)] | None => g end))
| Flush_load w R g :
    pop_step (Cons CIdle R g) (Rd load LWpos w) (Cons (CFlush w) R g)
| Flush_store w R g :
    pop_step (Cons (CFlush w) R g) (Wr store LRpos w)
      (Cons CIdle (R + Z.to_nat ((w - Z.of_nat R) mod (cap a + 1))) g).

Definition ring_step (t : bool) : thread -> label loc -> thread -> Prop :=
  if t then pop_step else push_step.

(** The ring in memory when the threads start. *)
Definition ring_mem (l : loc) : Z :=
  match l with
  | LRpos => rpos a
  | LWpos => wpos a
  | LData off => nth (Z.to_nat off) (data a) 0
  end.
Definition ring_threads (t : bool) : thread := if t then Cons CIdle 0 [] else Prod PIdle [].

Definition owner (l : loc) : bool := match l with LRpos => true | _ => false end.

(** The accesses of the two threads. *)
Definition allowed (x : acc loc) : Prop :=
  match x with
  | Acc false false p l => l = LRpos /\ p = plain load \/ l = LWpos /\ p = true
  | Acc false true p l => l = LWpos /\ p = plain store \/ (exists o, l = LData o) /\ p = true
  | Acc true false p l => l = LWpos /\ p = plain load \/ (l = LRpos \/ exists o, l = LData o) /\ p = true
  | Acc true true p l => l = LRpos /\ p = plain store
  end.

Lemma ring_owned t s o l v s' : ring_step t s (Wr o l v) s' -> owner l = t.
Proof. destruct t; inversion 1; done. Qed.

Lemma ring_typed t s e s' : ring_step t s e s' -> allowed (access t e).
Proof. destruct t; inversion 1; simpl; eauto 6. Qed.

End Programs.

(** ** The invariant, with acquire loads and release stores *)

Section Queue.
Context (a : ring_array) (Hwf : ring_wf a).
Implicit Types (h : loc -> list (msg loc)) (cnt : acc loc -> nat) (V : view loc) (ps : list (list byte)) (e i j k r R W : nat).

Let es : nat := Z.to_nat (elem_size a).
Let c : nat := Z.to_nat (cap a).
Let n : nat := S c.

(** The position of element [k], where byte [j] of element [e] is, and how often
    its slot was written before. *)
Definition pos k : Z := Z.of_nat k mod (cap a + 1).
Definition at_byte e j : loc := LData (elem_size a * pos e + Z.of_nat j).
Definition lap e : nat := (e / n)%nat.

Definition writes e j : acc loc := Acc false true true (at_byte e j).
Definition reads e j : acc loc := Acc true false true (at_byte e j).

(** [V] knows the first [k] elements. *)
Definition covers V k : Prop := forall i j, (i < k)%nat -> (j < es)%nat ->
  (S (lap i) <= V (Ts (at_byte i j)))%nat /\ (S (lap i) <= V (Seen (writes i j)))%nat.

(** [V] knows that the first [r] elements were taken: no read of a slot that is
    free then is unknown. *)
Definition frees cnt W V r : Prop := forall e j, (W <= e < r + n)%nat -> (j < es)%nat ->
  (cnt (reads e j) <= V (Seen (reads e j)))%nat.

(** Byte [j] of element [i], when it has been written. *)
Definition byte_of (pc : push_pc) ps i j : option byte :=
  if decide (i < length ps)%nat then v ← ps !! i; v !! j else
  if decide (i = length ps) then
    match pc with
    | PCopy v _ todo => if decide (j ∈ todo) then None else v !! j
    | PStore v _ => v !! j
    | _ => None
    end
  else None.

(** What is in memory.  [rf] numbers the stores of rpos. *)
Record hinv h cnt pc ps R (rf : nat -> nat) : Prop := {
  hi_wlen : length (h LWpos) = S (length ps);
  hi_w : forall k m, h LWpos !! k = Some m -> mval m = pos k /\ covers (mview m) k /\ (mview m (Ts LWpos) <= k)%nat;
  hi_r : forall k m, h LRpos !! k = Some m -> mval m = pos (rf k) /\ frees cnt (length ps) (mview m) (rf k);
  hi_mono : forall k k', (k <= k')%nat -> (rf k <= rf k')%nat;
  hi_rlast : forall k, (length (h LRpos) <= S k)%nat -> rf k = R;
  hi_len : forall e j, (length ps <= e < length ps + n)%nat -> (j < es)%nat ->
    length (h (at_byte e j)) = (S (lap e) + if decide (is_Some (byte_of pc ps e j)) then 1 else 0)%nat;
  hi_val : forall i j x, (j < es)%nat -> byte_of pc ps i j = Some x ->
    exists mv, h (at_byte i j) !! S (lap i) = Some (Msg x mv);
  hi_count : forall o, S (cnt (Acc false true true (LData o))) = length (h (LData o));
}.

(** There is room: the element [r0] is the oldest the producer knows of. *)
Definition room cnt ps (rf : nat -> nat) V (d : nat) : Prop := exists r0,
  (r0 <= rf (V (Ts LRpos)))%nat /\ (length ps + d <= r0 + c)%nat /\ frees cnt (length ps) V r0.

(** What the producer knows where it is. *)
Definition push_ok cnt pc ps (rf : nat -> nat) V : Prop :=
  match pc with
  | PIdle => True
  | PCheck v r => length v = es /\ exists r0, r = pos r0 /\ (r0 <= rf (V (Ts LRpos)))%nat /\
      (length ps <= r0 + c)%nat /\ frees cnt (length ps) V r0
  | PAddr v => length v = es /\ room cnt ps rf V 1
  | PCopy v w todo => length v = es /\ room cnt ps rf V 1 /\ w = pos (length ps) /\
      NoDup todo /\ Forall (fun j => (j < es)%nat) todo
  | PStore v p => length v = es /\ room cnt ps rf V 1 /\ p = pos (S (length ps))
  end.

Record pinv cnt pc ps rf V : Prop := {
  pi_size : Forall (fun v => length v = es) ps;
  pi_room : (length ps <= rf (V (Ts LRpos)) + c)%nat;
  pi_pc : push_ok cnt pc ps rf V;
}.

(** What the consumer knows where it is. *)
Definition pop_ok pc R ps V : Prop :=
  match pc with
  | CIdle => True
  | CCheck dst w => (exists k, w = pos k /\ (R <= k <= V (Ts LWpos))%nat) /\
      match dst with Some d => length d = es | None => True end
  | CAddr d => length d = es /\ (R < V (Ts LWpos))%nat
  | CCopy d r todo => length d = es /\ (R < V (Ts LWpos))%nat /\ r = pos R /\
      NoDup todo /\ Forall (fun j => (j < es)%nat) todo /\
      forall v j, ps !! R = Some v -> (j < es)%nat -> j ∉ todo -> d !! j = v !! j
  | CNext => (R < V (Ts LWpos))%nat
  | CStore x p => (R < V (Ts LWpos))%nat /\ p = pos (S R) /\ forall d, x = Some d -> ps !! R = Some d
  | CFlush w => exists k, w = pos k /\ (R <= k <= V (Ts LWpos))%nat
  end.

Record cinv pc R (got : list (nat * list byte)) ps V : Prop := {
  co_got : forall i v, (i, v) ∈ got -> ps !! i = Some v /\ (i < R)%nat;
  co_order : StronglySorted lt (map fst got);
  co_le : (R <= V (Ts LWpos))%nat;
  co_covers : covers V (V (Ts LWpos));
  co_pc : pop_ok pc R ps V;
}.

Inductive qinv : vstate loc thread -> Prop :=
| QInv h cnt th pp ps Vp cp R got Vc rf :
    th false = (Prod pp ps, Vp) -> th true = (Cons cp R got, Vc) ->
    hinv h cnt pp ps R rf -> pinv cnt pp ps rf Vp -> cinv cp R got ps Vc ->
    qinv (VState h cnt th).

(** *** Positions *)

Lemma cap_nat : Z.of_nat c = cap a.
Proof. destruct Hwf. unfold c. lia. Qed.

Lemma pos_bound k : 0 <= pos k <= cap a.
Proof. destruct Hwf. unfold pos. pose proof (Z.mod_pos_bound (Z.of_nat k) (cap a + 1)). lia. Qed.

Lemma wrap_pos k : wrap a (pos k + 1) = Some (pos (S k)).
Proof.
  rewrite wrap_eq by (done || apply pos_bound). unfold pos. rewrite Zplus_mod_idemp_l. do 2 f_equal. lia.
Qed.

Lemma nelem_pos r W : (r <= W <= r + c)%nat -> ring_array_nelem (pos r) (pos W) (cap a) = Z.of_nat (W - r).
Proof. intros H. pose proof cap_nat. destruct Hwf. unfold pos. rewrite nelem_counts by lia. lia. Qed.

Lemma flush_pos R k : (R <= k <= R + c)%nat -> (R + Z.to_nat ((pos k - Z.of_nat R) mod (cap a + 1)))%nat = k.
Proof.
  intros H. pose proof cap_nat. destruct Hwf. unfold pos. rewrite Zminus_mod_idemp_l, Z.mod_small by lia. lia.
Qed.

Lemma at_byte_same e j j' : at_byte e j = at_byte e j' -> j = j'.
Proof. unfold at_byte. intros [= H]. lia. Qed.

Lemma at_byte_ne e e' j j' :
  (e < e' < e + n)%nat -> (j < es)%nat -> (j' < es)%nat -> at_byte e j <> at_byte e' j'.
Proof.
  intros He Hj Hj' [= Heq]. pose proof cap_nat. destruct Hwf as [Hes Hcap _ _ _].
  apply (slots_differ (cap a + 1) (Z.of_nat e) (Z.of_nat e')); [lia..|]. fold (pos e) (pos e').
  assert (Hz : Z.of_nat es = elem_size a) by (unfold es; lia). nia.
Qed.

Lemma at_byte_turn e j : at_byte (e + n) j = at_byte e j.
Proof.
  unfold at_byte, pos. do 3 f_equal. replace (Z.of_nat (e + n)) with (Z.of_nat e + 1 * (cap a + 1)) by (pose proof cap_nat; lia).
  apply Z.mod_add. destruct Hwf. lia.
Qed.

Lemma lap_turn e : lap (e + n) = S (lap e).
Proof. unfold lap. replace (e + n)%nat with (e + 1 * n)%nat by lia. rewrite Nat.div_add by done. lia. Qed.

Lemma byte_size j (v : list byte) : length v = es -> (j < es)%nat -> is_Some (v !! j).
Proof. intros Hv Hj. apply lookup_lt_is_Some_2. lia. Qed.

Lemma in_all_bytes j : j ∈ all_bytes a <-> (j < es)%nat.
Proof. unfold all_bytes. rewrite elem_of_seq. fold es. lia. Qed.

(** *** Views grow *)

Lemma covers_mono V V' k : vle V V' -> covers V k -> covers V' k.
Proof. intros Hle Hc i j Hi Hj. destruct (Hc i j Hi Hj).
  pose proof (Hle (Ts (at_byte i j))). pose proof (Hle (Seen (writes i j))). lia. Qed.

Lemma frees_mono cnt W V V' r : vle V V' -> frees cnt W V r -> frees cnt W V' r.
Proof. intros Hle Hf e j He Hj. pose proof (Hf e j He Hj). pose proof (Hle (Seen (reads e j))). lia. Qed.

Lemma room_mono cnt ps rf V V' d :
  (forall k k', (k <= k')%nat -> (rf k <= rf k')%nat) -> vle V V' -> room cnt ps rf V d -> room cnt ps rf V' d.
Proof.
  intros Hm Hle (r0 & H1 & H2 & H3). exists r0. split; [|split; [done|by eapply frees_mono]].
  pose proof (Hm _ _ (Hle (Ts LRpos))). lia.
Qed.

(** Counts of accesses to positions do not matter. *)
Definition agree cnt cnt' : Prop := forall t w p o, cnt' (Acc t w p (LData o)) = cnt (Acc t w p (LData o)).

Lemma agree_pos cnt t w p l k : (forall o, l <> LData o) -> agree cnt (<[Acc t w p l := k]> cnt).
Proof. intros Hl t' w' p' o. rewrite fn_lookup_insert_ne; [done|]. intros [= _ _ _ E]. by eapply Hl. Qed.

Lemma frees_agree cnt cnt' W V r : agree cnt cnt' -> frees cnt W V r -> frees cnt' W V r.
Proof. intros Ha Hf e j He Hj. unfold reads, at_byte. rewrite Ha. by apply Hf. Qed.

Lemma hinv_agree h cnt cnt' pc pc' ps R rf :
  agree cnt cnt' -> (forall i j, (j < es)%nat -> byte_of pc' ps i j = byte_of pc ps i j) ->
  hinv h cnt pc ps R rf -> hinv h cnt' pc' ps R rf.
Proof.
  intros Ha Hb [? ? Hr ? ? Hl Hv Hc]. split; try done.
  - intros k m Hm. destruct (Hr k m Hm). eauto using frees_agree.
  - intros e j He Hj. rewrite Hb by done. auto.
  - intros i j x Hj. rewrite Hb by done. auto.
  - intros o. by rewrite Ha.
Qed.

(** Steps of the consumer leave the producer alone. *)
Lemma pinv_frame cnt cnt' pc ps rf rf' V :
  rf' (V (Ts LRpos)) = rf (V (Ts LRpos)) ->
  (forall r, (r <= rf (V (Ts LRpos)))%nat -> frees cnt (length ps) V r -> frees cnt' (length ps) V r) ->
  pinv cnt pc ps rf V -> pinv cnt' pc ps rf' V.
Proof.
  intros Hrf Hf [? ? Hpc].
  assert (Hroom : forall d, room cnt ps rf V d -> room cnt' ps rf' V d).
  { intros d (r0 & ? & ? & ?). exists r0. rewrite Hrf. auto. }
  split; [done|by rewrite Hrf|]. destruct pc; try done; [|naive_solver..].
  destruct Hpc as (? & r0 & ? & ? & ? & ?). split; [done|]. exists r0. rewrite Hrf. auto.
Qed.

Lemma rf_le h cnt pc ps R rf k : hinv h cnt pc ps R rf -> (rf k <= R)%nat.
Proof.
  intros Hh. rewrite <- (hi_rlast _ _ _ _ _ _ Hh (k + length (h LRpos))) by lia. apply (hi_mono _ _ _ _ _ _ Hh). lia.
Qed.

(** *** Steps of the producer *)

Abbreviation wf := (vwf (T:=thread) owner (allowed AcqRel AcqRel)).
Abbreviation steps := (ring_step a AcqRel AcqRel).

(** A thread reads its own position. *)
Lemma own_wpos h cnt th pc ps R rf s V ts m :
  wf (VState h cnt th) -> th false = (s, V) -> hinv h cnt pc ps R rf ->
  h LWpos !! ts = Some m -> (V (Ts LWpos) <= ts)%nat -> mval m = pos (length ps).
Proof.
  intros Hw Eth Hh Hm Hts. pose proof (vw_last _ _ _ Hw LWpos) as Hl. simpl in Hl. rewrite Eth in Hl. simpl in Hl.
  pose proof (hi_wlen _ _ _ _ _ _ Hh). apply lookup_lt_Some in Hm as Hlt.
  replace (length ps) with ts by lia. by apply (hi_w _ _ _ _ _ _ Hh).
Qed.

Lemma own_rpos h cnt th pc ps R rf s V ts m :
  wf (VState h cnt th) -> th true = (s, V) -> hinv h cnt pc ps R rf ->
  h LRpos !! ts = Some m -> (V (Ts LRpos) <= ts)%nat -> mval m = pos R.
Proof.
  intros Hw Eth Hh Hm Hts. pose proof (vw_last _ _ _ Hw LRpos) as Hl. simpl in Hl. rewrite Eth in Hl. simpl in Hl.
  apply lookup_lt_Some in Hm as Hlt. rewrite <- (hi_rlast _ _ _ _ _ _ Hh ts) by lia. by apply (hi_r _ _ _ _ _ _ Hh).
Qed.

(** How much is taken and pushed. *)
Lemma levels h cnt th pp ps Vp cp R got Vc rf :
  wf (VState h cnt th) -> th true = (Cons cp R got, Vc) ->
  hinv h cnt pp ps R rf -> pinv cnt pp ps rf Vp -> cinv cp R got ps Vc ->
  (R <= Vc (Ts LWpos) <= length ps)%nat /\ (length ps <= R + c)%nat.
Proof.
  intros Hw Eth Hh Hp Hc. pose proof (vw_bounded _ _ _ Hw true) as [_ Hb]. specialize (Hb LWpos). simpl in Hb. rewrite Eth in Hb.
  rewrite (hi_wlen _ _ _ _ _ _ Hh) in Hb. simpl in Hb. pose proof (co_le _ _ _ _ _ Hc). pose proof (pi_room _ _ _ _ _ Hp).
  pose proof (rf_le _ _ _ _ _ _ (Vp (Ts LRpos)) Hh). lia.
Qed.

(** The producer moved by reading a position. *)
Lemma push_frame h cnt cnt' th pc pc' ps V V' cp R got Vc rf :
  agree cnt cnt' -> vle V V' -> (forall i j, (j < es)%nat -> byte_of pc' ps i j = byte_of pc ps i j) ->
  th true = (Cons cp R got, Vc) -> hinv h cnt pc ps R rf -> pinv cnt pc ps rf V -> cinv cp R got ps Vc ->
  push_ok cnt pc' ps rf V' -> qinv (VState h cnt' (<[false := (Prod pc' ps, V')]> th)).
Proof.
  intros Ha Hle Hb E2 Hh [Hs Hr _] Hc Hok. pose proof (hi_mono _ _ _ _ _ _ Hh _ _ (Hle (Ts LRpos))) as Hm.
  eapply QInv; [apply fn_lookup_insert|rewrite fn_lookup_insert_ne by done; exact E2|by eapply hinv_agree| |exact Hc].
  eapply (pinv_frame cnt); [done|eauto using frees_agree|]. split; [done|lia|done].
Qed.

Lemma push_read h cnt th s V o l v s' ts mv :
  wf (VState h cnt th) -> qinv (VState h cnt th) -> th false = (s, V) -> push_step a AcqRel AcqRel s (Rd o l v) s' ->
  h l !! ts = Some (Msg v mv) -> (V (Ts l) <= ts)%nat -> let x := Acc false false (plain o) l in
  qinv (VState h (<[x := S (cnt x)]> cnt) (<[false := (s', read_view x (S (cnt x)) o l ts mv V)]> th)).
Proof.
  intros Hw Hq Eth Hst Hl HV x. inversion Hq as [? ? ? pp ps Vp cp R got Vc rf E1 E2 Hh Hp Hc]; subst. rewrite Eth in E1.
  injection E1 as -> ->. pose proof (levels _ _ _ _ _ _ _ _ _ _ _ Hw E2 Hh Hp Hc) as [HRW HWc].
  pose proof (vw_bounded _ _ _ Hw false) as [Hb _]. simpl in Hb. rewrite Eth in Hb. simpl in Hb.
  destruct (read_view_le x (S (cnt x)) o l ts mv Vp) as [Hle Hmv]; [specialize (Hb x); lia|done|].
  set (V' := read_view x (S (cnt x)) o l ts mv Vp) in *.
  assert (Hts : (ts <= V' (Ts l))%nat) by (unfold V', read_view, vjoin; fn_simpl; lia).
  pose proof (hi_mono _ _ _ _ _ _ Hh) as Hmono. pose proof (pi_pc _ _ _ _ _ Hp) as Hok.
  inversion Hst as [u r ps' Hu|u r w ps'|u w ps'| |u w w' p ps' Hp'|]; subst; clearbody V';
    (eapply push_frame; [apply agree_pos; discriminate|exact Hle| |exact E2|exact Hh|exact Hp|exact Hc|]); simpl in Hok |- *.
  - intros i j Hj. done.
  - destruct (hi_r _ _ _ _ _ _ Hh _ _ Hl) as [Hval Hf]. simpl in Hval, Hf. split; [unfold es, zlen in *; lia|].
    exists (rf ts). split; [done|]. split; [by apply Hmono|]. pose proof (Hmono _ _ HV). pose proof (pi_room _ _ _ _ _ Hp).
    split; [lia|]. by eapply frees_mono.
  - intros i j Hj. by destruct (_ =? _).
  - destruct Hok as (Hu & r0 & -> & Hr0 & Hc0 & Hf). pose proof (Hmono _ _ (Hle (Ts LRpos))) as Hm.
    pose proof (own_wpos _ _ _ _ _ _ _ _ _ _ _ Hw Eth Hh Hl HV) as Hval. simpl in Hval. subst v.
    pose proof (rf_le _ _ _ _ _ _ (Vp (Ts LRpos)) Hh). rewrite nelem_pos by lia. rewrite <- cap_nat.
    destruct (Z.eqb_spec (Z.of_nat (length ps - r0)) (Z.of_nat c)); [done|]. split; [done|].
    exists r0. split; [lia|]. split; [lia|]. exact (frees_mono _ _ _ _ _ Hle Hf).
  - intros i j Hj. unfold byte_of. destruct (decide _); [done|]. destruct (decide _); [|done].
    by rewrite decide_True by by apply in_all_bytes.
  - destruct Hok as [Hu Hr]. pose proof (own_wpos _ _ _ _ _ _ _ _ _ _ _ Hw Eth Hh Hl HV) as Hval. simpl in Hval.
    split; [done|]. split; [exact (room_mono _ _ _ _ _ _ Hmono Hle Hr)|]. split; [done|]. split; [apply NoDup_seq|].
    apply Forall_forall. intros j. apply in_all_bytes.
  - intros i j Hj. unfold byte_of. destruct (decide _); [done|]. destruct (decide _); [|done].
    rewrite decide_False; [done|]. apply not_elem_of_nil.
  - destruct Hok as (Hu & Hr & Hw0 & _). pose proof (own_wpos _ _ _ _ _ _ _ _ _ _ _ Hw Eth Hh Hl HV) as Hval. simpl in Hval. subst v.
    rewrite wrap_pos in Hp'. simplify_eq. split; [done|]. split; [exact (room_mono _ _ _ _ _ _ Hmono Hle Hr)|done].
Qed.

(** The copy of a byte. *)
Lemma byte_of_copy v w b j d ps i k :
  NoDup (b ++ j :: d) -> byte_of (PCopy v w (b ++ d)) ps i k =
  if decide (i = length ps /\ k = j) then v !! j else byte_of (PCopy v w (b ++ j :: d)) ps i k.
Proof.
  intros Hnd. unfold byte_of. destruct (decide (i < length ps)%nat); [by rewrite decide_False by lia|].
  destruct (decide (i = length ps)) as [->|]; [|by rewrite decide_False by naive_solver].
  destruct (decide (k = j)) as [->|Hkj].
  - rewrite (decide_True (P := _ /\ _)) by done. rewrite decide_False; [done|].
    apply NoDup_app in Hnd as (_ & Hb & [Hd _]%NoDup_cons). rewrite elem_of_app. intros [H|H]; [|done].
    apply (Hb j H), list_elem_of_here.
  - rewrite (decide_False (P := _ /\ _)) by naive_solver.
    assert (E : k ∈ b ++ d <-> k ∈ b ++ j :: d) by (rewrite !elem_of_app, elem_of_cons; naive_solver).
    destruct (decide (k ∈ b ++ d)), (decide (k ∈ b ++ j :: d)); tauto || done.
Qed.

Lemma byte_of_todo v w b j d ps : byte_of (PCopy v w (b ++ j :: d)) ps (length ps) j = None.
Proof.
  unfold byte_of. rewrite decide_False by lia. rewrite decide_True by done. rewrite decide_True; [done|].
  apply elem_of_app. right. apply list_elem_of_here.
Qed.

Lemma hinv_byte h cnt v w b j d x mv ps R rf :
  hinv h cnt (PCopy v w (b ++ j :: d)) ps R rf -> NoDup (b ++ j :: d) -> (j < es)%nat -> v !! j = Some x ->
  let l := at_byte (length ps) j in let a' := writes (length ps) j in
  hinv (<[l := h l ++ [Msg x mv]]> h) (<[a' := S (cnt a')]> cnt) (PCopy v w (b ++ d)) ps R rf.
Proof.
  intros [Hwl Hw Hr Hm Hrl Hlen Hval Hcnt] Hnd Hj Hx l a'.
  assert (Hll : length (h l) = S (lap (length ps))).
  { unfold l. rewrite Hlen, byte_of_todo by (lia || done). rewrite decide_False by (intros [? ?]; done). lia. }
  split; try done.
  - intros e i He Hi. rewrite (byte_of_copy v w b j d) by done. destruct (decide (e = length ps /\ i = j)) as [[-> ->]|Hne].
    + fold l. fn_simpl. rewrite length_app, Hll, Hx, decide_True by eauto. done.
    + rewrite <- Hlen by done. rewrite fn_lookup_insert_ne; [done|]. intros E. apply Hne.
      destruct (decide (e = length ps)) as [->|]; [by apply at_byte_same in E|].
      exfalso. apply (at_byte_ne (length ps) e j i); [lia|done..].
  - intros i k y Hk. rewrite (byte_of_copy v w b j d) by done. destruct (decide (i = length ps /\ k = j)) as [[-> ->]|Hne].
    + intros E. assert (y = x) as -> by congruence. fold l. fn_simpl. exists mv. rewrite <- Hll. by apply list_lookup_middle.
    + intros E. destruct (Hval i k y Hk E) as [mv' ?]. exists mv'. by apply hle_snoc.
  - intros o. unfold a', writes. destruct (decide (LData o = l)) as [->|].
    + fold l. fn_simpl. rewrite length_app. unfold l, at_byte. rewrite <- Hcnt. simpl. lia.
    + rewrite (fn_lookup_insert_ne h l), fn_lookup_insert_ne by (fold l; congruence). apply Hcnt.
Qed.

(** All bytes of the elements pushed are in memory. *)
Lemma written h cnt v p ps R rf :
  hinv h cnt (PStore v p) ps R rf -> Forall (fun u => length u = es) ps -> length v = es -> forall i j,
  (i <= length ps)%nat -> (j < es)%nat -> (S (lap i) < length (h (at_byte i j)))%nat.
Proof.
  intros Hh Hs Hl i j Hi Hj. assert (Hx : is_Some (byte_of (PStore v p) ps i j)).
  { unfold byte_of. destruct (decide _).
    - destruct (lookup_lt_is_Some_2 ps i) as [u Hu]; [done|]. rewrite Hu. apply byte_size; [|done].
      exact (Forall_lookup_1 _ _ _ _ Hs Hu).
    - rewrite decide_True by lia. by apply byte_size. }
  destruct Hx as [x Hx]. destruct (hi_val _ _ _ _ _ _ Hh i j x Hj Hx) as [mv Hm]. by eapply lookup_lt_Some.
Qed.

Lemma byte_of_push v p ps i j : byte_of PIdle (ps ++ [v]) i j = byte_of (PStore v p) ps i j.
Proof.
  unfold byte_of. rewrite length_app. simpl. destruct (decide (i < length ps)%nat).
  - rewrite decide_True by lia. by rewrite lookup_app_l.
  - destruct (decide (i = length ps)) as [->|].
    + rewrite decide_True by lia. by rewrite list_lookup_middle.
    + rewrite decide_False by lia. by destruct (decide _).
Qed.

(** The store of wpos publishes the element. *)
Lemma hinv_push h cnt th v p V ps R rf :
  wf (VState h cnt th) -> th false = (Prod (PStore v p) ps, V) ->
  hinv h cnt (PStore v p) ps R rf -> pinv cnt (PStore v p) ps rf V ->
  let x := Acc false true false LWpos in
  let V' := write_view x (S (cnt x)) LWpos (length (h LWpos)) V in
  hinv (<[LWpos := h LWpos ++ [Msg p V']]> h) (<[x := S (cnt x)]> cnt) PIdle (ps ++ [v]) R rf.
Proof.
  intros Hw Eth Hh Hp x V'. pose proof (pi_pc _ _ _ _ _ Hp) as (Hv & _ & Hpos).
  pose proof (written _ _ _ _ _ _ _ Hh (pi_size _ _ _ _ _ Hp) Hv) as Hwr.
  pose proof (vw_bounded _ _ _ Hw false) as [Hb _]. simpl in Hb. rewrite Eth in Hb. simpl in Hb.
  pose proof (vw_last _ _ _ Hw) as Hlast. simpl in Hlast.
  assert (Hcov : covers V' (S (length ps))).
  { eapply (covers_mono V); [apply write_view_le; [specialize (Hb x); lia|]|].
    - specialize (Hlast LWpos). simpl in Hlast. rewrite Eth in Hlast. simpl in Hlast. lia.
    - intros i j Hi Hj. specialize (Hwr i j ltac:(lia) Hj). specialize (Hlast (at_byte i j)).
      pose proof (vw_own _ _ _ Hw false true true (at_byte i j)) as Ho. simpl in Hlast, Ho. rewrite Eth in Hlast, Ho. simpl in Hlast, Ho.
      unfold writes. rewrite Ho. pose proof (hi_count _ _ _ _ _ _ Hh (elem_size a * pos i + Z.of_nat j)) as Hc.
      fold (at_byte i j) in Hc. lia. }
  destruct Hh as [Hwl Hwv Hr Hm Hrl Hlen Hval Hcnt]. split; try done.
  - fn_simpl. rewrite !length_app, Hwl. simpl. lia.
  - intros k m. fn_simpl. intros [Hk|[Hk1 Hk2]]%lookup_app_Some; [by apply Hwv|].
    apply list_lookup_singleton_Some in Hk2 as [Hk2 <-]. assert (k = S (length ps)) as -> by lia. simpl.
    split; [done|]. split; [done|]. unfold V', write_view. fn_simpl. lia.
  - intros k m Hk. destruct (Hr k m Hk) as [? Hf]. split; [done|]. intros e j He Hj. rewrite length_app in He. simpl in He.
    unfold x, reads. fn_simpl. apply Hf; [lia|done].
  - intros e j He Hj. rewrite length_app in He. simpl in He. rewrite fn_lookup_insert_ne by done.
    rewrite (byte_of_push v p). rewrite (decide_False (P := is_Some _)).
    2: { unfold byte_of. rewrite !decide_False by lia. by intros [? ?]. }
    destruct (decide (e = length ps + n)%nat) as [->|].
    + rewrite at_byte_turn, lap_turn, Hlen by (lia || done). rewrite decide_True; [lia|].
      unfold byte_of. rewrite decide_False, decide_True by lia. by apply byte_size.
    + rewrite Hlen by (lia || done). rewrite decide_False; [done|]. unfold byte_of. rewrite !decide_False by lia. by intros [? ?].
  - intros i j y Hj. rewrite (byte_of_push v p). fn_simpl. by apply Hval.
Qed.

Lemma cinv_push pc R got ps v V :
  cinv pc R got ps V -> (V (Ts LWpos) <= length ps)%nat -> cinv pc R got (ps ++ [v]) V.
Proof.
  intros [Hg Ho Hle Hc Hok] HV. assert (Hx : forall i u, (ps ++ [v]) !! i = Some u -> (i < length ps)%nat -> ps !! i = Some u).
  { intros i u Hi Hlt. by rewrite lookup_app_l in Hi. }
  split; try done.
  - intros i u Hi. destruct (Hg i u Hi). split; [by apply lookup_app_l_Some|done].
  - destruct pc; simpl in *; try done.
    + destruct Hok as (? & ? & ? & ? & ? & Hd). repeat split; try done. intros u j Hu. apply Hd. apply Hx; [done|lia].
    + destruct Hok as (? & ? & Hd). repeat split; try done. intros d Hd'. apply lookup_app_l_Some. by apply Hd.
Qed.

Lemma push_write h cnt th s V o l v s' :
  wf (VState h cnt th) -> qinv (VState h cnt th) -> th false = (s, V) -> push_step a AcqRel AcqRel s (Wr o l v) s' ->
  let x := Acc false true (plain o) l in
  let V' := write_view x (S (cnt x)) l (length (h l)) V in
  qinv (VState (<[l := h l ++ [Msg v (lower o V')]]> h) (<[x := S (cnt x)]> cnt) (<[false := (s', V')]> th)).
Proof.
  intros Hw Hq Eth Hst x V'. inversion Hq as [? ? ? pp ps Vp cp R got Vc rf E1 E2 Hh Hp Hc]; subst. rewrite Eth in E1.
  injection E1 as -> ->. pose proof (levels _ _ _ _ _ _ _ _ _ _ _ Hw E2 Hh Hp Hc) as [HRW HWc].
  pose proof (vw_bounded _ _ _ Hw false) as [Hb Hts]. simpl in Hb, Hts. rewrite Eth in Hb, Hts. simpl in Hb, Hts.
  assert (Hle : vle Vp V') by (apply write_view_le; [specialize (Hb x); lia|specialize (Hts l); lia]).
  pose proof (hi_mono _ _ _ _ _ _ Hh _ _ (Hle (Ts LRpos))) as Hm. pose proof (hi_mono _ _ _ _ _ _ Hh) as Hmono.
  assert (Hf : forall V r, frees cnt (length ps) V r -> frees (<[x := S (cnt x)]> cnt) (length ps) V r).
  { intros W r Hf e j He Hj. unfold x, reads. fn_simpl. by apply Hf. }
  destruct Hp as [Hs Hr Hok]. inversion Hst as [| | |u w b j d y ps' Hy| |u p ps']; subst; simpl in Hok.
  - destruct Hok as (Hu & Hroom & -> & Hnd & Hall). fold (at_byte (length ps) j) in *.
    eapply QInv; [apply fn_lookup_insert|rewrite fn_lookup_insert_ne by done; exact E2| | |exact Hc].
    + eapply hinv_byte; [exact Hh|done| |done]. rewrite Forall_app, Forall_cons in Hall. naive_solver.
    + eapply (pinv_frame cnt); [done|eauto|]. split; [done|lia|]. split; [done|].
      split; [exact (room_mono _ _ _ _ _ _ Hmono Hle Hroom)|]. split; [done|]. rewrite Forall_app, Forall_cons in Hall.
      split; [|apply Forall_app; naive_solver]. apply NoDup_app in Hnd as (? & Hbd & [? ?]%NoDup_cons).
      apply NoDup_app. split; [done|]. split; [|done]. intros k Hk Hk'. apply (Hbd k Hk). by apply list_elem_of_further.
  - destruct Hok as (Hu & (r0 & Hr0 & Hcap & Hf0) & ->).
    eapply QInv; [apply fn_lookup_insert|rewrite fn_lookup_insert_ne by done; exact E2| | |].
    + eapply hinv_push; [exact Hw|exact Eth|exact Hh|]. split; [done|lia|]. split; [done|].
      split; [by exists r0|done].
    + split; [|rewrite length_app; simpl; lia|done]. apply Forall_app. by repeat constructor.
    + apply cinv_push; [exact Hc|lia].
Qed.

(** *** Steps of the consumer *)

Lemma cinv_view pc pc' R got ps V V' :
  cinv pc R got ps V -> vle V V' -> covers V' (V' (Ts LWpos)) -> pop_ok pc' R ps V' -> cinv pc' R got ps V'.
Proof. intros [Hg Ho Hl _ _] Hle Hc Hok. pose proof (Hle (Ts LWpos)). split; try done. lia. Qed.

(** A plain read leaves the knowledge of wpos. *)
Lemma read_view_plain x k l ts mv V : l <> LWpos -> read_view x k Plain l ts mv V (Ts LWpos) = V (Ts LWpos).
Proof. intros Hl. unfold read_view, vjoin, lower, vbot. simpl. fn_simpl. lia. Qed.

Lemma pop_frame h cnt cnt' th pp ps Vp pc pc' R got V V' rf :
  agree cnt cnt' -> vle V V' -> covers V' (V' (Ts LWpos)) ->
  th false = (Prod pp ps, Vp) -> hinv h cnt pp ps R rf -> pinv cnt pp ps rf Vp -> cinv pc R got ps V ->
  pop_ok pc' R ps V' -> qinv (VState h cnt' (<[true := (Cons pc' R got, V')]> th)).
Proof.
  intros Ha Hle Hcov E1 Hh Hp Hc Hok.
  eapply QInv; [rewrite fn_lookup_insert_ne by done; exact E1|apply fn_lookup_insert|by eapply hinv_agree| |by eapply cinv_view].
  eapply (pinv_frame cnt); [done|eauto using frees_agree|done].
Qed.

(** The load of wpos. *)
Lemma acquire_wpos h cnt pp ps R rf cp got V ts v mv x :
  hinv h cnt pp ps R rf -> cinv cp R got ps V -> h LWpos !! ts = Some (Msg v mv) -> (V (Ts LWpos) <= ts)%nat ->
  let V' := read_view x (S (cnt x)) AcqRel LWpos ts mv V in
  v = pos ts /\ V' (Ts LWpos) = ts /\ covers V' (V' (Ts LWpos)).
Proof.
  intros Hh Hc Hm Hts V'. destruct (hi_w _ _ _ _ _ _ Hh ts _ Hm) as (Hv & Hcov & Hself). simpl in Hv, Hcov, Hself.
  assert (E : V' (Ts LWpos) = ts) by (unfold V', read_view, vjoin, lower; simpl; fn_simpl; lia).
  split; [done|]. split; [done|]. rewrite E. eapply covers_mono; [|exact Hcov]. intros z. unfold V', read_view, vjoin, lower. simpl. lia.
Qed.

(** The read of a byte returns the byte pushed, and is no read of a free slot. *)
Lemma read_value h cnt pp ps R rf V j ts x mv v :
  hinv h cnt pp ps R rf -> covers V (S R) -> (R < length ps <= R + c)%nat -> (j < es)%nat ->
  h (at_byte R j) !! ts = Some (Msg x mv) -> (V (Ts (at_byte R j)) <= ts)%nat -> ps !! R = Some v -> length v = es ->
  v !! j = Some x.
Proof.
  intros Hh Hcov HR Hj Hm Hts Hv Hl. destruct (byte_size j v Hl Hj) as [y Hy].
  assert (Hb : byte_of pp ps R j = Some y) by (unfold byte_of; rewrite decide_True, Hv by lia; done).
  destruct (hi_val _ _ _ _ _ _ Hh R j y Hj Hb) as [mv' Hm']. apply lookup_lt_Some in Hm as Hlt.
  rewrite <- at_byte_turn, (hi_len _ _ _ _ _ _ Hh), lap_turn in Hlt by (lia || done).
  rewrite decide_False in Hlt by (unfold byte_of; rewrite !decide_False by lia; by intros [? ?]).
  destruct (Hcov R j) as [Hc _]; [lia|done|]. assert (ts = S (lap R)) as -> by lia. congruence.
Qed.

Lemma frees_read cnt W V r R j :
  (r <= R < W)%nat -> (j < es)%nat -> frees cnt W V r -> frees (<[reads R j := S (cnt (reads R j))]> cnt) W V r.
Proof.
  intros HR Hj Hf e i He Hi. rewrite fn_lookup_insert_ne; [by apply Hf|]. unfold reads. intros [= E].
  apply (at_byte_ne R e j i); [lia|done..|]. unfold at_byte. congruence.
Qed.

Lemma hinv_read h cnt pp ps R rf j :
  hinv h cnt pp ps R rf -> (R < length ps)%nat -> (j < es)%nat ->
  hinv h (<[reads R j := S (cnt (reads R j))]> cnt) pp ps R rf.
Proof.
  intros Hh HR Hj. pose proof (fun k => rf_le _ _ _ _ _ _ k Hh) as Hrf. destruct Hh as [? ? Hr ? ? ? ? Hc]. split; try done.
  intros k m Hm. destruct (Hr k m Hm). split; [done|]. apply frees_read; [|done..]. split; [apply Hrf|done].
Qed.

Lemma pop_byte h cnt th d (r : Z) b j (e : list nat) x mv ts R got V :
  wf (VState h cnt th) -> qinv (VState h cnt th) -> th true = (Cons (CCopy d r (b ++ j :: e)) R got, V) ->
  let l := LData (elem_size a * r + Z.of_nat j) in
  h l !! ts = Some (Msg x mv) -> (V (Ts l) <= ts)%nat -> let y := Acc true false true l in
  qinv (VState h (<[y := S (cnt y)]> cnt)
    (<[true := (Cons (CCopy (<[j := x]> d) r (b ++ e)) R got, read_view y (S (cnt y)) Plain l ts mv V)]> th)).
Proof.
  intros Hw Hq Eth l Hl HV y. inversion Hq as [? ? ? pp ps Vp cp R' got' Vc rf E1 E2 Hh Hp Hc]; subst. rewrite Eth in E2.
  injection E2 as <- <- <- <-. pose proof (levels _ _ _ _ _ _ _ _ _ _ _ Hw Eth Hh Hp Hc) as [HRW HWc].
  pose proof (vw_bounded _ _ _ Hw true) as [Hb _]. simpl in Hb. rewrite Eth in Hb. simpl in Hb.
  destruct (read_view_le y (S (cnt y)) Plain l ts mv V) as [Hle _]; [specialize (Hb y); lia|done|].
  destruct (co_pc _ _ _ _ _ Hc) as (Hd & HR & -> & Hnd & Hall & Hbytes). rewrite Forall_app, Forall_cons in Hall.
  destruct Hall as (Hb1 & Hj & He). apply NoDup_app in Hnd as (Hn1 & Hbd & [Hj' Hn2]%NoDup_cons).
  pose proof (covers_mono _ _ _ Hle (co_covers _ _ _ _ _ Hc)) as Hcov.
  eapply QInv; [rewrite fn_lookup_insert_ne by done; exact E1|apply fn_lookup_insert|apply hinv_read; [exact Hh|lia|done]| |].
  - eapply (pinv_frame cnt); [done| |exact Hp]. intros r0 Hr0. apply frees_read; [|done].
    pose proof (rf_le _ _ _ _ _ _ (Vp (Ts LRpos)) Hh). lia.
  - eapply cinv_view; [exact Hc|exact Hle|by rewrite read_view_plain|]. simpl. rewrite read_view_plain, length_insert by done.
    split; [done|]. split; [done|]. split; [done|]. split.
    { apply NoDup_app. split; [done|]. split; [|done]. intros k Hk Hk'. apply (Hbd k Hk). by apply list_elem_of_further. }
    split; [by apply Forall_app|]. intros v k Hv Hk Hnk.
    pose proof (Forall_lookup_1 _ _ _ _ (pi_size _ _ _ _ _ Hp) Hv) as Hvl. simpl in Hvl. destruct (decide (k = j)) as [->|].
    + rewrite list_lookup_insert_eq by lia. symmetry. eapply (read_value _ _ _ _ _ _ V); try done; [|lia].
      intros i i' Hi. apply (co_covers _ _ _ _ _ Hc). lia.
    + rewrite list_lookup_insert_ne by done. apply Hbytes; [done..|]. revert Hnk. rewrite !elem_of_app, elem_of_cons. naive_solver.
Qed.

Lemma pop_read h cnt th s V o l v s' ts mv :
  wf (VState h cnt th) -> qinv (VState h cnt th) -> th true = (s, V) -> pop_step a AcqRel AcqRel s (Rd o l v) s' ->
  h l !! ts = Some (Msg v mv) -> (V (Ts l) <= ts)%nat -> let x := Acc true false (plain o) l in
  qinv (VState h (<[x := S (cnt x)]> cnt) (<[true := (s', read_view x (S (cnt x)) o l ts mv V)]> th)).
Proof.
  intros Hw Hq Eth Hst Hl HV x. inversion Hq as [? ? ? pp ps Vp cp R got Vc rf E1 E2 Hh Hp Hc]; subst. rewrite Eth in E2.
  injection E2 as -> ->. pose proof (levels _ _ _ _ _ _ _ _ _ _ _ Hw Eth Hh Hp Hc) as [HRW HWc].
  pose proof (vw_bounded _ _ _ Hw true) as [Hb _]. simpl in Hb. rewrite Eth in Hb. simpl in Hb.
  destruct (read_view_le x (S (cnt x)) o l ts mv Vc) as [Hle _]; [specialize (Hb x); lia|done|].
  pose proof (covers_mono _ _ _ Hle (co_covers _ _ _ _ _ Hc)) as Hcov.
  pose proof (co_pc _ _ _ _ _ Hc) as Hok. pose proof (co_le _ _ _ _ _ Hc) as HRle.
  inversion Hst as [dst w R' g Hdst|dst w r R' g|d r R' g|d r b j e y R' g|d r r' p R' g Hw'|r' p R' g Hw'| |w R' g|]; subst;
    [| | |by eapply pop_byte| | |];
    (eapply pop_frame; [apply agree_pos; discriminate|exact Hle| |exact E1|exact Hh|exact Hp|exact Hc|]); simpl in Hok |- *;
    try (by rewrite read_view_plain).
  1,7: by eapply acquire_wpos.
  all: try (pose proof (own_rpos _ _ _ _ _ _ _ _ _ _ _ Hw Eth Hh Hl HV) as Hval; simpl in Hval; subst v).
  all: rewrite ?read_view_plain by done.
  - destruct (acquire_wpos _ _ _ _ _ _ _ _ _ _ _ _ x Hh Hc Hl HV) as (-> & -> & _). split; [exists ts; split; [done|lia]|].
    destruct dst; [|done]. unfold es, zlen in *. lia.
  - destruct Hok as [(k & -> & Hk) Hdst]. rewrite nelem_pos by lia.
    destruct (Z.eqb_spec (Z.of_nat (k - R)) 0); [done|]. destruct dst; simpl; rewrite ?read_view_plain by done; [|lia].
    split; [done|lia].
  - destruct Hok as [Hd HR]. split; [done|]. split; [done|]. split; [done|]. split; [apply NoDup_seq|].
    split; [apply Forall_forall; intros j; apply in_all_bytes|]. intros v j _ Hj Hn. by destruct Hn; apply in_all_bytes.
  - destruct Hok as (Hd & HR & _ & _ & _ & Hbytes). rewrite wrap_pos in Hw'. simplify_eq. split; [done|]. split; [done|].
    intros d' [= <-]. destruct (lookup_lt_is_Some_2 ps R) as [v Hv]; [lia|]. rewrite Hv. f_equal.
    pose proof (Forall_lookup_1 _ _ _ _ (pi_size _ _ _ _ _ Hp) Hv) as Hvl. simpl in Hvl.
    apply list_eq_same_length with es; [done..|]. intros j y z Hj Hy Hz.
    rewrite (Hbytes v j Hv Hj (not_elem_of_nil _)) in *. congruence.
  - rewrite wrap_pos in Hw'. simplify_eq. by split.
  - destruct (acquire_wpos _ _ _ _ _ _ _ _ _ _ _ _ x Hh Hc Hl HV) as (-> & -> & _). exists ts. split; [done|lia].
Qed.

Lemma hinv_pop h cnt th s V pp ps R rf R2 :
  wf (VState h cnt th) -> th true = (s, V) -> hinv h cnt pp ps R rf -> (R <= R2)%nat ->
  let x := Acc true true false LRpos in
  let V' := write_view x (S (cnt x)) LRpos (length (h LRpos)) V in
  hinv (<[LRpos := h LRpos ++ [Msg (pos R2) V']]> h) (<[x := S (cnt x)]> cnt) pp ps R2
    (fun k => if decide (k < length (h LRpos))%nat then rf k else R2).
Proof.
  intros Hw Eth Hh HR x V'. pose proof (fun k => rf_le _ _ _ _ _ _ k Hh) as Hrf. destruct Hh as [? ? Hr Hm Hrl ? ? ?].
  split; try done.
  - intros k m. fn_simpl. intros [Hk|[Hk1 Hk2]]%lookup_app_Some.
    + apply lookup_lt_Some in Hk as Hlt. rewrite decide_True by done. by apply Hr.
    + apply list_lookup_singleton_Some in Hk2 as [Hk2 <-]. rewrite decide_False by lia. split; [done|].
      intros e j _ _. unfold V', write_view, x, reads. simpl. fn_simpl.
      pose proof (vw_own _ _ _ Hw true false true (at_byte e j)) as Ho. simpl in Ho. rewrite Eth in Ho. simpl in Ho.
      lia.
  - intros k k' Hk. pose proof (Hm k k' Hk). specialize (Hrf k). destruct (decide _), (decide _); lia.
  - intros k. fn_simpl. rewrite length_app. simpl. intros Hk. by rewrite decide_False by lia.
Qed.

Lemma sorted_snoc (l : list nat) x : StronglySorted lt l -> (forall y, y ∈ l -> (y < x)%nat) -> StronglySorted lt (l ++ [x]).
Proof.
  induction 1 as [|y l Hs IH Hall]; intros Hx; simpl; [by repeat constructor|]. constructor.
  - apply IH. intros z Hz. by apply Hx, list_elem_of_further.
  - apply Forall_app. split; [done|]. constructor; [|done]. apply Hx, list_elem_of_here.
Qed.

Lemma pop_write h cnt th s V o l v s' :
  wf (VState h cnt th) -> qinv (VState h cnt th) -> th true = (s, V) -> pop_step a AcqRel AcqRel s (Wr o l v) s' ->
  let x := Acc true true (plain o) l in
  let V' := write_view x (S (cnt x)) l (length (h l)) V in
  qinv (VState (<[l := h l ++ [Msg v (lower o V')]]> h) (<[x := S (cnt x)]> cnt) (<[true := (s', V')]> th)).
Proof.
  intros Hw Hq Eth Hst x V'. inversion Hq as [? ? ? pp ps Vp cp R got Vc rf E1 E2 Hh Hp Hc]; subst. rewrite Eth in E2.
  injection E2 as -> ->. pose proof (levels _ _ _ _ _ _ _ _ _ _ _ Hw Eth Hh Hp Hc) as [HRW HWc].
  pose proof (vw_bounded _ _ _ Hw true) as [Hb Hts]. simpl in Hb, Hts. rewrite Eth in Hb, Hts. simpl in Hb, Hts.
  assert (Hle : vle Vc V') by (apply write_view_le; [specialize (Hb x); lia|specialize (Hts l); lia]).
  pose proof (covers_mono _ _ _ Hle (co_covers _ _ _ _ _ Hc)) as Hcov. pose proof Hc as [Hg Ho _ _ Hok].
  assert (Hgoal : forall R2 got2, v = pos R2 -> l = LRpos -> o = AcqRel -> (R <= R2 <= Vc (Ts LWpos))%nat ->
    (forall i u, (i, u) ∈ got2 -> ps !! i = Some u /\ (i < R2)%nat) -> StronglySorted lt (map fst got2) ->
    qinv (VState (<[l := h l ++ [Msg v (lower o V')]]> h) (<[x := S (cnt x)]> cnt) (<[true := (Cons CIdle R2 got2, V')]> th))).
  { intros R2 got2 -> -> -> HR2 Hg2 Ho2. assert (EV : V' (Ts LWpos) = Vc (Ts LWpos)) by (unfold V', write_view; by fn_simpl).
    eapply QInv; [rewrite fn_lookup_insert_ne by done; exact E1|apply fn_lookup_insert| | |].
    - eapply hinv_pop; [exact Hw|exact Eth|exact Hh|lia].
    - eapply (pinv_frame cnt _ _ _ rf); [|eauto using frees_agree, agree_pos|exact Hp].
      pose proof (vw_bounded _ _ _ Hw false) as [_ Hbp]. specialize (Hbp LRpos). simpl in Hbp. rewrite E1 in Hbp.
      by rewrite decide_True by done.
    - split; try done. rewrite EV. lia. }
  inversion Hst as [| | | | | |y p R' g| |w R' g]; subst; simpl in Hok.
  - destruct Hok as (HR & -> & Hy). apply Hgoal; [done..|lia| |].
    + intros i u. destruct y as [d|]; [rewrite elem_of_app, list_elem_of_singleton|]; intros Hi; [|destruct (Hg i u Hi); split; [done|lia]].
      destruct Hi as [Hi|[= -> ->]]; [destruct (Hg i u Hi); split; [done|lia]|]. split; [by apply Hy|lia].
    + destruct y as [d|]; [|done]. rewrite map_app. apply sorted_snoc; [done|].
      intros i ([j u] & -> & Hi)%list_elem_of_fmap. by apply (Hg j u).
  - destruct Hok as (k & -> & Hk). rewrite flush_pos by lia. apply Hgoal; [done..|lia| |done].
    intros i u Hi. destruct (Hg i u Hi). split; [done|lia].
Qed.

(** *** Every reachable state *)

Lemma vstep_qinv σ σ' : vstep steps σ σ' -> wf σ -> qinv σ -> qinv σ'.
Proof.
  intros [h cnt th t s V o l v s' ts mv Eth Hst Hl HV|h cnt th t s V o l v s' Eth Hst] Hw Hq; destruct t.
  - by eapply pop_read.
  - by eapply push_read.
  - by eapply pop_write.
  - by eapply push_write.
Qed.

Lemma init_qinv : rpos a = 0 -> wpos a = 0 -> qinv (vinit (ring_mem a) ring_threads).
Proof.
  intros Hr Hw. assert (Hlap : forall e, (e < n)%nat -> lap e = 0%nat) by (intros; unfold lap; by apply Nat.div_small).
  apply (QInv _ _ _ PIdle [] vbot CIdle 0 [] vbot (fun _ => 0%nat)); try done.
  - split; try done; simpl.
    + intros k m Hm. apply list_lookup_singleton_Some in Hm as [-> <-]. simpl. rewrite Hw. split; [done|]. split; [intros i j ?; lia|done].
    + intros k m Hm. apply list_lookup_singleton_Some in Hm as [-> <-]. simpl. rewrite Hr. split; [done|]. intros e j _ _. simpl. lia.
    + intros e j He Hj. rewrite Hlap by lia. unfold byte_of. simpl.
      rewrite decide_False; [done|]. intros [x Hx]. revert Hx. by repeat destruct (decide _).
    + intros i j x Hj. unfold byte_of. simpl. by repeat destruct (decide _).
  - split; try done. simpl. lia.
  - split; try done; simpl; [by intros i v Hi%not_elem_of_nil|constructor|]. intros i j Hi. unfold vbot in Hi. lia.
Qed.

Lemma reach_qinv σ : rpos a = 0 -> wpos a = 0 -> rtc (vstep steps) (vinit (ring_mem a) ring_threads) σ -> wf σ /\ qinv σ.
Proof.
  intros Hr Hw Hst. remember (vinit _ _) as σ0 eqn:E.
  assert (H0 : wf σ0 /\ qinv σ0) by (subst; split; [apply init_wf|by apply init_qinv]). clear E.
  induction Hst as [|σ1 σ2 σ3 Hst _ IH]; [done|]. apply IH. destruct H0. split; [|by eapply vstep_qinv].
  eapply vstep_wf; [apply ring_owned|apply ring_typed|done..].
Qed.

(** The accesses of different threads that conflict are ordered. *)
Lemma no_race σ : wf σ -> qinv σ -> ~ race steps σ.
Proof.
  intros Hw Hq Hr. destruct (race_allowed _ _ _ _ Hw Hr) as (t & e & s' & w' & p' & Hst & Hcf & Hal & Hlt). clear Hr.
  destruct Hq as [h cnt th pp ps Vp cp R got Vc rf E1 E2 Hh Hp Hc].
  pose proof (levels _ _ _ _ _ _ _ _ _ _ _ Hw E2 Hh Hp Hc) as [HRW HWc]. destruct t; simpl in *.
  - rewrite E2 in *. inversion Hst as [| | |d r b j k x R' g| | | | |]; subst; simpl in *; destruct w', p'; simpl in *; try naive_solver.
    destruct (co_pc _ _ _ _ _ Hc) as (_ & HR & -> & _ & Hall & _). rewrite Forall_app, Forall_cons in Hall. destruct Hall as (_ & Hj & _).
    fold (at_byte R j) in Hlt. destruct (co_covers _ _ _ _ _ Hc R j HR Hj) as [_ Hs]. unfold writes in Hs.
    pose proof (hi_count _ _ _ _ _ _ Hh (elem_size a * pos R + Z.of_nat j)) as Hn. fold (at_byte R j) in Hn.
    rewrite <- at_byte_turn, (hi_len _ _ _ _ _ _ Hh), at_byte_turn, lap_turn in Hn by (lia || done).
    rewrite decide_False in Hn by (unfold byte_of; rewrite !decide_False by lia; by intros [? ?]). lia.
  - rewrite E1 in *. inversion Hst as [| | |v w b j k x ps' Hx| |]; subst; simpl in *; destruct w', p'; simpl in *; try naive_solver.
    destruct (pi_pc _ _ _ _ _ Hp) as (_ & (r0 & Hr0 & Hroom & Hf) & -> & _ & Hall). rewrite Forall_app, Forall_cons in Hall.
    destruct Hall as (_ & Hj & _). fold (at_byte (length ps) j) in Hlt. pose proof (Hf (length ps) j) as Hx'. unfold reads in Hx'. lia.
Qed.

End Queue.

(** ** Properties *)

(** The ordering of the loads and stores in the source. *)
Definition source_order : ordering := Relaxed.

(** What a ring promises its threads: the elements copied out are elements pushed,
    each at its number and in order, no more than cap are in the ring, and the
    next access of either thread is inside the slots. *)
Definition queue_ok (a : ring_array) (load store : ordering) (s : bool -> thread) : Prop :=
  exists pp ps cp R got, s false = Prod pp ps /\ s true = Cons cp R got /\
    (R <= length ps)%nat /\ Z.of_nat (length ps) <= Z.of_nat R + cap a /\
    (forall i v, (i, v) ∈ got -> ps !! i = Some v /\ (i < R)%nat) /\ StronglySorted lt (map fst got) /\
    forall t e s' off, ring_step a load store t (s t) e s' -> target e = LData off ->
      0 <= off < elem_size a * (cap a + 1).

Lemma qinv_ok a load store σ :
  ring_wf a -> vwf owner (allowed AcqRel AcqRel) σ -> qinv a σ -> queue_ok a load store (fun t => (thr σ t).1).
Proof.
  intros Hwf Hw Hq. destruct Hq as [h cnt th pp ps Vp cp R got Vc rf E1 E2 Hh Hp Hc].
  destruct (levels _ _ _ _ _ _ _ _ _ _ _ _ Hw E2 Hh Hp Hc) as [HR HW]. pose proof (rw_cap _ Hwf). pose proof (rw_size _ Hwf).
  exists pp, ps, cp, R, got. simpl. rewrite E1, E2. split_and!; [done|done|lia|lia|apply Hc|apply Hc|].
  assert (Hin : forall k j, (j < Z.to_nat (elem_size a))%nat -> 0 <= elem_size a * pos a k + Z.of_nat j < elem_size a * (cap a + 1)).
  { intros k j Hj. pose proof (pos_bound a Hwf k). nia. }
  intros t e s' off Hst Ht. destruct t; simpl in Hst; [rewrite E2 in Hst|rewrite E1 in Hst]; inversion Hst; subst; simplify_eq/=.
  - destruct (co_pc _ _ _ _ _ _ Hc) as (_ & _ & -> & _ & Hall & _). rewrite Forall_app, Forall_cons in Hall. naive_solver.
  - destruct (pi_pc _ _ _ _ _ _ Hp) as (_ & _ & -> & _ & Hall). rewrite Forall_app, Forall_cons in Hall. naive_solver.
Qed.

(** With acquire loads and release stores, in the C11 model of views, the two
    threads are free of data races in every reachable state, and the ring is a
    bounded first-in first-out queue. *)
Theorem ring_array_acqrel (a : ring_array) (σ : vstate loc thread) :
  ring_wf a -> rpos a = 0 -> wpos a = 0 ->
  rtc (vstep (ring_step a AcqRel AcqRel)) (vinit (ring_mem a) ring_threads) σ ->
  ~ race (ring_step a AcqRel AcqRel) σ /\ queue_ok a AcqRel AcqRel (fun t => (thr σ t).1).
Proof.
  intros Hwf Hr Hw Hst. destruct (reach_qinv a Hwf σ Hr Hw Hst) as [Hv Hq].
  split; [by apply (no_race a)|by apply qinv_ok].
Qed.

(** Store buffers do not look at orderings. *)
Lemma reorder a l s l' s' t p o x v q :
  (ring_step a l s t p (Rd o x v) q -> exists o', ring_step a l' s' t p (Rd o' x v) q) /\
  (ring_step a l s t p (Wr o x v) q -> exists o', ring_step a l' s' t p (Wr o' x v) q).
Proof. split; destruct t; inversion 1; subst; eexists; by econstructor. Qed.

Lemma tso_reorder a l s l' s' τ τ' : tso_step (ring_step a l s) τ τ' -> tso_step (ring_step a l' s') τ τ'.
Proof.
  intros [m b p t o x v q Hst Hv|m b p t o x v q Hst|m b p t x v rest Hb].
  - apply (proj1 (reorder a l s l' s' t _ o x v q)) in Hst as [o' Hst]. by eapply TsoRead.
  - apply (proj2 (reorder a l s l' s' t _ o x v q)) in Hst as [o' Hst]. by eapply TsoWrite.
  - by apply TsoCommit.
Qed.

(** C3: on x86, where each thread's stores pass through a first-in first-out
    buffer, the ring with the orderings of the source is a bounded first-in
    first-out queue between one producer and one consumer: in every reachable state
    the elements copied out are elements pushed, whole, each at its number and in
    order, and the accesses stay inside the slots. *)
Theorem ring_array_tso (a : ring_array) (τ : tstate loc thread) :
  ring_wf a -> rpos a = 0 -> wpos a = 0 ->
  rtc (tso_step (ring_step a source_order source_order)) (tinit (ring_mem a) ring_threads) τ ->
  queue_ok a source_order source_order (pcs τ).
Proof.
  intros Hwf Hr Hw Hst. assert (Hst' : rtc (tso_step (ring_step a AcqRel AcqRel)) (tinit (ring_mem a) ring_threads) τ).
  { eapply rtc_subrel, Hst. intros ? ?. apply tso_reorder. }
  destruct (tso_simulation _ owner (ring_owned a AcqRel AcqRel) _ _ _ Hst') as (σ & Hσ & Hpc).
  destruct (reach_qinv a Hwf σ Hr Hw Hσ) as [Hv Hq].
  destruct (qinv_ok a source_order source_order σ Hwf Hv Hq) as (pp & ps & cp & R & got & H1 & H2 & H3).
  exists pp, ps, cp, R, got. rewrite <- !Hpc. split; [done|]. split; [done|].
  destruct H3 as (? & ? & ? & ? & H3). split_and!; [done..|]. intros t. rewrite <- Hpc. apply H3.
Qed.

(** Push 5 and pop it, with the stores of both threads still in their buffers for a
    while. *)
Ltac tso_read t := eapply rtc_l; [eapply (TsoRead _ _ _ _ t); [econstructor; reflexivity|reflexivity]|].
Ltac tso_write t := eapply rtc_l; [eapply (TsoWrite _ _ _ _ t); econstructor; reflexivity|].
Ltac tso_commit t := eapply rtc_l; [eapply (TsoCommit _ _ _ _ t); reflexivity|].

Lemma ring_array_tso_witness :
  exists τ, rtc (tso_step (ring_step ring2 source_order source_order)) (tinit (ring_mem ring2) ring_threads) τ /\
    pcs τ false = Prod PIdle [[5]] /\ pcs τ true = Cons CIdle 1 [(0%nat, [5])] /\
    queue_ok ring2 source_order source_order (pcs τ).
Proof.
  assert (H : exists τ, rtc (tso_step (ring_step ring2 source_order source_order)) (tinit (ring_mem ring2) ring_threads) τ /\
    pcs τ false = Prod PIdle [[5]] /\ pcs τ true = Cons CIdle 1 [(0%nat, [5])]).
  { eexists. split.
    - eapply rtc_l; [apply (TsoRead _ _ _ _ false Relaxed LRpos 0 (Prod (PCheck [5] 0) [])); [by constructor|reflexivity]|].
      do 2 tso_read false. 
      eapply rtc_l; [eapply (TsoWrite _ _ _ _ false _ _ 5); eapply (Push_byte _ _ _ [5] 0 [] 0 [] 5); reflexivity|].
      tso_read false. tso_write false. tso_commit false. tso_commit false.
      eapply rtc_l; [apply (TsoRead _ _ _ _ true Relaxed LWpos 1 (Cons (CCheck (Some [9]) 1) 0 [])); [by constructor|reflexivity]|].
      do 2 tso_read true.
      eapply rtc_l; [eapply (TsoRead _ _ _ _ true _ _ 5); [eapply (Pop_byte _ _ _ [9] 0 [] 0 [])|reflexivity]|].
      tso_read true. tso_write true. apply rtc_refl.
    - split; reflexivity. }
  destruct H as (τ & Hst & H1 & H2). exists τ. split; [exact Hst|]. split; [exact H1|]. split; [exact H2|].
  exact (ring_array_tso ring2 τ ring2_wf eq_refl eq_refl Hst).
Defined.

Ltac view_read t ts := eapply rtc_l; [eapply (VRead _ _ _ _ t _ _ _ _ _ _ ts); [reflexivity|econstructor; reflexivity|reflexivity|apply Nat.leb_le; reflexivity]|].
Ltac view_write t := eapply rtc_l; [eapply (VWrite _ _ _ _ t); [reflexivity|econstructor; reflexivity]|].

(** C5: the orderings of the source do not make the ring a queue under C11.  The
    relaxed store of wpos does not publish the bytes copied before it: there is a
    run in which the producer pushes the element 5 and the consumer, which has seen
    the new wpos, races with the copy and pops the 0 that was in the slot before. *)
Theorem ring_array_relaxed :
  exists a σ0 σ, ring_wf a /\ rpos a = 0 /\ wpos a = 0 /\
    rtc (vstep (ring_step a source_order source_order)) (vinit (ring_mem a) ring_threads) σ0 /\
    race (ring_step a source_order source_order) σ0 /\
    rtc (vstep (ring_step a source_order source_order)) σ0 σ /\
    (thr σ false).1 = Prod PIdle [[5]] /\ (thr σ true).1 = Cons CIdle 1 [(0%nat, [0])].
Proof.
  exists ring2. do 2 eexists. split; [exact ring2_wf|]. do 2 (split; [reflexivity|]). split.
  - eapply rtc_l; [apply (VRead _ _ _ _ false (Prod PIdle []) vbot Relaxed LRpos 0 (Prod (PCheck [5] 0) []) 0 vbot);
      [reflexivity|by apply Push_load|reflexivity|apply Nat.leb_le; reflexivity]|].
    view_read false 0%nat. view_read false 0%nat.
    eapply rtc_l; [eapply (VWrite _ _ _ _ false); [reflexivity|eapply (Push_byte _ _ _ [5] 0 [] 0 [] 5); reflexivity]|].
    view_read false 0%nat. view_write false.
    eapply rtc_l; [eapply (VRead _ _ _ _ true _ _ Relaxed LWpos 1 (Cons (CCheck (Some [9]) 1) 0 []) 1);
      [reflexivity|by apply Pop_load|reflexivity|apply Nat.leb_le; reflexivity]|].
    view_read true 0%nat. view_read true 0%nat. apply rtc_refl.
  - split; [|split].
    + exists true, (Rd Plain (LData 0) 0), (Cons (CCopy [0] 0 []) 0 []). split; [exact (Pop_byte ring2 source_order source_order [9] 0 [] 0 [] 0 0 [])|].
      exists true, true. split; [reflexivity|]. vm_compute. lia.
    + eapply rtc_l; [eapply (VRead _ _ _ _ true _ _ _ _ 0 _ 0); [reflexivity|eapply (Pop_byte _ _ _ [9] 0 [] 0 [])|reflexivity|apply Nat.leb_le; reflexivity]|].
      view_read true 0%nat. view_write true. apply rtc_refl.
    + split; reflexivity.
Qed.
