(* ===== verification/Log.v ===== *)
(** * Logging (include/cc_log.h, src/cc_log.c)

    A logger writes to a file descriptor, directly or through a ring buffer
    ([Rbuf]) that log_flush drains.  What the system calls answer (write's
    result, the descriptor open returns) are arguments; the bytes that reached
    the file are an output.  [ms] is log_metrics.  The formatted text of a
    message is an argument of _log_fd: formatting is vsnprintf's. *)

From S2P Require Import Prelude Metric Mm Rbuf.
Local Open Scope Z_scope.

Definition LOG_MAX_LEN : Z := 2560.
Definition STDOUT_FILENO : Z := 1.
Definition STDERR_FILENO : Z := 2.

Record logger := Logger { name : option string; fd : Z; lbuf : option rbuf }.

Record log_module := LogModule { log_metrics : metrics_st; log_init : bool }.

Definition log_setup (metrics : metrics_st) (m : log_module) : log_module :=
  LogModule metrics true.
Definition log_teardown (m : log_module) : log_module := LogModule None false.

(** write(fd, bytes): the answer [r] is negative for an error, else the number
    of bytes the file takes (at most all of them).  Result and bytes written. *)
Definition sys_write (r : Z) (bytes : list byte) : Z * list byte :=
  if r <? 0 then (-1, []) else
  let n := Z.min r (zlen bytes) in (n, take (Z.to_nat n) bytes).

(** [lg]: malloc returned a block for the logger; [mem]: what it returned for
    the buffer; [ofd]: what open returned.  The result carries log_metrics and
    the rbuf module. *)
Definition log_create (filename : option string) (buf_cap : Z) (lg : bool)
    (mem : option (list byte)) (ofd : Z) (ms : metrics_st) (rm : rbuf_module)
  : option logger * metrics_st * rbuf_module :=
  if negb lg then (None, INCR ms "log_create_ex", rm) else
  let '(b, rm, oom) :=
    if 0 <? buf_cap then
      match rbuf_create buf_cap mem rm with
      | (Some b, rm) => (Some b, rm, false)
      | (None, rm) => (None, rm, true)
      end
    else (None, rm, false) in
  if oom : bool then (None, INCR ms "log_create_ex", rm) else
  match filename with
  | Some _ =>
      if ofd <? 0 then (None, INCR (INCR ms "log_open_ex") "log_create_ex", rm)
      else (Some (Logger filename ofd b),
            INCR (INCR (INCR ms "log_open") "log_create") "log_curr", rm)
  | None => (Some (Logger None STDERR_FILENO b), INCR (INCR ms "log_create") "log_curr", rm)
  end.

(** [ofd]: what open returned; a failed rename is only reported. *)
Definition log_reopen (l : logger) (ofd : Z) (ms : metrics_st) : Z * logger * metrics_st :=
  if negb (fd l =? STDERR_FILENO) && negb (fd l =? STDOUT_FILENO) then
    let l := Logger (name l) ofd (lbuf l) in
    if ofd <? 0 then (CC_ERROR, l, INCR ms "log_open_ex") else (CC_OK, l, INCR ms "log_open")
  else (CC_OK, l, INCR ms "log_open").

(** The result, the logger, the metrics and the bytes written to the file;
    [r] answers write, when there is no buffer. *)
Definition log_write (l : logger) (buf : list byte) (len : Z) (r : Z) (ms : metrics_st)
  : option (bool * logger * metrics_st * list byte) :=
  match lbuf l with
  | Some b =>
      if len <=? rbuf_wcap b then
        '(_, b) ← rbuf_write b buf len;
        Some (true, Logger (name l) (fd l) (Some b),
              INCR_N (INCR ms "log_write") "log_write_byte" len, [])
      else Some (false, l, INCR_N (INCR ms "log_skip") "log_skip_byte" len, [])
  | None =>
      if fd l <? 0 then Some (false, l, INCR ms "log_write_ex", []) else
      bytes ← memread buf 0 len;
      let '(n, out) := sys_write r bytes in
      if n <? len then Some (false, l, INCR ms "log_write_ex", out)
      else Some (true, l, INCR_N (INCR ms "log_write") "log_write_byte" len, out)
  end.

(** [text]: the formatted message; cc_vscnprintf keeps LOG_MAX_LEN - 1 bytes of
    it, and a newline is appended. *)
Definition _log_fd (text : list byte) (r : Z) (ms : metrics_st) : metrics_st * list byte :=
  let buf := take (Z.to_nat (LOG_MAX_LEN - 1)) text ++ [10] in
  let len := zlen buf in
  let '(n, out) := sys_write r buf in
  let ms := if n <? 0 then INCR ms "log_write_ex" else ms in
  if n <? len then (INCR_N (INCR ms "log_skip") "log_skip_byte" (u64 (len - n)), out)
  else (INCR_N (INCR ms "log_write") "log_write_byte" len, out).

(** [r1], [r2]: the answers of the two writes. *)
Definition _rbuf_flush (b : rbuf) (r1 r2 : Z) : option (Z * rbuf * list byte) :=
  let rpos := get_rpos b in
  let wpos := get_wpos b in
  if wpos <? rpos then
    let capacity := u32 (u32 (cap b - rpos) + 1) in
    bytes ← memread (data b) rpos capacity;
    let '(ret, out) := sys_write r1 bytes in
    let rpos := if 0 <? ret then u32 (rpos + ret) else rpos in
    if ret =? capacity then
      let capacity := wpos in
      bytes ← memread (data b) 0 capacity;
      let '(ret2, out2) := sys_write r2 bytes in
      if 0 <=? ret2 then Some (ret + ret2, set_rpos b (u32 ret2), out ++ out2)
      else Some (ret, set_rpos b rpos, out)
    else Some (ret, set_rpos b rpos, out)
  else
    let capacity := u32 (wpos - rpos) in
    bytes ← memread (data b) rpos capacity;
    let '(ret, out) := sys_write r1 bytes in
    let rpos := if 0 <? ret then u32 (rpos + ret) else rpos in
    Some (ret, set_rpos b rpos, out).

Definition log_flush (l : logger) (r1 r2 : Z) (ms : metrics_st)
  : option (Z * logger * metrics_st * list byte) :=
  match lbuf l with
  | None => Some (0, l, ms, [])
  | Some b =>
      if fd l <? 0 then Some (0, l, INCR ms "log_flush_ex", []) else
      let buf_len := rbuf_rcap b in
      '(n, b, out) ← _rbuf_flush b r1 r2;
      let ms := if n <? buf_len then INCR ms "log_flush_ex" else INCR ms "log_flush" in
      Some (if 0 <? n then n else 0, Logger (name l) (fd l) (Some b), ms, out)
  end.

(** The pointer after the call, the metrics, the rbuf module and the bytes the
    final flush wrote. *)
Definition log_destroy (l : option logger) (r1 r2 : Z) (ms : metrics_st) (rm : rbuf_module)
  : option (option logger * metrics_st * rbuf_module * list byte) :=
  match l with
  | None => Some (None, ms, rm, [])
  | Some l =>
      '(_, l, ms, out) ← log_flush l r1 r2 ms;
      let '(_, rm) := rbuf_destroy (lbuf l) rm in
      Some (None, DECR (INCR ms "log_destroy") "log_curr", rm, out)
  end.

(** ** Flushing *)

Section Flush.
Implicit Types (b : rbuf).

Lemma sys_write_spec r bytes :
  exists n, sys_write r bytes = (n, take (Z.to_nat n) bytes) /\ -1 <= n <= zlen bytes /\
    (zlen bytes <= r -> n = zlen bytes).
Proof.
  unfold sys_write. pose proof (zlen_nonneg bytes). case_zcmp.
  - exists (-1). split; [done|]. lia.
  - eexists. split; [done|]. lia.
Qed.

Lemma take_neg {A} (n : Z) (l : list A) : n <= 0 -> take (Z.to_nat n) l = [].
Proof. intros. by replace (Z.to_nat n) with 0%nat by lia. Qed.

(** Advancing the read offset over the first run. *)
Lemma advance_contents b n :
  rbuf_wf b -> 0 <= n -> (if wpos b <? rpos b then n <= cap b + 1 - rpos b else n <= wpos b - rpos b) ->
  rbuf_wf (set_rpos b (rpos b + n)) /\
  contents b = slice (data b) (rpos b) n ++ contents (set_rpos b (rpos b + n)).
Proof.
  intros H Hn Hle. wf_facts H. unfold contents. simpl.
  destruct (Z.ltb_spec (wpos b) (rpos b)).
  - split; [split; simpl; unfold UINT32_MAX; lia|]. rewrite (proj2 (Z.ltb_lt _ _)) by lia.
    replace (cap b + 1 - rpos b) with (n + (cap b + 1 - (rpos b + n))) by lia.
    rewrite slice_split by lia. by rewrite <- app_assoc.
  - split; [split; simpl; unfold UINT32_MAX; lia|]. rewrite (proj2 (Z.ltb_ge _ _)) by lia.
    replace (wpos b - rpos b) with (n + (wpos b - (rpos b + n))) by lia.
    by rewrite slice_split by lia.
Qed.

(** The length of the first run. *)
Definition run1 b : Z := if wpos b <? rpos b then cap b + 1 - rpos b else wpos b - rpos b.

Lemma run1_range b : rbuf_wf b -> 0 <= run1 b /\ rpos b + run1 b <= cap b + 1.
Proof. intros H. wf_facts H. unfold run1. case_zcmp; lia. Qed.

(** One write from the first run, which took [n] bytes, none if negative. *)
Lemma flush_run b n :
  rbuf_wf b -> -1 <= n <= run1 b ->
  let b' := set_rpos b (if 0 <? n then u32 (rpos b + n) else rpos b) in
  rbuf_wf b' /\ contents b = slice (data b) (rpos b) (Z.min n (run1 b)) ++ contents b' /\ cap b' = cap b /\
  zlen (slice (data b) (rpos b) (Z.min n (run1 b))) = Z.max 0 n.
Proof.
  intros H Hn. destruct (run1_range b H) as [H1 H2]. wf_facts H. rewrite Z.min_l by lia. unfold run1 in *. cbv zeta.
  destruct (Z.ltb_spec 0 n).
  - rewrite u32_small by lia. destruct (advance_contents b n H) as [Hwf' Hc]; [lia|by case_match; lia|].
    rewrite zlen_slice by lia. split_and!; try done; lia.
  - destruct (advance_contents b 0 H) as [Hwf' Hc]; [lia|by case_match; lia|]. rewrite Z.add_0_r in *.
    rewrite slice_neg by lia. rewrite slice_zero in Hc. rewrite zlen_nil. split_and!; try done; lia.
Qed.

(** Both runs written: [c1] is the whole first one, [n2] bytes of the second. *)
Lemma flush_runs b n2 :
  rbuf_wf b -> wpos b < rpos b -> 0 <= n2 <= wpos b ->
  rbuf_wf (set_rpos b n2) /\
  contents b = (slice (data b) (rpos b) (run1 b) ++ slice (data b) 0 n2) ++ contents (set_rpos b n2) /\
  contents (set_rpos b n2) = slice (data b) n2 (wpos b - n2).
Proof.
  intros H Hlt Hn2. wf_facts H. unfold run1, contents. simpl.
  rewrite (proj2 (Z.ltb_lt (wpos b) (rpos b))) by lia. rewrite (proj2 (Z.ltb_ge (wpos b) n2)) by lia.
  split; [split; simpl; unfold UINT32_MAX; lia|]. split; [|done].
  rewrite <- app_assoc. f_equal. replace (wpos b) with (n2 + (wpos b - n2)) at 1 by lia.
  rewrite slice_split by lia. by rewrite Z.add_0_l.
Qed.

(** What a flush writes is the front of the queue; the rest stays queued. *)
Lemma flush_spec b r1 r2 :
  rbuf_wf b ->
  exists ret b' out, _rbuf_flush b r1 r2 = Some (ret, b', out) /\ rbuf_wf b' /\
    contents b = out ++ contents b' /\ cap b' = cap b /\ -1 <= ret /\
    zlen out = Z.max 0 ret /\
    (used b <= r1 -> used b <= r2 -> contents b' = [] /\ ret = used b).
Proof.
  intros H. wf_facts H. destruct (run1_range b H) as [Hc0 Hc1]. unfold _rbuf_flush, get_rpos, get_wpos, used.
  assert (Hw1 : exists n, sys_write r1 (slice (data b) (rpos b) (run1 b)) =
      (n, slice (data b) (rpos b) (Z.min n (run1 b))) /\ -1 <= n <= run1 b /\ (run1 b <= r1 -> n = run1 b)).
  { destruct (sys_write_spec r1 (slice (data b) (rpos b) (run1 b))) as (n & -> & Hn & Hfull).
    rewrite zlen_slice in Hn, Hfull by lia. exists n. by rewrite take_slice by lia. }
  destruct Hw1 as (n & Ew & Hn & Hfull). destruct (flush_run b n H Hn) as (Hwf' & Hc & Hcap & Hz).
  unfold run1 in Ew, Hfull, Hn, Hc, Hz. destruct (Z.ltb_spec (wpos b) (rpos b)) as [Hlt|Hge].
  - replace (u32 (u32 (cap b - rpos b) + 1)) with (cap b + 1 - rpos b) by (unfold u32; mlia).
    rewrite (memread_some (data b) (rpos b)) by lia. simpl. rewrite Ew. destruct (Z.eqb_spec n (cap b + 1 - rpos b)) as [->|Hne].
    2: { do 3 eexists. split; [done|]. split_and!; try done; lia. }
    rewrite (memread_some (data b) 0 (wpos b)) by lia. simpl.
    destruct (sys_write_spec r2 (slice (data b) 0 (wpos b))) as (n2 & -> & Hn2 & Hfull2).
    rewrite zlen_slice in Hn2, Hfull2 by lia. rewrite Z.min_id in *. rewrite take_slice by lia.
    destruct (Z.leb_spec 0 n2); [|do 3 eexists; split; [done|]; split_and!; try done; lia].
    destruct (flush_runs b n2 H Hlt) as (Hwf2 & Hc2 & Hc3); [lia|]. rewrite u32_small, (Z.min_l n2) by lia.
    do 3 eexists. split; [done|]. split; [done|]. unfold run1 in Hc2.
    rewrite (proj2 (Z.ltb_lt (wpos b) (rpos b))) in Hc2 by lia. split; [done|]. split; [done|]. split; [lia|]. split.
    + rewrite zlen_app, !zlen_slice by lia. lia.
    + intros. rewrite Hc3, Hfull2 by lia. rewrite Z.sub_diag, slice_zero. split; [done|lia].
  - rewrite u32_small by lia. rewrite memread_some by lia. simpl. rewrite Ew.
    do 3 eexists. split; [done|]. split_and!; try done; [lia|]. intros. specialize (Hfull ltac:(lia)). split; [|lia].
    destruct (Z.ltb_spec 0 n); rewrite ?u32_small by lia; unfold contents; simpl;
      rewrite (proj2 (Z.ltb_ge _ _)) by lia; apply slice_neg; lia.
Qed.

End Flush.

(** ** Loggers as resources *)

Section Lifecycle.
Implicit Types (l : option logger) (ms : metrics_st).

Definition loggers l : Z := match l with Some _ => 1 | None => 0 end.

Definition logger_wf l : Prop := forall x b, l = Some x -> lbuf x = Some b -> rbuf_wf b.

Lemma log_fd_gauge t r ms : gauge_of (_log_fd t r ms).1 "log_curr" = gauge_of ms "log_curr".
Proof.
  unfold _log_fd. destruct (sys_write _ _) as [n out]. destruct (n <? 0), (n <? _); simpl; unfold INCR;
    by rewrite ?gauge_incr_ne.
Qed.

Lemma log_write_gauge x buf len r ms ok (l' : logger) ms' out :
  log_write x buf len r ms = Some (ok, l', ms', out) ->
  gauge_of ms' "log_curr" = gauge_of ms "log_curr".
Proof.
  unfold log_write. destruct (lbuf x) as [b|].
  - destruct (len <=? _); [|intros [= _ _ <- _]; unfold INCR; by rewrite !gauge_incr_ne].
    destruct (rbuf_write _ _ _) as [[? ?]|]; simpl; [|done].
    intros [= _ _ <- _]. unfold INCR. by rewrite !gauge_incr_ne.
  - destruct (fd x <? 0); [intros [= _ _ <- _]; unfold INCR; by rewrite gauge_incr_ne|].
    destruct (memread _ _ _); simpl; [|done]. destruct (sys_write _ _) as [n o].
    destruct (n <? len); intros [= _ _ <- _]; unfold INCR; by rewrite !gauge_incr_ne.
Qed.

Lemma log_flush_gauge x r1 r2 ms n (l' : logger) ms' out :
  log_flush x r1 r2 ms = Some (n, l', ms', out) ->
  gauge_of ms' "log_curr" = gauge_of ms "log_curr".
Proof.
  unfold log_flush. destruct (lbuf x); [|by intros [= _ _ <- _]].
  destruct (fd x <? 0); [intros [= _ _ <- _]; unfold INCR; by rewrite gauge_incr_ne|].
  destruct (_rbuf_flush _ _ _) as [[[k b] o]|]; simpl; [|done].
  destruct (k <? _); intros [= _ _ <- _]; unfold INCR; by rewrite gauge_incr_ne.
Qed.

(** A flush of a well-formed logger, with or without a file and a buffer. *)
Lemma log_flush_total x r1 r2 ms :
  logger_wf (Some x) -> exists n x' ms' out, log_flush x r1 r2 ms = Some (n, x', ms', out) /\
    logger_wf (Some x') /\ fd x' = fd x.
Proof.
  intros Hwf. unfold log_flush. destruct (lbuf x) as [b|] eqn:Eb; [|eauto 10].
  destruct (fd x <? 0); [eauto 10|].
  destruct (flush_spec b r1 r2 (Hwf x b eq_refl Eb)) as (ret & b' & out & -> & Hb & _).
  simpl. do 4 eexists. split; [done|]. split; [|done]. by intros ? ? [= <-] [= <-].
Qed.

(** Destroying the logger, if any: log_curr counts the [n] others. *)
Lemma log_destroy_spec n l r1 r2 ms rm :
  logger_wf l -> gauge_of ms "log_curr" = Some (i64 (n + loggers l)) ->
  exists ms' rm' out, log_destroy l r1 r2 ms rm = Some (None, ms', rm', out) /\
    gauge_of ms' "log_curr" = Some (i64 (n + 0)).
Proof.
  intros Hwf Hg. unfold log_destroy. destruct l as [x|]; [|eauto 10].
  destruct (log_flush_total x r1 r2 ms Hwf) as (k & x' & ms' & out & E & _). rewrite E. simpl.
  destruct (rbuf_destroy _ _) as [? rm']. do 3 eexists. split; [done|].
  apply log_flush_gauge in E. rewrite Hg in E. eapply eq_trans; [gauge|].
  rewrite i64_sub_l. do 2 f_equal. simpl. lia.
Qed.

(** Creating one: log_curr counts it, if it is created. *)
Lemma log_create_spec n filename c lg mem ofd ms rm :
  gauge_of ms "log_curr" = Some (i64 (n + 0)) -> 0 <= c < UINT32_MAX ->
  (forall dt, mem = Some dt -> zlen dt = c + 1) ->
  let '(l, ms', _) := log_create filename c lg mem ofd ms rm in
  logger_wf l /\ gauge_of ms' "log_curr" = Some (i64 (n + loggers l)).
Proof.
  intros Hg Hc Hmem. unfold log_create, loggers, logger_wf.
  assert (Hwf : forall dt, mem = Some dt -> rbuf_wf (Rbuf 0 0 c dt)).
  { intros dt Hd. split; simpl; try lia. by apply Hmem. }
  assert (Hup : forall ms, gauge_of ms "log_curr" = Some (i64 (n + 0)) ->
    gauge_of (INCR (INCR ms "log_create") "log_curr") "log_curr" = Some (i64 (n + 1))).
  { intros ms0 Hms. unfold INCR. eapply eq_trans; [gauge|]. rewrite i64_add_l. do 2 f_equal. lia. }
  destruct lg; simpl; [|split; [done|unfold INCR; by rewrite gauge_incr_ne]].
  destruct (0 <? c).
  - unfold rbuf_create, cc_alloc. destruct (u64 _ =? 0), mem as [dt|]; simpl;
      try (split; [done|unfold INCR; by rewrite gauge_incr_ne]).
    destruct filename; [destruct (ofd <? 0)|]; simpl; (split; [try done|]).
    + unfold INCR. by rewrite !gauge_incr_ne.
    + intros l b [= <-] [= <-]. by apply Hwf.
    + apply Hup. unfold INCR. by rewrite gauge_incr_ne.
    + intros l b [= <-] [= <-]. by apply Hwf.
    + by apply Hup.
  - destruct filename; [destruct (ofd <? 0)|]; simpl; (split; [try done|]).
    + unfold INCR. by rewrite !gauge_incr_ne.
    + by intros l b [= <-] Hb.
    + apply Hup. unfold INCR. by rewrite gauge_incr_ne.
    + by intros l b [= <-] Hb.
    + by apply Hup.
Qed.

End Lifecycle.

(** ** Histories of a buffered logger *)

Inductive log_op := OpWrite (msg : list byte) | OpFlush (r1 r2 : Z).

(** The state after a history, the bytes the file received, and the messages
    that log_write accepted and skipped. *)
Record log_result := LogResult {
  lr_logger : logger;
  lr_metrics : metrics_st;
  lr_out : list byte;
  lr_acc : list (list byte);
  lr_skip : list (list byte);
}.

Fixpoint log_run (l : logger) (ms : metrics_st) (ops : list log_op) : option log_result :=
  match ops with
  | [] => Some (LogResult l ms [] [] [])
  | OpWrite msg :: ops =>
      '(ok, l, ms, out) ← log_write l msg (zlen msg) 0 ms;
      r ← log_run l ms ops;
      Some (LogResult (lr_logger r) (lr_metrics r) (out ++ lr_out r)
              (if ok : bool then msg :: lr_acc r else lr_acc r)
              (if ok : bool then lr_skip r else msg :: lr_skip r))
  | OpFlush r1 r2 :: ops =>
      '(_, l, ms, out) ← log_flush l r1 r2 ms;
      r ← log_run l ms ops;
      Some (LogResult (lr_logger r) (lr_metrics r) (out ++ lr_out r) (lr_acc r) (lr_skip r))
  end.

Definition op_ok (o : log_op) : Prop :=
  match o with OpWrite msg => zlen msg <= UINT32_MAX | OpFlush _ _ => True end.

Section History.
Implicit Types (l : logger) (b : rbuf) (ms : metrics_st).

Lemma write_step l b msg ms :
  lbuf l = Some b -> rbuf_wf b -> zlen msg <= UINT32_MAX ->
  exists ok l' b' ms', log_write l msg (zlen msg) 0 ms = Some (ok, l', ms', []) /\
    lbuf l' = Some b' /\ fd l' = fd l /\ rbuf_wf b' /\
    contents b' = (if ok then contents b ++ msg else contents b) /\
    ok = (zlen msg <=? cap b - zlen (contents b)) /\ cap b' = cap b /\
    ms' = (if ok then INCR_N (INCR ms "log_write") "log_write_byte" (zlen msg)
           else INCR_N (INCR ms "log_skip") "log_skip_byte" (zlen msg)).
Proof.
  intros Hb Hwf Hm. unfold log_write. rewrite Hb, contents_length by done.
  pose proof (wcap_room b Hwf) as Hw. rewrite Hw.
  destruct (Z.leb_spec (zlen msg) (cap b - used b)) as [Hle|Hgt].
  - destruct (write_fits b msg Hwf Hm) as (b' & -> & Hwf' & Hc & Hcap); [right; lia|]. simpl.
    do 4 eexists. split_and!; try done. simpl.
    rewrite Hc, Hw, take_ge; [done|]. unfold zlen in *. lia.
  - do 4 eexists. split_and!; done.
Qed.

Lemma flush_step l b r1 r2 ms :
  lbuf l = Some b -> rbuf_wf b -> 0 <= fd l ->
  exists n l' b' ms' out, log_flush l r1 r2 ms = Some (n, l', ms', out) /\
    lbuf l' = Some b' /\ fd l' = fd l /\ rbuf_wf b' /\ contents b = out ++ contents b' /\
    cap b' = cap b /\ n = zlen out /\
    ((ms' = INCR ms "log_flush" /\ contents b' = []) \/
     (ms' = INCR ms "log_flush_ex" /\ (contents b' ≠ [] \/ contents b = []))) /\
    (cap b <= r1 -> cap b <= r2 -> contents b' = []).
Proof.
  intros Hb Hwf Hfd. unfold log_flush. rewrite Hb. destruct (Z.ltb_spec (fd l) 0); [lia|].
  destruct (flush_spec b r1 r2 Hwf) as (ret & b' & out & -> & Hwf' & Hc & Hcap & Hret & Hz & Hall).
  simpl. pose proof (used_range b Hwf). pose proof (contents_length b Hwf) as Hl.
  rewrite Hc, zlen_app in Hl. pose proof (zlen_nonneg (contents b')).
  do 5 eexists. split; [done|]. simpl. split_and!; try done.
  - case_zcmp; lia.
  - rewrite rcap_used by done. destruct (Z.ltb_spec ret (used b)).
    + right. split; [done|]. destruct (contents b') as [|x c']; [right|by left].
      rewrite Hc. destruct out; [done|]. rewrite zlen_nil, !zlen_cons in *.
      pose proof (zlen_nonneg out). lia.
    + left. split; [done|]. destruct (contents b') as [|x c']; [done|].
      rewrite zlen_cons in *. pose proof (zlen_nonneg c'). lia.
  - intros. apply Hall; lia.
Qed.

Lemma counter_incr_ne ms f g d : f ≠ g -> counter_of (INCR_N ms f d) g = counter_of ms g.
Proof. apply counter_on_ne. Qed.

(** Counters of the history: [u64] of the total. *)
Lemma counter_two ms f g d1 d2 v :
  f ≠ g -> counter_of ms g = Some v ->
  counter_of (INCR_N (INCR_N ms f d1) g d2) g = Some (u64 (v + d2)).
Proof. intros Hne Hv. apply counter_incr. by rewrite counter_incr_ne. Qed.

Lemma zlen_concat_cons {A} (x : list A) (ls : list (list A)) :
  zlen (concat (x :: ls)) = zlen x + zlen (concat ls).
Proof. simpl. apply zlen_app. Qed.

Lemma run_stream l b ms ops w k :
  lbuf l = Some b -> rbuf_wf b -> 0 <= fd l -> Forall op_ok ops ->
  counter_of ms "log_write_byte" = Some (u64 w) -> counter_of ms "log_skip_byte" = Some (u64 k) ->
  exists r b', log_run l ms ops = Some r /\ lbuf (lr_logger r) = Some b' /\ rbuf_wf b' /\
    contents b ++ concat (lr_acc r) = lr_out r ++ contents b' /\ cap b' = cap b /\
    counter_of (lr_metrics r) "log_write_byte" = Some (u64 (w + zlen (concat (lr_acc r)))) /\
    counter_of (lr_metrics r) "log_skip_byte" = Some (u64 (k + zlen (concat (lr_skip r)))).
Proof.
  revert l b ms w k. induction ops as [|o ops IH]; intros l b ms w k Hb Hwf Hfd Hok Hw Hk.
  - do 2 eexists. split; [done|]. simpl. rewrite app_nil_r, !Z.add_0_r. done.
  - apply Forall_cons in Hok as [Ho Hok]. destruct o as [msg|r1 r2]; simpl.
    + destruct (write_step l b msg ms Hb Hwf Ho)
        as (ok & l1 & b1 & ms1 & -> & Hb1 & Hfd1 & Hwf1 & Hc1 & _ & Hcap1 & Hms). simpl.
      destruct (IH l1 b1 ms1 (if ok then w + zlen msg else w) (if ok then k else k + zlen msg))
        as (r & b' & -> & Hb' & Hwf' & Hs & Hcap & Hcw & Hck); try done; [lia|..].
      * subst ms1. destruct ok; unfold INCR.
        -- rewrite (counter_two _ _ _ _ _ (u64 w)) by done. by rewrite u64_add_l.
        -- by rewrite !counter_incr_ne by done.
      * subst ms1. destruct ok; unfold INCR.
        -- by rewrite !counter_incr_ne by done.
        -- rewrite (counter_two _ _ _ _ _ (u64 k)) by done. by rewrite u64_add_l.
      * simpl. exists (LogResult (lr_logger r) (lr_metrics r) (lr_out r)
          (if ok then msg :: lr_acc r else lr_acc r) (if ok then lr_skip r else msg :: lr_skip r)), b'.
        split; [done|]. simpl. rewrite Hc1 in Hs.
        split_and!; try done; [|congruence|..].
        -- destruct ok; [|done]. simpl. by rewrite app_assoc.
        -- rewrite Hcw. destruct ok; rewrite ?zlen_concat_cons; do 2 f_equal; lia.
        -- rewrite Hck. destruct ok; rewrite ?zlen_concat_cons; do 2 f_equal; lia.
    + destruct (flush_step l b r1 r2 ms Hb Hwf Hfd)
        as (n & l1 & b1 & ms1 & out & -> & Hb1 & Hfd1 & Hwf1 & Hc1 & Hcap1 & _ & Hms & _). simpl.
      destruct (IH l1 b1 ms1 w k)
        as (r & b' & -> & Hb' & Hwf' & Hs & Hcap & Hcw & Hck); try done; [lia|..].
      * destruct Hms as [[-> _]|[-> _]]; unfold INCR; by rewrite counter_incr_ne.
      * destruct Hms as [[-> _]|[-> _]]; unfold INCR; by rewrite counter_incr_ne.
      * simpl. do 2 eexists. split; [done|]. simpl.
        split_and!; try done; [|congruence]. by rewrite Hc1, <- !app_assoc, Hs.
Qed.

End History.

(** ** Properties *)

(** C30: for a logger with a ring buffer and any history of messages
    and flushes, whatever the write system call answers (errors and partial
    writes included): the bytes the file received followed by those still
    buffered are exactly the bytes buffered at the start followed by the
    accepted messages in order, no message in part.  log_write_byte and
    log_skip_byte grow by the bytes of the accepted and of the skipped
    messages. *)
Theorem log_stream (l : logger) (b : rbuf) (ms : metrics_st) (ops : list log_op) (w k : Z) :
  lbuf l = Some b -> rbuf_wf b -> 0 <= fd l -> Forall op_ok ops ->
  counter_of ms "log_write_byte" = Some (u64 w) -> counter_of ms "log_skip_byte" = Some (u64 k) ->
  exists r b', log_run l ms ops = Some r /\ lbuf (lr_logger r) = Some b' /\ rbuf_wf b' /\
    contents b ++ concat (lr_acc r) = lr_out r ++ contents b' /\
    counter_of (lr_metrics r) "log_write_byte" = Some (u64 (w + zlen (concat (lr_acc r)))) /\
    counter_of (lr_metrics r) "log_skip_byte" = Some (u64 (k + zlen (concat (lr_skip r)))).
Proof.
  intros Hb Hwf Hfd Hok Hw Hk.
  destruct (run_stream l b ms ops w k) as (r & b' & ? & ? & ? & ? & _ & ? & ?); [done..|].
  by exists r, b'.
Qed.

Definition log_metrics0 : metrics_st :=
  Some (list_to_map (map (fun f => METRIC_INIT f METRIC_COUNTER "")
    ["log_write"; "log_write_byte"; "log_skip"; "log_skip_byte"; "log_flush"; "log_flush_ex"])).

(** A logger with a 4-byte buffer. *)
Definition logger4 : logger := Logger (Some "log") 3 (Some (Rbuf 0 0 4 [0; 0; 0; 0; 0])).

Lemma log_stream_witness :
  exists r b', log_run logger4 log_metrics0
      [OpWrite [1; 2; 3]; OpWrite [4; 5]; OpFlush 2 0; OpWrite [6; 7; 8]; OpFlush 9 (-1)] = Some r /\
    lr_skip r = [[4; 5]] /\ [1; 2; 3; 6; 7; 8] = lr_out r ++ contents b'.
Proof.
  destruct (log_stream logger4 (Rbuf 0 0 4 [0; 0; 0; 0; 0]) log_metrics0
      [OpWrite [1; 2; 3]; OpWrite [4; 5]; OpFlush 2 0; OpWrite [6; 7; 8]; OpFlush 9 (-1)] 0 0)
    as (r & b' & H1 & _ & _ & H2 & _);
    [reflexivity|split; vm_compute; try split; congruence|vm_compute; congruence|
     repeat constructor; vm_compute; congruence|reflexivity|reflexivity|].
  exists r, b'. split; [exact H1|]. vm_compute in H1. injection H1 as <-.
  split; [reflexivity|exact H2].
Defined.

(** Log_write on a buffered logger accepts a message exactly when
    it fits in the free space and then appends all of it, else leaves the
    buffer alone; log_flush writes the front of the buffer to the file, returns
    the number of bytes, keeps the rest, counts a complete flush only when
    nothing is left, and empties the buffer when the writes complete. *)
Theorem log_write_flush (l : logger) (b : rbuf) (msg : list byte) (r1 r2 : Z) (ms : metrics_st) :
  lbuf l = Some b -> rbuf_wf b -> 0 <= fd l -> zlen msg <= UINT32_MAX ->
  (exists ok l' b' ms', log_write l msg (zlen msg) 0 ms = Some (ok, l', ms', []) /\
    lbuf l' = Some b' /\ rbuf_wf b' /\
    contents b' = (if ok then contents b ++ msg else contents b) /\
    ok = (zlen msg <=? cap b - zlen (contents b))) /\
  (exists n l' b' ms' out, log_flush l r1 r2 ms = Some (n, l', ms', out) /\
    lbuf l' = Some b' /\ rbuf_wf b' /\ contents b = out ++ contents b' /\ n = zlen out /\
    ((ms' = INCR ms "log_flush" /\ contents b' = []) \/
     (ms' = INCR ms "log_flush_ex" /\ (contents b' ≠ [] \/ contents b = []))) /\
    (cap b <= r1 -> cap b <= r2 -> contents b' = [])).
Proof.
  intros Hb Hwf Hfd Hm. split.
  - destruct (write_step l b msg ms Hb Hwf Hm) as (ok & l' & b' & ms' & ? & ? & _ & ? & ? & ? & _).
    by exists ok, l', b', ms'.
  - destruct (flush_step l b r1 r2 ms Hb Hwf Hfd)
      as (n & l' & b' & ms' & out & ? & ? & _ & ? & ? & _ & ? & ? & ?).
    by exists n, l', b', ms', out.
Qed.

Lemma log_write_flush_witness :
  exists l' ms', log_write logger4 [1; 2; 3; 4; 5] 5 0 log_metrics0 = Some (false, l', ms', []).
Proof.
  destruct (log_write_flush logger4 (Rbuf 0 0 4 [0; 0; 0; 0; 0]) [1; 2; 3; 4; 5] 0 0 log_metrics0)
    as [(ok & l' & b' & ms' & H & _ & _ & _ & Hok) _];
    [reflexivity|split; vm_compute; try split; congruence|vm_compute; congruence
    |vm_compute; congruence|].
  vm_compute in Hok. subst ok. exists l', ms'. exact H.
Defined.
