(* ===== verification/Bstring.v ===== *)
(** * Byte strings (include/cc_bstring.h, src/cc_bstring.c)

    A [bstring] is a length and a pointer to a block, [None] for NULL.  malloc's
    answer is an argument of the functions that allocate.  bcmp is memcmp of
    glibc: the difference of the first two bytes that differ. *)

From S2P Require Import Prelude Mm.
Local Open Scope Z_scope.

Record bstring := Bstring { len : Z; data : option (list byte) }.

Definition CC_UINT64_MAXLEN : Z := 21.
Definition CC_INT64_MAXLEN : Z := 21.

Definition bstring_init : bstring := Bstring 0 None.

(** A literal [s]: the bytes of the constant before the NUL the compiler adds. *)
Definition str2bstr (s : list byte) : bstring := Bstring (zlen s) (Some (s ++ [0])).
Definition null_bstring : bstring := Bstring 0 None.
Definition bstring_set_literal (str : bstring) (literal : list byte) : bstring :=
  Bstring (u32 (zlen literal)) (Some (literal ++ [0])).

(** strlen: [None] if the block has no NUL. *)
Fixpoint strlen (block : list byte) : option Z :=
  match block with
  | [] => None
  | c :: block => if c =? 0 then Some 0 else n ← strlen block; Some (n + 1)
  end.

(** [cstr]: the block the pointer points into, from there on. *)
Definition bstring_set_cstr (str : bstring) (cstr : list byte) : option bstring :=
  n ← strlen cstr; Some (Bstring (u32 n) (Some cstr)).

Definition bstring_deinit (s : bstring) : bstring :=
  match data s with Some _ => bstring_init | None => s end.

Definition bstring_empty (s : bstring) : bool := len s =? 0.

(** [p]: the block malloc returned; its size is the one asked for. *)
Definition bstring_copy (dst : bstring) (src : list byte) (srclen : Z)
    (p : option (list byte)) : option (Z * bstring) :=
  match cc_alloc srclen p with
  | None => Some (CC_ENOMEM, Bstring (len dst) None)
  | Some block =>
      bytes ← memread src 0 srclen;
      d ← memwrite block 0 bytes;
      Some (CC_OK, Bstring srclen (Some d))
  end.

Definition bstring_duplicate (dst src : bstring) (p : option (list byte)) : option (Z * bstring) :=
  match cc_alloc (len src) p with
  | None => Some (CC_ENOMEM, Bstring (len dst) None)
  | Some block =>
      sd ← data src;
      bytes ← memread sd 0 (len src);
      d ← memwrite block 0 bytes;
      Some (CC_OK, Bstring (len src) (Some d))
  end.

Fixpoint memcmp (a b : list byte) : Z :=
  match a, b with
  | x :: a, y :: b => if x =? y then memcmp a b else x - y
  | _, _ => 0
  end.

(** The subtraction of the lengths is in uint32_t. *)
Definition bstring_compare (s1 s2 : bstring) : option Z :=
  if negb (len s1 =? len s2) then
    Some (if 0 <? u32 (len s1 - len s2) then 256 else -256)
  else
    d1 ← data s1; d2 ← data s2;
    a ← memread d1 0 (len s1);
    b ← memread d2 0 (len s1);
    Some (memcmp a b).

(** [bs], [p]: the blocks for the struct (whether malloc gave one) and for the
    data. *)
Definition bstring_alloc (size : Z) (bs : bool) (p : option (list byte)) : option bstring :=
  if negb bs then None else
  match cc_alloc size p with
  | None => None
  | Some d => Some (Bstring size (Some d))
  end.

Definition bstring_free (ptr : option (option bstring)) : option (option bstring) :=
  match ptr with
  | Some (Some _) => Some None
  | _ => ptr
  end.

(** ** Conversion to integers *)

Definition isdigit (c : Z) : bool := (48 <=? c) && (c <=? 57).

(** The for loop over the remaining bytes: the status and *u64. *)
Fixpoint atou64_loop (offset acc : Z) (s : list byte) : Z * Z :=
  match s with
  | [] => (CC_OK, acc)
  | c :: s =>
      if negb (isdigit c) then (CC_ERROR, acc) else
      if (offset =? CC_UINT64_MAXLEN - 2) && (acc =? UINT64_MAX / 10) && (UINT64_MAX mod 10 + 48 <? c)
      then (CC_ERROR, acc)
      else atou64_loop (offset + 1) (u64 (u64 (acc * 10) + (c - 48))) s
  end.

Definition bstring_atou64 (s : bstring) : option (Z * Z) :=
  if (len s =? 0) || (CC_UINT64_MAXLEN <=? len s) then Some (CC_ERROR, 0) else
  d ← data s;
  bytes ← memread d 0 (len s);
  Some (atou64_loop 0 0 bytes).

(** Signed arithmetic that overflows is undefined. *)
Definition i64_exact (x : Z) : option Z :=
  if (INT64_MIN <=? x) && (x <=? INT64_MAX) then Some x else None.

Fixpoint atoi64_loop (sign offset acc : Z) (s : list byte) : option (Z * Z) :=
  match s with
  | [] => Some (CC_OK, acc)
  | c :: s =>
      if negb (isdigit c) then Some (CC_ERROR, acc) else
      if (offset =? CC_INT64_MAXLEN - 2) &&
         (((sign <? 0) && (acc =? Z.quot INT64_MIN 10) && (- Z.rem INT64_MIN 10 <? c - 48)) ||
          ((0 <? sign) && (acc =? Z.quot INT64_MAX 10) && (Z.rem INT64_MAX 10 <? c - 48)))
      then Some (CC_ERROR, acc)
      else
        m ← i64_exact (acc * 10);
        n ← i64_exact (m + sign * (c - 48));
        atoi64_loop sign (offset + 1) n s
  end.

(** The status and *i64; [v0] is what *i64 held. *)
Definition bstring_atoi64 (v0 : Z) (s : bstring) : option (Z * Z) :=
  if (len s =? 0) || (CC_INT64_MAXLEN <=? len s) then Some (CC_ERROR, v0) else
  d ← data s;
  bytes ← memread d 0 (len s);
  c ← head bytes;
  if c =? 45 then atoi64_loop (-1) 1 0 (drop 1 bytes) else atoi64_loop 1 0 0 bytes.

(** ** Decimal value *)

(** The value of a digit string read from the left. *)
Fixpoint dec (acc : Z) (s : list byte) : Z :=
  match s with
  | [] => acc
  | c :: s => dec (acc * 10 + (c - 48)) s
  end.

Definition all_digits (s : list byte) : Prop := Forall (fun c => 48 <= c <= 57) s.

Definition whole (s : list byte) : bstring := Bstring (zlen s) (Some s).

Lemma strlen_app s k : Forall (fun c => c ≠ 0) s -> strlen (s ++ 0 :: k) = Some (zlen s).
Proof.
  induction 1 as [|c s Hc _ IH]; [done|]. simpl. rewrite (proj2 (Z.eqb_neq _ _)) by done.
  rewrite IH. simpl. by rewrite zlen_cons, Z.add_comm.
Qed.

(** A literal without a NUL gives the same string by both macros; a NUL in it
    ends the one that counts. *)
Lemma set_cstr_literal str s :
  Forall (fun c => c ≠ 0) s -> bstring_set_cstr str (s ++ [0]) = Some (bstring_set_literal str s).
Proof. intros Hs. unfold bstring_set_cstr. by rewrite strlen_app. Qed.

Lemma set_cstr_nul str a b :
  Forall (fun c => c ≠ 0) a ->
  bstring_set_cstr str ((a ++ 0 :: b) ++ [0]) = Some (Bstring (u32 (zlen a)) (Some ((a ++ 0 :: b) ++ [0]))).
Proof. intros Ha. unfold bstring_set_cstr. rewrite <- app_assoc. simpl. by rewrite strlen_app. Qed.

Section Lemmas.
Implicit Types (s : list byte) (acc : Z).

Lemma isdigit_iff c : isdigit c = true <-> 48 <= c <= 57.
Proof. unfold isdigit. rewrite andb_true_iff, !Z.leb_le. done. Qed.

Lemma isdigit_true c : 48 <= c <= 57 -> isdigit c = true.
Proof. apply isdigit_iff. Qed.

Lemma dec_split acc s : dec acc s = acc * 10 ^ zlen s + dec 0 s.
Proof.
  revert acc. induction s as [|c s IH]; intros acc; cbn [dec].
  - unfold zlen. simpl. lia.
  - rewrite (IH (acc * 10 + (c - 48))), (IH (0 * 10 + (c - 48))), zlen_cons.
    pose proof (zlen_nonneg s). rewrite Z.pow_add_r by lia. change (10 ^ 1) with 10. ring.
Qed.

Lemma dec_range s : all_digits s -> 0 <= dec 0 s < 10 ^ zlen s.
Proof.
  induction 1 as [|c s Hc _ IH]; [done|]. simpl. rewrite dec_split, zlen_cons.
  pose proof (zlen_nonneg s). rewrite Z.pow_add_r by lia. change (10 ^ 1) with 10.
  nia.
Qed.

Lemma dec_app acc s1 s2 : dec acc (s1 ++ s2) = dec (dec acc s1) s2.
Proof. revert acc. induction s1 as [|c s1 IH]; intros acc; simpl; [done|apply IH]. Qed.

Lemma dec_mono acc s : 0 <= acc -> all_digits s -> acc <= dec acc s.
Proof.
  intros Ha Hs. rewrite dec_split. pose proof (dec_range s Hs). pose proof (zlen_nonneg s).
  assert (1 <= 10 ^ zlen s) by (pose proof (Z.pow_pos_nonneg 10 (zlen s)); lia). nia.
Qed.

(** Below the last position the loop only accumulates. *)
Lemma atou64_run off acc s1 s2 :
  all_digits s1 -> 0 <= off -> off + zlen s1 <= CC_UINT64_MAXLEN - 2 ->
  atou64_loop off (u64 acc) (s1 ++ s2) = atou64_loop (off + zlen s1) (u64 (dec acc s1)) s2.
Proof.
  unfold CC_UINT64_MAXLEN. intros Hd Ho. revert off acc Ho. induction Hd as [|c s1 Hc Hd IH];
    intros off acc Ho Hl.
  - unfold zlen. simpl. by rewrite Z.add_0_r.
  - rewrite zlen_cons in *. pose proof (zlen_nonneg s1). simpl.
    rewrite (isdigit_true c) by done. simpl.
    destruct (Z.eqb_spec off (CC_UINT64_MAXLEN - 2)) as [E|_];
      [unfold CC_UINT64_MAXLEN in E; lia|]. simpl.
    replace (u64 (u64 (u64 acc * 10) + (c - 48))) with (u64 (acc * 10 + (c - 48))).
    + rewrite IH by lia. f_equal. lia.
    + rewrite u64_add_l. unfold u64.
      rewrite <- (Zplus_mod_idemp_l (acc mod _ * 10)), Zmult_mod_idemp_l, Zplus_mod_idemp_l. done.
Qed.

(** The whole conversion of a digit string. *)
Lemma atou64_digits s :
  all_digits s -> 0 < zlen s <= 20 ->
  bstring_atou64 (whole s) =
    Some (if (zlen s =? 20) && (dec 0 s / 10 =? UINT64_MAX / 10) && (UINT64_MAX mod 10 <? dec 0 s mod 10)
          then (CC_ERROR, UINT64_MAX / 10) else (CC_OK, u64 (dec 0 s))).
Proof.
  intros Hd Hl. unfold bstring_atou64, whole, CC_UINT64_MAXLEN. simpl.
  destruct (Z.eqb_spec (zlen s) 0); [lia|]. destruct (Z.leb_spec 21 (zlen s)); [lia|]. simpl.
  rewrite memread_some, slice_full by lia. simpl. f_equal.
  destruct s as [|c s _] using rev_ind; [done|].
  apply Forall_app in Hd as [Hd Hc]. apply Forall_cons in Hc as [Hc _].
  rewrite zlen_app, zlen_cons, zlen_nil in *. pose proof (zlen_nonneg s).
  change 0 with (u64 0) at 2. rewrite atou64_run by (done || unfold CC_UINT64_MAXLEN; lia).
  rewrite dec_app. simpl. rewrite (isdigit_true c) by done. simpl.
  pose proof (dec_range s Hd) as Hr.
  assert (Hlt : 10 ^ zlen s <= 10 ^ 19) by (apply Z.pow_le_mono_r; lia).
  rewrite (u64_small (dec 0 s)) by lia.
  replace ((dec 0 s * 10 + (c - 48)) / 10) with (dec 0 s) by mlia.
  replace ((dec 0 s * 10 + (c - 48)) mod 10) with (c - 48) by mlia.
  change (CC_UINT64_MAXLEN - 2) with 19. change (zlen (@nil Z)) with 0. rewrite Z.add_0_l.
  replace (zlen s + (1 + 0) =? 20) with (zlen s =? 19) by (case_zcmp; lia).
  replace (UINT64_MAX mod 10 <? c - 48) with (UINT64_MAX mod 10 + 48 <? c) by (case_zcmp; lia).
  destruct (Z.eqb_spec (zlen s) 19); simpl; [|by rewrite u64_add_l].
  destruct (Z.eqb_spec (dec 0 s) (UINT64_MAX / 10)) as [->|]; simpl; [|by rewrite u64_add_l].
  case_zcmp; [done|]. by rewrite u64_add_l.
Qed.

Lemma atou64_nondigit off acc s :
  ~ all_digits s -> exists v, atou64_loop off acc s = (CC_ERROR, v).
Proof.
  revert off acc. induction s as [|c s IH]; intros off acc Hn; [destruct Hn; constructor|].
  simpl. destruct (isdigit c) eqn:E; simpl; [|eauto].
  destruct (_ && _); [eauto|]. apply IH. intros Hs. apply Hn. constructor; [|done].
  by apply isdigit_iff.
Qed.

Lemma exact_in x : INT64_MIN <= x <= INT64_MAX -> i64_exact x = Some x.
Proof.
  intros H. unfold i64_exact.
  by rewrite (proj2 (Z.leb_le _ _)), (proj2 (Z.leb_le _ _)) by apply H.
Qed.

Lemma atoi64_run sign off a s :
  sign = 1 \/ sign = -1 -> 0 <= a -> all_digits s ->
  INT64_MIN <= sign * dec a s <= INT64_MAX ->
  atoi64_loop sign off (sign * a) s = Some (CC_OK, sign * dec a s).
Proof.
  intros Hs Ha Hd. revert off a Ha. induction Hd as [|c s Hc Hd IH]; intros off a Ha Hr; [done|].
  cbn [dec atoi64_loop] in *. rewrite (isdigit_true c) by done.
  pose proof (dec_mono (a * 10 + (c - 48)) s ltac:(lia) Hd) as Hm.
  unfold INT64_MIN, INT64_MAX in *. simpl.
  match goal with |- context [if ?g then Some (CC_ERROR, _) else _] => assert (Hg : g = false) end.
  { apply andb_false_iff. right. apply orb_false_iff.
    change (Z.quot (-9223372036854775808) 10) with (-922337203685477580).
    change (Z.rem (-9223372036854775808) 10) with (-8).
    change (Z.quot 9223372036854775807 10) with 922337203685477580.
    change (Z.rem 9223372036854775807 10) with 7.
    split; rewrite !andb_false_iff, !Z.ltb_ge, !Z.eqb_neq; destruct Hs as [->| ->]; lia. }
  rewrite Hg. rewrite exact_in by (unfold INT64_MIN, INT64_MAX; destruct Hs as [->| ->]; lia). simpl.
  rewrite exact_in by (unfold INT64_MIN, INT64_MAX; destruct Hs as [->| ->]; lia). simpl.
  replace (sign * a * 10 + sign * (c - 48)) with (sign * (a * 10 + (c - 48))) by ring.
  apply IH; lia.
Qed.

Lemma memcmp_eq (a b : list byte) : length a = length b -> (memcmp a b = 0 <-> a = b).
Proof.
  revert b. induction a as [|x a IH]; intros [|y b] Hl; simpl in *; try done.
  destruct (Z.eqb_spec x y) as [->|Hne].
  - rewrite IH by lia. split; congruence.
  - split; [lia|congruence].
Qed.

(** Both signs. *)
Lemma atoi64_parts v0 s :
  all_digits s -> s ≠ [] ->
  (zlen s <= 20 -> dec 0 s <= INT64_MAX ->
     bstring_atoi64 v0 (whole s) = Some (CC_OK, dec 0 s)) /\
  (zlen s <= 19 -> INT64_MIN <= - dec 0 s ->
     bstring_atoi64 v0 (whole (45 :: s)) = Some (CC_OK, - dec 0 s)).
Proof.
  intros Hd Hne. pose proof (dec_range s Hd) as Hr.
  assert (Hz : 0 < zlen s) by (destruct s; [done|rewrite zlen_cons; pose proof (zlen_nonneg s); lia]).
  unfold bstring_atoi64, whole, CC_INT64_MAXLEN. cbn [len data]. split; intros Hl Hv.
  - destruct (Z.eqb_spec (zlen s) 0); [lia|]. destruct (Z.leb_spec 21 (zlen s)); [lia|]. simpl.
    rewrite memread_some, slice_full by lia. simpl.
    pose proof (atoi64_run 1 0 0 s ltac:(by left) ltac:(lia) Hd) as Hrun.
    rewrite Z.mul_1_l in Hrun. rewrite !Z.mul_1_l in Hrun.
    assert (Hin : INT64_MIN <= dec 0 s <= INT64_MAX) by (unfold INT64_MIN; lia).
    destruct s as [|c s]; [done|]. apply Forall_cons in Hd as [Hc _].
    rewrite <- (Hrun Hin). cbn [head mbind option_bind].
    destruct (Z.eqb_spec c 45); [lia|done].
  - rewrite zlen_cons. destruct (Z.eqb_spec (1 + zlen s) 0); [lia|].
    destruct (Z.leb_spec 21 (1 + zlen s)); [lia|]. cbn [orb].
    cbn [mbind option_bind].
    rewrite memread_some by (rewrite ?zlen_cons; lia). rewrite <- (zlen_cons 45 s), slice_full. simpl.
    pose proof (atoi64_run (-1) 1 0 s ltac:(by right) ltac:(lia) Hd) as Hrun.
    rewrite Z.mul_0_r in Hrun. replace (-1 * dec 0 s) with (- dec 0 s) in Hrun by lia.
    apply Hrun. unfold INT64_MAX. lia.
Qed.

End Lemmas.

(** ** Properties *)

(** Converting a digit string of at most 20 bytes yields its decimal
    value modulo 2^64, unless the string has 20 digits, agrees with UINT64_MAX
    on all but the last and exceeds it there, when it fails.  So every value up
    to UINT64_MAX is converted exactly; the values above it that the check
    misses wrap silently.  A string with another byte, an empty or a longer one
    is refused. *)
Theorem bstring_atou64_spec (s : list byte) :
  (all_digits s -> 0 < zlen s <= 20 ->
    bstring_atou64 (whole s) =
      Some (if (zlen s =? 20) && (dec 0 s / 10 =? UINT64_MAX / 10) &&
               (UINT64_MAX mod 10 <? dec 0 s mod 10)
            then (CC_ERROR, UINT64_MAX / 10) else (CC_OK, u64 (dec 0 s))) /\
    (dec 0 s <= UINT64_MAX -> bstring_atou64 (whole s) = Some (CC_OK, dec 0 s))) /\
  (~ all_digits s \/ zlen s = 0 \/ 20 < zlen s ->
    exists v, bstring_atou64 (whole s) = Some (CC_ERROR, v)).
Proof.
  split.
  - intros Hd Hl. pose proof (atou64_digits s Hd Hl) as H. split; [done|]. intros Hv.
    rewrite H. destruct (_ && _) eqn:E.
    + rewrite !andb_true_iff, Z.ltb_lt, !Z.eqb_eq in E. unfold UINT64_MAX in *.
      destruct E as [[_ E1] E2]. revert E1 E2 Hv. set (v := dec 0 s). intros. exfalso. mlia.
    + rewrite u64_small; [done|]. pose proof (dec_range s Hd). unfold UINT64_MAX in Hv. lia.
  - intros H. unfold bstring_atou64, whole, CC_UINT64_MAXLEN. simpl. pose proof (zlen_nonneg s).
    destruct (Z.eqb_spec (zlen s) 0); [by eexists|].
    destruct (Z.leb_spec 21 (zlen s)); [by eexists|]. simpl.
    rewrite memread_some, slice_full by lia. simpl.
    destruct (atou64_nondigit 0 0 s) as (v & ->); [intuition lia|by eexists].
Qed.

Lemma bstring_atou64_spec_witness :
  bstring_atou64 (whole [52; 50]) = Some (CC_OK, 42).
Proof.
  destruct (bstring_atou64_spec [52; 50]) as [H _].
  apply H; [repeat constructor; lia|vm_compute; split; congruence|vm_compute; congruence].
Defined.

(** Every integer of the int64_t range, written as at most 19 digits
    behind an optional minus sign (a positive one may have 20 bytes), is
    converted exactly and without overflow. *)
Theorem bstring_atoi64_exact (v0 : Z) (s : list byte) :
  all_digits s -> s ≠ [] ->
  (zlen s <= 20 -> dec 0 s <= INT64_MAX ->
     bstring_atoi64 v0 (whole s) = Some (CC_OK, dec 0 s)) /\
  (zlen s <= 19 -> INT64_MIN <= - dec 0 s ->
     bstring_atoi64 v0 (whole (45 :: s)) = Some (CC_OK, - dec 0 s)).
Proof. apply atoi64_parts. Qed.

(** "42" and "-42". *)
Lemma bstring_atoi64_exact_witness :
  bstring_atoi64 7 (whole [52; 50]) = Some (CC_OK, 42) /\
  bstring_atoi64 7 (whole [45; 52; 50]) = Some (CC_OK, -42).
Proof.
  destruct (bstring_atoi64_exact 7 [52; 50]) as [H1 H2].
  - repeat constructor; lia.
  - discriminate.
  - split; [apply H1|apply H2]; vm_compute; congruence.
Defined.

(** Comparing strings of different lengths gives 256 whichever is
    longer, the difference of the lengths being unsigned; for equal lengths the
    result is 0 exactly when the bytes are the same. *)
Theorem bstring_compare_spec (a b : list byte) :
  zlen a <= UINT32_MAX -> zlen b <= UINT32_MAX ->
  exists r, bstring_compare (whole a) (whole b) = Some r /\
    (zlen a ≠ zlen b -> r = 256) /\ (r = 0 <-> a = b).
Proof.
  unfold UINT32_MAX. intros Ha Hb. pose proof (zlen_nonneg a). pose proof (zlen_nonneg b).
  unfold bstring_compare, whole. simpl. destruct (Z.eqb_spec (zlen a) (zlen b)) as [Heq|Hne]; simpl.
  - rewrite (memread_some a 0 (zlen a)), slice_full by lia. simpl.
    rewrite Heq, (memread_some b 0 (zlen b)), slice_full by lia. simpl. eexists. split; [done|]. split; [done|]. apply memcmp_eq. unfold zlen in Heq. lia.
  - assert (0 < u32 (zlen a - zlen b)) by (unfold u32; mlia).
    rewrite (proj2 (Z.ltb_lt _ _)) by done. eexists. split; [done|]. split; [done|].
    split; [done|congruence].
Qed.

Lemma bstring_compare_spec_witness :
  bstring_compare (whole [1]) (whole [1; 2]) = Some 256.
Proof.
  destruct (bstring_compare_spec [1] [1; 2]) as (r & E & Hr & _); [vm_compute; congruence..|].
  rewrite E. f_equal. apply Hr. vm_compute. congruence.
Defined.
