(* ===== verification/Print.v ===== *)
(** * Printing integers (include/cc_print.h, src/cc_print.c)

    The destination is the list of bytes of the object that [buf] points to the
    beginning of; [None] is an access outside it (or outside the table BASE10).
    The loops are bounded by the 20 digits of a uint64_t. *)

From S2P Require Import Prelude Bstring.
Local Open Scope Z_scope.

Definition BASE10 : list Z :=
  [0; 10; 100; 1000; 10000; 100000; 1000000; 10000000; 100000000; 1000000000;
   10000000000; 100000000000; 1000000000000; 10000000000000; 100000000000000;
   1000000000000000; 10000000000000000; 100000000000000000;
   1000000000000000000; 10000000000000000000].

(** while (n >= BASE10[d]) d++ *)
Fixpoint digits_loop (fuel d : nat) (n : Z) : option nat :=
  b ← BASE10 !! d;
  if b <=? n then
    match fuel with
    | O => None
    | S fuel => digits_loop fuel (S d) n
    end
  else Some d.

Definition digits (n : Z) : option Z := d ← digits_loop 20 1 n; Some (Z.of_nat d).

(** The do loop; [p] is the offset the pointer has before the decrement. *)
Fixpoint print_loop (fuel : nat) (buf : list byte) (p n : Z) : option (list byte) :=
  match fuel with
  | O => None
  | S fuel =>
      buf ← memwrite buf (p - 1) [48 + n mod 10];
      if 0 <? n / 10 then print_loop fuel buf (p - 1) (n / 10) else Some buf
  end.

(** [off]: where the buf argument points in the object. *)
Definition _print_uint64 (buf : list byte) (off d n : Z) : option (list byte) :=
  print_loop 20 buf (off + d) n.

Definition cc_print_uint64_unsafe (buf : list byte) (n : Z) : option (Z * list byte) :=
  d ← digits n;
  buf ← _print_uint64 buf 0 d n;
  Some (d, buf).

Definition abs_int64 (x : Z) : Z := if 0 <=? x then x else i64 (- x).

Definition cc_print_int64_unsafe (buf : list byte) (n : Z) : option (Z * list byte) :=
  let ab := u64 (abs_int64 n) in
  '(buf, off) ← (if n <? 0 then buf ← memwrite buf 0 [45]; Some (buf, 1) else Some (buf, 0));
  d ← digits ab;
  buf ← _print_uint64 buf off d ab;
  Some (d + (if n <? 0 then 1 else 0), buf).

Definition cc_print_uint64 (buf : list byte) (size n : Z) : option (Z * list byte) :=
  d ← digits n;
  if size <? d then Some (0, buf) else
  buf ← _print_uint64 buf 0 d n;
  Some (d, buf).

(** The last call passes n, converted to uint64_t, not its absolute value. *)
Definition cc_print_int64 (buf : list byte) (size n : Z) : option (Z * list byte) :=
  let ab := u64 (abs_int64 n) in
  d ← digits ab;
  if size <? d + (if n <? 0 then 1 else 0) then Some (0, buf) else
  '(buf, off) ← (if n <? 0 then buf ← memwrite buf 0 [45]; Some (buf, 1) else Some (buf, 0));
  buf ← _print_uint64 buf off d (u64 n);
  Some (d + (if n <? 0 then 1 else 0), buf).

(** [i]: what vsnprintf returned. *)
Definition _vscnprintf (i size : Z) : Z :=
  if i <=? 0 then 0 else if i <? i32 size then i else u64 (size - 1).

Definition _scnprintf (i size : Z) : Z := i32 (_vscnprintf i size).

(** ** The decimal string *)

(** The last [d] digits of [n]. *)
Fixpoint render (d : nat) (n : Z) : list byte :=
  match d with
  | O => []
  | S d => render d (n / 10) ++ [48 + n mod 10]
  end.

(** [d] is the number of decimal digits of [n]. *)
Definition ndigits (n : Z) (d : nat) : Prop :=
  (1 <= d)%nat /\ 0 <= n < 10 ^ Z.of_nat d /\ (d = 1%nat \/ 10 ^ (Z.of_nat d - 1) <= n).

Section Lemmas.
Implicit Types (d : nat) (n : Z).

Lemma render_length d n : zlen (render d n) = Z.of_nat d.
Proof.
  revert n. induction d as [|d IH]; intros n; [done|]. simpl.
  rewrite zlen_app, IH. unfold zlen. simpl. lia.
Qed.

Lemma render_digits d n : all_digits (render d n).
Proof.
  revert n. induction d as [|d IH]; intros n; simpl; [constructor|].
  apply Forall_app. split; [apply IH|]. constructor; [|constructor]. mlia.
Qed.

Lemma dec_render d n : 0 <= n < 10 ^ Z.of_nat d -> dec 0 (render d n) = n.
Proof.
  revert n. induction d as [|d IH]; intros n Hn; simpl.
  - simpl in Hn. lia.
  - rewrite Nat2Z.inj_succ, Z.pow_succ_r in Hn by lia.
    rewrite dec_app, IH by mlia. simpl. mlia.
Qed.

Lemma base10_lookup d : (1 <= d <= 19)%nat -> BASE10 !! d = Some (10 ^ Z.of_nat d).
Proof. intros Hd. do 20 (destruct d as [|d]; [(lia || reflexivity)|]). lia. Qed.

Lemma digits_loop_spec fuel d n :
  (1 <= d)%nat -> (d + fuel = 21)%nat -> 0 <= n -> (d = 1%nat \/ 10 ^ (Z.of_nat d - 1) <= n) ->
  if n <? 10 ^ 19 then exists d', digits_loop fuel d n = Some d' /\ ndigits n d' /\ (d' <= 19)%nat
  else digits_loop fuel d n = None.
Proof.
  revert d. induction fuel as [|fuel IH]; intros d Hd Hf Hn Hlow.
  - replace d with 21%nat in * by lia. destruct Hlow as [|Hlow]; [lia|].
    destruct (Z.ltb_spec n (10 ^ 19)); [|done].
    change (10 ^ (Z.of_nat 21 - 1)) with (10 * 10 ^ 19) in Hlow. lia.
  - cbn [digits_loop]. destruct (decide (d = 20%nat)) as [->|Hne].
    + destruct Hlow as [|Hlow]; [lia|]. change (Z.of_nat 20 - 1) with 19 in Hlow.
      destruct (Z.ltb_spec n (10 ^ 19)); [lia|done].
    + destruct (decide (d = 21%nat)) as [->|]; [lia|].
      rewrite base10_lookup by lia. cbn [mbind option_bind].
      destruct (Z.leb_spec (10 ^ Z.of_nat d) n).
      * apply IH; [lia..|]. right. by replace (Z.of_nat (S d) - 1) with (Z.of_nat d) by lia.
      * destruct (Z.ltb_spec n (10 ^ 19)) as [|Hge].
        -- exists d. split; [done|]. split; [|lia]. split; [done|]. split; [lia|done].
        -- assert (10 ^ Z.of_nat d <= 10 ^ 19) by (apply Z.pow_le_mono_r; lia). lia.
Qed.

Lemma digits_spec n :
  0 <= n < 10 ^ 19 -> exists d, digits n = Some (Z.of_nat d) /\ ndigits n d /\ (d <= 19)%nat.
Proof.
  intros Hn. pose proof (digits_loop_spec 20 1 n) as H.
  rewrite (proj2 (Z.ltb_lt _ _)) in H by lia.
  destruct H as (d & E & Hd); [lia|done|lia|by left|].
  exists d. split; [|done]. unfold digits. by rewrite E.
Qed.

Lemma print_loop_spec fuel buf off d n :
  (d <= fuel)%nat -> ndigits n d -> 0 <= off -> off + Z.of_nat d <= zlen buf ->
  print_loop fuel buf (off + Z.of_nat d) n = Some (splice buf off (render d n)).
Proof.
  revert buf d n. induction fuel as [|fuel IH]; intros buf d n Hf (Hd & Hn & Hlow) Ho Hl; [lia|].
  destruct d as [|d]; [lia|]. cbn [print_loop].
  replace (off + Z.of_nat (S d) - 1) with (off + Z.of_nat d) by lia.
  rewrite memwrite_some by (unfold zlen in *; simpl; lia). cbn [mbind option_bind].
  rewrite Nat2Z.inj_succ in *. rewrite Z.pow_succ_r in Hn by lia.
  destruct (decide (d = 0%nat)) as [->|Hd0].
  - simpl in Hn. assert (n / 10 = 0) as -> by mlia. by rewrite Z.add_0_r.
  - destruct Hlow as [|Hlow]; [lia|]. replace (Z.succ (Z.of_nat d) - 1) with (Z.of_nat d) in Hlow by lia.
    assert (Hp : 10 ^ Z.of_nat d = 10 * 10 ^ (Z.of_nat d - 1)).
    { rewrite <- Z.pow_succ_r by lia. f_equal. lia. }
    assert (0 < 10 ^ (Z.of_nat d - 1)) by (apply Z.pow_pos_nonneg; lia).
    assert (Hq : 10 ^ (Z.of_nat d - 1) <= n / 10) by (apply Z.div_le_lower_bound; lia).
    destruct (Z.ltb_spec 0 (n / 10)); [|lia].
    rewrite IH.
    + f_equal. cbn [render]. rewrite <- (render_length d (n / 10)).
      apply splice_adjacent; rewrite ?render_length; unfold zlen in *; simpl; lia.
    + lia.
    + split; [lia|]. split; [|by right]. split; [apply Z.div_pos; lia|].
      apply Z.div_lt_upper_bound; lia.
    + done.
    + rewrite zlen_splice; unfold zlen in *; simpl; lia.
Qed.

(** A canonical numeral has no leading zero. *)
Lemma render_head d n c l :
  ndigits n d -> (1 < d)%nat -> render d n = c :: l -> c ≠ 48.
Proof.
  intros (Hd & Hn & Hlow) H1 E Hc. destruct Hlow as [|Hlow]; [lia|].
  pose proof (dec_render d n Hn) as Hv. pose proof (render_length d n) as Hz.
  pose proof (render_digits d n) as Ha. rewrite E in *. subst c.
  apply Forall_cons in Ha as [_ Ha]. rewrite zlen_cons in Hz.
  pose proof (dec_range l Ha) as Hr. change (dec 0 l = n) in Hv.
  replace (zlen l) with (Z.of_nat d - 1) in Hr by lia. lia.
Qed.

(** A number with more than [k] digits needs more than [k] bytes below [p]. *)
Lemma print_loop_under fuel buf p n k :
  10 ^ Z.of_nat k <= n -> p <= Z.of_nat k -> print_loop fuel buf p n = None.
Proof.
  revert buf p n k. induction fuel as [|fuel IH]; intros buf p n k Hn Hp; [done|].
  cbn [print_loop]. destruct (memwrite buf (p - 1) _) as [buf'|] eqn:E; [|done].
  cbn [mbind option_bind].
  destruct k as [|k].
  - exfalso. unfold memwrite in E. destruct (Z.leb_spec 0 (p - 1)); [lia|done].
  - rewrite Nat2Z.inj_succ, Z.pow_succ_r in Hn by lia.
    assert (Hq : 10 ^ Z.of_nat k <= n / 10) by (apply Z.div_le_lower_bound; lia).
    assert (0 < 10 ^ Z.of_nat k) by (apply Z.pow_pos_nonneg; lia).
    destruct (Z.ltb_spec 0 (n / 10)); [|lia]. apply (IH _ _ _ k); lia.
Qed.

End Lemmas.

(** ** Properties *)

(** The [d] bytes at the beginning of a buffer, as a byte string. *)
Definition printed (d : Z) (buf : list byte) : bstring := Bstring d (Some buf).

(** C40: printing n < 10^19 into a buffer of [size] bytes returns 0 and
    writes nothing if [size] is below the number of decimal digits; otherwise it
    returns that number, stores the canonical decimal numeral (no leading zero)
    at the beginning of the buffer, leaves the rest of it alone, and
    bstring_atou64 reads the number back. *)
Theorem print_uint64_roundtrip (buf : list byte) (size n : Z) :
  0 <= n < 10 ^ 19 -> size <= zlen buf ->
  exists d, ndigits n d /\
    if size <? Z.of_nat d then cc_print_uint64 buf size n = Some (0, buf)
    else exists buf', cc_print_uint64 buf size n = Some (Z.of_nat d, buf') /\
      buf' = render d n ++ drop d buf /\
      (forall c l, render d n = c :: l -> (1 < d)%nat -> c ≠ 48) /\
      bstring_atou64 (printed (Z.of_nat d) buf') = Some (CC_OK, n).
Proof.
  intros Hn Hs. destruct (digits_spec n Hn) as (d & Ed & Hd & H19).
  exists d. split; [done|]. unfold cc_print_uint64. rewrite Ed. simpl.
  destruct (Z.ltb_spec size (Z.of_nat d)) as [|Hge]; [done|].
  unfold _print_uint64. rewrite print_loop_spec by (done || lia). simpl.
  eexists. split; [done|]. unfold splice. simpl.
  pose proof (render_length d n) as Hz.
  replace (length (render d n)) with d by (unfold zlen in Hz; lia).
  split; [done|]. split; [intros; by eapply render_head|].
  pose proof (render_digits d n) as Hdig. pose proof (dec_render d n) as Hdec.
  pose proof Hd as (Hd1 & Hnr & _). specialize (Hdec Hnr).
  pose proof (atou64_digits (render d n) Hdig) as Hat.
  unfold bstring_atou64, printed, whole in *. cbn [len data] in *. rewrite Hz in *.
  destruct (Z.eqb_spec (Z.of_nat d) 0); [lia|].
  destruct (Z.leb_spec CC_UINT64_MAXLEN (Z.of_nat d)); [unfold CC_UINT64_MAXLEN in *; lia|].
  cbn [orb mbind option_bind] in *.
  rewrite (memread_some (render d n)) in Hat by lia. rewrite <- Hz, slice_full in Hat.
  rewrite memread_some by (rewrite ?zlen_app, ?Hz; pose proof (zlen_nonneg (drop d buf)); lia).
  replace (slice (render d n ++ drop d buf) 0 (Z.of_nat d)) with (render d n).
  - cbn [mbind option_bind] in *. rewrite Hat by lia. rewrite Hz, Hdec.
    destruct (Z.eqb_spec (Z.of_nat d) 20); [lia|]. cbn [andb].
    rewrite u64_small by lia. done.
  - unfold slice. rewrite drop_0. rewrite take_app_length'; [done|]. unfold zlen in Hz. lia.
Qed.

Lemma print_uint64_roundtrip_witness :
  exists buf', cc_print_uint64 [0; 0; 0; 0] 4 207 = Some (3, buf') /\ buf' = [50; 48; 55; 0].
Proof.
  destruct (print_uint64_roundtrip [0; 0; 0; 0] 4 207) as (d & Hd & H);
    [lia|vm_compute; congruence|].
  assert (d = 3%nat) as ->.
  { destruct Hd as (H1 & H2 & H3). destruct d as [|[|[|[|d]]]]; [lia| | |done|].
    - vm_compute in H2. destruct H2. discriminate.
    - vm_compute in H2. destruct H2. discriminate.
    - destruct H3 as [|H3]; [lia|]. exfalso.
      assert (10 ^ 3 <= 10 ^ (Z.of_nat (S (S (S (S d)))) - 1)) by (apply Z.pow_le_mono_r; lia).
      change (10 ^ 3) with 1000 in *. lia. }
  destruct H as (buf' & H1 & H2 & _). exists buf'. split; [exact H1|exact H2].
Defined.

(** Cc_print_int64_unsafe prints any int64_t, INT64_MIN included,
    within 20 bytes, and bstring_atoi64 reads the number back. *)
Theorem print_int64_unsafe_roundtrip (buf : list byte) (n v0 : Z) :
  INT64_MIN <= n <= INT64_MAX -> 20 <= zlen buf ->
  exists len s, cc_print_int64_unsafe buf n = Some (len, splice buf 0 s) /\
    zlen s = len /\ len <= 20 /\ bstring_atoi64 v0 (whole s) = Some (CC_OK, n).
Proof.
  unfold INT64_MIN, INT64_MAX. intros Hn Hb. unfold cc_print_int64_unsafe.
  assert (Hab : u64 (abs_int64 n) = Z.abs n).
  { unfold abs_int64. case_zcmp.
    - rewrite u64_small; lia.
    - destruct (Z.eq_dec n (-9223372036854775808)) as [->|]; [done|].
      rewrite i64_small, u64_small; lia. }
  rewrite Hab. destruct (digits_spec (Z.abs n)) as (d & Ed & Hd & H19); [lia|].
  pose proof (render_length d (Z.abs n)) as Hz. pose proof (render_digits d (Z.abs n)) as Hdig.
  pose proof Hd as (Hd1 & Hnr & _). pose proof (dec_render d (Z.abs n) Hnr) as Hdec.
  assert (Hne : render d (Z.abs n) ≠ []).
  { intros E. rewrite E in Hz. unfold zlen in Hz. simpl in Hz. lia. }
  destruct (Z.ltb_spec n 0); simpl.
  - rewrite memwrite_some by (unfold zlen in *; simpl; lia). simpl. rewrite Ed. simpl.
    unfold _print_uint64. rewrite print_loop_spec by
      (done || lia || (rewrite zlen_splice; unfold zlen in *; simpl; lia)). simpl.
    exists (Z.of_nat d + 1), (45 :: render d (Z.abs n)). split; [|split_and!].
    + do 2 f_equal. change (45 :: render d (Z.abs n)) with ([45] ++ render d (Z.abs n)).
      unfold splice. simpl. f_equal. by rewrite drop_drop.
    + rewrite zlen_cons. lia.
    + lia.
    + destruct (atoi64_parts v0 (render d (Z.abs n)) Hdig Hne) as [_ H2].
      rewrite H2 by (unfold INT64_MIN; lia). do 2 f_equal. lia.
  - rewrite Ed. simpl. unfold _print_uint64. rewrite print_loop_spec by (done || lia). simpl.
    exists (Z.of_nat d), (render d (Z.abs n)). split; [by rewrite Z.add_0_r|]. split_and!; [lia..|].
    destruct (atoi64_parts v0 (render d (Z.abs n)) Hdig Hne) as [H1 _].
    rewrite H1 by (unfold INT64_MAX; lia). do 2 f_equal. lia.
Qed.

Lemma print_int64_unsafe_roundtrip_witness :
  exists len s, cc_print_int64_unsafe (replicate 20 0) INT64_MIN = Some (len, splice (replicate 20 0) 0 s) /\
    bstring_atoi64 0 (whole s) = Some (CC_OK, INT64_MIN).
Proof.
  destruct (print_int64_unsafe_roundtrip (replicate 20 0) INT64_MIN 0)
    as (len & s & H1 & _ & _ & H2); [vm_compute; split; congruence|vm_compute; congruence|].
  exists len, s. split; [exact H1|exact H2].
Defined.

(** The bounded cc_print_int64 hands the negative number itself,
    as a uint64_t, to the digit loop: for -10^18 < n < 0 the loop writes 20
    digits where it counted at most 18, and so stores below the buffer. *)
Theorem print_int64_negative_underruns (buf : list byte) (size n : Z) :
  - 10 ^ 18 < n < 0 -> 20 <= size <= zlen buf -> cc_print_int64 buf size n = None.
Proof.
  intros Hn Hs. unfold cc_print_int64.
  assert (Hab : u64 (abs_int64 n) = - n).
  { unfold abs_int64. case_zcmp; [lia|]. rewrite i64_small, u64_small; lia. }
  rewrite Hab. destruct (digits_spec (- n)) as (d & Ed & (Hd1 & Hnr & Hlow) & H19); [lia|].
  rewrite Ed. cbn [mbind option_bind].
  assert (Hd18 : (d <= 18)%nat).
  { destruct (decide (d <= 18)%nat); [done|]. replace d with 19%nat in * by lia.
    destruct Hlow as [|Hlow]; [lia|]. change (Z.of_nat 19 - 1) with 18 in Hlow. lia. }
  destruct (Z.ltb_spec n 0); [|lia]. destruct (Z.ltb_spec size (Z.of_nat d + 1)); [lia|].
  rewrite memwrite_some by (unfold zlen in *; simpl; lia). cbn [mbind option_bind].
  unfold _print_uint64.
  assert (Hu : 10 ^ 19 <= u64 n < 10 ^ 20).
  { unfold u64. rewrite <- (Z.mod_add n 1), Z.mod_small by lia. lia. }
  rewrite print_loop_under with (k := 19%nat); [done| |lia].
  change (Z.of_nat 19) with 19. lia.
Qed.

Lemma print_int64_negative_underruns_witness :
  cc_print_int64 (replicate 24 0) 24 (-5) = None.
Proof.
  apply (print_int64_negative_underruns (replicate 24 0) 24 (-5)); [lia|vm_compute; split; congruence].
Defined.
