(* ===== verification/Option.v ===== *)
(** * Configuration options (include/cc_option.h, src/cc_option.c)

    C strings are lists of bytes without the terminating NUL.  The fixed-size
    buffers are kept: a store outside one is [None].  strtod is the C library's
    and an argument; atoll and strtok are written out.

    An unsigned option is an integer expression that is converted to reverse
    Polish notation and evaluated on a stack of uintmax_t. *)

From Stdlib Require Import SpecFloat.
From S2P Require Import Prelude Bstring.
Local Open Scope Z_scope.

Definition OPTLINE_MAXLEN : Z := 1024.
Definition OPTNAME_MAXLEN : Z := 31.
Definition OPTVAL_MAXLEN : Z := 255.

Inductive option_type_e :=
| OPTION_TYPE_BOOL
| OPTION_TYPE_UINT
| OPTION_TYPE_FPN
| OPTION_TYPE_STR
| OPTION_TYPE_SENTINEL.

(** The union, with the member last written. *)
Inductive option_val_u :=
| Vbool (b : bool)
| Vuint (n : Z)
| Vfpn (f : spec_float)
| Vstr (s : option (list byte)).

Record opt := Opt {
  oname : list byte;
  oset : bool;
  otype : option_type_e;
  odefault : option_val_u;
  oval : option_val_u;
  odesc : list byte;
}.

Definition set_val (o : opt) (v : option_val_u) : opt :=
  Opt (oname o) true (otype o) (odefault o) v (odesc o).
Definition mark_set (o : opt) : opt :=
  Opt (oname o) true (otype o) (odefault o) (oval o) (odesc o).

Definition option_uint (o : opt) : option Z := match oval o with Vuint n => Some n | _ => None end.
Definition option_bool (o : opt) : option bool := match oval o with Vbool b => Some b | _ => None end.
Definition option_fpn (o : opt) : option spec_float := match oval o with Vfpn f => Some f | _ => None end.
Definition option_str (o : opt) : option (option (list byte)) := match oval o with Vstr s => Some s | _ => None end.

Definition _option_parse_bool (o : opt) (val_str : list byte) : Z * opt :=
  if decide (val_str = [121; 101; 115]) then (CC_OK, set_val o (Vbool true))
  else if decide (val_str = [110; 111]) then (CC_OK, set_val o (Vbool false))
  else (CC_ERROR, o).

(** ** Integer expressions *)

Definition is_op (c : Z) : bool := (c =? 43) || (c =? 45) || (c =? 42) || (c =? 47).

Definition _option_comp_op_precedence (op1 op2 : Z) : bool :=
  ((op1 =? 42) || (op1 =? 47)) && ((op2 =? 43) || (op2 =? 45)).

(** *(rpn++) = c into the array of OPTLINE_MAXLEN bytes. *)
Definition emit (rpn : list byte) (c : Z) : option (list byte) :=
  if zlen rpn <? OPTLINE_MAXLEN then Some (rpn ++ [c]) else None.

(** op_stack[op_stack_len++] = c; the top of the stack comes first. *)
Definition push_op (c : Z) (stack : list byte) : option (list byte) :=
  if zlen stack <? OPTLINE_MAXLEN then Some (c :: stack) else None.

(** The inner loop of the operator case. *)
Fixpoint pop_higher (c : Z) (rpn stack : list byte) : option (list byte * list byte) :=
  match stack with
  | top :: stack' =>
      if negb (top =? 40) && _option_comp_op_precedence top c then
        rpn ← emit rpn top; pop_higher c rpn stack'
      else Some (rpn, stack)
  | [] => Some (rpn, [])
  end.

(** Pop onto the output until an open parenthesis or the bottom. *)
Fixpoint pop_to_paren (rpn stack : list byte) : option (list byte * list byte) :=
  match stack with
  | top :: stack' =>
      if negb (top =? 40) then
        rpn ← emit rpn 32; rpn ← emit rpn top; pop_to_paren rpn stack'
      else Some (rpn, stack)
  | [] => Some (rpn, [])
  end.

(** The final loop; the status is CC_ERROR on an open parenthesis. *)
Fixpoint pop_all (rpn stack : list byte) : option (Z * list byte) :=
  match stack with
  | top :: stack' =>
      if top =? 40 then Some (CC_ERROR, rpn) else
      rpn ← emit rpn 32; rpn ← emit rpn top; pop_all rpn stack'
  | [] => _ ← emit rpn 0; Some (CC_OK, rpn)
  end.

Fixpoint convert_loop (s rpn stack : list byte) : option (Z * list byte) :=
  match s with
  | [] => pop_all rpn stack
  | c :: s =>
      if isdigit c then rpn ← emit rpn c; convert_loop s rpn stack
      else if is_op c then
        rpn ← emit rpn 32;
        '(rpn, stack) ← pop_higher c rpn stack;
        stack ← push_op c stack;
        convert_loop s rpn stack
      else if c =? 40 then stack ← push_op c stack; convert_loop s rpn stack
      else if c =? 41 then
        '(rpn, stack) ← pop_to_paren rpn stack;
        match stack with
        | [] => Some (CC_ERROR, rpn)
        | _ :: stack => convert_loop s rpn stack
        end
      else if (c =? 32) || (c =? 9) then convert_loop s rpn stack
      else Some (CC_ERROR, rpn)
  end.

Definition _option_convert_rpn (val_str : list byte) : option (Z * list byte) :=
  convert_loop val_str [] [].

(** strtok over a string with the delimiter " ": the non-empty runs. *)
Fixpoint tokens_from (cur s : list byte) : list (list byte) :=
  match s with
  | [] => match cur with [] => [] | _ => [cur] end
  | c :: s =>
      if c =? 32 then match cur with [] => tokens_from [] s | _ => cur :: tokens_from [] s end
      else tokens_from (cur ++ [c]) s
  end.
Definition strtok_all (s : list byte) : list (list byte) := tokens_from [] s.

(** atoll of a string that begins with a digit: its leading digits, clamped to
    LLONG_MAX (glibc). *)
Fixpoint leading_digits (s : list byte) : list byte :=
  match s with
  | c :: s => if isdigit c then c :: leading_digits s else []
  | [] => []
  end.
Definition atoll (s : list byte) : Z := Z.min (dec 0 (leading_digits s)) INT64_MAX.

(** One operator on two uintmax_t; [None] is an error. *)
Definition apply_op (c first second : Z) : option Z :=
  if c =? 43 then let result := u64 (first + second) in
    if result <? first then None else Some result
  else if c =? 45 then let result := u64 (first - second) in
    if first <? result then None else Some result
  else if c =? 42 then let result := u64 (first * second) in
    if negb (first =? 0) && negb (result / first =? second) then None else Some result
  else if c =? 47 then if second =? 0 then None else Some (first / second)
  else Some 0.

(** The loop over the tokens; [None] is a store outside stack[]. *)
Fixpoint eval_tokens (toks : list (list byte)) (stack : list Z) : option (Z * Z) :=
  match toks with
  | [] => match stack with [v] => Some (CC_OK, v) | _ => Some (CC_ERROR, 0) end
  | tok :: toks =>
      let c := default 0 (head tok) in
      if isdigit c then
        if zlen stack <? OPTLINE_MAXLEN then eval_tokens toks (u64 (atoll tok) :: stack) else None
      else
        match stack with
        | second :: first :: stack =>
            match apply_op c first second with
            | Some result => eval_tokens toks (result :: stack)
            | None => Some (CC_ERROR, 0)
            end
        | _ => Some (CC_ERROR, 0)
        end
  end.

Definition _option_eval_rpn (rpn : list byte) : option (Z * Z) := eval_tokens (strtok_all rpn) [].

(** The status, and the value when it is CC_OK. *)
Definition _option_eval_int_expr (val_str : list byte) : option (Z * Z) :=
  '(ret, rpn) ← _option_convert_rpn val_str;
  if negb (ret =? CC_OK) then Some (ret, 0) else _option_eval_rpn rpn.

Definition _option_parse_uint (o : opt) (val_str : list byte) : option (Z * opt) :=
  '(ret, v) ← _option_eval_int_expr val_str;
  if negb (ret =? CC_OK) then Some (CC_ERROR, o) else Some (CC_OK, set_val o (Vuint v)).

(** ** Options *)

Section Options.
(** strtod: the value, the number of bytes it consumed, and whether it set errno
    to ERANGE. *)
Context (strtod : list byte -> spec_float * Z * bool).

(** [erange]: errno is ERANGE when the function is entered; it is not cleared. *)
Definition _option_parse_fpn (erange : bool) (o : opt) (val_str : list byte) : Z * opt :=
  let '(val, loc, range) := strtod val_str in
  if range || erange then (CC_ERROR, o)
  else if loc <? zlen val_str then (CC_ERROR, o)
  else (CC_OK, set_val o (Vfpn val)).

(** [mem]: whether malloc returned a block. *)
Definition _option_parse_str (mem : bool) (o : opt) (val_str : option (list byte)) : Z * opt :=
  match val_str with
  | None => (CC_OK, set_val o (Vstr None))
  | Some s => if mem then (CC_OK, set_val o (Vstr (Some s)))
              else (CC_ERROR, set_val o (Vstr None))
  end.

Definition option_default (mem : bool) (o : opt) : Z * opt :=
  match otype o with
  | OPTION_TYPE_BOOL | OPTION_TYPE_UINT | OPTION_TYPE_FPN => (CC_OK, set_val o (odefault o))
  | OPTION_TYPE_STR =>
      match odefault o with
      | Vstr (Some s) => if mem then (CC_OK, set_val o (Vstr (Some s)))
                         else (CC_ERROR, set_val o (Vstr None))
      | _ => (CC_OK, set_val o (Vstr None))
      end
  | OPTION_TYPE_SENTINEL =>
      (CC_ERROR, Opt (oname o) false (otype o) (odefault o) (oval o) (odesc o))
  end.

Definition option_set (erange mem : bool) (o : opt) (val_str : list byte) : option (Z * opt) :=
  match otype o with
  | OPTION_TYPE_BOOL => Some (_option_parse_bool o val_str)
  | OPTION_TYPE_UINT => _option_parse_uint o val_str
  | OPTION_TYPE_FPN => Some (_option_parse_fpn erange o val_str)
  | OPTION_TYPE_STR => Some (_option_parse_str mem o (Some val_str))
  | OPTION_TYPE_SENTINEL => Some (CC_ERROR, o)
  end.

(** *** Lines *)

Definition isspace (c : Z) : bool := ((9 <=? c) && (c <=? 13)) || (c =? 32).
Definition isalnum (c : Z) : bool :=
  isdigit c || ((65 <=? c) && (c <=? 90)) || ((97 <=? c) && (c <=? 122)).
Definition _allowed_in_name (c : Z) : bool := isalnum c || (c =? 95).

(** line[i], the NUL behind the string included. *)
Definition char_at (line : list byte) (i : Z) : Z := default 0 (line !! Z.to_nat i).

(** The loop over the name: the offset where it stops, [None] on a character
    that is not allowed. *)
Fixpoint name_loop (fuel : nat) (line : list byte) (p limit : Z) : option Z :=
  match fuel with
  | O => Some p
  | S fuel =>
      if negb (char_at line p =? 58) && (p <? limit) then
        if _allowed_in_name (char_at line p) then name_loop fuel line (p + 1) limit else None
      else Some p
  end.

Fixpoint skip_left (fuel : nat) (line : list byte) (p q : Z) : Z :=
  match fuel with
  | O => p
  | S fuel => if isspace (char_at line p) && (p <? q) then skip_left fuel line (p + 1) q else p
  end.

Fixpoint skip_right (fuel : nat) (line : list byte) (p q : Z) : Z :=
  match fuel with
  | O => q
  | S fuel => if isspace (char_at line q) && (p <=? q) then skip_right fuel line p (q - 1) else q
  end.

(** The status, name and value.  The loops run at most as often as the line has
    bytes. *)
Definition _option_parse (line : list byte) : Z * list byte * list byte :=
  let llen := zlen line in
  let fuel := S (length line) in
  if (llen =? 0) || isspace (char_at line 0) || (char_at line 0 =? 35) then (CC_EEMPTY, [], []) else
  if OPTLINE_MAXLEN <? llen then (CC_ERROR, [], []) else
  match name_loop fuel line 0 (Z.min llen (OPTNAME_MAXLEN + 1)) with
  | None => (CC_ERROR, [], [])
  | Some p =>
      if p =? llen then (CC_ERROR, [], []) else
      if OPTNAME_MAXLEN <? p then (CC_ERROR, [], []) else
      let name := slice line 0 p in
      let p := p + 1 in
      let q := llen - 1 in
      let p := skip_left fuel line p q in
      let q := skip_right fuel line p q in
      if q <? p then (CC_ERROR, [], []) else
      let vlen := q - p + 1 in
      if OPTVAL_MAXLEN <? vlen then (CC_ERROR, [], []) else
      (CC_OK, name, slice line p vlen)
  end.

(** *** Files *)

(** The for loop that looks the name up and sets the option: the status and the
    options, [None] if there is no such name. *)
Fixpoint set_named (erange mem : bool) (options : list opt) (name val : list byte)
  : option (option (Z * list opt)) :=
  match options with
  | [] => Some None
  | o :: options =>
      if decide (name = oname o) then
        '(st, o) ← option_set erange mem o val; Some (Some (st, o :: options))
      else
        r ← set_named erange mem options name val;
        Some ('(st, options) ← r; Some (st, o :: options))
  end.

(** [lines]: what the successive fgets calls read; [ferror]: whether the file
    failed. *)
Fixpoint option_load_file (erange mem ferror : bool) (lines : list (list byte)) (options : list opt)
  : option (Z * list opt) :=
  match lines with
  | [] => Some (if ferror then CC_ERROR else CC_OK, options)
  | line :: lines =>
      let '(st, name, val) := _option_parse line in
      if st =? CC_EEMPTY then option_load_file erange mem ferror lines options else
      if negb (st =? CC_OK) then Some (CC_ERROR, options) else
      r ← set_named erange mem options name val;
      match r with
      | None => Some (CC_ERROR, options)
      | Some (st, options) =>
          if negb (st =? CC_OK) then Some (CC_ERROR, options)
          else option_load_file erange mem ferror lines options
      end
  end.

Fixpoint option_load_default (mem : bool) (options : list opt) : Z * list opt :=
  match options with
  | [] => (CC_OK, [])
  | o :: options =>
      let '(st, o) := option_default mem o in
      if negb (st =? CC_OK) then (st, o :: options)
      else let '(st, options) := option_load_default mem options in (st, o :: options)
  end.

End Options.

(** ** Correctness of the expression evaluator *)

Section Bounds.
Implicit Types (s rpn stack : list byte).

(** The bytes still to be emitted for a stack: a space and the operator each. *)
Definition cost rpn stack : Z := zlen rpn + 2 * zlen stack.

Lemma emit_some rpn c : zlen rpn < OPTLINE_MAXLEN -> emit rpn c = Some (rpn ++ [c]).
Proof. intros H. unfold emit. by rewrite (proj2 (Z.ltb_lt _ _)). Qed.

Lemma push_some c stack : zlen stack < OPTLINE_MAXLEN -> push_op c stack = Some (c :: stack).
Proof. intros H. unfold push_op. by rewrite (proj2 (Z.ltb_lt _ _)). Qed.

Lemma zlen_snoc {A} (l : list A) x : zlen (l ++ [x]) = zlen l + 1.
Proof. unfold zlen. rewrite length_app. simpl. lia. Qed.

Lemma pop_higher_cost c rpn stack :
  cost rpn stack < OPTLINE_MAXLEN ->
  exists rpn' stack', pop_higher c rpn stack = Some (rpn', stack') /\
    cost rpn' stack' <= cost rpn stack.
Proof.
  unfold cost. revert rpn. induction stack as [|top stack IH]; intros rpn Hc; simpl.
  - do 2 eexists. split; [done|lia].
  - rewrite zlen_cons in Hc. pose proof (zlen_nonneg stack). destruct (_ && _).
    + rewrite emit_some by lia. simpl. destruct (IH (rpn ++ [top])) as (r & k & -> & Hr).
      * rewrite zlen_snoc. lia.
      * do 2 eexists. split; [done|]. rewrite zlen_snoc, zlen_cons in *. lia.
    + do 2 eexists. split; [done|lia].
Qed.

Lemma pop_to_paren_cost rpn stack :
  cost rpn stack < OPTLINE_MAXLEN ->
  exists rpn' stack', pop_to_paren rpn stack = Some (rpn', stack') /\
    cost rpn' stack' <= cost rpn stack.
Proof.
  unfold cost. revert rpn. induction stack as [|top stack IH]; intros rpn Hc; simpl.
  - do 2 eexists. split; [done|lia].
  - rewrite zlen_cons in Hc. pose proof (zlen_nonneg stack). destruct (negb _).
    + rewrite emit_some by lia. simpl. rewrite emit_some by (rewrite zlen_snoc; lia). simpl.
      destruct (IH ((rpn ++ [32]) ++ [top])) as (r & k & -> & Hr).
      * rewrite !zlen_snoc. lia.
      * do 2 eexists. split; [done|]. rewrite !zlen_snoc, zlen_cons in *. lia.
    + do 2 eexists. split; [done|lia].
Qed.

Lemma pop_all_cost rpn stack :
  cost rpn stack < OPTLINE_MAXLEN ->
  exists st rpn', pop_all rpn stack = Some (st, rpn') /\ zlen rpn' <= cost rpn stack.
Proof.
  unfold cost. revert rpn. induction stack as [|top stack IH]; intros rpn Hc; simpl.
  - rewrite emit_some by (unfold zlen in *; simpl in *; lia). simpl.
    do 2 eexists. split; [done|]. unfold zlen; simpl; lia.
  - rewrite zlen_cons in Hc. pose proof (zlen_nonneg stack).
    destruct (top =? 40); [do 2 eexists; split; [done|rewrite zlen_cons; lia]|].
    rewrite emit_some by lia. simpl. rewrite emit_some by (rewrite zlen_snoc; lia). simpl.
    destruct (IH ((rpn ++ [32]) ++ [top])) as (st & r & -> & Hr).
    + rewrite !zlen_snoc. lia.
    + do 2 eexists. split; [done|]. rewrite !zlen_snoc, zlen_cons in *. lia.
Qed.

(** Three bytes of output at most for each byte of input. *)
Lemma convert_bound s rpn stack :
  cost rpn stack + 3 * zlen s < OPTLINE_MAXLEN ->
  exists st rpn', convert_loop s rpn stack = Some (st, rpn') /\
    zlen rpn' <= cost rpn stack + 3 * zlen s.
Proof.
  revert rpn stack. induction s as [|c s IH]; intros rpn stack Hc; cbn [convert_loop].
  - destruct (pop_all_cost rpn stack) as (st & r & -> & Hr); unfold zlen in *; simpl in *; [lia|].
    do 2 eexists. split; [done|lia].
  - rewrite zlen_cons in Hc. pose proof (zlen_nonneg s). pose proof (zlen_nonneg rpn).
    pose proof (zlen_nonneg stack). unfold cost in Hc.
    assert (Hgo : forall r k, cost r k <= cost rpn stack + 3 ->
      exists st rpn', convert_loop s r k = Some (st, rpn') /\
        zlen rpn' <= cost rpn stack + 3 * zlen (c :: s)).
    { intros r k Hrk. destruct (IH r k) as (st & r' & E & Hr'); [unfold cost in *; lia|].
      exists st, r'. split; [done|]. rewrite zlen_cons. unfold cost in *. lia. }
    unfold cost in Hgo. destruct (isdigit c); [|destruct (is_op c); [|destruct (c =? 40);
      [|destruct (c =? 41); [|destruct (_ || _)]]]].
    + rewrite emit_some by lia. simpl. apply Hgo. rewrite zlen_snoc. lia.
    + rewrite emit_some by lia. simpl.
      destruct (pop_higher_cost c (rpn ++ [32]) stack) as (r & k & -> & Hr).
      { unfold cost. rewrite zlen_snoc. lia. }
      unfold cost in Hr. rewrite zlen_snoc in Hr. simpl. pose proof (zlen_nonneg r).
      rewrite push_some by lia. simpl. apply Hgo. rewrite zlen_cons. lia.
    + rewrite push_some by lia. simpl. apply Hgo. rewrite zlen_cons. lia.
    + destruct (pop_to_paren_cost rpn stack) as (r & k & -> & Hr); [unfold cost; lia|].
      unfold cost in Hr. simpl. destruct k as [|top k].
      * do 2 eexists. split; [done|]. unfold cost. rewrite zlen_cons.
        change (zlen (@nil Z)) with 0 in Hr. lia.
      * apply Hgo. rewrite zlen_cons in Hr. lia.
    + apply Hgo. lia.
    + do 2 eexists. split; [done|]. rewrite zlen_cons. unfold cost. lia.
Qed.

(** No more tokens than bytes. *)
Lemma tokens_count cur s :
  zlen (tokens_from cur s) <= zlen s + (match cur with [] => 0 | _ => 1 end).
Proof.
  revert cur. induction s as [|c s IH]; intros cur; cbn [tokens_from].
  - unfold zlen. destruct cur; simpl; lia.
  - rewrite zlen_cons. destruct (c =? 32).
    + destruct cur; [|rewrite zlen_cons]; specialize (IH []); simpl in IH; lia.
    + specialize (IH (cur ++ [c])). destruct cur; simpl in *; lia.
Qed.

Lemma eval_defined toks stack :
  zlen toks + zlen stack <= OPTLINE_MAXLEN -> is_Some (eval_tokens toks stack).
Proof.
  revert stack. induction toks as [|tok toks IH]; intros stack Hl; cbn [eval_tokens].
  - destruct stack as [|v [|w stack]]; by eexists.
  - rewrite zlen_cons in Hl. pose proof (zlen_nonneg toks). destruct (isdigit _).
    + rewrite (proj2 (Z.ltb_lt _ _)) by lia. apply IH. rewrite zlen_cons. lia.
    + destruct stack as [|v [|w stack]]; [by eexists..|].
      destruct (apply_op _ w v); [|by eexists]. apply IH. rewrite !zlen_cons in *. lia.
Qed.

End Bounds.

(** *** Expressions *)

Inductive expr := Num (n : Z) | Bin (op : Z) (a b : expr).

(** What an expression means: arithmetic that is refused when it leaves
    uintmax_t. *)
Definition arith (op x y : Z) : option Z :=
  if op =? 43 then if x + y <=? UINT64_MAX then Some (x + y) else None
  else if op =? 45 then if y <=? x then Some (x - y) else None
  else if op =? 42 then if x * y <=? UINT64_MAX then Some (x * y) else None
  else if y =? 0 then None else Some (x / y).

Fixpoint value (e : expr) : option Z :=
  match e with
  | Num n => Some n
  | Bin op a b => x ← value a; y ← value b; arith op x y
  end.

Section Expressions.
(** A decimal notation for the numbers. *)
Context (num : Z -> list byte).

(** The fully parenthesised notation, and the reverse Polish one. *)
Fixpoint show (e : expr) : list byte :=
  match e with
  | Num n => num n
  | Bin op a b => [40] ++ show a ++ [op] ++ show b ++ [41]
  end.

Fixpoint rpn_of (e : expr) : list byte :=
  match e with
  | Num n => num n
  | Bin op a b => rpn_of a ++ [32] ++ rpn_of b ++ [32] ++ [op]
  end.

Fixpoint postfix (e : expr) : list (list byte) :=
  match e with
  | Num n => [num n]
  | Bin op a b => postfix a ++ postfix b ++ [[op]]
  end.

(** The numbers are below 2^63 and written in digits that mean them; the
    operators are the four. *)
Fixpoint expr_ok (e : expr) : Prop :=
  match e with
  | Num n => 0 <= n <= INT64_MAX /\ num n ≠ [] /\ all_digits (num n) /\ dec 0 (num n) = n
  | Bin op a b => is_op op = true /\ expr_ok a /\ expr_ok b
  end.

Lemma op_cases op : is_op op = true -> op = 43 \/ op = 45 \/ op = 42 \/ op = 47.
Proof. unfold is_op. rewrite !orb_true_iff, !Z.eqb_eq. lia. Qed.

Lemma show_bin op a b : zlen (show (Bin op a b)) = zlen (show a) + zlen (show b) + 3.
Proof. unfold zlen. simpl. rewrite !length_app. simpl. rewrite length_app. simpl. lia. Qed.

Lemma rpn_length e : zlen (rpn_of e) = zlen (show e).
Proof.
  induction e as [|op a IHa b IHb]; simpl; [done|].
  rewrite !zlen_cons, !zlen_app, !zlen_cons, !zlen_app. unfold zlen in *. simpl. lia.
Qed.

Lemma convert_digits l s rpn stack :
  all_digits l -> zlen rpn + zlen l <= OPTLINE_MAXLEN ->
  convert_loop (l ++ s) rpn stack = convert_loop s (rpn ++ l) stack.
Proof.
  intros Hd. revert rpn. induction Hd as [|c l Hc Hd IH]; intros rpn Hl.
  - by rewrite app_nil_r.
  - rewrite zlen_cons in Hl. pose proof (zlen_nonneg l). cbn [app convert_loop].
    rewrite (isdigit_true c) by done. rewrite emit_some by lia. cbn [mbind option_bind].
    rewrite IH by (rewrite zlen_snoc; lia). by rewrite <- app_assoc.
Qed.

(** Converting a parenthesised expression appends its RPN and leaves the
    operator stack as it was. *)
Lemma convert_show e s rpn stack :
  expr_ok e -> cost rpn stack + 3 * zlen (show e) < OPTLINE_MAXLEN ->
  convert_loop (show e ++ s) rpn stack = convert_loop s (rpn ++ rpn_of e) stack.
Proof.
  revert s rpn stack. induction e as [n|op a IHa b IHb]; intros s rpn stack Hok Hc.
  - destruct Hok as (_ & _ & Hd & _). simpl in *. unfold cost in Hc.
    pose proof (zlen_nonneg stack). pose proof (zlen_nonneg (num n)).
    apply convert_digits; [done|lia].
  - destruct Hok as (Hop & Ha & Hb). pose proof (rpn_length a) as Hra.
    assert (Hne : isdigit op = false /\ (op =? 40) = false).
    { destruct (op_cases op Hop) as [->|[->|[->| ->]]]; done. }
    destruct Hne as [Hdg H40]. unfold cost in Hc. rewrite show_bin in Hc.
    pose proof (zlen_nonneg stack). pose proof (zlen_nonneg rpn). pose proof (zlen_nonneg (show a)).
    pose proof (zlen_nonneg (show b)).
    cbn [show app]. cbn [convert_loop]. change (isdigit 40) with false. change (is_op 40) with false.
    cbn [Z.eqb Pos.eqb]. rewrite push_some by lia. cbn [mbind option_bind].
    rewrite <- !app_assoc.
    rewrite (IHa _ _ (40 :: stack) Ha) by (unfold cost; rewrite zlen_cons; lia).
    cbn [app convert_loop]. rewrite Hdg, Hop.
    rewrite emit_some by (rewrite zlen_app; lia). cbn [mbind option_bind pop_higher].
    change (40 =? 40) with true. cbn [negb andb mbind option_bind].
    rewrite push_some by (rewrite zlen_cons; lia). cbn [mbind option_bind].
    rewrite <- !app_assoc.
    rewrite (IHb _ _ (op :: 40 :: stack) Hb)
      by (unfold cost; rewrite !zlen_cons, !zlen_app; change (zlen [32]) with 1; lia).
    pose proof (rpn_length b) as Hrb.
    cbn [app convert_loop]. change (isdigit 41) with false. change (is_op 41) with false.
    cbn [Z.eqb Pos.eqb pop_to_paren]. rewrite H40. cbn [negb].
    rewrite emit_some by (rewrite !zlen_app; change (zlen [32]) with 1; lia).
    cbn [mbind option_bind].
    rewrite emit_some by (rewrite !zlen_app; change (zlen [32]) with 1; lia).
    cbn [mbind option_bind negb]. cbn [rpn_of]. by rewrite <- !app_assoc.
Qed.

Lemma tokens_space cur l k :
  tokens_from cur (l ++ 32 :: k) = tokens_from cur l ++ tokens_from [] k.
Proof.
  revert cur. induction l as [|c l IH]; intros cur; simpl.
  - by destruct cur.
  - destruct (c =? 32); [destruct cur; simpl; by rewrite IH|apply IH].
Qed.

Lemma tokens_word cur l :
  Forall (fun c => c ≠ 32) l -> cur ++ l ≠ [] -> tokens_from cur l = [cur ++ l].
Proof.
  intros Hl. revert cur. induction Hl as [|c l Hc Hl IH]; intros cur Hne; simpl.
  - rewrite app_nil_r in *. by destruct cur.
  - rewrite (proj2 (Z.eqb_neq _ _)) by done. rewrite IH by (by destruct cur).
    by rewrite <- app_assoc.
Qed.

Lemma tokens_rpn e : expr_ok e -> strtok_all (rpn_of e) = postfix e.
Proof.
  unfold strtok_all. induction e as [n|op a IHa b IHb]; intros Hok; simpl.
  - destruct Hok as (_ & Hne & Hd & _). apply tokens_word; [|done].
    eapply Forall_impl; [exact Hd|]. simpl. lia.
  - destruct Hok as (Hop & Ha & Hb). rewrite tokens_space, IHa by done. f_equal.
    rewrite tokens_space, IHb by done. f_equal.
    apply (tokens_word []); [|done]. constructor; [|constructor].
    destruct (op_cases op Hop) as [->|[->|[->| ->]]]; done.
Qed.

Lemma leading_all l : all_digits l -> leading_digits l = l.
Proof. induction 1 as [|c l Hc _ IH]; simpl; [done|]. by rewrite (isdigit_true c), IH. Qed.

(** The overflow tests of the evaluator detect exactly the results that leave
    uintmax_t. *)
Lemma apply_arith op x y :
  is_op op = true -> 0 <= x <= UINT64_MAX -> 0 <= y <= UINT64_MAX ->
  apply_op op x y = arith op x y /\ (forall v, arith op x y = Some v -> 0 <= v <= UINT64_MAX).
Proof.
  unfold UINT64_MAX. intros Hop Hx Hy.
  destruct (op_cases op Hop) as [->|[->|[->| ->]]]; unfold apply_op, arith, UINT64_MAX; simpl.
  - destruct (Z.leb_spec (x + y) 18446744073709551615).
    + rewrite u64_small by lia. case_zcmp; [lia|]. split; [done|]. intros v [= <-]. lia.
    + replace (u64 (x + y)) with (x + y - 18446744073709551616) by (unfold u64; mlia).
      case_zcmp; [done|lia].
  - destruct (Z.leb_spec y x).
    + rewrite u64_small by lia. case_zcmp; [lia|]. split; [done|]. intros v [= <-]. lia.
    + replace (u64 (x - y)) with (x - y + 18446744073709551616) by (unfold u64; mlia).
      case_zcmp; [done|lia].
  - destruct (Z.leb_spec (x * y) 18446744073709551615).
    + rewrite u64_small by nia. destruct (Z.eqb_spec x 0) as [->|]; simpl.
      * split; [done|]. intros v [= <-]. lia.
      * rewrite Z.mul_comm, Z.div_mul, Z.eqb_refl by done. simpl. split; [done|].
        intros v [= <-]. nia.
    + destruct (Z.eqb_spec x 0) as [->|]; [lia|]. simpl.
      assert (u64 (x * y) < x * y) by (unfold u64; pose proof (Z.mod_pos_bound (x * y) 18446744073709551616); lia).
      assert (u64 (x * y) / x < y) by (apply Z.div_lt_upper_bound; lia).
      rewrite (proj2 (Z.eqb_neq _ _)) by lia. done.
  - destruct (Z.eqb_spec y 0); [done|]. split; [done|]. intros v [= <-].
    split; [apply Z.div_pos; lia|]. assert (x / y <= x) by (apply Z.div_le_upper_bound; nia). lia.
Qed.

Lemma value_range e v : expr_ok e -> value e = Some v -> 0 <= v <= UINT64_MAX.
Proof.
  revert v. induction e as [n|op a IHa b IHb]; intros v Hok; simpl.
  - intros [= <-]. destruct Hok as [Hn _]. unfold INT64_MAX, UINT64_MAX in *. lia.
  - destruct Hok as (Hop & Ha & Hb). destruct (value a) as [x|]; [|done].
    destruct (value b) as [y|]; [|done]. simpl. apply apply_arith; eauto.
Qed.

Lemma eval_postfix e k stack :
  expr_ok e -> zlen (postfix e) + zlen stack <= OPTLINE_MAXLEN ->
  eval_tokens (postfix e ++ k) stack =
    match value e with
    | Some v => eval_tokens k (v :: stack)
    | None => Some (CC_ERROR, 0)
    end.
Proof.
  revert k stack. induction e as [n|op a IHa b IHb]; intros k stack Hok Hl; simpl.
  - destruct Hok as (Hn & Hne & Hd & Hv). simpl in Hl. rewrite zlen_cons in Hl.
    change (zlen (@nil (list Z))) with 0 in Hl.
    assert (Hh : isdigit (default 0 (head (num n))) = true).
    { destruct (num n) as [|c l]; [done|]. apply Forall_cons in Hd as [Hc _]. by apply isdigit_true. }
    rewrite Hh, (proj2 (Z.ltb_lt _ _)) by lia. unfold atoll. rewrite leading_all, Hv by done.
    unfold INT64_MAX in *. by rewrite Z.min_l, u64_small by lia.
  - destruct Hok as (Hop & Ha & Hb). simpl in Hl. rewrite !zlen_app in Hl.
    change (zlen [[op]]) with 1 in Hl. pose proof (zlen_nonneg (postfix a)).
    pose proof (zlen_nonneg (postfix b)). rewrite <- !app_assoc.
    rewrite IHa by (done || lia). destruct (value a) as [x|] eqn:Ex; [|done]. simpl.
    rewrite IHb by (done || (rewrite zlen_cons; lia)).
    destruct (value b) as [y|] eqn:Ey; [|done]. simpl.
    assert (Hdg : isdigit op = false) by (destruct (op_cases op Hop) as [->|[->|[->| ->]]]; done).
    rewrite Hdg. destruct (apply_arith op x y Hop) as [-> _];
      [exact (value_range a x Ha Ex)|exact (value_range b y Hb Ey)|done].
Qed.

Lemma eval_show e :
  expr_ok e -> zlen (show e) <= OPTVAL_MAXLEN ->
  _option_eval_int_expr (show e) =
    Some (match value e with Some v => (CC_OK, v) | None => (CC_ERROR, 0) end).
Proof.
  unfold OPTVAL_MAXLEN. intros Hok Hl. unfold _option_eval_int_expr, _option_convert_rpn.
  rewrite <- (app_nil_r (show e)).
  rewrite convert_show by (done || (unfold cost, OPTLINE_MAXLEN, zlen in *; simpl; lia)).
  pose proof (rpn_length e) as Hr. cbn [convert_loop pop_all].
  rewrite emit_some by (unfold OPTLINE_MAXLEN in *; simpl; lia). simpl.
  unfold _option_eval_rpn. rewrite tokens_rpn by done.
  pose proof (tokens_count [] (rpn_of e)) as Hc. fold (strtok_all (rpn_of e)) in Hc.
  rewrite tokens_rpn in Hc by done. rewrite <- (app_nil_r (postfix e)).
  rewrite eval_postfix; [|done|].
  - by destruct (value e).
  - change (zlen (@nil Z)) with 0. unfold OPTLINE_MAXLEN. lia.
Qed.

End Expressions.

(** ** Correctness of the line parser *)

Section Lines.
Implicit Types (line name val : list byte).

Lemma char_at_app l k i : 0 <= i < zlen l -> char_at (l ++ k) i = char_at l i.
Proof. intros Hi. unfold char_at. rewrite lookup_app_l; [done|]. unfold zlen in Hi. lia. Qed.

Lemma char_at_shift l k i : 0 <= i -> char_at (l ++ k) (zlen l + i) = char_at k i.
Proof.
  intros Hi. unfold char_at, zlen. rewrite lookup_app_r by lia. do 2 f_equal. lia.
Qed.

Lemma char_at_forall (P : Z -> Prop) l i : Forall P l -> 0 <= i < zlen l -> P (char_at l i).
Proof.
  intros HP Hi. unfold char_at, zlen in *.
  destruct (lookup_lt_is_Some_2 l (Z.to_nat i)) as [c Hc]; [lia|].
  rewrite Hc. simpl. by eapply Forall_lookup_1.
Qed.

Lemma name_loop_spec fuel line p limit n :
  (forall i, p <= i < n -> char_at line i ≠ 58 /\ _allowed_in_name (char_at line i) = true) ->
  char_at line n = 58 -> p <= n -> n <= limit -> (Z.to_nat (n - p) < fuel)%nat ->
  name_loop fuel line p limit = Some n.
Proof.
  revert p. induction fuel as [|fuel IH]; intros p Hok Hn Hp Hl Hf; [lia|]. simpl.
  destruct (decide (p = n)) as [->|Hne].
  - by rewrite Hn.
  - destruct (Hok p) as [H58 Ha]; [lia|]. rewrite (proj2 (Z.eqb_neq _ _)) by done.
    rewrite (proj2 (Z.ltb_lt _ _)) by lia. simpl. rewrite Ha. apply IH; try done; try lia.
    intros i Hi. apply Hok. lia.
Qed.

Lemma skip_left_spec fuel line p q n :
  (forall i, p <= i < n -> isspace (char_at line i) = true) -> isspace (char_at line n) = false ->
  p <= n <= q -> (Z.to_nat (n - p) < fuel)%nat -> skip_left fuel line p q = n.
Proof.
  revert p. induction fuel as [|fuel IH]; intros p Hs Hn Hp Hf; [lia|]. simpl.
  destruct (decide (p = n)) as [->|Hne]; [by rewrite Hn|].
  rewrite (Hs p) by lia. rewrite (proj2 (Z.ltb_lt _ _)) by lia. simpl.
  apply IH; try done; try lia. intros i Hi. apply Hs. lia.
Qed.

Lemma skip_right_spec fuel line p q n :
  (forall i, n < i <= q -> isspace (char_at line i) = true) -> isspace (char_at line n) = false ->
  p <= n <= q -> (Z.to_nat (q - n) < fuel)%nat -> skip_right fuel line p q = n.
Proof.
  revert q. induction fuel as [|fuel IH]; intros q Hs Hn Hp Hf; [lia|]. simpl.
  destruct (decide (q = n)) as [->|Hne]; [by rewrite Hn|].
  rewrite (Hs q) by lia. rewrite (proj2 (Z.leb_le _ _)) by lia. simpl.
  apply IH; try done; try lia. intros i Hi. apply Hs. lia.
Qed.

Lemma allowed_facts c :
  _allowed_in_name c = true -> c ≠ 58 /\ isspace c = false /\ c ≠ 35.
Proof.
  unfold _allowed_in_name, isalnum, isdigit, isspace.
  rewrite !orb_true_iff, !andb_true_iff, !Z.leb_le, Z.eqb_eq. intros H.
  split; [lia|]. split; [|lia]. apply orb_false_iff. split.
  - apply andb_false_iff. rewrite !Z.leb_gt. lia.
  - apply Z.eqb_neq. lia.
Qed.

(** A value without blanks at its ends. *)
Definition trimmed val : Prop :=
  val ≠ [] /\ isspace (char_at val 0) = false /\ isspace (char_at val (zlen val - 1)) = false.

(** The characters of a line: its name, the colon, blanks, the value, blanks. *)
Lemma line_chars name w1 val w2 :
  Forall (fun c => _allowed_in_name c = true) name ->
  Forall (fun c => isspace c = true) w1 -> Forall (fun c => isspace c = true) w2 ->
  let line := name ++ [58] ++ w1 ++ val ++ w2 in
  let a := zlen name + 1 + zlen w1 in
  zlen line = a + zlen val + zlen w2 /\
  (forall i, 0 <= i < zlen name -> _allowed_in_name (char_at line i) = true) /\
  char_at line (zlen name) = 58 /\
  (forall i, zlen name + 1 <= i < a -> isspace (char_at line i) = true) /\
  (forall i, 0 <= i < zlen val -> char_at line (a + i) = char_at val i) /\
  (forall i, a + zlen val <= i < zlen line -> isspace (char_at line i) = true).
Proof.
  intros Hname Hw1 Hw2 line a. pose proof (zlen_nonneg name). pose proof (zlen_nonneg w1).
  pose proof (zlen_nonneg w2). pose proof (zlen_nonneg val).
  assert (Hz : zlen line = a + zlen val + zlen w2).
  { unfold line, a. rewrite !zlen_app. change (zlen [58]) with 1. lia. }
  assert (Ha : zlen (name ++ [58] ++ w1) = a) by (unfold a; rewrite !zlen_app; change (zlen [58]) with 1; lia).
  split; [done|]. split; [|split; [|split; [|split]]].
  - intros i Hi. unfold line. rewrite char_at_app by lia.
    apply (char_at_forall (fun c => _allowed_in_name c = true)); [done|lia].
  - unfold line. rewrite <- (Z.add_0_r (zlen name)), char_at_shift by lia. done.
  - intros i Hi. unfold line. rewrite app_assoc. replace i with (zlen (name ++ [58]) + (i - (zlen name + 1))).
    2:{ rewrite zlen_snoc. lia. }
    rewrite char_at_shift, char_at_app by lia. apply (char_at_forall (fun c => isspace c = true)); [done|lia].
  - intros i Hi. unfold line. replace (name ++ [58] ++ w1 ++ val ++ w2)
      with ((name ++ [58] ++ w1) ++ (val ++ w2)) by (by rewrite <- !app_assoc).
    rewrite <- Ha, char_at_shift, char_at_app by lia. done.
  - intros i Hi. unfold line. replace (name ++ [58] ++ w1 ++ val ++ w2)
      with ((name ++ [58] ++ w1) ++ (val ++ w2)) by (by rewrite <- !app_assoc).
    replace i with (a + (zlen val + (i - a - zlen val))) by lia. rewrite <- Ha, !char_at_shift by lia.
    apply (char_at_forall (fun c => isspace c = true)); [done|lia].
Qed.

Lemma line_slices name w1 val w2 :
  slice (name ++ [58] ++ w1 ++ val ++ w2) 0 (zlen name) = name /\
  slice (name ++ [58] ++ w1 ++ val ++ w2) (zlen name + 1 + zlen w1) (zlen val) = val.
Proof.
  unfold slice, zlen. split; [rewrite drop_0; apply take_app_length'; lia|].
  replace (name ++ [58] ++ w1 ++ val ++ w2) with ((name ++ [58] ++ w1) ++ val ++ w2) by (by rewrite <- !app_assoc).
  rewrite drop_app_length'; [apply take_app_length'; lia|]. rewrite !length_app. simpl. lia.
Qed.

Lemma parse_line name w1 val w2 :
  Forall (fun c => _allowed_in_name c = true) name -> zlen name <= OPTNAME_MAXLEN ->
  Forall (fun c => isspace c = true) w1 -> Forall (fun c => isspace c = true) w2 ->
  trimmed val -> zlen val <= OPTVAL_MAXLEN ->
  zlen (name ++ [58] ++ w1 ++ val ++ w2) <= OPTLINE_MAXLEN ->
  _option_parse (name ++ [58] ++ w1 ++ val ++ w2) = (CC_OK, name, val).
Proof.
  intros Hname Hnl Hw1 Hw2 (Hv & Hv0 & Hv1) Hvl Hll.
  destruct (line_chars name w1 val w2 Hname Hw1 Hw2) as (Hz & Hca & Hcn & Hcw1 & Hval & Hcw2).
  destruct (line_slices name w1 val w2) as [Hs1 Hs2].
  set (line := name ++ [58] ++ w1 ++ val ++ w2) in *.
  set (n := zlen name) in *. set (a := n + 1 + zlen w1) in *. set (b := a + zlen val - 1).
  pose proof (zlen_nonneg name). pose proof (zlen_nonneg w1). pose proof (zlen_nonneg w2).
  assert (Hvp : 0 < zlen val).
  { destruct val; [done|]. rewrite zlen_cons. pose proof (zlen_nonneg val). lia. }
  assert (Hlen : Z.of_nat (length line) = zlen line) by done.
  assert (Hfst : isspace (char_at line 0) = false /\ char_at line 0 ≠ 35).
  { destruct (Z.eq_dec n 0) as [E|E]; [rewrite <- E, Hcn; done|].
    by destruct (allowed_facts _ (Hca 0 ltac:(lia))) as (_ & ? & ?). }
  destruct Hfst as [H0s H0c]. unfold _option_parse. unfold OPTNAME_MAXLEN, OPTVAL_MAXLEN, OPTLINE_MAXLEN in *.
  rewrite H0s, (proj2 (Z.eqb_neq (char_at line 0) 35)) by done.
  rewrite (proj2 (Z.eqb_neq (zlen line) 0)) by lia. cbn [orb].
  rewrite (proj2 (Z.ltb_ge 1024 _)) by lia.
  rewrite (name_loop_spec _ line 0 _ n); [|..|done|lia|lia|lia].
  2:{ intros i Hi. split; [|apply Hca; lia]. by destruct (allowed_facts _ (Hca i ltac:(lia))) as (? & _). }
  rewrite (proj2 (Z.eqb_neq n (zlen line))) by lia. rewrite (proj2 (Z.ltb_ge 31 n)) by lia.
  assert (Ha : isspace (char_at line a) = false) by (rewrite <- (Z.add_0_r a), Hval by lia; done).
  assert (Hb : isspace (char_at line b) = false) by (unfold b; rewrite <- Z.add_sub_assoc, Hval by lia; done).
  rewrite (skip_left_spec _ line (n + 1) _ a) by (done || lia).
  rewrite (skip_right_spec _ line a _ b); [|intros i Hi; apply Hcw2; lia|done|lia|lia].
  rewrite (proj2 (Z.ltb_ge b a)) by lia.
  replace (b - a + 1) with (zlen val) by lia. rewrite (proj2 (Z.ltb_ge 255 _)) by lia.
  by rewrite Hs1, Hs2.
Qed.

(** Whatever is parsed fits its buffers. *)
Lemma parse_bounds line name val :
  _option_parse line = (CC_OK, name, val) ->
  zlen name <= OPTNAME_MAXLEN /\ zlen val <= OPTVAL_MAXLEN.
Proof.
  unfold _option_parse. generalize (S (length line)) as fuel. intros fuel. cbv zeta.
  destruct (_ || _); [done|]. destruct (_ <? _); [done|].
  destruct (name_loop _ _ _ _) as [p|]; [|done]. destruct (_ =? _); [done|].
  destruct (Z.ltb_spec OPTNAME_MAXLEN p); [done|].
  generalize (skip_left fuel line (p + 1) (zlen line - 1)) as p1. intros p1.
  generalize (skip_right fuel line p1 (zlen line - 1)) as q1. intros q1.
  destruct (_ <? _); [done|]. destruct (Z.ltb_spec OPTVAL_MAXLEN (q1 - p1 + 1)); [done|].
  intros [= <- <-]. unfold slice, zlen, OPTNAME_MAXLEN, OPTVAL_MAXLEN in *.
  rewrite !length_take. lia.
Qed.

End Lines.

(** ** Loading *)

(** The member of the union that matches the type, a uintmax_t in its range. *)
Definition typed (o : opt) : Prop :=
  match otype o, oval o with
  | OPTION_TYPE_BOOL, Vbool _ | OPTION_TYPE_FPN, Vfpn _ | OPTION_TYPE_STR, Vstr _ => True
  | OPTION_TYPE_UINT, Vuint n => 0 <= n <= UINT64_MAX
  | _, _ => False
  end.

Definition same_decl (o o' : opt) : Prop :=
  oname o' = oname o /\ otype o' = otype o /\ odefault o' = odefault o /\ odesc o' = odesc o.

Section Load.
Context (strtod : list byte -> spec_float * Z * bool).
Implicit Types (o : opt) (options : list opt).

Lemma eval_total s : zlen s <= OPTVAL_MAXLEN -> is_Some (_option_eval_int_expr s).
Proof.
  unfold OPTVAL_MAXLEN. intros Hl. unfold _option_eval_int_expr, _option_convert_rpn.
  destruct (convert_bound s [] []) as (st & rpn & -> & Hr);
    unfold cost, OPTLINE_MAXLEN, zlen in *; simpl in *; [lia|].
  destruct (negb _); [by eexists|]. apply eval_defined.
  pose proof (tokens_count [] rpn) as Hc. unfold strtok_all, zlen, OPTLINE_MAXLEN in *. simpl. lia.
Qed.

Lemma apply_op_range c x y v :
  0 <= x <= UINT64_MAX -> 0 <= y -> apply_op c x y = Some v -> 0 <= v <= UINT64_MAX.
Proof.
  unfold apply_op, UINT64_MAX. intros Hx Hy.
  pose proof (u64_range (x + y)). pose proof (u64_range (x - y)). pose proof (u64_range (x * y)).
  pose proof (Z.div_pos x y). pose proof (Z.div_le_upper_bound x y x).
  repeat case_match; intros [= <-]; rewrite ?Z.eqb_neq in *; nia.
Qed.

Lemma eval_range toks stack st v :
  Forall (fun n => 0 <= n <= UINT64_MAX) stack -> eval_tokens toks stack = Some (st, v) ->
  0 <= v <= UINT64_MAX.
Proof.
  revert stack. induction toks as [|tok toks IH]; intros stack Hs; cbn [eval_tokens].
  - destruct stack as [|x [|y stack]]; intros [= <- <-]; [done| |done]. by inversion Hs.
  - destruct (isdigit _); [case_match; [|done]|].
    + apply IH. constructor; [|done]. pose proof (u64_range (atoll tok)). unfold UINT64_MAX. lia.
    + destruct Hs as [|y stack Hy Hs]; [by intros [= <- <-]|].
      destruct Hs as [|x stack Hx Hs]; [by intros [= <- <-]|].
      destruct (apply_op _ x y) eqn:E; [|by intros [= <- <-]].
      apply IH. constructor; [|done]. by eapply apply_op_range; [|apply Hy|].
Qed.

Lemma eval_expr_range s st v : _option_eval_int_expr s = Some (st, v) -> 0 <= v <= UINT64_MAX.
Proof.
  unfold _option_eval_int_expr. destruct (_option_convert_rpn s) as [[ret rpn]|]; [|done]. simpl.
  destruct (negb _); [by intros [= <- <-]|]. by apply eval_range.
Qed.

(** option_set keeps the declaration, and the value typed. *)
Lemma set_spec erange mem o s :
  zlen s <= OPTVAL_MAXLEN ->
  exists st o', option_set strtod erange mem o s = Some (st, o') /\ same_decl o o' /\
    (typed o -> typed o').
Proof.
  intros Hl. unfold option_set. destruct (otype o) eqn:Et.
  - unfold _option_parse_bool. repeat case_decide; do 2 eexists; (split; [done|]);
      (split; [done|]); unfold typed; simpl; by rewrite ?Et.
  - unfold _option_parse_uint. destruct (eval_total s Hl) as [[ret v] E]. rewrite E. simpl.
    apply eval_expr_range in E. destruct (negb _); do 2 eexists; (split; [done|]); (split; [done|]); unfold typed; simpl;
      by rewrite ?Et.
  - unfold _option_parse_fpn. destruct (strtod s) as [[v loc] range].
    destruct (_ || _); [|destruct (_ <? _)]; do 2 eexists; (split; [done|]); (split; [done|]);
      unfold typed; simpl; by rewrite ?Et.
  - unfold _option_parse_str. destruct mem; do 2 eexists; (split; [done|]); (split; [done|]);
      unfold typed; simpl; by rewrite ?Et.
  - do 2 eexists. split; [done|]. done.
Qed.

(** What loading may do to one option. *)
Definition kept (named : list byte -> Prop) o o' : Prop :=
  same_decl o o' /\ (typed o -> typed o') /\ (~ named (oname o) -> o' = o).

Lemma kept_refl P options : Forall2 (kept P) options options.
Proof. induction options; constructor; [|done]. done. Qed.

Lemma kept_trans P o1 o2 o3 : kept P o1 o2 -> kept P o2 o3 -> kept P o1 o3.
Proof.
  intros ((H1 & H2 & H3 & H4) & H5 & H6) ((K1 & K2 & K3 & K4) & K5 & K6).
  split; [|split].
  - split_and!; congruence.
  - auto.
  - intros Hn. rewrite K6; [by apply H6|]. by rewrite H1.
Qed.

Lemma kept_mono (P Q : list byte -> Prop) o o' :
  (forall n, P n -> Q n) -> kept P o o' -> kept Q o o'.
Proof. intros HPQ (H1 & H2 & H3). split_and!; [done..|]. intros Hn. apply H3. auto. Qed.

Lemma exists_names P options options' n :
  Forall2 (kept P) options options' -> Exists (fun o => oname o = n) options' ->
  Exists (fun o => oname o = n) options.
Proof.
  induction 1 as [|o o' l l' [(Hn & _) _] _ IH]; [done|].
  rewrite !Exists_cons. intros [Ho|Hl]; [left; congruence|right; auto].
Qed.

Lemma set_named_spec erange mem options name val :
  zlen val <= OPTVAL_MAXLEN ->
  exists r, set_named strtod erange mem options name val = Some r /\
    match r with
    | None => Forall (fun o => oname o ≠ name) options
    | Some (st, options') => Forall2 (kept (eq name)) options options' /\
        Exists (fun o => oname o = name) options
    end.
Proof.
  intros Hl. induction options as [|o options IH]; simpl.
  - eexists. split; [done|]. constructor.
  - case_decide as Hd.
    + destruct (set_spec erange mem o val Hl) as (st & o' & -> & Hs & Ht). simpl.
      eexists. split; [done|]. split; [|by constructor].
      constructor; [|apply kept_refl]. split_and!; [done..|]. intros Hn. by destruct Hn.
    + destruct IH as (r & -> & Hr). simpl. destruct r as [[st options']|]; simpl.
      * eexists. split; [done|]. destruct Hr as [Hr Hex].
        split; [|by apply Exists_cons; right]. constructor; [|done]. split_and!; done.
      * eexists. split; [done|]. constructor; [done|]. done.
Qed.

(** The names the lines of a file assign to. *)
Definition assigned (lines : list (list byte)) (name : list byte) : Prop :=
  exists line val, line ∈ lines /\ _option_parse line = (CC_OK, name, val).

Lemma load_file_spec erange mem ferror lines options :
  exists st options', option_load_file strtod erange mem ferror lines options = Some (st, options') /\
    Forall2 (kept (assigned lines)) options options' /\
    (st = CC_OK -> ferror = false /\ forall line, line ∈ lines ->
       (exists n v, _option_parse line = (CC_EEMPTY, n, v)) \/
       exists name val, _option_parse line = (CC_OK, name, val) /\ Exists (fun o => oname o = name) options).
Proof.
  revert options. induction lines as [|line lines IH]; intros options; cbn [option_load_file].
  - do 2 eexists. split; [done|]. split; [apply kept_refl|].
    destruct ferror; [done|]. intros _. split; [done|]. intros line Hl. by apply elem_of_nil in Hl.
  - assert (Hmono : forall n, assigned lines n -> assigned (line :: lines) n).
    { intros n (l & v & Hl & E). exists l, v. split; [by right|done]. }
    destruct (_option_parse line) as [[st name] val] eqn:E.
    destruct (Z.eqb_spec st CC_EEMPTY) as [->|Hne].
    + destruct (IH options) as (st & o' & -> & Hk & Hok). do 2 eexists. split; [done|]. split.
      * eapply Forall2_impl; [exact Hk|]. intros ? ?. by apply kept_mono.
      * intros Hst. destruct (Hok Hst) as [Hf Hall]. split; [done|].
        intros l [->|Hl]%elem_of_cons; [left; by eexists _, _|by apply Hall].
    + destruct (Z.eqb_spec st CC_OK) as [->|]; simpl;
        [|do 2 eexists; split; [done|]; split; [apply kept_refl|done]].
      destruct (parse_bounds _ _ _ E) as [_ Hvl].
      destruct (set_named_spec erange mem options name val Hvl) as (r & -> & Hr). simpl.
      destruct r as [[st options1]|].
      2:{ do 2 eexists. split; [done|]. split; [apply kept_refl|done]. }
      assert (Hk1 : Forall2 (kept (assigned (line :: lines))) options options1).
      { eapply Forall2_impl; [exact (proj1 Hr)|]. intros ? ?. apply kept_mono.
        intros n <-. exists line, val. split; [by left|done]. }
      destruct (Z.eqb_spec st CC_OK) as [->|]; simpl; [|do 2 eexists; by split].
      destruct (IH options1) as (st & o' & -> & Hk & Hok). do 2 eexists. split; [done|]. split.
      * eapply Forall2_trans; [apply kept_trans|exact Hk1|].
        eapply Forall2_impl; [exact Hk|]. intros ? ?. by apply kept_mono.
      * intros Hst. destruct (Hok Hst) as [Hf Hall]. split; [done|].
        intros l [->|Hl]%elem_of_cons.
        -- right. exists name, val. split; [done|apply Hr].
        -- destruct (Hall l Hl) as [Hl'|(n' & v' & El & Hex)]; [by left|right].
           exists n', v'. split; [done|]. by eapply exists_names.
Qed.

End Load.

(** ** Properties *)

(** C32: evaluating a fully parenthesised integer expression over numbers
    below 2^63 (in any decimal notation [num]) gives its value, and fails exactly
    when some intermediate result is negative, exceeds UINT64_MAX or divides by
    zero.  Every expression that fits an option value is covered. *)
Theorem option_expr_correct (num : Z -> list byte) (e : expr) :
  expr_ok num e -> zlen (show num e) <= OPTVAL_MAXLEN ->
  _option_eval_int_expr (show num e) =
    Some (match value e with Some v => (CC_OK, v) | None => (CC_ERROR, 0) end).
Proof. apply eval_show. Qed.

(** (7-2)*(8/4) = 10, with one-digit numbers. *)
Lemma option_expr_correct_witness :
  _option_eval_int_expr [40; 40; 55; 45; 50; 41; 42; 40; 56; 47; 52; 41; 41] = Some (CC_OK, 10).
Proof.
  apply (option_expr_correct (fun n => [48 + n])
    (Bin 42 (Bin 45 (Num 7) (Num 2)) (Bin 47 (Num 8) (Num 4)))).
  - vm_compute. repeat split; try congruence; repeat constructor; congruence.
  - vm_compute. congruence.
Defined.

(** For every option value, well formed or not, the conversion and
    the evaluation stay inside their fixed arrays and end. *)
Theorem option_expr_safe (s : list byte) :
  zlen s <= OPTVAL_MAXLEN ->
  exists st rpn, _option_convert_rpn s = Some (st, rpn) /\ zlen rpn <= 3 * zlen s /\
    is_Some (_option_eval_int_expr s).
Proof.
  intros Hl. destruct (convert_bound s [] []) as (st & rpn & E & Hr);
    [unfold cost, OPTLINE_MAXLEN, OPTVAL_MAXLEN, zlen in *; simpl; lia|].
  exists st, rpn. split; [done|]. split; [exact Hr|by apply eval_total].
Qed.

Lemma option_expr_safe_witness : is_Some (_option_eval_int_expr (replicate 255 42)).
Proof.
  destruct (option_expr_safe (replicate 255 42)) as (st & rpn & _ & _ & H);
    [vm_compute; congruence|exact H].
Defined.

(** Without parentheses the conversion departs from arithmetic.
    Operators of equal precedence group to the right, so 10-3-2 is 9; and an
    operator popped by one of lower precedence is not followed by a space, so
    2*3+4 becomes "2 3 *4 +", in which 4 is lost, and is refused. *)
Theorem option_expr_precedence :
  _option_eval_int_expr [49; 48; 45; 51; 45; 50] = Some (CC_OK, 9) /\
  _option_convert_rpn [50; 42; 51; 43; 52] = Some (CC_OK, [50; 32; 51; 32; 42; 52; 32; 43]) /\
  _option_eval_int_expr [50; 42; 51; 43; 52] = Some (CC_ERROR, 0).
Proof. split_and!; vm_compute; reflexivity. Qed.

(** C33: a line of at most 1024 bytes (OPTLINE_MAXLEN) that consists of a name of
    allowed characters, at most 31 of them (OPTNAME_MAXLEN), a colon, blanks, a value of
    at most 255 bytes (OPTVAL_MAXLEN) that is not empty and has no blanks at its ends, and
    blanks (such as the newline), is parsed into the name and the value. *)
Theorem option_parse_roundtrip (name w1 val w2 : list byte) :
  Forall (fun c => _allowed_in_name c = true) name -> zlen name <= OPTNAME_MAXLEN ->
  Forall (fun c => isspace c = true) w1 -> Forall (fun c => isspace c = true) w2 ->
  trimmed val -> zlen val <= OPTVAL_MAXLEN ->
  zlen (name ++ [58] ++ w1 ++ val ++ w2) <= OPTLINE_MAXLEN ->
  _option_parse (name ++ [58] ++ w1 ++ val ++ w2) = (CC_OK, name, val).
Proof. apply parse_line. Qed.

(** "ab: x y\n" *)
Lemma option_parse_roundtrip_witness :
  _option_parse [97; 98; 58; 32; 120; 32; 121; 10] = (CC_OK, [97; 98], [120; 32; 121]).
Proof.
  apply (option_parse_roundtrip [97; 98] [32] [120; 32; 121] [10]).
  - repeat constructor.
  - vm_compute. congruence.
  - repeat constructor.
  - repeat constructor.
  - split; [discriminate|]. split; reflexivity.
  - vm_compute. congruence.
  - vm_compute. congruence.
Defined.

(** Loading a file, whatever its lines, ends with a status and never
    changes an option's name, type, default or description; the values stay of
    the declared type, and an option that no line assigns to is untouched.  The
    status is CC_OK only if the file had no error and every line is empty or a
    comment, or assigns to a declared option. *)
Theorem option_load_file_safe (strtod : list byte -> spec_float * Z * bool)
    (erange mem ferror : bool) (lines : list (list byte)) (options : list opt) :
  exists st options',
    option_load_file strtod erange mem ferror lines options = Some (st, options') /\
    Forall2 (kept (assigned lines)) options options' /\
    (st = CC_OK -> ferror = false /\ forall line, line ∈ lines ->
       (exists n v, _option_parse line = (CC_EEMPTY, n, v)) \/
       exists name val, _option_parse line = (CC_OK, name, val) /\
         Exists (fun o => oname o = name) options).
Proof. apply load_file_spec. Qed.
