(* ===== verification/Histogram.v ===== *)
(** * Histograms (include/cc_histogram.h, src/stats/cc_histogram.c)

    The histogram groups values into buckets whose width doubles from group to
    group.  The code is written for x86 (x86intrin.h): a shift of an int by a
    count outside 0..31, which bucket_low and bucket_high evaluate for the first
    group when m is 0 and then multiply by zero, takes the count modulo 32 as the
    instruction does.  Doubles are IEEE binary64 ([spec_float]). *)

From Stdlib Require Import SpecFloat.
From S2P Require Import Prelude Double Mm Metric.
Local Open Scope Z_scope.

Inductive histo_rstatus_e :=
| HISTO_OK | HISTO_EOVERFLOW | HISTO_EUNDERFLOW | HISTO_EEMPTY | HISTO_EORDER.

Record histo_u32 := Histo {
  h_m : Z; h_r : Z; h_n : Z;
  h_M : Z; h_R : Z; h_N : Z; h_G : Z;
  nbucket : Z;
  nrecord : Z;
  buckets : list Z;
}.

(** 1 << k in int. *)
Definition shl1 (k : Z) : Z := i32 (2 ^ (k mod 32)).

(** [mem]: whether malloc returned the struct and the buckets. *)
Definition histo_u32_create (m r n : Z) (mem1 mem2 : bool) : option histo_u32 :=
  if (r <=? m) || (n <? r) || (64 <? n) then None else
  if negb mem1 then None else
  let G := u64 (shl1 (u32 (r - m - 1))) in
  let nb := u64 (u32 (n - r + 2) * G) in
  if negb mem2 || (u64 (nb * 4) =? 0) then None else
  Some (Histo m r n (u64 (shl1 m)) (u64 (i32 (shl1 r - 1))) (u64 (i32 (shl1 n - 1))) G nb
          0 (replicate (Z.to_nat nb) 0)).

Definition histo_u32_destroy (h : option histo_u32) : option histo_u32 := None.

Definition histo_u32_reset (h : histo_u32) : histo_u32 :=
  Histo (h_m h) (h_r h) (h_n h) (h_M h) (h_R h) (h_N h) (h_G h) (nbucket h)
    0 (replicate (Z.to_nat (nbucket h)) 0).

Definition b2z (b : bool) : Z := if b then 1 else 0.

Definition bucket_low (h : histo_u32) (bucket : Z) : Z :=
  let g := Z.shiftr bucket (u32 (h_r h - h_m h - 1)) in
  let b := u64 (bucket - g * h_G h) in
  u64 (b2z (g =? 0) * u64 (shl1 (h_m h) * b) +
       b2z (0 <? g) * u64 (shl1 (u64 (h_r h + g - 2)) + shl1 (u64 (h_m h + g - 1)) * b)).

Definition bucket_high (h : histo_u32) (bucket : Z) : Z :=
  let g := Z.shiftr bucket (u32 (h_r h - h_m h - 1)) in
  let b := u64 (bucket - g * h_G h + 1) in
  u64 (b2z (g =? 0) * u64 (shl1 (h_m h) * b - 1) +
       b2z (0 <? g) * u64 (shl1 (u64 (h_r h + g - 2)) + shl1 (u64 (h_m h + g - 1)) * b - 1)).

(** 63 - __builtin_clzll(v), for v > 0. *)
Definition _bucket_offset (value m r G : Z) : Z :=
  let v := b2z (value =? 0) + value in
  let h := Z.log2 v in
  if h <? r then Z.shiftr value m
  else
    let d := u32 (u32 (h - r) + 1) in
    u64 (u64 (u32 (d + 1) * G) + Z.shiftr (u64 (value - shl1 h)) (u32 (m + d))).

(** [None]: a store outside the buckets. *)
Definition histo_u32_record (h : histo_u32) (value count : Z) : option (histo_rstatus_e * histo_u32) :=
  if h_N h <? value then Some (HISTO_EOVERFLOW, h) else
  let offset := _bucket_offset value (h_m h) (h_r h) (h_G h) in
  c ← buckets h !! Z.to_nat offset;
  Some (HISTO_OK,
    Histo (h_m h) (h_r h) (h_n h) (h_M h) (h_R h) (h_N h) (h_G h) (nbucket h)
      (u64 (nrecord h + count)) (<[Z.to_nat offset := u32 (c + count)]> (buckets h))).

(** ** Percentiles *)

Definition _greater_dbl (a b : spec_float) : bool := dge (dsub a b) DBL_EPSILON.
Definition _lesser_dbl (a b : spec_float) : bool := dge (dsub b a) DBL_EPSILON.
Definition _equal_dbl (a b : spec_float) : bool := dlt (SFabs (dsub b a)) DBL_EPSILON.

(** (uint64_t)ceil(x); [None] where the conversion is undefined. *)
Definition ceil_u64 (x : spec_float) : option Z :=
  match x with
  | S754_zero _ => Some 0
  | S754_finite s m e =>
      let z := if s then - Zpos m else Zpos m in
      let c := if 0 <=? e then z * 2 ^ e else - ((- z) / 2 ^ (- e)) in
      if (0 <=? c) && (c <=? UINT64_MAX) then Some c else None
  | _ => None
  end.

Definition _threshold (nrecord : Z) (percentile : spec_float) : option Z :=
  ceil_u64 (ddiv (dmul percentile (dbl nrecord)) (dbl 100)).

(** The while loop to the first non-empty bucket, over the rest of the
    buckets. *)
Fixpoint first_nonempty (offset : Z) (bs : list Z) : Z * list Z :=
  match bs with
  | b :: bs' => if b =? 0 then first_nonempty (offset + 1) bs' else (offset, bs)
  | [] => (offset, [])
  end.

(** The for loop until the threshold is met: *value. *)
Fixpoint scan (value offset rcount rthreshold : Z) (bs : list Z) : Z :=
  match bs with
  | b :: bs =>
      if rcount <? rthreshold then scan offset (offset + 1) (u64 (rcount + b)) rthreshold bs
      else value
  | [] => value
  end.

Definition report_at (h : histo_u32) (rthreshold : Z) : Z :=
  let '(offset, rest) := first_nonempty 0 (buckets h) in
  scan offset offset 0 rthreshold rest.

Definition histo_u32_report (h : histo_u32) (p : spec_float)
  : option (histo_rstatus_e * option Z) :=
  if _greater_dbl p (dbl 100) then Some (HISTO_EOVERFLOW, None) else
  if _lesser_dbl p (dbl 0) then Some (HISTO_EUNDERFLOW, None) else
  if nrecord h =? 0 then Some (HISTO_EEMPTY, None) else
  t ← _threshold (nrecord h) p;
  Some (HISTO_OK, Some (report_at h t)).

Record percentile_profile := Profile {
  pp_cap : Z;
  pp_count : Z;
  pp_percentile : list spec_float;
  pp_result : list Z;
  pp_min : Z;
  pp_max : Z;
}.

(** The inner while loop: curr, offset, rcount and the rest of the buckets. *)
Fixpoint multi_scan (curr offset rcount rthreshold : Z) (bs : list Z) : Z * Z * Z * list Z :=
  match bs with
  | b :: bs' =>
      if rcount <? rthreshold then
        if 0 <? b then multi_scan (curr + 1) curr (u64 (rcount + b)) rthreshold bs'
        else multi_scan (curr + 1) offset rcount rthreshold bs'
      else (curr, offset, rcount, bs)
  | [] => (curr, offset, rcount, [])
  end.

(** A store through a pointer into a block; [None] outside the block. *)
Definition store {A} (i : nat) (x : A) (block : list A) : option (list A) :=
  if decide (i < length block)%nat then Some (<[i := x]> block) else None.

(** The do loop, with v and p at index [i] and the given count left (not 0): the
    results, i, count and rthreshold after it.  [None]: an access outside the blocks, or
    an undefined conversion. *)
Fixpoint multi_fill (nrec offset rcount : Z) (ps : list spec_float) (i count : nat) (rs : list Z)
  : option (list Z * nat * nat * Z) :=
  match count with
  | O => None
  | S count =>
      rs ← store i offset rs;
      match count with
      | O => Some (rs, i, O, 0)
      | S _ =>
          p ← ps !! S i;
          t ← _threshold nrec p;
          if t <=? rcount then multi_fill nrec offset rcount ps (S i) count rs
          else Some (rs, S i, count, t)
      end
  end.

(** The outer while loop, while there are buckets and percentiles. *)
Fixpoint multi_loop (fuel : nat) (nrec curr offset rcount rthreshold : Z) (bs : list Z)
    (ps : list spec_float) (i count : nat) (rs : list Z) : option (Z * Z * list Z * list Z) :=
  match bs, count with
  | [], _ | _, O => Some (curr, offset, bs, rs)
  | _, _ =>
      match fuel with
      | O => None
      | S fuel =>
          let '(curr, offset, rcount, bs) := multi_scan curr offset rcount rthreshold bs in
          '(rs, i, count, t) ← multi_fill nrec offset rcount ps i count rs;
          multi_loop fuel nrec curr offset rcount t bs ps i count rs
      end
  end.

(** The final loop that looks for the maximum, as written. *)
Fixpoint max_scan (max offset : Z) (bs : list Z) : Z :=
  match bs with
  | b :: bs =>
      let empty := b2z (b =? 0) in
      max_scan (u64 (max * empty + offset * (1 - empty))) offset bs
  | [] => max
  end.

Definition histo_u32_report_multi (fuel : nat) (pp : percentile_profile) (h : histo_u32)
  : option (histo_rstatus_e * percentile_profile) :=
  if nrecord h =? 0 then Some (HISTO_EEMPTY, pp) else
  let '(curr, rest) := first_nonempty 0 (buckets h) in
  p ← head (pp_percentile pp);
  t ← _threshold (nrecord h) p;
  '(_, offset, rest, rs) ← multi_loop fuel (nrecord h) curr curr 0 t rest (pp_percentile pp) O
                              (Z.to_nat (pp_count pp)) (pp_result pp);
  Some (HISTO_OK,
    Profile (pp_cap pp) (pp_count pp) (pp_percentile pp) rs curr (max_scan offset offset rest)).

(** [ps], [rs]: what the two blocks of cap entries hold, when cc_alloc returns them; an
    answer of another size counts as NULL. *)
Definition percentile_profile_create (cap : Z) (mem1 mem2 mem3 : bool)
    (ps : list spec_float) (rs : list Z) (mn mx : Z) : option percentile_profile :=
  if negb mem1 then None else
  if negb mem2 || (cap =? 0) || negb (zlen ps =? cap) then None else
  if negb mem3 || negb (zlen rs =? cap) then None else
  Some (Profile cap 0 ps rs mn mx).

Definition percentile_profile_destroy (p : option percentile_profile) : option percentile_profile :=
  None.

(** The loop of percentile_profile_set, src and dst at index [i] with [count]
    percentiles left: the status and the block percentile of the profile.  [None]: a read
    past the end of the source or a store past the end of the block. *)
Fixpoint set_loop (src : list spec_float) (i count : nat) (last : spec_float) (dst : list spec_float)
  : option (histo_rstatus_e * list spec_float) :=
  match count with
  | O => Some (HISTO_OK, dst)
  | S count =>
      p ← src !! i;
      if _greater_dbl p (dbl 100) then Some (HISTO_EOVERFLOW, dst) else
      if _lesser_dbl p (dbl 0) then Some (HISTO_EUNDERFLOW, dst) else
      if _lesser_dbl p last || _equal_dbl p last then Some (HISTO_EORDER, dst) else
      dst ← store i p dst;
      set_loop src (S i) count p dst
  end.

Definition percentile_profile_set (pp : percentile_profile) (percentile : list spec_float)
    (count : Z) : option (histo_rstatus_e * percentile_profile) :=
  '(st, dst) ← set_loop percentile O (Z.to_nat count) (dbl (-1)) (pp_percentile pp);
  Some (st, Profile (pp_cap pp) count dst (pp_result pp) (pp_min pp) (pp_max pp)).

(** ** Buckets partition the values *)

Record histo_wf (h : histo_u32) : Prop := {
  hw_m : 0 <= h_m h;
  hw_r : h_m h < h_r h;
  hw_n : h_r h <= h_n h <= 30;
  hw_N : h_N h = 2 ^ h_n h - 1;
  hw_G : h_G h = 2 ^ (h_r h - h_m h - 1);
  hw_nb : nbucket h = (h_n h - h_r h + 2) * h_G h;
  hw_len : zlen (buckets h) = nbucket h;
}.

Section Buckets.
Implicit Types (h : histo_u32).

Lemma pow2_pos k : 0 <= k -> 0 < 2 ^ k.
Proof. apply Z.pow_pos_nonneg. lia. Qed.

Lemma pow2_30 k : 0 <= k <= 30 -> 1 <= 2 ^ k <= 1073741824.
Proof.
  intros Hk. pose proof (pow2_pos k). assert (2 ^ k <= 2 ^ 30) by (apply Z.pow_le_mono_r; lia).
  change (2 ^ 30) with 1073741824 in *. lia.
Qed.

Lemma shl1_small k : 0 <= k <= 30 -> shl1 k = 2 ^ k.
Proof.
  intros Hk. unfold shl1. rewrite Z.mod_small by lia. pose proof (pow2_30 k Hk).
  apply i32_small. lia.
Qed.

(** The first value of bucket [b] of group [g], and the width of the group's
    buckets. *)
Definition width (m g : Z) : Z := if g =? 0 then 2 ^ m else 2 ^ (m + g - 1).
Definition low_of (m G g b : Z) : Z := width m g * ((if g =? 0 then 0 else G) + b).

(** A bucket number as group and position. *)
Record at_bucket h (g b : Z) : Prop := {
  ab_g : 0 <= g <= h_n h - h_r h + 1;
  ab_b : 0 <= b < h_G h;
}.

Lemma group_pow h g b :
  histo_wf h -> at_bucket h g b -> 0 < g ->
  2 ^ (h_r h + g - 2) = 2 ^ (h_m h + g - 1) * h_G h /\ 2 ^ (h_r h + g - 1) <= 1073741824.
Proof.
  intros [? ? ? _ -> _ _] [? _] Hg. rewrite <- Z.pow_add_r by lia. split; [f_equal; lia|].
  apply pow2_30. lia.
Qed.

Lemma split_bucket h g b :
  histo_wf h -> at_bucket h g b ->
  Z.shiftr (g * h_G h + b) (u32 (h_r h - h_m h - 1)) = g /\ g * h_G h + b - g * h_G h = b.
Proof.
  intros [? ? ? _ HG _ _] [? Hb]. rewrite u32_small, Z.shiftr_div_pow2, <- HG by lia.
  split; [|lia]. rewrite Z.add_comm, Z.div_add by lia. rewrite Z.div_small by lia. lia.
Qed.

(** The two accessors, with the machine arithmetic discharged. *)
Lemma bucket_bounds h g b :
  histo_wf h -> at_bucket h g b ->
  bucket_low h (g * h_G h + b) = low_of (h_m h) (h_G h) g b /\
  bucket_high h (g * h_G h + b) = low_of (h_m h) (h_G h) g (b + 1) - 1.
Proof.
  intros Hwf Hab. unfold bucket_low, bucket_high.
  destruct (split_bucket h g b Hwf Hab) as [-> ->].
  pose proof (group_pow h g b Hwf Hab) as Hgp.
  pose proof Hwf as [Hm Hr Hn _ HG _ _]. pose proof Hab as [Hg Hb].
  pose proof (pow2_30 (h_r h - h_m h - 1) ltac:(lia)) as HG30. rewrite <- HG in HG30.
  rewrite (u64_small b), (u64_small (b + 1)) by lia. unfold low_of, width, b2z.
  destruct (Z.eqb_spec g 0) as [->|Hne].
  - rewrite shl1_small by lia. pose proof (pow2_30 (h_m h) ltac:(lia)).
    simpl. rewrite !Z.mul_0_l, !Z.mul_1_l, !Z.add_0_r, !Z.add_0_l.
    rewrite !(u64_small (u64 _)) by apply u64_range.
    split; rewrite u64_small; nia.
  - destruct (Z.ltb_spec 0 g); [|lia]. destruct Hgp as [Hp Hmax]; [lia|].
    rewrite (u64_small (h_r h + g - 2)), (u64_small (h_m h + g - 1)) by lia.
    rewrite !shl1_small by lia. rewrite Hp.
    assert (Hd : 2 ^ (h_r h + g - 1) = 2 * (2 ^ (h_m h + g - 1) * h_G h)).
    { rewrite <- Hp, <- Z.pow_succ_r by lia. f_equal. lia. }
    pose proof (pow2_pos (h_m h + g - 1) ltac:(lia)).
    set (w := 2 ^ (h_m h + g - 1)) in *. rewrite !Z.mul_0_l, !Z.mul_1_l, !Z.add_0_l.
    rewrite !(u64_small (u64 _)) by apply u64_range.
    assert (w * h_G h + w * (b + 1) <= 2 * (w * h_G h)) by nia.
    split; rewrite u64_small; nia.
Qed.

Lemma log2_between v k : 0 <= k -> 2 ^ k <= v < 2 ^ (k + 1) -> Z.log2 v = k.
Proof. intros Hk Hv. apply Z.log2_unique; [done|]. by rewrite <- Z.add_1_r. Qed.

(** The bucket a value of the group falls in. *)
Lemma offset_at h g b v :
  histo_wf h -> at_bucket h g b ->
  low_of (h_m h) (h_G h) g b <= v < low_of (h_m h) (h_G h) g (b + 1) ->
  _bucket_offset v (h_m h) (h_r h) (h_G h) = g * h_G h + b.
Proof.
  intros Hwf Hab Hv. pose proof (group_pow h g b Hwf Hab) as Hgp.
  pose proof Hwf as [Hm Hr Hn _ HG _ _]. pose proof Hab as [Hg Hb].
  assert (Hr2 : 2 ^ h_r h = 2 * (2 ^ h_m h * h_G h)).
  { rewrite HG, <- Z.pow_add_r, <- Z.pow_succ_r by lia. f_equal. lia. }
  pose proof (pow2_pos (h_m h) Hm) as Hmp. unfold _bucket_offset, low_of, width in *.
  destruct (decide (g <= 1)) as [Hg1|Hg1].
  - assert (Hlin : 2 ^ h_m h * (g * h_G h + b) <= v < 2 ^ h_m h * (g * h_G h + b + 1)).
    { destruct (Z.eqb_spec g 0) as [->|]; [lia|]. assert (g = 1) as -> by lia.
      replace (h_m h + 1 - 1) with (h_m h) in Hv by lia. lia. }
    assert (Hlog : Z.log2 (b2z (v =? 0) + v) < h_r h).
    { apply Z.log2_lt_pow2; [unfold b2z; case_zcmp; nia|]. unfold b2z; case_zcmp; nia. }
    rewrite (proj2 (Z.ltb_lt _ _)) by done. rewrite Z.shiftr_div_pow2 by lia.
    symmetry. apply (Z.div_unique _ _ _ (v - 2 ^ h_m h * (g * h_G h + b))); lia.
  - destruct (Z.eqb_spec g 0); [lia|]. destruct Hgp as [Hp Hmax]; [lia|].
    pose proof (pow2_pos (h_m h + g - 1) ltac:(lia)) as Hwp.
    set (w := 2 ^ (h_m h + g - 1)) in *.
    assert (Hd : 2 ^ (h_r h + g - 1) = 2 * (w * h_G h)).
    { rewrite <- Hp, <- Z.pow_succ_r by lia. f_equal. lia. }
    assert (Hvp : 0 < v) by nia.
    rewrite (proj2 (Z.eqb_neq v 0)) by lia. unfold b2z. rewrite Z.add_0_l.
    rewrite (log2_between v (h_r h + g - 2)) by
      (try lia; replace (h_r h + g - 2 + 1) with (h_r h + g - 1) by lia; rewrite Hp, Hd; nia).
    rewrite (proj2 (Z.ltb_ge _ _)) by lia.
    rewrite (u32_small (h_r h + g - 2 - h_r h)) by lia.
    rewrite (u32_small (h_r h + g - 2 - h_r h + 1)) by lia.
    replace (h_r h + g - 2 - h_r h + 1) with (g - 1) by lia.
    rewrite (u32_small (g - 1 + 1)), (u32_small (h_m h + (g - 1))), shl1_small by lia.
    replace (g - 1 + 1) with g by lia. rewrite Hp.
    replace (h_m h + (g - 1)) with (h_m h + g - 1) by lia.
    assert (Hv1 : 0 <= v - w * h_G h < 1073741824) by nia.
    rewrite (u64_small (v - w * h_G h)), Z.shiftr_div_pow2 by lia. fold w.
    replace ((v - w * h_G h) / w) with b
      by (apply (Z.div_unique _ _ _ (v - w * h_G h - w * b)); lia).
    pose proof (pow2_30 (h_r h - h_m h - 1) ltac:(lia)) as HG30. rewrite <- HG in HG30.
    assert (g * h_G h <= 31 * 1073741824) by nia.
    rewrite (u64_small (g * h_G h)), u64_small by lia. done.
Qed.

(** Every value up to N has a group and a position. *)
Lemma value_bucket h v :
  histo_wf h -> 0 <= v <= h_N h ->
  exists g b, at_bucket h g b /\
    low_of (h_m h) (h_G h) g b <= v < low_of (h_m h) (h_G h) g (b + 1).
Proof.
  intros Hwf Hv. pose proof Hwf as [Hm Hr Hn HN HG _ _]. rewrite HN in Hv.
  pose proof (pow2_pos (h_m h) Hm) as Hmp.
  pose proof (pow2_pos (h_r h - h_m h - 1) ltac:(lia)) as HGp. rewrite <- HG in HGp.
  assert (Hr2 : 2 ^ h_r h = 2 * (2 ^ h_m h * h_G h)).
  { rewrite HG, <- Z.pow_add_r, <- Z.pow_succ_r by lia. f_equal. lia. }
  unfold low_of, width. destruct (Z.lt_ge_cases v (2 ^ h_r h)) as [Hlt|Hge].
  - set (q := v / 2 ^ h_m h). assert (Hq : 2 ^ h_m h * q <= v < 2 ^ h_m h * (q + 1)).
    { unfold q. pose proof (Z.mul_div_le v (2 ^ h_m h)). pose proof (Z.mul_succ_div_gt v (2 ^ h_m h)).
      lia. }
    assert (0 <= q) by (apply Z.div_pos; lia).
    destruct (Z.lt_ge_cases q (h_G h)).
    + exists 0, q. split; [split; lia|]. simpl. lia.
    + exists 1, (q - h_G h). split; [split; nia|]. simpl.
      replace (h_m h + 1 - 1) with (h_m h) by lia. lia.
  - assert (0 < 2 ^ h_r h) by (apply pow2_pos; lia).
    set (k := Z.log2 v). pose proof (Z.log2_spec v ltac:(lia)) as Hk. fold k in Hk.
    assert (Hrk : h_r h <= k) by (apply Z.log2_le_pow2; lia).
    assert (Hkn : k < h_n h) by (apply Z.log2_lt_pow2; lia).
    set (g := k - h_r h + 2). set (w := 2 ^ (h_m h + g - 1)).
    assert (Hw : 0 < w) by (apply pow2_pos; lia).
    assert (Hk2 : 2 ^ k = w * h_G h).
    { unfold w. rewrite HG, <- Z.pow_add_r by lia. f_equal. lia. }
    rewrite Z.pow_succ_r, Hk2 in Hk by lia.
    set (b := (v - w * h_G h) / w).
    assert (Hb : w * b <= v - w * h_G h < w * (b + 1)).
    { unfold b. pose proof (Z.mul_div_le (v - w * h_G h) w).
      pose proof (Z.mul_succ_div_gt (v - w * h_G h) w). lia. }
    exists g, b. split; [split; [lia|]|].
    + split; [apply Z.div_pos; lia|]. nia.
    + destruct (Z.eqb_spec g 0); [lia|]. fold w. lia.
Qed.

Lemma bucket_split h bucket :
  histo_wf h -> 0 <= bucket < nbucket h -> exists g b, at_bucket h g b /\ bucket = g * h_G h + b.
Proof.
  intros [Hm Hr Hn _ HG Hnb _] Hbk. rewrite Hnb in Hbk.
  pose proof (pow2_pos (h_r h - h_m h - 1) ltac:(lia)) as HGp. rewrite <- HG in HGp.
  exists (bucket / h_G h), (bucket mod h_G h).
  pose proof (Z.mod_pos_bound bucket (h_G h) HGp). split.
  - split; [|done]. split; [apply Z.div_pos; lia|].
    assert (bucket / h_G h < h_n h - h_r h + 2); [|lia]. apply Z.div_lt_upper_bound; nia.
  - rewrite (Z.mul_comm (bucket / h_G h)). apply Z.div_mod. lia.
Qed.

(** A value and the bounds of its bucket. *)
Lemma offset_spec h v :
  histo_wf h -> 0 <= v <= h_N h ->
  let o := _bucket_offset v (h_m h) (h_r h) (h_G h) in
  0 <= o < nbucket h /\ bucket_low h o <= v <= bucket_high h o.
Proof.
  intros Hwf Hv o. destruct (value_bucket h v Hwf Hv) as (g & b & Hab & Hlow).
  pose proof (offset_at h g b v Hwf Hab Hlow) as Ho. fold o in Ho.
  destruct (bucket_bounds h g b Hwf Hab) as [Hl Hh]. rewrite Ho, Hl, Hh.
  pose proof Hwf as [_ _ _ _ _ Hnb _]. pose proof Hab as [Hg Hb]. rewrite Hnb. nia.
Qed.

End Buckets.

(** ** Counts *)

Definition total (bs : list Z) : Z := foldr Z.add 0 bs.

Section Counts.
Implicit Types (h : histo_u32) (bs : list Z).

Lemma total_app l k : total (l ++ k) = total l + total k.
Proof. unfold total. induction l as [|x l IH]; simpl; [lia|]. rewrite IH. lia. Qed.

Lemma total_nonneg bs : Forall (fun b => 0 <= b) bs -> 0 <= total bs.
Proof. induction 1; unfold total in *; simpl; lia. Qed.

Lemma total_update bs i c x :
  bs !! i = Some c -> total (<[i := x]> bs) = total bs - c + x.
Proof.
  revert i. induction bs as [|b bs IH]; intros [|i] Hi; simplify_eq/=; unfold total in *; simpl; [lia|].
  rewrite (IH i Hi). lia.
Qed.

Lemma total_take_S bs k c : bs !! k = Some c -> total (take (S k) bs) = total (take k bs) + c.
Proof. intros Hk. rewrite (take_S_r _ _ _ Hk), total_app. unfold total. simpl. lia. Qed.

Lemma create_wf m r n :
  0 <= m -> m < r -> r <= n <= 30 ->
  exists h, histo_u32_create m r n true true = Some h /\ histo_wf h /\
    h_m h = m /\ h_r h = r /\ h_n h = n /\ nrecord h = 0 /\ total (buckets h) = 0.
Proof.
  intros Hm Hr Hn. unfold histo_u32_create.
  rewrite (proj2 (Z.leb_gt r m)), (proj2 (Z.ltb_ge n r)), (proj2 (Z.ltb_ge 64 n)) by lia. simpl.
  rewrite (u32_small (r - m - 1)), (u32_small (n - r + 2)) by lia. rewrite !shl1_small by lia.
  pose proof (pow2_30 (r - m - 1) ltac:(lia)) as HG. pose proof (pow2_30 n ltac:(lia)).
  rewrite (u64_small (2 ^ (r - m - 1))) by lia.
  rewrite (u64_small ((n - r + 2) * _)) by nia.
  rewrite (u64_small (_ * 4)) by nia.
  rewrite (proj2 (Z.eqb_neq _ 0)) by nia.
  eexists. split; [done|]. split_and!; try done.
  - split; simpl; try lia.
    + rewrite i32_small, u64_small; lia.
    + unfold zlen. rewrite length_replicate. nia.
  - simpl. generalize (Z.to_nat ((n - r + 2) * 2 ^ (r - m - 1))). intros k.
    induction k; simpl; unfold total in *; simpl; lia.
Qed.

Lemma record_spec h v count :
  histo_wf h -> 0 <= v <= h_N h ->
  let o := Z.to_nat (_bucket_offset v (h_m h) (h_r h) (h_G h)) in
  exists c h', buckets h !! o = Some c /\ histo_u32_record h v count = Some (HISTO_OK, h') /\
    histo_wf h' /\ buckets h' = <[o := u32 (c + count)]> (buckets h) /\
    nrecord h' = u64 (nrecord h + count).
Proof.
  intros Hwf Hv o. destruct (offset_spec h v Hwf Hv) as [Ho _].
  pose proof Hwf as [Hm Hr Hn HN HG Hnb Hlen].
  destruct (lookup_lt_is_Some_2 (buckets h) o) as [c Hc]; [unfold o, zlen in *; lia|].
  unfold histo_u32_record. rewrite (proj2 (Z.ltb_ge _ _)) by lia. fold o. rewrite Hc. simpl.
  exists c. eexists. split; [done|]. split; [done|]. split; [|done].
  split; simpl; try done. unfold zlen in *. by rewrite length_insert.
Qed.

Lemma first_nonempty_spec off bs :
  exists j, first_nonempty off bs = (off + Z.of_nat j, drop j bs) /\ (j <= length bs)%nat /\
    total (take j bs) = 0 /\ (forall c, bs !! j = Some c -> c ≠ 0).
Proof.
  revert off. induction bs as [|b bs IH]; intros off; simpl.
  - exists 0%nat. rewrite Z.add_0_r. done.
  - destruct (Z.eqb_spec b 0) as [->|Hb].
    + destruct (IH (off + 1)) as (j & E & Hj & Ht & Hc). exists (S j). rewrite E. simpl.
      split_and!; [f_equal; lia|lia|by unfold total in *; simpl; rewrite Ht|done].
    + exists 0%nat. rewrite Z.add_0_r. split_and!; [done|lia|done|]. by intros c [= <-].
Qed.

Lemma scan_spec value off rc t bs :
  0 <= rc -> rc < t -> t <= rc + total bs -> rc + total bs <= UINT64_MAX ->
  Forall (fun b => 0 <= b) bs ->
  exists i c, scan value off rc t bs = off + Z.of_nat i /\ bs !! i = Some c /\
    rc + total (take i bs) < t <= rc + total (take i bs) + c.
Proof.
  unfold UINT64_MAX. intros Hrc Hlt Hle Hmax Hnn. revert value off rc Hrc Hlt Hle Hmax.
  induction Hnn as [|b bs Hb Hnn IH]; intros value off rc Hrc Hlt Hle Hmax; simpl.
  - unfold total in Hle. simpl in Hle. lia.
  - pose proof (total_nonneg bs Hnn). unfold total in Hle, Hmax. simpl in Hle, Hmax.
    fold (total bs) in *. rewrite (proj2 (Z.ltb_lt _ _)) by done. rewrite u64_small by lia.
    destruct (Z.lt_ge_cases (rc + b) t).
    + destruct (IH off (off + 1) (rc + b)) as (i & c & E & Hi & Hs); [lia..|].
      exists (S i), c. rewrite E. simpl. unfold total in *. simpl. split_and!; [lia|done|lia|lia].
    + exists 0%nat, b. split; [|split; [done|unfold total; simpl; lia]].
      destruct bs as [|b' bs]; simpl; [lia|]. rewrite (proj2 (Z.ltb_ge _ _)) by lia. lia.
Qed.

(** The bucket reported for a threshold. *)
Lemma report_at_spec h t :
  Forall (fun b => 0 <= b) (buckets h) -> 0 < total (buckets h) <= UINT64_MAX ->
  0 <= t <= total (buckets h) ->
  exists k c, report_at h t = Z.of_nat k /\ buckets h !! k = Some c /\ 0 < c /\
    total (take k (buckets h)) < Z.max 1 t <= total (take (S k) (buckets h)).
Proof.
  intros Hnn Htot Ht. unfold report_at.
  destruct (first_nonempty_spec 0 (buckets h)) as (j & -> & Hj & Hz & Hc). rewrite Z.add_0_l.
  rewrite <- (take_drop j (buckets h)) in Htot, Ht, Hnn. rewrite total_app, Hz in Htot, Ht.
  apply Forall_app in Hnn as [_ Hnn].
  destruct (drop j (buckets h)) as [|b rest] eqn:Ed; [unfold total in Htot; simpl in Htot; lia|].
  assert (Hlk : buckets h !! j = Some b).
  { rewrite <- (Nat.add_0_r j), <- lookup_drop, Ed. done. }
  pose proof (Hc b Hlk). apply Forall_cons in Hnn as Hb. destruct Hb as [Hb _].
  destruct (decide (t = 0)) as [->|Hne].
  - exists j, b. simpl. rewrite total_take_S with (c := b), Hz by done. split_and!; try done; lia.
  - destruct (scan_spec (Z.of_nat j) (Z.of_nat j) 0 t (b :: rest)) as (i & c & E & Hi & Hs); [lia..|done|].
    exists (j + i)%nat, c. rewrite E. rewrite <- Ed, lookup_drop in Hi.
    assert (Htk : total (take (j + i) (buckets h)) = total (take i (b :: rest))).
    { rewrite <- take_take_drop, total_app, Hz, Ed. lia. }
    rewrite total_take_S with (c := c), Htk by done.
    split_and!; [lia|done|lia|lia|lia].
Qed.

(** The report for percentile [p] is the lowest bucket, not empty, at which the
    records reach max(1, t). *)
Definition reports h (p : spec_float) (t : Z) : Prop :=
  exists k c, histo_u32_report h p = Some (HISTO_OK, Some (Z.of_nat k)) /\
    buckets h !! k = Some c /\ 0 < c /\
    total (take k (buckets h)) < Z.max 1 t <= total (take (S k) (buckets h)).

Lemma ceil_u64_spec f t : is_ceil f t -> 0 <= t <= UINT64_MAX -> ceil_u64 f = Some t.
Proof.
  intros Hc Ht. destruct f as [s|s| |s m e]; [by simpl in Hc; subst|done..|].
  unfold ceil_u64, is_ceil in *. change (if s then - Zpos m else Zpos m) with (cond_Zopp s (Zpos m)).
  generalize dependent (cond_Zopp s (Zpos m)). intros z Hz.
  assert ((if 0 <=? e then z * 2 ^ e else - (- z / 2 ^ (- e))) = t) as ->.
  { destruct (Z.leb_spec 0 e).
    - rewrite (Z.max_l 0 (- e)), (Z.max_r 0 e) in Hz by lia. lia.
    - rewrite (Z.max_r 0 (- e)), (Z.max_l 0 e), Z.pow_0_r in Hz by lia.
      rewrite <- (Z.div_unique (- z) (2 ^ (- e)) (- t) (t * 2 ^ (- e) - z)); lia. }
  by rewrite !(proj2 (Z.leb_le _ _)) by lia.
Qed.

Lemma report_ceil h p t :
  Forall (fun b => 0 <= b) (buckets h) -> total (buckets h) <= UINT64_MAX ->
  nrecord h = total (buckets h) -> _greater_dbl p (dbl 100) = false -> _lesser_dbl p (dbl 0) = false ->
  0 < nrecord h -> is_ceil (ddiv (dmul p (dbl (nrecord h))) (dbl 100)) t -> 0 <= t <= nrecord h ->
  reports h p t.
Proof.
  intros Hnn Hmax Hnr Hg Hl Hpos Hc Ht.
  destruct (report_at_spec h t) as (k & c & E & Hk); [done|lia|lia|]. exists k, c. split; [|done].
  unfold histo_u32_report, _threshold. rewrite Hg, Hl, (proj2 (Z.eqb_neq _ _)) by lia.
  rewrite (ceil_u64_spec _ t Hc) by lia. simpl. by rewrite E.
Qed.

(** The range tests on integers. *)
Lemma range_int k :
  Z.abs k < 2 ^ 52 ->
  _greater_dbl (dbl k) (dbl 100) = (100 <? k) /\ _lesser_dbl (dbl k) (dbl 0) = (k <? 0).
Proof.
  intros Hk. unfold _greater_dbl, _lesser_dbl. split.
  - rewrite (dge_eps_int _ (k - 100)) by (apply dsub_int; [apply dbl_int; lia|apply dbl_int; lia|lia]).
    case_zcmp; lia || done.
  - rewrite (dge_eps_int _ (0 - k)) by (apply dsub_int; [apply dbl_int; lia|apply dbl_int; lia|lia]).
    case_zcmp; lia || done.
Qed.

Lemma set_loop_bounded src n i last dst :
  (i + n <= length src)%nat -> (i + n <= length dst)%nat ->
  exists st dst', set_loop src i n last dst = Some (st, dst') /\ length dst' = length dst.
Proof.
  revert i last dst. induction n as [|n IH]; intros i last dst Hs Hd; simpl; [eauto|].
  destruct (lookup_lt_is_Some_2 src i) as [p ->]; [lia|]. simpl.
  repeat (case_match; [by eauto|]). unfold store. rewrite decide_True by lia. simpl.
  destruct (IH (S i) p (<[i := p]> dst)) as (st & dst' & -> & Hl); [lia|rewrite length_insert; lia|].
  exists st, dst'. by rewrite length_insert in Hl.
Qed.

End Counts.

(** ** Properties *)

(** C35: for a histogram created with m < r <= n <= 30, a value up to
    N is recorded in bucket [k] exactly when it lies between bucket_low and
    bucket_high of [k]: the buckets partition the values, and the bucket of
    every value is allocated. *)
Theorem histo_bucket_partition (h : histo_u32) (v k : Z) :
  histo_wf h -> 0 <= v <= h_N h -> 0 <= k < nbucket h ->
  0 <= _bucket_offset v (h_m h) (h_r h) (h_G h) < nbucket h /\
  (_bucket_offset v (h_m h) (h_r h) (h_G h) = k <-> bucket_low h k <= v <= bucket_high h k).
Proof.
  intros Hwf Hv Hk. destruct (offset_spec h v Hwf Hv) as [Ho Hb]. split; [done|].
  split; [by intros <-|]. intros Hlh.
  destruct (bucket_split h k Hwf Hk) as (g & b & Hab & ->).
  destruct (bucket_bounds h g b Hwf Hab) as [Hl Hh]. rewrite Hl, Hh in Hlh.
  apply offset_at; [done|done|lia].
Qed.

(** m = 1, r = 3, n = 5: buckets of 2 up to 8, then of 4 and 8. *)
Definition histo135 : histo_u32 := Histo 1 3 5 2 7 31 2 8 3 [0; 2; 0; 0; 0; 1; 0; 0].

Lemma histo135_wf : histo_wf histo135.
Proof. split; vm_compute; try split; congruence. Qed.

Lemma histo_bucket_partition_witness :
  bucket_low histo135 5 <= 13 <= bucket_high histo135 5 /\
  _bucket_offset 13 1 3 2 = 5.
Proof.
  destruct (histo_bucket_partition histo135 13 5 histo135_wf) as [_ H];
    [vm_compute; split; congruence|vm_compute; split; congruence|].
  assert (Ho : _bucket_offset 13 1 3 2 = 5) by reflexivity.
  split; [apply H; exact Ho|exact Ho].
Defined.

(** Creating a histogram with m < r <= n <= 30 gives a
    well-formed empty one; recording a value above N is refused and changes
    nothing; recording a value up to N adds the count (modulo 2^32) to the
    bucket whose bounds contain it and to no other, and keeps the total and
    nrecord in step as long as that bucket does not wrap. *)
Theorem histo_record_spec (m r n v count : Z) (h : histo_u32) :
  0 <= m -> m < r -> r <= n <= 30 ->
  (exists h0, histo_u32_create m r n true true = Some h0 /\ histo_wf h0 /\ h_N h0 = 2 ^ n - 1 /\
     nrecord h0 = 0 /\ total (buckets h0) = 0) /\
  (histo_wf h -> h_N h < v -> histo_u32_record h v count = Some (HISTO_EOVERFLOW, h)) /\
  (histo_wf h -> 0 <= v <= h_N h ->
     exists k c h', buckets h !! k = Some c /\
       bucket_low h (Z.of_nat k) <= v <= bucket_high h (Z.of_nat k) /\
       histo_u32_record h v count = Some (HISTO_OK, h') /\ histo_wf h' /\
       buckets h' = <[k := u32 (c + count)]> (buckets h) /\
       (0 <= c + count < 4294967296 -> nrecord h = u64 (total (buckets h)) ->
          nrecord h' = u64 (total (buckets h')))).
Proof.
  intros Hm Hr Hn. split_and!.
  - destruct (create_wf m r n) as (h0 & E & Hwf & _ & _ & Hn0 & Hnr & Ht); [done..|].
    exists h0. split_and!; try done. destruct Hwf as [_ _ _ -> _ _ _]. by rewrite Hn0.
  - intros _ Hv. unfold histo_u32_record. by rewrite (proj2 (Z.ltb_lt _ _)).
  - intros Hwf Hv. destruct (record_spec h v count Hwf Hv) as (c & h' & Hc & E & Hwf' & Hb & Hnr).
    destruct (offset_spec h v Hwf Hv) as [Ho [Hlo Hhi]].
    set (o := _bucket_offset v (h_m h) (h_r h) (h_G h)) in *.
    exists (Z.to_nat o), c, h'. rewrite Z2Nat.id by lia. split_and!; try done.
    intros Hsm Htot. rewrite Hnr, Hb, (total_update _ _ c) by done.
    rewrite Htot, u64_add_l, u32_small by done. f_equal. lia.
Qed.

Lemma histo_record_spec_witness :
  exists h', histo_u32_record histo135 13 4 = Some (HISTO_OK, h') /\ histo_wf h'.
Proof.
  destruct (histo_record_spec 1 3 5 13 4 histo135) as (_ & _ & H); [lia..|].
  destruct (H histo135_wf) as (k & c & h' & _ & _ & H1 & H2 & _); [vm_compute; split; congruence|].
  exists h'. split; [exact H1|exact H2].
Defined.

(** C36: the report of percentile k, an integer, over a histogram with n = nrecord
    records whose buckets hold n records in all (k and k * n below 2^52 in absolute value,
    n below 2^53): for 0 <= k <= 100 and n > 0 the code reports the lowest bucket at which the number of
    records reaches max(1, ceil(k * n / 100)): fewer records lie below it, and it is not
    empty.  Above 100 it answers HISTO_EOVERFLOW, below 0 HISTO_EUNDERFLOW, and with no
    record HISTO_EEMPTY.  For a percentile p that is not an integer and passes the range
    tests the same holds with the ceiling t of the double p * n / 100 as the code
    computes it (rounded), when 0 <= t <= n. *)
Theorem histo_report_spec (h : histo_u32) :
  Forall (fun b => 0 <= b) (buckets h) -> total (buckets h) <= UINT64_MAX ->
  nrecord h = total (buckets h) ->
  (forall k, Z.abs k < 2 ^ 52 -> Z.abs k * nrecord h < 2 ^ 52 -> nrecord h < 2 ^ 53 ->
     (100 < k -> histo_u32_report h (dbl k) = Some (HISTO_EOVERFLOW, None)) /\
     (k < 0 -> histo_u32_report h (dbl k) = Some (HISTO_EUNDERFLOW, None)) /\
     (0 <= k <= 100 -> nrecord h = 0 -> histo_u32_report h (dbl k) = Some (HISTO_EEMPTY, None)) /\
     (0 <= k <= 100 -> 0 < nrecord h ->
        reports h (dbl k) ((k * nrecord h + 99) / 100))) /\
  (forall p t, _greater_dbl p (dbl 100) = false -> _lesser_dbl p (dbl 0) = false -> 0 < nrecord h ->
     is_ceil (ddiv (dmul p (dbl (nrecord h))) (dbl 100)) t -> 0 <= t <= nrecord h ->
     reports h p t).
Proof.
  intros Hnn Hmax Hnr. split.
  - intros k Hk Hkn Hn. destruct (range_int k Hk) as [Hgt Hlt].
    split_and!; [intros Hr|intros Hr|intros Hr Hz|intros Hr Hz];
      try (unfold histo_u32_report; rewrite Hgt, Hlt).
    + by rewrite (proj2 (Z.ltb_lt _ _)).
    + by rewrite (proj2 (Z.ltb_ge 100 k)), (proj2 (Z.ltb_lt k 0)) by lia.
    + by rewrite (proj2 (Z.ltb_ge 100 k)), (proj2 (Z.ltb_ge k 0)), Hz by lia.
    + apply report_ceil; [done|done|done| | |done|apply percent_ceil; lia|].
      * rewrite Hgt. apply Z.ltb_ge. lia.
      * rewrite Hlt. apply Z.ltb_ge. lia.
      * split; [apply Z.div_pos; nia|]. apply Z.lt_succ_r, Z.div_lt_upper_bound; nia.
  - intros. by apply report_ceil.
Qed.

Lemma histo_report_spec_witness :
  histo_u32_report histo135 (dbl 70) = Some (HISTO_OK, Some 5) /\
  reports histo135 (dbl 70) 3 /\ reports histo135 (dbl 66) 2 /\
  reports histo135 (S754_finite false (67 * 2 ^ 46 + 1) (-46)) 3.
Proof.
  destruct (histo_report_spec histo135) as [H H'];
    [repeat constructor; vm_compute; congruence|vm_compute; congruence|reflexivity|].
  split; [vm_compute; reflexivity|].
  split; [apply (H 70); vm_compute; (reflexivity || split; congruence)|].
  split; [apply (H 66); vm_compute; (reflexivity || split; congruence)|].
  apply H'; vm_compute; first [reflexivity|split; congruence|split; reflexivity].
Defined.

(** Histo_u32_report_multi does not find the maximum: the final scan
    never advances the offset it copies.  With two records in bucket 1 and one in
    bucket 5, asking for the 50th percentile reports bucket 1 as the largest. *)
Theorem histo_multi_max_wrong :
  exists pp, histo_u32_report_multi 1 (Profile 1 1 [dbl 50] [0] 0 0) histo135 = Some (HISTO_OK, pp) /\
    pp_result pp = [1] /\ pp_min pp = 1 /\ pp_max pp = 1 /\ buckets histo135 !! 5%nat = Some 1.
Proof. eexists. split; [vm_compute; reflexivity|]. split_and!; vm_compute; reflexivity. Qed.

(** Setting at most as many percentiles as a profile was created for stays inside its
    block; the capacity is not tested, and setting two ascending percentiles in a profile
    of capacity one stores outside it. *)
Theorem percentile_set_capacity (pp : percentile_profile) (ps : list spec_float) (count : Z) :
  (0 <= count <= pp_cap pp -> zlen (pp_percentile pp) = pp_cap pp -> count <= zlen ps ->
   exists st pp', percentile_profile_set pp ps count = Some (st, pp') /\
     zlen (pp_percentile pp') = pp_cap pp' /\ pp_count pp' = count) /\
  percentile_profile_set (Profile 1 0 [dbl 0] [0] 0 0) [dbl 50; dbl 90] 2 = None.
Proof.
  split; [|vm_compute; reflexivity]. intros Hc Hl Hp. unfold percentile_profile_set, zlen in *.
  destruct (set_loop_bounded ps (Z.to_nat count) 0 (dbl (-1)) (pp_percentile pp)) as (st & dst & -> & Hd); [lia..|].
  simpl. eexists _, _. split; [done|]. simpl. split; [lia|done].
Qed.
