(* ===== verification/Words.v ===== *)
(** * Words and bytes

    What the hash functions share: little-endian numbers and their bytes, and the
    ranges and injectivity of the operations on words of w bits. *)

From S2P Require Import Prelude.
Local Open Scope Z_scope.

(** A little-endian number. *)
Fixpoint le (bs : list byte) : Z :=
  match bs with
  | [] => 0
  | b :: bs => b + 256 * le bs
  end.

(** ** Words of w bits *)

Lemma range_bits w x :
  0 <= w -> (0 <= x < 2 ^ w <-> 0 <= x /\ forall i, w <= i -> Z.testbit x i = false).
Proof.
  intros Hw. split.
  - intros H. split; [lia|]. intros i Hi. rewrite <- (Z.mod_small x (2 ^ w)) by done.
    apply Z.mod_pow2_bits_high. lia.
  - intros [H0 H]. assert (x mod 2 ^ w = x) as <-; [|apply Z.mod_pos_bound; lia].
    apply Z.bits_inj'. intros i Hi. destruct (Z_lt_le_dec i w).
    + by apply Z.mod_pow2_bits_low.
    + rewrite H by done. apply Z.mod_pow2_bits_high. lia.
Qed.

Lemma lxor_range w x y : 0 <= w -> 0 <= x < 2 ^ w -> 0 <= y < 2 ^ w -> 0 <= Z.lxor x y < 2 ^ w.
Proof.
  intros Hw [Hx Hx']%range_bits [Hy Hy']%range_bits; [|done..]. apply range_bits; [done|].
  split; [by apply Z.lxor_nonneg|]. intros i Hi. by rewrite Z.lxor_spec, Hx', Hy'.
Qed.

Lemma shiftr_range w k x : 0 <= w -> 0 <= k -> 0 <= x < 2 ^ w -> 0 <= Z.shiftr x k < 2 ^ w.
Proof.
  intros Hw Hk [Hx Hx']%range_bits; [|done]. apply range_bits; [done|].
  split; [by apply Z.shiftr_nonneg|]. intros i Hi. rewrite Z.shiftr_spec by lia. apply Hx'. lia.
Qed.

Lemma mod_range w x : 0 <= w -> 0 <= x mod 2 ^ w < 2 ^ w.
Proof. intros. apply Z.mod_pos_bound. lia. Qed.

(** The rotation, at any width. *)
Definition rot (w x r : Z) : Z := Z.lor (Z.shiftl x r mod 2 ^ w) (Z.shiftr x (w - r)).

Lemma rot_range w x r : 0 < r < w -> 0 <= x < 2 ^ w -> 0 <= rot w x r < 2 ^ w.
Proof.
  intros Hr Hx. apply range_bits; [lia|].
  pose proof (mod_range w (Z.shiftl x r) ltac:(lia)).
  pose proof (shiftr_range w (w - r) x ltac:(lia) ltac:(lia) Hx) as Hs.
  split; [apply Z.lor_nonneg; lia|]. intros i Hi. unfold rot. rewrite Z.lor_spec.
  rewrite Z.mod_pow2_bits_high by lia. apply range_bits in Hs as [_ ->]; [done|lia..].
Qed.

Lemma rot_bit w x r i :
  0 < r < w -> 0 <= x < 2 ^ w -> 0 <= i < w ->
  Z.testbit (rot w x r) i = Z.testbit x (if i <? r then i + w - r else i - r).
Proof.
  intros Hr Hx Hi. unfold rot. rewrite Z.lor_spec, Z.mod_pow2_bits_low, Z.shiftl_spec, Z.shiftr_spec by lia.
  apply range_bits in Hx as [H0 Hx]; [|lia]. destruct (Z.ltb_spec i r).
  - rewrite (Z.testbit_neg_r x (i - r)) by lia. simpl. f_equal. lia.
  - rewrite (Hx (i + (w - r))) by lia. by rewrite orb_false_r.
Qed.

Lemma rot_inj w r x y :
  0 < r < w -> 0 <= x < 2 ^ w -> 0 <= y < 2 ^ w -> rot w x r = rot w y r -> x = y.
Proof.
  intros Hr Hx Hy H. apply Z.bits_inj'. intros j Hj. destruct (Z_lt_le_dec j w) as [Hw|Hw].
  - pose (i := if j + r <? w then j + r else j + r - w).
    assert (Hi : 0 <= i < w) by (unfold i; destruct (Z.ltb_spec (j + r) w); lia).
    pose proof (rot_bit w x r i Hr Hx Hi) as Ex. rewrite H, (rot_bit w y r i Hr Hy Hi) in Ex.
    assert ((if i <? r then i + w - r else i - r) = j) as Ei.
    { unfold i. destruct (Z.ltb_spec (j + r) w).
      - destruct (Z.ltb_spec (j + r) r); lia.
      - destruct (Z.ltb_spec (j + r - w) r); lia. }
    by rewrite Ei in Ex.
  - apply range_bits in Hx as [_ ->]; [|lia..]. apply range_bits in Hy as [_ ->]; [done|lia..].
Qed.

Lemma shift_fix z k : 0 < k -> 0 <= z -> z = Z.shiftr z k -> z = 0.
Proof.
  intros Hk Hz H. rewrite Z.shiftr_div_pow2 in H by lia.
  destruct (Z.eq_dec z 0) as [|Hne]; [done|]. exfalso.
  assert (1 < 2 ^ k) by (apply Z.pow_gt_1; lia).
  assert (z / 2 ^ k < z) by (apply Z.div_lt; lia). lia.
Qed.

Lemma lxor_inj_l a x y : Z.lxor a x = Z.lxor a y -> x = y.
Proof.
  intros H. apply (f_equal (Z.lxor a)) in H. by rewrite <- !Z.lxor_assoc, Z.lxor_nilpotent, !Z.lxor_0_l in H.
Qed.

Lemma lxor_inj_r a x y : Z.lxor x a = Z.lxor y a -> x = y.
Proof. rewrite !(Z.lxor_comm _ a). apply lxor_inj_l. Qed.

Lemma xorshift_inj k x y :
  0 < k -> 0 <= x -> 0 <= y -> Z.lxor x (Z.shiftr x k) = Z.lxor y (Z.shiftr y k) -> x = y.
Proof.
  intros Hk Hx Hy H. apply Z.lxor_eq. apply (shift_fix _ k); [done| |].
  - apply Z.lxor_nonneg. split; intros; done.
  - rewrite Z.shiftr_lxor. apply Z.lxor_eq.
    rewrite Z.lxor_assoc, <- (Z.lxor_assoc y), (Z.lxor_comm y (Z.shiftr x k)).
    rewrite Z.lxor_assoc, <- (Z.lxor_assoc x), H. apply Z.lxor_nilpotent.
Qed.

Lemma xorshift_range w k x : 0 <= w -> 0 <= k -> 0 <= x < 2 ^ w -> 0 <= Z.lxor x (Z.shiftr x k) < 2 ^ w.
Proof. intros. apply lxor_range; [done..|]. by apply shiftr_range. Qed.

Lemma mul_inj w c ci x y :
  0 < w -> (c * ci) mod 2 ^ w = 1 -> 0 <= x < 2 ^ w -> 0 <= y < 2 ^ w ->
  (x * c) mod 2 ^ w = (y * c) mod 2 ^ w -> x = y.
Proof.
  intros Hw Hc Hx Hy H.
  assert (Hi : forall z, 0 <= z < 2 ^ w -> ((z * c) mod 2 ^ w * ci) mod 2 ^ w = z).
  { intros z Hz. rewrite Zmult_mod_idemp_l, <- Z.mul_assoc.
    rewrite <- Zmult_mod_idemp_r, Hc, Z.mul_1_r. by apply Z.mod_small. }
  by rewrite <- (Hi x Hx), H, Hi.
Qed.

Lemma add_inj w c x y :
  0 < w -> 0 <= x < 2 ^ w -> 0 <= y < 2 ^ w -> (x + c) mod 2 ^ w = (y + c) mod 2 ^ w -> x = y.
Proof.
  intros Hw Hx Hy H.
  assert (Hi : forall z, 0 <= z < 2 ^ w -> ((z + c) mod 2 ^ w + - c) mod 2 ^ w = z).
  { intros z Hz. rewrite Zplus_mod_idemp_l, <- (Z.mod_small z (2 ^ w)) at 1 by done.
    rewrite <- Z.add_assoc, Z.add_opp_diag_r, Z.add_0_r, Z.mod_mod by lia. by apply Z.mod_small. }
  by rewrite <- (Hi x Hx), H, Hi.
Qed.

Lemma land_mask n m : 0 <= m -> Z.land n (2 ^ m - 1) = n - n / 2 ^ m * 2 ^ m.
Proof.
  intros. rewrite Z.sub_1_r, <- Z.ones_equiv, Z.land_ones by done.
  pose proof (Z.div_mod n (2 ^ m)). lia.
Qed.

Lemma lxor_low x y : 0 <= x < 256 -> Z.lxor (Z.shiftl y 8) x = x + 256 * y.
Proof.
  intros Hx. rewrite <- Z.add_nocarry_lxor; [rewrite Z.shiftl_mul_pow2 by lia; lia|].
  apply Z.bits_inj'. intros i Hi. rewrite Z.land_spec, Z.bits_0. destruct (Z_lt_le_dec i 8).
  - rewrite Z.shiftl_spec_low; done.
  - apply (range_bits 8) in Hx as [_ ->]; [by rewrite andb_false_r|lia..].
Qed.

Lemma slice_slice {A} (l : list A) a n o s :
  0 <= a -> 0 <= o -> slice (slice l a n) o s = slice l (a + o) (Z.min s (n - o)).
Proof. intros. unfold slice at 1. by rewrite drop_slice, take_slice. Qed.


(** Compute the sums and differences of numerals. *)
Ltac znum t :=
  let v := eval vm_compute in t in
  lazymatch v with Z0 => idtac | Zpos _ => idtac | Zneg _ => idtac end;
  change t with v.
Ltac znums :=
  repeat match goal with
  | |- context [?a + ?b] => is_ground a; is_ground b; znum (a + b)
  | |- context [?a - ?b] => is_ground a; is_ground b; znum (a - b)
  | |- context [?a * ?b] => is_ground a; is_ground b; znum (a * b)
  end.

(** ** Bytes of a number *)

Abbreviation bytes_ok := (Forall (fun b : byte => 0 <= b < 256)).

Lemma bytes_okb bs : forallb (fun b => (0 <=? b) && (b <? 256)) bs = true -> bytes_ok bs.
Proof.
  induction bs as [|b bs IH]; simpl; [done|]. intros [[?%Z.leb_le ?%Z.ltb_lt]%andb_prop ?]%andb_prop.
  constructor; [done|]. by apply IH.
Qed.

Fixpoint le_split (n : nat) (x : Z) : list byte :=
  match n with
  | O => []
  | S n => x mod 256 :: le_split n (x / 256)
  end.

Lemma length_le_split n x : length (le_split n x) = n.
Proof. revert x. induction n as [|n IH]; intros x; simpl; [done|]. by rewrite IH. Qed.

Lemma le_split_ok n x : bytes_ok (le_split n x).
Proof.
  revert x. induction n as [|n IH]; intros x; simpl; constructor; [|done]. mlia.
Qed.

Lemma le_range bs : bytes_ok bs -> 0 <= le bs < 2 ^ (8 * zlen bs).
Proof.
  induction 1 as [|b bs Hb Hbs IH]; [done|]. cbn [le].
  replace (8 * zlen (b :: bs)) with (8 + 8 * zlen bs) by (unfold zlen; simpl; lia).
  rewrite Z.pow_add_r by (unfold zlen; lia). lia.
Qed.

Lemma le_split_le n bs : bytes_ok bs -> length bs = n -> le_split n (le bs) = bs.
Proof.
  intros Hbs <-. induction Hbs as [|b bs Hb Hbs IH]; [done|]. cbn [le le_split length].
  replace ((b + 256 * le bs) mod 256) with b by mlia.
  replace ((b + 256 * le bs) / 256) with (le bs) by mlia. by rewrite IH.
Qed.

Lemma le_le_split n x : le (le_split n x) = x mod 2 ^ (8 * Z.of_nat n).
Proof.
  revert x. induction n as [|n IH]; intros x; cbn [le le_split].
  - by rewrite Z.mod_1_r.
  - rewrite IH. replace (8 * Z.of_nat (S n)) with (8 + 8 * Z.of_nat n) by lia.
    rewrite Z.pow_add_r, (Z.rem_mul_r x) by lia. done.
Qed.

Lemma le_app a b : le (a ++ b) = le a + 2 ^ (8 * zlen a) * le b.
Proof.
  induction a as [|x a IH]; [by rewrite Z.mul_1_l|]. cbn [le app]. rewrite IH.
  replace (8 * zlen (x :: a)) with (8 + 8 * zlen a) by (unfold zlen; simpl; lia).
  rewrite Z.pow_add_r by (unfold zlen; lia). lia.
Qed.

Lemma le_lor b bs : 0 <= b < 256 -> le (b :: bs) = Z.lor b (Z.shiftl (le bs) 8).
Proof.
  intros Hb. cbn [le]. rewrite <- lxor_low, Z.lxor_comm by done.
  apply Z.lxor_lor. apply Z.bits_inj'. intros i Hi. rewrite Z.land_spec, Z.bits_0.
  destruct (Z_lt_le_dec i 8); [by rewrite Z.shiftl_spec_low, andb_false_r by lia|].
  apply (range_bits 8) in Hb as [_ ->]; [done|lia..].
Qed.

Lemma le_byte bs s i b :
  bytes_ok bs -> bs !! i = Some b -> s = 8 * Z.of_nat i -> Z.shiftr (le bs) s mod 256 = b.
Proof.
  intros Hbs Hi ->. revert i Hi. induction Hbs as [|c bs Hc Hbs IH]; intros [|i] Hi; simplify_eq/=.
  - rewrite Z.shiftr_0_r. mlia.
  - rewrite <- (IH i Hi). rewrite !Z.shiftr_div_pow2 by lia.
    replace (8 * Z.of_nat (S i)) with (8 + 8 * Z.of_nat i) by lia.
    rewrite Z.pow_add_r, <- Z.div_div by lia. do 2 f_equal. simpl. mlia.
Qed.

Lemma mod_255 x : x mod 256 = Z.land x 255.
Proof. by change 255 with (Z.ones 8); rewrite Z.land_ones. Qed.

(** A byte selected by a mask, after a shift to the left or to the right. *)
Lemma mask_shl w x k j :
  0 <= k <= j -> j + 8 <= w ->
  Z.land (Z.shiftl x k mod 2 ^ w) (Z.shiftl 255 j) = Z.shiftl (Z.shiftr x (j - k) mod 256) j.
Proof.
  intros Hk Hw. apply Z.bits_inj'. intros i Hi. rewrite Z.land_spec, mod_255.
  destruct (Z_lt_le_dec i j).
  - by rewrite !(Z.shiftl_spec_low _ j i), andb_false_r by lia.
  - rewrite !(Z.shiftl_spec _ j i), Z.land_spec, Z.shiftr_spec by lia.
    destruct (Z_lt_le_dec i w).
    + rewrite Z.mod_pow2_bits_low, Z.shiftl_spec by lia. do 2 f_equal. lia.
    + change 255 with (Z.ones 8). by rewrite Z.ones_spec_high, !andb_false_r by lia.
Qed.

Lemma mask_shr x k j :
  0 <= k -> 0 <= j ->
  Z.land (Z.shiftr x k) (Z.shiftl 255 j) = Z.shiftl (Z.shiftr x (j + k) mod 256) j.
Proof.
  intros Hk Hj. apply Z.bits_inj'. intros i Hi. rewrite Z.land_spec, mod_255.
  destruct (Z_lt_le_dec i j).
  - by rewrite !(Z.shiftl_spec_low _ j i), andb_false_r by lia.
  - rewrite !(Z.shiftl_spec _ j i), Z.land_spec, !Z.shiftr_spec by lia. do 2 f_equal. lia.
Qed.
