(* ===== verification/Util.v ===== *)
(** * Utilities (include/cc_util.h) and short comparisons (include/cc_bstring.h)

    Alignment, rounding and character search, and the macros that compare a string
    with the characters of a short constant, several bytes at a time.  A character
    is the int it is promoted to, so a byte above 127 is negative where char is
    signed.  Shifts of int wrap as gcc defines them. *)

From Stdlib Require Import SpecFloat.
From S2P Require Import Prelude Words Double.
Local Open Scope Z_scope.

Definition LF : Z := 10.
Definition CR : Z := 13.
Definition CRLF_LEN : Z := 2.
Definition KiB : Z := 1024.
Definition GiB : Z := 1024 * (1024 * KiB).
Definition CC_UINT8_MAXLEN : Z := 3 + 1.
Definition CC_UINT16_MAXLEN : Z := 5 + 1.
Definition CC_UINT32_MAXLEN : Z := 10 + 1.

(** ** Alignment and rounding *)

(** The type of the alignment: CC_ALIGN complements it in that type. *)
Inductive int_type := Signed_int | Unsigned_int | Size_t.

Definition complement (t : int_type) (x : Z) : Z :=
  match t with
  | Unsigned_int => u32 (Z.lnot x)
  | Signed_int | Size_t => u64 (Z.lnot x)
  end.

(** [d] is a size_t. *)
Definition CC_ALIGN (t : int_type) (d n : Z) : Z := Z.land (u64 (d + (n - 1))) (complement t (n - 1)).
Definition CC_ALIGN_PTR (p n : Z) : Z := Z.land (u64 (p + (n - 1))) (u64 (Z.lnot (n - 1))).

Definition ROUND_UP (x step : Z) : Z := u64 (u64 (u64 (x + step) - 1) / step * step).
Definition ROUND_DOWN (x step : Z) : Z := u64 (x / step * step).

(** ** Variance

    Of [n] samples with sum [s] and sum of squares [s2], both doubles; the integer
    [n] is converted to double. *)
Definition SQUARE (d : spec_float) : spec_float := dmul d d.
Definition VAR (s s2 : spec_float) (n : Z) : spec_float :=
  if n <? 2 then dbl 0 else ddiv (dsub s2 (ddiv (SQUARE s) (dbl n))) (dbl (n - 1)).
Definition STDDEV (s s2 : spec_float) (n : Z) : spec_float :=
  if n <? 2 then dbl 0 else dsqrt (VAR s s2 n).

(** ** Character search in an object, by offsets; NULL is [None] *)

Fixpoint _cc_strchr (fuel : nat) (m : list byte) (p last : Z) (c : byte) : option (option Z) :=
  if p <? last then
    x ← memread m p 1;
    if decide (x = [c]) then Some (Some p) else
    match fuel with
    | O => None
    | S fuel => _cc_strchr fuel m (p + 1) last c
    end
  else Some None.

Fixpoint _cc_strrchr (fuel : nat) (m : list byte) (p start : Z) (c : byte) : option (option Z) :=
  if start <=? p then
    x ← memread m p 1;
    if decide (x = [c]) then Some (Some p) else
    match fuel with
    | O => None
    | S fuel => _cc_strrchr fuel m (p - 1) start c
    end
  else Some None.

(** ** Comparison with short constants *)

(** a && b, where b is evaluated only when a holds *)
Definition andc (a b : option bool) : option bool :=
  match a with Some true => b | _ => a end.

(** m[i] == c *)
Definition eqc (m : list Z) (i : nat) (c : Z) : option bool := x ← m !! i; Some (x =? c).

(** x0 << 24 | x1 << 16 | x2 << 8 | x3, in int *)
Definition pack (x0 x1 x2 x3 : Z) : Z :=
  Z.lor (Z.lor (Z.lor (i32 (Z.shiftl x0 24)) (i32 (Z.shiftl x1 16))) (i32 (Z.shiftl x2 8))) x3.

Definition pack4 (m : list Z) (i : nat) (c0 c1 c2 c3 : Z) : option bool :=
  x0 ← m !! i; x1 ← m !! (i + 1)%nat; x2 ← m !! (i + 2)%nat; x3 ← m !! (i + 3)%nat;
  Some (pack x0 x1 x2 x3 =? pack c0 c1 c2 c3).

Definition str2cmp (m : list Z) (c0 c1 : Z) : option bool := andc (eqc m 0 c0) (eqc m 1 c1).
Definition str3cmp (m : list Z) (c0 c1 c2 : Z) : option bool :=
  andc (andc (eqc m 0 c0) (eqc m 1 c1)) (eqc m 2 c2).
Definition str4cmp (m : list Z) (c0 c1 c2 c3 : Z) : option bool := pack4 m 0 c0 c1 c2 c3.
Definition str5cmp (m : list Z) (c0 c1 c2 c3 c4 : Z) : option bool :=
  andc (str4cmp m c0 c1 c2 c3) (eqc m 4 c4).
Definition str6cmp (m : list Z) (c0 c1 c2 c3 c4 c5 : Z) : option bool :=
  andc (str5cmp m c0 c1 c2 c3 c4) (eqc m 5 c5).
Definition str7cmp (m : list Z) (c0 c1 c2 c3 c4 c5 c6 : Z) : option bool :=
  andc (str6cmp m c0 c1 c2 c3 c4 c5) (eqc m 6 c6).
Definition str8cmp (m : list Z) (c0 c1 c2 c3 c4 c5 c6 c7 : Z) : option bool :=
  andc (str4cmp m c0 c1 c2 c3) (pack4 m 4 c4 c5 c6 c7).
Definition str9cmp (m : list Z) (c0 c1 c2 c3 c4 c5 c6 c7 c8 : Z) : option bool :=
  andc (str8cmp m c0 c1 c2 c3 c4 c5 c6 c7) (eqc m 8 c8).
Definition str10cmp (m : list Z) (c0 c1 c2 c3 c4 c5 c6 c7 c8 c9 : Z) : option bool :=
  andc (str9cmp m c0 c1 c2 c3 c4 c5 c6 c7 c8) (eqc m 9 c9).
Definition str11cmp (m : list Z) (c0 c1 c2 c3 c4 c5 c6 c7 c8 c9 c10 : Z) : option bool :=
  andc (str10cmp m c0 c1 c2 c3 c4 c5 c6 c7 c8 c9) (eqc m 10 c10).
Definition str12cmp (m : list Z) (c0 c1 c2 c3 c4 c5 c6 c7 c8 c9 c10 c11 : Z) : option bool :=
  andc (str8cmp m c0 c1 c2 c3 c4 c5 c6 c7) (pack4 m 8 c8 c9 c10 c11).

(** ** Alignment *)

Lemma land_complement d k : 0 <= k < 64 -> Z.land d (Z.lnot (2 ^ k - 1)) = d / 2 ^ k * 2 ^ k.
Proof.
  intros Hk. rewrite Z.sub_1_r, <- Z.ones_equiv. rewrite <- Z.ldiff_land.
  rewrite Z.ldiff_ones_r by lia. by rewrite Z.shiftr_div_pow2, Z.shiftl_mul_pow2 by lia.
Qed.

Lemma land_u64 a b : 0 <= a < 2 ^ 64 -> Z.land a (u64 b) = Z.land a b.
Proof.
  intros Ha. unfold u64. change 18446744073709551616 with (2 ^ 64). rewrite <- Z.land_ones by lia.
  rewrite (Z.land_comm b), Z.land_assoc, Z.land_ones by lia. by rewrite Z.mod_small.
Qed.

(** The least multiple of [n] that is at least [d]. *)
Definition least_multiple (n d a : Z) : Prop := a mod n = 0 /\ d <= a < d + n.

Lemma round_least n d : 0 < n -> least_multiple n d ((d + (n - 1)) / n * n).
Proof.
  intros Hn. pose proof (Z.div_mod (d + (n - 1)) n ltac:(lia)). pose proof (Z.mod_pos_bound (d + (n - 1)) n Hn).
  split; [apply Z.mod_mul; lia|]. nia.
Qed.

Lemma pow2_range k : 0 <= k <= 30 -> 1 <= 2 ^ k <= 1073741824.
Proof.
  intros Hk. pose proof (Z.pow_le_mono_r 2 0 k ltac:(lia) ltac:(lia)). pose proof (Z.pow_le_mono_r 2 k 30 ltac:(lia) ltac:(lia)). lia.
Qed.

(** CC_ALIGN gives the least multiple of an alignment 2^k that is at least d, unless
    the alignment is an unsigned int: then the mask has 32 bits and the result is
    cut to 32 bits, so sizes of 4 GiB and more are lost.  CC_ALIGN_PTR has no such
    case.  ROUND_UP and ROUND_DOWN are the nearest multiples of any step. *)
Theorem align_round (d k x step : Z) :
  0 <= k <= 30 -> 0 <= d -> d + 2 ^ k <= 2 ^ 64 -> 0 <= x -> 1 <= step -> x + step <= 2 ^ 64 - 1 ->
  least_multiple (2 ^ k) d (CC_ALIGN Size_t d (2 ^ k)) /\
  CC_ALIGN Signed_int d (2 ^ k) = CC_ALIGN Size_t d (2 ^ k) /\
  CC_ALIGN Unsigned_int d (2 ^ k) = u32 (CC_ALIGN Size_t d (2 ^ k)) /\
  CC_ALIGN_PTR d (2 ^ k) = CC_ALIGN Size_t d (2 ^ k) /\
  least_multiple step x (ROUND_UP x step) /\
  (ROUND_DOWN x step) mod step = 0 /\ ROUND_DOWN x step <= x < ROUND_DOWN x step + step.
Proof.
  intros Hk Hd Hov Hx Hst Hov'. pose proof (pow2_range k Hk) as H2.
  assert (Ha : CC_ALIGN Size_t d (2 ^ k) = (d + (2 ^ k - 1)) / 2 ^ k * 2 ^ k).
  { unfold CC_ALIGN, complement. rewrite u64_small by lia. rewrite land_u64, land_complement by lia. done. }
  split; [rewrite Ha; apply round_least; lia|]. split; [done|]. split; [|split; [done|]].
  - rewrite Ha. unfold CC_ALIGN, complement. rewrite (u64_small (d + _)) by lia. unfold u32.
    change 4294967296 with (2 ^ 32). rewrite <- !Z.land_ones by lia.
    rewrite Z.land_assoc. f_equal. apply land_complement. lia.
  - unfold ROUND_UP, ROUND_DOWN. rewrite (u64_small (x + step)) by lia. rewrite (u64_small (x + step - 1)) by lia.
    replace (x + step - 1) with (x + (step - 1)) by lia. pose proof (round_least step x ltac:(lia)) as [Hm Hr].
    rewrite (u64_small (_ / _ * _)) by lia. split; [by split|].
    pose proof (Z.div_mod x step ltac:(lia)). pose proof (Z.mod_pos_bound x step ltac:(lia)).
    assert (0 <= x / step) by (apply Z.div_pos; lia). rewrite u64_small by nia. split; [apply Z.mod_mul; lia|lia].
Qed.

(** ** Search *)

Lemma memread1 (m : list byte) p : 0 <= p < zlen m -> exists x, m !! Z.to_nat p = Some x /\ memread m p 1 = Some [x].
Proof.
  intros Hp. destruct (lookup_lt_is_Some_2 m (Z.to_nat p)) as [x Hx]; [unfold zlen in *; lia|].
  exists x. split; [done|]. rewrite memread_some by lia. unfold slice. by rewrite (drop_S _ _ _ Hx).
Qed.

(** What a search returns: an occurrence in the range with none before it (after it,
    from the end), or NULL when there is none. *)
Definition found (m : list byte) (c : byte) (lo hi : Z) (closer : Z -> Z -> Prop) (r : option Z) : Prop :=
  match r with
  | Some q => lo <= q < hi /\ m !! Z.to_nat q = Some c /\
      forall i, lo <= i < hi -> closer i q -> m !! Z.to_nat i <> Some c
  | None => forall i, lo <= i < hi -> m !! Z.to_nat i <> Some c
  end.

Lemma strchr_spec m last c : last <= zlen m -> forall fuel p, 0 <= p -> last - p <= Z.of_nat fuel ->
  exists r, _cc_strchr fuel m p last c = Some r /\ found m c p last Z.lt r.
Proof.
  intros Hl. induction fuel as [|fuel IH]; intros p Hp Hf; cbn [_cc_strchr];
    destruct (Z.ltb_spec p last) as [Hlt|Hge]; try lia; try (exists None; split; [done|]; intros i Hi; lia).
  destruct (memread1 m p ltac:(lia)) as (x & Hx & ->). cbn [mbind option_bind]. destruct (decide ([x] = [c])) as [E|E].
  - injection E as ->. exists (Some p). split; [done|]. repeat split; try lia. done.
  - destruct (IH (p + 1)) as (r & -> & Hr); [lia..|]. exists r. split; [done|].
    assert (Hne : forall i, p <= i -> i < p + 1 -> m !! Z.to_nat i <> Some c).
    { intros i ? ?. replace i with p by lia. rewrite Hx. congruence. }
    destruct r as [q|]; simpl in *.
    + destruct Hr as (Hq & Hc & Hb). repeat split; try lia; [done|]. intros i Hi Hiq.
      destruct (Z_lt_le_dec i (p + 1)); [by apply Hne; lia|by apply Hb; lia].
    + intros i Hi. destruct (Z_lt_le_dec i (p + 1)); [by apply Hne; lia|by apply Hr; lia].
Qed.

Lemma strrchr_spec m start c : 0 <= start -> forall fuel p, p < zlen m -> p + 1 - start <= Z.of_nat fuel ->
  exists r, _cc_strrchr fuel m p start c = Some r /\ found m c start (p + 1) (fun i q => q < i) r.
Proof.
  intros Hs. induction fuel as [|fuel IH]; intros p Hp Hf; cbn [_cc_strrchr];
    destruct (Z.leb_spec start p) as [Hle|Hgt]; try lia; try (exists None; split; [done|]; intros i Hi; lia).
  destruct (memread1 m p ltac:(lia)) as (x & Hx & ->). cbn [mbind option_bind]. destruct (decide ([x] = [c])) as [E|E].
  - injection E as ->. exists (Some p). split; [done|]. repeat split; try lia. done.
  - destruct (IH (p - 1)) as (r & -> & Hr); [lia..|]. exists r. split; [done|]. rewrite Z.sub_add in Hr.
    assert (Hne : forall i, p <= i -> i < p + 1 -> m !! Z.to_nat i <> Some c).
    { intros i ? ?. replace i with p by lia. rewrite Hx. congruence. }
    destruct r as [q|]; simpl in *.
    + destruct Hr as (Hq & Hc & Hb). repeat split; try lia; [done|]. intros i Hi Hiq.
      destruct (Z_lt_le_dec i p); [by apply Hb; lia|by apply Hne; lia].
    + intros i Hi. destruct (Z_lt_le_dec i p); [by apply Hr; lia|by apply Hne; lia].
Qed.

(** ** Comparisons *)

Definition ascii (c : Z) : Prop := 0 <= c < 128.
(** A promoted char, signed or not. *)
Definition promoted (x : Z) : Prop := -128 <= x < 256.

Lemma shift_ascii_like x s : 0 <= s <= 16 -> promoted x -> i32 (Z.shiftl x s) = Z.shiftl x s.
Proof.
  intros Hs Hx. apply i32_small. rewrite Z.shiftl_mul_pow2 by lia.
  pose proof (Z.pow_le_mono_r 2 s 16 ltac:(lia) ltac:(lia)). pose proof (Z.pow_pos_nonneg 2 s ltac:(lia) ltac:(lia)).
  unfold promoted in Hx. nia.
Qed.

Lemma pack_le x0 x1 x2 x3 : ascii x0 -> 0 <= x1 < 256 -> 0 <= x2 < 256 -> 0 <= x3 < 256 ->
  pack x0 x1 x2 x3 = le [x3; x2; x1; x0].
Proof.
  intros H0 H1 H2 H3. unfold pack. rewrite (i32_small (Z.shiftl x0 24)) by (rewrite Z.shiftl_mul_pow2 by lia; unfold ascii in *; lia).
  rewrite !shift_ascii_like by (unfold promoted; lia). rewrite !le_lor by (unfold ascii in *; lia).
  cbn [le]. change (Z.shiftl 0 8) with 0. rewrite Z.lor_0_r, !Z.shiftl_lor, !Z.shiftl_shiftl by lia. znums.
  rewrite (Z.lor_comm x3), (Z.lor_comm (Z.shiftl x2 8)), (Z.lor_comm (Z.shiftl x1 16)). done.
Qed.

Lemma pack_neg x0 x1 x2 x3 :
  promoted x0 -> promoted x1 -> promoted x2 -> promoted x3 ->
  (x0 < 0 \/ 128 <= x0) \/ x1 < 0 \/ x2 < 0 \/ x3 < 0 -> pack x0 x1 x2 x3 < 0.
Proof.
  intros H0 H1 H2 H3 Hn. unfold pack. rewrite (shift_ascii_like x1), (shift_ascii_like x2) by (done || lia). rewrite !Z.lor_neg, !Z.shiftl_neg.
  destruct Hn as [Hn|[?|[?|?]]]; [left; left; left|left; left; right|left; right|right]; try done.
  rewrite Z.shiftl_mul_pow2 by lia. unfold i32, promoted in *. change (2 ^ 24) with 16777216.
  destruct Hn; mlia.
Qed.

(** Four characters are compared exactly when the constant is ASCII. *)
Lemma pack_eqb x0 x1 x2 x3 c0 c1 c2 c3 :
  promoted x0 -> promoted x1 -> promoted x2 -> promoted x3 -> ascii c0 -> ascii c1 -> ascii c2 -> ascii c3 ->
  (pack x0 x1 x2 x3 =? pack c0 c1 c2 c3) = bool_decide ([x0; x1; x2; x3] = [c0; c1; c2; c3]).
Proof.
  intros H0 H1 H2 H3 A0 A1 A2 A3.
  assert (Hc : pack c0 c1 c2 c3 = le [c3; c2; c1; c0]) by (apply pack_le; unfold ascii in *; lia).
  assert (Bc : bytes_ok [c3; c2; c1; c0]) by (unfold ascii in *; repeat constructor; lia).
  destruct (decide (ascii x0 /\ 0 <= x1 /\ 0 <= x2 /\ 0 <= x3)) as [(P0 & P1 & P2 & P3)|Hn].
  - assert (Bx : bytes_ok [x3; x2; x1; x0]) by (unfold ascii, promoted in *; repeat constructor; lia).
    rewrite pack_le, Hc by (unfold promoted in *; done || lia). destruct (Z.eqb_spec (le [x3; x2; x1; x0]) (le [c3; c2; c1; c0])) as [E|E].
    + symmetry. apply bool_decide_eq_true. apply (f_equal (le_split 4)) in E. rewrite !le_split_le in E by done. congruence.
    + symmetry. apply bool_decide_eq_false. intros Hx. apply E. congruence.
  - assert (Hlt : pack x0 x1 x2 x3 < 0) by (apply pack_neg; try done; unfold ascii, promoted in *; lia).
    pose proof (le_range _ Bc). rewrite (proj2 (Z.eqb_neq _ _)) by lia. symmetry. apply bool_decide_eq_false.
    intros [= -> -> -> ->]. apply Hn. unfold ascii in *. lia.
Qed.

Lemma andc_decide (P Q : Prop) `{!Decision P} `{!Decision Q} :
  andc (Some (bool_decide P)) (Some (bool_decide Q)) = Some (bool_decide (P /\ Q)).
Proof. unfold andc. by destruct (bool_decide_reflect P), (bool_decide_reflect Q), (bool_decide_reflect (P /\ Q)); naive_solver. Qed.

(** A comparison of [m] with the constant [cs], each macro for its length. *)
Definition strcmp_macro (m cs : list Z) : option bool :=
  match cs with
  | [a; b] => str2cmp m a b
  | [a; b; c] => str3cmp m a b c
  | [a; b; c; d] => str4cmp m a b c d
  | [a; b; c; d; e] => str5cmp m a b c d e
  | [a; b; c; d; e; f] => str6cmp m a b c d e f
  | [a; b; c; d; e; f; g] => str7cmp m a b c d e f g
  | [a; b; c; d; e; f; g; h] => str8cmp m a b c d e f g h
  | [a; b; c; d; e; f; g; h; i] => str9cmp m a b c d e f g h i
  | [a; b; c; d; e; f; g; h; i; j] => str10cmp m a b c d e f g h i j
  | [a; b; c; d; e; f; g; h; i; j; k] => str11cmp m a b c d e f g h i j k
  | [a; b; c; d; e; f; g; h; i; j; k; l] => str12cmp m a b c d e f g h i j k l
  | _ => None
  end.

(** [m] from position [i] starts with [cs]. *)
Definition matches (m : list Z) (i : nat) (cs : list Z) : Prop := take (length cs) (drop i m) = cs.
#[local] Instance matches_dec m i cs : Decision (matches m i cs) := list_eq_dec _ _.

Lemma matches_app m i a b : matches m i (a ++ b) <-> matches m i a /\ matches m (i + length a) b.
Proof.
  unfold matches. rewrite length_app. split.
  - intros E. pose proof (f_equal (take (length a)) E) as E1. pose proof (f_equal (drop (length a)) E) as E2.
    rewrite take_take, Nat.min_l, take_app_length in E1 by lia. rewrite drop_app_length in E2. split; [done|].
    rewrite <- E2 at 2. rewrite skipn_firstn_comm, drop_drop. f_equal. lia.
  - intros [E1 E2]. rewrite <- (take_drop (length a) (take _ _)). rewrite take_take, Nat.min_l, E1 by lia.
    f_equal. rewrite skipn_firstn_comm, drop_drop. by replace (length a + length b - length a)%nat with (length b) by lia.
Qed.

Lemma andc_matches m a b x y :
  x = Some (bool_decide (matches m 0 a)) -> y = Some (bool_decide (matches m (length a) b)) ->
  andc x y = Some (bool_decide (matches m 0 (a ++ b))).
Proof. intros -> ->. rewrite andc_decide. f_equal. apply bool_decide_ext. symmetry. apply matches_app. Qed.

Lemma eqc_matches m i c : (i < length m)%nat -> eqc m i c = Some (bool_decide (matches m i [c])).
Proof.
  intros Hi. destruct (lookup_lt_is_Some_2 m i Hi) as [x Hx]. unfold eqc. rewrite Hx. simpl. f_equal.
  assert (Ht : take 1 (drop i m) = [x]) by by rewrite (drop_S _ _ _ Hx).
  symmetry. rewrite (bool_decide_ext _ (x = c)) by (unfold matches; simpl length; rewrite Ht; split; congruence).
  destruct (Z.eqb_spec x c); [by apply bool_decide_eq_true|by apply bool_decide_eq_false].
Qed.

Lemma pack4_matches m i c0 c1 c2 c3 :
  (i + 4 <= length m)%nat -> Forall promoted m -> ascii c0 -> ascii c1 -> ascii c2 -> ascii c3 ->
  pack4 m i c0 c1 c2 c3 = Some (bool_decide (matches m i [c0; c1; c2; c3])).
Proof.
  intros Hi Hm A0 A1 A2 A3. unfold pack4.
  destruct (lookup_lt_is_Some_2 m i ltac:(lia)) as [x0 H0]. destruct (lookup_lt_is_Some_2 m (i + 1) ltac:(lia)) as [x1 H1].
  destruct (lookup_lt_is_Some_2 m (i + 2) ltac:(lia)) as [x2 H2]. destruct (lookup_lt_is_Some_2 m (i + 3) ltac:(lia)) as [x3 H3].
  rewrite H0, H1, H2, H3. cbn [mbind option_bind]. f_equal.
  assert (Ht : take 4 (drop i m) = [x0; x1; x2; x3]).
  { rewrite (drop_S _ _ _ H0). replace (S i) with (i + 1)%nat by lia. rewrite (drop_S _ _ _ H1).
    replace (S (i + 1)) with (i + 2)%nat by lia. rewrite (drop_S _ _ _ H2).
    replace (S (i + 2)) with (i + 3)%nat by lia. by rewrite (drop_S _ _ _ H3). }
  rewrite (bool_decide_ext (matches _ _ _) ([x0; x1; x2; x3] = [c0; c1; c2; c3])) by (unfold matches; simpl length; by rewrite Ht).
  apply pack_eqb; try done; by eapply (Forall_lookup_1 _ _ _ _ Hm).
Qed.

(** A macro is the conjunction of the comparisons of the pieces of the constant. *)
Ltac compare_pieces :=
  lazymatch goal with
  | |- andc _ (eqc _ ?i ?c) = Some (bool_decide (matches _ 0 ?l)) =>
      let a := eval cbn in (take i l) in
      change l with (a ++ [c]); apply andc_matches; [compare_pieces|apply eqc_matches; simpl; lia]
  | |- andc _ (pack4 _ ?i ?c0 ?c1 ?c2 ?c3) = Some (bool_decide (matches _ 0 ?l)) =>
      let a := eval cbn in (take i l) in
      change l with (a ++ [c0; c1; c2; c3]); apply andc_matches; [compare_pieces|apply pack4_matches; done || (simpl; lia)]
  | |- eqc _ _ _ = _ => apply eqc_matches; simpl; lia
  | |- pack4 _ _ _ _ _ _ = _ => apply pack4_matches; done || (simpl; lia)
  end.

(** The macros str2cmp to str12cmp, for a constant of ASCII characters, compare
    exactly the first characters of [m], whether char is signed or not and whatever
    bytes [m] has. *)
Theorem strcmp_macros (m cs : list Z) :
  (2 <= length cs <= 12)%nat -> (length cs <= length m)%nat -> Forall promoted m -> Forall ascii cs ->
  strcmp_macro m cs = Some (bool_decide (take (length cs) m = cs)).
Proof.
  intros Hl Hm Pm Ac. transitivity (Some (bool_decide (matches m 0 cs))).
  2: { reflexivity. }
  destruct cs as [|c0 [|c1 [|c2 [|c3 [|c4 [|c5 [|c6 [|c7 [|c8 [|c9 [|c10 [|c11 [|c12 cs]]]]]]]]]]]]]; simpl in Hl, Hm; try lia;
    repeat match goal with H : Forall ascii (_ :: _) |- _ => apply Forall_cons in H as [? H] end;
    cbn [strcmp_macro];
    unfold str12cmp, str11cmp, str10cmp, str9cmp, str8cmp, str7cmp, str6cmp, str5cmp, str4cmp, str3cmp, str2cmp;
    compare_pieces.
Qed.

Lemma strcmp_macros_witness : strcmp_macro [103; 101; 116; -30; 32] [103; 101; 116; 32] = Some false.
Proof.
  rewrite (strcmp_macros [103; 101; 116; -30; 32] [103; 101; 116; 32]).
  - reflexivity.
  - simpl. lia.
  - simpl. lia.
  - unfold promoted. repeat constructor; lia.
  - unfold ascii. repeat constructor; lia.
Defined.

(** A constant that ends in the byte 255, where char is signed, matches any four
    characters that end so. *)
Example str4cmp_non_ascii : str4cmp [1; 2; 3; -1] 97 98 99 (-1) = Some true.
Proof. reflexivity. Qed.

(** ** Variance *)

(** For integer sums whose squares stay below 2^53 and whose quotients are exact,
    the variance is the exact one. *)
Lemma var_exact s s2 n v :
  2 <= n < 2 ^ 53 -> Z.abs (s * s) < 2 ^ 53 -> Z.abs s2 < 2 ^ 53 -> (s2 * n - s * s) = v * (n - 1) * n ->
  (n | s * s) -> Z.abs (v * (n - 1)) < 2 ^ 53 -> is_int (VAR (dbl s) (dbl s2) n) v.
Proof.
  intros Hn Hs Hs2 Hv [m Hm] Hd. unfold VAR. rewrite (proj2 (Z.ltb_ge _ _)) by lia.
  assert (Hmb : Z.abs m < 2 ^ 53) by nia.
  assert (H1 : is_int (ddiv (SQUARE (dbl s)) (dbl n)) m).
  { apply (ddiv_int _ _ _ n); [|apply dbl_int; lia|lia]. rewrite <- Hm. apply dmul_int; [apply dbl_int; nia|apply dbl_int; nia|done]. }
  apply (ddiv_int _ _ _ (n - 1)); [|apply dbl_int; lia|lia].
  replace (v * (n - 1)) with (s2 - m) in * by nia. apply dsub_int; [by apply dbl_int|done|done].
Qed.

(** Equal samples have variance and deviation 0, while the square of their sum is
    below 2^53. *)
Lemma stddev_equal n x : 2 <= n < 2 ^ 53 -> (n * x) * (n * x) < 2 ^ 53 ->
  exists a, VAR (dbl (n * x)) (dbl (n * x * x)) n = S754_zero a /\ STDDEV (dbl (n * x)) (dbl (n * x * x)) n = S754_zero a.
Proof.
  intros Hn Hb. destruct (var_exact (n * x) (n * x * x) n 0) as [_ [a Ha]]; [lia|nia|nia|ring| |done|].
  - exists (n * x * x). ring.
  - exists a. split; [done|]. unfold STDDEV. rewrite (proj2 (Z.ltb_ge _ _)) by lia. by rewrite Ha.
Qed.

(** Beyond that, rounding makes the variance of equal samples negative, and the
    deviation is not a number: three samples of 94906267. *)
Lemma stddev_nan :
  let x := 94906267 in let s := dadd (dadd (dbl x) (dbl x)) (dbl x) in
  let q := dmul (dbl x) (dbl x) in let s2 := dadd (dadd q q) q in
  VAR s s2 3 = dbl (-2) /\ STDDEV s s2 3 = S754_nan.
Proof. split; reflexivity. Qed.
