(* ===== verification/Murmur3.v ===== *)
(** * MurmurHash3 (include/hash/cc_murmur3.h, src/hash/cc_murmur3.c)

    The three hash functions over the bytes at [key]; blocks are read in the
    byte order of x86.  [None] is a read outside the key, or the loop of the
    32-bit variants run with a negative block count (its counter then moves away
    from 0).  A fall-through switch is a sequence of conditionals on the number
    of tail bytes; tail[i] << 24, an int in the source, is taken with the
    two's complement result that its conversion to uint32_t gives. *)

From S2P Require Import Prelude Words.
Local Open Scope Z_scope.

Definition rotl32 (x r : Z) : Z := Z.lor (u32 (Z.shiftl x r)) (Z.shiftr x (32 - r)).
Definition rotl64 (x r : Z) : Z := Z.lor (u64 (Z.shiftl x r)) (Z.shiftr x (64 - r)).

(** p[i], with p the address of [key] plus [off] bytes. *)
Definition getblock32 (key : list byte) (off i : Z) : option Z :=
  bs ← memread key (off + 4 * i) 4; Some (le bs).
Definition getblock64 (key : list byte) (off i : Z) : option Z :=
  bs ← memread key (off + 8 * i) 8; Some (le bs).

Definition fmix32 (h : Z) : Z :=
  let h := Z.lxor h (Z.shiftr h 16) in
  let h := u32 (h * 2246822507) in
  let h := Z.lxor h (Z.shiftr h 13) in
  let h := u32 (h * 3266489909) in
  Z.lxor h (Z.shiftr h 16).

Definition fmix64 (k : Z) : Z :=
  let k := Z.lxor k (Z.shiftr k 33) in
  let k := u64 (k * 18397679294719823053) in
  let k := Z.lxor k (Z.shiftr k 33) in
  let k := u64 (k * 14181476777654086739) in
  Z.lxor k (Z.shiftr k 33).

(** k1 *= c1; k1 = ROTL32(k1,r); k1 *= c2; *)
Definition scramble32 (c1 c2 r k : Z) : Z := u32 (rotl32 (u32 (k * c1)) r * c2).
Definition scramble64 (c1 c2 r k : Z) : Z := u64 (rotl64 (u64 (k * c1)) r * c2).

(** tail[i] << s, xored into k when the tail has at least [n] bytes. *)
Definition tail_byte (key : list byte) (tail rem n i s k : Z) : option Z :=
  if n <=? rem then
    bs ← memread key (tail + i) 1; Some (Z.lxor k (Z.shiftl (le bs) s))
  else Some k.

(** *** 32 bits *)

Definition C1 : Z := 3432918353.
Definition C2 : Z := 461845907.

Definition block32 (h1 k1 : Z) : Z :=
  let h1 := Z.lxor h1 (scramble32 C1 C2 15 k1) in
  u32 (rotl32 h1 13 * 5 + 3864292196).

(** for (i = -n; i; i++), [blocks] being at [off]. *)
Fixpoint body32 (key : list byte) (off : Z) (n : nat) (h1 : Z) : option Z :=
  match n with
  | O => Some h1
  | S n' =>
      k1 ← getblock32 key off (- Z.of_nat n);
      body32 key off n' (block32 h1 k1)
  end.

Definition hash_murmur3_32 (key : list byte) (len seed : Z) : option Z :=
  let nblocks := Z.quot len 4 in
  if nblocks <? 0 then None else
  h1 ← body32 key (nblocks * 4) (Z.to_nat nblocks) seed;
  let tail := nblocks * 4 in
  let rem := Z.land len 3 in
  k1 ← tail_byte key tail rem 3 2 16 0;
  k1 ← tail_byte key tail rem 2 1 8 k1;
  k1 ← tail_byte key tail rem 1 0 0 k1;
  let h1 := if 1 <=? rem then Z.lxor h1 (scramble32 C1 C2 15 k1) else h1 in
  Some (fmix32 (Z.lxor h1 (u32 len))).

(** *** 128 bits, 32-bit words *)

Definition X1 : Z := 597399067.
Definition X2 : Z := 2869860233.
Definition X3 : Z := 951274213.
Definition X4 : Z := 2716044179.

Definition block_x86 (h : Z * Z * Z * Z) (k1 k2 k3 k4 : Z) : Z * Z * Z * Z :=
  let '(h1, h2, h3, h4) := h in
  let h1 := Z.lxor h1 (scramble32 X1 X2 15 k1) in
  let h1 := u32 (u32 (rotl32 h1 19 + h2) * 5 + 1444728091) in
  let h2 := Z.lxor h2 (scramble32 X2 X3 16 k2) in
  let h2 := u32 (u32 (rotl32 h2 17 + h3) * 5 + 197830471) in
  let h3 := Z.lxor h3 (scramble32 X3 X4 17 k3) in
  let h3 := u32 (u32 (rotl32 h3 15 + h4) * 5 + 2530024501) in
  let h4 := Z.lxor h4 (scramble32 X4 X1 18 k4) in
  let h4 := u32 (u32 (rotl32 h4 13 + h1) * 5 + 850148119) in
  (h1, h2, h3, h4).

Fixpoint body_x86 (key : list byte) (off : Z) (n : nat) (h : Z * Z * Z * Z)
  : option (Z * Z * Z * Z) :=
  match n with
  | O => Some h
  | S n' =>
      let i := - Z.of_nat n in
      k1 ← getblock32 key off (i * 4 + 0);
      k2 ← getblock32 key off (i * 4 + 1);
      k3 ← getblock32 key off (i * 4 + 2);
      k4 ← getblock32 key off (i * 4 + 3);
      body_x86 key off n' (block_x86 h k1 k2 k3 k4)
  end.

(** h1 += h2; h1 += h3; h1 += h4; h2 += h1; h3 += h1; h4 += h1; *)
Definition spread_x86 (h : Z * Z * Z * Z) : Z * Z * Z * Z :=
  let '(h1, h2, h3, h4) := h in
  let h1 := u32 (u32 (u32 (h1 + h2) + h3) + h4) in
  (h1, u32 (h2 + h1), u32 (h3 + h1), u32 (h4 + h1)).

Definition hash_murmur3_128_x86 (key : list byte) (len seed : Z) : option (Z * Z * Z * Z) :=
  let nblocks := Z.quot len 16 in
  if nblocks <? 0 then None else
  '(h1, h2, h3, h4) ← body_x86 key (nblocks * 16) (Z.to_nat nblocks) (seed, seed, seed, seed);
  let t := nblocks * 16 in
  let rem := Z.land len 15 in
  k4 ← tail_byte key t rem 15 14 16 0;
  k4 ← tail_byte key t rem 14 13 8 k4;
  k4 ← tail_byte key t rem 13 12 0 k4;
  let h4 := if 13 <=? rem then Z.lxor h4 (scramble32 X4 X1 18 k4) else h4 in
  k3 ← tail_byte key t rem 12 11 24 0;
  k3 ← tail_byte key t rem 11 10 16 k3;
  k3 ← tail_byte key t rem 10 9 8 k3;
  k3 ← tail_byte key t rem 9 8 0 k3;
  let h3 := if 9 <=? rem then Z.lxor h3 (scramble32 X3 X4 17 k3) else h3 in
  k2 ← tail_byte key t rem 8 7 24 0;
  k2 ← tail_byte key t rem 7 6 16 k2;
  k2 ← tail_byte key t rem 6 5 8 k2;
  k2 ← tail_byte key t rem 5 4 0 k2;
  let h2 := if 5 <=? rem then Z.lxor h2 (scramble32 X2 X3 16 k2) else h2 in
  k1 ← tail_byte key t rem 4 3 24 0;
  k1 ← tail_byte key t rem 3 2 16 k1;
  k1 ← tail_byte key t rem 2 1 8 k1;
  k1 ← tail_byte key t rem 1 0 0 k1;
  let h1 := if 1 <=? rem then Z.lxor h1 (scramble32 X1 X2 15 k1) else h1 in
  let n := u32 len in
  let '(h1, h2, h3, h4) := spread_x86 (Z.lxor h1 n, Z.lxor h2 n, Z.lxor h3 n, Z.lxor h4 n) in
  Some (spread_x86 (fmix32 h1, fmix32 h2, fmix32 h3, fmix32 h4)).

(** *** 128 bits, 64-bit words *)

Definition Y1 : Z := 9782798678568883157.
Definition Y2 : Z := 5545529020109919103.

Definition block_x64 (h : Z * Z) (k1 k2 : Z) : Z * Z :=
  let '(h1, h2) := h in
  let h1 := Z.lxor h1 (scramble64 Y1 Y2 31 k1) in
  let h1 := u64 (u64 (rotl64 h1 27 + h2) * 5 + 1390208809) in
  let h2 := Z.lxor h2 (scramble64 Y2 Y1 33 k2) in
  let h2 := u64 (u64 (rotl64 h2 31 + h1) * 5 + 944331445) in
  (h1, h2).

(** for (i = 0; i < nblocks; i++) *)
Fixpoint body_x64 (key : list byte) (i : Z) (n : nat) (h : Z * Z) : option (Z * Z) :=
  match n with
  | O => Some h
  | S n =>
      k1 ← getblock64 key 0 (i * 2 + 0);
      k2 ← getblock64 key 0 (i * 2 + 1);
      body_x64 key (i + 1) n (block_x64 h k1 k2)
  end.

Definition spread_x64 (h : Z * Z) : Z * Z :=
  let '(h1, h2) := h in let h1 := u64 (h1 + h2) in (h1, u64 (h2 + h1)).

Definition hash_murmur3_128_x64 (key : list byte) (len seed : Z) : option (Z * Z) :=
  let nblocks := Z.quot len 16 in
  '(h1, h2) ← body_x64 key 0 (Z.to_nat nblocks) (seed, seed);
  let t := nblocks * 16 in
  let rem := Z.land len 15 in
  k2 ← tail_byte key t rem 15 14 48 0;
  k2 ← tail_byte key t rem 14 13 40 k2;
  k2 ← tail_byte key t rem 13 12 32 k2;
  k2 ← tail_byte key t rem 12 11 24 k2;
  k2 ← tail_byte key t rem 11 10 16 k2;
  k2 ← tail_byte key t rem 10 9 8 k2;
  k2 ← tail_byte key t rem 9 8 0 k2;
  let h2 := if 9 <=? rem then Z.lxor h2 (scramble64 Y2 Y1 33 k2) else h2 in
  k1 ← tail_byte key t rem 8 7 56 0;
  k1 ← tail_byte key t rem 7 6 48 k1;
  k1 ← tail_byte key t rem 6 5 40 k1;
  k1 ← tail_byte key t rem 5 4 32 k1;
  k1 ← tail_byte key t rem 4 3 24 k1;
  k1 ← tail_byte key t rem 3 2 16 k1;
  k1 ← tail_byte key t rem 2 1 8 k1;
  k1 ← tail_byte key t rem 1 0 0 k1;
  let h1 := if 1 <=? rem then Z.lxor h1 (scramble64 Y1 Y2 31 k1) else h1 in
  let n := u64 len in
  let '(h1, h2) := spread_x64 (Z.lxor h1 n, Z.lxor h2 n) in
  Some (spread_x64 (fmix64 h1, fmix64 h2)).

(** ** What the functions compute

    The key is cut into blocks of [size] bytes; each block is a little-endian
    number per word, absorbed into the state; what is left, padded with zeros,
    is xored into the state without the block's final mix. *)

Definition word (w : Z) (bs : list byte) (j : Z) : Z := le (slice bs (w * j) w).

Fixpoint absorb {H} (f : H -> list byte -> H) (size : Z) (n : nat) (o : Z) (h : H) (bs : list byte) : H :=
  match n with
  | O => h
  | S n => absorb f size n (o + size) (f h (slice bs o size)) bs
  end.

Definition murmur3_32 (bs : list byte) (seed : Z) : Z :=
  let n := zlen bs / 4 in
  let h := absorb (fun h b => block32 h (word 4 b 0)) 4 (Z.to_nat n) 0 seed bs in
  let b := slice bs (n * 4) 4 in
  fmix32 (Z.lxor (Z.lxor h (scramble32 C1 C2 15 (word 4 b 0))) (u32 (zlen bs))).

Definition murmur3_128_x86 (bs : list byte) (seed : Z) : Z * Z * Z * Z :=
  let n := zlen bs / 16 in
  let '(h1, h2, h3, h4) :=
    absorb (fun h b => block_x86 h (word 4 b 0) (word 4 b 1) (word 4 b 2) (word 4 b 3))
      16 (Z.to_nat n) 0 (seed, seed, seed, seed) bs in
  let b := slice bs (n * 16) 16 in
  let fin h k := Z.lxor (Z.lxor h k) (u32 (zlen bs)) in
  let '(h1, h2, h3, h4) := spread_x86
    (fin h1 (scramble32 X1 X2 15 (word 4 b 0)), fin h2 (scramble32 X2 X3 16 (word 4 b 1)),
     fin h3 (scramble32 X3 X4 17 (word 4 b 2)), fin h4 (scramble32 X4 X1 18 (word 4 b 3))) in
  spread_x86 (fmix32 h1, fmix32 h2, fmix32 h3, fmix32 h4).

Definition murmur3_128_x64 (bs : list byte) (seed : Z) : Z * Z :=
  let n := zlen bs / 16 in
  let '(h1, h2) :=
    absorb (fun h b => block_x64 h (word 8 b 0) (word 8 b 1)) 16 (Z.to_nat n) 0 (seed, seed) bs in
  let b := slice bs (n * 16) 16 in
  let fin h k := Z.lxor (Z.lxor h k) (u64 (zlen bs)) in
  let '(h1, h2) := spread_x64
    (fin h1 (scramble64 Y1 Y2 31 (word 8 b 0)), fin h2 (scramble64 Y2 Y1 33 (word 8 b 1))) in
  spread_x64 (fmix64 h1, fmix64 h2).

(** ** Block and tail reads *)

Section Read.
Variables (key : list byte) (len : Z).
Hypothesis Hbytes : Forall (fun b => 0 <= b < 256) key.
Hypothesis Hlen : 0 <= len <= zlen key.

Lemma word_block o s w j :
  0 <= o -> 0 <= w -> 0 <= j -> w * j + w <= s -> o + s <= len ->
  word w (slice (slice key 0 len) o s) j = le (slice key (o + w * j) w).
Proof.
  intros. unfold word. rewrite !slice_slice by nia. do 2 f_equal. nia.
Qed.

Lemma word_tail t s w j :
  0 <= t -> 0 <= w -> 0 <= j -> len - t <= s ->
  word w (slice (slice key 0 len) t s) j =
  le (slice key (t + w * j) (Z.min (len - t) (w * j + w) - w * j)).
Proof. intros. unfold word. rewrite !slice_slice by nia. do 2 f_equal. nia. Qed.

Lemma getblock32_at off i :
  0 <= off + 4 * i -> off + 4 * i + 4 <= zlen key ->
  getblock32 key off i = Some (le (slice key (off + 4 * i) 4)).
Proof. intros. unfold getblock32. by rewrite (memread_some key (off + 4 * i) 4) by lia. Qed.

Lemma getblock64_at off i :
  0 <= off + 8 * i -> off + 8 * i + 8 <= zlen key ->
  getblock64 key off i = Some (le (slice key (off + 8 * i) 8)).
Proof. intros. unfold getblock64. by rewrite (memread_some key (off + 8 * i) 8) by lia. Qed.

Lemma slice_cons o n :
  0 <= o -> 0 < n -> o + n <= zlen key ->
  exists b, 0 <= b < 256 /\ slice key o 1 = [b] /\ slice key o n = b :: slice key (o + 1) (n - 1).
Proof.
  intros Ho Hn Hk. destruct (slice key o 1) as [|b [|c l]] eqn:E.
  1,3: pose proof (zlen_slice key o 1 ltac:(lia) ltac:(lia) ltac:(lia)) as H; rewrite E in H; unfold zlen in H; simpl in H; lia.
  exists b. split; [|split; [done|]].
  - assert (Hf : Forall (fun b => 0 <= b < 256) (slice key o 1)) by by apply Forall_take, Forall_drop.
    rewrite E in Hf. by inversion Hf.
  - replace n with (1 + (n - 1)) at 1 by lia. by rewrite slice_split, E by lia.
Qed.

(** One case of the tail switch: the bytes from [i] on, up to [e], shifted by [s]. *)
Lemma tail_step t top n i s k :
  n = i + 1 -> 0 <= t -> 0 <= i < top -> 0 <= s -> t <= len ->
  k = Z.shiftl (le (slice key (t + n) (Z.min (len - t) top - n))) (s + 8) ->
  tail_byte key t (len - t) n i s k =
  Some (Z.shiftl (le (slice key (t + i) (Z.min (len - t) top - i))) s).
Proof.
  intros -> Ht Hi Hs Htl ->. set (e := Z.min _ _). unfold tail_byte. destruct (Z.leb_spec (i + 1) (len - t)).
  - destruct (slice_cons (t + i) (e - i)) as (b & Hb & E1 & E); [lia..|].
    rewrite (memread_some key (t + i) 1), E1, E by lia. simpl.
    rewrite Z.add_0_r.
    replace (t + i + 1) with (t + (i + 1)) by lia. replace (e - i - 1) with (e - (i + 1)) by lia.
    rewrite (Z.add_comm s 8), <- (Z.shiftl_shiftl _ 8 s), <- Z.shiftl_lxor by lia.
    by rewrite lxor_low.
  - rewrite !slice_neg by lia. simpl. by rewrite !Z.shiftl_0_l.
Qed.

Lemma tail_start t top o s :
  Z.min (len - t) top <= o -> 0 = Z.shiftl (le (slice key (t + o) (Z.min (len - t) top - o))) s.
Proof. intros. rewrite slice_neg by lia. simpl. by rewrite Z.shiftl_0_l. Qed.

(** *** The loops *)

Lemma body32_spec nb n h :
  nb * 4 <= len -> Z.of_nat n <= nb ->
  body32 key (nb * 4) n h =
  Some (absorb (fun h b => block32 h (word 4 b 0)) 4 n ((nb - Z.of_nat n) * 4) h (slice key 0 len)).
Proof.
  revert h. induction n as [|n IH]; intros h Hb Hn; [done|]. cbn [body32 absorb].
  rewrite getblock32_at by lia. cbn. rewrite IH by lia.
  rewrite word_block by lia. repeat (lia || f_equal).
Qed.

Lemma body_x86_spec nb n h :
  nb * 16 <= len -> Z.of_nat n <= nb ->
  body_x86 key (nb * 16) n h =
  Some (absorb (fun h b => block_x86 h (word 4 b 0) (word 4 b 1) (word 4 b 2) (word 4 b 3))
          16 n ((nb - Z.of_nat n) * 16) h (slice key 0 len)).
Proof.
  revert h. induction n as [|n IH]; intros h Hb Hn; [done|]. cbn [body_x86 absorb].
  rewrite !getblock32_at by lia. cbn. rewrite IH by lia.
  rewrite !word_block by lia. repeat (lia || f_equal).
Qed.

Lemma body_x64_spec i n h :
  0 <= i -> (i + Z.of_nat n) * 16 <= len ->
  body_x64 key i n h =
  Some (absorb (fun h b => block_x64 h (word 8 b 0) (word 8 b 1)) 16 n (i * 16) h (slice key 0 len)).
Proof.
  revert i h. induction n as [|n IH]; intros i h Hi Hn; [done|]. cbn [body_x64 absorb].
  rewrite !getblock64_at by lia. cbn. rewrite IH by lia.
  rewrite !word_block by lia. repeat (lia || f_equal).
Qed.

End Read.

Lemma scramble32_0 a b r : 0 <= r <= 32 -> scramble32 a b r 0 = 0.
Proof. intros. unfold scramble32, rotl32. simpl. by rewrite !Z.shiftl_0_l, Z.shiftr_0_l. Qed.

Lemma scramble64_0 a b r : 0 <= r <= 64 -> scramble64 a b r 0 = 0.
Proof. intros. unfold scramble64, rotl64. simpl. by rewrite !Z.shiftl_0_l, Z.shiftr_0_l. Qed.

Section Spec.
Variables (key : list byte) (len seed : Z).
Hypothesis Hbytes : Forall (fun b => 0 <= b < 256) key.
Hypothesis Hlen : 0 <= len <= zlen key.

(** Run the cases of the switch that assemble the word ending at byte [top]. *)
Ltac tail_word top :=
  repeat match goal with
  | |- context [tail_byte ?key ?t ?rem ?n ?i ?s ?k] =>
      assert_succeeds (assert (i < top) by lia);
      rewrite (tail_step key len Hbytes Hlen t top n i s k);
      [cbn [mbind option_bind]|lia|lia|lia|lia|lia|first [apply tail_start; lia|reflexivity]]
  end.

(** The last xor is skipped exactly when the word has no byte. *)
Lemma tail_xor32 h a b r n t o e :
  0 <= r <= 32 -> (len - t < n -> e <= o) ->
  (if n <=? len - t then Z.lxor h (scramble32 a b r (Z.shiftl (le (slice key (t + o) (e - o))) 0))
   else h) = Z.lxor h (scramble32 a b r (le (slice key (t + o) (e - o)))).
Proof.
  intros Hr H2. rewrite Z.shiftl_0_r. destruct (Z.leb_spec n (len - t)); [done|].
  rewrite slice_neg by lia. simpl. by rewrite scramble32_0, Z.lxor_0_r.
Qed.

Lemma tail_xor64 h a b r n t o e :
  0 <= r <= 64 -> (len - t < n -> e <= o) ->
  (if n <=? len - t then Z.lxor h (scramble64 a b r (Z.shiftl (le (slice key (t + o) (e - o))) 0))
   else h) = Z.lxor h (scramble64 a b r (le (slice key (t + o) (e - o)))).
Proof.
  intros Hr H2. rewrite Z.shiftl_0_r. destruct (Z.leb_spec n (len - t)); [done|].
  rewrite slice_neg by lia. simpl. by rewrite scramble64_0, Z.lxor_0_r.
Qed.

Lemma blocks_range m : 0 < m -> 0 <= len / m * m <= len /\ len < len / m * m + m.
Proof.
  intros. pose proof (Z.div_mod len m). pose proof (Z.mod_pos_bound len m).
  pose proof (Z.div_pos len m). nia.
Qed.

Lemma hash_32_ref :
  hash_murmur3_32 key len seed = Some (murmur3_32 (slice key 0 len) seed).
Proof.
  unfold hash_murmur3_32, murmur3_32. rewrite zlen_slice, Z.quot_div_nonneg by lia.
  change (Z.land len 3) with (Z.land len (2 ^ 2 - 1)). rewrite land_mask by lia. change (2 ^ 2) with 4.
  pose proof (blocks_range 4 ltac:(lia)).
  rewrite (proj2 (Z.ltb_ge _ _)) by lia. rewrite (body32_spec key len Hlen) by lia. cbn [mbind option_bind].
  rewrite Z2Nat.id, Z.sub_diag by lia. set (t := len / 4 * 4) in *. clearbody t.
  tail_word 4.
  rewrite (word_tail key len) by lia.
  by rewrite (tail_xor32 _ _ _ _ _ t 0 (Z.min (len - t) 4)) by lia.
Qed.

Lemma hash_x86_ref :
  hash_murmur3_128_x86 key len seed = Some (murmur3_128_x86 (slice key 0 len) seed).
Proof.
  unfold hash_murmur3_128_x86, murmur3_128_x86. rewrite zlen_slice, Z.quot_div_nonneg by lia.
  change (Z.land len 15) with (Z.land len (2 ^ 4 - 1)). rewrite land_mask by lia. change (2 ^ 4) with 16.
  pose proof (blocks_range 16 ltac:(lia)).
  rewrite (proj2 (Z.ltb_ge _ _)) by lia. rewrite (body_x86_spec key len Hlen) by lia. cbn [mbind option_bind].
  rewrite Z2Nat.id, Z.sub_diag by lia. set (t := len / 16 * 16) in *. clearbody t.
  destruct (absorb _ _ _ _ _ _) as [[[h1 h2] h3] h4].
  tail_word 16. tail_word 12. tail_word 8. tail_word 4.
  rewrite !(word_tail key len) by lia. simpl (4 * _). simpl (_ + 4).
  rewrite (tail_xor32 _ _ _ _ _ t 12 (Z.min (len - t) 16)), (tail_xor32 _ _ _ _ _ t 8 (Z.min (len - t) 12)),
    (tail_xor32 _ _ _ _ _ t 4 (Z.min (len - t) 8)), (tail_xor32 _ _ _ _ _ t 0 (Z.min (len - t) 4)) by lia.
  by destruct (spread_x86 _) as [[[? ?] ?] ?].
Qed.

Lemma hash_x64_ref :
  hash_murmur3_128_x64 key len seed = Some (murmur3_128_x64 (slice key 0 len) seed).
Proof.
  unfold hash_murmur3_128_x64, murmur3_128_x64. rewrite zlen_slice, Z.quot_div_nonneg by lia.
  change (Z.land len 15) with (Z.land len (2 ^ 4 - 1)). rewrite land_mask by lia. change (2 ^ 4) with 16.
  pose proof (blocks_range 16 ltac:(lia)).
  rewrite (body_x64_spec key len Hlen) by lia. cbn [mbind option_bind]. simpl (0 * 16).
  set (t := len / 16 * 16) in *. clearbody t. destruct (absorb _ _ _ _ _ _) as [h1 h2].
  tail_word 16. tail_word 8.
  rewrite !(word_tail key len) by lia. simpl (8 * _). simpl (_ + 8).
  rewrite (tail_xor64 _ _ _ _ _ t 8 (Z.min (len - t) 16)), (tail_xor64 _ _ _ _ _ t 0 (Z.min (len - t) 8)) by lia.
  by destruct (spread_x64 _).
Qed.

End Spec.

(** ** The mixing steps are one-to-one *)

Section Inj.

Abbreviation W32 x := (0 <= x < 2 ^ 32).

Lemma u32_W x : W32 (u32 x).
Proof. apply (mod_range 32). lia. Qed.

Lemma fmix32_inj x y : W32 x -> W32 y -> fmix32 x = fmix32 y -> x = y.
Proof.
  intros Hx Hy. unfold fmix32, u32. change 4294967296 with (2 ^ 32). intros H.
  pose proof (xorshift_range 32 16 x ltac:(lia) ltac:(lia) Hx).
  pose proof (xorshift_range 32 16 y ltac:(lia) ltac:(lia) Hy).
  apply xorshift_inj in H; [|lia|apply mod_range; lia..].
  apply (mul_inj 32 3266489909 2127672349) in H; [|lia|done|..];
    try (apply xorshift_range; [lia|lia|apply mod_range; lia]).
  apply xorshift_inj in H; [|lia|apply mod_range; lia..].
  apply (mul_inj 32 2246822507 2781581891) in H; [|lia|done|done|done].
  apply xorshift_inj in H; lia.
Qed.

Lemma scramble32_W a b r k : W32 (scramble32 a b r k).
Proof. apply u32_W. Qed.

Lemma scramble32_inj x y :
  W32 x -> W32 y -> scramble32 C1 C2 15 x = scramble32 C1 C2 15 y -> x = y.
Proof.
  intros Hx Hy H.
  apply (mul_inj 32 C2 1458385051) in H; [|lia|done|apply (rot_range 32); [lia|apply u32_W]..].
  apply (rot_inj 32 15) in H; [|lia|apply u32_W..].
  by apply (mul_inj 32 C1 3739302833) in H.
Qed.

Lemma block32_W h k : W32 (block32 h k).
Proof. apply u32_W. Qed.

Lemma block32_step x y :
  W32 x -> W32 y -> u32 (rotl32 x 13 * 5 + 3864292196) = u32 (rotl32 y 13 * 5 + 3864292196) -> x = y.
Proof.
  intros Hx Hy H. unfold u32 in H.
  rewrite <- (Zplus_mod_idemp_l (rotl32 x 13 * 5)), <- (Zplus_mod_idemp_l (rotl32 y 13 * 5)) in H.
  apply (add_inj 32) in H; [|lia|apply u32_W..].
  apply (mul_inj 32 5 3435973837) in H; [|lia|done|by apply (rot_range 32); [lia|]..].
  by apply (rot_inj 32 13) in H.
Qed.

Lemma block32_inj_h h h' k : W32 h -> W32 h' -> block32 h k = block32 h' k -> h = h'.
Proof.
  intros Hh Hh' H. apply block32_step in H; [|apply lxor_range; [lia|done|apply u32_W]..].
  by apply lxor_inj_r in H.
Qed.

Lemma block32_inj_k h k k' : W32 h -> W32 k -> W32 k' -> block32 h k = block32 h k' -> k = k'.
Proof.
  intros Hh Hk Hk' H. apply block32_step in H; [|apply lxor_range; [lia|done|apply u32_W]..].
  apply lxor_inj_l in H. by apply scramble32_inj in H.
Qed.

Lemma le_W bs : zlen bs <= 4 -> Forall (fun b => 0 <= b < 256) bs -> W32 (le bs).
Proof.
  intros Hl H%le_range. assert (2 ^ (8 * zlen bs) <= 2 ^ 32); [|lia]. apply Z.pow_le_mono_r; lia.
Qed.

Lemma le_inj xs ys :
  length xs = length ys -> Forall (fun b => 0 <= b < 256) xs -> Forall (fun b => 0 <= b < 256) ys ->
  le xs = le ys -> xs = ys.
Proof.
  revert ys. induction xs as [|x xs IH]; intros [|y ys] Hl Hx Hy H; try done.
  apply Forall_cons in Hx as [? ?]. apply Forall_cons in Hy as [? ?]. cbn in H, Hl.
  assert (x = y) by lia. f_equal; [done|]. apply IH; [lia|done..|lia].
Qed.

(** The state of the 32-bit hash before finalization. *)
Definition st32 (h : Z) (bs : list byte) : Z :=
  Z.lxor (absorb (fun h b => block32 h (word 4 b 0)) 4 (Z.to_nat (zlen bs / 4)) 0 h bs)
    (scramble32 C1 C2 15 (word 4 (slice bs (zlen bs / 4 * 4) 4) 0)).

Lemma absorb_shift {H} (f : H -> list byte -> H) sz n o h a bs :
  0 <= o -> 0 <= sz -> absorb f sz n (zlen a + o) h (a ++ bs) = absorb f sz n o h bs.
Proof.
  revert o h. induction n as [|n IH]; intros o h Ho Hs; [done|]. cbn.
  rewrite slice_app_r, <- Z.add_assoc by done. apply IH; lia.
Qed.

Lemma word_le b : zlen b <= 4 -> word 4 b 0 = le b.
Proof. intros. unfold word, slice. f_equal. apply take_ge. unfold zlen in *. lia. Qed.

Lemma st32_step h b bs : zlen b = 4 -> st32 h (b ++ bs) = st32 (block32 h (le b)) bs.
Proof.
  intros Hb. unfold st32. pose proof (zlen_nonneg bs).
  assert (zlen (b ++ bs) / 4 = 1 + zlen bs / 4) as -> by (rewrite zlen_app, Hb; mlia).
  rewrite Z2Nat.inj_add by mlia. change (Z.to_nat 1) with 1%nat. cbn [Nat.add absorb].
  assert (slice (b ++ bs) 0 4 = b) as ->.
  { rewrite <- Hb. unfold slice, zlen. rewrite Nat2Z.id. apply take_app_length. }
  rewrite word_le by lia. f_equal.
  - rewrite <- (absorb_shift _ _ _ 0 _ b) by lia. by rewrite Hb.
  - rewrite <- (slice_app_r b bs (zlen bs / 4 * 4)), Hb by mlia.
    by replace ((1 + zlen bs / 4) * 4) with (4 + zlen bs / 4 * 4) by lia.
Qed.

Lemma st32_short h bs : zlen bs < 4 -> st32 h bs = Z.lxor h (scramble32 C1 C2 15 (le bs)).
Proof.
  intros Hl. unfold st32. pose proof (zlen_nonneg bs). rewrite Z.div_small by lia. cbn [Z.to_nat absorb].
  assert (slice bs (0 * 4) 4 = bs) as ->; [|by rewrite word_le by lia].
  unfold slice, zlen in *. simpl. apply take_ge. lia.
Qed.

(** Cut a key into 4-byte blocks and a tail. *)
Lemma chunk_ind (P : list byte -> Prop) :
  (forall bs, zlen bs < 4 -> P bs) -> (forall b bs, zlen b = 4 -> P bs -> P (b ++ bs)) -> forall bs, P bs.
Proof.
  intros H0 HS bs. induction bs as [bs IH] using (induction_ltof1 _ (@length Z)).
  destruct (Z_lt_le_dec (zlen bs) 4); [by apply H0|].
  rewrite <- (take_drop 4 bs). apply HS.
  - unfold zlen in *. rewrite length_take. lia.
  - apply IH. unfold ltof, zlen in *. rewrite length_drop. lia.
Qed.

Lemma st32_W bs : forall h, W32 h -> W32 (st32 h bs).
Proof.
  induction bs as [bs Hl|b bs Hb IH] using chunk_ind; intros h Hh.
  - rewrite st32_short by done. apply lxor_range; [lia|done|apply u32_W].
  - rewrite st32_step by done. apply IH, u32_W.
Qed.

Lemma st32_inj bs : forall h h', W32 h -> W32 h' -> st32 h bs = st32 h' bs -> h = h'.
Proof.
  induction bs as [bs Hl|b bs Hb IH] using chunk_ind; intros h h' Hh Hh' H.
  - rewrite !st32_short in H by done. by apply lxor_inj_r in H.
  - rewrite !st32_step in H by done. apply IH in H; [|apply u32_W..]. by apply block32_inj_h in H.
Qed.

Lemma st32_prefix p : zlen p mod 4 = 0 -> forall h, W32 h ->
  exists h', W32 h' /\ forall bs, st32 h (p ++ bs) = st32 h' bs.
Proof.
  induction p as [p Hl|b p Hb IH] using chunk_ind; intros Hm h Hh.
  - exists h. split; [done|]. intros bs. destruct p as [|c p]; [done|].
    rewrite Z.mod_small in Hm by (pose proof (zlen_nonneg (c :: p)); lia). unfold zlen in Hm. simpl in Hm. lia.
  - rewrite zlen_app, Hb in Hm.
    destruct (IH ltac:(mlia) (block32 h (le b)) (u32_W _)) as (h' & Hh' & H).
    exists h'. split; [done|]. intros bs. by rewrite <- app_assoc, st32_step, H.
Qed.

(** Keys that differ in one block, or in the tail, reach different states. *)
Lemma st32_differ p x y s h :
  W32 h -> zlen p mod 4 = 0 -> length x = length y ->
  zlen x = 4 \/ (zlen x < 4 /\ s = []) ->
  Forall (fun b => 0 <= b < 256) x -> Forall (fun b => 0 <= b < 256) y ->
  st32 h (p ++ x ++ s) = st32 h (p ++ y ++ s) -> x = y.
Proof.
  intros Hh Hp Hl Hc Hx Hy. destruct (st32_prefix p Hp h Hh) as (h' & Hh' & E). rewrite !E.
  assert (zlen y = zlen x) as Hly by (unfold zlen; lia). destruct Hc as [Hc|[Hc ->]].
  - rewrite !st32_step by lia. intros H. apply st32_inj in H; [|apply u32_W..].
    apply block32_inj_k in H; [|done|apply le_W; [lia|done]..]. by apply le_inj.
  - rewrite !app_nil_r, !st32_short by lia. intros H. apply lxor_inj_l in H.
    apply scramble32_inj in H; [|apply le_W; [lia|done]..]. by apply le_inj.
Qed.

End Inj.

(** ** The properties *)

(** C37: on a readable key and a non-negative length, each of the three
    hash functions returns, reads nothing outside the key, and returns the hash of
    the first [len] bytes given by the block/tail definition: backward indexing
    from the end of the blocks, the fall-through switch and the shifts of the
    tail amount to absorbing whole blocks in order and then one zero-padded
    block. *)
Theorem murmur3_refines key len seed :
  Forall (fun b => 0 <= b < 256) key -> 0 <= len <= zlen key ->
  hash_murmur3_32 key len seed = Some (murmur3_32 (slice key 0 len) seed) /\
  hash_murmur3_128_x86 key len seed = Some (murmur3_128_x86 (slice key 0 len) seed) /\
  hash_murmur3_128_x64 key len seed = Some (murmur3_128_x64 (slice key 0 len) seed).
Proof.
  intros Hb Hl. split_and!; [by apply hash_32_ref|by apply hash_x86_ref|by apply hash_x64_ref].
Qed.

(** "hello, world" and the published hash values of its 5-byte prefix. *)
Definition hello : list byte := [104; 101; 108; 108; 111; 44; 32; 119; 111; 114; 108; 100].

Lemma murmur3_refines_witness :
  hash_murmur3_32 hello 5 0 = Some 613153351 /\
  murmur3_32 (slice hello 0 5) 0 = 613153351 /\
  murmur3_128_x64 (slice hello 0 5) 0 = (14688674573012802306, 6565844092913065241).
Proof.
  destruct (murmur3_refines hello 5 0) as (H & _ & H'); [|done|].
  - repeat (constructor; [lia|]). constructor.
  - rewrite H. split_and!; vm_compute; reflexivity.
Defined.

(** Two keys of the same length that differ only inside one
    aligned 4-byte block, or only in the tail, never collide under the 32-bit
    hash, whatever the seed. *)
Theorem murmur3_32_differ p x y s seed :
  0 <= seed < 2 ^ 32 -> zlen p mod 4 = 0 -> length x = length y ->
  zlen x = 4 \/ (zlen x < 4 /\ s = []) ->
  Forall (fun b => 0 <= b < 256) (p ++ x ++ s) -> Forall (fun b => 0 <= b < 256) (p ++ y ++ s) ->
  x <> y ->
  hash_murmur3_32 (p ++ x ++ s) (zlen (p ++ x ++ s)) seed <>
  hash_murmur3_32 (p ++ y ++ s) (zlen (p ++ y ++ s)) seed.
Proof.
  intros Hs Hp Hl Hc Hx Hy Hne.
  assert (zlen (p ++ y ++ s) = zlen (p ++ x ++ s)) as El by (unfold zlen; rewrite !length_app; lia).
  rewrite !hash_32_ref by (done || (split; [apply zlen_nonneg|lia])). rewrite !slice_full.
  intros [= H]. unfold murmur3_32 in H. rewrite El in H.
  apply fmix32_inj in H.
  2,3: apply lxor_range; [lia| |apply u32_W].
  2: apply (st32_W (p ++ x ++ s)), Hs.
  2: rewrite <- El; apply (st32_W (p ++ y ++ s)), Hs.
  apply lxor_inj_r in H. apply Hne, (st32_differ p x y s seed); [done..| | |].
  - by apply Forall_app in Hx as [_ [? _]%Forall_app].
  - by apply Forall_app in Hy as [_ [? _]%Forall_app].
  - unfold st32. by rewrite El.
Qed.

Lemma murmur3_32_differ_witness :
  hash_murmur3_32 [1; 2; 3; 4; 5] 5 7 <> hash_murmur3_32 [1; 2; 3; 4; 6] 5 7.
Proof.
  apply (murmur3_32_differ [1; 2; 3; 4] [5] [6] [] 7); try done.
  - right. split; [unfold zlen; simpl; lia|done].
  - repeat (constructor; [lia|]). constructor.
  - repeat (constructor; [lia|]). constructor.
Defined.
