(* ===== verification/Xxh.v ===== *)
(** * xxHash: build options, memory reads and byte order (include/hash/xxhash.h)

    The header is configured by macros; those that select different code are the
    fields of the class [Build], so that the hash functions are one definition for
    every configuration.  A pointer is an object, its address and an offset; reads
    outside the object, and aligned reads at other addresses, are [None].  On a
    compiler with the builtins, XXH_rotl and XXH_swap are instructions that compute
    the expressions written here. *)

From Stdlib Require Import Btauto.
From S2P Require Import Prelude Words.
Local Open Scope Z_scope.

Inductive vector := XXH_SCALAR | XXH_SSE2 | XXH_AVX2 | XXH_AVX512 | XXH_NEON | XXH_VSX.

Class Build := {
  XXH_CPU_LITTLE_ENDIAN : bool;
  XXH_FORCE_MEMORY_ACCESS : Z;
  XXH_REROLL : bool;
  XXH_REROLL_XXH64 : bool;
  XXH_FORCE_ALIGN_CHECK : bool;
  XXH_ACCEPT_NULL_INPUT_POINTER : bool;
  SIZEOF_INT128 : bool;   (* defined(__SIZEOF_INT128__) *)
  SIZEOF_VOIDP : Z;       (* sizeof(void* ) *)
  XXH_VECTOR : vector;
  XXH_VZIP_HACK : bool }. (* XXH_SPLIT_IN_PLACE by vzip.32, on ARMv7 *)

(** gcc on x86-64 with optimisation. *)
Definition build_x86_64 : Build :=
  {| XXH_CPU_LITTLE_ENDIAN := true; XXH_FORCE_MEMORY_ACCESS := 0; XXH_REROLL := false;
     XXH_REROLL_XXH64 := false; XXH_FORCE_ALIGN_CHECK := false;
     XXH_ACCEPT_NULL_INPUT_POINTER := false; SIZEOF_INT128 := true; SIZEOF_VOIDP := 8;
     XXH_VECTOR := XXH_SSE2; XXH_VZIP_HACK := false |}.

Inductive XXH_errorcode := XXH_OK | XXH_ERROR.
Inductive XXH_alignment := XXH_aligned | XXH_unaligned.

(** ** Pointers *)

Record ptr := Ptr { pmem : list byte; paddr : Z; poff : Z }.

Definition padd (p : ptr) (n : Z) : ptr := Ptr (pmem p) (paddr p) (poff p + n).
Definition address (p : ptr) : Z := paddr p + poff p.
Definition NULL : ptr := Ptr [] 0 0.
Definition is_null (p : ptr) : bool := address p =? 0.
Definition load (p : ptr) (n : Z) : option (list byte) := memread (pmem p) (poff p) n.

(** memcpy(dst + off, p, n), for an object [dst] that is updated. *)
Definition copy (dst : list byte) (off : Z) (p : ptr) (n : Z) : option (list byte) :=
  bs ← load p n; memwrite dst off bs.

(** *p *)
Definition load8 (p : ptr) : option Z := bs ← load p 1; Some (le bs).

(** The bytes an input of [n] bytes has. *)
Definition bytes_at (p : ptr) (n : Z) : list byte := slice (pmem p) (poff p) n.
Definition readable (p : ptr) (n : Z) : Prop :=
  0 <= poff p /\ 0 <= n /\ poff p + n <= zlen (pmem p) /\ bytes_ok (pmem p).

(** ** Loops *)

Fixpoint do_while {S} (fuel : nat) (body : S -> option S) (cond : S -> bool) (s : S) : option S :=
  match fuel with
  | O => None
  | S fuel => s ← body s; if cond s then do_while fuel body cond s else Some s
  end.

Fixpoint while {S} (fuel : nat) (cond : S -> bool) (body : S -> option S) (s : S) : option S :=
  if cond s then
    match fuel with
    | O => None
    | S fuel => s ← body s; while fuel cond body s
    end
  else Some s.

(** for (; i < i0 + n; i++) *)
Fixpoint for_loop {S} (n : nat) (i : Z) (body : Z -> S -> option S) (s : S) : option S :=
  match n with
  | O => Some s
  | S n => s ← body i s; for_loop n (i + 1) body s
  end.

(** The cases a switch falls through. *)
Fixpoint run {S} (steps : list (S -> option S)) (s : S) : option S :=
  match steps with
  | [] => Some s
  | f :: steps => s ← f s; run steps s
  end.

(** ** Rotations and byte swaps *)

Definition XXH_rotl32 (x r : Z) : Z := Z.lor (u32 (Z.shiftl x r)) (Z.shiftr x (32 - r)).
Definition XXH_rotl64 (x r : Z) : Z := Z.lor (u64 (Z.shiftl x r)) (Z.shiftr x (64 - r)).

Definition XXH_swap32 (x : Z) : Z :=
  Z.lor (Z.lor (Z.lor
    (Z.land (u32 (Z.shiftl x 24)) 4278190080)
    (Z.land (u32 (Z.shiftl x 8)) 16711680))
    (Z.land (Z.shiftr x 8) 65280))
    (Z.land (Z.shiftr x 24) 255).

Definition XXH_swap64 (x : Z) : Z :=
  Z.lor (Z.lor (Z.lor (Z.lor (Z.lor (Z.lor (Z.lor
    (Z.land (u64 (Z.shiftl x 56)) 18374686479671623680)
    (Z.land (u64 (Z.shiftl x 40)) 71776119061217280))
    (Z.land (u64 (Z.shiftl x 24)) 280375465082880))
    (Z.land (u64 (Z.shiftl x 8)) 1095216660480))
    (Z.land (Z.shiftr x 8) 4278190080))
    (Z.land (Z.shiftr x 24) 16711680))
    (Z.land (Z.shiftr x 40) 65280))
    (Z.land (Z.shiftr x 56) 255).

(** ** Reads *)

Section Reads.
Context `{Build}.

(** A number in the byte order of the machine. *)
Definition native (bs : list byte) : Z := if XXH_CPU_LITTLE_ENDIAN then le bs else le (rev bs).

Definition XXH_read32 (p : ptr) : option Z := bs ← load p 4; Some (native bs).
Definition XXH_read64 (p : ptr) : option Z := bs ← load p 8; Some (native bs).

(** bytePtr[0] | bytePtr[1] << 8 | ... *)
Fixpoint byteshift (bs : list byte) (s : Z) : Z :=
  match bs with
  | [] => 0
  | [b] => Z.shiftl b s
  | b :: bs => Z.lor (Z.shiftl b s) (byteshift bs (s + 8))
  end.

Definition XXH_readLE32 (p : ptr) : option Z :=
  if XXH_FORCE_MEMORY_ACCESS =? 3 then bs ← load p 4; Some (byteshift bs 0) else
  x ← XXH_read32 p; Some (if XXH_CPU_LITTLE_ENDIAN then x else XXH_swap32 x).

Definition XXH_readBE32 (p : ptr) : option Z :=
  if XXH_FORCE_MEMORY_ACCESS =? 3 then bs ← load p 4; Some (byteshift (rev bs) 0) else
  x ← XXH_read32 p; Some (if XXH_CPU_LITTLE_ENDIAN then XXH_swap32 x else x).

Definition XXH_readLE32_align (p : ptr) (align : XXH_alignment) : option Z :=
  match align with
  | XXH_unaligned => XXH_readLE32 p
  | XXH_aligned =>
      if address p mod 4 =? 0 then
        bs ← load p 4; Some (if XXH_CPU_LITTLE_ENDIAN then native bs else XXH_swap32 (native bs))
      else None
  end.

Definition XXH_readLE64 (p : ptr) : option Z :=
  if XXH_FORCE_MEMORY_ACCESS =? 3 then bs ← load p 8; Some (byteshift bs 0) else
  x ← XXH_read64 p; Some (if XXH_CPU_LITTLE_ENDIAN then x else XXH_swap64 x).

Definition XXH_readBE64 (p : ptr) : option Z :=
  if XXH_FORCE_MEMORY_ACCESS =? 3 then bs ← load p 8; Some (byteshift (rev bs) 0) else
  x ← XXH_read64 p; Some (if XXH_CPU_LITTLE_ENDIAN then XXH_swap64 x else x).

Definition XXH_readLE64_align (p : ptr) (align : XXH_alignment) : option Z :=
  match align with
  | XXH_unaligned => XXH_readLE64 p
  | XXH_aligned =>
      if address p mod 8 =? 0 then
        bs ← load p 8; Some (if XXH_CPU_LITTLE_ENDIAN then native bs else XXH_swap64 (native bs))
      else None
  end.

(** The bytes memcpy reads of an integer variable of [n] bytes. *)
Definition object (n : nat) (x : Z) : list byte :=
  if XXH_CPU_LITTLE_ENDIAN then le_split n x else rev (le_split n x).

Definition XXH_writeLE64 (dst : list byte) (off v64 : Z) : option (list byte) :=
  let v64 := if negb XXH_CPU_LITTLE_ENDIAN then XXH_swap64 v64 else v64 in
  memwrite dst off (object 8 v64).

Definition XXH32_canonicalFromHash (hash : Z) : list byte :=
  object 4 (if XXH_CPU_LITTLE_ENDIAN then XXH_swap32 hash else hash).
Definition XXH32_hashFromCanonical (src : ptr) : option Z := XXH_readBE32 src.

Definition XXH64_canonicalFromHash (hash : Z) : list byte :=
  object 8 (if XXH_CPU_LITTLE_ENDIAN then XXH_swap64 hash else hash).
Definition XXH64_hashFromCanonical (src : ptr) : option Z := XXH_readBE64 src.

End Reads.

(** ** Constants *)

Definition XXH_PRIME32_1 : Z := 2654435761.
Definition XXH_PRIME32_2 : Z := 2246822519.
Definition XXH_PRIME32_3 : Z := 3266489917.
Definition XXH_PRIME32_4 : Z := 668265263.
Definition XXH_PRIME32_5 : Z := 374761393.
Definition XXH_PRIME64_1 : Z := 11400714785074694791.
Definition XXH_PRIME64_2 : Z := 14029467366897019727.
Definition XXH_PRIME64_3 : Z := 1609587929392839161.
Definition XXH_PRIME64_4 : Z := 9650029242287828579.
Definition XXH_PRIME64_5 : Z := 2870177450012600261.

(** ** What the reads return, in every configuration *)

Lemma byteshift_le bs s : bytes_ok bs -> 0 <= s -> byteshift bs s = Z.shiftl (le bs) s.
Proof.
  intros Hbs. revert s. induction Hbs as [|b bs Hb Hbs IH]; intros s Hs.
  - by rewrite Z.shiftl_0_l.
  - rewrite le_lor, Z.shiftl_lor, Z.shiftl_shiftl by lia. rewrite (Z.add_comm 8).
    rewrite <- (IH (s + 8)) by lia. destruct bs; [|done].
    simpl. by rewrite Z.lor_0_r.
Qed.

Ltac bytes_inv H :=
  match type of H with
  | bytes_ok [] => clear H
  | bytes_ok (_ :: _) => let H1 := fresh "Hb" in apply Forall_cons in H as [H1 H]; bytes_inv H
  end.

Lemma XXH_swap32_le bs : bytes_ok bs -> length bs = 4%nat -> XXH_swap32 (le bs) = le (rev bs).
Proof.
  intros Hbs Hl. pose proof (le_byte bs) as Hat. destruct bs as [|a [|b [|c [|d [|]]]]]; try done.
  rewrite <- (Z.shiftl_0_r (le (rev _))), <- byteshift_le by (by try apply Forall_rev). simpl (rev _).
  assert (H0 := Hat 0 0%nat a Hbs eq_refl eq_refl). assert (H1 := Hat 8 1%nat b Hbs eq_refl eq_refl).
  assert (H2 := Hat 16 2%nat c Hbs eq_refl eq_refl). assert (H3 := Hat 24 3%nat d Hbs eq_refl eq_refl).
  set (x := le _) in *. clearbody x.
  unfold XXH_swap32, u32. change 4294967296 with (2 ^ 32).
  change 4278190080 with (Z.shiftl 255 24). change 16711680 with (Z.shiftl 255 16).
  change 65280 with (Z.shiftl 255 8). rewrite <- (Z.shiftl_0_r 255) at 4.
  rewrite !mask_shl, !mask_shr by lia. znums.
  rewrite H0, H1, H2, H3. cbn [byteshift]. znums.
  apply Z.bits_inj'. intros i _. rewrite !Z.lor_spec. btauto.
Qed.

Lemma XXH_swap64_le bs : bytes_ok bs -> length bs = 8%nat -> XXH_swap64 (le bs) = le (rev bs).
Proof.
  intros Hbs Hl. pose proof (le_byte bs) as Hat.
  destruct bs as [|a [|b [|c [|d [|e [|f [|g [|h [|]]]]]]]]]; try done.
  rewrite <- (Z.shiftl_0_r (le (rev _))), <- byteshift_le by (by try apply Forall_rev). simpl (rev _).
  assert (H0 := Hat 0 0%nat a Hbs eq_refl eq_refl). assert (H1 := Hat 8 1%nat b Hbs eq_refl eq_refl).
  assert (H2 := Hat 16 2%nat c Hbs eq_refl eq_refl). assert (H3 := Hat 24 3%nat d Hbs eq_refl eq_refl).
  assert (H4 := Hat 32 4%nat e Hbs eq_refl eq_refl). assert (H5 := Hat 40 5%nat f Hbs eq_refl eq_refl).
  assert (H6 := Hat 48 6%nat g Hbs eq_refl eq_refl). assert (H7 := Hat 56 7%nat h Hbs eq_refl eq_refl).
  set (x := le _) in *. clearbody x.
  unfold XXH_swap64, u64. change 18446744073709551616 with (2 ^ 64).
  change 18374686479671623680 with (Z.shiftl 255 56). change 71776119061217280 with (Z.shiftl 255 48).
  change 280375465082880 with (Z.shiftl 255 40). change 1095216660480 with (Z.shiftl 255 32).
  change 4278190080 with (Z.shiftl 255 24). change 16711680 with (Z.shiftl 255 16).
  change 65280 with (Z.shiftl 255 8). rewrite <- (Z.shiftl_0_r 255) at 8.
  rewrite !mask_shl, !mask_shr by lia. znums.
  rewrite H0, H1, H2, H3, H4, H5, H6, H7. cbn [byteshift]. znums.
  apply Z.bits_inj'. intros i _. rewrite !Z.lor_spec. btauto.
Qed.

Section Spec.
Context `{Build}.

Lemma readable_sub p n o m :
  readable p n -> 0 <= o -> 0 <= m -> o + m <= n -> readable (padd p o) m.
Proof. intros (? & ? & ? & ?) ? ? ?. repeat split; simpl; try lia. done. Qed.

Lemma readable_bytes p n : readable p n -> bytes_ok (bytes_at p n).
Proof. intros (? & ? & ? & ?). unfold bytes_at, slice. by apply Forall_take, Forall_drop. Qed.

Lemma zlen_bytes_at p n : readable p n -> zlen (bytes_at p n) = n.
Proof. intros (? & ? & ? & ?). apply zlen_slice; lia. Qed.

Lemma bytes_at_sub p n o m :
  readable p n -> 0 <= o -> 0 <= m -> o + m <= n ->
  bytes_at (padd p o) m = slice (bytes_at p n) o m.
Proof.
  intros (? & ? & ? & ?) ? ? ?. unfold bytes_at. simpl. rewrite slice_slice by lia. f_equal. lia.
Qed.

Lemma load_readable p n : readable p n -> load p n = Some (bytes_at p n).
Proof. intros (? & ? & ? & ?). by apply memread_some. Qed.

Lemma bytes_at_length p n : readable p n -> length (bytes_at p n) = Z.to_nat n.
Proof. intros Hr. pose proof (zlen_bytes_at p n Hr) as Hz. unfold zlen in Hz. lia. Qed.

Lemma native_le32 bs :
  bytes_ok bs -> length bs = 4%nat ->
  (if XXH_CPU_LITTLE_ENDIAN then native bs else XXH_swap32 (native bs)) = le bs.
Proof.
  intros. unfold native. destruct XXH_CPU_LITTLE_ENDIAN; [done|].
  rewrite XXH_swap32_le, rev_involutive; [done|by apply Forall_rev|by rewrite length_rev].
Qed.

Lemma native_le64 bs :
  bytes_ok bs -> length bs = 8%nat ->
  (if XXH_CPU_LITTLE_ENDIAN then native bs else XXH_swap64 (native bs)) = le bs.
Proof.
  intros. unfold native. destruct XXH_CPU_LITTLE_ENDIAN; [done|].
  rewrite XXH_swap64_le, rev_involutive; [done|by apply Forall_rev|by rewrite length_rev].
Qed.

Ltac read_spec p n := let Hr := fresh in intros Hr;
  pose proof (bytes_at_length p n Hr); pose proof (readable_bytes p n Hr);
  rewrite ?(load_readable p n Hr); simpl.

Lemma XXH_readLE32_spec p : readable p 4 -> XXH_readLE32 p = Some (le (bytes_at p 4)).
Proof.
  unfold XXH_readLE32, XXH_read32. read_spec p 4. case_match.
  - by rewrite byteshift_le, Z.shiftl_0_r.
  - by rewrite native_le32.
Qed.

Lemma XXH_readLE64_spec p : readable p 8 -> XXH_readLE64 p = Some (le (bytes_at p 8)).
Proof.
  unfold XXH_readLE64, XXH_read64. read_spec p 8. case_match.
  - by rewrite byteshift_le, Z.shiftl_0_r.
  - by rewrite native_le64.
Qed.

Lemma XXH_readBE32_spec p : readable p 4 -> XXH_readBE32 p = Some (le (rev (bytes_at p 4))).
Proof.
  unfold XXH_readBE32, XXH_read32. read_spec p 4. case_match.
  - by rewrite byteshift_le, Z.shiftl_0_r by by try apply Forall_rev.
  - unfold native. case_match; [by rewrite XXH_swap32_le|done].
Qed.

Lemma XXH_readBE64_spec p : readable p 8 -> XXH_readBE64 p = Some (le (rev (bytes_at p 8))).
Proof.
  unfold XXH_readBE64, XXH_read64. read_spec p 8. case_match.
  - by rewrite byteshift_le, Z.shiftl_0_r by by try apply Forall_rev.
  - unfold native. case_match; [by rewrite XXH_swap64_le|done].
Qed.

(** An aligned read is at a multiple of the word size. *)
Definition aligned (align : XXH_alignment) (p : ptr) (w : Z) : Prop :=
  align = XXH_aligned -> address p mod w = 0.

Lemma aligned_add align p w o : aligned align p w -> o mod w = 0 -> 0 < w -> aligned align (padd p o) w.
Proof.
  intros Ha Ho Hw E. specialize (Ha E). unfold address in *. simpl.
  rewrite Z.add_assoc, Z.add_mod, Ha, Ho by lia. by rewrite Zmod_0_l.
Qed.

Lemma aligned_8_4 align p : aligned align p 8 -> aligned align p 4.
Proof. intros Ha E. specialize (Ha E). mlia. Qed.

Lemma XXH_readLE32_align_spec p align :
  readable p 4 -> aligned align p 4 -> XXH_readLE32_align p align = Some (le (bytes_at p 4)).
Proof.
  intros Hr Ha. destruct align; simpl; [|by apply XXH_readLE32_spec].
  rewrite Ha, load_readable by done. simpl. rewrite native_le32; [done| |].
  - by apply readable_bytes.
  - by apply bytes_at_length.
Qed.

Lemma XXH_readLE64_align_spec p align :
  readable p 8 -> aligned align p 8 -> XXH_readLE64_align p align = Some (le (bytes_at p 8)).
Proof.
  intros Hr Ha. destruct align; simpl; [|by apply XXH_readLE64_spec].
  rewrite Ha, load_readable by done. simpl. rewrite native_le64; [done| |].
  - by apply readable_bytes.
  - by apply bytes_at_length.
Qed.

(** ** Canonical form: the bytes of a hash, the most significant first *)

Lemma le_split_small n x : 0 <= x < 2 ^ (8 * Z.of_nat n) -> le (le_split n x) = x.
Proof. intros. rewrite le_le_split. by apply Z.mod_small. Qed.

Lemma XXH32_canonical_bytes h :
  0 <= h < 2 ^ 32 -> XXH32_canonicalFromHash h = rev (le_split 4 h).
Proof.
  intros Hh. unfold XXH32_canonicalFromHash, object. destruct XXH_CPU_LITTLE_ENDIAN; [|done].
  rewrite <- (le_split_small 4 h) at 1 by done.
  rewrite XXH_swap32_le by (apply le_split_ok || apply length_le_split).
  apply le_split_le; [apply Forall_rev, le_split_ok|by rewrite length_rev, length_le_split].
Qed.

Lemma XXH64_canonical_bytes h :
  0 <= h < 2 ^ 64 -> XXH64_canonicalFromHash h = rev (le_split 8 h).
Proof.
  intros Hh. unfold XXH64_canonicalFromHash, object. destruct XXH_CPU_LITTLE_ENDIAN; [|done].
  rewrite <- (le_split_small 8 h) at 1 by done.
  rewrite XXH_swap64_le by (apply le_split_ok || apply length_le_split).
  apply le_split_le; [apply Forall_rev, le_split_ok|by rewrite length_rev, length_le_split].
Qed.

Lemma XXH_writeLE64_spec dst off v :
  0 <= v < 2 ^ 64 -> 0 <= off -> off + 8 <= zlen dst ->
  XXH_writeLE64 dst off v = Some (splice dst off (le_split 8 v)).
Proof.
  intros Hv Ho Hl. unfold XXH_writeLE64.
  assert ((object 8 (if negb XXH_CPU_LITTLE_ENDIAN then XXH_swap64 v else v)) = le_split 8 v) as ->.
  { pose proof (XXH64_canonical_bytes v Hv) as Hc. unfold XXH64_canonicalFromHash, object in *.
    destruct XXH_CPU_LITTLE_ENDIAN; cbn [negb]; [done|]. rewrite <- (le_split_small 8 v) at 1 by done.
    rewrite XXH_swap64_le by (apply le_split_ok || apply length_le_split).
    rewrite le_split_le, rev_involutive; [done|apply Forall_rev, le_split_ok|].
    by rewrite length_rev, length_le_split. }
  apply memwrite_some; [done|]. unfold zlen in *. rewrite length_le_split. lia.
Qed.

End Spec.

(** ** Inputs cut into blocks *)

Fixpoint blocks {H} (f : H -> list byte -> H) (size : nat) (n : nat) (h : H) (bs : list byte) : H :=
  match n with
  | O => h
  | S n => blocks f size n (f h (take size bs)) (drop size bs)
  end.

Section Blocks.
Context {H : Type} (f : H -> list byte -> H) (size : nat).

Lemma blocks_add n m h bs :
  blocks f size (n + m) h bs = blocks f size m (blocks f size n h bs) (drop (n * size) bs).
Proof.
  revert h bs. induction n as [|n IH]; intros h bs; simpl; [by rewrite drop_0|].
  rewrite IH, drop_drop. done.
Qed.

Lemma blocks_app n h a b :
  (n * size <= length a)%nat -> blocks f size n h (a ++ b) = blocks f size n h a.
Proof.
  revert h a. induction n as [|n IH]; intros h a Hl; simpl in *; [done|].
  rewrite take_app_le, drop_app_le by lia. apply IH. rewrite length_drop. lia.
Qed.

Lemma blocks_app_exact n m h a b :
  length a = (n * size)%nat -> blocks f size (n + m) h (a ++ b) = blocks f size m (blocks f size n h a) b.
Proof.
  intros Ha. rewrite blocks_add, blocks_app by lia. by rewrite <- Ha, drop_app_length.
Qed.

End Blocks.

Lemma padd_padd p a b : padd (padd p a) b = padd p (a + b).
Proof. unfold padd. simpl. f_equal. lia. Qed.

Lemma padd_0 p : padd p 0 = p.
Proof. destruct p. unfold padd. simpl. f_equal. lia. Qed.

(** A loop that absorbs one block a round. *)
Section Stripes.
Context {H : Type} (f : H -> list byte -> H) (size : Z) (body : H * ptr -> option (H * ptr)).
Context (P : ptr -> Prop) (cond : H * ptr -> bool).
Hypothesis Hsize : 0 < size.
Hypothesis HP : forall p, P p -> P (padd p size).
Hypothesis Hbody : forall h p,
  P p -> readable p size -> body (h, p) = Some (f h (bytes_at p size), padd p size).

Lemma do_while_blocks n : forall fuel h p,
  (n < fuel)%nat -> P p -> readable p (Z.of_nat (S n) * size) ->
  (forall h' i, 0 < i <= Z.of_nat (S n) -> cond (h', padd p (i * size)) = (i <? Z.of_nat (S n))) ->
  do_while fuel body cond (h, p) =
  Some (blocks f (Z.to_nat size) (S n) h (bytes_at p (Z.of_nat (S n) * size)),
        padd p (Z.of_nat (S n) * size)).
Proof.
  induction n as [|n IH]; intros [|fuel] h p Hf Hp Hr Hc; try lia; cbn [do_while].
  - rewrite Hbody by (done || by rewrite Z.mul_1_l in Hr). cbn [mbind option_bind].
    pose proof (Hc (f h (bytes_at p size)) 1 ltac:(lia)) as Hc1. rewrite Z.mul_1_l in Hc1.
    rewrite Hc1. simpl. rewrite Z.mul_1_l in *.
    rewrite (take_ge (bytes_at p size)); [done|]. rewrite bytes_at_length by done. lia.
  - assert (Hr1 : readable p size) by (rewrite <- (padd_0 p); apply (readable_sub _ _ _ _ Hr); lia).
    rewrite Hbody by done. cbn [mbind option_bind].
    pose proof (Hc (f h (bytes_at p size)) 1 ltac:(lia)) as Hc1. rewrite Z.mul_1_l in Hc1. rewrite Hc1.
    rewrite (proj2 (Z.ltb_lt _ _)) by lia.
    rewrite IH; [|lia|by apply HP|apply (readable_sub _ _ _ _ Hr); lia|].
    + rewrite padd_padd. replace (size + Z.of_nat (S n) * size) with (Z.of_nat (S (S n)) * size) by lia.
      rewrite (bytes_at_sub p _ size _ Hr) by lia. rewrite <- (padd_0 p) at 1.
      rewrite (bytes_at_sub p _ 0 size Hr) by lia. unfold slice. rewrite drop_0.
      rewrite (take_ge (drop _ _)); [done|]. rewrite length_drop, (bytes_at_length _ _ Hr). lia.
    + intros h' i Hi. rewrite padd_padd. replace (size + i * size) with ((i + 1) * size) by lia.
      rewrite Hc by lia. destruct (Z.ltb_spec i (Z.of_nat (S n))), (Z.ltb_spec (i + 1) (Z.of_nat (S (S n)))); lia.
Qed.

End Stripes.

(** ** Streaming

    XXH32_update and XXH64_update keep what does not fill a block in a buffer; this
    is the code they share. *)

Definition update_blocks {H} (size : Z) (stripe : H * ptr -> option (H * ptr)) (maddr : Z)
    (v : H) (mem : list byte) (memsize : Z) (input : ptr) (len : Z) : option (H * list byte * Z) :=
  let p := input in
  let bEnd := padd p len in
  if u64 (memsize + len) <? size then
    mem ← copy mem memsize input len;
    Some (v, mem, u32 (memsize + u32 len))
  else
    '(v, mem, memsize, p) ←
      (if memsize =? 0 then Some (v, mem, memsize, p) else
         mem ← copy mem memsize input (size - memsize);
         '(v, _) ← stripe (v, Ptr mem maddr 0);
         Some (v, mem, 0, padd p (size - memsize)));
    '(v, p) ←
      (if poff p <=? poff bEnd - size then
         do_while (Z.to_nat len) stripe (fun s => poff s.2 <=? poff bEnd - size) (v, p)
       else Some (v, p));
    if poff p <? poff bEnd then
      mem ← copy mem 0 p (poff bEnd - poff p);
      Some (v, mem, u32 (poff bEnd - poff p))
    else Some (v, mem, memsize).

Section Streaming.
Context {H : Type} (f : H -> list byte -> H) (size : Z) (stripe : H * ptr -> option (H * ptr)) (v0 : H).
Hypothesis Hsize : 0 < size <= 64.
Hypothesis Hstripe : forall v p,
  readable p size -> stripe (v, p) = Some (f v (bytes_at p size), padd p size).

(** The input so far: whole blocks, absorbed, and a rest, at the start of the
    buffer. *)
Definition buffered (bs : list byte) (v : H) (mem : list byte) (memsize : Z) : Prop :=
  exists q pre rest, bs = pre ++ rest /\ zlen pre = Z.of_nat q * size /\ zlen rest < size /\
    v = blocks f (Z.to_nat size) q v0 pre /\ zlen mem = size /\ bytes_ok mem /\
    memsize = zlen rest /\ slice mem 0 memsize = rest.

Lemma splice_ok mem off (src : list byte) : bytes_ok mem -> bytes_ok src -> bytes_ok (splice mem off src).
Proof. intros. unfold splice. apply Forall_app_2; [by apply Forall_take|]. apply Forall_app_2; [done|by apply Forall_drop]. Qed.

Lemma copy_readable dst off p n :
  readable p n -> 0 <= off -> off + n <= zlen dst -> copy dst off p n = Some (splice dst off (bytes_at p n)).
Proof.
  intros Hr Ho Hn. unfold copy. rewrite load_readable by done. simpl.
  apply memwrite_some; [done|]. by rewrite zlen_bytes_at.
Qed.

Lemma slice_splice_prefix (mem : list byte) off src :
  0 <= off -> off + zlen src <= zlen mem ->
  slice (splice mem off src) 0 (off + zlen src) = slice mem 0 off ++ src.
Proof.
  intros Ho Hl. pose proof (zlen_nonneg src). rewrite slice_split by lia.
  rewrite slice_splice_before by lia. f_equal. rewrite Z.add_0_l. by apply slice_splice_same.
Qed.

(** Input that starts at a block boundary, with an empty buffer. *)
Lemma update_aligned q pre v mem p len :
  zlen pre = Z.of_nat q * size -> v = blocks f (Z.to_nat size) q v0 pre ->
  zlen mem = size -> bytes_ok mem -> readable p len -> len < 2 ^ 63 -> forall fuel,
  (Z.to_nat len <= fuel)%nat ->
  exists v' mem' ms',
    ('(v, p') ← (if poff p <=? poff p + len - size then
         do_while fuel stripe (fun s => poff s.2 <=? poff p + len - size) (v, p)
       else Some (v, p));
    if poff p' <? poff p + len then
      mem ← copy mem 0 p' (poff p + len - poff p');
      Some (v, mem, u32 (poff p + len - poff p'))
    else Some (v, mem, 0)) = Some (v', mem', ms') /\
    buffered (pre ++ bytes_at p len) v' mem' ms'.
Proof.
  intros Hpre Hv Hm Hok Hr Hlen fuel Hfuel. set (n := Z.to_nat (len / size)).
  assert (Hn : Z.of_nat n * size <= len < Z.of_nat n * size + size).
  { unfold n. rewrite Z2Nat.id by (destruct Hr as (? & ? & ?); apply Z.div_pos; lia).
    pose proof (Z.div_mod len size). pose proof (Z.mod_pos_bound len size). lia. }
  destruct Hr as (Hr0 & Hr1 & Hr2 & Hr3). assert (Hr : readable p len) by done.
  set (done := bytes_at p (Z.of_nat n * size)). set (p' := padd p (Z.of_nat n * size)).
  assert (Hloop : (if poff p <=? poff p + len - size then
         do_while fuel stripe (fun s => poff s.2 <=? poff p + len - size) (v, p)
       else Some (v, p)) = Some (blocks f (Z.to_nat size) n v done, p')).
  { unfold done, p'. destruct n as [|m] eqn:En.
    - rewrite (proj2 (Z.leb_gt _ _)) by lia. by rewrite Z.mul_0_l, padd_0.
    - rewrite (proj2 (Z.leb_le _ _)) by lia.
      apply (do_while_blocks f size stripe (fun _ => True)) with (n := m); try done; try nia.
      { intros. by apply Hstripe. }
      { repeat split; try lia. done. }
      intros h i Hi. simpl. destruct (Z.leb_spec (poff p + i * size) (poff p + len - size)), (Z.ltb_spec i (Z.of_nat (S m))); nia. }
  rewrite Hloop. cbn [mbind option_bind]. clear Hloop.
  assert (Hsplit : pre ++ bytes_at p len = (pre ++ done) ++ bytes_at p' (len - Z.of_nat n * size)).
  { rewrite <- app_assoc. f_equal. unfold done, p', bytes_at. simpl. rewrite <- slice_split by lia. f_equal. lia. }
  assert (Hdone : zlen done = Z.of_nat n * size).
  { apply zlen_bytes_at. repeat split; try lia; done. }
  assert (Hbl : blocks f (Z.to_nat size) n v done = blocks f (Z.to_nat size) (q + n) v0 (pre ++ done)).
  { rewrite blocks_app_exact, Hv; [done|]. unfold zlen in Hpre. lia. }
  rewrite Hbl. change (poff p') with (poff p + Z.of_nat n * size). set (rl := len - Z.of_nat n * size) in *.
  assert (Hr' : readable p' rl) by (apply (readable_sub _ _ _ _ Hr); lia).
  replace (poff p + len - (poff p + Z.of_nat n * size)) with rl by lia.
  assert (Hz := zlen_bytes_at _ _ Hr').
  destruct (Z.ltb_spec (poff p + Z.of_nat n * size) (poff p + len)) as [Hlt|Hge].
  - rewrite copy_readable by (done || lia). cbn [mbind option_bind]. do 3 eexists. split; [done|].
    rewrite Hsplit. exists (q + n)%nat, (pre ++ done), (bytes_at p' rl).
    rewrite zlen_app, u32_small by lia. rewrite zlen_splice by lia. rewrite Hz.
    repeat split; try lia; try done.
    + apply splice_ok; [done|]. by apply readable_bytes.
    + pose proof (slice_splice_prefix mem 0 (bytes_at p' rl)) as Hs. rewrite Hz in Hs. apply Hs; lia.
  - do 3 eexists. split; [done|]. rewrite Hsplit. replace rl with 0 by lia.
    exists (q + n)%nat, (pre ++ done), []. unfold bytes_at. rewrite slice_zero, zlen_app.
    repeat split; try done; unfold zlen in *; simpl; lia.
Qed.

Lemma update_blocks_spec bs v mem memsize maddr input len :
  buffered bs v mem memsize -> readable input len -> len < 2 ^ 63 ->
  exists v' mem' ms', update_blocks size stripe maddr v mem memsize input len = Some (v', mem', ms') /\
    buffered (bs ++ bytes_at input len) v' mem' ms'.
Proof.
  intros (q & pre & rest & -> & Hpre & Hrest & Hv & Hm & Hok & Hms & Hsl) Hr Hlen.
  assert (0 <= len) by (destruct Hr as (? & ? & ?); lia). pose proof (zlen_nonneg rest).
  unfold update_blocks. rewrite u64_small by lia. rewrite <- app_assoc.
  destruct (Z.ltb_spec (memsize + len) size) as [Hlt|Hge].
  { rewrite copy_readable by (done || lia). cbn [mbind option_bind]. do 3 eexists. split; [done|].
    pose proof (zlen_bytes_at _ _ Hr) as Hz.
    exists q, pre, (rest ++ bytes_at input len). rewrite zlen_app, Hz, zlen_splice, (u32_small len), u32_small by lia.
    repeat split; try done; try lia.
    - apply splice_ok; [done|]. by apply readable_bytes.
    - pose proof (slice_splice_prefix mem memsize (bytes_at input len)) as Hs.
      rewrite Hz, Hsl in Hs. apply Hs; lia. }
  destruct (Z.eqb_spec memsize 0) as [Hz|Hnz].
  - assert (rest = []) as -> by (destruct rest; [done|unfold zlen in *; simpl in *; lia]).
    cbn [mbind option_bind]. rewrite Hz.
    destruct (update_aligned q pre v mem input len Hpre Hv Hm Hok Hr Hlen (Z.to_nat len)) as (v' & mem' & ms' & E & Hb); [lia|].
    exists v', mem', ms'. by split.
  - set (n1 := size - memsize).
    assert (Hr1 : readable input n1) by (rewrite <- (padd_0 input); apply (readable_sub _ _ _ _ Hr); lia).
    assert (Hr2 : readable (padd input n1) (len - n1)) by (apply (readable_sub _ _ _ _ Hr); lia).
    rewrite copy_readable by (done || lia). cbn [mbind option_bind].
    pose proof (zlen_bytes_at _ _ Hr1) as Hz1.
    set (mem1 := splice mem memsize (bytes_at input n1)).
    assert (Hm1 : zlen mem1 = size) by (unfold mem1; rewrite zlen_splice; lia).
    assert (Hok1 : bytes_ok mem1) by (apply splice_ok; [done|by apply readable_bytes]).
    assert (Hfull : mem1 = rest ++ bytes_at input n1).
    { rewrite <- (slice_full mem1), Hm1. pose proof (slice_splice_prefix mem memsize (bytes_at input n1)) as Hs.
      rewrite Hz1, Hsl in Hs. replace size with (memsize + n1) by lia. apply Hs; lia. }
    rewrite Hstripe by (repeat split; simpl; try lia; done).
    cbn [mbind option_bind]. change (bytes_at (Ptr mem1 maddr 0) size) with (slice mem1 0 size).
    rewrite <- Hm1, slice_full.
    destruct (update_aligned (q + 1) (pre ++ mem1) (f v mem1) mem1 (padd input n1) (len - n1)) with (fuel := Z.to_nat len)
      as (v' & mem' & ms' & E & Hb); try done; try lia.
    + rewrite zlen_app. lia.
    + rewrite blocks_app_exact by (unfold zlen in *; lia). rewrite Hv. simpl. f_equal.
      symmetry. apply take_ge. unfold zlen in *. lia.
    + exists v', mem', ms'. rewrite Hm1.
      change (poff (padd input len)) with (poff input + len).
      replace (poff (padd input n1) + (len - n1)) with (poff input + len) in E by (simpl; lia).
      split; [exact E|]. revert Hb. rewrite Hfull, <- !app_assoc. intros Hb.
      replace (bytes_at input len) with (bytes_at input n1 ++ bytes_at (padd input n1) (len - n1)); [done|].
      destruct Hr as (? & ? & ?). unfold bytes_at. simpl. rewrite <- slice_split by lia. f_equal. lia.
Qed.

End Streaming.

(** ** The last bytes of an input *)

Lemma run_app {S} (a b : list (S -> option S)) s : run (a ++ b) s = s' ← run a s; run b s'.
Proof.
  revert s. induction a as [|g a IH]; intros s; simpl; [done|].
  destruct (g s); simpl; [apply IH|done].
Qed.

(** A rerolled loop runs the steps of the unrolled one. *)
Lemma while_run {S} (step : S -> option S) (k : Z) (cond : S * Z -> bool) (q : nat) : forall fuel s r,
  (q <= fuel)%nat -> 0 <= r < k -> (forall s n, cond (s, n) = (k <=? n)) ->
  while fuel cond (fun '(s, len) => s ← step s; Some (s, len - k)) (s, k * Z.of_nat q + r) =
  s ← run (replicate q step) s; Some (s, r).
Proof.
  induction q as [|q IH]; intros fuel s r Hf Hr Hc; cbn [replicate run].
  - replace (k * Z.of_nat 0 + r) with r by lia.
    destruct fuel; simpl; rewrite Hc; by rewrite (proj2 (Z.leb_gt _ _)) by lia.
  - destruct fuel as [|fuel]; [lia|]. cbn [while].
    rewrite Hc, (proj2 (Z.leb_le _ _)) by nia. destruct (step s) as [s'|]; simpl; [|done].
    rewrite <- IH with (fuel := fuel) by (done || lia). do 2 f_equal. lia.
Qed.

Lemma bytes_at_split p a b :
  readable p (a + b) -> 0 <= a -> 0 <= b -> bytes_at p (a + b) = bytes_at p a ++ bytes_at (padd p a) b.
Proof. intros (? & ? & ?) ? ?. unfold bytes_at. simpl. by rewrite <- slice_split by lia. Qed.

Lemma readable_split p a b :
  readable p (a + b) -> 0 <= a -> 0 <= b -> readable p a /\ readable (padd p a) b.
Proof.
  intros Hr ? ?. split; [|apply (readable_sub _ _ _ _ Hr); lia].
  rewrite <- (padd_0 p). apply (readable_sub _ _ _ _ Hr); lia.
Qed.

Lemma run_process1 (mix : Z -> Z -> Z) (step : Z * ptr -> option (Z * ptr)) :
  (forall h p, step (h, p) = x ← load8 p; Some (mix h x, padd p 1)) -> forall r h p,
  readable p (Z.of_nat r) ->
  run (replicate r step) (h, p) = Some (fold_left mix (bytes_at p (Z.of_nat r)) h, padd p (Z.of_nat r)).
Proof.
  intros Hs. induction r as [|r IH]; intros h p Hr; cbn [replicate run].
  - by rewrite padd_0.
  - replace (Z.of_nat (S r)) with (1 + Z.of_nat r) in * by lia.
    destruct (readable_split _ _ _ Hr) as [Hr1 Hr2]; [lia..|].
    rewrite Hs. unfold load8. rewrite load_readable by done. cbn [mbind option_bind].
    rewrite IH, padd_padd, (bytes_at_split _ _ _ Hr) by (done || lia).
    pose proof (bytes_at_length _ _ Hr1) as Hl. destruct (bytes_at p 1) as [|x [|]]; try done.
    simpl. by rewrite Z.add_0_r.
Qed.

Lemma take_le_4 (bs : list byte) : length bs = 4%nat -> exists a b c d, bs = [a; b; c; d].
Proof. destruct bs as [|a [|b [|c [|d [|]]]]]; try done. intros _. by exists a, b, c, d. Qed.

(** ** Inputs given in parts *)

Fixpoint feed {S} (update : S -> ptr -> Z -> option (XXH_errorcode * S)) (st : S)
    (parts : list (ptr * Z)) : option S :=
  match parts with
  | [] => Some st
  | (p, n) :: parts =>
      '(r, st) ← update st p n;
      match r with XXH_OK => feed update st parts | XXH_ERROR => None end
  end.

Definition valid_part (part : ptr * Z) : Prop := readable part.1 part.2 /\ is_null part.1 = false.
Definition parts_data (parts : list (ptr * Z)) : list byte :=
  mjoin (map (fun part => bytes_at part.1 part.2) parts).

(** [input] holds the bytes of all parts, one after the other. *)
Definition whole (input : ptr) (parts : list (ptr * Z)) : Prop :=
  valid_part (input, zlen (parts_data parts)) /\
  bytes_at input (zlen (parts_data parts)) = parts_data parts /\ zlen (parts_data parts) < 2 ^ 63.

Lemma feed_spec {S} (update : S -> ptr -> Z -> option (XXH_errorcode * S)) (I : list byte -> S -> Prop) :
  (forall bs st p n, I bs st -> valid_part (p, n) -> zlen bs + n < 2 ^ 63 ->
     exists st', update st p n = Some (XXH_OK, st') /\ I (bs ++ bytes_at p n) st') ->
  forall parts bs st, I bs st -> Forall valid_part parts -> zlen bs + zlen (parts_data parts) < 2 ^ 63 ->
  exists st', feed update st parts = Some st' /\ I (bs ++ parts_data parts) st'.
Proof.
  intros Hu. induction parts as [|[p n] parts IH]; intros bs st HI Hv Hl; cbn [feed].
  - exists st. split; [done|]. unfold parts_data. simpl. by rewrite app_nil_r.
  - apply Forall_cons in Hv as [Hp Hv].
    assert (Hd : parts_data ((p, n) :: parts) = bytes_at p n ++ parts_data parts) by done.
    rewrite Hd, zlen_app, zlen_bytes_at in Hl by apply Hp. pose proof (zlen_nonneg (parts_data parts)).
    destruct (Hu bs st p n) as (st1 & E & HI1); [done..|lia|]. rewrite E. cbn [mbind option_bind].
    destruct (IH (bs ++ bytes_at p n) st1) as (st2 & E2 & HI2); [done..| |].
    { rewrite zlen_app, zlen_bytes_at by apply Hp. lia. }
    exists st2. split; [done|]. by rewrite Hd, app_assoc.
Qed.

(** Two configurations and an input, for examples. *)
Definition xxh_sample : list byte := map (fun i => (Z.of_nat i * 37 + 11) mod 256) (seq 0 300).

Lemma sample_part a o n :
  (0 <=? o) && (0 <=? n) && (o + n <=? 300) && (0 <? a) = true -> valid_part (Ptr xxh_sample a o, n).
Proof.
  intros [[[?%Z.leb_le ?%Z.leb_le]%andb_prop ?%Z.leb_le]%andb_prop ?%Z.ltb_lt]%andb_prop.
  assert (zlen xxh_sample = 300) by done. repeat split; simpl; try lia.
  - unfold xxh_sample. apply Forall_map, Forall_true. intros i. simpl. apply Z.mod_pos_bound. lia.
  - unfold is_null, address. simpl. lia.
Qed.

Definition build_odd : Build :=
  {| XXH_CPU_LITTLE_ENDIAN := false; XXH_FORCE_MEMORY_ACCESS := 3; XXH_REROLL := true;
     XXH_REROLL_XXH64 := true; XXH_FORCE_ALIGN_CHECK := true;
     XXH_ACCEPT_NULL_INPUT_POINTER := true; SIZEOF_INT128 := false; SIZEOF_VOIDP := 4;
     XXH_VECTOR := XXH_SCALAR; XXH_VZIP_HACK := false |}.

