(* ===== verification/Xxh32.v ===== *)
(** * XXH32 (include/hash/xxhash.h)

    The 32-bit hash, in one call and as a stream.  Both are shown to compute
    [xxh32], a definition on lists of bytes, in every build configuration. *)

From S2P Require Import Prelude Words Xxh.
Local Open Scope Z_scope.

Abbreviation lanes := (Z * Z * Z * Z)%type.

Section XXH32.
Context `{Build}.

Definition XXH32_round (acc input : Z) : Z :=
  let acc := u32 (acc + u32 (input * XXH_PRIME32_2)) in
  let acc := XXH_rotl32 acc 13 in
  u32 (acc * XXH_PRIME32_1).

Definition XXH32_avalanche (h32 : Z) : Z :=
  let h32 := Z.lxor h32 (Z.shiftr h32 15) in
  let h32 := u32 (h32 * XXH_PRIME32_2) in
  let h32 := Z.lxor h32 (Z.shiftr h32 13) in
  let h32 := u32 (h32 * XXH_PRIME32_3) in
  Z.lxor h32 (Z.shiftr h32 16).

(** h32 += x * prime; h32 = XXH_rotl32(h32, r) * prime' *)
Definition mix1 (h32 x : Z) : Z :=
  u32 (XXH_rotl32 (u32 (h32 + u32 (x * XXH_PRIME32_5))) 11 * XXH_PRIME32_1).
Definition mix4 (h32 x : Z) : Z :=
  u32 (XXH_rotl32 (u32 (h32 + u32 (x * XXH_PRIME32_3))) 17 * XXH_PRIME32_4).

Definition XXH_PROCESS1 (s : Z * ptr) : option (Z * ptr) :=
  let '(h32, p) := s in x ← load8 p; Some (mix1 h32 x, padd p 1).
Definition XXH_PROCESS4 (align : XXH_alignment) (s : Z * ptr) : option (Z * ptr) :=
  let '(h32, p) := s in x ← XXH_readLE32_align p align; Some (mix4 h32 x, padd p 4).

Definition XXH32_finalize (h32 : Z) (p : ptr) (len : Z) (align : XXH_alignment) : option Z :=
  let P1 := XXH_PROCESS1 in
  let P4 := XXH_PROCESS4 align in
  if XXH_REROLL then
    let len := Z.land len 15 in
    '(s, len) ← while 16 (fun '(s, len) => 4 <=? len) (fun '(s, len) => s ← P4 s; Some (s, len - 4)) ((h32, p), len);
    '(s, len) ← while 16 (fun '(s, len) => 0 <? len) (fun '(s, len) => s ← P1 s; Some (s, len - 1)) (s, len);
    Some (XXH32_avalanche s.1)
  else
    let finish steps := s ← run steps (h32, p); Some (XXH32_avalanche s.1) in
    match Z.land len 15 with
    | 12 => finish [P4; P4; P4]
    | 8 => finish [P4; P4]
    | 4 => finish [P4]
    | 13 => finish [P4; P4; P4; P1]
    | 9 => finish [P4; P4; P1]
    | 5 => finish [P4; P1]
    | 14 => finish [P4; P4; P4; P1; P1]
    | 10 => finish [P4; P4; P1; P1]
    | 6 => finish [P4; P1; P1]
    | 15 => finish [P4; P4; P4; P1; P1; P1]
    | 11 => finish [P4; P4; P1; P1; P1]
    | 7 => finish [P4; P1; P1; P1]
    | 3 => finish [P1; P1; P1]
    | 2 => finish [P1; P1]
    | 1 => finish [P1]
    | 0 => finish []
    | _ => Some h32
    end.

(** v1 = XXH32_round(v1, get(p)); p += 4; and so on up to v4 *)
Definition stripe32 (get : ptr -> option Z) (s : lanes * ptr) : option (lanes * ptr) :=
  let '(v1, v2, v3, v4, p) := s in
  k1 ← get p; let v1 := XXH32_round v1 k1 in let p := padd p 4 in
  k2 ← get p; let v2 := XXH32_round v2 k2 in let p := padd p 4 in
  k3 ← get p; let v3 := XXH32_round v3 k3 in let p := padd p 4 in
  k4 ← get p; let v4 := XXH32_round v4 k4 in let p := padd p 4 in
  Some (v1, v2, v3, v4, p).

Definition init32 (seed : Z) : lanes :=
  (u32 (u32 (seed + XXH_PRIME32_1) + XXH_PRIME32_2), u32 (seed + XXH_PRIME32_2),
   u32 (seed + 0), u32 (seed - XXH_PRIME32_1)).

Definition merge32 (v : lanes) : Z :=
  let '(v1, v2, v3, v4) := v in
  u32 (u32 (u32 (XXH_rotl32 v1 1 + XXH_rotl32 v2 7) + XXH_rotl32 v3 12) + XXH_rotl32 v4 18).

Definition XXH32_endian_align (input : ptr) (len seed : Z) (align : XXH_alignment) : option Z :=
  let '(input, len) :=
    if XXH_ACCEPT_NULL_INPUT_POINTER && is_null input then (Ptr [] 16 0, 0) else (input, len) in
  let bEnd := padd input len in
  '(h32, input) ←
    (if 16 <=? len then
       let limit := padd bEnd (-15) in
       '(v, input) ← do_while (Z.to_nat len) (stripe32 (fun p => XXH_readLE32_align p align))
         (fun s => poff s.2 <? poff limit) (init32 seed, input);
       Some (merge32 v, input)
     else Some (u32 (seed + XXH_PRIME32_5), input));
  let h32 := u32 (h32 + u32 len) in
  XXH32_finalize h32 input (Z.land len 15) align.

Definition XXH32 (input : ptr) (len seed : Z) : option Z :=
  if XXH_FORCE_ALIGN_CHECK && (Z.land (address input) 3 =? 0)
  then XXH32_endian_align input len seed XXH_aligned
  else XXH32_endian_align input len seed XXH_unaligned.

(** [v32]: v1 to v4; [addr32]: the address of the member mem32. *)
Record XXH32_state := XXH32_State {
  total_len_32 : Z; large_len : Z; v32 : lanes; mem32 : list byte; memsize32 : Z; addr32 : Z }.

Definition XXH32_copyState (dstState srcState : XXH32_state) : XXH32_state :=
  XXH32_State (total_len_32 srcState) (large_len srcState) (v32 srcState) (mem32 srcState)
    (memsize32 srcState) (addr32 dstState).

Definition XXH32_reset (statePtr : XXH32_state) (seed : Z) : XXH_errorcode * XXH32_state :=
  (XXH_OK, XXH32_State 0 0 (init32 seed) (replicate 16 0) 0 (addr32 statePtr)).

Definition XXH32_update (state : XXH32_state) (input : ptr) (len : Z)
  : option (XXH_errorcode * XXH32_state) :=
  if is_null input then
    Some (if XXH_ACCEPT_NULL_INPUT_POINTER then XXH_OK else XXH_ERROR, state)
  else
    let total := u32 (total_len_32 state + u32 len) in
    let large := Z.lor (large_len state) (Z.lor (Z.b2z (16 <=? len)) (Z.b2z (16 <=? total))) in
    '(v, mem, memsize) ←
      update_blocks 16 (stripe32 XXH_readLE32) (addr32 state) (v32 state) (mem32 state) (memsize32 state) input len;
    Some (XXH_OK, XXH32_State total large v mem memsize (addr32 state)).

Definition XXH32_digest (state : XXH32_state) : option Z :=
  let '(v1, v2, v3, v4) := v32 state in
  let h32 := if large_len state =? 0 then u32 (v3 + XXH_PRIME32_5) else merge32 (v32 state) in
  let h32 := u32 (h32 + total_len_32 state) in
  XXH32_finalize h32 (Ptr (mem32 state) (addr32 state) 0) (memsize32 state) XXH_aligned.

(** ** The hash of a list of bytes *)

Definition round32 (v : lanes) (b : list byte) : lanes :=
  let '(v1, v2, v3, v4) := v in
  (XXH32_round v1 (le (slice b 0 4)), XXH32_round v2 (le (slice b 4 4)),
   XXH32_round v3 (le (slice b 8 4)), XXH32_round v4 (le (slice b 12 4))).

Fixpoint tail32 (h : Z) (bs : list byte) : Z :=
  match bs with
  | a :: b :: c :: d :: bs => tail32 (mix4 h (le [a; b; c; d])) bs
  | _ => fold_left mix1 bs h
  end.

Definition xxh32 (bs : list byte) (seed : Z) : Z :=
  let n := Z.to_nat (zlen bs / 16) in
  let h := if 16 <=? zlen bs then merge32 (blocks round32 16 n (init32 seed) bs)
           else u32 (seed + XXH_PRIME32_5) in
  XXH32_avalanche (tail32 (u32 (h + u32 (zlen bs))) (drop (16 * n) bs)).

End XXH32.

(** ** Finalization *)

Section Finalize.
Context `{Build}.

Lemma tail32_4 h b bs : length b = 4%nat -> tail32 h (b ++ bs) = tail32 (mix4 h (le b)) bs.
Proof. intros (? & ? & ? & ? & ->)%take_le_4. done. Qed.

Lemma tail32_short h bs : (length bs < 4)%nat -> tail32 h bs = fold_left mix1 bs h.
Proof. destruct bs as [|? [|? [|? [|]]]]; simpl; intros; try done. lia. Qed.

Lemma XXH_PROCESS4_spec align h p :
  readable p 4 -> aligned align p 4 ->
  XXH_PROCESS4 align (h, p) = Some (mix4 h (le (bytes_at p 4)), padd p 4).
Proof. intros. unfold XXH_PROCESS4. by rewrite XXH_readLE32_align_spec. Qed.

Lemma run_tail32 align r : (r < 4)%nat -> forall q h p,
  readable p (4 * Z.of_nat q + Z.of_nat r) -> aligned align p 4 ->
  run (replicate q (XXH_PROCESS4 align) ++ replicate r XXH_PROCESS1) (h, p) =
  Some (tail32 h (bytes_at p (4 * Z.of_nat q + Z.of_nat r)), padd p (4 * Z.of_nat q + Z.of_nat r)).
Proof.
  intros Hr4. induction q as [|q IH]; intros h p Hr Ha.
  - replace (4 * Z.of_nat 0 + Z.of_nat r) with (Z.of_nat r) in * by lia. cbn [replicate app].
    rewrite (run_process1 mix1) by done. rewrite tail32_short; [done|].
    rewrite bytes_at_length by done. lia.
  - replace (4 * Z.of_nat (S q) + Z.of_nat r) with (4 + (4 * Z.of_nat q + Z.of_nat r)) in * by lia.
    destruct (readable_split _ _ _ Hr) as [Hr1 Hr2]; [lia..|]. cbn [replicate app run].
    rewrite XXH_PROCESS4_spec by done. cbn [mbind option_bind].
    rewrite IH by (done || by apply aligned_add). rewrite padd_padd.
    rewrite (bytes_at_split _ _ _ Hr), tail32_4 by (lia || by rewrite bytes_at_length). done.
Qed.

Lemma land_15 n : 0 <= Z.land n 15 < 16.
Proof. change 15 with (Z.ones 4). rewrite Z.land_ones by lia. mlia. Qed.

Lemma XXH32_finalize_spec h p len align :
  readable p (Z.land len 15) -> aligned align p 4 ->
  XXH32_finalize h p len align = Some (XXH32_avalanche (tail32 h (bytes_at p (Z.land len 15)))).
Proof.
  intros Hr Ha. unfold XXH32_finalize. pose proof (land_15 len) as Hn. set (n := Z.land len 15) in *. clearbody n.
  assert (exists k, n = Z.of_nat k) as [k ->] by (exists (Z.to_nat n); lia).
  assert (Hk : Z.of_nat k = 4 * Z.of_nat (k / 4) + Z.of_nat (k mod 4)) by (pose proof (Nat.div_mod_eq k 4); lia).
  pose proof (Nat.mod_upper_bound k 4 ltac:(done)) as Hm.
  pose proof (run_tail32 align (k mod 4) Hm (k / 4) h p) as Hrun.
  rewrite <- Hk in Hrun. specialize (Hrun Hr Ha). destruct XXH_REROLL.
  - rewrite Hk at 1. rewrite (while_run (XXH_PROCESS4 align) 4) by (done || lia).
    rewrite run_app in Hrun. destruct (run (replicate _ _) (h, p)) as [s|]; [|done]. cbn [mbind option_bind] in *.
    replace (Z.of_nat (k mod 4)) with (1 * Z.of_nat (k mod 4) + 0) by lia.
    rewrite (while_run XXH_PROCESS1 1); [by rewrite Hrun|lia|lia|].
    intros s' i. destruct (Z.ltb_spec 0 i), (Z.leb_spec 1 i); lia.
  - transitivity (s ← run (replicate (k / 4) (XXH_PROCESS4 align) ++ replicate (k mod 4) XXH_PROCESS1) (h, p);
      Some (XXH32_avalanche s.1)); [|by rewrite Hrun].
    clear - Hn. do 16 (destruct k as [|k]; [done|]). lia.
Qed.

End Finalize.

(** ** The whole hash *)

Section Hash.
Context `{Build}.

Lemma stripe32_spec get v p :
  (forall o, 0 <= o -> o mod 4 = 0 -> readable (padd p o) 4 -> get (padd p o) = Some (le (bytes_at (padd p o) 4))) ->
  readable p 16 -> stripe32 get (v, p) = Some (round32 v (bytes_at p 16), padd p 16).
Proof.
  intros Hg Hr. destruct v as [[[v1 v2] v3] v4]. unfold stripe32. rewrite !padd_padd. znums.
  rewrite <- (padd_0 p) at 1.
  rewrite !Hg by (done || lia || (apply (readable_sub _ _ _ _ Hr); lia)). cbn [mbind option_bind].
  rewrite !(bytes_at_sub p 16) by (done || lia). done.
Qed.

Definition align_stripe (align : XXH_alignment) := stripe32 (fun p => XXH_readLE32_align p align).

Lemma align_stripe_spec align v p :
  aligned align p 4 -> readable p 16 ->
  align_stripe align (v, p) = Some (round32 v (bytes_at p 16), padd p 16).
Proof.
  intros Ha Hr. apply stripe32_spec; [|done]. intros o Ho Hm Hr'.
  apply XXH_readLE32_align_spec; [done|]. by apply aligned_add.
Qed.

Lemma update_stripe_spec v p :
  readable p 16 -> stripe32 XXH_readLE32 (v, p) = Some (round32 v (bytes_at p 16), padd p 16).
Proof. intros Hr. apply stripe32_spec; [|done]. intros. by apply XXH_readLE32_spec. Qed.

Lemma XXH32_endian_align_spec input len seed align :
  readable input len -> aligned align input 4 -> is_null input = false ->
  XXH32_endian_align input len seed align = Some (xxh32 (bytes_at input len) seed).
Proof.
  intros Hr Ha Hnull. unfold XXH32_endian_align. rewrite Hnull, andb_false_r.
  assert (Hlen : 0 <= len) by (destruct Hr as (? & ? & ?); done).
  unfold xxh32. rewrite zlen_bytes_at by done. set (n := Z.to_nat (len / 16)).
  assert (Hn : len = Z.of_nat n * 16 + Z.land len 15).
  { change 15 with (Z.ones 4). rewrite Z.land_ones by lia. unfold n. change (2 ^ 4) with 16. mlia. }
  pose proof (land_15 len) as H15. set (m := Z.land len 15) in *.
  rewrite Hn in Hr. destruct (readable_split _ _ _ Hr) as [Hr1 Hr2]; [lia..|].
  assert (Hfin : forall h, XXH32_finalize h (padd input (Z.of_nat n * 16)) m align =
    Some (XXH32_avalanche (tail32 h (drop (16 * n) (bytes_at input len))))).
  { intros h. assert (Hm : Z.land m 15 = m) by (unfold m; by rewrite <- Z.land_assoc).
    rewrite XXH32_finalize_spec; rewrite ?Hm; [|done|apply aligned_add; [done|mlia|lia]].
    rewrite Hn, (bytes_at_split _ _ _ Hr) by lia. rewrite drop_app_length'; [done|].
    rewrite bytes_at_length by done. lia. }
  destruct (Z.leb_spec 16 len) as [Hge|Hlt].
  - destruct n as [|k] eqn:En; [lia|].
    fold (align_stripe align). rewrite (do_while_blocks round32 16 (align_stripe align) (fun p => aligned align p 4)) with (n := k).
    + cbn [mbind option_bind]. rewrite Hfin. do 4 f_equal. f_equal.
      rewrite Hn, (bytes_at_split _ _ _ Hr), blocks_app by (lia || (rewrite bytes_at_length by done; lia)). done.
    + lia.
    + intros. by apply aligned_add.
    + intros. by apply align_stripe_spec.
    + lia.
    + done.
    + done.
    + intros h i Hi. simpl. destruct (Z.ltb_spec (poff input + i * 16) (poff input + len + -15)), (Z.ltb_spec i (Z.of_nat (S k))); lia.
  - assert (n = 0%nat) as En by lia. rewrite En in *. cbn [mbind option_bind].
    rewrite <- (padd_0 input) at 1. rewrite <- (Z.mul_0_l 16). rewrite Hfin. done.
Qed.

Lemma XXH32_spec input len seed :
  readable input len -> is_null input = false -> XXH32 input len seed = Some (xxh32 (bytes_at input len) seed).
Proof.
  intros Hr Hnull. unfold XXH32.
  destruct (_ && (_ =? _)) eqn:E; apply XXH32_endian_align_spec; try done.
  apply andb_prop in E as [_ E%Z.eqb_eq]. intros _.
  change 3 with (Z.ones 2) in E. by rewrite Z.land_ones in E by lia.
Qed.

(** ** Streaming *)

(** The state after [bs], from seed [seed]. *)
Record rep32 (seed : Z) (bs : list byte) (st : XXH32_state) : Prop := {
  r32_total : total_len_32 st = u32 (zlen bs);
  r32_large : large_len st = Z.b2z (16 <=? zlen bs);
  r32_buf : buffered round32 16 (init32 seed) bs (v32 st) (mem32 st) (memsize32 st);
  r32_addr : addr32 st mod 4 = 0 }.

Lemma XXH32_reset_rep st seed :
  addr32 st mod 4 = 0 -> let '(r, st') := XXH32_reset st seed in r = XXH_OK /\ rep32 seed [] st'.
Proof.
  intros Ha. split; [done|]. split; try done. exists 0%nat, [], []. repeat split; try done.
  apply Forall_replicate. lia.
Qed.

Lemma b2z_lor a b : Z.lor (Z.b2z a) (Z.b2z b) = Z.b2z (a || b).
Proof. by destruct a, b. Qed.

Lemma XXH32_update_rep seed bs st input len :
  rep32 seed bs st -> readable input len -> is_null input = false -> len < 2 ^ 63 ->
  exists st', XXH32_update st input len = Some (XXH_OK, st') /\ rep32 seed (bs ++ bytes_at input len) st' /\
    addr32 st' = addr32 st.
Proof.
  intros [Ht Hl Hb Ha] Hr Hnull Hlen. unfold XXH32_update. rewrite Hnull.
  destruct (update_blocks_spec round32 16 (stripe32 XXH_readLE32) (init32 seed) ltac:(lia) update_stripe_spec
    bs (v32 st) (mem32 st) (memsize32 st) (addr32 st) input len Hb Hr Hlen) as (v' & mem' & ms' & E & Hb').
  rewrite E. cbn [mbind option_bind]. eexists. split; [done|]. split; [|done].
  pose proof (zlen_nonneg bs). assert (0 <= len) by (destruct Hr as (? & ? & ?); done).
  split; simpl; try done; rewrite zlen_app, zlen_bytes_at by done.
  - by rewrite Ht, u32_add_l, u32_add_r.
  - rewrite Hl, !b2z_lor, Ht. f_equal. rewrite u32_add_l, u32_add_r.
    destruct (Z.leb_spec 16 (zlen bs)), (Z.leb_spec 16 len); simpl; try by rewrite (proj2 (Z.leb_le _ _)) by lia.
    rewrite u32_small by lia. done.
Qed.

Lemma XXH32_digest_rep seed bs st :
  rep32 seed bs st -> XXH32_digest st = Some (xxh32 bs seed).
Proof.
  intros [Ht Hl (q & pre & rest & -> & Hpre & Hrest & Hv & Hm & Hok & Hms & Hsl) Ha].
  unfold XXH32_digest. destruct (v32 st) as [[[v1 v2] v3] v4]. pose proof (zlen_nonneg rest).
  assert (Hland : Z.land (memsize32 st) 15 = memsize32 st).
  { change 15 with (Z.ones 4). rewrite Z.land_ones by lia. apply Z.mod_small. lia. }
  rewrite XXH32_finalize_spec; rewrite ?Hland;
    [|repeat split; simpl; try lia; done|intros _; unfold address; simpl; by rewrite Z.add_0_r].
  change (bytes_at _ (memsize32 st)) with (slice (mem32 st) 0 (memsize32 st)). rewrite Hsl.
  unfold xxh32. rewrite Ht, Hl. rewrite zlen_app in *.
  replace ((zlen pre + zlen rest) / 16) with (Z.of_nat q) by mlia. rewrite Nat2Z.id.
  rewrite drop_app_length' by (unfold zlen in *; lia).
  rewrite blocks_app by (unfold zlen in *; lia). change (Z.to_nat 16) with 16%nat in Hv. rewrite <- Hv.
  do 4 f_equal. destruct (Z.leb_spec 16 (zlen pre + zlen rest)); [done|]. simpl.
  assert (q = 0%nat) as -> by lia. simpl in Hv. injection Hv as -> -> -> ->.
  rewrite Z.add_0_r, u32_add_l. done.
Qed.

End Hash.

Lemma XXH32_avalanche_range h : 0 <= XXH32_avalanche h < 2 ^ 32.
Proof. apply xorshift_range; [lia..|]. apply u32_range. Qed.

(** Hash [parts], one update each. *)
Definition XXH32_stream `{Build} (st : XXH32_state) (seed : Z) (parts : list (ptr * Z)) : option Z :=
  let '(_, st) := XXH32_reset st seed in st ← feed XXH32_update st parts; XXH32_digest st.

(** However an input is cut into parts (empty ones, parts of any
    length and alignment), resetting a state with a seed, updating it with each
    part and digesting it gives the hash that one call of XXH32 gives for the whole
    input, and both read only their inputs.  The build options of the two sides may
    differ: byte order, alignment checks, access method and rerolling do not change
    the hash. *)
Theorem XXH32_streaming (b1 b2 : Build) (st : XXH32_state) (seed : Z) (parts : list (ptr * Z)) (input : ptr)
    (Hst : addr32 st mod 4 = 0) (Hparts : Forall valid_part parts) (Hin : whole input parts) :
  exists h, 0 <= h < 2 ^ 32 /\ @XXH32 b1 input (zlen (parts_data parts)) seed = Some h /\
    @XXH32_stream b2 st seed parts = Some h.
Proof.
  destruct Hin as ([Hr Hnull] & Hb & Hl). exists (xxh32 (parts_data parts) seed).
  split; [apply XXH32_avalanche_range|]. split; [by rewrite XXH32_spec, Hb by done|].
  unfold XXH32_stream. pose proof (XXH32_reset_rep st seed Hst) as HR. destruct (XXH32_reset st seed) as [r st0].
  destruct HR as [-> Hrep].
  destruct (feed_spec XXH32_update (rep32 seed)) with (parts := parts) (bs := @nil byte) (st := st0)
    as (st' & -> & Hrep'); [|done..|].
  - intros bs s p n Hs [Hrp Hnp] Hn. pose proof (zlen_nonneg bs).
    destruct (XXH32_update_rep seed bs s p n) as (s' & E & HR & _); [done..|lia|]. by exists s'.
  - by apply XXH32_digest_rep.
Qed.

Lemma XXH32_streaming_witness :
  exists h, 0 <= h < 2 ^ 32 /\ @XXH32 build_x86_64 (Ptr xxh_sample 4096 0) 43 7 = Some h /\
    @XXH32_stream build_odd (XXH32_State 0 0 (0, 0, 0, 0) (replicate 16 0) 0 64) 7
      [(Ptr xxh_sample 4096 0, 5); (Ptr xxh_sample 4096 5, 0); (Ptr xxh_sample 4096 5, 38)] = Some h.
Proof.
  apply (XXH32_streaming build_x86_64 build_odd (XXH32_State 0 0 (0, 0, 0, 0) (replicate 16 0) 0 64) 7
    [(Ptr xxh_sample 4096 0, 5); (Ptr xxh_sample 4096 5, 0); (Ptr xxh_sample 4096 5, 38)] (Ptr xxh_sample 4096 0)).
  - done.
  - repeat (apply Forall_cons; split); try apply sample_part; done.
  - split; [by apply sample_part|done].
Defined.

(** The hash of abc with seed 0. *)
Example XXH32_abc : @XXH32 build_x86_64 (Ptr [97; 98; 99] 8 0) 3 0 = Some 852579327.
Proof. reflexivity. Qed.
