(* ===== verification/Xxh64.v ===== *)
(** * XXH64 (include/hash/xxhash.h)

    The 64-bit hash, in one call and as a stream.  Both are shown to compute
    [xxh64], a definition on lists of bytes, in every build configuration. *)

From S2P Require Import Prelude Words Xxh Xxh32.
Local Open Scope Z_scope.

Section XXH64.
Context `{Build}.

Definition XXH64_round (acc input : Z) : Z :=
  let acc := u64 (acc + u64 (input * XXH_PRIME64_2)) in
  let acc := XXH_rotl64 acc 31 in
  u64 (acc * XXH_PRIME64_1).

Definition XXH64_mergeRound (acc val : Z) : Z :=
  let val := XXH64_round 0 val in
  let acc := Z.lxor acc val in
  u64 (u64 (acc * XXH_PRIME64_1) + XXH_PRIME64_4).

Definition XXH64_avalanche (h64 : Z) : Z :=
  let h64 := Z.lxor h64 (Z.shiftr h64 33) in
  let h64 := u64 (h64 * XXH_PRIME64_2) in
  let h64 := Z.lxor h64 (Z.shiftr h64 29) in
  let h64 := u64 (h64 * XXH_PRIME64_3) in
  Z.lxor h64 (Z.shiftr h64 32).

Definition mix1_64 (h64 x : Z) : Z :=
  let h64 := Z.lxor h64 (u64 (x * XXH_PRIME64_5)) in
  u64 (XXH_rotl64 h64 11 * XXH_PRIME64_1).
Definition mix4_64 (h64 x : Z) : Z :=
  let h64 := Z.lxor h64 (u64 (x * XXH_PRIME64_1)) in
  u64 (u64 (XXH_rotl64 h64 23 * XXH_PRIME64_2) + XXH_PRIME64_3).
Definition mix8_64 (h64 x : Z) : Z :=
  let k1 := XXH64_round 0 x in
  let h64 := Z.lxor h64 k1 in
  u64 (u64 (XXH_rotl64 h64 27 * XXH_PRIME64_1) + XXH_PRIME64_4).

Definition XXH_PROCESS1_64 (s : Z * ptr) : option (Z * ptr) :=
  let '(h64, p) := s in x ← load8 p; Some (mix1_64 h64 x, padd p 1).
Definition XXH_PROCESS4_64 (align : XXH_alignment) (s : Z * ptr) : option (Z * ptr) :=
  let '(h64, p) := s in x ← XXH_readLE32_align p align; Some (mix4_64 h64 x, padd p 4).
Definition XXH_PROCESS8_64 (align : XXH_alignment) (s : Z * ptr) : option (Z * ptr) :=
  let '(h64, p) := s in x ← XXH_readLE64_align p align; Some (mix8_64 h64 x, padd p 8).

Definition XXH64_finalize (h64 : Z) (p : ptr) (len : Z) (align : XXH_alignment) : option Z :=
  let P1 := XXH_PROCESS1_64 in
  let P4 := XXH_PROCESS4_64 align in
  let P8 := XXH_PROCESS8_64 align in
  if XXH_REROLL || XXH_REROLL_XXH64 then
    let len := Z.land len 31 in
    '(s, len) ← while 32 (fun '(s, len) => 8 <=? len) (fun '(s, len) => s ← P8 s; Some (s, len - 8)) ((h64, p), len);
    '(s, len) ← (if 4 <=? len then s ← P4 s; Some (s, len - 4) else Some (s, len));
    '(s, len) ← while 32 (fun '(s, len) => 0 <? len) (fun '(s, len) => s ← P1 s; Some (s, len - 1)) (s, len);
    Some (XXH64_avalanche s.1)
  else
    let finish steps := s ← run steps (h64, p); Some (XXH64_avalanche s.1) in
    match Z.land len 31 with
    | 24 => finish [P8; P8; P8]
    | 16 => finish [P8; P8]
    | 8 => finish [P8]
    | 28 => finish [P8; P8; P8; P4]
    | 20 => finish [P8; P8; P4]
    | 12 => finish [P8; P4]
    | 4 => finish [P4]
    | 25 => finish [P8; P8; P8; P1]
    | 17 => finish [P8; P8; P1]
    | 9 => finish [P8; P1]
    | 29 => finish [P8; P8; P8; P4; P1]
    | 21 => finish [P8; P8; P4; P1]
    | 13 => finish [P8; P4; P1]
    | 5 => finish [P4; P1]
    | 26 => finish [P8; P8; P8; P1; P1]
    | 18 => finish [P8; P8; P1; P1]
    | 10 => finish [P8; P1; P1]
    | 30 => finish [P8; P8; P8; P4; P1; P1]
    | 22 => finish [P8; P8; P4; P1; P1]
    | 14 => finish [P8; P4; P1; P1]
    | 6 => finish [P4; P1; P1]
    | 27 => finish [P8; P8; P8; P1; P1; P1]
    | 19 => finish [P8; P8; P1; P1; P1]
    | 11 => finish [P8; P1; P1; P1]
    | 31 => finish [P8; P8; P8; P4; P1; P1; P1]
    | 23 => finish [P8; P8; P4; P1; P1; P1]
    | 15 => finish [P8; P4; P1; P1; P1]
    | 7 => finish [P4; P1; P1; P1]
    | 3 => finish [P1; P1; P1]
    | 2 => finish [P1; P1]
    | 1 => finish [P1]
    | 0 => finish []
    | _ => Some 0
    end.

(** v1 = XXH64_round(v1, get(p)); p += 8; and so on up to v4 *)
Definition stripe64 (get : ptr -> option Z) (s : lanes * ptr) : option (lanes * ptr) :=
  let '(v1, v2, v3, v4, p) := s in
  k1 ← get p; let v1 := XXH64_round v1 k1 in let p := padd p 8 in
  k2 ← get p; let v2 := XXH64_round v2 k2 in let p := padd p 8 in
  k3 ← get p; let v3 := XXH64_round v3 k3 in let p := padd p 8 in
  k4 ← get p; let v4 := XXH64_round v4 k4 in let p := padd p 8 in
  Some (v1, v2, v3, v4, p).

Definition init64 (seed : Z) : lanes :=
  (u64 (u64 (seed + XXH_PRIME64_1) + XXH_PRIME64_2), u64 (seed + XXH_PRIME64_2),
   u64 (seed + 0), u64 (seed - XXH_PRIME64_1)).

Definition merge64 (v : lanes) : Z :=
  let '(v1, v2, v3, v4) := v in
  let h64 := u64 (u64 (u64 (XXH_rotl64 v1 1 + XXH_rotl64 v2 7) + XXH_rotl64 v3 12) + XXH_rotl64 v4 18) in
  let h64 := XXH64_mergeRound h64 v1 in
  let h64 := XXH64_mergeRound h64 v2 in
  let h64 := XXH64_mergeRound h64 v3 in
  XXH64_mergeRound h64 v4.

Definition XXH64_endian_align (input : ptr) (len seed : Z) (align : XXH_alignment) : option Z :=
  let '(input, len) :=
    if XXH_ACCEPT_NULL_INPUT_POINTER && is_null input then (Ptr [] 32 0, 0) else (input, len) in
  let bEnd := padd input len in
  '(h64, input) ←
    (if 32 <=? len then
       let limit := padd bEnd (-32) in
       '(v, input) ← do_while (Z.to_nat len) (stripe64 (fun p => XXH_readLE64_align p align))
         (fun s => poff s.2 <=? poff limit) (init64 seed, input);
       Some (merge64 v, input)
     else Some (u64 (seed + XXH_PRIME64_5), input));
  let h64 := u64 (h64 + len) in
  XXH64_finalize h64 input len align.

Definition XXH64 (input : ptr) (len seed : Z) : option Z :=
  if XXH_FORCE_ALIGN_CHECK && (Z.land (address input) 7 =? 0)
  then XXH64_endian_align input len seed XXH_aligned
  else XXH64_endian_align input len seed XXH_unaligned.

(** [v64]: v1 to v4; [addr64]: the address of the member mem64. *)
Record XXH64_state := XXH64_State {
  total_len : Z; v64 : lanes; mem64 : list byte; memsize64 : Z; addr64 : Z }.

Definition XXH64_copyState (dstState srcState : XXH64_state) : XXH64_state :=
  XXH64_State (total_len srcState) (v64 srcState) (mem64 srcState) (memsize64 srcState) (addr64 dstState).

Definition XXH64_reset (statePtr : XXH64_state) (seed : Z) : XXH_errorcode * XXH64_state :=
  (XXH_OK, XXH64_State 0 (init64 seed) (replicate 32 0) 0 (addr64 statePtr)).

Definition XXH64_update (state : XXH64_state) (input : ptr) (len : Z)
  : option (XXH_errorcode * XXH64_state) :=
  if is_null input then
    Some (if XXH_ACCEPT_NULL_INPUT_POINTER then XXH_OK else XXH_ERROR, state)
  else
    let total := u64 (total_len state + len) in
    '(v, mem, memsize) ←
      update_blocks 32 (stripe64 XXH_readLE64) (addr64 state) (v64 state) (mem64 state) (memsize64 state) input len;
    Some (XXH_OK, XXH64_State total v mem memsize (addr64 state)).

Definition XXH64_digest (state : XXH64_state) : option Z :=
  let '(v1, v2, v3, v4) := v64 state in
  let h64 := if 32 <=? total_len state then merge64 (v64 state) else u64 (v3 + XXH_PRIME64_5) in
  let h64 := u64 (h64 + total_len state) in
  XXH64_finalize h64 (Ptr (mem64 state) (addr64 state) 0) (total_len state) XXH_aligned.

(** ** The hash of a list of bytes *)

Definition round64 (v : lanes) (b : list byte) : lanes :=
  let '(v1, v2, v3, v4) := v in
  (XXH64_round v1 (le (slice b 0 8)), XXH64_round v2 (le (slice b 8 8)),
   XXH64_round v3 (le (slice b 16 8)), XXH64_round v4 (le (slice b 24 8))).

(** At most seven bytes. *)
Definition short64 (h : Z) (bs : list byte) : Z :=
  match bs with
  | a :: b :: c :: d :: bs => fold_left mix1_64 bs (mix4_64 h (le [a; b; c; d]))
  | _ => fold_left mix1_64 bs h
  end.

Definition tail64 (h : Z) (bs : list byte) : Z :=
  let q := (length bs / 8)%nat in
  short64 (blocks (fun h b => mix8_64 h (le b)) 8 q h bs) (drop (q * 8) bs).

Definition xxh64 (bs : list byte) (seed : Z) : Z :=
  let n := Z.to_nat (zlen bs / 32) in
  let h := if 32 <=? zlen bs then merge64 (blocks round64 32 n (init64 seed) bs)
           else u64 (seed + XXH_PRIME64_5) in
  XXH64_avalanche (tail64 (u64 (h + zlen bs)) (drop (32 * n) bs)).

End XXH64.

(** ** Finalization *)

Section Finalize.
Context `{Build}.

Lemma XXH_PROCESS4_64_spec align h p :
  readable p 4 -> aligned align p 4 ->
  XXH_PROCESS4_64 align (h, p) = Some (mix4_64 h (le (bytes_at p 4)), padd p 4).
Proof. intros. unfold XXH_PROCESS4_64. by rewrite XXH_readLE32_align_spec. Qed.

Lemma XXH_PROCESS8_64_spec align h p :
  readable p 8 -> aligned align p 8 ->
  XXH_PROCESS8_64 align (h, p) = Some (mix8_64 h (le (bytes_at p 8)), padd p 8).
Proof. intros. unfold XXH_PROCESS8_64. by rewrite XXH_readLE64_align_spec. Qed.

(** The steps for the last [r] < 8 bytes. *)
Definition short_steps (align : XXH_alignment) (r : nat) : list (Z * ptr -> option (Z * ptr)) :=
  (if (4 <=? r)%nat then [XXH_PROCESS4_64 align] else []) ++ replicate (r mod 4) XXH_PROCESS1_64.

Lemma run_short64 align r h p :
  (r < 8)%nat -> readable p (Z.of_nat r) -> aligned align p 8 ->
  run (short_steps align r) (h, p) = Some (short64 h (bytes_at p (Z.of_nat r)), padd p (Z.of_nat r)).
Proof.
  intros Hr8 Hr Ha. unfold short_steps. destruct (Nat.leb_spec 4 r) as [H4|H4].
  - assert (Hmod : Z.of_nat r = 4 + Z.of_nat (r mod 4)).
    { pose proof (Nat.div_mod_eq r 4). pose proof (Nat.mod_upper_bound r 4). lia. }
    rewrite Hmod in *. destruct (readable_split _ _ _ Hr) as [Hr1 Hr2]; [lia..|]. cbn [app run].
    rewrite XXH_PROCESS4_64_spec by (done || by apply aligned_8_4). cbn [mbind option_bind].
    rewrite (run_process1 mix1_64) by done. rewrite padd_padd, (bytes_at_split _ _ _ Hr) by lia.
    destruct (take_le_4 (bytes_at p 4)) as (a & b & c & d & ->); [by rewrite bytes_at_length|done].
  - rewrite Nat.mod_small by lia. cbn [app]. rewrite (run_process1 mix1_64) by done. do 2 f_equal.
    pose proof (bytes_at_length _ _ Hr). destruct (bytes_at p (Z.of_nat r)) as [|? [|? [|? [|]]]]; try done.
    simpl in *. lia.
Qed.

Lemma run_tail64 align r : (r < 8)%nat -> forall q h p,
  readable p (8 * Z.of_nat q + Z.of_nat r) -> aligned align p 8 ->
  run (replicate q (XXH_PROCESS8_64 align) ++ short_steps align r) (h, p) =
  Some (short64 (blocks (fun h b => mix8_64 h (le b)) 8 q h (bytes_at p (8 * Z.of_nat q)))
                (bytes_at (padd p (8 * Z.of_nat q)) (Z.of_nat r)), padd p (8 * Z.of_nat q + Z.of_nat r)).
Proof.
  intros Hr8. induction q as [|q IH]; intros h p Hr Ha.
  - change (8 * Z.of_nat 0) with 0 in *. rewrite padd_0. cbn [replicate app]. by rewrite run_short64.
  - replace (8 * Z.of_nat (S q) + Z.of_nat r) with (8 + (8 * Z.of_nat q + Z.of_nat r)) in * by lia.
    destruct (readable_split _ _ _ Hr) as [Hr1 Hr2]; [lia..|]. cbn [replicate app run].
    rewrite XXH_PROCESS8_64_spec by done. cbn [mbind option_bind].
    rewrite IH by (done || by apply aligned_add). rewrite !padd_padd.
    replace (8 * Z.of_nat (S q)) with (8 + 8 * Z.of_nat q) by lia.
    rewrite (bytes_at_split p 8 (8 * Z.of_nat q)); [|rewrite <- (padd_0 p); apply (readable_sub _ _ _ _ Hr); lia|lia..].
    cbn [blocks]. rewrite take_app_length', drop_app_length' by by rewrite bytes_at_length. done.
Qed.

Lemma run_tail64_all align h p n :
  readable p (Z.of_nat n) -> aligned align p 8 ->
  exists p', run (replicate (n / 8) (XXH_PROCESS8_64 align) ++ short_steps align (n mod 8)) (h, p) =
    Some (tail64 h (bytes_at p (Z.of_nat n)), p').
Proof.
  intros Hr Ha. assert (Hn : Z.of_nat n = 8 * Z.of_nat (n / 8) + Z.of_nat (n mod 8)).
  { pose proof (Nat.div_mod_eq n 8). lia. }
  pose proof (bytes_at_length _ _ Hr) as Hl. rewrite Nat2Z.id in Hl.
  rewrite run_tail64; [|by apply Nat.mod_upper_bound|by rewrite <- Hn|done]. eexists. do 2 f_equal.
  unfold tail64. rewrite Hl. rewrite Hn in Hr |- *.
  destruct (readable_split _ _ _ Hr) as [Hr1 Hr2]; [lia..|].
  rewrite (bytes_at_split _ _ _ Hr) by lia.
  pose proof (bytes_at_length _ _ Hr1). rewrite blocks_app, drop_app_length' by lia. done.
Qed.

Lemma land_31 n : 0 <= Z.land n 31 < 32.
Proof. change 31 with (Z.ones 5). rewrite Z.land_ones by lia. mlia. Qed.

Lemma XXH64_finalize_spec h p len align :
  readable p (Z.land len 31) -> aligned align p 8 ->
  XXH64_finalize h p len align = Some (XXH64_avalanche (tail64 h (bytes_at p (Z.land len 31)))).
Proof.
  intros Hr Ha. unfold XXH64_finalize. pose proof (land_31 len) as Hn. set (n := Z.land len 31) in *. clearbody n.
  assert (exists k, n = Z.of_nat k) as [k ->] by (exists (Z.to_nat n); lia).
  destruct (run_tail64_all align h p k Hr Ha) as [p' Hrun].
  pose proof (Nat.mod_upper_bound k 8 ltac:(done)) as Hm. destruct (XXH_REROLL || XXH_REROLL_XXH64).
  - assert (Hk : Z.of_nat k = 8 * Z.of_nat (k / 8) + Z.of_nat (k mod 8)) by (pose proof (Nat.div_mod_eq k 8); lia).
    rewrite Hk at 1. rewrite (while_run (XXH_PROCESS8_64 align) 8) by (done || lia). clear Hk.
    rewrite run_app in Hrun. destruct (run (replicate _ _) (h, p)) as [s|]; [|done]. cbn [mbind option_bind] in *.
    unfold short_steps in Hrun. set (r := (k mod 8)%nat) in *. clearbody r.
    assert (Hw : forall s, while 32 (fun '(s, len) => 0 <? len)
        (fun '(s, len) => s ← XXH_PROCESS1_64 s; Some (s, len - 1)) (s, Z.of_nat (r mod 4)) =
      s ← run (replicate (r mod 4) XXH_PROCESS1_64) s; Some (s, 0)).
    { intros s'. pose proof (Nat.mod_upper_bound r 4 ltac:(done)).
      replace (Z.of_nat (r mod 4)) with (1 * Z.of_nat (r mod 4) + 0) by lia.
      apply (while_run XXH_PROCESS1_64 1); [lia|lia|]. intros ? i. destruct (Z.ltb_spec 0 i), (Z.leb_spec 1 i); lia. }
    destruct (Nat.leb_spec 4 r) as [H4|H4].
    + rewrite (proj2 (Z.leb_le _ _)) by lia. cbn [app run] in Hrun.
      destruct (XXH_PROCESS4_64 align s) as [s'|]; [|done]. cbn [mbind option_bind] in *.
      replace (Z.of_nat r - 4) with (Z.of_nat (r mod 4)).
      { rewrite Hw, Hrun. done. }
      pose proof (Nat.div_mod_eq r 4). pose proof (Nat.mod_upper_bound r 4). lia.
    + rewrite (proj2 (Z.leb_gt _ _)) by lia. cbn [mbind option_bind app] in *.
      rewrite Nat.mod_small in Hw, Hrun by lia. rewrite Hw, Hrun. done.
  - transitivity (s ← run (replicate (k / 8) (XXH_PROCESS8_64 align) ++ short_steps align (k mod 8)) (h, p);
      Some (XXH64_avalanche s.1)); [|by rewrite Hrun].
    clear - Hn. do 32 (destruct k as [|k]; [done|]). lia.
Qed.

End Finalize.

(** ** The whole hash *)

Section Hash.
Context `{Build}.

Lemma stripe64_spec get v p :
  (forall o, 0 <= o -> o mod 8 = 0 -> readable (padd p o) 8 -> get (padd p o) = Some (le (bytes_at (padd p o) 8))) ->
  readable p 32 -> stripe64 get (v, p) = Some (round64 v (bytes_at p 32), padd p 32).
Proof.
  intros Hg Hr. destruct v as [[[v1 v2] v3] v4]. unfold stripe64. rewrite !padd_padd. znums.
  rewrite <- (padd_0 p) at 1.
  rewrite !Hg by (done || lia || (apply (readable_sub _ _ _ _ Hr); lia)). cbn [mbind option_bind].
  rewrite !(bytes_at_sub p 32) by (done || lia). done.
Qed.

Definition align_stripe64 (align : XXH_alignment) := stripe64 (fun p => XXH_readLE64_align p align).

Lemma align_stripe64_spec align v p :
  aligned align p 8 -> readable p 32 ->
  align_stripe64 align (v, p) = Some (round64 v (bytes_at p 32), padd p 32).
Proof.
  intros Ha Hr. apply stripe64_spec; [|done]. intros o Ho Hm Hr'.
  apply XXH_readLE64_align_spec; [done|]. by apply aligned_add.
Qed.

Lemma update_stripe64_spec v p :
  readable p 32 -> stripe64 XXH_readLE64 (v, p) = Some (round64 v (bytes_at p 32), padd p 32).
Proof. intros Hr. apply stripe64_spec; [|done]. intros. by apply XXH_readLE64_spec. Qed.

Lemma XXH64_endian_align_spec input len seed align :
  readable input len -> aligned align input 8 -> is_null input = false ->
  XXH64_endian_align input len seed align = Some (xxh64 (bytes_at input len) seed).
Proof.
  intros Hr Ha Hnull. unfold XXH64_endian_align. rewrite Hnull, andb_false_r.
  assert (Hlen : 0 <= len) by (destruct Hr as (? & ? & ?); done).
  unfold xxh64. rewrite zlen_bytes_at by done. set (n := Z.to_nat (len / 32)).
  assert (Hn : len = Z.of_nat n * 32 + Z.land len 31).
  { change 31 with (Z.ones 5). rewrite Z.land_ones by lia. unfold n. change (2 ^ 5) with 32. mlia. }
  pose proof (land_31 len) as H31. set (m := Z.land len 31) in *.
  rewrite Hn in Hr. destruct (readable_split _ _ _ Hr) as [Hr1 Hr2]; [lia..|].
  assert (Hfin : forall h, XXH64_finalize h (padd input (Z.of_nat n * 32)) len align =
    Some (XXH64_avalanche (tail64 h (drop (32 * n) (bytes_at input len))))).
  { intros h. rewrite XXH64_finalize_spec; [|done|apply aligned_add; [done|mlia|lia]]. fold m.
    rewrite Hn, (bytes_at_split _ _ _ Hr) by lia. rewrite drop_app_length'; [done|].
    rewrite bytes_at_length by done. lia. }
  destruct (Z.leb_spec 32 len) as [Hge|Hlt].
  - destruct n as [|k] eqn:En; [lia|].
    fold (align_stripe64 align). rewrite (do_while_blocks round64 32 (align_stripe64 align) (fun p => aligned align p 8)) with (n := k).
    + cbn [mbind option_bind]. rewrite Hfin. do 4 f_equal. f_equal.
      rewrite Hn, (bytes_at_split _ _ _ Hr), blocks_app by (lia || (rewrite bytes_at_length by done; lia)). done.
    + lia.
    + intros. by apply aligned_add.
    + intros. by apply align_stripe64_spec.
    + lia.
    + done.
    + done.
    + intros h i Hi. simpl. destruct (Z.leb_spec (poff input + i * 32) (poff input + len + -32)), (Z.ltb_spec i (Z.of_nat (S k))); lia.
  - assert (n = 0%nat) as En by lia. rewrite En in *. cbn [mbind option_bind].
    rewrite <- (padd_0 input) at 1. rewrite <- (Z.mul_0_l 32). rewrite Hfin. done.
Qed.

Lemma XXH64_spec input len seed :
  readable input len -> is_null input = false -> XXH64 input len seed = Some (xxh64 (bytes_at input len) seed).
Proof.
  intros Hr Hnull. unfold XXH64.
  destruct (_ && (_ =? _)) eqn:E; apply XXH64_endian_align_spec; try done.
  apply andb_prop in E as [_ E%Z.eqb_eq]. intros _.
  change 7 with (Z.ones 3) in E. by rewrite Z.land_ones in E by lia.
Qed.

(** ** Streaming *)

(** The state after [bs], from seed [seed]. *)
Record rep64 (seed : Z) (bs : list byte) (st : XXH64_state) : Prop := {
  r64_total : total_len st = zlen bs;
  r64_buf : buffered round64 32 (init64 seed) bs (v64 st) (mem64 st) (memsize64 st);
  r64_addr : addr64 st mod 8 = 0 }.

Lemma XXH64_reset_rep st seed :
  addr64 st mod 8 = 0 -> let '(r, st') := XXH64_reset st seed in r = XXH_OK /\ rep64 seed [] st'.
Proof.
  intros Ha. split; [done|]. split; try done. exists 0%nat, [], []. repeat split; try done.
  apply Forall_replicate. lia.
Qed.

Lemma XXH64_update_rep seed bs st input len :
  rep64 seed bs st -> readable input len -> is_null input = false -> zlen bs + len < 2 ^ 63 ->
  exists st', XXH64_update st input len = Some (XXH_OK, st') /\ rep64 seed (bs ++ bytes_at input len) st'.
Proof.
  intros [Ht Hb Ha] Hr Hnull Hlen. unfold XXH64_update. rewrite Hnull.
  pose proof (zlen_nonneg bs). assert (0 <= len) by (destruct Hr as (? & ? & ?); done).
  destruct (update_blocks_spec round64 32 (stripe64 XXH_readLE64) (init64 seed) ltac:(lia) update_stripe64_spec
    bs (v64 st) (mem64 st) (memsize64 st) (addr64 st) input len Hb Hr ltac:(lia)) as (v' & mem' & ms' & E & Hb').
  rewrite E. cbn [mbind option_bind]. eexists. split; [done|].
  split; simpl; try done. rewrite zlen_app, zlen_bytes_at, Ht by done. apply u64_small. lia.
Qed.

Lemma XXH64_digest_rep seed bs st :
  rep64 seed bs st -> XXH64_digest st = Some (xxh64 bs seed).
Proof.
  intros [Ht (q & pre & rest & -> & Hpre & Hrest & Hv & Hm & Hok & Hms & Hsl) Ha].
  unfold XXH64_digest. destruct (v64 st) as [[[v1 v2] v3] v4]. pose proof (zlen_nonneg rest).
  rewrite zlen_app in Ht. assert (Hland : Z.land (total_len st) 31 = memsize64 st).
  { change 31 with (Z.ones 5). rewrite Z.land_ones, Ht by lia. change (2 ^ 5) with 32. mlia. }
  rewrite XXH64_finalize_spec; rewrite ?Hland;
    [|repeat split; simpl; try lia; done|intros _; unfold address; simpl; by rewrite Z.add_0_r].
  change (bytes_at _ (memsize64 st)) with (slice (mem64 st) 0 (memsize64 st)). rewrite Hsl.
  unfold xxh64. rewrite Ht. rewrite zlen_app in *.
  replace ((zlen pre + zlen rest) / 32) with (Z.of_nat q) by mlia. rewrite Nat2Z.id.
  rewrite drop_app_length' by (unfold zlen in *; lia).
  rewrite blocks_app by (unfold zlen in *; lia). change (Z.to_nat 32) with 32%nat in Hv. rewrite <- Hv.
  do 4 f_equal. destruct (Z.leb_spec 32 (zlen pre + zlen rest)); [done|].
  assert (q = 0%nat) as -> by lia. simpl in Hv. injection Hv as -> -> -> ->.
  rewrite Z.add_0_r, u64_add_l. done.
Qed.

End Hash.

Lemma XXH64_avalanche_range h : 0 <= XXH64_avalanche h < 2 ^ 64.
Proof. apply xorshift_range; [lia..|]. apply u64_range. Qed.

(** Hash [parts], one update each. *)
Definition XXH64_stream `{Build} (st : XXH64_state) (seed : Z) (parts : list (ptr * Z)) : option Z :=
  let '(_, st) := XXH64_reset st seed in st ← feed XXH64_update st parts; XXH64_digest st.

(** C38: However an input is cut into parts, resetting a state with a
    seed, updating it with each part and digesting it gives the hash that one call
    of XXH64 gives for the whole input, and both read only their inputs, whatever
    the build options of the two sides. *)
Theorem XXH64_streaming (b1 b2 : Build) (st : XXH64_state) (seed : Z) (parts : list (ptr * Z)) (input : ptr)
    (Hst : addr64 st mod 8 = 0) (Hparts : Forall valid_part parts) (Hin : whole input parts) :
  exists h, 0 <= h < 2 ^ 64 /\ @XXH64 b1 input (zlen (parts_data parts)) seed = Some h /\
    @XXH64_stream b2 st seed parts = Some h.
Proof.
  destruct Hin as ([Hr Hnull] & Hb & Hl). exists (xxh64 (parts_data parts) seed).
  split; [apply XXH64_avalanche_range|]. split; [by rewrite XXH64_spec, Hb by done|].
  unfold XXH64_stream. pose proof (XXH64_reset_rep st seed Hst) as HR. destruct (XXH64_reset st seed) as [r st0].
  destruct HR as [-> Hrep].
  destruct (feed_spec XXH64_update (rep64 seed)) with (parts := parts) (bs := @nil byte) (st := st0)
    as (st' & -> & Hrep'); [|done..|].
  - intros bs s p n Hs [Hrp Hnp] Hn. by apply XXH64_update_rep.
  - by apply XXH64_digest_rep.
Qed.

Lemma XXH64_streaming_witness :
  exists h, 0 <= h < 2 ^ 64 /\ @XXH64 build_odd (Ptr xxh_sample 4096 0) 77 7 = Some h /\
    @XXH64_stream build_x86_64 (XXH64_State 0 (0, 0, 0, 0) (replicate 32 0) 0 64) 7
      [(Ptr xxh_sample 4096 0, 5); (Ptr xxh_sample 4096 5, 0); (Ptr xxh_sample 4096 5, 72)] = Some h.
Proof.
  apply (XXH64_streaming build_odd build_x86_64 (XXH64_State 0 (0, 0, 0, 0) (replicate 32 0) 0 64) 7
    [(Ptr xxh_sample 4096 0, 5); (Ptr xxh_sample 4096 5, 0); (Ptr xxh_sample 4096 5, 72)] (Ptr xxh_sample 4096 0)).
  - done.
  - repeat (apply Forall_cons; split); try apply sample_part; done.
  - split; [by apply sample_part|done].
Defined.

(** The hash of abc with seed 0. *)
Example XXH64_abc : @XXH64 build_x86_64 (Ptr [97; 98; 99] 8 0) 3 0 = Some 4952883123889572249.
Proof. reflexivity. Qed.
