(* ===== verification/Xxh3Vec.v ===== *)
(** * XXH3: the secret and the kernels (include/hash/xxhash.h)

    Long inputs are absorbed by three functions the header writes once per
    instruction set: accumulate, scramble and the derivation of a secret from a
    seed.  A vector register is the list of its 64-bit lanes, the lowest first, and
    an intrinsic a function on lanes; acc[8] is read and written as an array of such
    registers.  Every variant is shown to compute the same function of lanes. *)

From S2P Require Import Prelude Words Xxh.
Local Open Scope Z_scope.

Definition XXH3_SECRET_SIZE_MIN : Z := 136.
Definition XXH_SECRET_DEFAULT_SIZE : Z := 192.
Definition XXH_STRIPE_LEN : Z := 64.
Definition XXH_SECRET_CONSUME_RATE : Z := 8.
Definition XXH_ACC_NB : Z := 8.

Definition XXH3_kSecret : list byte :=
  [184; 254; 108; 57; 35; 164; 75; 190; 124; 1; 129; 44; 247; 33; 173; 28;
   222; 212; 109; 233; 131; 144; 151; 219; 114; 64; 164; 164; 183; 179; 103; 31;
   203; 121; 230; 78; 204; 192; 229; 120; 130; 90; 208; 125; 204; 255; 114; 33;
   184; 8; 70; 116; 247; 67; 36; 142; 224; 53; 144; 230; 129; 58; 38; 76;
   60; 40; 82; 187; 145; 195; 0; 203; 136; 208; 101; 139; 27; 83; 46; 163;
   113; 100; 72; 151; 162; 13; 249; 78; 56; 25; 239; 70; 169; 222; 172; 216;
   168; 250; 118; 63; 227; 156; 52; 63; 249; 220; 187; 199; 199; 11; 79; 29;
   138; 81; 224; 75; 205; 180; 89; 49; 200; 159; 126; 201; 217; 120; 115; 100;
   234; 197; 172; 131; 52; 211; 235; 195; 197; 129; 160; 255; 250; 19; 99; 235;
   23; 13; 221; 81; 183; 240; 218; 73; 211; 22; 85; 38; 41; 212; 104; 158;
   43; 22; 190; 88; 125; 71; 161; 252; 143; 248; 184; 209; 122; 208; 49; 206;
   69; 203; 58; 143; 149; 22; 4; 40; 175; 215; 251; 202; 187; 75; 64; 126].

(** Pointers to the default secret; 64 stands for its address, a multiple of 64. *)
Definition kSecretPtr : ptr := Ptr XXH3_kSecret 64 0.

Definition XXH_mult32to64 (x y : Z) : Z := u32 x * u32 y.
Definition XXH_xorshift64 (v64 shift : Z) : Z := Z.lxor v64 (Z.shiftr v64 shift).

(** ** Intrinsics *)

Definition _MM_SHUFFLE (z y x w : Z) : Z :=
  Z.lor (Z.lor (Z.lor (Z.shiftl z 6) (Z.shiftl y 4)) (Z.shiftl x 2)) w.

(** [n] lanes at [p]. *)
Fixpoint words (n : nat) (bs : list byte) : list Z :=
  match n with
  | O => []
  | S n => le (take 8 bs) :: words n (drop 8 bs)
  end.
Definition loadu (n : nat) (p : ptr) : option (list Z) :=
  bs ← load p (8 * Z.of_nat n); Some (words n bs).

(** The bytes of a register in memory. *)
Definition vec_bytes (v : list Z) : list byte := mjoin (map (le_split 8) v).

Definition xor_si (a b : list Z) : list Z := zip_with Z.lxor a b.
Definition add_epi64 (a b : list Z) : list Z := zip_with (fun x y => u64 (x + y)) a b.
Definition mul_epu32 (a b : list Z) : list Z := zip_with (fun x y => u32 x * u32 y) a b.
Definition srli_epi64 (v : list Z) (n : Z) : list Z := map (fun x => Z.shiftr x n) v.
Definition slli_epi64 (v : list Z) (n : Z) : list Z := map (fun x => u64 (Z.shiftl x n)) v.
Definition set1_epi32 (n : nat) (x : Z) : list Z := replicate n (u32 x + 4294967296 * u32 x).
Definition set1_epi64 (n : nat) (x : Z) : list Z := replicate n (u64 x).
(** The lanes of the arguments, the highest first. *)
Definition set_epi64x (l : list Z) : list Z := rev (map u64 l).
Definition mask_set1_epi64 (src : list Z) (k x : Z) : list Z :=
  imap (fun i y => if Z.testbit k (Z.of_nat i) then u64 x else y) src.

(** 32-bit element [k mod 4] of the two lanes [a], [b]. *)
Definition dword (a b k : Z) : Z :=
  match Z.land k 3 with
  | 0 => u32 a
  | 1 => u32 (Z.shiftr a 32)
  | 2 => u32 b
  | _ => u32 (Z.shiftr b 32)
  end.
Fixpoint shuffle_epi32 (v : list Z) (imm : Z) : list Z :=
  match v with
  | a :: b :: v =>
      let d i := dword a b (Z.shiftr imm (2 * i)) in
      (d 0 + 4294967296 * d 1) :: (d 2 + 4294967296 * d 3) :: shuffle_epi32 v imm
  | _ => v
  end.

(** *** ARM: registers of two lanes; 32-bit elements are lists of numbers below 2^32 *)

Definition vextq_u64 (a b : list Z) (n : nat) : list Z := take 2 (drop n (a ++ b)).
Definition vmovn_u64 (v : list Z) : list Z := map u32 v.
Definition vshrn_n_u64 (v : list Z) (n : Z) : list Z := map (fun x => u32 (Z.shiftr x n)) v.
Definition vmull_u32 (a b : list Z) : list Z := zip_with Z.mul a b.
Definition vmlal_u32 (acc a b : list Z) : list Z := zip_with (fun x y => u64 (x + y)) acc (vmull_u32 a b).
(** vzip.32 of the two halves d, e of a register: d[0] e[0], then d[1] e[1]. *)
Definition vzip_32 (v : list Z) : list Z :=
  match v with
  | [d; e] => [u32 d; u32 e; u32 (Z.shiftr d 32); u32 (Z.shiftr e 32)]
  | _ => []
  end.

(** *** POWER and s390x *)

Definition vec_rl (v : list Z) (n : Z) : list Z := map (fun x => XXH_rotl64 x n) v.
(** vec_xxpermdi(v, v, 2), vec_permi(v, v, 2) *)
Definition vec_swap (v : list Z) : list Z := match v with [a; b] => [b; a] | _ => v end.

(** ** The kernels *)

Section Kernels.
Context `{Build}.

Definition XXH3_accumulate_512_scalar (acc : list Z) (input secret : ptr) : option (list Z) :=
  for_loop 8 0 (fun i acc =>
    data_val ← XXH_readLE64 (padd input (8 * i));
    key ← XXH_readLE64 (padd secret (i * 8));
    let data_key := Z.lxor data_val key in
    let j := Z.to_nat (Z.lxor i 1) in
    a ← acc !! j;
    let acc := <[j := u64 (a + data_val)]> acc in
    a ← acc !! Z.to_nat i;
    Some (<[Z.to_nat i := u64 (a + XXH_mult32to64 (Z.land data_key 4294967295) (Z.shiftr data_key 32))]> acc)) acc.

Definition XXH3_scrambleAcc_scalar (acc : list Z) (secret : ptr) : option (list Z) :=
  for_loop 8 0 (fun i acc =>
    key64 ← XXH_readLE64 (padd secret (8 * i));
    acc64 ← acc !! Z.to_nat i;
    let acc64 := XXH_xorshift64 acc64 47 in
    let acc64 := Z.lxor acc64 key64 in
    let acc64 := u64 (acc64 * XXH_PRIME32_1) in
    Some (<[Z.to_nat i := acc64]> acc)) acc.

Definition XXH3_initCustomSecret_scalar (customSecret : list byte) (seed64 : Z) : option (list byte) :=
  for_loop 12 0 (fun i dst =>
    x ← XXH_readLE64 (padd kSecretPtr (16 * i)); let lo := u64 (x + seed64) in
    y ← XXH_readLE64 (padd kSecretPtr (16 * i + 8)); let hi := u64 (y - seed64) in
    dst ← XXH_writeLE64 dst (16 * i) lo;
    XXH_writeLE64 dst (16 * i + 8) hi) customSecret.

(** One round of the loops over registers of [n] lanes; [i] is the register. *)
Definition accumulate_vec (n : nat) (input secret : ptr) (i : Z) (acc : list Z) : option (list Z) :=
  let w := Z.of_nat n in
  data_vec ← loadu n (padd input (8 * w * i));
  key_vec ← loadu n (padd secret (8 * w * i));
  let data_key := xor_si data_vec key_vec in
  let data_key_lo := shuffle_epi32 data_key (_MM_SHUFFLE 0 3 0 1) in
  let product := mul_epu32 data_key data_key_lo in
  let data_swap := shuffle_epi32 data_vec (_MM_SHUFFLE 1 0 3 2) in
  xacc ← memread acc (w * i) w;
  let sum := add_epi64 xacc data_swap in
  memwrite acc (w * i) (add_epi64 product sum).

Definition scramble_vec (n : nat) (secret : ptr) (i : Z) (acc : list Z) : option (list Z) :=
  let w := Z.of_nat n in
  let prime32 := set1_epi32 n XXH_PRIME32_1 in
  acc_vec ← memread acc (w * i) w;
  let shifted := srli_epi64 acc_vec 47 in
  let data_vec := xor_si acc_vec shifted in
  key_vec ← loadu n (padd secret (8 * w * i));
  let data_key := xor_si data_vec key_vec in
  let data_key_hi := shuffle_epi32 data_key (_MM_SHUFFLE 0 3 0 1) in
  let prod_lo := mul_epu32 data_key prime32 in
  let prod_hi := mul_epu32 data_key_hi prime32 in
  memwrite acc (w * i) (add_epi64 prod_lo (slli_epi64 prod_hi 32)).

(** -x of an xxh_i64; [None] where it overflows. *)
Definition neg_i64 (x : Z) : option Z := if x =? - 2 ^ 63 then None else Some (- x).

(** dest[i] = add(src[i], seed) *)
Definition init_vec (n : nat) (seed : list Z) (i : Z) (dest : list byte) : option (list byte) :=
  src ← loadu n (padd kSecretPtr (8 * Z.of_nat n * i));
  memwrite dest (8 * Z.of_nat n * i) (vec_bytes (add_epi64 src seed)).

Definition XXH3_accumulate_512_sse2 (acc : list Z) (input secret : ptr) : option (list Z) :=
  for_loop 4 0 (accumulate_vec 2 input secret) acc.
Definition XXH3_scrambleAcc_sse2 (acc : list Z) (secret : ptr) : option (list Z) :=
  for_loop 4 0 (scramble_vec 2 secret) acc.
Definition XXH3_initCustomSecret_sse2 (customSecret : list byte) (seed64 : Z) : option (list byte) :=
  neg ← neg_i64 (i64 seed64);
  let seed := set_epi64x [neg; i64 seed64] in
  for_loop 12 0 (init_vec 2 seed) customSecret.

Definition XXH3_accumulate_512_avx2 (acc : list Z) (input secret : ptr) : option (list Z) :=
  for_loop 2 0 (accumulate_vec 4 input secret) acc.
Definition XXH3_scrambleAcc_avx2 (acc : list Z) (secret : ptr) : option (list Z) :=
  for_loop 2 0 (scramble_vec 4 secret) acc.
Definition XXH3_initCustomSecret_avx2 (customSecret : list byte) (seed64 : Z) : option (list byte) :=
  neg ← neg_i64 (i64 seed64);
  let seed := set_epi64x [neg; i64 seed64; neg; i64 seed64] in
  dest ← init_vec 4 seed 0 customSecret;
  dest ← init_vec 4 seed 1 dest;
  dest ← init_vec 4 seed 2 dest;
  dest ← init_vec 4 seed 3 dest;
  dest ← init_vec 4 seed 4 dest;
  init_vec 4 seed 5 dest.

Definition XXH3_accumulate_512_avx512 (acc : list Z) (input secret : ptr) : option (list Z) :=
  accumulate_vec 8 input secret 0 acc.
Definition XXH3_scrambleAcc_avx512 (acc : list Z) (secret : ptr) : option (list Z) :=
  scramble_vec 8 secret 0 acc.
Definition XXH3_initCustomSecret_avx512 (customSecret : list byte) (seed64 : Z) : option (list byte) :=
  neg ← neg_i64 (i64 seed64);
  let seed := mask_set1_epi64 (set1_epi64 8 (i64 seed64)) 170 neg in
  for_loop 3 0 (init_vec 8 seed) customSecret.

(** *** NEON, on registers of two lanes *)

Definition XXH_SPLIT_IN_PLACE (in_ : list Z) : list Z * list Z :=
  if XXH_VZIP_HACK then let q := vzip_32 in_ in (take 2 q, drop 2 q)
  else (vmovn_u64 in_, vshrn_n_u64 in_ 32).

Definition accumulate_neon (input secret : ptr) (i : Z) (acc : list Z) : option (list Z) :=
  data_vec ← loadu 2 (padd input (i * 16));
  key_vec ← loadu 2 (padd secret (i * 16));
  let swapped := vextq_u64 data_vec data_vec 1 in
  xacc ← memread acc (2 * i) 2;
  acc ← memwrite acc (2 * i) (add_epi64 xacc swapped);
  let data_key := xor_si data_vec key_vec in
  let '(data_key_lo, data_key_hi) := XXH_SPLIT_IN_PLACE data_key in
  xacc ← memread acc (2 * i) 2;
  memwrite acc (2 * i) (vmlal_u32 xacc data_key_lo data_key_hi).
Definition XXH3_accumulate_512_neon (acc : list Z) (input secret : ptr) : option (list Z) :=
  for_loop 4 0 (accumulate_neon input secret) acc.

Definition scramble_neon (secret : ptr) (i : Z) (acc : list Z) : option (list Z) :=
  let prime := [u32 XXH_PRIME32_1; u32 XXH_PRIME32_1] in
  acc_vec ← memread acc (2 * i) 2;
  let shifted := srli_epi64 acc_vec 47 in
  let data_vec := xor_si acc_vec shifted in
  key_vec ← loadu 2 (padd secret (i * 16));
  let data_key := xor_si data_vec key_vec in
  let '(data_key_lo, data_key_hi) := XXH_SPLIT_IN_PLACE data_key in
  let prod_hi := vmull_u32 data_key_hi prime in
  acc ← memwrite acc (2 * i) (slli_epi64 prod_hi 32);
  xacc ← memread acc (2 * i) 2;
  memwrite acc (2 * i) (vmlal_u32 xacc data_key_lo prime).
Definition XXH3_scrambleAcc_neon (acc : list Z) (secret : ptr) : option (list Z) :=
  for_loop 4 0 (scramble_neon secret) acc.

(** *** VSX, whose vectors have the byte order of the machine *)

Definition XXH_VSX_BE : bool := negb XXH_CPU_LITTLE_ENDIAN.
Definition XXH_vec_revb (val : list Z) : list Z := map XXH_swap64 val.
Definition XXH_vec_loadu (p : ptr) : option (list Z) :=
  bs ← load p 16;
  let ret := [native (take 8 bs); native (drop 8 bs)] in
  Some (if XXH_VSX_BE then XXH_vec_revb ret else ret).

(** The odd 32-bit elements are the low halves of the lanes. *)
Definition XXH_vec_mulo (a b : list Z) : list Z := zip_with (fun x y => u32 x * u32 y) a b.
Definition XXH_vec_mule (a b : list Z) : list Z :=
  zip_with (fun x y => u32 (Z.shiftr x 32) * u32 (Z.shiftr y 32)) a b.

Definition accumulate_vsx (input secret : ptr) (i : Z) (acc : list Z) : option (list Z) :=
  data_vec ← XXH_vec_loadu (padd input (16 * i));
  key_vec ← XXH_vec_loadu (padd secret (16 * i));
  let data_key := xor_si data_vec key_vec in
  let shuffled := vec_rl data_key 32 in
  let product := XXH_vec_mulo data_key shuffled in
  xacc ← memread acc (2 * i) 2;
  acc ← memwrite acc (2 * i) (add_epi64 xacc product);
  xacc ← memread acc (2 * i) 2;
  memwrite acc (2 * i) (add_epi64 xacc (vec_swap data_vec)).
Definition XXH3_accumulate_512_vsx (acc : list Z) (input secret : ptr) : option (list Z) :=
  for_loop 4 0 (accumulate_vsx input secret) acc.

Definition scramble_vsx (secret : ptr) (i : Z) (acc : list Z) : option (list Z) :=
  let prime := set1_epi32 2 XXH_PRIME32_1 in
  acc_vec ← memread acc (2 * i) 2;
  let data_vec := xor_si acc_vec (srli_epi64 acc_vec 47) in
  key_vec ← XXH_vec_loadu (padd secret (16 * i));
  let data_key := xor_si data_vec key_vec in
  let prod_even := XXH_vec_mule data_key prime in
  let prod_odd := XXH_vec_mulo data_key prime in
  memwrite acc (2 * i) (add_epi64 prod_odd (slli_epi64 prod_even 32)).
Definition XXH3_scrambleAcc_vsx (acc : list Z) (secret : ptr) : option (list Z) :=
  for_loop 4 0 (scramble_vsx secret) acc.

(** *** The kernels of a build *)

Definition XXH3_accumulate_512 : list Z -> ptr -> ptr -> option (list Z) :=
  match XXH_VECTOR with
  | XXH_AVX512 => XXH3_accumulate_512_avx512
  | XXH_AVX2 => XXH3_accumulate_512_avx2
  | XXH_SSE2 => XXH3_accumulate_512_sse2
  | XXH_NEON => XXH3_accumulate_512_neon
  | XXH_VSX => XXH3_accumulate_512_vsx
  | XXH_SCALAR => XXH3_accumulate_512_scalar
  end.

Definition XXH3_scrambleAcc : list Z -> ptr -> option (list Z) :=
  match XXH_VECTOR with
  | XXH_AVX512 => XXH3_scrambleAcc_avx512
  | XXH_AVX2 => XXH3_scrambleAcc_avx2
  | XXH_SSE2 => XXH3_scrambleAcc_sse2
  | XXH_NEON => XXH3_scrambleAcc_neon
  | XXH_VSX => XXH3_scrambleAcc_vsx
  | XXH_SCALAR => XXH3_scrambleAcc_scalar
  end.

Definition XXH3_initCustomSecret : list byte -> Z -> option (list byte) :=
  match XXH_VECTOR with
  | XXH_AVX512 => XXH3_initCustomSecret_avx512
  | XXH_AVX2 => XXH3_initCustomSecret_avx2
  | XXH_SSE2 => XXH3_initCustomSecret_sse2
  | XXH_NEON | XXH_VSX | XXH_SCALAR => XXH3_initCustomSecret_scalar
  end.

End Kernels.

(** ** What the kernels compute *)

(** Two neighbouring lanes: each gets the product of the halves of its keyed input
    and the input of the other. *)
Definition lane_product (x k : Z) : Z := let d := Z.lxor x k in u32 d * u32 (Z.shiftr d 32).
Fixpoint acc_ref (acc data key : list Z) : list Z :=
  match acc, data, key with
  | a :: b :: acc, x :: y :: data, k :: l :: key =>
      u64 (a + y + lane_product x k) :: u64 (b + x + lane_product y l) :: acc_ref acc data key
  | _, _, _ => []
  end.

Definition scramble_ref (acc key : list Z) : list Z :=
  zip_with (fun a k => u64 (Z.lxor (XXH_xorshift64 a 47) k * XXH_PRIME32_1)) acc key.

Fixpoint seeded (seed : Z) (ws : list Z) : list Z :=
  match ws with
  | x :: y :: ws => u64 (x + seed) :: u64 (y - seed) :: seeded seed ws
  | _ => []
  end.
Definition custom_secret (seed : Z) : list byte := vec_bytes (seeded seed (words 24 XXH3_kSecret)).

(** ** Lanes in memory *)

Section Words.
Context `{Build}.

Lemma length_words n bs : length (words n bs) = n.
Proof. revert bs. induction n as [|n IH]; intros bs; simpl; [done|]. by rewrite IH. Qed.

Lemma zlen_words n bs : zlen (words n bs) = Z.of_nat n.
Proof. unfold zlen. by rewrite length_words. Qed.

Lemma words_add n m bs : words (n + m) bs = words n bs ++ words m (drop (8 * n) bs).
Proof.
  revert bs. induction n as [|n IH]; intros bs; simpl; [by rewrite drop_0|].
  rewrite IH, drop_drop. repeat (f_equal; try lia).
Qed.

Lemma words_take n k bs : (8 * n <= k)%nat -> words n (take k bs) = words n bs.
Proof.
  revert k bs. induction n as [|n IH]; intros k bs Hk; cbn [words]; [done|].
  rewrite take_take, Nat.min_l by lia. f_equal. rewrite skipn_firstn_comm. apply IH. lia.
Qed.

Lemma words_slice n o m bs :
  (o + m <= n)%nat -> words m (drop (8 * o) bs) = take m (drop o (words n bs)).
Proof.
  intros Hn. replace n with (o + (m + (n - o - m)))%nat by lia. rewrite !words_add.
  rewrite drop_app_length' by by rewrite length_words.
  by rewrite take_app_length' by by rewrite length_words.
Qed.

Lemma words_lookup n i bs : (i < n)%nat -> words n bs !! i = Some (le (take 8 (drop (8 * i) bs))).
Proof.
  revert i bs. induction n as [|n IH]; intros [|i] bs Hi; cbn [words]; try lia; [by rewrite drop_0|].
  simpl. rewrite IH, drop_drop by lia. repeat (f_equal; try lia).
Qed.

(** Lane [i] of a stripe, and [m] lanes from lane [o]. *)
Definition stripe_words (p : ptr) : list Z := words 8 (bytes_at p 64).

Lemma read_word p i :
  readable p 64 -> 0 <= i < 8 -> XXH_readLE64 (padd p (8 * i)) = stripe_words p !! Z.to_nat i.
Proof.
  intros Hr Hi. rewrite XXH_readLE64_spec by (apply (readable_sub _ _ _ _ Hr); lia).
  rewrite (bytes_at_sub p 64) by (done || lia). unfold stripe_words, slice.
  rewrite words_lookup by lia. do 4 f_equal. lia.
Qed.

Lemma loadu_spec p n o :
  readable p 64 -> 0 <= o -> o + Z.of_nat n <= 8 ->
  loadu n (padd p (8 * o)) = Some (slice (stripe_words p) o (Z.of_nat n)).
Proof.
  intros Hr Ho Hn. unfold loadu.
  rewrite load_readable by (apply (readable_sub _ _ _ _ Hr); lia). simpl.
  rewrite (bytes_at_sub p 64) by (done || lia). unfold stripe_words, slice. f_equal.
  rewrite words_take by lia. rewrite Nat2Z.id, <- words_slice by lia. do 2 f_equal. lia.
Qed.

Lemma words_range n bs : bytes_ok bs -> Forall (fun x => 0 <= x < 2 ^ 64) (words n bs).
Proof.
  revert bs. induction n as [|n IH]; intros bs Hb; simpl; constructor; [|by apply IH, Forall_drop].
  pose proof (le_range (take 8 bs) (Forall_take _ _ _ Hb)) as Hl.
  assert (8 * zlen (take 8 bs) <= 64) by (unfold zlen; rewrite length_take; lia).
  pose proof (Z.pow_le_mono_r 2 (8 * zlen (take 8 bs)) 64). lia.
Qed.

End Words.

(** Compute the numerals under Z.to_nat. *)
Ltac znat :=
  repeat match goal with
  | |- context [Z.to_nat ?t] => is_ground t;
      let v := eval vm_compute in (Z.to_nat t) in change (Z.to_nat t) with v
  end.

(** Name the lanes of a list of known length. *)
Ltac explode l H :=
  lazymatch type of H with
  | length l = O => destruct l; [clear H|done]
  | length l = S ?k => let x := fresh "x" in let l' := fresh "l" in let H' := fresh in
      destruct l as [|x l']; [done|]; assert (H' : length l' = k) by (simpl in H; congruence);
      clear H; explode l' H'
  end.

(** ** Accumulation *)

Section Accumulate.
Context `{Build}.

Lemma dwords x : u32 x + 4294967296 * u32 (Z.shiftr x 32) = u64 x.
Proof.
  unfold u32, u64. rewrite Z.shiftr_div_pow2 by lia. change (2 ^ 32) with 4294967296. mlia.
Qed.

Lemma u32_pair a b : u32 (u32 a + 4294967296 * b) = u32 a.
Proof. unfold u32. mlia. Qed.

Lemma accumulate_lanes m : forall acc data key,
  length acc = (2 * m)%nat -> length data = (2 * m)%nat -> length key = (2 * m)%nat ->
  let dk := xor_si data key in
  add_epi64 (mul_epu32 dk (shuffle_epi32 dk (_MM_SHUFFLE 0 3 0 1)))
    (add_epi64 acc (shuffle_epi32 data (_MM_SHUFFLE 1 0 3 2))) = acc_ref acc data key.
Proof.
  induction m as [|m IH]; intros acc data key Ha Hd Hk.
  { by destruct acc, data, key. }
  destruct acc as [|a [|b acc]], data as [|x [|y data]], key as [|k [|l key]]; simpl in *; try lia.
  unfold xor_si in *. cbn [zip_with shuffle_epi32]. unfold dword. cbn [Z.land Z.shiftr Z.mul Z.shiftl _MM_SHUFFLE].
  rewrite <- IH by lia. simpl. unfold mul_epu32, add_epi64. cbn [zip_with acc_ref].
  rewrite !dwords, !u32_pair.
  assert (Hz : forall p a s, u64 (p + u64 (a + u64 s)) = u64 (a + s + p)).
  { intros p c s. unfold u64. rewrite Zplus_mod_idemp_r, Z.add_assoc, Zplus_mod_idemp_r. f_equal. lia. }
  by rewrite !Hz.
Qed.

Definition kernel_ok (k : list Z -> ptr -> ptr -> option (list Z)) : Prop :=
  forall acc input secret, zlen acc = 8 -> readable input 64 -> readable secret 64 ->
  k acc input secret = Some (acc_ref acc (stripe_words input) (stripe_words secret)).

Lemma length_acc_ref k : forall a d l,
  length a = (2 * k)%nat -> length d = (2 * k)%nat -> length l = (2 * k)%nat ->
  length (acc_ref a d l) = (2 * k)%nat.
Proof.
  induction k as [|k IH]; intros a d l Ha' Hd' Hl'; [by destruct a, d, l|].
  destruct a as [|? [|? a]], d as [|? [|? d]], l as [|? [|? l]]; simpl in *; try lia. rewrite IH; lia.
Qed.

(** Register [i] of [w] lanes is replaced. *)
Definition acc_step (w i : Z) (D K acc : list Z) : list Z :=
  splice acc (w * i) (acc_ref (slice acc (w * i) w) (slice D (w * i) w) (slice K (w * i) w)).

Lemma slice_lanes (l : list Z) m i :
  zlen l = 8 -> 0 <= i -> (i + 1) * Z.of_nat (2 * m) <= 8 ->
  length (slice l (Z.of_nat (2 * m) * i) (Z.of_nat (2 * m))) = (2 * m)%nat.
Proof.
  intros Hl Hi Hm. pose proof (zlen_slice l (Z.of_nat (2 * m) * i) (Z.of_nat (2 * m)) ltac:(nia) ltac:(nia) ltac:(nia)) as Hz.
  unfold zlen in Hz. lia.
Qed.

Lemma zlen_acc_step m i D K acc :
  zlen D = 8 -> zlen K = 8 -> zlen acc = 8 -> 0 <= i -> (i + 1) * Z.of_nat (2 * m) <= 8 ->
  zlen (acc_step (Z.of_nat (2 * m)) i D K acc) = 8.
Proof.
  intros HD HK Ha Hi Hm. unfold acc_step. rewrite zlen_splice; [done|nia|].
  unfold zlen at 1. rewrite (length_acc_ref m) by by apply slice_lanes. nia.
Qed.

Lemma accumulate_vec_spec m input secret i acc :
  readable input 64 -> readable secret 64 -> zlen acc = 8 -> 0 <= i -> (i + 1) * Z.of_nat (2 * m) <= 8 ->
  accumulate_vec (2 * m) input secret i acc =
  Some (acc_step (Z.of_nat (2 * m)) i (stripe_words input) (stripe_words secret) acc).
Proof.
  intros Hi Hs Ha Hi0 Hw. unfold accumulate_vec. rewrite <- !Z.mul_assoc.
  rewrite !loadu_spec by (done || nia). cbn [mbind option_bind].
  rewrite memread_some by nia. cbn [mbind option_bind].
  rewrite (accumulate_lanes m) by (apply slice_lanes; try done; apply zlen_words).
  apply memwrite_some; [nia|]. unfold zlen at 1.
  rewrite (length_acc_ref m) by (apply slice_lanes; try done; apply zlen_words). nia.
Qed.

Lemma accumulate_vec_kernels :
  kernel_ok XXH3_accumulate_512_sse2 /\ kernel_ok XXH3_accumulate_512_avx2 /\ kernel_ok XXH3_accumulate_512_avx512.
Proof.
  repeat split; intros acc input secret Ha Hi Hs;
    unfold XXH3_accumulate_512_sse2, XXH3_accumulate_512_avx2, XXH3_accumulate_512_avx512; cbn [for_loop];
    pose proof (zlen_words 8 (bytes_at input 64) : zlen (stripe_words input) = 8) as HD;
    pose proof (zlen_words 8 (bytes_at secret 64) : zlen (stripe_words secret) = 8) as HK.
  - do 4 (rewrite (accumulate_vec_spec 1) by (done || lia || (repeat (apply (zlen_acc_step 1); try done); lia));
      cbn [mbind option_bind]).
    set (D := stripe_words input) in *. set (K := stripe_words secret) in *. clearbody D K.
    apply (Nat2Z.inj _ 8) in Ha, HD, HK. explode acc Ha. explode D HD. explode K HK. reflexivity.
  - do 2 (rewrite (accumulate_vec_spec 2) by (done || lia || (repeat (apply (zlen_acc_step 2); try done); lia));
      cbn [mbind option_bind]).
    set (D := stripe_words input) in *. set (K := stripe_words secret) in *. clearbody D K.
    apply (Nat2Z.inj _ 8) in Ha, HD, HK. explode acc Ha. explode D HD. explode K HK. reflexivity.
  - rewrite (accumulate_vec_spec 4) by (done || lia).
    set (D := stripe_words input) in *. set (K := stripe_words secret) in *. clearbody D K.
    apply (Nat2Z.inj _ 8) in Ha, HD, HK. explode acc Ha. explode D HD. explode K HK. reflexivity.
Qed.

(** Four rounds that each replace a register of two lanes. *)
Lemma acc_rounds body acc D K :
  zlen acc = 8 -> zlen D = 8 -> zlen K = 8 ->
  (forall i a, zlen a = 8 -> 0 <= i < 4 -> body i a = Some (acc_step 2 i D K a)) ->
  for_loop 4 0 body acc = Some (acc_ref acc D K).
Proof.
  intros Ha HD HK Hb. cbn [for_loop].
  do 4 (rewrite Hb by (done || lia || (repeat (apply (zlen_acc_step 1); try done); lia)); cbn [mbind option_bind]).
  apply (Nat2Z.inj _ 8) in Ha, HD, HK. explode acc Ha. explode D HD. explode K HK. reflexivity.
Qed.

Lemma two_lanes (l : list Z) i : zlen l = 8 -> 0 <= i < 4 -> exists x y, slice l (2 * i) 2 = [x; y].
Proof.
  intros Hl Hi. pose proof (zlen_slice l (2 * i) 2 ltac:(lia) ltac:(lia) ltac:(lia)) as Hz. unfold zlen in Hz.
  destruct (slice l (2 * i) 2) as [|x [|y [|]]]; simpl in Hz; try lia. by exists x, y.
Qed.

(** A register written in two steps. *)
Lemma rewrite_lanes (acc v : list Z) i (f : list Z -> list Z) :
  zlen acc = 8 -> 0 <= i < 4 -> zlen v = 2 -> (forall w, zlen w = 2 -> zlen (f w) = 2) ->
  (acc ← memwrite acc (2 * i) v; xacc ← memread acc (2 * i) 2; memwrite acc (2 * i) (f xacc)) =
  Some (splice acc (2 * i) (f v)).
Proof.
  intros Ha Hi Hv Hf. rewrite memwrite_some by lia. cbn [mbind option_bind].
  rewrite memread_some by (rewrite ?zlen_splice; lia). cbn [mbind option_bind].
  pose proof (slice_splice_same acc (2 * i) v) as E. rewrite Hv in E. rewrite E by lia.
  rewrite memwrite_some by (rewrite ?zlen_splice, ?Hf; lia). f_equal.
  unfold splice, zlen in *. specialize (Hf v Hv).
  rewrite take_app_length' by (rewrite length_take; lia). f_equal. f_equal.
  rewrite drop_app_ge by (rewrite length_take; lia). rewrite drop_app_ge by (rewrite length_take; lia).
  rewrite drop_drop. f_equal. rewrite length_take. lia.
Qed.

Lemma split_spec x y :
  XXH_SPLIT_IN_PLACE [x; y] = ([u32 x; u32 y], [u32 (Z.shiftr x 32); u32 (Z.shiftr y 32)]).
Proof. unfold XXH_SPLIT_IN_PLACE. by case_match. Qed.

Lemma accumulate_neon_kernel : kernel_ok XXH3_accumulate_512_neon.
Proof.
  intros acc input secret Ha Hi Hs. apply acc_rounds; [done|apply zlen_words..|].
  intros i a Hz Hi4. unfold accumulate_neon. rewrite (Z.mul_comm i 16). replace (16 * i) with (8 * (2 * i)) by lia.
  rewrite !loadu_spec by (done || lia). cbn [mbind option_bind]. rewrite memread_some by lia. cbn [mbind option_bind].
  unfold acc_step. change (Z.of_nat 2) with 2.
  destruct (two_lanes (stripe_words input) i) as (x & y & ->); [apply zlen_words|done|].
  destruct (two_lanes (stripe_words secret) i) as (k & l & ->); [apply zlen_words|done|].
  destruct (two_lanes a i) as (a0 & a1 & E); [done..|]. rewrite E. unfold xor_si. cbn [zip_with]. rewrite split_spec.
  rewrite (rewrite_lanes a _ i (fun w => vmlal_u32 w _ _)); [|done|lia|done|].
  - unfold vmlal_u32, vmull_u32, add_epi64. cbn [zip_with vextq_u64 take drop app acc_ref].
    unfold vextq_u64. simpl. unfold lane_product. by rewrite !u64_add_l.
  - intros [|? [|? [|]]]; done.
Qed.

Lemma vec_loadu_spec p : readable p 16 -> XXH_vec_loadu p = loadu 2 p.
Proof.
  intros Hr. unfold XXH_vec_loadu, loadu. change (8 * Z.of_nat 2) with 16. rewrite load_readable by done.
  cbn [mbind option_bind words]. pose proof (bytes_at_length p 16 Hr) as Hl. pose proof (readable_bytes p 16 Hr) as Hb.
  set (bs := bytes_at p 16) in *. clearbody bs. f_equal.
  assert (He : take 8 (drop 8 bs) = drop 8 bs) by (apply take_ge; rewrite length_drop; lia). rewrite He.
  pose proof (native_le64 (take 8 bs) ltac:(by apply Forall_take) ltac:(rewrite length_take; lia)) as E1.
  pose proof (native_le64 (drop 8 bs) ltac:(by apply Forall_drop) ltac:(rewrite length_drop; lia)) as E2.
  unfold XXH_VSX_BE, XXH_vec_revb. destruct XXH_CPU_LITTLE_ENDIAN; cbn [negb map]; by rewrite E1, E2.
Qed.

Lemma rotl_32 x : u32 (XXH_rotl64 x 32) = u32 (Z.shiftr x 32).
Proof.
  unfold XXH_rotl64, u32. change 4294967296 with (2 ^ 32). rewrite <- !Z.land_ones by lia.
  rewrite Z.land_lor_distr_l. assert (Z.land (u64 (Z.shiftl x 32)) (Z.ones 32) = 0) as ->; [|by rewrite Z.lor_0_l].
  rewrite Z.land_ones by lia. rewrite Z.shiftl_mul_pow2 by lia. unfold u64. change (2 ^ 32) with 4294967296. mlia.
Qed.

Lemma accumulate_vsx_kernel : kernel_ok XXH3_accumulate_512_vsx.
Proof.
  intros acc input secret Ha Hi Hs. apply acc_rounds; [done|apply zlen_words..|].
  intros i a Hz Hi4. unfold accumulate_vsx. rewrite !vec_loadu_spec by (eapply readable_sub; (done || lia)).
  replace (16 * i) with (8 * (2 * i)) by lia.
  rewrite !loadu_spec by (done || lia). cbn [mbind option_bind]. rewrite memread_some by lia. cbn [mbind option_bind].
  unfold acc_step. change (Z.of_nat 2) with 2.
  destruct (two_lanes (stripe_words input) i) as (x & y & ->); [apply zlen_words|done|].
  destruct (two_lanes (stripe_words secret) i) as (k & l & ->); [apply zlen_words|done|].
  destruct (two_lanes a i) as (a0 & a1 & E); [done..|]. rewrite E. unfold xor_si. cbn [zip_with].
  rewrite (rewrite_lanes a _ i (fun w => add_epi64 w _)); [|done|lia|done|].
  - unfold vec_rl, XXH_vec_mulo, add_epi64. cbn [map zip_with vec_swap acc_ref]. rewrite !rotl_32.
    unfold lane_product. rewrite !u64_add_l. do 3 f_equal; [f_equal; lia|]. do 2 f_equal. lia.
  - intros [|? [|? [|]]]; done.
Qed.

Lemma mult32_product x k : XXH_mult32to64 (Z.land (Z.lxor x k) 4294967295) (Z.shiftr (Z.lxor x k) 32) = lane_product x k.
Proof.
  unfold XXH_mult32to64, lane_product. f_equal. change 4294967295 with (Z.ones 32). rewrite Z.land_ones by lia.
  unfold u32. change 4294967296 with (2 ^ 32). by rewrite Z.mod_mod.
Qed.

Lemma accumulate_scalar_kernel : kernel_ok XXH3_accumulate_512_scalar.
Proof.
  intros acc input secret Ha Hi Hs. unfold XXH3_accumulate_512_scalar. cbn [for_loop].
  rewrite !(Z.mul_comm _ 8). rewrite !(read_word input), !(read_word secret) by (done || lia).
  pose proof (zlen_words 8 (bytes_at input 64) : zlen (stripe_words input) = 8) as HD.
  pose proof (zlen_words 8 (bytes_at secret 64) : zlen (stripe_words secret) = 8) as HK.
  set (D := stripe_words input) in *. set (K := stripe_words secret) in *. clearbody D K.
  apply (Nat2Z.inj _ 8) in Ha, HD, HK. explode acc Ha. explode D HD. explode K HK.
  znat. cbn [lookup list_lookup mbind option_bind insert list_insert].
  rewrite !mult32_product. cbn [acc_ref].
  assert (Hz : forall a b c, u64 (u64 (a + b) + c) = u64 (a + b + c)) by (intros; apply u64_add_l).
  assert (Hz' : forall a b c, u64 (u64 (a + b) + c) = u64 (a + c + b)) by (intros; rewrite Hz; f_equal; lia).
  f_equal. repeat (apply (f_equal2 cons); [first [apply Hz|apply Hz']|]). done.
Qed.

End Accumulate.

(** ** Scrambling *)

Section Scramble.
Context `{Build}.

Abbreviation u64_lane := (fun x : Z => 0 <= x < 2 ^ 64).

Definition scramble_ok (k : list Z -> ptr -> option (list Z)) : Prop :=
  forall acc secret, zlen acc = 8 -> Forall u64_lane acc -> readable secret 64 ->
  k acc secret = Some (scramble_ref acc (stripe_words secret)).

Lemma mul_halves d c : 0 <= d < 2 ^ 64 -> u64 (u32 d * c + u64 (Z.shiftl (u32 (Z.shiftr d 32) * c) 32)) = u64 (d * c).
Proof.
  intros Hd. rewrite Z.shiftl_mul_pow2, Z.shiftr_div_pow2 by lia. unfold u64, u32.
  rewrite Zplus_mod_idemp_r. f_equal. change (2 ^ 32) with 4294967296.
  assert (d / 4294967296 < 4294967296) by (apply Z.div_lt_upper_bound; lia).
  assert (0 <= d / 4294967296) by (apply Z.div_pos; lia).
  rewrite (Z.mod_small (d / _)) by lia. rewrite (Z.div_mod d 4294967296) at 3 by lia. lia.
Qed.

Lemma scramble_lanes m : forall acc key,
  length acc = (2 * m)%nat -> length key = (2 * m)%nat -> Forall u64_lane acc -> Forall u64_lane key ->
  let dk := xor_si (xor_si acc (srli_epi64 acc 47)) key in
  let prime := set1_epi32 (2 * m) XXH_PRIME32_1 in
  add_epi64 (mul_epu32 dk prime) (slli_epi64 (mul_epu32 (shuffle_epi32 dk (_MM_SHUFFLE 0 3 0 1)) prime) 32) =
  scramble_ref acc key.
Proof.
  induction m as [|m IH]; intros acc key Ha Hk Ra Rk.
  { by destruct acc, key. }
  destruct acc as [|a [|b acc]], key as [|k [|l key]]; simpl in Ha, Hk; try lia.
  apply Forall_cons in Ra as [Ra Ra']. apply Forall_cons in Ra' as [Rb Ra'].
  apply Forall_cons in Rk as [Rk Rk']. apply Forall_cons in Rk' as [Rl Rk'].
  specialize (IH acc key ltac:(lia) ltac:(lia) Ra' Rk').
  unfold set1_epi32. replace (2 * S m)%nat with (S (S (2 * m))) by lia. fold (set1_epi32 (2 * m) XXH_PRIME32_1).
  unfold xor_si, srli_epi64 in *. cbn [map zip_with shuffle_epi32 replicate] in *.
  unfold dword. cbn [Z.land Z.shiftr Z.mul Z.shiftl _MM_SHUFFLE].
  unfold scramble_ref, mul_epu32, add_epi64, slli_epi64 in *. cbn [zip_with map] in *. simpl in IH |- *.
  rewrite <- IH. clear IH. rewrite !u32_pair. change (u32 (u32 XXH_PRIME32_1)) with XXH_PRIME32_1.
  assert (Rd : forall x y, u64_lane x -> u64_lane y -> u64_lane (Z.lxor (XXH_xorshift64 x 47) y)).
  { intros. apply lxor_range; [lia|by apply xorshift_range|done]. }
  unfold XXH_xorshift64 in *. rewrite !mul_halves by by apply Rd. done.
Qed.

Definition scr_step (w i : Z) (K acc : list Z) : list Z :=
  splice acc (w * i) (scramble_ref (slice acc (w * i) w) (slice K (w * i) w)).

Lemma scramble_ref_range acc key : Forall u64_lane (scramble_ref acc key).
Proof.
  unfold scramble_ref. revert key. induction acc as [|a acc IH]; intros [|k key]; simpl; constructor; [|done].
  apply u64_range.
Qed.

Lemma Forall_slice {A} (P : A -> Prop) l o n : Forall P l -> Forall P (slice l o n).
Proof. intros. by apply Forall_take, Forall_drop. Qed.

Lemma length_scramble_ref acc key : length acc = length key -> length (scramble_ref acc key) = length acc.
Proof. intros. unfold scramble_ref. rewrite length_zip_with. lia. Qed.

Lemma zlen_scr_step m i K acc :
  zlen K = 8 -> zlen acc = 8 -> 0 <= i -> (i + 1) * Z.of_nat (2 * m) <= 8 ->
  zlen (scr_step (Z.of_nat (2 * m)) i K acc) = 8.
Proof.
  intros HK Ha Hi Hm. unfold scr_step. rewrite zlen_splice; [done|nia|].
  unfold zlen at 1. rewrite length_scramble_ref by by rewrite !slice_lanes. rewrite slice_lanes by done. nia.
Qed.

Lemma scr_step_range w i K acc : Forall u64_lane acc -> Forall u64_lane (scr_step w i K acc).
Proof.
  intros Ha. unfold scr_step, splice. apply Forall_app_2; [by apply Forall_take|].
  apply Forall_app_2; [apply scramble_ref_range|by apply Forall_drop].
Qed.

Lemma stripe_words_range p : readable p 64 -> Forall u64_lane (stripe_words p).
Proof. intros Hr. apply words_range. by apply readable_bytes. Qed.

Lemma scramble_vec_spec m secret i acc :
  readable secret 64 -> zlen acc = 8 -> Forall u64_lane acc -> 0 <= i -> (i + 1) * Z.of_nat (2 * m) <= 8 ->
  scramble_vec (2 * m) secret i acc = Some (scr_step (Z.of_nat (2 * m)) i (stripe_words secret) acc).
Proof.
  intros Hs Ha Ra Hi0 Hw. unfold scramble_vec. rewrite <- !Z.mul_assoc.
  rewrite memread_some by nia. cbn [mbind option_bind].
  rewrite loadu_spec by (done || nia). cbn [mbind option_bind].
  assert (Hz : zlen (stripe_words secret) = 8) by apply zlen_words.
  rewrite (scramble_lanes m) by (by apply slice_lanes || (apply Forall_slice; try done; by apply stripe_words_range)).
  apply memwrite_some; [nia|]. unfold zlen at 1.
  rewrite length_scramble_ref by by rewrite !slice_lanes. rewrite slice_lanes by done. nia.
Qed.

Ltac scr_steps m :=
  rewrite (scramble_vec_spec m) by
    (done || lia || (repeat (apply (zlen_scr_step m); try done); lia) || (repeat apply scr_step_range; done));
  cbn [mbind option_bind].

Lemma scramble_vec_kernels :
  scramble_ok XXH3_scrambleAcc_sse2 /\ scramble_ok XXH3_scrambleAcc_avx2 /\ scramble_ok XXH3_scrambleAcc_avx512.
Proof.
  repeat split; intros acc secret Ha Ra Hs;
    unfold XXH3_scrambleAcc_sse2, XXH3_scrambleAcc_avx2, XXH3_scrambleAcc_avx512; cbn [for_loop];
    pose proof (zlen_words 8 (bytes_at secret 64) : zlen (stripe_words secret) = 8) as HK;
    [do 4 scr_steps 1%nat|do 2 scr_steps 2%nat|scr_steps 4%nat];
    clear Ra; set (K := stripe_words secret) in *; clearbody K;
    apply (Nat2Z.inj _ 8) in Ha, HK; explode acc Ha; explode K HK; reflexivity.
Qed.

Lemma scr_rounds body acc K :
  zlen acc = 8 -> zlen K = 8 -> Forall u64_lane acc ->
  (forall i a, zlen a = 8 -> Forall u64_lane a -> 0 <= i < 4 -> body i a = Some (scr_step 2 i K a)) ->
  for_loop 4 0 body acc = Some (scramble_ref acc K).
Proof.
  intros Ha HK Ra Hb. cbn [for_loop].
  do 4 (rewrite Hb by (done || lia || (repeat (apply (zlen_scr_step 1); try done); lia) || (repeat apply scr_step_range; done));
    cbn [mbind option_bind]).
  clear Ra. apply (Nat2Z.inj _ 8) in Ha, HK. explode acc Ha. explode K HK. reflexivity.
Qed.

(** The lanes of a register and their keys, keyed. *)
Lemma scr_lanes secret i a : readable secret 64 -> zlen a = 8 -> Forall u64_lane a -> 0 <= i < 4 ->
  exists a0 a1 k l, slice a (2 * i) 2 = [a0; a1] /\ slice (stripe_words secret) (2 * i) 2 = [k; l] /\
    u64_lane (Z.lxor (XXH_xorshift64 a0 47) k) /\ u64_lane (Z.lxor (XXH_xorshift64 a1 47) l).
Proof.
  intros Hs Hz Ra Hi. destruct (two_lanes a i) as (a0 & a1 & E); [done..|].
  destruct (two_lanes (stripe_words secret) i) as (k & l & E'); [apply zlen_words|done|].
  exists a0, a1, k, l. split; [done|]. split; [done|].
  pose proof (Forall_slice _ _ (2 * i) 2 Ra) as R. rewrite E in R.
  pose proof (Forall_slice _ _ (2 * i) 2 (stripe_words_range _ Hs)) as R'. rewrite E' in R'.
  apply Forall_cons in R as [R0 [R1 _]%Forall_cons]. apply Forall_cons in R' as [R0' [R1' _]%Forall_cons].
  split; (apply lxor_range; [lia|by apply xorshift_range|done]).
Qed.

Lemma scramble_neon_kernel : scramble_ok XXH3_scrambleAcc_neon.
Proof.
  intros acc secret Ha Ra Hs. apply scr_rounds; [done|apply zlen_words|done|].
  intros i a Hz R Hi4. unfold scramble_neon. rewrite memread_some by lia. cbn [mbind option_bind].
  replace (i * 16) with (8 * (2 * i)) by lia. rewrite loadu_spec by (done || lia). cbn [mbind option_bind].
  unfold scr_step. change (Z.of_nat 2) with 2.
  destruct (scr_lanes secret i a Hs Hz R Hi4) as (a0 & a1 & k & l & -> & -> & H0 & H1).
  unfold xor_si, srli_epi64. cbn [zip_with map]. rewrite split_spec.
  rewrite (rewrite_lanes a _ i (fun w => vmlal_u32 w _ _)); [|done|lia|done|].
  - unfold vmlal_u32, vmull_u32, slli_epi64, scramble_ref. cbn [zip_with map]. change (u32 XXH_PRIME32_1) with XXH_PRIME32_1.
    fold (XXH_xorshift64 a0 47) (XXH_xorshift64 a1 47). rewrite <- !mul_halves by done. do 3 f_equal; [f_equal; lia|].
    do 2 f_equal. lia.
  - intros [|? [|? [|]]]; done.
Qed.

Lemma scramble_vsx_kernel : scramble_ok XXH3_scrambleAcc_vsx.
Proof.
  intros acc secret Ha Ra Hs. apply scr_rounds; [done|apply zlen_words|done|].
  intros i a Hz R Hi4. unfold scramble_vsx. rewrite vec_loadu_spec by (eapply readable_sub; (done || lia)).
  rewrite memread_some by lia. cbn [mbind option_bind].
  replace (16 * i) with (8 * (2 * i)) by lia. rewrite loadu_spec by (done || lia). cbn [mbind option_bind].
  unfold scr_step. change (Z.of_nat 2) with 2.
  destruct (scr_lanes secret i a Hs Hz R Hi4) as (a0 & a1 & k & l & -> & -> & H0 & H1).
  unfold xor_si, srli_epi64, set1_epi32, XXH_vec_mule, XXH_vec_mulo, add_epi64, slli_epi64, scramble_ref. cbn [zip_with map replicate].
  fold (XXH_xorshift64 a0 47) (XXH_xorshift64 a1 47).
  change (u32 (Z.shiftr (u32 XXH_PRIME32_1 + 4294967296 * u32 XXH_PRIME32_1) 32)) with XXH_PRIME32_1.
  change (u32 (u32 XXH_PRIME32_1 + 4294967296 * u32 XXH_PRIME32_1)) with XXH_PRIME32_1.
  rewrite !mul_halves by done. apply memwrite_some; unfold zlen in *; simpl length; lia.
Qed.

Lemma scramble_scalar_kernel : scramble_ok XXH3_scrambleAcc_scalar.
Proof.
  intros acc secret Ha _ Hs. unfold XXH3_scrambleAcc_scalar. cbn [for_loop].
  rewrite !(read_word secret) by (done || lia).
  pose proof (zlen_words 8 (bytes_at secret 64) : zlen (stripe_words secret) = 8) as HK.
  set (K := stripe_words secret) in *. clearbody K.
  apply (Nat2Z.inj _ 8) in Ha, HK. explode acc Ha. explode K HK.
  znat. cbn [lookup list_lookup mbind option_bind insert list_insert]. reflexivity.
Qed.

End Scramble.

(** ** Secrets from seeds *)

Section Secret.
Context `{Build}.

Lemma vec_bytes_app a b : vec_bytes (a ++ b) = vec_bytes a ++ vec_bytes b.
Proof. unfold vec_bytes. by rewrite map_app, join_app. Qed.

Lemma length_vec_bytes v : length (vec_bytes v) = (8 * length v)%nat.
Proof.
  induction v as [|x v IH]; [done|]. change (vec_bytes (x :: v)) with (le_split 8 x ++ vec_bytes v).
  rewrite length_app, IH, length_le_split. simpl. lia.
Qed.

Lemma vec_bytes_ok v : bytes_ok (vec_bytes v).
Proof.
  induction v as [|x v IH]; [by constructor|]. change (vec_bytes (x :: v)) with (le_split 8 x ++ vec_bytes v).
  apply Forall_app_2; [apply le_split_ok|done].
Qed.

(** A loop that fills a buffer, [w] bytes a round. *)
Lemma fill_loop (body : Z -> list byte -> option (list byte)) (w : Z) (part : Z -> list byte) (size : Z) :
  0 < w -> (forall i, 0 <= i -> zlen (part i) = w) ->
  (forall i dst, 0 <= i -> zlen dst = size -> (i + 1) * w <= size -> body i dst = Some (splice dst (w * i) (part i))) ->
  forall n i dst, 0 <= i -> zlen dst = size -> (i + Z.of_nat n) * w <= size ->
  exists dst', for_loop n i body dst = Some dst' /\ zlen dst' = size /\
    slice dst' 0 (w * (i + Z.of_nat n)) = slice dst 0 (w * i) ++ mjoin (map part (seqZ i (Z.of_nat n))).
Proof.
  intros Hw Hp Hb. induction n as [|n IH]; intros i dst Hi Hd Hs; cbn [for_loop].
  - exists dst. rewrite Z.add_0_r. simpl. by rewrite app_nil_r.
  - rewrite Hb by (done || nia). cbn [mbind option_bind].
    destruct (IH (i + 1) (splice dst (w * i) (part i))) as (dst' & E & Hz & Hsl).
    + lia.
    + rewrite zlen_splice; [done|nia|]. rewrite Hp by done. nia.
    + lia.
    + exists dst'. split; [done|]. split; [done|].
      replace (i + Z.of_nat (S n)) with (i + 1 + Z.of_nat n) by lia. rewrite Hsl.
      rewrite (seqZ_cons i) by lia. simpl. rewrite app_assoc. f_equal.
      * replace (w * (i + 1)) with (w * i + zlen (part i)) by (rewrite Hp by done; lia).
        apply slice_splice_prefix; [nia|]. rewrite Hp by done. nia.
      * do 3 f_equal; lia.
Qed.

Lemma splice_append (l : list byte) off a b :
  0 <= off -> off + zlen a + zlen b <= zlen l ->
  splice (splice l off a) (off + zlen a) b = splice l off (a ++ b).
Proof.
  intros Ho Hl. unfold splice, zlen in *. rewrite length_app, !app_assoc.
  replace (Z.to_nat (off + Z.of_nat (length a))) with (Z.to_nat off + length a)%nat by lia.
  rewrite take_app_length' by (rewrite length_app, length_take; lia). f_equal.
  rewrite drop_app_ge by (rewrite length_app, length_take; lia). rewrite drop_drop. f_equal.
  rewrite length_app, length_take. lia.
Qed.

Lemma kSecret_readable : readable kSecretPtr 192.
Proof. repeat split; try done. apply bytes_okb. vm_compute. done. Qed.

(** For the seeds [P] the custom secret is the one of the seed. *)
Definition init_ok (P : Z -> Prop) (k : list byte -> Z -> option (list byte)) : Prop :=
  forall dst seed, zlen dst = 192 -> P seed -> k dst seed = Some (custom_secret seed).

(** The seeds that can be negated as a signed integer. *)
Definition negatable (seed : Z) : Prop := u64 seed <> 2 ^ 63.

Lemma neg_i64_some seed : negatable seed -> neg_i64 (i64 seed) = Some (- i64 seed).
Proof.
  unfold negatable, neg_i64. intros Hn. destruct (Z.eqb_spec (i64 seed) (- 2 ^ 63)) as [E|]; [|done].
  exfalso. apply Hn. revert E. unfold u64, i64. mlia.
Qed.

(** The bytes of the secret that registers of [n] lanes give, register [i]. *)
Definition secret_part (n : nat) (seed i : Z) : list byte :=
  vec_bytes (seeded seed (words n (slice XXH3_kSecret (8 * Z.of_nat n * i) (8 * Z.of_nat n)))).

Lemma length_seeded m seed : forall ws, length ws = (2 * m)%nat -> length (seeded seed ws) = (2 * m)%nat.
Proof.
  induction m as [|m IH]; intros ws Hl; [by destruct ws|].
  destruct ws as [|x [|y ws]]; simpl in *; try lia. rewrite IH; lia.
Qed.

Lemma zlen_secret_part m seed i : zlen (secret_part (2 * m) seed i) = 8 * Z.of_nat (2 * m).
Proof.
  unfold zlen, secret_part. rewrite length_vec_bytes, (length_seeded m); [lia|]. apply length_words.
Qed.

(** A loop that writes these parts gives the whole secret. *)
Lemma init_loop m rounds seed (body : Z -> list byte -> option (list byte)) dst :
  0 < Z.of_nat (2 * m) -> 8 * Z.of_nat (2 * m) * Z.of_nat rounds = 192 ->
  (forall i dst, 0 <= i -> zlen dst = 192 -> (i + 1) * (8 * Z.of_nat (2 * m)) <= 192 ->
     body i dst = Some (splice dst (8 * Z.of_nat (2 * m) * i) (secret_part (2 * m) seed i))) ->
  zlen dst = 192 ->
  for_loop rounds 0 body dst = Some (mjoin (map (secret_part (2 * m) seed) (seqZ 0 (Z.of_nat rounds)))).
Proof.
  intros Hm Hr Hb Hd.
  destruct (fill_loop body (8 * Z.of_nat (2 * m)) (secret_part (2 * m) seed) 192 ltac:(lia)
    (fun i _ => zlen_secret_part m seed i) Hb rounds 0 dst) as (dst' & -> & Hz & Hs); [lia|done|lia|].
  rewrite Z.add_0_l, Hr, Z.mul_0_r, slice_zero in Hs. rewrite <- Hz, slice_full in Hs. by rewrite Hs.
Qed.

Lemma initCustomSecret_scalar_ok : init_ok (fun _ => True) XXH3_initCustomSecret_scalar.
Proof.
  intros dst seed Hd _. unfold XXH3_initCustomSecret_scalar. rewrite (init_loop 1 12 seed); [reflexivity|lia|done| |done].
  intros i d Hi Hz Hb.
  assert (Hr : forall o, 0 <= o -> o + 8 <= 192 ->
    XXH_readLE64 (padd kSecretPtr o) = Some (le (slice XXH3_kSecret o 8))).
  { intros o Ho Ho'. rewrite XXH_readLE64_spec by (apply (readable_sub _ _ _ _ kSecret_readable); lia). done. }
  rewrite !Hr by lia. cbn [mbind option_bind].
  rewrite XXH_writeLE64_spec by (apply u64_range || lia). cbn [mbind option_bind].
  rewrite XXH_writeLE64_spec by (apply u64_range || (rewrite ?zlen_splice; unfold zlen; rewrite ?length_le_split; unfold zlen in *; lia)).
  f_equal. unfold secret_part. cbn [words seeded].
  change (8 * Z.of_nat (2 * 1)) with 16.
  set (x := u64 (_ + seed)). set (y := u64 (_ - seed)).
  assert (Hl : zlen (le_split 8 x) = 8) by (unfold zlen; by rewrite length_le_split).
  replace (16 * i + 8) with (16 * i + zlen (le_split 8 x)) by lia.
  rewrite splice_append by (rewrite ?Hl; unfold zlen; rewrite ?length_le_split; unfold zlen in *; lia).
  change (2 * 1)%nat with 2%nat. cbn [words seeded].
  change 8%nat with (Z.to_nat 8) at 3 4 5.
  rewrite drop_slice, !take_slice by lia. znums. unfold vec_bytes. cbn [map mjoin list_join].
  by rewrite app_nil_r.
Qed.

Lemma u64_i64_add x s : u64 (x + u64 (i64 s)) = u64 (x + s).
Proof. unfold u64, i64. rewrite Zplus_mod_idemp_r. mlia. Qed.

Lemma u64_i64_sub x s : u64 (x + u64 (- i64 s)) = u64 (x - s).
Proof. unfold u64, i64. rewrite Zplus_mod_idemp_r. mlia. Qed.

Lemma init_vec_spec m seed sv i dst :
  (forall ws, length ws = (2 * m)%nat -> add_epi64 ws sv = seeded seed ws) ->
  0 <= i -> zlen dst = 192 -> (i + 1) * (8 * Z.of_nat (2 * m)) <= 192 ->
  init_vec (2 * m) sv i dst = Some (splice dst (8 * Z.of_nat (2 * m) * i) (secret_part (2 * m) seed i)).
Proof.
  intros Hs Hi Hd Hb. unfold init_vec, loadu.
  rewrite load_readable by (apply (readable_sub _ _ _ _ kSecret_readable); lia). cbn [mbind option_bind].
  rewrite Hs by apply length_words. unfold secret_part.
  change (bytes_at (padd kSecretPtr (8 * Z.of_nat (2 * m) * i)) (8 * Z.of_nat (2 * m)))
    with (slice XXH3_kSecret (8 * Z.of_nat (2 * m) * i) (8 * Z.of_nat (2 * m))).
  apply memwrite_some; [lia|]. unfold zlen at 1. rewrite length_vec_bytes, (length_seeded m) by apply length_words. lia.
Qed.

Lemma initCustomSecret_vec_ok :
  init_ok negatable XXH3_initCustomSecret_sse2 /\ init_ok negatable XXH3_initCustomSecret_avx2 /\
  init_ok negatable XXH3_initCustomSecret_avx512.
Proof.
  repeat split; intros dst seed Hd Hn.
  - unfold XXH3_initCustomSecret_sse2. rewrite neg_i64_some by done. cbn [mbind option_bind]. rewrite (init_loop 1 12 seed); [reflexivity|lia|done| |done].
    intros i d Hi Hz Hb. apply (init_vec_spec 1 seed); try done. intros ws Hl. cbn in Hl. explode ws Hl.
    unfold add_epi64, set_epi64x. cbn [map rev app zip_with seeded]. by rewrite u64_i64_add, u64_i64_sub.
  - transitivity (for_loop 6 0 (init_vec 4 (set_epi64x [- i64 seed; i64 seed; - i64 seed; i64 seed])) dst).
    { unfold XXH3_initCustomSecret_avx2. rewrite neg_i64_some by done. cbn [mbind option_bind]. cbn [for_loop]. znums.
      do 6 (match goal with |- context [init_vec ?n ?v ?i ?x] => is_var x; destruct (init_vec n v i x) end;
        cbn [mbind option_bind]; [|done]).
      done. }
    rewrite (init_loop 2 6 seed); [reflexivity|lia|done| |done].
    intros i d Hi Hz Hb. apply (init_vec_spec 2 seed); try done. intros ws Hl. cbn in Hl. explode ws Hl.
    unfold add_epi64, set_epi64x. cbn [map rev app zip_with seeded]. by rewrite !u64_i64_add, !u64_i64_sub.
  - unfold XXH3_initCustomSecret_avx512. rewrite neg_i64_some by done. cbn [mbind option_bind]. rewrite (init_loop 4 3 seed); [reflexivity|lia|done| |done].
    intros i d Hi Hz Hb. apply (init_vec_spec 4 seed); try done. intros ws Hl. cbn in Hl. explode ws Hl.
    change (mask_set1_epi64 _ _ _) with [u64 (i64 seed); u64 (- i64 seed); u64 (i64 seed); u64 (- i64 seed);
      u64 (i64 seed); u64 (- i64 seed); u64 (i64 seed); u64 (- i64 seed)].
    unfold add_epi64. cbn [zip_with seeded]. by rewrite !u64_i64_add, !u64_i64_sub.
Qed.

End Secret.

(** ** The kernels the build selects *)

Section Dispatch.
Context `{Build}.

Lemma XXH3_accumulate_512_ok : kernel_ok XXH3_accumulate_512.
Proof.
  pose proof accumulate_vec_kernels as (? & ? & ?). pose proof accumulate_scalar_kernel.
  pose proof accumulate_neon_kernel. pose proof accumulate_vsx_kernel.
  unfold XXH3_accumulate_512. by destruct XXH_VECTOR.
Qed.

Lemma XXH3_scrambleAcc_ok : scramble_ok XXH3_scrambleAcc.
Proof.
  pose proof scramble_vec_kernels as (? & ? & ?). pose proof scramble_scalar_kernel.
  pose proof scramble_neon_kernel. pose proof scramble_vsx_kernel.
  unfold XXH3_scrambleAcc. by destruct XXH_VECTOR.
Qed.

(** The seeds whose secret the build makes without a signed overflow. *)
Definition seed_defined (seed : Z) : Prop :=
  match XXH_VECTOR with
  | XXH_SSE2 | XXH_AVX2 | XXH_AVX512 => negatable seed
  | XXH_NEON | XXH_VSX | XXH_SCALAR => True
  end.

Lemma XXH3_initCustomSecret_ok : init_ok seed_defined XXH3_initCustomSecret.
Proof.
  pose proof initCustomSecret_vec_ok as (? & ? & ?). pose proof initCustomSecret_scalar_ok.
  unfold XXH3_initCustomSecret, seed_defined. by destruct XXH_VECTOR.
Qed.

End Dispatch.

(** C12: The SSE2, AVX2, AVX512, NEON and VSX kernels compute what the portable ones
    compute: the accumulation of a stripe, the scrambling of the accumulators and,
    for every 64-bit seed but 2^63, the secret made from the seed, whatever is at the
    addresses read, and none of them reads or writes outside its 64 bytes of input, 64
    bytes of secret and 192 bytes of custom secret.  For the seed 2^63 the SSE2, AVX2
    and AVX512 versions of XXH3_initCustomSecret negate the least xxh_i64, which is
    undefined ([None]); the portable one gives the secret for it too. *)
Theorem XXH3_vector_kernels (b : Build) (acc : list Z) (input secret : ptr) (custom : list byte) (seed : Z)
    (Hacc : zlen acc = 8) (Hlanes : Forall (fun x => 0 <= x < 2 ^ 64) acc)
    (Hi : readable input 64) (Hs : readable secret 64) (Hc : zlen custom = 192)
    (Hseed : 0 <= seed < 2 ^ 64) :
  exists a s c,
    XXH3_accumulate_512_scalar acc input secret = Some a /\
    XXH3_accumulate_512_sse2 acc input secret = Some a /\
    XXH3_accumulate_512_avx2 acc input secret = Some a /\
    XXH3_accumulate_512_avx512 acc input secret = Some a /\
    XXH3_accumulate_512_neon acc input secret = Some a /\
    XXH3_accumulate_512_vsx acc input secret = Some a /\
    XXH3_scrambleAcc_scalar acc secret = Some s /\
    XXH3_scrambleAcc_sse2 acc secret = Some s /\
    XXH3_scrambleAcc_avx2 acc secret = Some s /\
    XXH3_scrambleAcc_avx512 acc secret = Some s /\
    XXH3_scrambleAcc_neon acc secret = Some s /\
    XXH3_scrambleAcc_vsx acc secret = Some s /\
    XXH3_initCustomSecret_scalar custom seed = Some c /\
    (seed <> 2 ^ 63 ->
       XXH3_initCustomSecret_sse2 custom seed = Some c /\
       XXH3_initCustomSecret_avx2 custom seed = Some c /\
       XXH3_initCustomSecret_avx512 custom seed = Some c) /\
    (seed = 2 ^ 63 ->
       XXH3_initCustomSecret_sse2 custom seed = None /\
       XXH3_initCustomSecret_avx2 custom seed = None /\
       XXH3_initCustomSecret_avx512 custom seed = None).
Proof.
  pose proof accumulate_vec_kernels as (H1 & H2 & H3). pose proof scramble_vec_kernels as (H4 & H5 & H6).
  pose proof initCustomSecret_vec_ok as (H7 & H8 & H9).
  do 3 eexists. split; [by apply accumulate_scalar_kernel|]. split; [by apply H1|]. split; [by apply H2|].
  split; [by apply H3|].
  split; [by apply accumulate_neon_kernel|]. split; [by apply accumulate_vsx_kernel|]. split; [by apply scramble_scalar_kernel|]. split; [by apply H4|]. split; [by apply H5|].
  split; [by apply H6|]. split; [by apply scramble_neon_kernel|]. split; [by apply scramble_vsx_kernel|].
  split; [by apply initCustomSecret_scalar_ok|]. split; [|by intros ->].
  intros Hne. assert (negatable seed) by (unfold negatable; rewrite u64_small; lia).
  split; [by apply H7|]. by split; [apply H8|apply H9].
Qed.

Lemma XXH3_vector_kernels_witness :
  (exists a c,
     @XXH3_accumulate_512_scalar build_odd (replicate 8 3) (Ptr xxh_sample 4096 1) kSecretPtr = Some a /\
     @XXH3_accumulate_512_neon build_odd (replicate 8 3) (Ptr xxh_sample 4096 1) kSecretPtr = Some a /\
     @XXH3_initCustomSecret_scalar build_odd (replicate 192 0) 5 = Some c /\
     XXH3_initCustomSecret_avx512 (replicate 192 0) 5 = Some c) /\
  XXH3_initCustomSecret_avx512 (replicate 192 0) (2 ^ 63) = None.
Proof.
  assert (Hi : readable (Ptr xxh_sample 4096 1) 64) by (apply (sample_part 4096 1 64); done).
  assert (Hs : readable kSecretPtr 64) by (apply (readable_sub kSecretPtr 192 0 64 kSecret_readable); lia).
  assert (Hl : Forall (fun x => 0 <= x < 2 ^ 64) (replicate 8 3)) by (repeat constructor; done).
  split.
  - destruct (XXH3_vector_kernels build_odd (replicate 8 3) (Ptr xxh_sample 4096 1) kSecretPtr (replicate 192 0) 5)
      as (a & _ & c & H1 & _ & _ & _ & H2 & _ & _ & _ & _ & _ & _ & _ & H3 & H4 & _);
      [done|done|done|done|done|lia|].
    exists a, c. split; [exact H1|]. split; [exact H2|]. split; [exact H3|]. by apply H4.
  - destruct (XXH3_vector_kernels build_odd (replicate 8 3) (Ptr xxh_sample 4096 1) kSecretPtr (replicate 192 0) (2 ^ 63))
      as (_ & _ & _ & _ & _ & _ & _ & _ & _ & _ & _ & _ & _ & _ & _ & _ & _ & H);
      [done|done|done|done|done|lia|].
    by apply H.
Defined.
