(* ===== verification/Xxh3.v ===== *)
(** * XXH3, in one call (include/hash/xxhash.h)

    The 64 and 128-bit hashes of an input: one formula per range of lengths up to
    240 bytes, and for longer inputs stripes of 64 bytes accumulated against a
    moving window of the secret and scrambled after every block of stripes.
    Prefetches have no effect.  XXH_ASSERT is off, as it is unless XXH_DEBUGLEVEL is
    defined as 1 or more. *)

From S2P Require Import Prelude Words Xxh Xxh64 Xxh3Vec.
Local Open Scope Z_scope.

Record XXH128_hash_t := XXH128_Hash { low64 : Z; high64 : Z }.

Definition XXH3_MIDSIZE_MAX : Z := 240.
Definition XXH3_MIDSIZE_STARTOFFSET : Z := 3.
Definition XXH3_MIDSIZE_LASTOFFSET : Z := 17.
Definition XXH_SECRET_LASTACC_START : Z := 7.
Definition XXH_SECRET_MERGEACCS_START : Z := 11.

Definition XXH3_avalanche (h64 : Z) : Z :=
  let h64 := XXH_xorshift64 h64 37 in
  let h64 := u64 (h64 * 1609587791953885689) in
  XXH_xorshift64 h64 32.

Definition XXH3_rrmxmx (h64 len : Z) : Z :=
  let h64 := Z.lxor h64 (Z.lxor (XXH_rotl64 h64 49) (XXH_rotl64 h64 24)) in
  let h64 := u64 (h64 * 11507291218515648293) in
  let h64 := Z.lxor h64 (u64 (Z.shiftr h64 35 + len)) in
  let h64 := u64 (h64 * 11507291218515648293) in
  XXH_xorshift64 h64 28.

Section XXH3.
Context `{Build}.

Definition XXH_mult64to128 (lhs rhs : Z) : XXH128_hash_t :=
  if SIZEOF_INT128 then
    let product := lhs * rhs in
    XXH128_Hash (u64 product) (u64 (Z.shiftr product 64))
  else
    let lo_lo := XXH_mult32to64 (Z.land lhs 4294967295) (Z.land rhs 4294967295) in
    let hi_lo := XXH_mult32to64 (Z.shiftr lhs 32) (Z.land rhs 4294967295) in
    let lo_hi := XXH_mult32to64 (Z.land lhs 4294967295) (Z.shiftr rhs 32) in
    let hi_hi := XXH_mult32to64 (Z.shiftr lhs 32) (Z.shiftr rhs 32) in
    let cross := u64 (u64 (Z.shiftr lo_lo 32 + Z.land hi_lo 4294967295) + lo_hi) in
    let upper := u64 (u64 (Z.shiftr hi_lo 32 + Z.shiftr cross 32) + hi_hi) in
    let lower := Z.lor (u64 (Z.shiftl cross 32)) (Z.land lo_lo 4294967295) in
    XXH128_Hash lower upper.

Definition XXH3_mul128_fold64 (lhs rhs : Z) : Z :=
  let product := XXH_mult64to128 lhs rhs in Z.lxor (low64 product) (high64 product).

(** ** 64 bits, up to 240 bytes *)

Definition XXH3_len_1to3_64b (input : ptr) (len : Z) (secret : ptr) (seed : Z) : option Z :=
  c1 ← load8 input;
  c2 ← load8 (padd input (Z.shiftr len 1));
  c3 ← load8 (padd input (len - 1));
  let combined := Z.lor (Z.lor (Z.lor (u32 (Z.shiftl c1 16)) (u32 (Z.shiftl c2 24))) c3)
                        (u32 (Z.shiftl (u32 len) 8)) in
  s0 ← XXH_readLE32 secret;
  s4 ← XXH_readLE32 (padd secret 4);
  let bitflip := u64 (Z.lxor s0 s4 + seed) in
  let keyed := Z.lxor combined bitflip in
  Some (XXH64_avalanche keyed).

(** Its XXH_ASSERT(4 <= len && len < 8) contradicts XXH3_len_0to16_64b below, which calls
    it with len = 8 too: with XXH_DEBUGLEVEL at 1 or more the hash of 8 bytes aborts
    ([len_8_assert]). *)
Definition XXH3_len_4to8_64b (input : ptr) (len : Z) (secret : ptr) (seed : Z) : option Z :=
  let seed := Z.lxor seed (u64 (Z.shiftl (XXH_swap32 (u32 seed)) 32)) in
  input1 ← XXH_readLE32 input;
  input2 ← XXH_readLE32 (padd input (len - 4));
  s8 ← XXH_readLE64 (padd secret 8);
  s16 ← XXH_readLE64 (padd secret 16);
  let bitflip := u64 (Z.lxor s8 s16 - seed) in
  let input64 := u64 (input2 + u64 (Z.shiftl input1 32)) in
  let keyed := Z.lxor input64 bitflip in
  Some (XXH3_rrmxmx keyed len).

Definition XXH3_len_9to16_64b (input : ptr) (len : Z) (secret : ptr) (seed : Z) : option Z :=
  s24 ← XXH_readLE64 (padd secret 24);
  s32 ← XXH_readLE64 (padd secret 32);
  let bitflip1 := u64 (Z.lxor s24 s32 + seed) in
  s40 ← XXH_readLE64 (padd secret 40);
  s48 ← XXH_readLE64 (padd secret 48);
  let bitflip2 := u64 (Z.lxor s40 s48 - seed) in
  x ← XXH_readLE64 input;
  let input_lo := Z.lxor x bitflip1 in
  y ← XXH_readLE64 (padd input (len - 8));
  let input_hi := Z.lxor y bitflip2 in
  let acc := u64 (u64 (u64 (len + XXH_swap64 input_lo) + input_hi) + XXH3_mul128_fold64 input_lo input_hi) in
  Some (XXH3_avalanche acc).

Definition XXH3_len_0to16_64b (input : ptr) (len : Z) (secret : ptr) (seed : Z) : option Z :=
  if 8 <? len then XXH3_len_9to16_64b input len secret seed else
  if 4 <=? len then XXH3_len_4to8_64b input len secret seed else
  if negb (len =? 0) then XXH3_len_1to3_64b input len secret seed else
  s56 ← XXH_readLE64 (padd secret 56);
  s64 ← XXH_readLE64 (padd secret 64);
  Some (XXH64_avalanche (Z.lxor seed (Z.lxor s56 s64))).

Definition XXH3_mix16B (input secret : ptr) (seed64 : Z) : option Z :=
  input_lo ← XXH_readLE64 input;
  input_hi ← XXH_readLE64 (padd input 8);
  s0 ← XXH_readLE64 secret;
  s8 ← XXH_readLE64 (padd secret 8);
  Some (XXH3_mul128_fold64 (Z.lxor input_lo (u64 (s0 + seed64))) (Z.lxor input_hi (u64 (s8 - seed64)))).

(** acc += XXH3_mix16B(input, secret, seed) *)
Definition add_mix16B (input secret : ptr) (seed acc : Z) : option Z :=
  m ← XXH3_mix16B input secret seed; Some (u64 (acc + m)).

Definition XXH3_len_17to128_64b (input : ptr) (len : Z) (secret : ptr) (seed : Z) : option Z :=
  let acc := u64 (len * XXH_PRIME64_1) in
  acc ←
    (if 32 <? len then
       acc ←
         (if 64 <? len then
            acc ←
              (if 96 <? len then
                 acc ← add_mix16B (padd input 48) (padd secret 96) seed acc;
                 add_mix16B (padd input (len - 64)) (padd secret 112) seed acc
               else Some acc);
            acc ← add_mix16B (padd input 32) (padd secret 64) seed acc;
            add_mix16B (padd input (len - 48)) (padd secret 80) seed acc
          else Some acc);
       acc ← add_mix16B (padd input 16) (padd secret 32) seed acc;
       add_mix16B (padd input (len - 32)) (padd secret 48) seed acc
     else Some acc);
  acc ← add_mix16B (padd input 0) (padd secret 0) seed acc;
  acc ← add_mix16B (padd input (len - 16)) (padd secret 16) seed acc;
  Some (XXH3_avalanche acc).

Definition XXH3_len_129to240_64b (input : ptr) (len : Z) (secret : ptr) (seed : Z) : option Z :=
  let acc := u64 (len * XXH_PRIME64_1) in
  let nbRounds := Z.quot len 16 in
  acc ← for_loop 8 0 (fun i acc => add_mix16B (padd input (16 * i)) (padd secret (16 * i)) seed acc) acc;
  let acc := XXH3_avalanche acc in
  acc ← for_loop (Z.to_nat (nbRounds - 8)) 8 (fun i acc =>
    add_mix16B (padd input (16 * i)) (padd secret (16 * (i - 8) + XXH3_MIDSIZE_STARTOFFSET)) seed acc) acc;
  acc ← add_mix16B (padd input (len - 16))
    (padd secret (XXH3_SECRET_SIZE_MIN - XXH3_MIDSIZE_LASTOFFSET)) seed acc;
  Some (XXH3_avalanche acc).

(** ** Long inputs *)

Definition XXH3_accumulate (acc : list Z) (input secret : ptr) (nbStripes : Z)
    (f_acc512 : list Z -> ptr -> ptr -> option (list Z)) : option (list Z) :=
  for_loop (Z.to_nat nbStripes) 0 (fun n acc =>
    f_acc512 acc (padd input (n * XXH_STRIPE_LEN)) (padd secret (n * XXH_SECRET_CONSUME_RATE))) acc.

Definition XXH3_hashLong_internal_loop (acc : list Z) (input : ptr) (len : Z) (secret : ptr) (secretSize : Z)
    (f_acc512 : list Z -> ptr -> ptr -> option (list Z)) (f_scramble : list Z -> ptr -> option (list Z))
  : option (list Z) :=
  let nbStripesPerBlock := u64 (secretSize - XXH_STRIPE_LEN) / XXH_SECRET_CONSUME_RATE in
  let block_len := u64 (XXH_STRIPE_LEN * nbStripesPerBlock) in
  let nb_blocks := u64 (len - 1) / block_len in
  acc ← for_loop (Z.to_nat nb_blocks) 0 (fun n acc =>
    acc ← XXH3_accumulate acc (padd input (n * block_len)) secret nbStripesPerBlock f_acc512;
    f_scramble acc (padd secret (secretSize - XXH_STRIPE_LEN))) acc;
  let nbStripes := u64 (u64 (len - 1) - u64 (block_len * nb_blocks)) / XXH_STRIPE_LEN in
  acc ← XXH3_accumulate acc (padd input (nb_blocks * block_len)) secret nbStripes f_acc512;
  let p := padd input (len - XXH_STRIPE_LEN) in
  f_acc512 acc p (padd secret (secretSize - XXH_STRIPE_LEN - XXH_SECRET_LASTACC_START)).

Definition XXH3_mix2Accs (a0 a1 : Z) (secret : ptr) : option Z :=
  s0 ← XXH_readLE64 secret;
  s8 ← XXH_readLE64 (padd secret 8);
  Some (XXH3_mul128_fold64 (Z.lxor a0 s0) (Z.lxor a1 s8)).

Definition XXH3_mergeAccs (acc : list Z) (secret : ptr) (start : Z) : option Z :=
  result64 ← for_loop 4 0 (fun i result64 =>
    a0 ← acc !! Z.to_nat (2 * i);
    a1 ← acc !! Z.to_nat (2 * i + 1);
    m ← XXH3_mix2Accs a0 a1 (padd secret (16 * i));
    Some (u64 (result64 + m))) start;
  Some (XXH3_avalanche result64).

Definition XXH3_INIT_ACC : list Z :=
  [XXH_PRIME32_3; XXH_PRIME64_1; XXH_PRIME64_2; XXH_PRIME64_3;
   XXH_PRIME64_4; XXH_PRIME32_2; XXH_PRIME64_5; XXH_PRIME32_1].

Definition XXH3_hashLong_64b_internal (input : ptr) (len : Z) (secret : ptr) (secretSize : Z)
    (f_acc512 : list Z -> ptr -> ptr -> option (list Z)) (f_scramble : list Z -> ptr -> option (list Z))
  : option Z :=
  acc ← XXH3_hashLong_internal_loop XXH3_INIT_ACC input len secret secretSize f_acc512 f_scramble;
  XXH3_mergeAccs acc (padd secret XXH_SECRET_MERGEACCS_START) (u64 (len * XXH_PRIME64_1)).

Definition XXH3_hashLong_64b_withSecret (input : ptr) (len seed64 : Z) (secret : ptr) (secretLen : Z) : option Z :=
  XXH3_hashLong_64b_internal input len secret secretLen XXH3_accumulate_512 XXH3_scrambleAcc.

Definition XXH3_hashLong_64b_default (input : ptr) (len seed64 : Z) (secret : ptr) (secretLen : Z) : option Z :=
  XXH3_hashLong_64b_internal input len kSecretPtr (zlen XXH3_kSecret) XXH3_accumulate_512 XXH3_scrambleAcc.

(** The array [secret] on the stack is overwritten as a whole, so its contents
    before that do not matter; 64 stands for its address. *)
Definition XXH3_hashLong_64b_withSeed_internal (input : ptr) (len seed : Z)
    (f_acc512 : list Z -> ptr -> ptr -> option (list Z)) (f_scramble : list Z -> ptr -> option (list Z))
    (f_initSec : list byte -> Z -> option (list byte)) : option Z :=
  if seed =? 0 then
    XXH3_hashLong_64b_internal input len kSecretPtr (zlen XXH3_kSecret) f_acc512 f_scramble
  else
    secret ← f_initSec (replicate 192 0) seed;
    XXH3_hashLong_64b_internal input len (Ptr secret 64 0) (zlen secret) f_acc512 f_scramble.

Definition XXH3_hashLong_64b_withSeed (input : ptr) (len seed : Z) (secret : ptr) (secretLen : Z) : option Z :=
  XXH3_hashLong_64b_withSeed_internal input len seed XXH3_accumulate_512 XXH3_scrambleAcc XXH3_initCustomSecret.

Definition XXH3_64bits_internal (input : ptr) (len seed64 : Z) (secret : ptr) (secretLen : Z)
    (f_hashLong : ptr -> Z -> Z -> ptr -> Z -> option Z) : option Z :=
  if len <=? 16 then XXH3_len_0to16_64b input len secret seed64 else
  if len <=? 128 then XXH3_len_17to128_64b input len secret seed64 else
  if len <=? XXH3_MIDSIZE_MAX then XXH3_len_129to240_64b input len secret seed64 else
  f_hashLong input len seed64 secret secretLen.

Definition XXH3_64bits (input : ptr) (len : Z) : option Z :=
  XXH3_64bits_internal input len 0 kSecretPtr (zlen XXH3_kSecret) XXH3_hashLong_64b_default.
Definition XXH3_64bits_withSecret (input : ptr) (len : Z) (secret : ptr) (secretSize : Z) : option Z :=
  XXH3_64bits_internal input len 0 secret secretSize XXH3_hashLong_64b_withSecret.
Definition XXH3_64bits_withSeed (input : ptr) (len seed : Z) : option Z :=
  XXH3_64bits_internal input len seed kSecretPtr (zlen XXH3_kSecret) XXH3_hashLong_64b_withSeed.

(** ** 128 bits *)

Definition XXH3_len_1to3_128b (input : ptr) (len : Z) (secret : ptr) (seed : Z) : option XXH128_hash_t :=
  c1 ← load8 input;
  c2 ← load8 (padd input (Z.shiftr len 1));
  c3 ← load8 (padd input (len - 1));
  let combinedl := Z.lor (Z.lor (Z.lor (u32 (Z.shiftl c1 16)) (u32 (Z.shiftl c2 24))) c3)
                         (u32 (Z.shiftl (u32 len) 8)) in
  let combinedh := XXH_rotl32 (XXH_swap32 combinedl) 13 in
  s0 ← XXH_readLE32 secret;
  s4 ← XXH_readLE32 (padd secret 4);
  let bitflipl := u64 (Z.lxor s0 s4 + seed) in
  s8 ← XXH_readLE32 (padd secret 8);
  s12 ← XXH_readLE32 (padd secret 12);
  let bitfliph := u64 (Z.lxor s8 s12 - seed) in
  let keyed_lo := Z.lxor combinedl bitflipl in
  let keyed_hi := Z.lxor combinedh bitfliph in
  Some (XXH128_Hash (XXH64_avalanche keyed_lo) (XXH64_avalanche keyed_hi)).

Definition XXH3_len_4to8_128b (input : ptr) (len : Z) (secret : ptr) (seed : Z) : option XXH128_hash_t :=
  let seed := Z.lxor seed (u64 (Z.shiftl (XXH_swap32 (u32 seed)) 32)) in
  input_lo ← XXH_readLE32 input;
  input_hi ← XXH_readLE32 (padd input (len - 4));
  let input_64 := u64 (input_lo + u64 (Z.shiftl input_hi 32)) in
  s16 ← XXH_readLE64 (padd secret 16);
  s24 ← XXH_readLE64 (padd secret 24);
  let bitflip := u64 (Z.lxor s16 s24 + seed) in
  let keyed := Z.lxor input_64 bitflip in
  let m128 := XXH_mult64to128 keyed (u64 (XXH_PRIME64_1 + u64 (Z.shiftl len 2))) in
  let hi := u64 (high64 m128 + u64 (Z.shiftl (low64 m128) 1)) in
  let lo := Z.lxor (low64 m128) (Z.shiftr hi 3) in
  let lo := XXH_xorshift64 lo 35 in
  let lo := u64 (lo * 11507291218515648293) in
  let lo := XXH_xorshift64 lo 28 in
  let hi := XXH3_avalanche hi in
  Some (XXH128_Hash lo hi).

Definition XXH3_len_9to16_128b (input : ptr) (len : Z) (secret : ptr) (seed : Z) : option XXH128_hash_t :=
  s32 ← XXH_readLE64 (padd secret 32);
  s40 ← XXH_readLE64 (padd secret 40);
  let bitflipl := u64 (Z.lxor s32 s40 - seed) in
  s48 ← XXH_readLE64 (padd secret 48);
  s56 ← XXH_readLE64 (padd secret 56);
  let bitfliph := u64 (Z.lxor s48 s56 + seed) in
  input_lo ← XXH_readLE64 input;
  input_hi ← XXH_readLE64 (padd input (len - 8));
  let m128 := XXH_mult64to128 (Z.lxor (Z.lxor input_lo input_hi) bitflipl) XXH_PRIME64_1 in
  let lo := u64 (low64 m128 + u64 (Z.shiftl (u64 (len - 1)) 54)) in
  let input_hi := Z.lxor input_hi bitfliph in
  let hi :=
    if SIZEOF_VOIDP <? 8 then
      u64 (high64 m128 + u64 (Z.land input_hi 18446744069414584320 + XXH_mult32to64 (u32 input_hi) XXH_PRIME32_2))
    else
      u64 (high64 m128 + u64 (input_hi + XXH_mult32to64 (u32 input_hi) (XXH_PRIME32_2 - 1))) in
  let lo := Z.lxor lo (XXH_swap64 hi) in
  let h128 := XXH_mult64to128 lo XXH_PRIME64_2 in
  let h := u64 (high64 h128 + u64 (hi * XXH_PRIME64_2)) in
  Some (XXH128_Hash (XXH3_avalanche (low64 h128)) (XXH3_avalanche h)).

Definition XXH3_len_0to16_128b (input : ptr) (len : Z) (secret : ptr) (seed : Z) : option XXH128_hash_t :=
  if 8 <? len then XXH3_len_9to16_128b input len secret seed else
  if 4 <=? len then XXH3_len_4to8_128b input len secret seed else
  if negb (len =? 0) then XXH3_len_1to3_128b input len secret seed else
  s64 ← XXH_readLE64 (padd secret 64);
  s72 ← XXH_readLE64 (padd secret 72);
  let bitflipl := Z.lxor s64 s72 in
  s80 ← XXH_readLE64 (padd secret 80);
  s88 ← XXH_readLE64 (padd secret 88);
  let bitfliph := Z.lxor s80 s88 in
  Some (XXH128_Hash (XXH64_avalanche (Z.lxor seed bitflipl)) (XXH64_avalanche (Z.lxor seed bitfliph))).

Definition XXH128_mix32B (input_1 input_2 secret : ptr) (seed : Z) (acc : XXH128_hash_t) : option XXH128_hash_t :=
  m ← XXH3_mix16B input_1 (padd secret 0) seed;
  let lo := u64 (low64 acc + m) in
  x ← XXH_readLE64 input_2;
  y ← XXH_readLE64 (padd input_2 8);
  let lo := Z.lxor lo (u64 (x + y)) in
  m ← XXH3_mix16B input_2 (padd secret 16) seed;
  let hi := u64 (high64 acc + m) in
  x ← XXH_readLE64 input_1;
  y ← XXH_readLE64 (padd input_1 8);
  let hi := Z.lxor hi (u64 (x + y)) in
  Some (XXH128_Hash lo hi).

(** The last lines of the two functions below. *)
Definition finish_128 (acc : XXH128_hash_t) (len seed : Z) : XXH128_hash_t :=
  let lo := u64 (low64 acc + high64 acc) in
  let hi := u64 (u64 (u64 (low64 acc * XXH_PRIME64_1) + u64 (high64 acc * XXH_PRIME64_4))
                 + u64 (u64 (len - seed) * XXH_PRIME64_2)) in
  XXH128_Hash (XXH3_avalanche lo) (u64 (0 - XXH3_avalanche hi)).

Definition XXH3_len_17to128_128b (input : ptr) (len : Z) (secret : ptr) (seed : Z) : option XXH128_hash_t :=
  let acc := XXH128_Hash (u64 (len * XXH_PRIME64_1)) 0 in
  acc ←
    (if 32 <? len then
       acc ←
         (if 64 <? len then
            acc ←
              (if 96 <? len then
                 XXH128_mix32B (padd input 48) (padd input (len - 64)) (padd secret 96) seed acc
               else Some acc);
            XXH128_mix32B (padd input 32) (padd input (len - 48)) (padd secret 64) seed acc
          else Some acc);
       XXH128_mix32B (padd input 16) (padd input (len - 32)) (padd secret 32) seed acc
     else Some acc);
  acc ← XXH128_mix32B input (padd input (len - 16)) secret seed acc;
  Some (finish_128 acc len seed).

Definition XXH3_len_129to240_128b (input : ptr) (len : Z) (secret : ptr) (seed : Z) : option XXH128_hash_t :=
  let nbRounds := Z.quot len 32 in
  let acc := XXH128_Hash (u64 (len * XXH_PRIME64_1)) 0 in
  acc ← for_loop 4 0 (fun i acc =>
    XXH128_mix32B (padd input (32 * i)) (padd input (32 * i + 16)) (padd secret (32 * i)) seed acc) acc;
  let acc := XXH128_Hash (XXH3_avalanche (low64 acc)) (XXH3_avalanche (high64 acc)) in
  acc ← for_loop (Z.to_nat (nbRounds - 4)) 4 (fun i acc =>
    XXH128_mix32B (padd input (32 * i)) (padd input (32 * i + 16))
      (padd secret (XXH3_MIDSIZE_STARTOFFSET + 32 * (i - 4))) seed acc) acc;
  acc ← XXH128_mix32B (padd input (len - 16)) (padd input (len - 32))
    (padd secret (XXH3_SECRET_SIZE_MIN - XXH3_MIDSIZE_LASTOFFSET - 16)) (u64 (0 - seed)) acc;
  Some (finish_128 acc len seed).

Definition XXH3_hashLong_128b_internal (input : ptr) (len : Z) (secret : ptr) (secretSize : Z)
    (f_acc512 : list Z -> ptr -> ptr -> option (list Z)) (f_scramble : list Z -> ptr -> option (list Z))
  : option XXH128_hash_t :=
  acc ← XXH3_hashLong_internal_loop XXH3_INIT_ACC input len secret secretSize f_acc512 f_scramble;
  lo ← XXH3_mergeAccs acc (padd secret XXH_SECRET_MERGEACCS_START) (u64 (len * XXH_PRIME64_1));
  hi ← XXH3_mergeAccs acc (padd secret (secretSize - 64 - XXH_SECRET_MERGEACCS_START))
         (u64 (Z.lnot (u64 (len * XXH_PRIME64_2))));
  Some (XXH128_Hash lo hi).

Definition XXH3_hashLong_128b_default (input : ptr) (len seed64 : Z) (secret : ptr) (secretLen : Z)
  : option XXH128_hash_t :=
  XXH3_hashLong_128b_internal input len kSecretPtr (zlen XXH3_kSecret) XXH3_accumulate_512 XXH3_scrambleAcc.

Definition XXH3_hashLong_128b_withSecret (input : ptr) (len seed64 : Z) (secret : ptr) (secretLen : Z)
  : option XXH128_hash_t :=
  XXH3_hashLong_128b_internal input len secret secretLen XXH3_accumulate_512 XXH3_scrambleAcc.

Definition XXH3_hashLong_128b_withSeed_internal (input : ptr) (len seed64 : Z)
    (f_acc512 : list Z -> ptr -> ptr -> option (list Z)) (f_scramble : list Z -> ptr -> option (list Z))
    (f_initSec : list byte -> Z -> option (list byte)) : option XXH128_hash_t :=
  if seed64 =? 0 then
    XXH3_hashLong_128b_internal input len kSecretPtr (zlen XXH3_kSecret) f_acc512 f_scramble
  else
    secret ← f_initSec (replicate 192 0) seed64;
    XXH3_hashLong_128b_internal input len (Ptr secret 64 0) (zlen secret) f_acc512 f_scramble.

Definition XXH3_hashLong_128b_withSeed (input : ptr) (len seed64 : Z) (secret : ptr) (secretLen : Z)
  : option XXH128_hash_t :=
  XXH3_hashLong_128b_withSeed_internal input len seed64 XXH3_accumulate_512 XXH3_scrambleAcc XXH3_initCustomSecret.

Definition XXH3_128bits_internal (input : ptr) (len seed64 : Z) (secret : ptr) (secretLen : Z)
    (f_hl128 : ptr -> Z -> Z -> ptr -> Z -> option XXH128_hash_t) : option XXH128_hash_t :=
  if len <=? 16 then XXH3_len_0to16_128b input len secret seed64 else
  if len <=? 128 then XXH3_len_17to128_128b input len secret seed64 else
  if len <=? XXH3_MIDSIZE_MAX then XXH3_len_129to240_128b input len secret seed64 else
  f_hl128 input len seed64 secret secretLen.

Definition XXH3_128bits (input : ptr) (len : Z) : option XXH128_hash_t :=
  XXH3_128bits_internal input len 0 kSecretPtr (zlen XXH3_kSecret) XXH3_hashLong_128b_default.
Definition XXH3_128bits_withSecret (input : ptr) (len : Z) (secret : ptr) (secretSize : Z) : option XXH128_hash_t :=
  XXH3_128bits_internal input len 0 secret secretSize XXH3_hashLong_128b_withSecret.
Definition XXH3_128bits_withSeed (input : ptr) (len seed : Z) : option XXH128_hash_t :=
  XXH3_128bits_internal input len seed kSecretPtr (zlen XXH3_kSecret) XXH3_hashLong_128b_withSeed.
Definition XXH128 (input : ptr) (len seed : Z) : option XXH128_hash_t :=
  XXH3_128bits_withSeed input len seed.

End XXH3.

(** The hash of no byte and of abc. *)
Example XXH3_64bits_vectors :
  @XXH3_64bits build_x86_64 (Ptr [] 8 0) 0 = Some 3244421341483603138 /\
  @XXH3_64bits build_x86_64 (Ptr [97; 98; 99] 8 0) 3 = Some 8696274497037089104.
Proof. split; reflexivity. Qed.

Example XXH3_128bits_vectors :
  @XXH3_128bits build_x86_64 (Ptr [] 8 0) 0 = Some (XXH128_Hash 6918025063187695999 11072670137173121240).
Proof. reflexivity. Qed.

(** ** Arithmetic the variants share *)

Abbreviation u64_val := (fun x : Z => 0 <= x < 2 ^ 64).

Definition mul_ref (l r : Z) : XXH128_hash_t := XXH128_Hash (u64 (l * r)) (u64 (Z.shiftr (l * r) 64)).
Definition fold_ref (l r : Z) : Z := Z.lxor (low64 (mul_ref l r)) (high64 (mul_ref l r)).

Lemma land_lo x : Z.land x 4294967295 = x mod 4294967296.
Proof. change 4294967295 with (Z.ones 32). by rewrite Z.land_ones. Qed.

Lemma lor_halves a b : 0 <= b < 4294967296 -> Z.lor (u64 (Z.shiftl a 32)) b = 4294967296 * (a mod 4294967296) + b.
Proof.
  intros Hb. unfold u64. rewrite Z.shiftl_mul_pow2 by lia. change (2 ^ 32) with 4294967296.
  replace ((a * 4294967296) mod 18446744073709551616) with (Z.shiftl (a mod 4294967296) 32).
  - assert (Hd : Z.land (Z.shiftl (a mod 4294967296) 32) b = 0).
    { apply Z.bits_inj'. intros i Hi. rewrite Z.land_spec, Z.bits_0. destruct (Z_lt_le_dec i 32).
      - by rewrite Z.shiftl_spec_low by lia.
      - apply (range_bits 32) in Hb as [_ ->]; [by rewrite andb_false_r|lia..]. }
    rewrite <- Z.lxor_lor, <- Z.add_nocarry_lxor, Z.shiftl_mul_pow2 by (done || lia).
    change (2 ^ 32) with 4294967296. lia.
  - rewrite Z.shiftl_mul_pow2 by lia. change (2 ^ 32) with 4294967296.
    change 18446744073709551616 with (4294967296 * 4294967296).
    by rewrite Z.mul_mod_distr_r by lia.
Qed.

Lemma mult64to128_ref `{Build} l r : u64_val l -> u64_val r -> XXH_mult64to128 l r = mul_ref l r.
Proof.
  intros Hl Hr. unfold XXH_mult64to128. destruct SIZEOF_INT128; [done|].
  unfold XXH_mult32to64, u32. rewrite !land_lo, !Z.mod_mod, !Z.shiftr_div_pow2 by lia.
  change (2 ^ 32) with 4294967296.
  assert (Hhi : forall x, u64_val x -> x = 4294967296 * (x / 4294967296) + x mod 4294967296 /\
    0 <= x / 4294967296 < 4294967296 /\ 0 <= x mod 4294967296 < 4294967296) by (intros x Hx; mlia).
  destruct (Hhi l Hl) as (El & Hl1 & Hl0). destruct (Hhi r Hr) as (Er & Hr1 & Hr0).
  rewrite !(Z.mod_small (_ / _)) by done.
  set (l1 := l / 4294967296) in *. set (l0 := l mod 4294967296) in *.
  set (r1 := r / 4294967296) in *. set (r0 := r mod 4294967296) in *. clearbody l1 l0 r1 r0.
  assert (Hp : forall x y, 0 <= x < 4294967296 -> 0 <= y < 4294967296 -> 0 <= x * y <= 18446744065119617025) by nia.
  pose proof (Hp l0 r0 Hl0 Hr0). pose proof (Hp l1 r0 Hl1 Hr0). pose proof (Hp l0 r1 Hl0 Hr1). pose proof (Hp l1 r1 Hl1 Hr1).
  assert (Eprod : l * r = 18446744073709551616 * (l1 * r1) + 4294967296 * (l1 * r0 + l0 * r1) + l0 * r0) by (subst l r; ring).
  set (p00 := l0 * r0) in *. set (p10 := l1 * r0) in *. set (p01 := l0 * r1) in *. set (p11 := l1 * r1) in *.
  unfold mul_ref. rewrite Eprod. clearbody p00 p10 p01 p11. clear - H0 H1 H2 H3.
  assert (p00 / 4294967296 <= 4294967294) by mlia.
  rewrite (u64_small (p00 / _ + _)) by mlia. rewrite (u64_small (_ + p01)) by mlia.
  rewrite lor_halves by mlia. rewrite (u64_small (p10 / _ + _)) by mlia.
  rewrite Z.shiftr_div_pow2 by lia. change (2 ^ 64) with 18446744073709551616.
  f_equal.
  - unfold u64. mlia.
  - rewrite !u64_small by mlia. mlia.
Qed.

Lemma fold64_ref `{Build} l r : u64_val l -> u64_val r -> XXH3_mul128_fold64 l r = fold_ref l r.
Proof. intros. unfold XXH3_mul128_fold64. by rewrite mult64to128_ref. Qed.

Lemma XXH_swap64_range x : u64_val x -> u64_val (XXH_swap64 x).
Proof.
  intros Hx. rewrite <- (le_split_small 8 x) by done.
  rewrite XXH_swap64_le by (apply le_split_ok || apply length_le_split).
  pose proof (le_range (rev (le_split 8 x)) ltac:(apply Forall_rev, le_split_ok)) as Hr.
  unfold zlen in Hr. by rewrite length_rev, length_le_split in Hr.
Qed.

Lemma XXH3_avalanche_range h : u64_val (XXH3_avalanche h).
Proof. apply xorshift_range; [lia..|]. apply u64_range. Qed.

(** ** Inputs and secrets by their bytes *)

(** The bytes from [p] on are [bs]. *)
Definition holds (p : ptr) (bs : list byte) : Prop := readable p (zlen bs) /\ bytes_at p (zlen bs) = bs.

Section Holds.
Context `{Build}.

Lemma holds_ok p bs : holds p bs -> bytes_ok bs.
Proof. intros [Hr <-]. by apply readable_bytes. Qed.

Lemma holds_slice p bs o n :
  holds p bs -> 0 <= o -> 0 <= n -> o + n <= zlen bs -> holds (padd p o) (slice bs o n).
Proof.
  intros [Hr Hb] Ho Hn Hl. unfold holds. rewrite zlen_slice by done.
  split; [apply (readable_sub _ _ _ _ Hr); lia|]. rewrite (bytes_at_sub p (zlen bs)) by (done || lia). by rewrite Hb.
Qed.

Lemma holds_read p bs o n : holds p bs -> 0 <= o -> 0 <= n -> o + n <= zlen bs ->
  readable (padd p o) n /\ bytes_at (padd p o) n = slice bs o n.
Proof.
  intros Hh Ho Hn Hl. destruct (holds_slice p bs o n Hh Ho Hn Hl) as [Hr Hb].
  by rewrite zlen_slice in Hr, Hb.
Qed.

Lemma read64_at p bs o : holds p bs -> 0 <= o -> o + 8 <= zlen bs ->
  XXH_readLE64 (padd p o) = Some (le (slice bs o 8)).
Proof.
  intros Hh Ho Hl. destruct (holds_read p bs o 8 Hh) as [Hr Hb]; [lia..|].
  by rewrite XXH_readLE64_spec, Hb by done.
Qed.

Lemma read32_at p bs o : holds p bs -> 0 <= o -> o + 4 <= zlen bs ->
  XXH_readLE32 (padd p o) = Some (le (slice bs o 4)).
Proof.
  intros Hh Ho Hl. destruct (holds_read p bs o 4 Hh) as [Hr Hb]; [lia..|].
  by rewrite XXH_readLE32_spec, Hb by done.
Qed.

Lemma load8_at p bs o : holds p bs -> 0 <= o -> o + 1 <= zlen bs ->
  load8 (padd p o) = Some (le (slice bs o 1)).
Proof.
  intros Hh Ho Hl. destruct (holds_read p bs o 1 Hh) as [Hr Hb]; [lia..|].
  unfold load8. by rewrite load_readable, Hb by done.
Qed.

Lemma read64_at0 p bs : holds p bs -> 8 <= zlen bs -> XXH_readLE64 p = Some (le (slice bs 0 8)).
Proof. intros. rewrite <- (padd_0 p). by apply read64_at. Qed.

Lemma read32_at0 p bs : holds p bs -> 4 <= zlen bs -> XXH_readLE32 p = Some (le (slice bs 0 4)).
Proof. intros. rewrite <- (padd_0 p). by apply read32_at. Qed.

Lemma load8_at0 p bs : holds p bs -> 1 <= zlen bs -> load8 p = Some (le (slice bs 0 1)).
Proof. intros. rewrite <- (padd_0 p). by apply load8_at. Qed.

Lemma le_slice_range bs o n k : bytes_ok bs -> 0 <= n -> 8 * n <= k -> 0 <= le (slice bs o n) < 2 ^ k.
Proof.
  intros Hb Hn Hk. pose proof (le_range (slice bs o n) ltac:(by apply Forall_take, Forall_drop)) as Hr.
  assert (zlen (slice bs o n) <= n) by (unfold zlen, slice; rewrite length_take; lia).
  pose proof (zlen_nonneg (slice bs o n)).
  pose proof (Z.pow_le_mono_r 2 (8 * zlen (slice bs o n)) k ltac:(lia) ltac:(lia)). lia.
Qed.

End Holds.

Ltac val64 :=
  repeat first
    [ apply u64_range | apply XXH_swap64_range | apply XXH3_avalanche_range
    | apply (lxor_range 64); [lia| |] | apply le_slice_range; [done|lia|lia] | (cbv; split; congruence) ].

(** What mixing 16 bytes gives. *)
Definition mix_ref (bs : list byte) (i : Z) (sec : list byte) (j seed : Z) : Z :=
  fold_ref (Z.lxor (le (slice bs i 8)) (u64 (le (slice sec j 8) + seed)))
           (Z.lxor (le (slice bs (i + 8) 8)) (u64 (le (slice sec (j + 8) 8) - seed))).

Lemma mix16B_spec `{Build} input bs i secret sec j seed :
  holds input bs -> holds secret sec -> 0 <= i -> i + 16 <= zlen bs -> 0 <= j -> j + 16 <= zlen sec ->
  XXH3_mix16B (padd input i) (padd secret j) seed = Some (mix_ref bs i sec j seed).
Proof.
  intros Hi Hs Hi0 Hil Hj0 Hjl. unfold XXH3_mix16B. rewrite !padd_padd.
  rewrite !(read64_at _ _ _ Hi), !(read64_at _ _ _ Hs) by lia. cbn [mbind option_bind].
  pose proof (holds_ok _ _ Hi). rewrite fold64_ref by val64. done.
Qed.

Lemma add_mix16B_spec `{Build} input bs i secret sec j seed acc :
  holds input bs -> holds secret sec -> 0 <= i -> i + 16 <= zlen bs -> 0 <= j -> j + 16 <= zlen sec ->
  add_mix16B (padd input i) (padd secret j) seed acc = Some (u64 (acc + mix_ref bs i sec j seed)).
Proof. intros. unfold add_mix16B. by rewrite (mix16B_spec _ bs _ _ sec). Qed.

(** Loops whose rounds all succeed. *)
Fixpoint for_pure {S} (n : nat) (i : Z) (g : Z -> S -> S) (s : S) : S :=
  match n with
  | O => s
  | S n => for_pure n (i + 1) g (g i s)
  end.

Lemma for_loop_pure {S} (g : Z -> S -> S) (body : Z -> S -> option S) n : forall i s,
  (forall k s, i <= k < i + Z.of_nat n -> body k s = Some (g k s)) ->
  for_loop n i body s = Some (for_pure n i g s).
Proof.
  induction n as [|n IH]; intros i s Hb; cbn [for_loop for_pure]; [done|].
  rewrite Hb by lia. cbn [mbind option_bind]. apply IH. intros. apply Hb. lia.
Qed.

(** [f] gives one value for every build and every place the bytes may be. *)
Definition uniform {A} (P : A -> Prop) (f : Build -> ptr -> ptr -> option A) (bs sec : list byte) : Prop :=
  exists h, P h /\ forall b input secret, holds input bs -> holds secret sec -> f b input secret = Some h.

Section Short.
Context (bs sec : list byte) (seed : Z).
Hypothesis Hbs : bytes_ok bs.
Hypothesis Hsec : bytes_ok sec.
Hypothesis Hsz : 136 <= zlen sec.
Hypothesis Hseed : u64_val seed.

Ltac uni := intros b input secret Hi Hs;
  rewrite ?(read64_at0 _ _ Hi), ?(read32_at0 _ _ Hi), ?(load8_at0 _ _ Hi),
    ?(read64_at0 _ _ Hs), ?(read32_at0 _ _ Hs) by lia;
  rewrite ?(read64_at _ _ _ Hi), ?(read32_at _ _ _ Hi), ?(load8_at _ _ _ Hi),
    ?(read64_at _ _ _ Hs), ?(read32_at _ _ _ Hs) by (lia || mlia);
  cbn [mbind option_bind].

Lemma XXH3_rrmxmx_range h l : u64_val (XXH3_rrmxmx h l).
Proof. apply xorshift_range; [lia..|]. apply u64_range. Qed.

Lemma uniform_1to3_64 : 1 <= zlen bs <= 3 ->
  uniform u64_val (fun b i s => @XXH3_len_1to3_64b b i (zlen bs) s seed) bs sec.
Proof.
  intros Hl. eexists. split; [|unfold XXH3_len_1to3_64b; uni].
  2: { rewrite Z.shiftr_div_pow2 by lia. rewrite (load8_at _ _ _ Hi) by mlia. cbn [mbind option_bind]. reflexivity. }
  apply XXH64_avalanche_range.
Qed.

Lemma uniform_4to8_64 : 4 <= zlen bs <= 8 ->
  uniform u64_val (fun b i s => @XXH3_len_4to8_64b b i (zlen bs) s seed) bs sec.
Proof.
  intros Hl. eexists. split; [|unfold XXH3_len_4to8_64b; uni; reflexivity]. apply XXH3_rrmxmx_range.
Qed.

Lemma uniform_9to16_64 : 9 <= zlen bs <= 16 ->
  uniform u64_val (fun b i s => @XXH3_len_9to16_64b b i (zlen bs) s seed) bs sec.
Proof.
  intros Hl. eexists. split; [|unfold XXH3_len_9to16_64b; uni; rewrite fold64_ref by val64; reflexivity].
  apply XXH3_avalanche_range.
Qed.

Lemma uniform_0to16_64 : zlen bs <= 16 ->
  uniform u64_val (fun b i s => @XXH3_len_0to16_64b b i (zlen bs) s seed) bs sec.
Proof.
  intros Hl. unfold XXH3_len_0to16_64b. pose proof (zlen_nonneg bs).
  destruct (Z.ltb_spec 8 (zlen bs)); [apply uniform_9to16_64; lia|].
  destruct (Z.leb_spec 4 (zlen bs)); [apply uniform_4to8_64; lia|].
  destruct (Z.eqb_spec (zlen bs) 0); simpl; [|apply uniform_1to3_64; lia].
  eexists. split; [|uni; reflexivity]. apply XXH64_avalanche_range.
Qed.

Ltac mixes Hi Hs := rewrite !(add_mix16B_spec _ _ _ _ _ _ _ _ Hi Hs) by (lia || (unfold XXH3_SECRET_SIZE_MIN, XXH3_MIDSIZE_LASTOFFSET; lia));
  cbn [mbind option_bind].

Lemma uniform_17to128_64 : 17 <= zlen bs <= 128 ->
  uniform u64_val (fun b i s => @XXH3_len_17to128_64b b i (zlen bs) s seed) bs sec.
Proof.
  intros Hl. unfold XXH3_len_17to128_64b.
  destruct (Z.ltb_spec 32 (zlen bs)); [destruct (Z.ltb_spec 64 (zlen bs)); [destruct (Z.ltb_spec 96 (zlen bs))|]|];
    (eexists; split; [|intros b input secret Hi Hs; cbn [mbind option_bind]; repeat mixes Hi Hs; reflexivity];
     apply XXH3_avalanche_range).
Qed.

Lemma uniform_129to240_64 : 129 <= zlen bs <= 240 ->
  uniform u64_val (fun b i s => @XXH3_len_129to240_64b b i (zlen bs) s seed) bs sec.
Proof.
  intros Hl. unfold XXH3_len_129to240_64b. rewrite Z.quot_div_nonneg by lia. eexists. split.
  2: { intros b input secret Hi Hs.
    rewrite (for_loop_pure (fun i acc => u64 (acc + mix_ref bs (16 * i) sec (16 * i) seed))).
    2: { intros. rewrite (add_mix16B_spec _ _ _ _ _ _ _ _ Hi Hs) by lia. done. }
    cbn [mbind option_bind].
    rewrite (for_loop_pure (fun i acc => u64 (acc + mix_ref bs (16 * i) sec (16 * (i - 8) + XXH3_MIDSIZE_STARTOFFSET) seed))).
    2: { unfold XXH3_MIDSIZE_STARTOFFSET. intros.
      rewrite (add_mix16B_spec _ _ _ _ _ _ _ _ Hi Hs) by mlia. done. }
    cbn [mbind option_bind]. mixes Hi Hs. reflexivity. }
  apply XXH3_avalanche_range.
Qed.

(** *** 128 bits *)

Definition u128_val (h : XXH128_hash_t) : Prop := u64_val (low64 h) /\ u64_val (high64 h).

Lemma uniform_1to3_128 : 1 <= zlen bs <= 3 ->
  uniform u128_val (fun b i s => @XXH3_len_1to3_128b b i (zlen bs) s seed) bs sec.
Proof.
  intros Hl. eexists. split; [|unfold XXH3_len_1to3_128b; uni].
  2: { rewrite Z.shiftr_div_pow2 by lia. rewrite (load8_at _ _ _ Hi) by mlia. cbn [mbind option_bind]. reflexivity. }
  split; apply XXH64_avalanche_range.
Qed.

Lemma uniform_4to8_128 : 4 <= zlen bs <= 8 ->
  uniform u128_val (fun b i s => @XXH3_len_4to8_128b b i (zlen bs) s seed) bs sec.
Proof.
  intros Hl. eexists. split; [|unfold XXH3_len_4to8_128b; uni; rewrite mult64to128_ref by val64; reflexivity].
  split; [|apply XXH3_avalanche_range]. apply xorshift_range; [lia..|]. apply u64_range.
Qed.

(** The two ways of adding the high half of the input. *)
Lemma high_32_64 h x : u64_val x ->
  u64 (h + u64 (Z.land x 18446744069414584320 + XXH_mult32to64 (u32 x) XXH_PRIME32_2)) =
  u64 (h + u64 (x + XXH_mult32to64 (u32 x) (XXH_PRIME32_2 - 1))).
Proof.
  intros Hx. assert (Z.land x 18446744069414584320 = x - u32 x) as ->.
  { change 18446744069414584320 with (Z.shiftl (Z.ones 32) 32).
    replace (Z.land x (Z.shiftl (Z.ones 32) 32)) with (Z.shiftl (Z.shiftr x 32) 32).
    - rewrite Z.shiftl_mul_pow2, Z.shiftr_div_pow2 by lia. unfold u32. change (2 ^ 32) with 4294967296. mlia.
    - apply Z.bits_inj'. intros i Hi. rewrite Z.land_spec. destruct (Z_lt_le_dec i 32).
      + by rewrite !Z.shiftl_spec_low, andb_false_r by lia.
      + rewrite !Z.shiftl_spec, Z.shiftr_spec by lia. replace (i - 32 + 32) with i by lia.
        destruct (Z_lt_le_dec i 64).
        * by rewrite Z.ones_spec_low, andb_true_r by lia.
        * rewrite Z.ones_spec_high, andb_false_r by lia. apply (range_bits 64) in Hx as [_ ->]; [done|lia..]. }
  unfold XXH_mult32to64. change (u32 XXH_PRIME32_2) with 2246822519. change (u32 (XXH_PRIME32_2 - 1)) with 2246822518.
  assert (u32 (u32 x) = u32 x) as -> by (unfold u32; mlia). do 3 f_equal. lia.
Qed.

Lemma uniform_9to16_128 : 9 <= zlen bs <= 16 ->
  uniform u128_val (fun b i s => @XXH3_len_9to16_128b b i (zlen bs) s seed) bs sec.
Proof.
  intros Hl. eexists. split.
  2: { unfold XXH3_len_9to16_128b. uni. rewrite high_32_64 by val64.
    assert (Hif : forall (c : bool) (x : Z), (if c then x else x) = x) by by intros [].
    rewrite Hif, !mult64to128_ref by val64. reflexivity. }
  split; apply XXH3_avalanche_range.
Qed.

Lemma uniform_0to16_128 : zlen bs <= 16 ->
  uniform u128_val (fun b i s => @XXH3_len_0to16_128b b i (zlen bs) s seed) bs sec.
Proof.
  intros Hl. unfold XXH3_len_0to16_128b. pose proof (zlen_nonneg bs).
  destruct (Z.ltb_spec 8 (zlen bs)); [apply uniform_9to16_128; lia|].
  destruct (Z.leb_spec 4 (zlen bs)); [apply uniform_4to8_128; lia|].
  destruct (Z.eqb_spec (zlen bs) 0); simpl; [|apply uniform_1to3_128; lia].
  eexists. split; [|uni; reflexivity]. split; apply XXH64_avalanche_range.
Qed.

Definition mix32_ref (i j k sd : Z) (acc : XXH128_hash_t) : XXH128_hash_t :=
  XXH128_Hash
    (Z.lxor (u64 (low64 acc + mix_ref bs i sec k sd)) (u64 (le (slice bs j 8) + le (slice bs (j + 8) 8))))
    (Z.lxor (u64 (high64 acc + mix_ref bs j sec (k + 16) sd)) (u64 (le (slice bs i 8) + le (slice bs (i + 8) 8)))).

Lemma mix32B_spec (b : Build) input secret i j k sd acc :
  holds input bs -> holds secret sec -> 0 <= i -> i + 16 <= zlen bs -> 0 <= j -> j + 16 <= zlen bs ->
  0 <= k -> k + 32 <= zlen sec ->
  XXH128_mix32B (padd input i) (padd input j) (padd secret k) sd acc = Some (mix32_ref i j k sd acc).
Proof.
  intros Hi Hs. intros. unfold XXH128_mix32B. rewrite !padd_padd, Z.add_0_r.
  rewrite !(mix16B_spec _ bs _ _ sec) by (done || lia).
  rewrite !(read64_at _ _ _ Hi) by lia. done.
Qed.

Ltac mixes32 Hi Hs := rewrite !(mix32B_spec _ _ _ _ _ _ _ _ Hi Hs) by (lia || (unfold XXH3_SECRET_SIZE_MIN, XXH3_MIDSIZE_LASTOFFSET; lia));
  cbn [mbind option_bind].

Lemma finish_128_range acc l sd : u128_val (finish_128 acc l sd).
Proof. split; [apply XXH3_avalanche_range|apply u64_range]. Qed.

Lemma uniform_17to128_128 : 17 <= zlen bs <= 128 ->
  uniform u128_val (fun b i s => @XXH3_len_17to128_128b b i (zlen bs) s seed) bs sec.
Proof.
  intros Hl. unfold XXH3_len_17to128_128b.
  destruct (Z.ltb_spec 32 (zlen bs)); [destruct (Z.ltb_spec 64 (zlen bs)); [destruct (Z.ltb_spec 96 (zlen bs))|]|];
    (eexists; split; [|intros b input secret Hi Hs; cbn [mbind option_bind]; repeat mixes32 Hi Hs;
       rewrite <- (padd_0 input) at 1; rewrite <- (padd_0 secret); repeat mixes32 Hi Hs; reflexivity];
     apply finish_128_range).
Qed.

Lemma uniform_129to240_128 : 129 <= zlen bs <= 240 ->
  uniform u128_val (fun b i s => @XXH3_len_129to240_128b b i (zlen bs) s seed) bs sec.
Proof.
  intros Hl. unfold XXH3_len_129to240_128b. rewrite Z.quot_div_nonneg by lia. eexists. split.
  2: { intros b input secret Hi Hs.
    rewrite (for_loop_pure (fun i acc => mix32_ref (32 * i) (32 * i + 16) (32 * i) seed acc)).
    2: { intros. rewrite (mix32B_spec _ _ _ _ _ _ _ _ Hi Hs) by lia. done. }
    cbn [mbind option_bind].
    rewrite (for_loop_pure (fun i acc => mix32_ref (32 * i) (32 * i + 16) (XXH3_MIDSIZE_STARTOFFSET + 32 * (i - 4)) seed acc)).
    2: { unfold XXH3_MIDSIZE_STARTOFFSET. intros.
      rewrite (mix32B_spec _ _ _ _ _ _ _ _ Hi Hs) by mlia. done. }
    cbn [mbind option_bind]. mixes32 Hi Hs. reflexivity. }
  apply finish_128_range.
Qed.

End Short.

(** ** Long inputs

    Stripes are numbered within a block of [B]; stripe [k] is accumulated against
    the secret at 8 k, and the accumulators are scrambled after the last one. *)

Section Long.
Context (sec : list byte).
Hypothesis Hok : bytes_ok sec.
Hypothesis Hsz : 136 <= zlen sec < 2 ^ 60.

Definition lim : Z := zlen sec - 64.
Definition B : nat := Z.to_nat (lim / 8).

Definition acc1 (acc : list Z) (stripe : list byte) (o : Z) : list Z :=
  acc_ref acc (words 8 stripe) (words 8 (slice sec o 64)).
Definition scr (acc : list Z) : list Z := scramble_ref acc (words 8 (slice sec lim 64)).

(** [n] stripes from number [k] on, within a block. *)
Fixpoint accs (n k : nat) (acc : list Z) (bs : list byte) : list Z :=
  match n with
  | O => acc
  | S n => accs n (S k) (acc1 acc (take 64 bs) (8 * Z.of_nat k)) (drop 64 bs)
  end.

(** [n] stripes from number [k] on, with the number of the next one. *)
Fixpoint absorb (n k : nat) (acc : list Z) (bs : list byte) : list Z * nat :=
  match n with
  | O => (acc, k)
  | S n =>
      let acc := acc1 acc (take 64 bs) (8 * Z.of_nat k) in
      if (S k =? B)%nat then absorb n 0 (scr acc) (drop 64 bs) else absorb n (S k) acc (drop 64 bs)
  end.

Definition good_acc (acc : list Z) : Prop := length acc = 8%nat /\ Forall u64_val acc.

Lemma B_bounds : (9 <= B)%nat /\ 8 * Z.of_nat B <= lim < 8 * Z.of_nat B + 8.
Proof. unfold B, lim. mlia. Qed.

Lemma acc_ref_range : forall a d k, Forall u64_val (acc_ref a d k).
Proof.
  fix IH 1. intros [|x [|y a]] [|? [|? d]] [|? [|? k]]; simpl; try constructor.
  - apply u64_range.
  - constructor; [apply u64_range|]. apply IH.
Qed.

Lemma acc1_good acc stripe o : good_acc acc -> good_acc (acc1 acc stripe o).
Proof.
  intros [Hl _]. split; [|apply acc_ref_range]. apply (length_acc_ref 4); [done|apply length_words..].
Qed.

Lemma scr_good acc : good_acc acc -> good_acc (scr acc).
Proof.
  intros [Hl _]. split; [|apply scramble_ref_range]. unfold scr.
  rewrite length_scramble_ref by by rewrite length_words. done.
Qed.

Lemma accs_good n k acc bs : good_acc acc -> good_acc (accs n k acc bs).
Proof. revert k acc bs. induction n as [|n IH]; intros k acc bs Hg; [done|]. by apply IH, acc1_good. Qed.

Lemma absorb_good n k acc bs : good_acc acc -> good_acc (absorb n k acc bs).1.
Proof.
  revert k acc bs. induction n as [|n IH]; intros k acc bs Hg; cbn [absorb]; [done|].
  case_match; apply IH; [apply scr_good|]; by apply acc1_good.
Qed.

Lemma absorb_add n m k acc bs :
  absorb (n + m) k acc bs =
  absorb m (absorb n k acc bs).2 (absorb n k acc bs).1 (drop (64 * n) bs).
Proof.
  revert k acc bs. induction n as [|n IH]; intros k acc bs; cbn [absorb Nat.add]; [by rewrite drop_0|].
  replace (drop (64 * S n) bs) with (drop (64 * n) (drop 64 bs)) by (rewrite drop_drop; f_equal; lia).
  case_match; apply IH.
Qed.

Lemma absorb_app n k acc a b :
  (64 * n <= length a)%nat -> absorb n k acc (a ++ b) = absorb n k acc a.
Proof.
  revert k acc a. induction n as [|n IH]; intros k acc a Hl; cbn [absorb]; [done|].
  rewrite take_app_le, drop_app_le by lia. case_match; apply IH; rewrite length_drop; lia.
Qed.

Lemma absorb_accs n k acc bs : (k + n < B)%nat -> absorb n k acc bs = (accs n k acc bs, (k + n)%nat).
Proof.
  revert k acc bs. induction n as [|n IH]; intros k acc bs Hn; cbn [absorb accs]; [by rewrite Nat.add_0_r|].
  destruct (Nat.eqb_spec (S k) B); [lia|]. rewrite IH by lia. f_equal. lia.
Qed.

Lemma absorb_block n k acc bs :
  (0 < n)%nat -> (k + n = B)%nat -> absorb n k acc bs = (scr (accs n k acc bs), 0%nat).
Proof.
  intros Hn Hk. destruct n as [|n]; [lia|]. revert k acc bs Hk Hn. induction n as [|n IH]; intros k acc bs Hk Hn.
  - cbn [absorb accs]. rewrite (proj2 (Nat.eqb_eq (S k) B)) by lia. done.
  - change (absorb (S (S n)) k acc bs) with
      (if (S k =? B)%nat then absorb (S n) 0 (scr (acc1 acc (take 64 bs) (8 * Z.of_nat k))) (drop 64 bs)
       else absorb (S n) (S k) (acc1 acc (take 64 bs) (8 * Z.of_nat k)) (drop 64 bs)).
    destruct (Nat.eqb_spec (S k) B); [lia|]. by rewrite IH by lia.
Qed.

Lemma absorb_index n k acc bs : (k < B)%nat -> (absorb n k acc bs).2 = ((k + n) mod B)%nat.
Proof.
  intros Hk. pose proof B_bounds as [HB _]. revert k acc bs Hk. induction n as [|n IH]; intros k acc bs Hk; cbn [absorb].
  - rewrite Nat.add_0_r. by rewrite Nat.mod_small.
  - destruct (Nat.eqb_spec (S k) B) as [E|E].
    + rewrite IH by lia. replace (k + S n)%nat with (n + 1 * B)%nat by lia. by rewrite Nat.Div0.mod_add.
    + rewrite IH by lia. f_equal. lia.
Qed.

(** *** The code computes this *)

Context `{Build}.

Lemma kernel_at acc input bs o secret so :
  good_acc acc -> holds input bs -> holds secret sec ->
  0 <= o -> o + 64 <= zlen bs -> 0 <= so -> so + 64 <= zlen sec ->
  XXH3_accumulate_512 acc (padd input o) (padd secret so) = Some (acc1 acc (slice bs o 64) so).
Proof.
  intros [Hl _] Hi Hs Ho Hb Hso Hsb.
  destruct (holds_read _ _ o 64 Hi) as [Hri Ebi]; [lia..|]. destruct (holds_read _ _ so 64 Hs) as [Hrs Ebs]; [lia..|].
  rewrite XXH3_accumulate_512_ok; [|by unfold zlen; rewrite Hl|done..].
  unfold stripe_words, acc1. by rewrite Ebi, Ebs.
Qed.

Lemma scramble_at acc secret :
  good_acc acc -> holds secret sec -> XXH3_scrambleAcc acc (padd secret lim) = Some (scr acc).
Proof.
  intros [Hl Hr] Hs. destruct (holds_read _ _ lim 64 Hs) as [Hrs Ebs]; [unfold lim; lia..|].
  rewrite XXH3_scrambleAcc_ok; [|by unfold zlen; rewrite Hl|done..]. unfold stripe_words, scr. by rewrite Ebs.
Qed.

Lemma XXH3_accumulate_spec acc input bs n k secret :
  good_acc acc -> holds input bs -> holds secret sec -> 64 * Z.of_nat n <= zlen bs -> (k + n <= B)%nat ->
  XXH3_accumulate acc input (padd secret (8 * Z.of_nat k)) (Z.of_nat n) XXH3_accumulate_512 = Some (accs n k acc bs).
Proof.
  intros Hg Hi Hs Hn Hk. unfold XXH3_accumulate. rewrite Nat2Z.id. pose proof B_bounds as [_ HB].
  assert (Hgen : forall m i a, (i + m = n)%nat -> good_acc a ->
    for_loop m (Z.of_nat i) (fun n acc => XXH3_accumulate_512 acc (padd input (n * XXH_STRIPE_LEN))
      (padd (padd secret (8 * Z.of_nat k)) (n * XXH_SECRET_CONSUME_RATE))) a =
    Some (accs m (k + i) a (drop (64 * i) bs))).
  { unfold XXH_STRIPE_LEN, XXH_SECRET_CONSUME_RATE. induction m as [|m IH]; intros i a Him Ha; cbn [for_loop accs]; [done|].
    rewrite padd_padd, (kernel_at a input bs _ secret) by (done || (unfold lim in *; lia)). cbn [mbind option_bind].
    replace (Z.of_nat i + 1) with (Z.of_nat (S i)) by lia.
    rewrite IH by (lia || by apply acc1_good). do 2 f_equal; [lia| |].
    - unfold slice. do 3 f_equal; lia.
    - rewrite drop_drop. f_equal. lia. }
  etransitivity; [exact (Hgen n 0%nat acc ltac:(lia) Hg)|]. rewrite Nat.add_0_r. by rewrite drop_0.
Qed.

(** All whole stripes but the last, then the last 64 bytes. *)
Definition long_acc (bs : list byte) : list Z :=
  let n := Z.to_nat ((zlen bs - 1) / 64) in
  acc1 (absorb n 0 XXH3_INIT_ACC bs).1 (slice bs (zlen bs - 64) 64) (lim - 7).

Lemma init_good : good_acc XXH3_INIT_ACC.
Proof. split; [done|]. repeat constructor; done. Qed.

Lemma slice_stripes (l : list byte) o n :
  slice l (64 * Z.of_nat o) (64 * Z.of_nat n) = take (64 * n) (drop (64 * o) l).
Proof. unfold slice. f_equal; [lia|]. f_equal. lia. Qed.

(** The loop over whole blocks. *)
Lemma hashLong_blocks input bs secret : holds input bs -> holds secret sec -> forall m i a,
  64 * Z.of_nat ((i + m) * B) <= zlen bs -> good_acc a ->
  for_loop m (Z.of_nat i) (fun (n : Z) (acc : list Z) =>
    acc0 ← XXH3_accumulate acc (padd input (n * (64 * Z.of_nat B))) secret (Z.of_nat B) XXH3_accumulate_512;
    XXH3_scrambleAcc acc0 (padd secret (zlen sec - 64))) a =
  Some (absorb (m * B) 0 a (drop (64 * (i * B)) bs)).1 /\ (absorb (m * B) 0 a (drop (64 * (i * B)) bs)).2 = 0%nat.
Proof.
  intros Hi Hs. pose proof B_bounds as [HB HBl]. induction m as [|m IH]; intros i a Him Ha; cbn [for_loop]; [done|].
  assert (Hd : holds (padd input (Z.of_nat i * (64 * Z.of_nat B))) (slice bs (64 * Z.of_nat (i * B)) (64 * Z.of_nat B))).
  { replace (Z.of_nat i * (64 * Z.of_nat B)) with (64 * Z.of_nat (i * B)) by lia. apply holds_slice; [done|nia..]. }
  pose proof (XXH3_accumulate_spec a _ _ B 0 secret Ha Hd Hs ltac:(rewrite ?zlen_slice; nia) ltac:(lia)) as Hacc.
  change (8 * Z.of_nat 0) with 0 in Hacc. rewrite padd_0 in Hacc. rewrite Hacc. cbn [mbind option_bind]. clear Hacc.
  pose proof (scramble_at (accs B 0 a (slice bs (64 * Z.of_nat (i * B)) (64 * Z.of_nat B))) secret
    ltac:(by apply accs_good) Hs) as Hscr.
  unfold lim at 1 in Hscr. rewrite Hscr. cbn [mbind option_bind]. clear Hscr.
  replace (Z.of_nat i + 1) with (Z.of_nat (S i)) by lia.
  assert (Hblk : absorb B 0 a (drop (64 * (i * B)) bs) =
    (scr (accs B 0 a (slice bs (64 * Z.of_nat (i * B)) (64 * Z.of_nat B))), 0%nat)).
  { rewrite <- (take_drop (64 * B) (drop (64 * (i * B)) bs)).
    rewrite absorb_app by (rewrite length_take, length_drop; unfold zlen in *; nia).
    rewrite absorb_block by lia. by rewrite slice_stripes. }
  destruct (IH (S i) (scr (accs B 0 a (slice bs (64 * Z.of_nat (i * B)) (64 * Z.of_nat B))))) as [E1 E2];
    [nia|by apply scr_good, accs_good|].
  replace (S m * B)%nat with (B + m * B)%nat by lia. rewrite absorb_add, Hblk. cbn [fst snd].
  rewrite drop_drop. replace (64 * (i * B) + 64 * B)%nat with (64 * (S i * B))%nat by lia. by rewrite E1.
Qed.

Lemma XXH3_hashLong_internal_loop_spec input bs secret :
  holds input bs -> holds secret sec -> 240 < zlen bs < 2 ^ 63 ->
  XXH3_hashLong_internal_loop XXH3_INIT_ACC input (zlen bs) secret (zlen sec) XXH3_accumulate_512 XXH3_scrambleAcc =
  Some (long_acc bs).
Proof.
  intros Hi Hs Hl. pose proof B_bounds as [HB HBl]. unfold XXH3_hashLong_internal_loop, XXH_STRIPE_LEN, XXH_SECRET_CONSUME_RATE.
  assert (Hb8 : u64 (zlen sec - 64) / 8 = Z.of_nat B) by (rewrite u64_small by lia; unfold B, lim; mlia).
  rewrite Hb8. rewrite (u64_small (64 * Z.of_nat B)) by (unfold lim in *; lia). rewrite (u64_small (zlen bs - 1)) by lia.
  set (N := Z.to_nat ((zlen bs - 1) / 64)). set (q := (N / B)%nat). set (r := (N mod B)%nat).
  assert (HN : N = (q * B + r)%nat /\ (r < B)%nat).
  { unfold q, r. pose proof (Nat.div_mod_eq N B). pose proof (Nat.mod_upper_bound N B). lia. }
  assert (HNl : 64 * Z.of_nat N < zlen bs <= 64 * Z.of_nat N + 64) by (unfold N; mlia).
  assert (Hq : (zlen bs - 1) / (64 * Z.of_nat B) = Z.of_nat q).
  { unfold q. rewrite Nat2Z.inj_div. unfold N. rewrite Z2Nat.id by mlia. rewrite Z.div_div by lia. done. }
  rewrite Hq. clear Hq Hb8. destruct HN as [HN Hr]. clearbody q r.
  destruct (hashLong_blocks input bs secret Hi Hs q 0%nat XXH3_INIT_ACC) as [E1 E2]; [nia|apply init_good|].
  rewrite drop_0 in E1, E2.
  change (Z.of_nat 0) with 0 in E1. rewrite Nat2Z.id, E1. cbn [mbind option_bind]. clear E1.
  rewrite (u64_small (64 * Z.of_nat B * Z.of_nat q)), (u64_small (zlen bs - 1 - _)) by nia.
  assert (Hrs : (zlen bs - 1 - 64 * Z.of_nat B * Z.of_nat q) / 64 = Z.of_nat r).
  { symmetry. apply (Z.div_unique _ _ _ (zlen bs - 1 - 64 * Z.of_nat N)); [lia|]. rewrite HN. lia. }
  rewrite Hrs. assert (Hg : good_acc (absorb (q * B) 0 XXH3_INIT_ACC bs).1) by apply absorb_good, init_good.
  rewrite <- (padd_0 secret) at 1. change 0 with (8 * Z.of_nat 0) at 1.
  assert (Hd : holds (padd input (Z.of_nat q * (64 * Z.of_nat B))) (slice bs (64 * Z.of_nat (q * B)) (64 * Z.of_nat r))).
  { replace (Z.of_nat q * (64 * Z.of_nat B)) with (64 * Z.of_nat (q * B)) by lia. apply holds_slice; [done|nia..]. }
  rewrite (XXH3_accumulate_spec _ _ _ r 0 secret Hg Hd Hs) by (rewrite ?zlen_slice; nia). cbn [mbind option_bind].
  assert (Habs : accs r 0 (absorb (q * B) 0 XXH3_INIT_ACC bs).1 (slice bs (64 * Z.of_nat (q * B)) (64 * Z.of_nat r)) =
    (absorb N 0 XXH3_INIT_ACC bs).1).
  { rewrite HN, absorb_add, E2. rewrite <- (take_drop (64 * r) (drop (64 * (q * B)) bs)).
    rewrite absorb_app by (rewrite length_take, length_drop; unfold zlen in *; nia).
    rewrite (absorb_accs r 0) by lia. by rewrite slice_stripes. }
  rewrite Habs. unfold XXH_SECRET_LASTACC_START. fold lim.
  rewrite (kernel_at _ _ bs _ _ _) by (done || (unfold lim; lia) || apply absorb_good, init_good). done.
Qed.

Definition merge_ref (acc : list Z) (o start : Z) : Z :=
  XXH3_avalanche (for_pure 4 0 (fun i r => u64 (r + fold_ref
    (Z.lxor (nth (Z.to_nat (2 * i)) acc 0) (le (slice sec (o + 16 * i) 8)))
    (Z.lxor (nth (Z.to_nat (2 * i + 1)) acc 0) (le (slice sec (o + 16 * i + 8) 8))))) start).

Lemma good_lookup acc i : good_acc acc -> 0 <= i < 8 ->
  acc !! Z.to_nat i = Some (nth (Z.to_nat i) acc 0) /\ u64_val (nth (Z.to_nat i) acc 0).
Proof.
  intros [Hl Hr] Hi. destruct (lookup_lt_is_Some_2 acc (Z.to_nat i)) as [x Hx]; [lia|].
  rewrite Hx. rewrite (nth_lookup_Some _ _ _ _ Hx). split; [done|]. exact (Forall_lookup_1 _ _ _ _ Hr Hx).
Qed.

Lemma XXH3_mergeAccs_spec acc secret o start :
  good_acc acc -> holds secret sec -> 0 <= o -> o + 64 <= zlen sec ->
  XXH3_mergeAccs acc (padd secret o) start = Some (merge_ref acc o start).
Proof.
  intros Hg Hs Ho Hl. unfold XXH3_mergeAccs, merge_ref.
  erewrite for_loop_pure; [reflexivity|]. intros i r Hi. simpl.
  destruct (good_lookup acc (2 * i) Hg) as [-> Hr0]; [lia|]. destruct (good_lookup acc (2 * i + 1) Hg) as [-> Hr1]; [lia|].
  cbn [mbind option_bind]. unfold XXH3_mix2Accs. rewrite !padd_padd.
  rewrite !(read64_at _ _ _ Hs) by lia. cbn [mbind option_bind].
  rewrite fold64_ref by (apply (lxor_range 64); [lia|done|apply le_slice_range; [done|lia|lia]]).
  by rewrite Z.add_assoc.
Qed.

Definition long64 (bs : list byte) : Z := merge_ref (long_acc bs) 11 (u64 (zlen bs * XXH_PRIME64_1)).
Definition long128 (bs : list byte) : XXH128_hash_t :=
  XXH128_Hash (long64 bs) (merge_ref (long_acc bs) (zlen sec - 75) (u64 (Z.lnot (u64 (zlen bs * XXH_PRIME64_2))))).

Lemma long_acc_good bs : good_acc (long_acc bs).
Proof. apply acc1_good, absorb_good, init_good. Qed.

Lemma XXH3_hashLong_64b_internal_spec input bs secret :
  holds input bs -> holds secret sec -> 240 < zlen bs < 2 ^ 63 ->
  XXH3_hashLong_64b_internal input (zlen bs) secret (zlen sec) XXH3_accumulate_512 XXH3_scrambleAcc = Some (long64 bs).
Proof.
  intros Hi Hs Hl. unfold XXH3_hashLong_64b_internal. rewrite XXH3_hashLong_internal_loop_spec by done.
  cbn [mbind option_bind]. apply XXH3_mergeAccs_spec; [apply long_acc_good|done|done|].
  unfold XXH_SECRET_MERGEACCS_START. lia.
Qed.

Lemma XXH3_hashLong_128b_internal_spec input bs secret :
  holds input bs -> holds secret sec -> 240 < zlen bs < 2 ^ 63 ->
  XXH3_hashLong_128b_internal input (zlen bs) secret (zlen sec) XXH3_accumulate_512 XXH3_scrambleAcc = Some (long128 bs).
Proof.
  intros Hi Hs Hl. unfold XXH3_hashLong_128b_internal. rewrite XXH3_hashLong_internal_loop_spec by done.
  cbn [mbind option_bind]. unfold XXH_SECRET_MERGEACCS_START.
  rewrite !XXH3_mergeAccs_spec by (apply long_acc_good || done || lia). cbn [mbind option_bind].
  unfold long128, long64. by replace (zlen sec - 64 - 11) with (zlen sec - 75) by lia.
Qed.

End Long.

(** ** One call: one value for every build and every place of the bytes *)

Section Oneshot.
Context (bs sec : list byte).
Hypothesis Hbs : bytes_ok bs.
Hypothesis Hsec : bytes_ok sec.
Hypothesis Hsz : 136 <= zlen sec < 2 ^ 60.
Hypothesis Hl : zlen bs < 2 ^ 63.

Lemma internal64_uniform seed (f : Build -> ptr -> Z -> Z -> ptr -> Z -> option Z) :
  u64_val seed ->
  (240 < zlen bs -> uniform u64_val (fun b i s => f b i (zlen bs) seed s (zlen sec)) bs sec) ->
  uniform u64_val (fun b i s => @XXH3_64bits_internal b i (zlen bs) seed s (zlen sec) (f b)) bs sec.
Proof.
  intros Hs Hf. unfold XXH3_64bits_internal, XXH3_MIDSIZE_MAX.
  destruct (Z.leb_spec (zlen bs) 16); [apply uniform_0to16_64; try done; lia|].
  destruct (Z.leb_spec (zlen bs) 128); [apply uniform_17to128_64; try done; lia|].
  destruct (Z.leb_spec (zlen bs) 240); [apply uniform_129to240_64; try done; lia|]. apply Hf. lia.
Qed.

Lemma internal128_uniform seed (f : Build -> ptr -> Z -> Z -> ptr -> Z -> option XXH128_hash_t) :
  u64_val seed ->
  (240 < zlen bs -> uniform u128_val (fun b i s => f b i (zlen bs) seed s (zlen sec)) bs sec) ->
  uniform u128_val (fun b i s => @XXH3_128bits_internal b i (zlen bs) seed s (zlen sec) (f b)) bs sec.
Proof.
  intros Hs Hf. unfold XXH3_128bits_internal, XXH3_MIDSIZE_MAX.
  destruct (Z.leb_spec (zlen bs) 16); [apply uniform_0to16_128; try done; lia|].
  destruct (Z.leb_spec (zlen bs) 128); [apply uniform_17to128_128; try done; lia|].
  destruct (Z.leb_spec (zlen bs) 240); [apply uniform_129to240_128; try done; lia|]. apply Hf. lia.
Qed.

Lemma withSecret_long (b : Build) input secret :
  holds input bs -> holds secret sec -> 240 < zlen bs ->
  XXH3_64bits_withSecret input (zlen bs) secret (zlen sec) = Some (long64 sec bs) /\
  XXH3_128bits_withSecret input (zlen bs) secret (zlen sec) = Some (long128 sec bs).
Proof.
  intros Hi Hs Hlen.
  unfold XXH3_64bits_withSecret, XXH3_128bits_withSecret, XXH3_64bits_internal, XXH3_128bits_internal, XXH3_MIDSIZE_MAX.
  rewrite !(proj2 (Z.leb_gt _ _)) by lia.
  split; [by apply XXH3_hashLong_64b_internal_spec|by apply XXH3_hashLong_128b_internal_spec].
Qed.

Lemma withSecret64_uniform :
  uniform u64_val (fun b i s => @XXH3_64bits_withSecret b i (zlen bs) s (zlen sec)) bs sec.
Proof.
  destruct (Z_lt_le_dec 240 (zlen bs)) as [Hlen|Hlen].
  - exists (long64 sec bs). split; [apply XXH3_avalanche_range|]. intros b i s Hi Hs. by apply withSecret_long.
  - apply (internal64_uniform 0 (fun b => @XXH3_hashLong_64b_withSecret b)); [done|lia].
Qed.

Lemma withSecret128_uniform :
  uniform u128_val (fun b i s => @XXH3_128bits_withSecret b i (zlen bs) s (zlen sec)) bs sec.
Proof.
  destruct (Z_lt_le_dec 240 (zlen bs)) as [Hlen|Hlen].
  - exists (long128 sec bs). split; [split; apply XXH3_avalanche_range|]. intros b i s Hi Hs. by apply withSecret_long.
  - apply (internal128_uniform 0 (fun b => @XXH3_hashLong_128b_withSecret b)); [done|lia].
Qed.

End Oneshot.

(** *** With a seed *)

Lemma kSecret_holds : holds kSecretPtr XXH3_kSecret.
Proof. split; [exact kSecret_readable|reflexivity]. Qed.

Lemma kSecret_ok : bytes_ok XXH3_kSecret.
Proof. apply (holds_ok _ _ kSecret_holds). Qed.

Lemma custom_secret_ok seed : bytes_ok (custom_secret seed) /\ zlen (custom_secret seed) = 192.
Proof.
  split; [apply vec_bytes_ok|]. unfold zlen, custom_secret.
  rewrite length_vec_bytes, (length_seeded 12) by apply length_words. done.
Qed.

(** The secret long inputs are hashed with. *)
Definition seed_secret (seed : Z) : list byte := if seed =? 0 then XXH3_kSecret else custom_secret seed.

Lemma seed_secret_ok seed : bytes_ok (seed_secret seed) /\ zlen (seed_secret seed) = 192.
Proof. unfold seed_secret. case_match; [|apply custom_secret_ok]. split; [apply kSecret_ok|done]. Qed.

Lemma own_holds (bs : list byte) a : bytes_ok bs -> holds (Ptr bs a 0) bs.
Proof.
  intros Hb. pose proof (zlen_nonneg bs).
  split; [repeat split; simpl; try lia; done|]. unfold bytes_at. simpl. apply slice_full.
Qed.

Section Seeded.
Context (bs : list byte) (seed : Z).
Hypothesis Hbs : bytes_ok bs.
Hypothesis Hl : zlen bs < 2 ^ 63.
Hypothesis Hseed : u64_val seed.

Lemma withSeed_long (b : Build) input :
  holds input bs -> 240 < zlen bs -> seed_defined seed ->
  XXH3_64bits_withSeed input (zlen bs) seed = Some (long64 (seed_secret seed) bs) /\
  XXH3_128bits_withSeed input (zlen bs) seed = Some (long128 (seed_secret seed) bs).
Proof.
  intros Hi Hlen Hsd. pose proof (custom_secret_ok seed) as [Hc Hz].
  unfold XXH3_64bits_withSeed, XXH3_128bits_withSeed, XXH3_64bits_internal, XXH3_128bits_internal, XXH3_MIDSIZE_MAX.
  rewrite !(proj2 (Z.leb_gt _ _)) by lia.
  unfold XXH3_hashLong_64b_withSeed, XXH3_hashLong_64b_withSeed_internal,
    XXH3_hashLong_128b_withSeed, XXH3_hashLong_128b_withSeed_internal, seed_secret.
  destruct (seed =? 0).
  - split; [apply XXH3_hashLong_64b_internal_spec|apply XXH3_hashLong_128b_internal_spec];
      try done; apply kSecret_ok || apply kSecret_holds.
  - rewrite XXH3_initCustomSecret_ok by done. cbn [mbind option_bind].
    split; [apply XXH3_hashLong_64b_internal_spec|apply XXH3_hashLong_128b_internal_spec];
      try done; try lia; by apply own_holds.
Qed.

Lemma withSeed_uniform :
  exists h h', u64_val h /\ u128_val h' /\ forall (b : Build) input, holds input bs ->
    (240 < zlen bs -> seed_defined seed) ->
    XXH3_64bits_withSeed input (zlen bs) seed = Some h /\ XXH3_128bits_withSeed input (zlen bs) seed = Some h'.
Proof.
  destruct (Z_lt_le_dec 240 (zlen bs)) as [Hlen|Hlen].
  - exists (long64 (seed_secret seed) bs), (long128 (seed_secret seed) bs).
    split; [apply XXH3_avalanche_range|]. split; [split; apply XXH3_avalanche_range|].
    intros b input Hi Hsd. apply withSeed_long; auto.
  - destruct (internal64_uniform bs XXH3_kSecret Hbs ltac:(done) seed (fun b => @XXH3_hashLong_64b_withSeed b))
      as (h & Hh & E); [done|lia|].
    destruct (internal128_uniform bs XXH3_kSecret Hbs ltac:(done) seed (fun b => @XXH3_hashLong_128b_withSeed b))
      as (h' & Hh' & E'); [done|lia|].
    exists h, h'. split; [done|]. split; [done|]. intros b input Hi _.
    split; [apply E|apply E']; done || apply kSecret_holds.
Qed.

End Seeded.

(** The assertion of XXH3_len_4to8_64b on its length. *)
Definition len_4to8_64b_assert (len : Z) : bool := (4 <=? len) && (len <? 8).

(** XXH3_len_0to16_64b calls XXH3_len_4to8_64b with a length of 8, which the assertion
    excludes; for the lengths 4 to 7 it holds. *)
Lemma len_8_assert (b : Build) input secret sd :
  XXH3_len_0to16_64b input 8 secret sd = XXH3_len_4to8_64b input 8 secret sd /\
  len_4to8_64b_assert 8 = false /\ forall len, 4 <= len < 8 -> len_4to8_64b_assert len = true.
Proof.
  split; [done|]. split; [done|]. intros len Hl. unfold len_4to8_64b_assert.
  by rewrite (proj2 (Z.leb_le _ _)), (proj2 (Z.ltb_lt _ _)) by lia.
Qed.
