(* ===== verification/Xxh3Stream.v ===== *)
(** * XXH3 as a stream (include/hash/xxhash.h)

    A state buffers up to 256 bytes and consumes its buffer four stripes at a time,
    always leaving at least one byte for the digest.  The digest of a stream is
    shown to be the hash of one call on the whole input, for the default secret, a
    seed or a secret of the caller. *)

From S2P Require Import Prelude Words Xxh Xxh64 Xxh3Vec Xxh3.
Local Open Scope Z_scope.

Definition XXH3_INTERNALBUFFER_SIZE : Z := 256.
Definition XXH3_INTERNALBUFFER_STRIPES : Z := XXH3_INTERNALBUFFER_SIZE / XXH_STRIPE_LEN.

Record XXH3_state := XXH3_State {
  acc : list Z; customSecret : list byte; buffer : list byte; bufferedSize : Z; nbStripesSoFar : Z;
  totalLen : Z; nbStripesPerBlock : Z; secretLimit : Z; seed : Z; extSecret : ptr }.

(** Pointers to members; 64 stands for the address of the member. *)
Definition bufferPtr (state : XXH3_state) : ptr := Ptr (buffer state) 64 0.
Definition secretPtr (state : XXH3_state) : ptr :=
  if is_null (extSecret state) then Ptr (customSecret state) 64 0 else extSecret state.

Section Stream.
Context `{Build}.

Definition XXH3_INITSTATE (st : XXH3_state) : XXH3_state :=
  XXH3_State (acc st) (customSecret st) (buffer st) (bufferedSize st) (nbStripesSoFar st) (totalLen st)
    (nbStripesPerBlock st) (secretLimit st) 0 (extSecret st).

Definition XXH3_copyState (dst_state src_state : XXH3_state) : XXH3_state := src_state.

Definition XXH3_64bits_reset_internal (st : XXH3_state) (seed : Z) (secret : ptr) (secretSize : Z) : XXH3_state :=
  let secretLimit := u64 (secretSize - XXH_STRIPE_LEN) in
  XXH3_State XXH3_INIT_ACC (customSecret st) (buffer st) 0 0 0
    (secretLimit / XXH_SECRET_CONSUME_RATE) secretLimit seed secret.

(** [None] for statePtr is NULL. *)
Definition XXH3_64bits_reset (statePtr : option XXH3_state) : XXH_errorcode * option XXH3_state :=
  match statePtr with
  | None => (XXH_ERROR, None)
  | Some st => (XXH_OK, Some (XXH3_64bits_reset_internal st 0 kSecretPtr XXH_SECRET_DEFAULT_SIZE))
  end.

Definition XXH3_64bits_reset_withSecret (statePtr : option XXH3_state) (secret : ptr) (secretSize : Z)
  : XXH_errorcode * option XXH3_state :=
  match statePtr with
  | None => (XXH_ERROR, None)
  | Some st =>
      let st := XXH3_64bits_reset_internal st 0 secret secretSize in
      if is_null secret then (XXH_ERROR, Some st) else
      if secretSize <? XXH3_SECRET_SIZE_MIN then (XXH_ERROR, Some st) else
      (XXH_OK, Some st)
  end.

Definition set_customSecret (st : XXH3_state) (cs : list byte) : XXH3_state :=
  XXH3_State (acc st) cs (buffer st) (bufferedSize st) (nbStripesSoFar st) (totalLen st)
    (nbStripesPerBlock st) (secretLimit st) (seed st) (extSecret st).

Definition XXH3_64bits_reset_withSeed (statePtr : option XXH3_state) (sd : Z)
  : option (XXH_errorcode * option XXH3_state) :=
  match statePtr with
  | None => Some (XXH_ERROR, None)
  | Some st =>
      if sd =? 0 then Some (XXH3_64bits_reset (Some st)) else
      st ← (if negb (sd =? seed st)
            then cs ← XXH3_initCustomSecret (customSecret st) sd; Some (set_customSecret st cs)
            else Some st);
      Some (XXH_OK, Some (XXH3_64bits_reset_internal st sd NULL XXH_SECRET_DEFAULT_SIZE))
  end.

(** The accumulators and *nbStripesSoFarPtr after the call. *)
Definition XXH3_consumeStripes (acc : list Z) (soFar perBlock : Z) (input : ptr) (nbStripes : Z)
    (secret : ptr) (limit : Z)
    (f_acc512 : list Z -> ptr -> ptr -> option (list Z)) (f_scramble : list Z -> ptr -> option (list Z))
  : option (list Z * Z) :=
  if u64 (perBlock - soFar) <=? nbStripes then
    let nbStripesToEndofBlock := u64 (perBlock - soFar) in
    let nbStripesAfterBlock := u64 (nbStripes - nbStripesToEndofBlock) in
    acc ← XXH3_accumulate acc input (padd secret (soFar * XXH_SECRET_CONSUME_RATE)) nbStripesToEndofBlock f_acc512;
    acc ← f_scramble acc (padd secret limit);
    acc ← XXH3_accumulate acc (padd input (nbStripesToEndofBlock * XXH_STRIPE_LEN)) secret nbStripesAfterBlock f_acc512;
    Some (acc, nbStripesAfterBlock)
  else
    acc ← XXH3_accumulate acc input (padd secret (soFar * XXH_SECRET_CONSUME_RATE)) nbStripes f_acc512;
    Some (acc, u64 (soFar + nbStripes)).

Definition XXH3_update (state : XXH3_state) (input : ptr) (len : Z)
    (f_acc512 : list Z -> ptr -> ptr -> option (list Z)) (f_scramble : list Z -> ptr -> option (list Z))
  : option (XXH_errorcode * XXH3_state) :=
  if is_null input then Some (if XXH_ACCEPT_NULL_INPUT_POINTER then XXH_OK else XXH_ERROR, state) else
  let bEnd := padd input len in
  let secret := secretPtr state in
  let total := u64 (totalLen state + len) in
  let perBlock := nbStripesPerBlock state in
  let limit := secretLimit state in
  let set a b n k := XXH3_State a (customSecret state) b n k total perBlock limit (seed state) (extSecret state) in
  if u64 (bufferedSize state + len) <=? XXH3_INTERNALBUFFER_SIZE then
    buf ← copy (buffer state) (bufferedSize state) input len;
    Some (XXH_OK, set (acc state) buf (u32 (bufferedSize state + u32 len)) (nbStripesSoFar state))
  else
    '(a, k, buf, input) ←
      (if negb (bufferedSize state =? 0) then
         let loadSize := XXH3_INTERNALBUFFER_SIZE - bufferedSize state in
         buf ← copy (buffer state) (bufferedSize state) input loadSize;
         '(a, k) ← XXH3_consumeStripes (acc state) (nbStripesSoFar state) perBlock (Ptr buf 64 0)
            XXH3_INTERNALBUFFER_STRIPES secret limit f_acc512 f_scramble;
         Some (a, k, buf, padd input loadSize)
       else Some (acc state, nbStripesSoFar state, buffer state, input));
    '(a, k, buf, input) ←
      (if poff input + XXH3_INTERNALBUFFER_SIZE <? poff bEnd then
         let lim := poff bEnd - XXH3_INTERNALBUFFER_SIZE in
         '((a, k), input) ← do_while (Z.to_nat len) (fun '((a, k), input) =>
             '(a, k) ← XXH3_consumeStripes a k perBlock input XXH3_INTERNALBUFFER_STRIPES secret limit f_acc512 f_scramble;
             Some ((a, k), padd input XXH3_INTERNALBUFFER_SIZE))
           (fun s => poff s.2 <? lim) ((a, k), input);
         buf ← copy buf (zlen buf - XXH_STRIPE_LEN) (padd input (- XXH_STRIPE_LEN)) XXH_STRIPE_LEN;
         Some (a, k, buf, input)
       else Some (a, k, buf, input));
    buf ← copy buf 0 input (poff bEnd - poff input);
    Some (XXH_OK, set a buf (u32 (poff bEnd - poff input)) k).

Definition XXH3_64bits_update (state : XXH3_state) (input : ptr) (len : Z) : option (XXH_errorcode * XXH3_state) :=
  XXH3_update state input len XXH3_accumulate_512 XXH3_scrambleAcc.

(** The array lastStripe is overwritten as a whole. *)
Definition XXH3_digest_long (state : XXH3_state) (secret : ptr) : option (list Z) :=
  let a := acc state in
  if XXH_STRIPE_LEN <=? bufferedSize state then
    let nbStripes := (bufferedSize state - 1) / XXH_STRIPE_LEN in
    '(a, _) ← XXH3_consumeStripes a (nbStripesSoFar state) (nbStripesPerBlock state) (bufferPtr state) nbStripes
      secret (secretLimit state) XXH3_accumulate_512 XXH3_scrambleAcc;
    XXH3_accumulate_512 a (padd (bufferPtr state) (bufferedSize state - XXH_STRIPE_LEN))
      (padd secret (secretLimit state - XXH_SECRET_LASTACC_START))
  else
    let catchupSize := XXH_STRIPE_LEN - bufferedSize state in
    lastStripe ← copy (replicate 64 0) 0 (padd (bufferPtr state) (zlen (buffer state) - catchupSize)) catchupSize;
    lastStripe ← copy lastStripe catchupSize (bufferPtr state) (bufferedSize state);
    XXH3_accumulate_512 a (Ptr lastStripe 64 0) (padd secret (secretLimit state - XXH_SECRET_LASTACC_START)).

Definition XXH3_64bits_digest (state : XXH3_state) : option Z :=
  let secret := secretPtr state in
  if XXH3_MIDSIZE_MAX <? totalLen state then
    a ← XXH3_digest_long state secret;
    XXH3_mergeAccs a (padd secret XXH_SECRET_MERGEACCS_START) (u64 (totalLen state * XXH_PRIME64_1))
  else if negb (seed state =? 0) then XXH3_64bits_withSeed (bufferPtr state) (totalLen state) (seed state)
  else XXH3_64bits_withSecret (bufferPtr state) (totalLen state) secret (secretLimit state + XXH_STRIPE_LEN).

(** *** 128 bits *)

Definition XXH3_128bits_reset_internal (st : XXH3_state) (seed : Z) (secret : ptr) (secretSize : Z) : XXH3_state :=
  XXH3_64bits_reset_internal st seed secret secretSize.

Definition XXH3_128bits_reset (statePtr : option XXH3_state) : XXH_errorcode * option XXH3_state :=
  match statePtr with
  | None => (XXH_ERROR, None)
  | Some st => (XXH_OK, Some (XXH3_128bits_reset_internal st 0 kSecretPtr XXH_SECRET_DEFAULT_SIZE))
  end.

Definition XXH3_128bits_reset_withSecret (statePtr : option XXH3_state) (secret : ptr) (secretSize : Z)
  : XXH_errorcode * option XXH3_state :=
  match statePtr with
  | None => (XXH_ERROR, None)
  | Some st =>
      let st := XXH3_128bits_reset_internal st 0 secret secretSize in
      if is_null secret then (XXH_ERROR, Some st) else
      if secretSize <? XXH3_SECRET_SIZE_MIN then (XXH_ERROR, Some st) else
      (XXH_OK, Some st)
  end.

Definition XXH3_128bits_reset_withSeed (statePtr : option XXH3_state) (sd : Z)
  : option (XXH_errorcode * option XXH3_state) :=
  match statePtr with
  | None => Some (XXH_ERROR, None)
  | Some st =>
      if sd =? 0 then Some (XXH3_128bits_reset (Some st)) else
      st ← (if negb (sd =? seed st)
            then cs ← XXH3_initCustomSecret (customSecret st) sd; Some (set_customSecret st cs)
            else Some st);
      Some (XXH_OK, Some (XXH3_128bits_reset_internal st sd NULL XXH_SECRET_DEFAULT_SIZE))
  end.

Definition XXH3_128bits_update (state : XXH3_state) (input : ptr) (len : Z) : option (XXH_errorcode * XXH3_state) :=
  XXH3_update state input len XXH3_accumulate_512 XXH3_scrambleAcc.

Definition XXH3_128bits_digest (state : XXH3_state) : option XXH128_hash_t :=
  let secret := secretPtr state in
  if XXH3_MIDSIZE_MAX <? totalLen state then
    a ← XXH3_digest_long state secret;
    lo ← XXH3_mergeAccs a (padd secret XXH_SECRET_MERGEACCS_START) (u64 (totalLen state * XXH_PRIME64_1));
    hi ← XXH3_mergeAccs a (padd secret (secretLimit state + XXH_STRIPE_LEN - 64 - XXH_SECRET_MERGEACCS_START))
           (u64 (Z.lnot (u64 (totalLen state * XXH_PRIME64_2))));
    Some (XXH128_Hash lo hi)
  else if negb (seed state =? 0) then XXH3_128bits_withSeed (bufferPtr state) (totalLen state) (seed state)
  else XXH3_128bits_withSecret (bufferPtr state) (totalLen state) secret (secretLimit state + XXH_STRIPE_LEN).

End Stream.

(** ** The state after an input *)

Section Rep.
Context (sec : list byte).
Hypothesis Hok : bytes_ok sec.
Hypothesis Hsz : 136 <= zlen sec < 2 ^ 60.
Context `{Build}.

(** The accumulators and the stripe number after the [n] stripes of [pre]. *)
Definition consumed (n : nat) (pre : list byte) : list Z * Z :=
  ((absorb sec n 0 XXH3_INIT_ACC pre).1, Z.of_nat (absorb sec n 0 XXH3_INIT_ACC pre).2).

(** The input is [pre], which has been consumed, and [rest], which is at the start of
    the buffer; once something is consumed [rest] is not empty, and the end of the
    buffer has the bytes before [rest] that the last stripe needs. *)
Definition buffered3 (bs : list byte) (ak : list Z * Z) (buf : list byte) (size : Z) : Prop :=
  zlen buf = 256 /\ bytes_ok buf /\ exists n pre rest, bs = pre ++ rest /\ zlen pre = 64 * Z.of_nat n /\
    zlen rest <= 256 /\ ak = consumed n pre /\ size = zlen rest /\ slice buf 0 size = rest /\
    (pre = [] \/ 256 <= zlen pre /\ 0 < zlen rest /\ (zlen rest < 64 ->
       slice buf (192 + zlen rest) (64 - zlen rest) = slice pre (zlen pre - 64 + zlen rest) (64 - zlen rest))).

Record rep3 (bs : list byte) (st : XXH3_state) : Prop := {
  r3_total : totalLen st = zlen bs;
  r3_limit : secretLimit st = lim sec;
  r3_blocks : nbStripesPerBlock st = Z.of_nat (B sec);
  r3_secret : holds (secretPtr st) sec;
  r3_data : buffered3 bs (acc st, nbStripesSoFar st) (buffer st) (bufferedSize st) }.

Lemma XXH3_consumeStripes_spec a k input bs n secret :
  good_acc a -> (k < B sec)%nat -> (n <= B sec)%nat -> holds input bs -> 64 * Z.of_nat n <= zlen bs -> holds secret sec ->
  XXH3_consumeStripes a (Z.of_nat k) (Z.of_nat (B sec)) input (Z.of_nat n) secret (lim sec)
    XXH3_accumulate_512 XXH3_scrambleAcc =
  Some ((absorb sec n k a bs).1, Z.of_nat (absorb sec n k a bs).2).
Proof.
  intros Hg Hk Hn Hi Hl Hs. pose proof (B_bounds sec Hsz) as [HB HBl].
  unfold XXH3_consumeStripes, XXH_SECRET_CONSUME_RATE, XXH_STRIPE_LEN.
  assert (HB60 : Z.of_nat (B sec) < 2 ^ 60) by (unfold lim in *; lia).
  rewrite (u64_small (Z.of_nat (B sec) - Z.of_nat k)) by lia. rewrite (Z.mul_comm (Z.of_nat k)).
  destruct (Z.leb_spec (Z.of_nat (B sec) - Z.of_nat k) (Z.of_nat n)) as [Hc|Hc].
  - set (e := (B sec - k)%nat). replace (Z.of_nat (B sec) - Z.of_nat k) with (Z.of_nat e) by lia.
    rewrite (u64_small (Z.of_nat n - Z.of_nat e)) by lia. set (m := (n - e)%nat).
    replace (Z.of_nat n - Z.of_nat e) with (Z.of_nat m) by lia.
    assert (Hpre : holds input (take (64 * e) bs)).
    { pose proof (holds_slice _ _ 0 (64 * Z.of_nat e) Hi ltac:(lia) ltac:(lia) ltac:(lia)) as Hh.
      rewrite padd_0 in Hh. unfold slice in Hh. rewrite drop_0 in Hh.
      by replace (Z.to_nat (64 * Z.of_nat e)) with (64 * e)%nat in Hh by lia. }
    rewrite (XXH3_accumulate_spec sec Hsz a input _ e k secret Hg Hpre Hs); [|unfold zlen in *; rewrite length_take; lia|lia].
    cbn [mbind option_bind]. rewrite scramble_at by (done || by apply accs_good). cbn [mbind option_bind].
    pose proof (holds_slice _ _ (64 * Z.of_nat e) (64 * Z.of_nat m) Hi ltac:(lia) ltac:(lia) ltac:(lia)) as Hrest.
    rewrite (Z.mul_comm (Z.of_nat e)). rewrite <- (padd_0 secret) at 1. change 0 with (8 * Z.of_nat 0) at 1.
    rewrite (XXH3_accumulate_spec sec Hsz (scr sec (accs sec e k a (take (64 * e) bs))) _ _ m 0 secret
      ltac:(by apply scr_good, accs_good) Hrest Hs) by (rewrite ?zlen_slice; lia).
    cbn [mbind option_bind].
    assert (E : absorb sec n k a bs =
      (accs sec m 0 (scr sec (accs sec e k a (take (64 * e) bs))) (slice bs (64 * Z.of_nat e) (64 * Z.of_nat m)), m)).
    { replace n with (e + m)%nat by lia. rewrite absorb_add.
      assert (absorb sec e k a bs = (scr sec (accs sec e k a (take (64 * e) bs)), 0%nat)) as ->.
      { rewrite <- (take_drop (64 * e) bs) at 1. rewrite absorb_app by (rewrite length_take; unfold zlen in *; lia).
        apply absorb_block; lia. }
      cbn [fst snd]. rewrite <- (take_drop (64 * m) (drop (64 * e) bs)).
      rewrite absorb_app by (rewrite length_take, length_drop; unfold zlen in *; lia).
      rewrite absorb_accs by lia. by rewrite slice_stripes. }
    by rewrite E.
  - assert (Hpre : holds input (take (64 * n) bs)).
    { pose proof (holds_slice _ _ 0 (64 * Z.of_nat n) Hi ltac:(lia) ltac:(lia) ltac:(lia)) as Hh.
      rewrite padd_0 in Hh. unfold slice in Hh. rewrite drop_0 in Hh.
      by replace (Z.to_nat (64 * Z.of_nat n)) with (64 * n)%nat in Hh by lia. }
    rewrite (XXH3_accumulate_spec sec Hsz a input _ n k secret Hg Hpre Hs); [|unfold zlen in *; rewrite length_take; lia|lia].
    cbn [mbind option_bind]. rewrite <- (take_drop (64 * n) bs) at 2 3.
    rewrite !absorb_app by (rewrite length_take; unfold zlen in *; lia). rewrite absorb_accs by lia. simpl.
    rewrite u64_small by lia. do 2 f_equal. lia.
Qed.

Lemma holds_drop p bs n : holds p bs -> (n <= length bs)%nat -> holds (padd p (Z.of_nat n)) (drop n bs).
Proof.
  intros Hh Hn. pose proof (holds_slice p bs (Z.of_nat n) (zlen bs - Z.of_nat n) Hh ltac:(lia) ltac:(unfold zlen; lia) ltac:(lia)) as Hs.
  unfold slice in Hs. rewrite Nat2Z.id, take_ge in Hs; [done|]. rewrite length_drop. unfold zlen. lia.
Qed.

(** The loop over inputs that do not fit in the buffer. *)
Lemma consume_loop secret cond m : holds secret sec -> forall fuel a k p bs,
  (m < fuel)%nat -> good_acc a -> (k < B sec)%nat -> holds p bs -> 256 * Z.of_nat (S m) <= zlen bs ->
  (forall s i, (0 < i <= S m)%nat -> cond (s, padd p (256 * Z.of_nat i)) = (i <? S m)%nat) ->
  do_while fuel (fun '((a, k), input) =>
      '(a, k) ← XXH3_consumeStripes a k (Z.of_nat (B sec)) input XXH3_INTERNALBUFFER_STRIPES secret (lim sec)
        XXH3_accumulate_512 XXH3_scrambleAcc;
      Some ((a, k), padd input XXH3_INTERNALBUFFER_SIZE)) cond ((a, Z.of_nat k), p) =
  Some (((absorb sec (4 * S m) k a bs).1, Z.of_nat (absorb sec (4 * S m) k a bs).2), padd p (256 * Z.of_nat (S m))).
Proof.
  intros Hs. pose proof (B_bounds sec Hsz) as [HB _].
  induction m as [|m IH]; intros [|fuel] a k p bs Hf Hg Hk Hp Hl Hc; try lia; cbn [do_while];
    change XXH3_INTERNALBUFFER_STRIPES with (Z.of_nat 4); change XXH3_INTERNALBUFFER_SIZE with 256;
    rewrite (XXH3_consumeStripes_spec a k p bs 4 secret Hg Hk) by (done || lia); cbn [mbind option_bind].
  - pose proof (Hc ((absorb sec 4 k a bs).1, Z.of_nat (absorb sec 4 k a bs).2) 1%nat ltac:(lia)) as E.
    change (256 * Z.of_nat 1) with 256 in *. by rewrite E.
  - pose proof (Hc ((absorb sec 4 k a bs).1, Z.of_nat (absorb sec 4 k a bs).2) 1%nat ltac:(lia)) as E.
    change (256 * Z.of_nat 1) with 256 in E. rewrite E. change (1 <? S (S m))%nat with true. cbv iota.
    rewrite (IH fuel _ _ _ (drop (64 * 4) bs)).
    + rewrite <- absorb_add, padd_padd. replace (4 + 4 * S m)%nat with (4 * S (S m))%nat by lia. do 2 f_equal. f_equal. lia.
    + lia.
    + by apply absorb_good.
    + rewrite absorb_index by done. apply Nat.mod_upper_bound. lia.
    + change 256 with (Z.of_nat 256). apply holds_drop; [done|]. unfold zlen in Hl. lia.
    + unfold zlen in *. rewrite length_drop. lia.
    + intros s i Hi. rewrite padd_padd. replace (256 + 256 * Z.of_nat i) with (256 * Z.of_nat (S i)) by lia.
      rewrite Hc by lia. done.
Qed.

(** What the update has consumed of the input when it comes to the last copy. *)
Definition tail_ready (n : nat) (pre buf : list byte) : Prop :=
  zlen pre = 64 * Z.of_nat n /\ 256 <= zlen pre /\ zlen buf = 256 /\ bytes_ok buf /\
  slice buf 192 64 = slice pre (zlen pre - 64) 64.

Lemma copy_tail n pre buf p rest :
  tail_ready n pre buf -> holds p rest -> 0 < zlen rest <= 256 ->
  exists buf', copy buf 0 p (zlen rest) = Some buf' /\ buffered3 (pre ++ rest) (consumed n pre) buf' (zlen rest).
Proof.
  intros (Hn & Hp & Hb & Hbo & Hsl) [Hr Hat] Hl.
  rewrite copy_readable by (done || lia). rewrite Hat. eexists. split; [done|].
  split; [rewrite zlen_splice; lia|]. split.
  { apply splice_ok; [done|]. rewrite <- Hat. by apply readable_bytes. }
  exists n, pre, rest. split; [done|]. repeat split; try done; try lia.
  - pose proof (slice_splice_prefix buf 0 rest) as E. rewrite Z.add_0_l in E. rewrite E by lia. by rewrite slice_zero.
  - right. split; [done|]. split; [lia|]. intros Hs. rewrite slice_splice_after by lia.
    rewrite <- (drop_slice buf 192 (zlen rest) 64) by lia.
    rewrite Hsl. by rewrite drop_slice by lia.
Qed.

Lemma consumed_app n m pre bs :
  zlen pre = 64 * Z.of_nat n ->
  consumed (n + m) (pre ++ bs) =
  ((absorb sec m (absorb sec n 0 XXH3_INIT_ACC pre).2 (absorb sec n 0 XXH3_INIT_ACC pre).1 bs).1,
   Z.of_nat (absorb sec m (absorb sec n 0 XXH3_INIT_ACC pre).2 (absorb sec n 0 XXH3_INIT_ACC pre).1 bs).2).
Proof.
  intros Hn. unfold consumed. rewrite absorb_add. rewrite absorb_app by (unfold zlen in Hn; lia).
  rewrite drop_app_length' by (unfold zlen in Hn; lia). done.
Qed.

Lemma consumed_ok n pre : good_acc (consumed n pre).1 /\ exists k, (k < B sec)%nat /\ (consumed n pre).2 = Z.of_nat k.
Proof.
  pose proof (B_bounds sec Hsz) as [HB _]. split; [apply absorb_good, init_good|].
  exists (absorb sec n 0 XXH3_INIT_ACC pre).2. split; [|done].
  rewrite absorb_index by lia. apply Nat.mod_upper_bound. lia.
Qed.

Lemma update_loop n pre buf p bs secret fuel :
  zlen pre = 64 * Z.of_nat n -> zlen buf = 256 -> bytes_ok buf -> holds p bs -> holds secret sec ->
  256 < zlen bs -> (length bs <= fuel)%nat ->
  exists m buf', 0 < zlen (drop (256 * m) bs) <= 256 /\ (256 * m < length bs)%nat /\
    tail_ready (n + 4 * m) (pre ++ take (256 * m) bs) buf' /\
    ('((a, k), input) ← do_while fuel (fun '((a, k), input) =>
         '(a, k) ← XXH3_consumeStripes a k (Z.of_nat (B sec)) input XXH3_INTERNALBUFFER_STRIPES secret (lim sec)
           XXH3_accumulate_512 XXH3_scrambleAcc;
         Some ((a, k), padd input XXH3_INTERNALBUFFER_SIZE))
       (fun s => poff s.2 <? poff p + zlen bs - XXH3_INTERNALBUFFER_SIZE) (consumed n pre, p);
     buf ← copy buf (zlen buf - XXH_STRIPE_LEN) (padd input (- XXH_STRIPE_LEN)) XXH_STRIPE_LEN;
     Some (a, k, buf, input)) =
    Some (consumed (n + 4 * m) (pre ++ take (256 * m) bs), buf', padd p (256 * Z.of_nat m)).
Proof.
  intros Hn Hb Hbo Hp Hs Hl Hf. pose proof (B_bounds sec Hsz) as [HB _].
  set (m := Z.to_nat ((zlen bs - 1) / 256 - 1)).
  assert (Hm : 256 * Z.of_nat (S m) < zlen bs <= 256 * Z.of_nat (S m) + 256) by (unfold m; mlia).
  assert (Hml : (256 * S m < length bs)%nat) by (unfold zlen in Hm; lia).
  destruct (holds_read p bs (256 * Z.of_nat (S m) - 64) 64 Hp) as [Hr Hat]; [lia..|].
  exists (S m), (splice buf 192 (slice bs (256 * Z.of_nat (S m) - 64) 64)).
  assert (Hz : zlen (slice bs (256 * Z.of_nat (S m) - 64) 64) = 64) by (rewrite zlen_slice; lia).
  assert (Ht : zlen (take (256 * S m) bs) = 256 * Z.of_nat (S m)) by (unfold zlen; rewrite length_take; lia).
  split; [unfold zlen in *; rewrite length_drop; lia|]. split; [done|]. split.
  - unfold tail_ready. rewrite zlen_app, Ht, zlen_splice by lia. repeat split; try lia.
    + apply splice_ok; [done|]. rewrite <- Hat. by apply readable_bytes.
    + transitivity (slice bs (256 * Z.of_nat (S m) - 64) 64).
      { pose proof (slice_splice_same buf 192 (slice bs (256 * Z.of_nat (S m) - 64) 64)) as E. rewrite Hz in E. apply E; lia. }
      unfold slice.
      rewrite drop_app_ge by (unfold zlen in *; lia). rewrite skipn_firstn_comm, take_take.
      unfold zlen in *. clearbody m. f_equal; [lia|]. f_equal. lia.
  - unfold consumed at 1.
    rewrite (consume_loop secret _ m Hs fuel _ _ p bs ltac:(lia) (absorb_good _ _ _ _ _ init_good)); [|..|lia|].
    + cbn [mbind option_bind]. rewrite padd_padd. unfold XXH_STRIPE_LEN.
      replace (256 * Z.of_nat (S m) + - (64)) with (256 * Z.of_nat (S m) - 64) by lia.
      rewrite copy_readable by (done || lia). rewrite Hat, Hb. cbn [mbind option_bind].
      rewrite consumed_app by done. rewrite <- (take_drop (256 * S m) bs) at 1 2.
      rewrite !absorb_app by (rewrite length_take; lia). done.
    + rewrite absorb_index by lia. apply Nat.mod_upper_bound. lia.
    + done.
    + intros s i Hi. simpl. unfold XXH3_INTERNALBUFFER_SIZE. destruct (Nat.ltb_spec i (S m)), (Z.ltb_spec (poff p + 256 * Z.of_nat i) (poff p + zlen bs - 256)); lia.
Qed.

(** The second half of XXH3_update, for the bytes [bs] that do not fit. *)
Lemma update_tail n pre a0 k0 buf p bs secret fuel (e : Z) :
  (a0, k0) = consumed n pre ->
  zlen pre = 64 * Z.of_nat n -> zlen buf = 256 -> bytes_ok buf -> holds p bs -> holds secret sec ->
  0 < zlen bs -> e = poff p + zlen bs -> (length bs <= fuel)%nat ->
  256 < zlen bs \/ tail_ready n pre buf ->
  exists a k buf1 p' buf',
    (if poff p + 256 <? e then
       '((a, k), input) ← do_while fuel (fun '((a, k), input) =>
           '(a, k) ← XXH3_consumeStripes a k (Z.of_nat (B sec)) input XXH3_INTERNALBUFFER_STRIPES secret (lim sec)
             XXH3_accumulate_512 XXH3_scrambleAcc;
           Some ((a, k), padd input 256))
         (fun s => poff s.2 <? e - 256) (a0, k0, p);
       buf ← copy buf (zlen buf - XXH_STRIPE_LEN) (padd input (- XXH_STRIPE_LEN)) XXH_STRIPE_LEN;
       Some (a, k, buf, input)
     else Some (a0, k0, buf, p)) = Some (a, k, buf1, p') /\
    copy buf1 0 p' (e - poff p') = Some buf' /\ buffered3 (pre ++ bs) (a, k) buf' (u32 (e - poff p')).
Proof.
  intros Hak Hn Hb Hbo Hp Hs Hl -> Hf Hor.
  destruct (Z.ltb_spec (poff p + 256) (poff p + zlen bs)) as [Hbig|Hsmall].
  - destruct (update_loop n pre buf p bs secret fuel) as (m & buf1 & Hrl & Hm & Ht & E); [done..|lia|done|].
    rewrite <- Hak in E. change XXH3_INTERNALBUFFER_SIZE with 256 in E. rewrite E.
    destruct (copy_tail _ _ _ _ _ Ht (holds_drop p bs (256 * m) Hp ltac:(lia)) Hrl) as (buf' & Ec & Hbuf).
    destruct (consumed _ _) as [a k]. do 5 eexists. split; [reflexivity|]. simpl poff. replace (256 * Z.of_nat m) with (Z.of_nat (256 * m)) by lia.
    replace (poff p + zlen bs - (poff p + Z.of_nat (256 * m))) with (zlen (drop (256 * m) bs))
      by (unfold zlen in *; rewrite length_drop; lia).
    rewrite u32_small by lia. split; [exact Ec|]. by rewrite <- app_assoc, take_drop in Hbuf.
  - destruct Hor as [?|Ht]; [lia|].
    destruct (copy_tail _ _ _ _ _ Ht Hp ltac:(lia)) as (buf' & Ec & Hbuf). rewrite <- Hak in Hbuf.
    do 5 eexists. split; [reflexivity|]. replace (poff p + zlen bs - poff p) with (zlen bs) by lia.
    rewrite u32_small by lia. by split.
Qed.

Lemma buffered3_append bs ak buf size p len :
  buffered3 bs ak buf size -> readable p len -> size + len <= 256 ->
  copy buf size p len = Some (splice buf size (bytes_at p len)) /\
  buffered3 (bs ++ bytes_at p len) ak (splice buf size (bytes_at p len)) (size + len).
Proof.
  intros (Hb & Hbo & n & pre & rest & -> & Hn & Hrl & Hak & -> & Hsl & Hend) Hr Hfit.
  pose proof (zlen_bytes_at _ _ Hr) as Hz. pose proof (zlen_nonneg rest). assert (0 <= len) by apply Hr.
  split; [by rewrite copy_readable by (done || lia)|].
  split; [rewrite zlen_splice; lia|]. split; [apply splice_ok; [done|by apply readable_bytes]|].
  exists n, pre, (rest ++ bytes_at p len). rewrite app_assoc, zlen_app, Hz. repeat split; try done.
  - pose proof (slice_splice_prefix buf (zlen rest) (bytes_at p len)) as E. rewrite Hz, Hsl in E. apply E; lia.
  - destruct Hend as [?|(Hp & Hr0 & Hend)]; [by left|right]. split; [done|]. split; [lia|]. intros Hlt.
    rewrite slice_splice_after by lia.
    replace (192 + (zlen rest + len)) with (192 + zlen rest + len) by lia.
    replace (64 - (zlen rest + len)) with (64 - zlen rest - len) by lia.
    replace (zlen pre - 64 + (zlen rest + len)) with (zlen pre - 64 + zlen rest + len) by lia.
    rewrite <- (drop_slice buf _ len), <- (drop_slice pre _ len) by lia. by rewrite Hend by lia.
Qed.

(** A buffer that is not empty is filled and consumed. *)
Lemma buffered3_fill bs a k buf size p secret :
  buffered3 bs (a, k) buf size -> readable p (256 - size) -> holds secret sec -> size <= 256 ->
  let buf1 := splice buf size (bytes_at p (256 - size)) in
  exists n pre, bs ++ bytes_at p (256 - size) = pre /\ copy buf size p (256 - size) = Some buf1 /\
    XXH3_consumeStripes a k (Z.of_nat (B sec)) (Ptr buf1 64 0) XXH3_INTERNALBUFFER_STRIPES secret (lim sec)
      XXH3_accumulate_512 XXH3_scrambleAcc = Some (consumed n pre) /\
    tail_ready n pre buf1.
Proof.
  intros (Hb & Hbo & n & pre & rest & -> & Hn & Hrl & Hak & -> & Hsl & Hend) Hr Hs Hle buf1.
  pose proof (zlen_bytes_at _ _ Hr) as Hz. pose proof (zlen_nonneg rest). pose proof (B_bounds sec Hsz) as [HB _].
  assert (Hb1 : zlen buf1 = 256) by (unfold buf1; rewrite zlen_splice; lia).
  assert (Hbo1 : bytes_ok buf1) by (apply splice_ok; [done|by apply readable_bytes]).
  assert (Hfull : buf1 = rest ++ bytes_at p (256 - zlen rest)).
  { rewrite <- (slice_full buf1), Hb1. pose proof (slice_splice_prefix buf (zlen rest) (bytes_at p (256 - zlen rest))) as E.
    rewrite Hz, Hsl in E. replace 256 with (zlen rest + (256 - zlen rest)) at 1 by lia. apply E; lia. }
  exists (n + 4)%nat, (pre ++ buf1). split; [by rewrite <- app_assoc, <- Hfull|].
  split; [by rewrite copy_readable by (done || lia)|]. split.
  - injection Hak as -> ->. change XXH3_INTERNALBUFFER_STRIPES with (Z.of_nat 4).
    rewrite (XXH3_consumeStripes_spec _ _ _ buf1 4 secret); [|apply absorb_good, init_good| |lia|by apply own_holds|lia|done].
    + by rewrite consumed_app by done.
    + rewrite absorb_index by lia. apply Nat.mod_upper_bound. lia.
  - unfold tail_ready. rewrite zlen_app, Hb1. repeat split; try lia; [done|].
    unfold slice. rewrite drop_app_ge by (unfold zlen in *; lia). do 2 f_equal. unfold zlen in *. lia.
Qed.

Lemma XXH3_update_rep bs st input len :
  rep3 bs st -> valid_part (input, len) -> zlen bs + len < 2 ^ 63 ->
  exists st', XXH3_update st input len XXH3_accumulate_512 XXH3_scrambleAcc = Some (XXH_OK, st') /\
    rep3 (bs ++ bytes_at input len) st'.
Proof.
  intros [Ht Hlm Hbl Hsec Hdata] [Hr Hnull] Hlen. simpl in Hr, Hnull. unfold XXH3_update. rewrite Hnull.
  assert (Hl0 : 0 <= len) by apply Hr. pose proof (zlen_nonneg bs). pose proof (zlen_bytes_at _ _ Hr) as Hz.
  assert (Hsz256 : 0 <= bufferedSize st <= 256).
  { destruct Hdata as (_ & _ & n & pre & rest & _ & _ & ? & _ & -> & _). pose proof (zlen_nonneg rest). lia. }
  rewrite (u64_small (bufferedSize st + len)) by lia. change XXH3_INTERNALBUFFER_SIZE with 256.
  assert (Htot : u64 (totalLen st + len) = zlen (bs ++ bytes_at input len)) by (rewrite zlen_app, Hz, u64_small; lia).
  destruct (Z.leb_spec (bufferedSize st + len) 256) as [Hfit|Hover].
  { destruct (buffered3_append _ _ _ _ _ _ Hdata Hr Hfit) as [-> Hd]. cbn [mbind option_bind].
    eexists. split; [reflexivity|]. split; simpl; try done. by rewrite (u32_small len), u32_small by lia. }
  rewrite Hbl, Hlm.
  destruct (Z.eqb_spec (bufferedSize st) 0) as [E0|E0]; cbn [negb].
  - destruct Hdata as (Hb & Hbo & n & pre & rest & Hbs & Hn & Hrl & Hak & Hsize & Hsl & Hend).
    assert (rest = []) as -> by (destruct rest; [done|unfold zlen in *; simpl in *; lia]).
    destruct Hend as [->|(_ & ? & _)]; [|done]. subst bs. cbn [mbind option_bind].
    destruct (update_tail n [] _ _ (buffer st) input (bytes_at input len) (secretPtr st) (Z.to_nat len) (poff (padd input len)) Hak)
      as (a & k & buf1 & p' & buf' & E & Ec & Hd); try done.
    { unfold holds. by rewrite Hz. }
    { lia. }
    { by rewrite Hz. }
    { unfold zlen in Hz. lia. }
    { left. lia. }
    rewrite E. cbn [mbind option_bind]. rewrite Ec. cbn [mbind option_bind].
    eexists. split; [reflexivity|]. by split.
  - set (n1 := 256 - bufferedSize st).
    assert (Hr1 : readable input n1) by (rewrite <- (padd_0 input); apply (readable_sub _ _ _ _ Hr); lia).
    destruct (buffered3_fill _ _ _ _ _ input (secretPtr st) Hdata Hr1 Hsec) as (n & pre & Epre & Ecp & Econs & Htail); [lia|].
    fold n1 in Ecp, Econs, Htail, Epre. rewrite Ecp. cbn [mbind option_bind]. rewrite Econs. cbn [mbind option_bind].
    destruct (holds_read input (bytes_at input len) n1 (len - n1)) as [Hr2 Eb2]; [by unfold holds; rewrite Hz|lia..|].
    destruct (consumed n pre) as [a0 k0] eqn:Ec0.
    destruct (update_tail n pre a0 k0 (splice (buffer st) (bufferedSize st) (bytes_at input n1)) (padd input n1) (bytes_at (padd input n1) (len - n1)) (secretPtr st)
      (Z.to_nat len) (poff (padd input len)) (eq_sym Ec0)) as (a & k & buf1 & p' & buf' & E & Ec & Hd);
      [apply Htail..|unfold holds; by rewrite zlen_bytes_at|done|rewrite zlen_bytes_at by done; lia
      |rewrite zlen_bytes_at by done; simpl; lia|rewrite bytes_at_length by done; lia|by right|].
    cbn [mbind option_bind]. rewrite E. cbn [mbind option_bind]. rewrite Ec. cbn [mbind option_bind].
    eexists. split; [reflexivity|]. split; simpl; try done.
    rewrite <- Epre, <- app_assoc, <- bytes_at_split in Hd by (replace (n1 + (len - n1)) with len by lia; done || lia).
    by replace (n1 + (len - n1)) with len in Hd by lia.
Qed.

Lemma XXH3_reset_rep st sd secret :
  zlen (buffer st) = 256 -> bytes_ok (buffer st) ->
  holds (secretPtr (XXH3_64bits_reset_internal st sd secret (zlen sec))) sec ->
  rep3 [] (XXH3_64bits_reset_internal st sd secret (zlen sec)).
Proof.
  intros Hb Hbo Hs. split; simpl; try done.
  - unfold XXH_STRIPE_LEN, lim. rewrite u64_small; lia.
  - unfold XXH_STRIPE_LEN, XXH_SECRET_CONSUME_RATE, B, lim. rewrite u64_small; mlia.
  - split; [done|]. split; [done|]. exists 0%nat, [], []. repeat split; try done. by left.
Qed.

(** *** The digest *)

(** The two copies into lastStripe. *)
Lemma last_stripe p q x rest :
  holds p x -> holds q rest -> zlen x + zlen rest = 64 ->
  exists last, copy (replicate 64 0) 0 p (zlen x) = Some last /\
    copy last (zlen x) q (zlen rest) = Some (x ++ rest).
Proof.
  intros [Hp Ep] [Hq Eq] Hl. pose proof (zlen_nonneg x). pose proof (zlen_nonneg rest).
  assert (H64 : zlen (replicate 64 0) = 64) by done.
  exists (splice (replicate 64 0) 0 x). assert (Hz : zlen (splice (replicate 64 0) 0 x) = 64) by (rewrite zlen_splice; lia).
  split; [by rewrite copy_readable, Ep by (done || lia)|]. rewrite copy_readable, Eq by (done || lia). f_equal.
  rewrite <- (slice_full (splice _ (zlen x) rest)). rewrite zlen_splice, Hz, <- Hl by lia.
  rewrite slice_splice_prefix by lia. f_equal. apply (slice_splice_same (replicate 64 0) 0 x); lia.
Qed.

(** The accumulators of a long input. *)
Lemma XXH3_digest_long_rep bs st :
  rep3 bs st -> 240 < zlen bs -> XXH3_digest_long st (secretPtr st) = Some (long_acc sec bs).
Proof.
  intros [Ht Hlm Hbl Hsec (Hb & Hbo & n & pre & rest & -> & Hn & Hrl & Hak & Hsize & Hsl & Hend)] Hl.
  pose proof (B_bounds sec Hsz) as [HB HBl]. pose proof (zlen_nonneg rest). rewrite zlen_app in Hl.
  injection Hak as Ha Hk. assert (Hkb : ((absorb sec n 0 XXH3_INIT_ACC pre).2 < B sec)%nat).
  { rewrite absorb_index by lia. apply Nat.mod_upper_bound. lia. }
  assert (Hga : good_acc (absorb sec n 0 XXH3_INIT_ACC pre).1) by apply absorb_good, init_good.
  unfold XXH3_digest_long, long_acc, XXH_STRIPE_LEN, XXH_SECRET_LASTACC_START.
  rewrite Hbl, Hlm, Hsize, Ha, Hk, zlen_app. rewrite Hsize in Hsl.
  destruct (Z.leb_spec 64 (zlen rest)) as [H64|H64].
  - set (m := Z.to_nat ((zlen rest - 1) / 64)). assert (Hm : (zlen rest - 1) / 64 = Z.of_nat m) by (unfold m; mlia).
    replace (Z.to_nat ((zlen pre + zlen rest - 1) / 64)) with (n + m)%nat by (unfold m; mlia). clearbody m.
    assert (Hbuf : holds (bufferPtr st) rest).
    { pose proof (holds_slice (bufferPtr st) (buffer st) 0 (zlen rest) ltac:(by apply own_holds)) as Hh.
      rewrite Hsl, padd_0 in Hh. apply Hh; lia. }
    rewrite Hm, (XXH3_consumeStripes_spec _ _ _ rest m (secretPtr st)) by (done || mlia). cbn [mbind option_bind].
    rewrite (kernel_at sec _ _ rest) by (by apply absorb_good || done || (unfold lim; lia)).
    pose proof (consumed_app n m pre rest Hn) as E. unfold consumed in E. injection E as E _. rewrite E.
    by rewrite <- (slice_app_r pre rest), Z.add_sub_assoc by lia.
  - destruct Hend as [->|(Hp & Hr0 & Hend)]; [unfold zlen in *; simpl in *; lia|].
    replace (Z.to_nat ((zlen pre + zlen rest - 1) / 64)) with n by mlia.
    destruct (holds_read (bufferPtr st) (buffer st) (192 + zlen rest) (64 - zlen rest)) as [Hrd Hat];
      [by apply own_holds|lia..|]. rewrite Hend in Hat by done.
    destruct (holds_read (bufferPtr st) (buffer st) 0 (zlen rest)) as [Hrd' Hat']; [by apply own_holds|lia..|].
    rewrite padd_0, Hsl in Hat'. rewrite padd_0 in Hrd'.
    replace (zlen (buffer st) - (64 - zlen rest)) with (192 + zlen rest) by lia.
    set (x := slice pre (zlen pre - 64 + zlen rest) (64 - zlen rest)) in *.
    assert (Hx : zlen x = 64 - zlen rest) by (unfold x; rewrite zlen_slice; lia).
    destruct (last_stripe (padd (bufferPtr st) (192 + zlen rest)) (bufferPtr st) x rest) as (last & E1 & E2);
      [by unfold holds; rewrite Hx|by split|lia|]. rewrite Hx in E1, E2. rewrite E1. cbn [mbind option_bind].
    rewrite E2. cbn [mbind option_bind].
    rewrite <- (padd_0 (Ptr (x ++ rest) 64 0)).
    assert (Hxo : holds (Ptr (x ++ rest) 64 0) (x ++ rest)).
    { apply own_holds, Forall_app_2; [rewrite <- Hat|rewrite <- Hat']; by apply readable_bytes. }
    rewrite (kernel_at sec _ _ (x ++ rest)) by (done || (rewrite ?zlen_app; unfold lim; lia)).
    rewrite <- (absorb_app sec n 0 _ pre rest) by (unfold zlen in Hn; lia). do 2 f_equal.
    replace 64 with (zlen (x ++ rest)) at 1 by (rewrite zlen_app; lia). rewrite slice_full.
    replace 64 with (64 - zlen rest + zlen rest) at 2 by lia. rewrite slice_split by lia. unfold x. f_equal.
    + rewrite slice_app_l by lia. f_equal. lia.
    + replace (_ + _) with (zlen pre + 0) by lia. rewrite slice_app_r by lia. by rewrite slice_full.
Qed.

Lemma digest_long_rep bs st :
  rep3 bs st -> 240 < zlen bs < 2 ^ 63 ->
  XXH3_64bits_digest st = Some (long64 sec bs) /\ XXH3_128bits_digest st = Some (long128 sec bs).
Proof.
  intros Hrep Hl. pose proof (XXH3_digest_long_rep bs st Hrep ltac:(lia)) as E. destruct Hrep as [Ht Hlm _ Hs _].
  unfold XXH3_64bits_digest, XXH3_128bits_digest, XXH3_MIDSIZE_MAX. rewrite Ht, (proj2 (Z.ltb_lt _ _)), E by lia.
  cbn [mbind option_bind]. unfold XXH_SECRET_MERGEACCS_START, XXH_STRIPE_LEN. rewrite Hlm.
  rewrite !(XXH3_mergeAccs_spec sec Hok) by (apply long_acc_good || done || (unfold lim; lia)). cbn [mbind option_bind].
  unfold long128, long64, lim. split; [done|]. do 3 f_equal. lia.
Qed.

Lemma digest_short_rep bs st :
  rep3 bs st -> zlen bs <= 240 ->
  holds (bufferPtr st) bs /\
  XXH3_64bits_digest st = (if seed st =? 0
    then XXH3_64bits_withSecret (bufferPtr st) (zlen bs) (secretPtr st) (zlen sec)
    else XXH3_64bits_withSeed (bufferPtr st) (zlen bs) (seed st)) /\
  XXH3_128bits_digest st = (if seed st =? 0
    then XXH3_128bits_withSecret (bufferPtr st) (zlen bs) (secretPtr st) (zlen sec)
    else XXH3_128bits_withSeed (bufferPtr st) (zlen bs) (seed st)).
Proof.
  intros [Ht Hlm _ Hs (Hb & Hbo & n & pre & rest & -> & Hn & Hrl & Hak & Hsize & Hsl & Hend)] Hl.
  pose proof (zlen_nonneg rest). destruct Hend as [->|(? & _)]; [|rewrite zlen_app in *; lia]. simpl app in *. split.
  - pose proof (holds_slice (bufferPtr st) (buffer st) 0 (zlen rest) ltac:(by apply own_holds)) as Hh.
    rewrite <- Hsize, Hsl, padd_0 in Hh. apply Hh; lia.
  - unfold XXH3_64bits_digest, XXH3_128bits_digest, XXH3_MIDSIZE_MAX. rewrite Ht, (proj2 (Z.ltb_ge _ _)), Hlm by lia.
    unfold lim, XXH_STRIPE_LEN. rewrite Z.sub_add. by destruct (seed st =? 0).
Qed.

End Rep.

(** With a secret, the digests are those of one call. *)
Lemma digest_withSecret (b b' : Build) sec bs st input secret :
  bytes_ok sec -> 136 <= zlen sec < 2 ^ 60 -> rep3 sec bs st -> seed st = 0 -> zlen bs < 2 ^ 63 -> holds input bs -> holds secret sec ->
  @XXH3_64bits_digest b' st = @XXH3_64bits_withSecret b input (zlen bs) secret (zlen sec) /\
  @XXH3_128bits_digest b' st = @XXH3_128bits_withSecret b input (zlen bs) secret (zlen sec).
Proof.
  intros Hok Hsz Hrep Hsd Hl Hi Hs. destruct (Z_lt_le_dec 240 (zlen bs)) as [Hlong|Hshort].
  - destruct (digest_long_rep sec Hok Hsz bs st Hrep) as [-> ->]; [lia|]. by destruct (withSecret_long bs sec Hok Hsz ltac:(lia) b input secret Hi Hs Hlong).
  - destruct (digest_short_rep sec bs st Hrep Hshort) as (Hbuf & -> & ->). rewrite Hsd. simpl.
    destruct (withSecret64_uniform bs sec (holds_ok _ _ Hi) Hok Hsz Hl) as (h & _ & E).
    destruct (withSecret128_uniform bs sec (holds_ok _ _ Hi) Hok Hsz Hl) as (h' & _ & E').
    pose proof (r3_secret _ _ _ Hrep). by rewrite !E, !E' by done.
Qed.

(** With a seed too. *)
Lemma digest_withSeed (b b' : Build) bs st sd input :
  u64_val sd -> @seed_defined b sd -> sd <> 0 -> rep3 (custom_secret sd) bs st -> seed st = sd -> zlen bs < 2 ^ 63 -> holds input bs ->
  @XXH3_64bits_digest b' st = @XXH3_64bits_withSeed b input (zlen bs) sd /\
  @XXH3_128bits_digest b' st = @XXH3_128bits_withSeed b input (zlen bs) sd.
Proof.
  intros Hu Hdef H0 Hrep Hsd Hl Hi. pose proof (custom_secret_ok sd) as [Hc Hz].
  destruct (Z_lt_le_dec 240 (zlen bs)) as [Hlong|Hshort].
  - destruct (digest_long_rep (custom_secret sd) Hc ltac:(lia) bs st Hrep) as [-> ->]; [lia|].
    destruct (withSeed_long bs sd Hl b input Hi Hlong Hdef) as [-> ->]. unfold seed_secret.
    by destruct (Z.eqb_spec sd 0).
  - destruct (digest_short_rep (custom_secret sd) bs st Hrep Hshort) as (Hbuf & -> & ->). rewrite Hsd.
    destruct (Z.eqb_spec sd 0); [done|].
    destruct (withSeed_uniform bs sd (holds_ok _ _ Hi) Hl Hu) as (h & h' & _ & _ & E).
    destruct (E b input Hi) as [-> ->]; [done|].
    by destruct (E b' (bufferPtr st) Hbuf) as [-> ->]; [lia|].
Qed.

(** ** A stream is hashed like its whole *)

(** The ways to start, and the same hash in one call. *)
Inductive mode := Default | Seed (sd : Z) | Secret (secret : ptr) (secretSize : Z).

Definition start64 `{Build} (m : mode) (st : XXH3_state) : option (XXH_errorcode * option XXH3_state) :=
  match m with
  | Default => Some (XXH3_64bits_reset (Some st))
  | Seed sd => XXH3_64bits_reset_withSeed (Some st) sd
  | Secret secret n => Some (XXH3_64bits_reset_withSecret (Some st) secret n)
  end.
Definition start128 `{Build} (m : mode) (st : XXH3_state) : option (XXH_errorcode * option XXH3_state) :=
  match m with
  | Default => Some (XXH3_128bits_reset (Some st))
  | Seed sd => XXH3_128bits_reset_withSeed (Some st) sd
  | Secret secret n => Some (XXH3_128bits_reset_withSecret (Some st) secret n)
  end.
Definition hash64 `{Build} (m : mode) (input : ptr) (len : Z) : option Z :=
  match m with
  | Default => XXH3_64bits input len
  | Seed sd => XXH3_64bits_withSeed input len sd
  | Secret secret n => XXH3_64bits_withSecret input len secret n
  end.
Definition hash128 `{Build} (m : mode) (input : ptr) (len : Z) : option XXH128_hash_t :=
  match m with
  | Default => XXH3_128bits input len
  | Seed sd => XXH3_128bits_withSeed input len sd
  | Secret secret n => XXH3_128bits_withSecret input len secret n
  end.

(** Reset, one update per part, digest: the hash and the state left behind. *)
Definition stream {R} (start : XXH3_state -> option (XXH_errorcode * option XXH3_state))
    (update : XXH3_state -> ptr -> Z -> option (XXH_errorcode * XXH3_state)) (digest : XXH3_state -> option R)
    (st : XXH3_state) (parts : list (ptr * Z)) : option (R * XXH3_state) :=
  match start st with
  | Some (XXH_OK, Some st) => st ← feed update st parts; h ← digest st; Some (h, st)
  | _ => None
  end.

Definition mode_ok (m : mode) : Prop :=
  match m with
  | Default => True
  | Seed sd => u64_val sd
  | Secret secret n => readable secret n /\ is_null secret = false /\ XXH3_SECRET_SIZE_MIN <= n < 2 ^ 60
  end.

(** The build makes the secret of the seed without a signed overflow. *)
Definition mode_defined (b : Build) (m : mode) : Prop :=
  match m with Seed sd => @seed_defined b sd | _ => True end.

(** A state of XXH3_createState, or one that has been used: when it remembers a
    seed, its secret is the one made from that seed. *)
Definition state_ok (st : XXH3_state) : Prop :=
  zlen (buffer st) = 256 /\ bytes_ok (buffer st) /\ zlen (customSecret st) = 192 /\
  (seed st <> 0 -> customSecret st = custom_secret (seed st)).

Definition mode_seed (m : mode) : Z := match m with Seed sd => sd | _ => 0 end.
Definition mode_secret (m : mode) : list byte :=
  match m with
  | Default => XXH3_kSecret
  | Seed sd => seed_secret sd
  | Secret secret n => bytes_at secret n
  end.

Lemma mode_secret_ok m : mode_ok m -> bytes_ok (mode_secret m) /\ 136 <= zlen (mode_secret m) < 2 ^ 60.
Proof.
  destruct m as [|sd|p n]; simpl.
  - intros _. split; [apply kSecret_ok|done].
  - intros _. pose proof (seed_secret_ok sd) as [? ->]. by split.
  - intros (Hr & _ & Hn). split; [by apply readable_bytes|]. by rewrite zlen_bytes_at.
Qed.

(** The state a reset gives. *)
Definition started (m : mode) (st : XXH3_state) : Prop :=
  rep3 (mode_secret m) [] st /\ seed st = mode_seed m /\ state_ok st.

Lemma start_ok (b : Build) m st : state_ok st -> mode_ok m -> mode_defined b m ->
  exists st', start64 m st = Some (XXH_OK, Some st') /\ start128 m st = Some (XXH_OK, Some st') /\ started m st'.
Proof.
  intros (Hb & Hbo & Hc & Hsd) Hm Hmd. pose proof (mode_secret_ok m Hm) as [Hok Hsz].
  assert (Hdef : started Default (XXH3_64bits_reset_internal st 0 kSecretPtr XXH_SECRET_DEFAULT_SIZE)).
  { split; [|by repeat split]. by apply (XXH3_reset_rep XXH3_kSecret); try apply kSecret_holds. }
  destruct m as [|sd|p n]; simpl in *.
  - by eexists.
  - unfold XXH3_64bits_reset_withSeed, XXH3_128bits_reset_withSeed, started, mode_secret, mode_seed, seed_secret in *.
    destruct (Z.eqb_spec sd 0) as [->|Hnz]; [by eexists|].
    assert (Hcs : exists st1, (if negb (sd =? seed st)
        then cs ← XXH3_initCustomSecret (customSecret st) sd; Some (set_customSecret st cs) else Some st) = Some st1 /\
      buffer st1 = buffer st /\ customSecret st1 = custom_secret sd).
    { destruct (Z.eqb_spec sd (seed st)) as [->|]; simpl; [eexists; split; [done|split; [done|by apply Hsd]]|].
      rewrite XXH3_initCustomSecret_ok by done. simpl. by eexists. }
    destruct Hcs as (st1 & -> & Hb1 & Hc1). cbn [mbind option_bind]. eexists. split; [reflexivity|]. split; [reflexivity|].
    pose proof (custom_secret_ok sd) as [Hco Hcz]. split; [|split; [done|]].
    + pose proof (XXH3_reset_rep (custom_secret sd) Hsz st1 sd NULL) as HR. rewrite Hcz, Hb1 in HR. apply HR; [done..|].
      unfold secretPtr. simpl. rewrite Hc1. by apply own_holds.
    + split; simpl; [by rewrite Hb1|]. rewrite Hb1, Hc1. by repeat split.
  - destruct Hm as (Hr & Hnull & Hn). unfold XXH3_64bits_reset_withSecret, XXH3_128bits_reset_withSecret.
    rewrite Hnull. rewrite (proj2 (Z.ltb_ge _ _)) by lia.
    eexists. split; [reflexivity|]. split; [reflexivity|]. split; [|by repeat split].
    pose proof (XXH3_reset_rep (bytes_at p n) Hsz st 0 p) as HR. rewrite zlen_bytes_at in HR by done. apply HR; [done..|].
    unfold secretPtr. simpl. rewrite Hnull. unfold holds. by rewrite zlen_bytes_at.
Qed.

Lemma XXH3_update_keeps `{Build} st p n r st' f g :
  XXH3_update st p n f g = Some (r, st') -> seed st' = seed st /\ customSecret st' = customSecret st.
Proof.
  unfold XXH3_update. intros E. repeat (case_match; simplify_option_eq; try done).
Qed.

(** What every part keeps. *)
Definition fed (m : mode) (bs : list byte) (st : XXH3_state) : Prop :=
  rep3 (mode_secret m) bs st /\ seed st = mode_seed m /\ state_ok st.

Lemma feed_ok `{Build} m st parts :
  mode_ok m -> started m st -> Forall valid_part parts -> zlen (parts_data parts) < 2 ^ 63 ->
  exists st', feed XXH3_64bits_update st parts = Some st' /\ fed m (parts_data parts) st'.
Proof.
  intros Hm Hst Hv Hl. pose proof (mode_secret_ok m Hm) as [Hok Hsz].
  apply (feed_spec XXH3_64bits_update (fed m)) with (bs := @nil byte); [|done..].
  intros bs s p n (Hrep & Hsd & Hs) Hp Hn. unfold XXH3_64bits_update.
  destruct (XXH3_update_rep _ Hsz bs s p n Hrep Hp Hn) as (s' & E & Hrep').
  destruct (XXH3_update_keeps _ _ _ _ _ _ _ E) as [Es Ec]. exists s'. split; [done|]. split; [done|].
  split; [by rewrite Es|]. destruct Hs as (_ & _ & Hc & Hcs). rewrite <- Es, <- Ec in *.
  destruct Hrep' as [_ _ _ _ (Hb & Hbo & _)]. by repeat split.
Qed.

(** One call, as a function of the bytes of the secret. *)
Lemma hash_secret (b : Build) m input len : mode_ok m -> mode_seed m = 0 ->
  exists secret, holds secret (mode_secret m) /\
    hash64 m input len = XXH3_64bits_withSecret input len secret (zlen (mode_secret m)) /\
    hash128 m input len = XXH3_128bits_withSecret input len secret (zlen (mode_secret m)).
Proof.
  destruct m as [|sd|p n]; simpl; intros Hm Hs.
  - exists kSecretPtr. split; [apply kSecret_holds|]. by split.
  - subst sd. exists kSecretPtr. split; [apply kSecret_holds|]. by split.
  - destruct Hm as (Hr & _). exists p. unfold holds. by rewrite zlen_bytes_at.
Qed.

Lemma digest_ok (b b' : Build) m bs st input :
  mode_ok m -> mode_defined b m -> fed m bs st -> zlen bs < 2 ^ 63 -> holds input bs ->
  exists h h', u64_val h /\ u128_val h' /\
    @hash64 b m input (zlen bs) = Some h /\ @XXH3_64bits_digest b' st = Some h /\
    @hash128 b m input (zlen bs) = Some h' /\ @XXH3_128bits_digest b' st = Some h'.
Proof.
  intros Hm Hdef (Hrep & Hsd & _) Hl Hi. pose proof (mode_secret_ok m Hm) as [Hok Hsz]. pose proof (holds_ok _ _ Hi) as Hbs.
  destruct (decide (mode_seed m = 0)) as [H0|H0].
  - destruct (hash_secret b m input (zlen bs) Hm H0) as (s & Hs & -> & ->). rewrite H0 in Hsd.
    destruct (digest_withSecret b b' _ bs st input s Hok Hsz Hrep Hsd Hl Hi Hs) as [-> ->].
    destruct (withSecret64_uniform bs _ Hbs Hok Hsz Hl) as (h & Hh & E).
    destruct (withSecret128_uniform bs _ Hbs Hok Hsz Hl) as (h' & Hh' & E').
    exists h, h'. rewrite !E, !E' by done. split; [done|]. split; [done|]. by repeat split.
  - destruct m as [|sd|]; try done. simpl in *. unfold seed_secret in *. rewrite (proj2 (Z.eqb_neq _ _) H0) in *.
    destruct (digest_withSeed b b' bs st sd input) as [-> ->]; try done.
    destruct (withSeed_uniform bs sd Hbs Hl Hm) as (h & h' & Hh & Hh' & E).
    exists h, h'. destruct (E b input Hi) as [-> ->]; [done|]. split; [done|]. split; [done|]. by repeat split.
Qed.

(** C11: However an input is cut into parts, a state that is reset (for
    the default secret, a seed, or a secret of the caller of at least 136 bytes),
    updated with each part and digested gives the 64 and the 128-bit hash that one
    call gives for the whole input, and reads only its inputs.  The state may have
    been used before, with another seed or secret, and is fit for the next use.
    The build options of the two sides may differ: the vector unit, the byte order
    and the width of the multiplier do not change the hash.  Two conditions: on SSE2,
    AVX2 and AVX512 builds the seed is not 2^63, whose negation overflows there; and
    XXH_ASSERT is off (XXH_DEBUGLEVEL is 0, the default), since one assertion of the
    64-bit hash wrongly excludes inputs of 8 bytes ([len_8_assert]). *)
Theorem XXH3_streaming (b1 b2 : Build) (m : mode) (st : XXH3_state) (parts : list (ptr * Z)) (input : ptr)
    (Hst : state_ok st) (Hm : mode_ok m) (Hb1 : mode_defined b1 m) (Hb2 : mode_defined b2 m)
    (Hparts : Forall valid_part parts) (Hin : whole input parts) :
  exists h h' st', u64_val h /\ u128_val h' /\ state_ok st' /\
    @hash64 b1 m input (zlen (parts_data parts)) = Some h /\
    stream (@start64 b2 m) (@XXH3_64bits_update b2) (@XXH3_64bits_digest b2) st parts = Some (h, st') /\
    @hash128 b1 m input (zlen (parts_data parts)) = Some h' /\
    stream (@start128 b2 m) (@XXH3_128bits_update b2) (@XXH3_128bits_digest b2) st parts = Some (h', st').
Proof.
  destruct Hin as ([Hr _] & Hb & Hl). unfold stream. destruct (start_ok b2 m st Hst Hm Hb2) as (s0 & -> & -> & Hs0).
  destruct (@feed_ok b2 m s0 parts Hm Hs0 Hparts Hl) as (s1 & E & Hs1).
  destruct (digest_ok b1 b2 m (parts_data parts) s1 input Hm Hb1 Hs1 Hl (conj Hr Hb)) as (h & h' & Hh & Hh' & -> & E1 & -> & E2).
  change (@XXH3_128bits_update b2) with (@XXH3_64bits_update b2). rewrite E. cbn [mbind option_bind]. rewrite E1, E2.
  cbn [mbind option_bind]. exists h, h', s1. split; [done|]. split; [done|]. split; [apply Hs1|]. by repeat split.
Qed.

Definition fresh_state : XXH3_state :=
  XXH3_INITSTATE (XXH3_State [] (replicate 192 0) (replicate 256 0) 0 0 0 0 0 77 NULL).
Definition sample_parts : list (ptr * Z) :=
  [(Ptr xxh_sample 4096 0, 100); (Ptr xxh_sample 4096 100, 0); (Ptr xxh_sample 4096 100, 199)].

Lemma XXH3_streaming_witness :
  exists h h' st', u64_val h /\ u128_val h' /\ state_ok st' /\
    @hash64 build_x86_64 (Seed 42) (Ptr xxh_sample 4096 0) 299 = Some h /\
    stream (@start64 build_odd (Seed 42)) (@XXH3_64bits_update build_odd) (@XXH3_64bits_digest build_odd)
      fresh_state sample_parts = Some (h, st') /\
    @hash128 build_x86_64 (Seed 42) (Ptr xxh_sample 4096 0) 299 = Some h' /\
    stream (@start128 build_odd (Seed 42)) (@XXH3_128bits_update build_odd) (@XXH3_128bits_digest build_odd)
      fresh_state sample_parts = Some (h', st').
Proof.
  apply (XXH3_streaming build_x86_64 build_odd (Seed 42) fresh_state sample_parts (Ptr xxh_sample 4096 0)).
  - split; [done|]. split; [by apply bytes_okb|]. split; [done|]. by intros [].
  - done.
  - done.
  - done.
  - repeat (apply Forall_cons; split); try apply sample_part; done.
  - split; [by apply sample_part|done].
Defined.
