(* ===== verification/XxhUtil.v ===== *)
(** * xxHash: 128-bit values, secrets and the memory of states (include/hash/xxhash.h)

    Comparison and canonical form of 128-bit hashes, the secret made from a seed of
    any length, and the functions that allocate and free states.  A heap pointer is
    a block of the heap of Mm.v with an offset into it, so that free of anything but
    the start of a block is an error. *)

From S2P Require Import Prelude Mm Bstring Words Xxh Xxh64 Xxh3Vec Xxh3 Xxh3Stream.
Local Open Scope Z_scope.

Definition XXH_VERSION_NUMBER : Z := 0 * 100 * 100 + 8 * 100 + 0.
Definition XXH_versionNumber : Z := XXH_VERSION_NUMBER.

Section Util.
Context `{Build}.

(** The bytes of a hash in memory: low64, then high64. *)
Definition hash_object (h : XXH128_hash_t) : list byte := object 8 (low64 h) ++ object 8 (high64 h).

Definition XXH128_isEqual (h1 h2 : XXH128_hash_t) : Z :=
  if memcmp (hash_object h1) (hash_object h2) =? 0 then 1 else 0.

Definition XXH128_cmp (h1 h2 : XXH128_hash_t) : Z :=
  let hcmp := Z.b2z (high64 h2 <? high64 h1) - Z.b2z (high64 h1 <? high64 h2) in
  if negb (hcmp =? 0) then hcmp else
  Z.b2z (low64 h2 <? low64 h1) - Z.b2z (low64 h1 <? low64 h2).

Definition XXH128_canonicalFromHash (hash : XXH128_hash_t) : list byte :=
  let hash := if XXH_CPU_LITTLE_ENDIAN
    then XXH128_Hash (XXH_swap64 (low64 hash)) (XXH_swap64 (high64 hash)) else hash in
  object 8 (high64 hash) ++ object 8 (low64 hash).

Definition XXH128_hashFromCanonical (src : ptr) : option XXH128_hash_t :=
  hi ← XXH_readBE64 src;
  lo ← XXH_readBE64 (padd src 8);
  Some (XXH128_Hash lo hi).

(** ** Secrets from a seed of any length *)

Definition XXH_MIN (x y : Z) : Z := if y <? x then y else x.

(** seeds[12], as 96 bytes: customSeed, truncated or repeated.  64 stands for its
    address; it is overwritten as a whole. *)
Definition fill_seeds (customSeed : ptr) (customSeedSize : Z) : option (list byte) :=
  let toFill := XXH_MIN customSeedSize 96 in
  seeds ← copy (replicate 96 0) 0 customSeed toFill;
  '(seeds, _) ← while 96 (fun s => s.2 <? 96) (fun '(seeds, filled) =>
    let toFill := XXH_MIN filled (96 - filled) in
    seeds ← copy seeds filled (Ptr seeds 64 0) toFill;
    Some (seeds, filled + toFill)) (seeds, toFill);
  Some seeds.

Definition XXH3_generateSecret (secretBuffer : list byte) (customSeed : ptr) (customSeedSize : Z)
  : option (list byte) :=
  if customSeedSize =? 0 then copy secretBuffer 0 kSecretPtr XXH_SECRET_DEFAULT_SIZE else
  let segmentSize := 16 in
  let nbSegments := XXH_SECRET_DEFAULT_SIZE / segmentSize in
  h ← XXH128 customSeed customSeedSize 0;
  let scrambler := XXH128_canonicalFromHash h in
  seeds ← fill_seeds customSeed customSeedSize;
  secretBuffer ← memwrite secretBuffer 0 scrambler;
  for_loop (Z.to_nat (nbSegments - 1)) 1 (fun segnb secretBuffer =>
    let segmentStart := segnb * segmentSize in
    s ← XXH_readLE64 (Ptr seeds 64 (8 * segnb));
    h ← XXH128 (Ptr scrambler 64 0) (zlen scrambler) (u64 (s + segnb));
    memwrite secretBuffer segmentStart (XXH128_canonicalFromHash h)) secretBuffer.

End Util.

(** ** Memory *)

Definition hptr : Type := Z * Z.
Definition hnull : hptr := (0, 0).

Definition XXH_malloc (h : heap) (r : option (Z * list byte)) : hptr * heap :=
  let '(p, h) := malloc h r in ((p, 0), h).
Definition XXH_free (h : heap) (p : hptr) : option heap := if p.2 =? 0 then free h p.1 else None.

(** [r] is what malloc(s + align) returns. *)
Definition XXH_alignedMalloc (h : heap) (align : Z) (r : option (Z * list byte)) : option (hptr * heap) :=
  let '(base, h) := XXH_malloc h r in
  if negb (base.1 =? 0) then
    let offset := align - Z.land base.1 (align - 1) in
    block ← h !! base.1;
    block ← memwrite block (base.2 + offset - 1) [u8 offset];
    Some ((base.1, base.2 + offset), <[base.1 := block]> h)
  else Some (hnull, h).

Definition XXH_alignedFree (h : heap) (p : hptr) : option heap :=
  if negb (p.1 =? 0) then
    block ← h !! p.1;
    b ← memread block (p.2 - 1) 1;
    XXH_free h (p.1, p.2 - le b)
  else Some h.

(** sizeof(XXH3_state_t) and offsetof(XXH3_state_t, seed) on a 64-bit machine. *)
Definition sizeof_XXH3_state : Z := 576.
Definition offsetof_seed : Z := 552.

Definition XXH3_createState (h : heap) (r : option (Z * list byte)) : option (hptr * heap) :=
  '(state, h) ← XXH_alignedMalloc h 64 r;
  if state.1 =? 0 then Some (hnull, h) else
  block ← h !! state.1;
  block ← memwrite block (state.2 + offsetof_seed) (replicate 8 0);
  Some (state, <[state.1 := block]> h).

Definition XXH3_freeState (h : heap) (statePtr : hptr) : option (XXH_errorcode * heap) :=
  h ← XXH_alignedFree h statePtr; Some (XXH_OK, h).

(** malloc(sizeof(XXH32_state_t)) and malloc(sizeof(XXH64_state_t)) *)
Definition XXH32_createState (h : heap) (r : option (Z * list byte)) : hptr * heap := XXH_malloc h r.
Definition XXH32_freeState (h : heap) (statePtr : hptr) : option (XXH_errorcode * heap) :=
  h ← XXH_free h statePtr; Some (XXH_OK, h).
Definition XXH64_createState (h : heap) (r : option (Z * list byte)) : hptr * heap := XXH_malloc h r.
Definition XXH64_freeState (h : heap) (statePtr : hptr) : option (XXH_errorcode * heap) :=
  h ← XXH_free h statePtr; Some (XXH_OK, h).

(** ** Order and canonical form *)

Lemma memcmp_be (a b : list byte) : bytes_ok a -> bytes_ok b -> length a = length b ->
  Z.sgn (memcmp a b) = Z.sgn (le (rev a) - le (rev b)).
Proof.
  intros Ha. revert b. induction Ha as [|x a Hx Ha IH]; intros b Hb Hl; destruct b as [|y b]; try done.
  apply Forall_cons in Hb as [Hy Hb]. injection Hl as Hl. simpl memcmp. simpl rev. rewrite !le_app.
  pose proof (le_range (rev a) ltac:(by apply Forall_rev)) as Hra. pose proof (le_range (rev b) ltac:(by apply Forall_rev)) as Hrb.
  assert (Hzl : zlen (rev b) = zlen (rev a)) by (unfold zlen; rewrite !length_rev; lia). rewrite Hzl in *.
  set (P := 2 ^ (8 * zlen (rev a))) in *. simpl le.
  destruct (Z.eqb_spec x y) as [->|Hne].
  - rewrite IH by done. f_equal. lia.
  - destruct (Z_lt_le_dec x y).
    + rewrite !Z.sgn_neg; nia.
    + rewrite !Z.sgn_pos; nia.
Qed.

Section Canonical.
Context `{Build}.

Lemma canonical128_bytes h : u128_val h ->
  XXH128_canonicalFromHash h = rev (le_split 8 (high64 h)) ++ rev (le_split 8 (low64 h)).
Proof.
  intros [Hlo Hhi]. rewrite <- !XXH64_canonical_bytes by done.
  unfold XXH128_canonicalFromHash, XXH64_canonicalFromHash. by destruct XXH_CPU_LITTLE_ENDIAN.
Qed.

Definition value128 (h : XXH128_hash_t) : Z := high64 h * 2 ^ 64 + low64 h.

Lemma canonical128_ok h : u128_val h ->
  bytes_ok (XXH128_canonicalFromHash h) /\ length (XXH128_canonicalFromHash h) = 16%nat /\
  le (rev (XXH128_canonicalFromHash h)) = value128 h.
Proof.
  intros Hh. rewrite canonical128_bytes by done. split; [|split].
  - apply Forall_app_2; apply Forall_rev, le_split_ok.
  - by rewrite length_app, !length_rev, !length_le_split.
  - destruct Hh as [Hlo Hhi]. rewrite rev_app_distr, !rev_involutive, le_app. unfold zlen. rewrite length_le_split.
    rewrite !le_split_small by done. unfold value128. lia.
Qed.

Lemma canonical128_read c h : u128_val h -> c = rev (le_split 8 (high64 h)) ++ rev (le_split 8 (low64 h)) ->
  XXH128_hashFromCanonical (Ptr c 8 0) = Some h.
Proof.
  intros [Hlo Hhi] Hc. assert (Hz : zlen c = 16) by (rewrite Hc; done).
  assert (Hh : holds (Ptr c 8 0) c).
  { apply own_holds. rewrite Hc. apply Forall_app_2; apply Forall_rev, le_split_ok. }
  destruct (holds_read _ _ 0 8 Hh) as [Hr0 E0]; [lia..|]. destruct (holds_read _ _ 8 8 Hh) as [Hr8 E8]; [lia..|].
  rewrite padd_0 in Hr0, E0. unfold XXH128_hashFromCanonical. rewrite !XXH_readBE64_spec by done. cbn [mbind option_bind].
  assert (E0' : slice c 0 8 = rev (le_split 8 (high64 h))) by (rewrite Hc; reflexivity).
  assert (E8' : slice c 8 8 = rev (le_split 8 (low64 h))) by (rewrite Hc; reflexivity).
  rewrite E0, E8, E0', E8', !rev_involutive, !le_split_small by done. by destruct h.
Qed.

Lemma XXH128_cmp_value h1 h2 : u128_val h1 -> u128_val h2 -> XXH128_cmp h1 h2 = Z.sgn (value128 h1 - value128 h2).
Proof.
  intros [Hl1 Hh1] [Hl2 Hh2]. unfold XXH128_cmp, value128.
  destruct (Z.ltb_spec (high64 h2) (high64 h1)), (Z.ltb_spec (high64 h1) (high64 h2)),
    (Z.ltb_spec (low64 h2) (low64 h1)), (Z.ltb_spec (low64 h1) (low64 h2)),
    (Z.sgn_spec (high64 h1 * 2 ^ 64 + low64 h1 - (high64 h2 * 2 ^ 64 + low64 h2))) as [[? ->]|[[? ->]|[? ->]]]; done || nia.
Qed.

Lemma object_inj n x y : 0 <= x < 2 ^ (8 * Z.of_nat n) -> 0 <= y < 2 ^ (8 * Z.of_nat n) -> object n x = object n y -> x = y.
Proof.
  intros Hx Hy E. rewrite <- (le_split_small n x), <- (le_split_small n y) by done. f_equal.
  unfold object in E. destruct XXH_CPU_LITTLE_ENDIAN; [done|]. by rewrite <- (rev_involutive (le_split n x)), E, rev_involutive.
Qed.

Lemma length_object n x : length (object n x) = n.
Proof. unfold object. case_match; by rewrite ?length_rev, length_le_split. Qed.

Lemma XXH128_isEqual_spec h1 h2 : u128_val h1 -> u128_val h2 ->
  (h1 = h2 /\ XXH128_isEqual h1 h2 = 1) \/ (h1 <> h2 /\ XXH128_isEqual h1 h2 = 0).
Proof.
  intros [Hl1 Hh1] [Hl2 Hh2]. unfold XXH128_isEqual.
  pose proof (memcmp_eq (hash_object h1) (hash_object h2)) as Hm.
  destruct (Z.eqb_spec (memcmp (hash_object h1) (hash_object h2)) 0) as [E|E]; [left|right]; split; try done.
  - apply Hm in E; [|by unfold hash_object; rewrite !length_app, !length_object].
    apply app_inj_1 in E as [E1 E2]; [|by rewrite !length_object].
    destruct h1, h2. simpl in *. f_equal; by apply (object_inj 8).
  - intros ->. apply E. by apply Hm.
Qed.

End Canonical.

(** The canonical form of a 128-bit hash is 16 bytes that do not
    depend on the machine, reads back as the hash on any machine, and orders hashes
    as memcmp orders bytes: XXH128_cmp is the sign of memcmp of the canonical forms,
    which is the sign of the difference of the 128-bit numbers.  XXH128_isEqual is 1
    exactly for equal hashes. *)
Theorem XXH128_canonical (b1 b2 : Build) (h1 h2 : XXH128_hash_t) (H1 : u128_val h1) (H2 : u128_val h2) :
  let c1 := @XXH128_canonicalFromHash b1 h1 in
  let c2 := @XXH128_canonicalFromHash b1 h2 in
  zlen c1 = 16 /\ c1 = @XXH128_canonicalFromHash b2 h1 /\
  @XXH128_hashFromCanonical b2 (Ptr c1 8 0) = Some h1 /\
  XXH128_cmp h1 h2 = Z.sgn (memcmp c1 c2) /\
  XXH128_cmp h1 h2 = Z.sgn (value128 h1 - value128 h2) /\
  (@XXH128_isEqual b2 h1 h2 = 1 <-> h1 = h2) /\ (@XXH128_isEqual b2 h1 h2 = 0 <-> h1 <> h2).
Proof.
  destruct (@canonical128_ok b1 h1 H1) as (Hok1 & Hl1 & Hv1). destruct (@canonical128_ok b1 h2 H2) as (Hok2 & Hl2 & Hv2).
  cbv zeta. split; [unfold zlen; by rewrite Hl1|]. split; [by rewrite !canonical128_bytes by done|].
  split; [apply canonical128_read; [done|by apply canonical128_bytes]|].
  rewrite memcmp_be, Hv1, Hv2, XXH128_cmp_value by (done || congruence). split; [done|]. split; [done|].
  destruct (@XXH128_isEqual_spec b2 h1 h2 H1 H2) as [[? ->]|[? ->]]; done.
Qed.

Lemma XXH128_canonical_witness :
  let h1 := XXH128_Hash 12345 (2 ^ 63) in
  let h2 := XXH128_Hash (2 ^ 64 - 1) 7 in
  XXH128_cmp h1 h2 = Z.sgn (memcmp (@XXH128_canonicalFromHash build_x86_64 h1) (@XXH128_canonicalFromHash build_x86_64 h2)).
Proof.
  apply (XXH128_canonical build_x86_64 build_odd (XXH128_Hash 12345 (2 ^ 63)) (XXH128_Hash (2 ^ 64 - 1) 7)); by split.
Defined.

(** ** The secret made from a seed of any length *)

(** [n] bytes, [bs] over and over. *)
Definition cyc (bs : list byte) (n : nat) : list byte :=
  map (fun i => nth (i mod length bs) bs 0) (seq 0 n).

Lemma length_cyc bs n : length (cyc bs n) = n.
Proof. unfold cyc. by rewrite length_map, length_seq. Qed.

Lemma cyc_take bs m n : (m <= n)%nat -> take m (cyc bs n) = cyc bs m.
Proof.
  intros Hm. replace n with (m + (n - m))%nat by lia. unfold cyc.
  rewrite seq_app, map_app, take_app_length'; [done|]. by rewrite length_map, length_seq.
Qed.

Lemma cyc_prefix bs n : (n <= length bs)%nat -> cyc bs n = take n bs.
Proof.
  intros Hn. apply list_eq. intros i. destruct (decide (i < n)%nat) as [Hi|Hi].
  - rewrite lookup_take_lt by done. unfold cyc. rewrite list_lookup_fmap, lookup_seq_lt by done. simpl.
    rewrite Nat.mod_small by lia. destruct (lookup_lt_is_Some_2 bs i) as [x Hx]; [lia|].
    by rewrite Hx, (nth_lookup_Some _ _ _ _ Hx).
  - rewrite !lookup_ge_None_2; [done|rewrite length_take; lia|rewrite length_cyc; lia].
Qed.

Lemma cyc_add bs n m : Nat.divide (length bs) n -> cyc bs (n + m) = cyc bs n ++ cyc bs m.
Proof.
  intros [k ->]. unfold cyc. rewrite seq_app, map_app. f_equal. simpl.
  rewrite <- (Nat.add_0_r (k * length bs)) at 1. generalize 0%nat.
  induction m as [|m IH]; intros j; simpl; [done|]. f_equal; [|by rewrite <- (IH (S j)), Nat.add_succ_r].
  by rewrite Nat.add_comm, Nat.Div0.mod_add.
Qed.

Lemma cyc_ok bs n : bytes_ok bs -> bytes_ok (cyc bs n).
Proof.
  intros Hb. apply Forall_map, Forall_true. intros i. simpl.
  destruct (nth_in_or_default (i mod length bs) bs 0) as [Hin| ->]; [|done].
  rewrite Forall_forall in Hb. by apply Hb, list_elem_of_In.
Qed.

Lemma XXH_MIN_spec x y : XXH_MIN x y = Z.min x y.
Proof. unfold XXH_MIN. destruct (Z.ltb_spec y x); lia. Qed.

Lemma fill_seeds_loop bs : bytes_ok bs -> forall fuel seeds filled,
  zlen seeds = 96 -> bytes_ok seeds -> (0 < filled <= 96)%nat -> slice seeds 0 (Z.of_nat filled) = cyc bs filled ->
  filled = 96%nat \/ Nat.divide (length bs) filled -> (96 - filled <= fuel)%nat ->
  while fuel (fun s : list byte * Z => s.2 <? 96) (fun '(seeds, filled) =>
    let toFill := XXH_MIN filled (96 - filled) in
    seeds ← copy seeds filled (Ptr seeds 64 0) toFill;
    Some (seeds, filled + toFill)) (seeds, Z.of_nat filled) = Some (cyc bs 96, 96).
Proof.
  intros Hbs. induction fuel as [|fuel IH]; intros seeds filled Hz Hok Hf Hsl Hdiv Hfuel; cbn [while].
  - assert (filled = 96%nat) as -> by lia. simpl. do 2 f_equal. rewrite <- Hsl.
    replace (Z.of_nat 96) with (zlen seeds) by lia. by rewrite slice_full.
  - simpl snd. destruct (Z.ltb_spec (Z.of_nat filled) 96) as [Hlt|Hge].
    2: { assert (filled = 96%nat) as -> by lia. do 2 f_equal. rewrite <- Hsl.
      replace (Z.of_nat 96) with (zlen seeds) by lia. by rewrite slice_full. }
    destruct Hdiv as [?|Hdiv]; [lia|]. rewrite XXH_MIN_spec. set (t := Nat.min filled (96 - filled)).
    replace (Z.min (Z.of_nat filled) (96 - Z.of_nat filled)) with (Z.of_nat t) by lia.
    assert (Hr : readable (Ptr seeds 64 0) (Z.of_nat t)) by (repeat split; simpl; try lia; done).
    rewrite copy_readable by (done || lia). cbn [mbind option_bind].
    assert (Hat : bytes_at (Ptr seeds 64 0) (Z.of_nat t) = cyc bs t).
    { unfold bytes_at. simpl. replace (Z.of_nat t) with (Z.min (Z.of_nat t) (Z.of_nat filled)) by lia.
      rewrite <- take_slice, Hsl, Nat2Z.id. apply cyc_take. lia. }
    rewrite Hat. assert (Hzc : zlen (cyc bs t) = Z.of_nat t) by (unfold zlen; by rewrite length_cyc).
    rewrite <- Nat2Z.inj_add. apply IH; [rewrite zlen_splice; lia|apply splice_ok; [done|by apply cyc_ok]|lia| | |lia].
    + pose proof (slice_splice_prefix seeds (Z.of_nat filled) (cyc bs t)) as E. rewrite Hzc, Hsl, <- Nat2Z.inj_add in E.
      rewrite E by lia. by rewrite cyc_add.
    + destruct (decide (filled <= 96 - filled)%nat); [right|left; lia].
      replace t with filled by lia. by apply Nat.divide_add_r.
Qed.

Lemma fill_seeds_spec customSeed bs : holds customSeed bs -> bs ≠ [] ->
  fill_seeds customSeed (zlen bs) = Some (cyc bs 96).
Proof.
  intros Hh Hne. assert (0 < zlen bs) by (destruct bs; [done|unfold zlen; simpl; lia]).
  unfold fill_seeds. rewrite XXH_MIN_spec. set (t := Nat.min (length bs) 96).
  replace (Z.min (zlen bs) 96) with (Z.of_nat t) by (unfold zlen in *; lia).
  destruct (holds_read customSeed bs 0 (Z.of_nat t) Hh) as [Hr Hat]; [unfold zlen in *; lia..|].
  rewrite padd_0 in Hr, Hat. assert (Hz : zlen (replicate 96 0) = 96) by done.
  rewrite copy_readable by (done || lia). cbn [mbind option_bind]. rewrite Hat.
  assert (Hc : slice bs 0 (Z.of_nat t) = cyc bs t).
  { unfold slice. rewrite drop_0, Nat2Z.id. symmetry. apply cyc_prefix. lia. }
  assert (Hzc : zlen (cyc bs t) = Z.of_nat t) by (unfold zlen; by rewrite length_cyc).
  rewrite Hc, (fill_seeds_loop bs); [done|by apply (holds_ok _ _ Hh)|rewrite zlen_splice; lia| | | | |].
  - apply splice_ok; [by apply bytes_okb|by apply cyc_ok, (holds_ok _ _ Hh)].
  - unfold zlen in *. lia.
  - pose proof (slice_splice_prefix (replicate 96 0) 0 (cyc bs t)) as E. rewrite Hzc, slice_zero in E. apply E; lia.
  - destruct (decide (length bs <= 96)%nat); [right|left; lia]. exists 1%nat. lia.
  - lia.
Qed.

(** The 128-bit hash of [bs], wherever it is and whatever the machine. *)
Definition hash_of (bs : list byte) (seed : Z) : XXH128_hash_t :=
  default (XXH128_Hash 0 0) (@XXH128 build_x86_64 (Ptr bs 64 0) (zlen bs) seed).

Lemma XXH128_hash_of bs seed :
  bytes_ok bs -> zlen bs < 2 ^ 63 -> u64_val seed -> seed = 0 \/ zlen bs <= 240 ->
  u128_val (hash_of bs seed) /\
  forall (b : Build) input, holds input bs -> XXH128 input (zlen bs) seed = Some (hash_of bs seed).
Proof.
  intros Hb Hl Hs Hd. assert (Hsd : forall b : Build, 240 < zlen bs -> seed_defined seed)
    by (intros b Hlt; destruct Hd as [-> |]; [unfold seed_defined; by case_match|lia]).
  destruct (withSeed_uniform bs seed Hb Hl Hs) as (h0 & h & _ & Hh & E).
  assert (hash_of bs seed = h) as ->.
  { unfold hash_of, XXH128. by rewrite (proj2 (E build_x86_64 (Ptr bs 64 0) ltac:(by apply own_holds) (Hsd _))). }
  split; [done|]. intros b input Hi. apply (E b input Hi), Hsd.
Qed.

(** Segment [i] of the secret made from [bs]: the first scrambles, the others hash it
    with the words of the repeated seed. *)
Definition canonical_of (h : XXH128_hash_t) : list byte := rev (le_split 8 (high64 h)) ++ rev (le_split 8 (low64 h)).
Definition segment (bs : list byte) (i : nat) : list byte :=
  let scrambler := canonical_of (hash_of bs 0) in
  if (i =? 0)%nat then scrambler
  else canonical_of (hash_of scrambler (u64 (le (slice (cyc bs 96) (8 * Z.of_nat i) 8) + Z.of_nat i))).
Definition generated (bs : list byte) : list byte :=
  if decide (bs = []) then XXH3_kSecret else mjoin (map (segment bs) (seq 0 12)).

Lemma canonical_of_ok h : bytes_ok (canonical_of h) /\ zlen (canonical_of h) = 16.
Proof. split; [apply Forall_app_2; apply Forall_rev, le_split_ok|done]. Qed.

Lemma segment_ok bs i : bytes_ok (segment bs i) /\ zlen (segment bs i) = 16.
Proof. unfold segment. case_match; apply canonical_of_ok. Qed.

Lemma segments_ok bs n : bytes_ok (mjoin (map (segment bs) (seq 0 n))) /\
  zlen (mjoin (map (segment bs) (seq 0 n))) = 16 * Z.of_nat n.
Proof.
  induction n as [|n [IHo IHz]]; [by split; [constructor|]|].
  rewrite seq_S, map_app, join_app. simpl. rewrite app_nil_r, zlen_app, IHz. pose proof (segment_ok bs n) as [Ho ->].
  split; [by apply Forall_app_2|lia].
Qed.

Lemma generated_ok bs : bytes_ok (generated bs) /\ zlen (generated bs) = 192.
Proof. unfold generated. case_decide; [split; [apply kSecret_ok|done]|]. apply (segments_ok bs 12). Qed.

Lemma XXH128_canonical_of `{Build} h : u128_val h -> XXH128_canonicalFromHash h = canonical_of h.
Proof. apply canonical128_bytes. Qed.

(** The loop over the segments, from number [i] on. *)
Lemma segments_loop `{Build} bs buf0 : bytes_ok bs -> zlen bs < 2 ^ 63 -> forall n i buf,
  (1 <= i)%nat -> (i + n = 12)%nat -> zlen buf = 192 ->
  slice buf 0 (16 * Z.of_nat i) = mjoin (map (segment bs) (seq 0 i)) -> buf0 = segment bs 0 ->
  for_loop n (Z.of_nat i) (fun segnb secretBuffer =>
    s ← XXH_readLE64 (Ptr (cyc bs 96) 64 (8 * segnb));
    h ← XXH128 (Ptr buf0 64 0) (zlen buf0) (u64 (s + segnb));
    memwrite secretBuffer (segnb * 16) (XXH128_canonicalFromHash h)) buf =
  Some (mjoin (map (segment bs) (seq 0 12))).
Proof.
  intros Hbs Hl. induction n as [|n IH]; intros i buf Hi Hn Hz Hsl ->; cbn [for_loop].
  - assert (i = 12%nat) as -> by lia. rewrite <- Hsl. f_equal. change (16 * Z.of_nat 12) with 192. by rewrite <- Hz, slice_full.
  - pose proof (own_holds (cyc bs 96) 64 (cyc_ok bs 96 Hbs)) as Hc.
    assert (Hcz : zlen (cyc bs 96) = 96) by (unfold zlen; by rewrite length_cyc).
    change (Ptr (cyc bs 96) 64 (8 * Z.of_nat i)) with (padd (Ptr (cyc bs 96) 64 0) (8 * Z.of_nat i)).
    rewrite (read64_at _ _ _ Hc) by lia. cbn [mbind option_bind].
    pose proof (segment_ok bs 0) as [Ho0 Hz0].
    set (sd := u64 (le (slice (cyc bs 96) (8 * Z.of_nat i) 8) + Z.of_nat i)).
    destruct (XXH128_hash_of (segment bs 0) sd Ho0 ltac:(lia) ltac:(apply u64_range) ltac:(lia)) as [Hu E].
    rewrite E by by apply own_holds. cbn [mbind option_bind]. rewrite XXH128_canonical_of by done.
    assert (Hseg : canonical_of (hash_of (segment bs 0) sd) = segment bs i).
    { unfold segment at 2. destruct (Nat.eqb_spec i 0); [lia|done]. }
    rewrite Hseg. pose proof (segment_ok bs i) as [Hoi Hzi]. rewrite memwrite_some by lia. cbn [mbind option_bind].
    replace (Z.of_nat i + 1) with (Z.of_nat (S i)) by lia. apply IH; [lia|lia|rewrite zlen_splice; lia| |done].
    rewrite seq_S, map_app, join_app, <- Hsl. simpl. rewrite app_nil_r, (Z.mul_comm (Z.of_nat i)).
    pose proof (slice_splice_prefix buf (16 * Z.of_nat i) (segment bs i)) as Es. rewrite Hzi in Es.
    rewrite <- Es by lia. f_equal. lia.
Qed.

(** XXH3_generateSecret fills the 192 bytes of its buffer, whatever
    they were, for a seed of any length: with the default secret for an empty seed,
    else with twelve segments, the canonical 128-bit hash of the seed and eleven
    hashes of that one, seeded with the words of the seed repeated or cut to 96
    bytes.  It reads only the seed, and the secret depends neither on the machine nor
    on where the seed is; it can be used with the withSecret functions. *)
Theorem XXH3_generateSecret_spec (b : Build) (secretBuffer bs : list byte) (customSeed : ptr)
    (Hbuf : zlen secretBuffer = 192) (Hseed : holds customSeed bs) (Hl : zlen bs < 2 ^ 63) :
  XXH3_generateSecret secretBuffer customSeed (zlen bs) = Some (generated bs) /\
  mode_ok (Secret (Ptr (generated bs) 64 0) 192).
Proof.
  pose proof (generated_ok bs) as [Hgo Hgz]. split; [|split; [repeat split; simpl; try lia; done|done]].
  pose proof (holds_ok _ _ Hseed) as Hbs. unfold XXH3_generateSecret, generated.
  destruct (decide (bs = [])) as [->|Hne].
  - change (zlen [] =? 0) with true. cbv iota. destruct kSecret_holds as [Hr Hat].
    change (zlen XXH3_kSecret) with 192 in *. unfold XXH_SECRET_DEFAULT_SIZE. rewrite copy_readable by (done || lia). rewrite Hat.
    f_equal. rewrite <- (slice_full (splice _ _ _)). rewrite zlen_splice by (change (zlen XXH3_kSecret) with 192; lia).
    rewrite Hbuf. apply (slice_splice_same secretBuffer 0 XXH3_kSecret); [lia|]. change (zlen XXH3_kSecret) with 192. lia.
  - rewrite (proj2 (Z.eqb_neq _ _)) by (destruct bs; [done|unfold zlen; simpl; lia]).
    destruct (XXH128_hash_of bs 0 Hbs Hl ltac:(done) ltac:(by left)) as [Hu E]. rewrite E by done. cbn [mbind option_bind].
    rewrite fill_seeds_spec by done. cbn [mbind option_bind]. rewrite XXH128_canonical_of by done.
    change (canonical_of (hash_of bs 0)) with (segment bs 0). pose proof (segment_ok bs 0) as [Ho0 Hz0].
    rewrite memwrite_some by lia. cbn [mbind option_bind].
    apply (segments_loop bs (segment bs 0) Hbs Hl 11 1); [lia|done|rewrite zlen_splice; lia| |done].
    change (mjoin (map (segment bs) (seq 0 1))) with (segment bs 0 ++ []). rewrite app_nil_r. pose proof (slice_splice_same secretBuffer 0 (segment bs 0)) as Es. rewrite Hz0 in Es. apply Es; lia.
Qed.

Lemma XXH3_generateSecret_witness :
  @XXH3_generateSecret build_odd (replicate 192 0) (Ptr [1; 2; 3] 4096 0) 3 = Some (generated [1; 2; 3]) /\
  mode_ok (Secret (Ptr (generated [1; 2; 3]) 64 0) 192).
Proof.
  apply (XXH3_generateSecret_spec build_odd (replicate 192 0) [1; 2; 3] (Ptr [1; 2; 3] 4096 0)).
  - reflexivity.
  - apply own_holds. by apply bytes_okb.
  - reflexivity.
Defined.

(** ** The memory of a state *)

Lemma alignedMalloc_ok (h : heap) s k base bytes :
  3 <= k <= 7 -> 0 <= s -> malloc_ok h (s + 2 ^ k) (Some (base, bytes)) ->
  exists off block, XXH_alignedMalloc h (2 ^ k) (Some (base, bytes)) = Some ((base, off), <[base := block]> h) /\
    (base + off) mod 2 ^ k = 0 /\ 1 <= off /\ off + s <= zlen block /\ slice block (off - 1) 1 = [off] /\ off < 256.
Proof.
  intros Hk Hs (Hb0 & Hb & Hl). unfold XXH_alignedMalloc, XXH_malloc, malloc. cbn [fst snd].
  rewrite (proj2 (Z.eqb_neq base 0)) by done. cbn [negb]. rewrite lookup_insert_eq. cbn [mbind option_bind].
  assert (H2k : 8 <= 2 ^ k <= 128).
  { pose proof (Z.pow_le_mono_r 2 3 k ltac:(lia) ltac:(lia)). pose proof (Z.pow_le_mono_r 2 k 7 ltac:(lia) ltac:(lia)). lia. }
  rewrite Z.sub_1_r, <- Z.ones_equiv, Z.land_ones by lia.
  pose proof (Z.mod_pos_bound base (2 ^ k) ltac:(lia)) as Hm. set (off := 2 ^ k - base mod 2 ^ k).
  rewrite Z.add_0_l. rewrite memwrite_some by (unfold zlen in *; simpl length; lia). cbn [mbind option_bind].
  assert (Hu8 : u8 off = off) by (unfold u8; apply Z.mod_small; lia). rewrite Hu8.
  exists off, (splice bytes (off - 1) [off]). rewrite insert_insert_eq. split; [done|].
  rewrite zlen_splice by (unfold zlen in *; simpl length; lia). split; [|split; [lia|split; [lia|split; [|lia]]]].
  - unfold off. rewrite Z.add_sub_assoc. replace (base + 2 ^ k - base mod 2 ^ k) with (2 ^ k * (base / 2 ^ k) + 1 * 2 ^ k).
    + rewrite (Z.mul_comm (2 ^ k)), <- Z.mul_add_distr_r. apply Z.mod_mul. lia.
    + pose proof (Z.div_mod base (2 ^ k)). lia.
  - apply (slice_splice_same bytes (off - 1) [off]); unfold zlen in *; simpl length; lia.
Qed.

Lemma alignedFree_ok (h : heap) base off block :
  h !! base = None -> base <> 0 -> 1 <= off < 256 -> off <= zlen block -> slice block (off - 1) 1 = [off] ->
  XXH_alignedFree (<[base := block]> h) (base, off) = Some h.
Proof.
  intros Hb Hb0 Ho Hl Hsl. unfold XXH_alignedFree, XXH_free, free. cbn [fst snd].
  rewrite !(proj2 (Z.eqb_neq base 0)) by done. cbn [negb]. rewrite lookup_insert_eq. cbn [mbind option_bind].
  rewrite memread_some, Hsl by lia. cbn [mbind option_bind]. cbn [fst snd].
  replace (off - le [off]) with 0 by (cbn [le]; lia). cbn [Z.eqb].
  by rewrite delete_insert_id.
Qed.

(** XXH3_createState gives NULL and leaves the heap alone when malloc
    fails; else a state of 576 bytes inside the new block, aligned to 64 bytes as the
    aligned vector loads need, with its seed 0, whatever address malloc chose.
    Whatever is written to those bytes later, XXH3_freeState finds the start of the
    block again and frees exactly it. *)
Theorem XXH3_state_memory (h : heap) (r : option (Z * list byte)) (Hr : malloc_ok h (sizeof_XXH3_state + 64) r) :
  match r with
  | None => XXH3_createState h r = Some (hnull, h) /\ XXH3_freeState h hnull = Some (XXH_OK, h)
  | Some (base, _) =>
      exists off block, XXH3_createState h r = Some ((base, off), <[base := block]> h) /\
        (base + off) mod 64 = 0 /\ 1 <= off /\ off + sizeof_XXH3_state <= zlen block /\
        slice block (off + offsetof_seed) 8 = replicate 8 0 /\
        forall state', zlen state' = sizeof_XXH3_state ->
          XXH3_freeState (<[base := splice block off state']> h) (base, off) = Some (XXH_OK, h)
  end.
Proof.
  destruct r as [[base bytes]|]; [|done]. unfold sizeof_XXH3_state, offsetof_seed in *.
  destruct (alignedMalloc_ok h 576 6 base bytes ltac:(lia) ltac:(lia) Hr) as (off & block & E & Hal & Ho & Hl & Hsl & Hlt).
  destruct Hr as (Hb0 & Hb & _). change (2 ^ 6) with 64 in *. unfold XXH3_createState. rewrite E. cbn [mbind option_bind fst snd].
  rewrite (proj2 (Z.eqb_neq base 0)), lookup_insert_eq by done. cbn [mbind option_bind].
  assert (Hz8 : zlen (replicate 8 0) = 8) by done. unfold offsetof_seed.
  rewrite memwrite_some by lia. cbn [mbind option_bind]. rewrite insert_insert_eq.
  exists off, (splice block (off + 552) (replicate 8 0)). rewrite zlen_splice by lia.
  split; [done|]. split; [done|]. split; [done|]. split; [lia|].
  split; [pose proof (slice_splice_same block (off + 552) (replicate 8 0)) as Es; rewrite Hz8 in Es; apply Es; lia|].
  intros state' Hst. unfold XXH3_freeState.
  rewrite alignedFree_ok; [done|done|done|lia|rewrite !zlen_splice by (rewrite ?zlen_splice; lia); lia|].
  by rewrite !slice_splice_before by (rewrite ?zlen_splice; lia).
Qed.

Lemma XXH3_state_memory_witness :
  exists off block, XXH3_createState ∅ (Some (4104, replicate 640 7)) = Some ((4104, off), <[4104 := block]> ∅) /\
    (4104 + off) mod 64 = 0 /\ 1 <= off /\ off + 576 <= zlen block /\ slice block (off + 552) 8 = replicate 8 0 /\
    forall state', zlen state' = 576 ->
      XXH3_freeState (<[4104 := splice block off state']> ∅) (4104, off) = Some (XXH_OK, ∅).
Proof. by apply (XXH3_state_memory ∅ (Some (4104, replicate 640 7))). Defined.
