(* ===== verification/Timer.v ===== *)
(** * Durations and timeouts (include/time/cc_timer.h, src/time/cc_timer_linux.c)

    The Linux implementation.  [clk] is what clock_gettime answers at the moment
    of the call, per clock, [None] being its failure.  Signed sums that leave
    the int64_t range are taken modulo 2^64. *)

From Stdlib Require Import SpecFloat.
From S2P Require Import Prelude Double.
Local Open Scope Z_scope.

Definition NSEC_PER_USEC : Z := 1000.
Definition NSEC_PER_MSEC : Z := 1000000.
Definition NSEC_PER_SEC : Z := 1000000000.

Record timespec := Timespec { tv_sec : Z; tv_nsec : Z }.

Inductive duration_type := DURATION_PRECISE | DURATION_FAST.

Inductive clockid_t := CLOCK_MONOTONIC_RAW | CLOCK_MONOTONIC.

Abbreviation clock := (clockid_t -> option timespec).

Definition cid (type : duration_type) : clockid_t :=
  match type with
  | DURATION_PRECISE => CLOCK_MONOTONIC_RAW
  | DURATION_FAST => CLOCK_MONOTONIC
  end.

Definition _gettime (clk : clock) (type : duration_type) : timespec :=
  match clk (cid type) with
  | Some ts => ts
  | None => Timespec 0 0
  end.

(** ** Durations *)

Record duration := Duration {
  d_type : duration_type;
  started : bool;
  stopped : bool;
  d_start : timespec;
  d_stop : timespec;
}.

Definition duration_reset (d : duration) : duration :=
  Duration (d_type d) false false (d_start d) (d_stop d).

Definition duration_start_type (clk : clock) (d : duration) (type : duration_type) : duration :=
  Duration type true (stopped d) (_gettime clk type) (d_stop d).

Definition duration_start (clk : clock) (d : duration) : duration :=
  duration_start_type clk d DURATION_PRECISE.

Definition duration_snapshot (clk : clock) (d : duration) : duration :=
  Duration (d_type d) true true (d_start d) (_gettime clk (d_type d)).

Definition duration_stop (clk : clock) (d : duration) : duration :=
  Duration (d_type d) (started d) true (d_start d) (_gettime clk (d_type d)).

Definition duration_ns (d : duration) : spec_float :=
  let elapsed :=
    dsub (dadd (dmul (dbl (tv_sec (d_stop d) - tv_sec (d_start d))) (dbl NSEC_PER_SEC))
            (dbl (tv_nsec (d_stop d))))
      (dbl (tv_nsec (d_start d))) in
  if dlt elapsed (dbl 0) then DBL_EPSILON else elapsed.

Definition duration_us (d : duration) : spec_float := ddiv (duration_ns d) (dbl NSEC_PER_USEC).
Definition duration_ms (d : duration) : spec_float := ddiv (duration_ns d) (dbl NSEC_PER_MSEC).
Definition duration_sec (d : duration) : spec_float := ddiv (duration_ns d) (dbl NSEC_PER_SEC).

Definition duration_compare (lhs rhs : duration) : Z :=
  let lns := duration_ns lhs in
  let rns := duration_ns rhs in
  if dlt lns rns then -1 else if dlt rns lns then 1 else 0.

(** ** Timeouts *)

Record timeout := Timeout { tp : Z; is_set : bool; is_intvl : bool }.

Definition _now_ns (clk : clock) : Z :=
  let now := _gettime clk DURATION_PRECISE in
  u64 (tv_sec now * NSEC_PER_SEC + tv_nsec now).

Definition timeout_reset : timeout := Timeout 0 false false.

Definition timeout_add_ns (clk : clock) (ns : Z) : timeout :=
  Timeout (i64 (i64 (_now_ns clk) + ns)) true false.
Definition timeout_add_us (clk : clock) (us : Z) : timeout :=
  timeout_add_ns clk (u64 (us * NSEC_PER_USEC)).
Definition timeout_add_ms (clk : clock) (ms : Z) : timeout :=
  timeout_add_ns clk (u64 (ms * NSEC_PER_MSEC)).
Definition timeout_add_sec (clk : clock) (sec : Z) : timeout :=
  timeout_add_ns clk (u64 (sec * NSEC_PER_SEC)).

Definition timeout_set_ns (ns : Z) : timeout := Timeout (i64 ns) true true.
Definition timeout_set_us (us : Z) : timeout := timeout_set_ns (u64 (us * NSEC_PER_USEC)).
Definition timeout_set_ms (ms : Z) : timeout := timeout_set_ns (u64 (ms * NSEC_PER_MSEC)).
Definition timeout_set_sec (sec : Z) : timeout := timeout_set_ns (u64 (sec * NSEC_PER_SEC)).

(** The argument t->tp is an int64_t passed as uint64_t. *)
Definition timeout_add_intvl (clk : clock) (t : timeout) : timeout :=
  timeout_add_ns clk (u64 (tp t)).

Definition timeout_sum_intvl (b t : timeout) : timeout :=
  Timeout (i64 (tp b + tp t)) true (is_intvl b).
Definition timeout_sub_intvl (b t : timeout) : timeout :=
  Timeout (i64 (tp b - tp t)) true (is_intvl b).

Definition timeout_ns (clk : clock) (e : timeout) : Z :=
  if is_intvl e then tp e else i64 (tp e - _now_ns clk).
Definition timeout_us (clk : clock) (e : timeout) : Z := Z.quot (timeout_ns clk e) NSEC_PER_USEC.
Definition timeout_ms (clk : clock) (e : timeout) : Z := Z.quot (timeout_ns clk e) NSEC_PER_MSEC.
Definition timeout_sec (clk : clock) (e : timeout) : Z := Z.quot (timeout_ns clk e) NSEC_PER_SEC.

Definition timeout_timespec (clk : clock) (e : timeout) : timespec :=
  let ns := timeout_ns clk e in
  Timespec (Z.quot ns NSEC_PER_SEC) (Z.rem ns NSEC_PER_SEC).

Definition timeout_expired (clk : clock) (e : timeout) : bool :=
  if is_set e then tp e <=? i64 (_now_ns clk) else false.

(** ** Lemmas *)

(** A clock reading in nanoseconds. *)
Definition ns_of (t : timespec) : Z := tv_sec t * NSEC_PER_SEC + tv_nsec t.

Definition ts_ok (t : timespec) : Prop := 0 <= tv_sec t /\ 0 <= tv_nsec t < NSEC_PER_SEC.

Lemma now_ns_at (clk : clock) t :
  clk CLOCK_MONOTONIC_RAW = Some t -> ts_ok t -> ns_of t <= INT64_MAX -> _now_ns clk = ns_of t.
Proof.
  intros Hc [Hs Hn] Hb. unfold _now_ns, _gettime. simpl. rewrite Hc.
  unfold ns_of, INT64_MAX, NSEC_PER_SEC, u64 in *. apply Z.mod_small. lia.
Qed.

(** Spans below 2^52 ns (52 days) are computed exactly. *)
Lemma duration_ns_exact d :
  ts_ok (d_start d) -> ts_ok (d_stop d) ->
  Z.abs (ns_of (d_stop d) - ns_of (d_start d)) < 2 ^ 52 ->
  if ns_of (d_stop d) <? ns_of (d_start d) then duration_ns d = DBL_EPSILON
  else is_int (duration_ns d) (ns_of (d_stop d) - ns_of (d_start d)).
Proof.
  intros [Hs0 Hn0] [Hs1 Hn1] Hb. unfold duration_ns, ns_of, NSEC_PER_SEC in *.
  set (s0 := tv_sec (d_start d)) in *. set (s1 := tv_sec (d_stop d)) in *.
  set (n0 := tv_nsec (d_start d)) in *. set (n1 := tv_nsec (d_stop d)) in *.
  assert (E : is_int (dsub (dadd (dmul (dbl (s1 - s0)) (dbl 1000000000)) (dbl n1)) (dbl n0))
    ((s1 - s0) * 1000000000 + n1 - n0)).
  { apply dsub_int; [apply dadd_int; [apply dmul_int|..]|..]; try apply dbl_int; lia. }
  rewrite (dlt_int _ _ _ 0 E) by (by apply dbl_int).
  destruct (Z.ltb_spec ((s1 - s0) * 1000000000 + n1 - n0) 0), (Z.ltb_spec (s1 * 1000000000 + n1) (s0 * 1000000000 + n0));
    try lia; [done|].
  by replace (s1 * 1000000000 + n1 - (s0 * 1000000000 + n0)) with ((s1 - s0) * 1000000000 + n1 - n0) by lia.
Qed.

(** ** Properties *)

(** A duration started and stopped by two readings of the same clock
    less than 2^52 ns apart reads exactly their difference in nanoseconds, or
    DBL_EPSILON when the clock went backwards, and duration_compare orders two
    such durations by length. *)
Theorem duration_exact (clk0 clk1 : clock) (t0 t1 : timespec) (d e : duration) (type : duration_type) :
  clk0 (cid type) = Some t0 -> clk1 (cid type) = Some t1 -> ts_ok t0 -> ts_ok t1 ->
  Z.abs (ns_of t1 - ns_of t0) < 2 ^ 52 ->
  ts_ok (d_start e) -> ts_ok (d_stop e) -> 0 <= ns_of (d_stop e) - ns_of (d_start e) < 2 ^ 52 ->
  let d' := duration_stop clk1 (duration_start_type clk0 d type) in
  (ns_of t1 < ns_of t0 -> duration_ns d' = DBL_EPSILON) /\
  (ns_of t0 <= ns_of t1 ->
    u64_of_double (duration_ns d') = Some (ns_of t1 - ns_of t0) /\
    duration_compare d' e =
      Z.sgn ((ns_of t1 - ns_of t0) - (ns_of (d_stop e) - ns_of (d_start e)))).
Proof.
  intros H0 H1 Ht0 Ht1 Hb He0 He1 Heb d'.
  assert (E : d_start d' = t0 /\ d_stop d' = t1).
  { subst d'. unfold duration_stop, duration_start_type, _gettime. simpl. by rewrite H0, H1. }
  destruct E as [E0 E1]. pose proof (duration_ns_exact d') as X. rewrite E0, E1 in X.
  specialize (X Ht0 Ht1 Hb). split; intros Hord.
  - by rewrite (proj2 (Z.ltb_lt _ _)) in X.
  - rewrite (proj2 (Z.ltb_ge _ _)) in X by done.
    pose proof (duration_ns_exact e He0 He1 ltac:(lia)) as Y.
    rewrite (proj2 (Z.ltb_ge _ _)) in Y by lia.
    split; [apply trunc_int; [done|lia]|]. unfold duration_compare.
    rewrite (dlt_int _ _ _ _ X Y), (dlt_int _ _ _ _ Y X).
    repeat case_zcmp; lia.
Qed.

Definition dur (a b : Z) : duration :=
  Duration DURATION_PRECISE true true (Timespec a 0) (Timespec b 0).

Lemma duration_exact_witness :
  let d := duration_stop (fun _ => Some (Timespec 9 5)) (duration_start_type (fun _ => Some (Timespec 7 999)) (dur 0 0) DURATION_FAST) in
  u64_of_double (duration_ns d) = Some 1999999006 /\ duration_compare d (dur 0 1) = 1.
Proof.
  apply (duration_exact (fun _ => Some (Timespec 7 999)) (fun _ => Some (Timespec 9 5))
    (Timespec 7 999) (Timespec 9 5) (dur 0 0) (dur 0 1) DURATION_FAST);
    unfold ts_ok, ns_of, NSEC_PER_SEC; simpl; lia || done.
Defined.

(** C39: a timeout of [ns] set at time [t0] expires exactly from [t0 + ns]
    on; before that it reads the time left and afterwards the (negative) time
    overdue, in each unit rounded towards zero, and the remaining time converts to
    a normalised timespec. *)
Theorem timeout_lifecycle (clk0 clk1 : clock) (t0 t1 : timespec) (ns : Z) :
  clk0 CLOCK_MONOTONIC_RAW = Some t0 -> clk1 CLOCK_MONOTONIC_RAW = Some t1 ->
  ts_ok t0 -> ts_ok t1 -> 0 <= ns -> ns_of t0 + ns <= INT64_MAX -> ns_of t1 <= INT64_MAX ->
  let e := timeout_add_ns clk0 ns in
  let left := ns_of t0 + ns - ns_of t1 in
  timeout_expired clk1 e = (left <=? 0) /\
  timeout_ns clk1 e = left /\
  timeout_us clk1 e = Z.quot left 1000 /\ timeout_ms clk1 e = Z.quot left 1000000 /\
  timeout_sec clk1 e = Z.quot left 1000000000 /\
  (0 <= left -> ts_ok (timeout_timespec clk1 e) /\ ns_of (timeout_timespec clk1 e) = left) /\
  timeout_expired clk1 timeout_reset = false.
Proof.
  intros H0 H1 Ht0 Ht1 Hns Hb0 Hb1 e left.
  pose proof (now_ns_at clk0 t0 H0 Ht0 ltac:(lia)) as N0. pose proof (now_ns_at clk1 t1 H1 Ht1 Hb1) as N1.
  assert (0 <= ns_of t0 /\ 0 <= ns_of t1) by (unfold ts_ok, ns_of, NSEC_PER_SEC in *; lia).
  assert (Htp : tp e = ns_of t0 + ns).
  { subst e. simpl. rewrite N0. unfold INT64_MAX in *. rewrite (i64_small (ns_of t0)) by lia. by rewrite i64_small by lia. }
  assert (L : timeout_ns clk1 e = left).
  { unfold timeout_ns. rewrite Htp, N1. simpl. unfold INT64_MAX in *. apply i64_small. lia. }
  unfold timeout_us, timeout_ms, timeout_sec, timeout_timespec. rewrite L. split_and!; try done.
  - unfold timeout_expired. rewrite Htp, N1. simpl. unfold INT64_MAX in *. rewrite i64_small by lia.
    repeat case_zcmp; lia || done.
  - intros Hl. unfold ts_ok, ns_of, NSEC_PER_SEC. simpl.
    pose proof (Z.quot_rem' left 1000000000). pose proof (Z.rem_bound_pos left 1000000000 Hl ltac:(lia)).
    pose proof (Z.quot_pos left 1000000000 Hl ltac:(lia)). lia.
Qed.

Lemma timeout_lifecycle_witness :
  let e := timeout_add_ns (fun _ => Some (Timespec 5 0)) 1500000000 in
  timeout_expired (fun _ => Some (Timespec 6 0)) e = false /\
  timeout_ms (fun _ => Some (Timespec 6 0)) e = 500.
Proof.
  destruct (timeout_lifecycle (fun _ => Some (Timespec 5 0)) (fun _ => Some (Timespec 6 0))
    (Timespec 5 0) (Timespec 6 0) 1500000000) as (H1 & _ & _ & H2 & _);
    [done|done|unfold ts_ok, NSEC_PER_SEC; simpl; lia..|by vm_compute|by vm_compute|].
  split; [exact H1|exact H2].
Defined.
