(* ===== verification/TimerDarwin.v ===== *)
(** * Durations and timeouts on OS X (src/time/cc_timer_darwin.c)

    Timestamps are mach time units; [info] is the static mach_timebase_info_data_t,
    read from the system on first use ([tb] is what mach_timebase_info stores), so
    every function that converts returns it.  [now] is what mach_absolute_time
    answers.  Struct timeout is that of [Timer]; struct duration is the OS X one.
    Signed results that leave the int64_t range are taken modulo 2^64, and the
    NSEC_PER constants are unsigned long long, as OS X defines them. *)

From Stdlib Require Import SpecFloat.
From S2P Require Import Prelude Double Timer.
Local Open Scope Z_scope.

Record timebase_info := TimebaseInfo { numer : Z; denom : Z }.

Section Darwin.
Context (tb : timebase_info).
Implicit Types (info : timebase_info) (e b t : timeout) (now : Z).

(** if (info.denom == 0) mach_timebase_info(&info) *)
Definition fetch info : timebase_info := if denom info =? 0 then tb else info.

Definition _n2m info (nano : Z) : timebase_info * Z :=
  let info := fetch info in (info, Z.quot (i64 (nano * denom info)) (numer info)).

Definition _m2n info (mt : Z) : timebase_info * Z :=
  let info := fetch info in (info, Z.quot (i64 (mt * numer info)) (denom info)).

(** ** Durations *)

Record mduration := MDuration {
  m_started : bool;
  m_stopped : bool;
  m_start : Z;
  m_stop : Z;
}.

Definition duration_reset : mduration := MDuration false false 0 0.

Definition duration_snapshot now (d : mduration) : mduration :=
  MDuration true true (m_start d) now.

Definition duration_start now (d : mduration) : mduration :=
  MDuration true (m_stopped d) now (m_stop d).

Definition duration_start_type now (d : mduration) (type : duration_type) : mduration :=
  duration_start now d.

Definition duration_stop now (d : mduration) : mduration :=
  MDuration (m_started d) true (m_start d) now.

Definition duration_ns info (d : mduration) : timebase_info * spec_float :=
  let elapsed := u64 (m_stop d - m_start d) in
  let '(info, ns) := _m2n info (i64 elapsed) in
  (info, dbl ns).

Definition duration_us info (d : mduration) : timebase_info * spec_float :=
  let '(info, ns) := duration_ns info d in (info, ddiv ns (dbl NSEC_PER_USEC)).
Definition duration_ms info (d : mduration) : timebase_info * spec_float :=
  let '(info, ns) := duration_ns info d in (info, ddiv ns (dbl NSEC_PER_MSEC)).
Definition duration_sec info (d : mduration) : timebase_info * spec_float :=
  let '(info, ns) := duration_ns info d in (info, ddiv ns (dbl NSEC_PER_SEC)).

(** ** Timeouts *)

Definition timeout_reset : timeout := Timeout 0 false false.

Definition timeout_add_ns info now (ns : Z) : timebase_info * timeout :=
  let '(info, m) := _n2m info (i64 ns) in
  (info, Timeout (i64 (now + m)) true false).
Definition timeout_add_us info now (us : Z) : timebase_info * timeout :=
  timeout_add_ns info now (u64 (us * NSEC_PER_USEC)).
Definition timeout_add_ms info now (ms : Z) : timebase_info * timeout :=
  timeout_add_ns info now (u64 (ms * NSEC_PER_MSEC)).
Definition timeout_add_sec info now (sec : Z) : timebase_info * timeout :=
  timeout_add_ns info now (u64 (sec * NSEC_PER_SEC)).

Definition timeout_set_ns info (ns : Z) : timebase_info * timeout :=
  let '(info, m) := _n2m info (i64 ns) in (info, Timeout m true true).
Definition timeout_set_us info (us : Z) : timebase_info * timeout :=
  timeout_set_ns info (u64 (us * NSEC_PER_USEC)).
Definition timeout_set_ms info (ms : Z) : timebase_info * timeout :=
  timeout_set_ns info (u64 (ms * NSEC_PER_MSEC)).
Definition timeout_set_sec info (sec : Z) : timebase_info * timeout :=
  timeout_set_ns info (u64 (sec * NSEC_PER_SEC)).

Definition timeout_add_intvl now t : timeout := Timeout (i64 (now + tp t)) true false.

Definition timeout_sum_intvl b t : timeout := Timeout (i64 (tp b + tp t)) true (is_intvl b).
Definition timeout_sub_intvl b t : timeout := Timeout (i64 (tp b - tp t)) true (is_intvl b).

Definition timeout_ns info now e : timebase_info * Z :=
  if is_intvl e then _m2n info (tp e) else _m2n info (i64 (tp e - now)).

Definition timeout_us info now e : timebase_info * Z :=
  let '(info, ns) := timeout_ns info now e in (info, Z.quot ns NSEC_PER_USEC).
Definition timeout_ms info now e : timebase_info * Z :=
  let '(info, ns) := timeout_ns info now e in (info, Z.quot ns NSEC_PER_MSEC).
Definition timeout_sec info now e : timebase_info * Z :=
  let '(info, ns) := timeout_ns info now e in (info, Z.quot ns NSEC_PER_SEC).

(** ns is converted to unsigned for the division. *)
Definition timeout_timespec info now e : timebase_info * timespec :=
  let '(info, ns) := timeout_ns info now e in
  (info, Timespec (u64 ns / NSEC_PER_SEC) (u64 ns mod NSEC_PER_SEC)).

Definition timeout_expired now e : bool :=
  if is_set e then tp e <=? i64 now else false.

(** ** Lemmas *)

(** The timebase in use is a fraction of positive 32-bit numbers. *)
Definition timebase_ok info : Prop :=
  0 < numer (fetch info) <= UINT32_MAX /\ 0 < denom (fetch info) <= UINT32_MAX.

Lemma fetch_idemp info : denom (fetch info) ≠ 0 -> fetch (fetch info) = fetch info.
Proof using Type. intros H. unfold fetch at 1. by destruct (Z.eqb_spec (denom (fetch info)) 0). Qed.

Lemma n2m_spec info nano :
  timebase_ok info -> 0 <= nano -> nano * denom (fetch info) <= INT64_MAX ->
  _n2m info nano = (fetch info, nano * denom (fetch info) / numer (fetch info)).
Proof using Type.
  intros [Hn Hd] H0 Hb. unfold _n2m, INT64_MAX in *. rewrite i64_small by lia.
  by rewrite Z.quot_div_nonneg by lia.
Qed.

Lemma m2n_spec info mt :
  timebase_ok info -> Z.abs mt * numer (fetch info) <= INT64_MAX ->
  _m2n info mt = (fetch info, Z.quot (mt * numer (fetch info)) (denom (fetch info))).
Proof using Type.
  intros [Hn Hd] Hb. unfold _m2n, INT64_MAX in *. rewrite i64_small; [done|]. nia.
Qed.

(** Truncation loses less than one. *)
Lemma quot_near x d : 0 < d -> Z.abs (d * Z.quot x d - x) < d.
Proof using Type.
  intros Hd. pose proof (Z.quot_rem' x d). pose proof (Z.rem_bound_abs x d). lia.
Qed.

End Darwin.

(** ** Properties *)

(** A timeout of [ns] nanoseconds set at mach time [t0] is due at the
    mach time [ns] rounds down to, so at time [t1] it has expired if [ns] have
    passed, and only if all but less than one mach unit of them have; what it reads
    differs from the nanoseconds left by less than a unit of each clock, and with a
    timebase of 1/1 it is exact, and converts to a normalised timespec.  The
    timebase is read once. *)
Theorem timeout_lifecycle_darwin (tb info : timebase_info) (t0 t1 ns : Z) :
  let n := numer (fetch tb info) in
  let d := denom (fetch tb info) in
  timebase_ok tb info -> 0 <= ns -> 0 <= t0 -> 0 <= t1 <= INT64_MAX ->
  ns * d <= INT64_MAX -> t0 + ns * d / n <= INT64_MAX ->
  Z.abs (t0 + ns * d / n - t1) * n <= INT64_MAX ->
  let '(info', e) := timeout_add_ns tb info t0 ns in
  let left := (ns * d - (t1 - t0) * n) in
  let '(info'', r) := timeout_ns tb info' t1 e in
  info' = fetch tb info /\ info'' = info' /\
  (left <= 0 -> timeout_expired t1 e = true) /\
  (timeout_expired t1 e = true -> left < n) /\
  Z.abs (d * r - left) < n + d /\
  timeout_us tb info' t1 e = (info', Z.quot r 1000) /\
  (n = 1 -> d = 1 -> r = t0 + ns - t1 /\
    (0 <= r -> ns_of (timeout_timespec tb info' t1 e).2 = r /\
      ts_ok (timeout_timespec tb info' t1 e).2)) /\
  timeout_expired t1 timeout_reset = false.
Proof.
  intros n d Hok Hns H0 H1 Hnd Ht Hl. pose proof Hok as [Hn Hd]. fold n d in Hn, Hd.
  assert (Hi : denom (fetch tb info) ≠ 0) by (fold d; lia).
  assert (Hns' : 0 <= ns <= INT64_MAX) by nia.
  unfold timeout_add_ns. rewrite i64_small by (unfold INT64_MAX in *; lia).
  rewrite n2m_spec by done. fold n d. set (m := ns * d / n) in *.
  assert (Hm : 0 <= m) by (apply Z.div_pos; lia).
  rewrite i64_small by (unfold INT64_MAX in *; lia).
  assert (Hm' : n * m <= ns * d < n * m + n) by (unfold m; mlia).
  assert (Hok' : timebase_ok tb (fetch tb info)) by (unfold timebase_ok; by rewrite fetch_idemp).
  set (e := Timeout (t0 + m) true false).
  assert (Hr : timeout_ns tb (fetch tb info) t1 e = (fetch tb info, Z.quot ((t0 + m - t1) * n) d)).
  { unfold timeout_ns. simpl. rewrite i64_small by (unfold INT64_MAX in *; nia).
    rewrite m2n_spec; rewrite ?fetch_idemp by done; done. }
  cbv zeta. unfold timeout_us, timeout_timespec. rewrite Hr.
  pose proof (quot_near ((t0 + m - t1) * n) d ltac:(lia)) as Hq.
  set (r := Z.quot ((t0 + m - t1) * n) d) in *.
  assert (Hx : timeout_expired t1 e = (t0 + m <=? t1)).
  { unfold timeout_expired. simpl. by rewrite i64_small by (unfold INT64_MAX in *; lia). }
  rewrite Hx. split_and!; try done.
  - intros Hle. apply Z.leb_le. nia.
  - intros Hle%Z.leb_le. nia.
  - replace (d * r - (ns * d - (t1 - t0) * n)) with ((d * r - (t0 + m - t1) * n) + (n * m - ns * d)) by ring. lia.
  - intros En Ed. assert (Er : r = t0 + ns - t1).
    { unfold r, m. rewrite En, Ed, Z.div_1_r, Z.quot_1_r. lia. }
    split; [done|]. intros Hr0. simpl. unfold ns_of, ts_ok, NSEC_PER_SEC. simpl.
    rewrite u64_small by (unfold INT64_MAX in *; lia). mlia.
Qed.

Lemma timeout_lifecycle_darwin_witness :
  let tb := TimebaseInfo 125 3 in
  let '(info, e) := timeout_add_ns tb (TimebaseInfo 0 0) 1000 1000000 in
  info = tb /\ tp e = 25000 /\ timeout_expired 24999 e = false.
Proof.
  pose proof (timeout_lifecycle_darwin (TimebaseInfo 125 3) (TimebaseInfo 0 0) 1000 24999 1000000) as H.
  cbv zeta in H. assert (Hok : timebase_ok (TimebaseInfo 125 3) (TimebaseInfo 0 0)).
  { vm_compute. repeat split; congruence. }
  specialize (H Hok). cbn -[Z.mul Z.quot Z.add Z.sub] in *.
  destruct H as (H & _); [lia|lia|vm_compute; split; congruence|vm_compute; congruence..|].
  split; [exact H|]. by vm_compute.
Defined.

(** A duration reads the mach units between start and stop, converted
    to nanoseconds and rounded down, exactly as a double below 2^53 ns, whatever the
    duration held before; a snapshot reads the same without stopping it. *)
Theorem duration_exact_darwin (tb info : timebase_info) (t0 t1 : Z) (d : mduration)
    (type : duration_type) :
  let n := numer (fetch tb info) in
  let q := denom (fetch tb info) in
  timebase_ok tb info -> 0 <= t0 <= t1 -> t1 <= UINT64_MAX -> (t1 - t0) * n <= INT64_MAX ->
  (t1 - t0) * n / q < 2 ^ 53 ->
  let d' := duration_stop t1 (duration_start_type t0 d type) in
  u64_of_double (duration_ns tb info d').2 = Some ((t1 - t0) * n / q) /\
  duration_snapshot t1 (duration_start t0 d) = d' /\
  (duration_ns tb info d').1 = fetch tb info.
Proof.
  intros n q Hok H0 H1 Hb Hf d'. pose proof Hok as [Hn Hq]. fold n q in Hn, Hq.
  assert (E : duration_ns tb info d' = (fetch tb info, dbl ((t1 - t0) * n / q))).
  { assert (Hs : t1 - t0 <= INT64_MAX) by nia.
    unfold duration_ns. change (m_stop d' - m_start d') with (t1 - t0). unfold INT64_MAX in Hs.
    rewrite u64_small, i64_small by lia.
    rewrite m2n_spec; [|done|fold n; rewrite Z.abs_eq by lia; done]. fold n q.
    by rewrite Z.quot_div_nonneg by nia. }
  rewrite E. split_and!; try done.
  apply trunc_int; [|apply Z.div_pos; nia]. apply dbl_int.
  rewrite Z.abs_eq by (apply Z.div_pos; nia). done.
Qed.

Lemma duration_exact_darwin_witness :
  u64_of_double (duration_ns (TimebaseInfo 125 3) (TimebaseInfo 0 0)
    (duration_stop 2000 (duration_start_type 1000 duration_reset DURATION_FAST))).2 = Some 41666.
Proof.
  destruct (duration_exact_darwin (TimebaseInfo 125 3) (TimebaseInfo 0 0) 1000 2000 duration_reset
    DURATION_FAST) as (H & _); [|lia|vm_compute; congruence|vm_compute; congruence|reflexivity|exact H].
  vm_compute. repeat split; congruence.
Defined.
