(* ===== verification/Wheel.v ===== *)
(** * The timing wheel (include/time/cc_wheel.h, src/time/cc_wheel.c)

    One wheel, with the module's pool of timeout events.  An event has two
    links: [next], by which the pool chains it (the queue memory of [teventp]),
    and [tqe], by which the wheel chains it ([tq]); table[i] is the TAILQ whose
    head is [slot_head i].  [clocks n] is what the clock answers to the n-th
    reading, [callback f d] the effect of calling the user's function [f] on [d];
    [calls] records the calls made, in order.  [None] is undefined behaviour or a
    loop that [fuel] iterations do not end. *)

From stdpp Require Import functions.
From S2P Require Import Prelude Double Metric Queue Tailq Pool Timer.
Local Open Scope Z_scope.

Record timeout_event := Tevent {
  ev_cb : option Z;
  ev_data : Z;
  ev_recur : bool;
  ev_delay : timeout;
  ev_offset : Z;
  ev_free : bool;
}.

(** The allocated events, the answers of the allocator still to come, and the
    metrics. *)
Record tw_world := TwWorld {
  events : gmap positive timeout_event;
  ev_answers : list (option positive);
  timing_wheel_metrics : metrics_st;
}.

Definition on_metrics (f : metrics_st -> metrics_st) (w : tw_world) : tw_world :=
  TwWorld (events w) (ev_answers w) (f (timing_wheel_metrics w)).

Definition upd_event (w : tw_world) (p : positive) (f : timeout_event -> timeout_event) : tw_world :=
  TwWorld (alter f p (events w)) (ev_answers w) (timing_wheel_metrics w).

Definition timeout_event_reset : timeout_event := Tevent None 0 false timeout_reset 0 false.

Definition timeout_event_create (m : qmem) (w : tw_world)
  : option positive * (qmem * tw_world) :=
  match ev_answers w with
  | [] => (None, (m, w))
  | a :: rest =>
      let w := TwWorld (events w) rest (timing_wheel_metrics w) in
      match a with
      | Some p =>
          if decide (events w !! p = None) then
            (Some p, (m, on_metrics (fun ms => INCR ms "timeout_event_curr")
               (TwWorld (<[p := timeout_event_reset]> (events w)) rest (timing_wheel_metrics w))))
          else (None, (m, w))
      | None => (None, (m, w))
      end
  end.

Definition timeout_event_destroy (p : positive) (w : tw_world) : tw_world :=
  on_metrics (fun ms => DECR ms "timeout_event_curr")
    (TwWorld (delete p (events w)) (ev_answers w) (timing_wheel_metrics w)).

#[export] Instance tevent_pool_client : PoolClient qmem tw_world := {
  pc_create := timeout_event_create;
  pc_destroy p m w := (m, timeout_event_destroy p w);
}.

Record wheel_module := WheelModule {
  teventp : pstate qmem tw_world;
  teventp_init : bool;
  timing_wheel_init : bool;
}.

Definition on_world (f : tw_world -> tw_world) (s : wheel_module) : wheel_module :=
  WheelModule (PState (mem (teventp s)) (ctl (teventp s)) (f (world (teventp s))))
    (teventp_init s) (timing_wheel_init s).

Definition timeout_event_borrow (s : wheel_module) : option (option positive * wheel_module) :=
  '(r, p) ← FREEPOOL_BORROW (teventp s);
  let s := WheelModule p (teventp_init s) (timing_wheel_init s) in
  match r with
  | None => Some (None, on_world (on_metrics (fun ms => INCR ms "timeout_event_borrow_ex")) s)
  | Some t =>
      Some (Some t, on_world (fun w =>
        on_metrics (fun ms => INCR (INCR ms "timeout_event_borrow") "timeout_event_active")
          (upd_event w t (fun _ => timeout_event_reset))) s)
  end.

(** [t] is the pointer *t; a returned pointer is cleared. *)
Definition timeout_event_return (t : option positive) (s : wheel_module)
  : option (option positive * wheel_module) :=
  match t with
  | None => Some (None, s)
  | Some p =>
      e ← events (world (teventp s)) !! p;
      if ev_free e then Some (Some p, s) else
      let s := on_world (fun w => upd_event w p (fun e =>
        Tevent (ev_cb e) (ev_data e) (ev_recur e) (ev_delay e) (ev_offset e) true)) s in
      let s := WheelModule (FREEPOOL_RETURN (teventp s) p) (teventp_init s) (timing_wheel_init s) in
      Some (None, on_world (on_metrics (fun ms =>
        DECR (INCR ms "timeout_event_return") "timeout_event_active")) s)
  end.

Definition timeout_event_pool_create (fuel : nat) (max : Z) (s : wheel_module)
  : option (outcome wheel_module) :=
  if teventp_init s then Some (Returns s) else
  p ← FREEPOOL_PREALLOC fuel (FREEPOOL_CREATE (teventp s) max) max;
  Some (if nfree (ctl p) <? max then Exits
        else Returns (WheelModule p true (timing_wheel_init s))).

Definition timeout_event_pool_destroy (fuel : nat) (s : wheel_module) : option wheel_module :=
  if teventp_init s then
    p ← FREEPOOL_DESTROY fuel (teventp s); Some (WheelModule p false (timing_wheel_init s))
  else Some s.

Definition timing_wheel_setup (fuel : nat) (metrics : metrics_st) (s : wheel_module)
  : option (outcome wheel_module) :=
  r ← timeout_event_pool_create fuel 0 (on_world (on_metrics (fun _ => metrics)) s);
  Some (match r with
        | Returns s => Returns (WheelModule (teventp s) (teventp_init s) true)
        | Exits => Exits
        end).

Definition timing_wheel_teardown (fuel : nat) (s : wheel_module) : option wheel_module :=
  s ← timeout_event_pool_destroy fuel s;
  let s := on_world (on_metrics (fun _ => None)) s in
  Some (WheelModule (teventp s) (teventp_init s) false).

(** ** The wheel *)

Record timing_wheel := TimingWheel {
  tick : timeout;
  cap : Z;
  max_ntick : Z;
  tick_ns : Z;
  active : bool;
  due : timeout;
  curr : Z;
  nevent : Z;
  nprocess : Z;
  nexec : Z;
  ntick : Z;
}.

Definition slot_head (i : Z) : positive := Pos.of_succ_nat (Z.to_nat i).

Record wstate := WState {
  wmod : wheel_module;
  tq : qmem;
  wheel : timing_wheel;
  reads : nat;
  calls : list (Z * Z);
}.

Abbreviation evs s := (events (world (teventp (wmod s)))).

Definition set_mod (s : wstate) (m : wheel_module) : wstate :=
  WState m (tq s) (wheel s) (reads s) (calls s).
Definition set_tq (s : wstate) (q : qmem) : wstate :=
  WState (wmod s) q (wheel s) (reads s) (calls s).
Definition on_wheel (f : timing_wheel -> timing_wheel) (s : wstate) : wstate :=
  WState (wmod s) (tq s) (f (wheel s)) (reads s) (calls s).
Definition count (field : string) (s : wstate) : wstate :=
  set_mod s (on_world (on_metrics (fun ms => INCR ms field)) (wmod s)).
Definition uncount (field : string) (s : wstate) : wstate :=
  set_mod s (on_world (on_metrics (fun ms => DECR ms field)) (wmod s)).
Definition set_event (s : wstate) (p : positive) (f : timeout_event -> timeout_event) : wstate :=
  set_mod s (on_world (fun w => upd_event w p f) (wmod s)).

Definition with_due (d : timeout) (w : timing_wheel) : timing_wheel :=
  TimingWheel (tick w) (cap w) (max_ntick w) (tick_ns w) (active w) d (curr w) (nevent w)
    (nprocess w) (nexec w) (ntick w).
Definition with_nevent (n : Z) (w : timing_wheel) : timing_wheel :=
  TimingWheel (tick w) (cap w) (max_ntick w) (tick_ns w) (active w) (due w) (curr w) n
    (nprocess w) (nexec w) (ntick w).
Definition with_nprocess (n : Z) (w : timing_wheel) : timing_wheel :=
  TimingWheel (tick w) (cap w) (max_ntick w) (tick_ns w) (active w) (due w) (curr w) (nevent w)
    n (nexec w) (ntick w).

Section Ops.
Variable clocks : nat -> clock.
Variable callback : Z -> Z -> wstate -> option wstate.

Definition now (s : wstate) : clock * wstate :=
  (clocks (reads s), WState (wmod s) (tq s) (wheel s) (S (reads s)) (calls s)).

Fixpoint init_table (n : nat) (q : qmem) : qmem :=
  match n with
  | O => q
  | S n => TAILQ_INIT (init_table n q) (slot_head (Z.of_nat n))
  end.

(** [tw_ok] and [table_ok]: whether the two allocations succeed.  The clock is
    read by timeout_ns when the tick is not an interval. *)
Definition timing_wheel_create (clk : clock) (q : qmem) (tick : timeout) (cap ntick : Z)
    (tw_ok table_ok : bool) : option (timing_wheel * qmem) :=
  if negb tw_ok then None else
  let tw := TimingWheel tick cap ntick (u64 (timeout_ns clk tick)) false timeout_reset 0 0 0 0 0 in
  if negb table_ok || (cap =? 0) then None else
  Some (tw, init_table (Z.to_nat cap) q).

(** Both allocations are freed and the caller's pointer is cleared; the events
    still in the wheel are not returned. *)
Definition timing_wheel_destroy (tw : option timing_wheel) : option (option timing_wheel) :=
  match tw with
  | None => None
  | Some _ => Some None
  end.

Definition _offset (tw : timing_wheel) (clk : clock) (delay : timeout) : option Z :=
  let delay_ns := u64 (timeout_ns clk delay) in
  if delay_ns =? 0 then Some 0
  else if tick_ns tw =? 0 then None
  else Some (u64 ((delay_ns - 1) / tick_ns tw + 1)).

(** _offset, which reads the clock only for a delay that is not an interval. *)
Definition offset_of (s : wstate) (delay : timeout) : option (Z * wstate) :=
  if is_intvl delay then
    k ← _offset (wheel s) (clocks (reads s)) delay; Some (k, s)
  else
    let '(clk, s) := now s in
    k ← _offset (wheel s) clk delay; Some (k, s).

Definition _timing_wheel_insert (s : wstate) (tev : positive) : option wstate :=
  e ← evs s !! tev;
  if (0 <=? ev_offset e) && (ev_offset e <? cap (wheel s)) then
    let s := set_tq s (TAILQ_INSERT_TAIL (tq s) (slot_head (ev_offset e)) tev) in
    let s := on_wheel (fun w => with_nevent (u64 (nevent w + 1)) w) s in
    Some (count "timing_wheel_event" (count "timing_wheel_insert" s))
  else None.

(** (tw->curr + offset) % tw->cap *)
Definition absolute (tw : timing_wheel) (offset : Z) : option Z :=
  if cap tw =? 0 then None else Some (u64 (curr tw + offset) mod cap tw).

Definition with_offset (o : Z) (e : timeout_event) : timeout_event :=
  Tevent (ev_cb e) (ev_data e) (ev_recur e) (ev_delay e) o (ev_free e).

Definition give_back (s : wstate) (tev : option positive) : option wstate :=
  '(_, m) ← timeout_event_return tev (wmod s); Some (set_mod s m).

Definition timing_wheel_insert (s : wstate) (delay : timeout) (recur : bool) (cb : option Z)
    (arg : Z) : option (option positive * wstate) :=
  '(r, m) ← timeout_event_borrow (wmod s);
  let s := set_mod s m in
  match r with
  | None => s ← give_back s None; Some (None, s)
  | Some tev =>
      let s := set_event s tev (fun e => Tevent cb arg recur delay (ev_offset e) (ev_free e)) in
      '(offset, s) ← offset_of s delay;
      if cap (wheel s) <=? offset then s ← give_back s (Some tev); Some (None, s)
      else if recur && (offset =? 0) then s ← give_back s (Some tev); Some (None, s)
      else
        o ← absolute (wheel s) offset;
        s ← _timing_wheel_insert (set_event s tev (with_offset o)) tev;
        Some (Some tev, s)
  end.

Definition _timing_wheel_remove (s : wstate) (tev : positive) : option wstate :=
  e ← evs s !! tev;
  if (0 <=? ev_offset e) && (ev_offset e <? cap (wheel s)) then
    q ← TAILQ_REMOVE (tq s) (slot_head (ev_offset e)) tev;
    let s := on_wheel (fun w => with_nevent (u64 (nevent w - 1)) w) (set_tq s q) in
    Some (uncount "timing_wheel_event" (count "timing_wheel_remove" s))
  else None.

Definition timing_wheel_remove (s : wstate) (tev : positive) : option wstate :=
  s ← _timing_wheel_remove s tev; give_back s (Some tev).

Definition timing_wheel_start (s : wstate) : wstate :=
  let '(clk, s) := now s in
  on_wheel (fun w => TimingWheel (tick w) (cap w) (max_ntick w) (tick_ns w) true
    (timeout_add_intvl clk (tick w)) (curr w) (nevent w) (nprocess w) (nexec w) (ntick w)) s.

Definition timing_wheel_stop (s : wstate) : wstate :=
  on_wheel (fun w => TimingWheel (tick w) (cap w) (max_ntick w) (tick_ns w) false
    timeout_reset (curr w) (nevent w) (nprocess w) (nexec w) (ntick w)) s.

Definition _advance_curr (s : wstate) : option wstate :=
  c ← absolute (wheel s) 1;
  Some (count "timing_wheel_tick" (on_wheel (fun w =>
    TimingWheel (tick w) (cap w) (max_ntick w) (tick_ns w) (active w) (due w) c (nevent w)
      (nprocess w) (nexec w) (u64 (ntick w + 1))) s)).

(** t->cb(t->data), unless the callback is NULL. *)
Definition fire (s : wstate) (e : timeout_event) : option wstate :=
  match ev_cb e with
  | None => Some s
  | Some f => callback f (ev_data e)
      (WState (wmod s) (tq s) (wheel s) (reads s) (calls s ++ [(f, ev_data e)]))
  end.

(** The body of the loop of _process_tick, for event [t]. *)
Definition process_event (endmode : bool) (s : wstate) (t : positive) : option wstate :=
  let s := count "timing_wheel_process"
    (on_wheel (fun w => with_nprocess (u64 (nprocess w + 1)) w) s) in
  s ← _timing_wheel_remove s t;
  e ← evs s !! t;
  s ← fire s e;
  e ← evs s !! t;
  if negb endmode && ev_recur e then
    '(offset, s) ← offset_of s (ev_delay e);
    o ← absolute (wheel s) offset;
    _timing_wheel_insert (set_event s t (with_offset o)) t
  else give_back s (Some t).

(** TAILQ_FOREACH_SAFE: the successor is read before the body runs. *)
Fixpoint process_loop (fuel : nat) (endmode : bool) (var : option positive) (s : wstate)
  : option wstate :=
  match var with
  | None => Some s
  | Some t =>
      match fuel with
      | O => None
      | S fuel =>
          let tt := TAILQ_NEXT (tq s) t in
          s ← process_event endmode s t;
          process_loop fuel endmode tt s
      end
  end.

Definition _process_tick (fuel : nat) (endmode : bool) (s : wstate) : option wstate :=
  process_loop fuel endmode (TAILQ_FIRST (tq s) (slot_head (curr (wheel s)))) s.

Definition _tick_allowed (tw : timing_wheel) (ntick : Z) : bool :=
  (max_ntick tw =? 0) || (ntick <? max_ntick tw).

(** One iteration of the loop of timing_wheel_execute.  The time spent is
    measured in a double and converted to uint64_t. *)
Definition execute_tick (efuel : nat) (s : wstate) : option wstate :=
  let '(clk0, s) := now s in
  let d := duration_start clk0
    (Duration DURATION_PRECISE false false (Timespec 0 0) (Timespec 0 0)) in
  s ← _process_tick efuel false s;
  s ← _advance_curr s;
  let '(clk1, s) := now s in
  let d := duration_stop clk1 d in
  ns ← u64_of_double (duration_ns d);
  let to := timeout_set_ns ns in
  Some (if tp to <? tp (tick (wheel s)) then
          on_wheel (fun w => with_due
            (timeout_sub_intvl (timeout_sum_intvl (due w) (tick w)) to) w) s
        else s).

Fixpoint execute_loop (fuel efuel : nat) (ntick : Z) (s : wstate) : option wstate :=
  if _tick_allowed (wheel s) ntick then
    let '(expired, s) :=
      if is_set (due (wheel s)) then let '(clk, s) := now s in (timeout_expired clk (due (wheel s)), s)
      else (false, s) in
    if expired then
      match fuel with
      | O => None
      | S fuel => s ← execute_tick efuel s; execute_loop fuel efuel (u64 (ntick + 1)) s
      end
    else Some s
  else Some s.

(** [fuel] bounds the ticks, [efuel] the events of one tick. *)
Definition timing_wheel_execute (fuel efuel : nat) (s : wstate) : option wstate :=
  s ← execute_loop fuel efuel 0 s;
  Some (count "timing_wheel_exec" (on_wheel (fun w =>
    TimingWheel (tick w) (cap w) (max_ntick w) (tick_ns w) (active w) (due w) (curr w) (nevent w)
      (nprocess w) (u64 (nexec w + 1)) (ntick w)) s)).

Fixpoint flush_loop (fuel efuel : nat) (start : Z) (s : wstate) : option wstate :=
  match fuel with
  | O => None
  | S fuel =>
      s ← _process_tick efuel true s;
      s ← _advance_curr s;
      if curr (wheel s) =? start then Some s else flush_loop fuel efuel start s
  end.

Definition timing_wheel_flush (fuel efuel : nat) (s : wstate) : option wstate :=
  flush_loop fuel efuel (curr (wheel s)) s.

End Ops.

(** ** The pool of events *)

#[export] Instance tevent_pool_client_laws : PoolClientLaws qmem tw_world.
Proof.
  unshelve econstructor; [exact (fun w X => dom (events w) = X)|..]; simpl.
  - intros m w r m' w' h l X. unfold timeout_event_create.
    destruct (ev_answers w) as [|[p|] rest]; simpl; try case_decide; by intros [= <- <- <-].
  - intros m w e m' w' X. unfold timeout_event_create.
    destruct (ev_answers w) as [|[p|] rest]; simpl; try case_decide as Hd; try done.
    intros [= <- <- <-] <-. simpl. split; [by apply not_elem_of_dom|]. by rewrite dom_insert_L.
  - intros m w m' w' X. unfold timeout_event_create.
    destruct (ev_answers w) as [|[p|] rest]; simpl; try case_decide; by intros [= <- <-].
  - intros e m w m' w' h l [= <- <-]. done.
  - intros e m w m' w' X [= <- <-] <- _. simpl. by rewrite dom_delete_L.
Defined.

(** ** Slots

    The wheel as a list of lists: [slots !! i] are the events of table[i] in
    insertion order; [held] are borrowed events outside the table. *)

(** The whole ticks of a delay, rounded up. *)
Definition ticks (tw : timing_wheel) (delay : timeout) : Z :=
  if tp delay =? 0 then 0 else (tp delay - 1) / tick_ns tw + 1.

(** What the user gave: the wheel never changes it. *)
Definition info (s : wstate) (p : positive) : option (option Z * Z * bool * timeout) :=
  (fun e => (ev_cb e, ev_data e, ev_recur e, ev_delay e)) <$> evs s !! p.

Record slotted (s : wstate) (i : nat) (p : positive) (e : timeout_event) : Prop := {
  sl_event : evs s !! p = Some e;
  sl_offset : ev_offset e = Z.of_nat i;
  sl_free : ev_free e = false;
  sl_recur : ev_recur e = true -> is_intvl (ev_delay e) = true /\ 0 < tp (ev_delay e) <= INT64_MAX /\
    ticks (wheel s) (ev_delay e) < cap (wheel s);
}.

Record wheel_wf (s : wstate) (slots : list (list positive)) (held : list positive) : Prop := {
  ww_cap : zlen slots = cap (wheel s);
  ww_size : cap (wheel s) <= UINT32_MAX;
  ww_curr : 0 <= curr (wheel s) < cap (wheel s);
  ww_tick : 0 < tick_ns (wheel s);
  ww_queues : forall i l, slots !! i = Some l -> tailq (tq s) (slot_head (Z.of_nat i)) l;
  ww_nodup : NoDup (concat slots ++ held);
  ww_pool : exists free, pool_rel (teventp (wmod s)) free (concat slots ++ held) (dom (evs s));
  ww_events : forall i l p, slots !! i = Some l -> p ∈ l -> exists e, slotted s i p e;
  ww_held : forall p, p ∈ held -> exists e, evs s !! p = Some e /\ ev_free e = false;
  ww_nevent : nevent (wheel s) = zlen (concat slots);
}.

Section Slots.
Implicit Types (slots : list (list positive)) (l : list positive).

Lemma slot_head_inj (i j : nat) :
  slot_head (Z.of_nat i) = slot_head (Z.of_nat j) -> i = j.
Proof. unfold slot_head. rewrite !Nat2Z.id. lia. Qed.

Lemma concat_update slots i l l' :
  slots !! i = Some l -> concat slots ++ l' ≡ₚ concat (<[i := l']> slots) ++ l.
Proof.
  intros Hl. rewrite <- (take_drop_middle slots i l Hl) at 1. apply lookup_lt_Some in Hl as Hlt.
  rewrite insert_take_drop by done. rewrite !concat_app. simpl. solve_Permutation.
Qed.

Lemma concat_elem slots i l p : slots !! i = Some l -> p ∈ l -> p ∈ concat slots.
Proof.
  intros Hl Hp. pose proof (concat_update slots i l [] Hl) as E. rewrite app_nil_r in E.
  rewrite E. set_solver.
Qed.

Lemma concat_disjoint slots i j l k :
  NoDup (concat slots) -> slots !! i = Some l -> slots !! j = Some k -> i ≠ j -> l ## k.
Proof.
  intros Hnd Hi Hj Hne p Hp Hq.
  assert (Hj' : <[i := []]> slots !! j = Some k) by (by rewrite list_lookup_insert_ne).
  pose proof (concat_update slots i l [] Hi) as E. rewrite app_nil_r in E. rewrite E in Hnd.
  apply NoDup_app in Hnd as (_ & Hd & _). apply (Hd p); [|done]. by eapply concat_elem.
Qed.

End Slots.

Section Wf.
Implicit Types (s : wstate) (slots : list (list positive)) (held : list positive) (p : positive).

(** Changes that the invariant does not look at. *)
Lemma wf_same s s' slots held :
  mem (teventp (wmod s')) = mem (teventp (wmod s)) -> ctl (teventp (wmod s')) = ctl (teventp (wmod s)) ->
  evs s' = evs s -> tq s' = tq s ->
  cap (wheel s') = cap (wheel s) -> 0 <= curr (wheel s') < cap (wheel s) ->
  tick_ns (wheel s') = tick_ns (wheel s) -> nevent (wheel s') = nevent (wheel s) ->
  wheel_wf s slots held -> wheel_wf s' slots held.
Proof.
  intros Hm Hc He Hq H1 H2 H3 H4 [W1 W2 W3 W4 W5 W6 (free & W7) W8 W9 W10].
  split; rewrite ?H1, ?H3, ?H4, ?He, ?Hq; try done.
  - exists free. destruct W7 as [? ? ? ? ? ? ? ?]. split; rewrite ?Hm, ?Hc; try done.
    by rewrite <- He.
  - intros i l p Hl Hp. destruct (W8 i l p Hl Hp) as (e & [S1 S2 S3 S4]).
    exists e. split; [by rewrite He|done|done|].
    intros Hr. destruct (S4 Hr) as (? & ? & Ht). split_and!; [done|lia|lia|].
    rewrite H1. unfold ticks in *. by rewrite H3.
Qed.

(** An event outside the table may be rewritten by its holder. *)
Lemma wf_set_event s slots held p f :
  wheel_wf s slots held -> p ∈ held -> (forall e, ev_free (f e) = ev_free e) ->
  wheel_wf (set_event s p f) slots held.
Proof.
  intros [W1 W2 W3 W4 W5 W6 (free & W7) W8 W9 W10] Hp Hf.
  assert (Hd : dom (alter f p (evs s)) = dom (evs s)) by apply dom_alter_L.
  split; simpl; try done.
  - exists free. destruct W7 as [? ? ? ? ? ? ? ?]. split; simpl; rewrite ?Hd; done.
  - intros i l q Hl Hq. destruct (W8 i l q Hl Hq) as (e & [S1 S2 S3 S4]). exists e.
    split; simpl; try done. rewrite lookup_alter_ne; [done|]. intros ->.
    apply NoDup_app in W6 as (_ & Hdj & _). apply (Hdj q); [by eapply concat_elem|done].
  - intros q Hq. destruct (W9 q Hq) as (e & He & Hfr). destruct (decide (q = p)) as [->|].
    + exists (f e). by rewrite lookup_alter_eq, He, Hf.
    + exists e. by rewrite lookup_alter_ne.
Qed.

Lemma wf_perm s slots held held' :
  held ≡ₚ held' -> wheel_wf s slots held -> wheel_wf s slots held'.
Proof.
  intros Hp [W1 W2 W3 W4 W5 W6 (free & W7) W8 W9 W10]. split; try done.
  - by rewrite <- Hp.
  - exists free. eapply pool_rel_perm; [|done]. by rewrite Hp.
  - intros q Hq. apply W9. by rewrite Hp.
Qed.

Lemma create_keeps m w r m' w' (E : gmap positive timeout_event) :
  timeout_event_create m w = (r, (m', w')) -> E ⊆ events w -> E ⊆ events w'.
Proof.
  unfold timeout_event_create. destruct (ev_answers w) as [|[p|] rest]; simpl; try case_decide as Hd;
    intros [= <- <- <-]; simpl; try done.
  intros HE. etrans; [exact HE|]. by apply insert_subseteq.
Qed.

(** Borrowing adds one event, reset, to the held ones and touches no other. *)
Lemma borrow_wf s slots held :
  wheel_wf s slots held ->
  exists r m, timeout_event_borrow (wmod s) = Some (r, m) /\
    (forall q, q ∈ concat slots ++ held -> evs (set_mod s m) !! q = evs s !! q) /\
    match r with
    | Some p => p ∉ concat slots ++ held /\ wheel_wf (set_mod s m) slots (p :: held) /\
        evs (set_mod s m) !! p = Some timeout_event_reset
    | None => wheel_wf (set_mod s m) slots held
    end.
Proof.
  intros [W1 W2 W3 W4 W5 W6 (free & W7) W8 W9 W10]. unfold timeout_event_borrow.
  destruct (borrow_rel _ _ _ _ W7) as (r & st & f' & u' & X' & E & Hst & Hr' & _). rewrite E. simpl.
  assert (HE : evs s ⊆ events (world st)).
  { refine (borrow_world (fun w => evs s ⊆ events w) _ _ _ _ E _); [|done].
    intros ? ? ? ? ? Hc. by eapply create_keeps. }
  pose proof (pr_live _ _ _ _ Hr') as Hl. simpl in Hl. rewrite <- Hl in Hr'.
  assert (Hold : forall q, q ∈ concat slots ++ held -> exists e, evs s !! q = Some e /\
    events (world st) !! q = Some e).
  { intros q Hq. assert (Hin : q ∈ dom (evs s)).
    { apply (pr_sub _ _ _ _ W7). rewrite elem_of_list_to_set. set_solver. }
    apply elem_of_dom in Hin as [e He]. exists e. split; [done|]. by eapply lookup_weaken. }
  destruct r as [t|].
  - assert (Hu : u' = t :: concat slots ++ held) by (by inversion Hst). subst u'.
    assert (Ht : t ∉ concat slots ++ held).
    { pose proof (pr_nodup _ _ _ _ Hr') as Hnd. rewrite <- Permutation_middle in Hnd.
      apply NoDup_cons in Hnd as [? _]. set_solver. }
    assert (Hin : t ∈ dom (events (world st))).
    { apply (pr_sub _ _ _ _ Hr'). rewrite elem_of_list_to_set. set_solver. }
    apply elem_of_dom in Hin as [e0 He0].
    assert (Hq : forall q, q ∈ concat slots ++ held ->
      alter (fun _ => timeout_event_reset) t (events (world st)) !! q = evs s !! q).
    { intros q Hq. rewrite lookup_alter_ne by (intros ->; done).
      destruct (Hold q Hq) as (e & -> & ->). done. }
    assert (Hd : dom (alter (fun _ => timeout_event_reset) t (events (world st))) = dom (events (world st)))
      by apply dom_alter_L.
    do 2 eexists. split; [done|]. simpl. split; [done|]. split; [done|]. split.
    + split; simpl; try done.
      * rewrite <- Permutation_middle. by apply NoDup_cons.
      * exists f'. eapply pool_rel_perm; [apply Permutation_middle|].
        destruct Hr' as [? ? ? ? ? ? ? ?]. by split; simpl; rewrite ?Hd.
      * intros i l q Hi Hql. destruct (W8 i l q Hi Hql) as (e & [S1 S2 S3 S4]).
        exists e. split; simpl; try done. rewrite Hq; [done|].
        apply elem_of_app. left. by eapply concat_elem.
      * intros q [->|Hqh]%elem_of_cons; [rewrite lookup_alter_eq, He0; simpl; eauto|].
        rewrite Hq by set_solver. by apply W9.
    + by rewrite lookup_alter_eq, He0.
  - assert (Hu : u' = concat slots ++ held) by (by inversion Hst). subst u'.
    do 2 eexists. split; [done|]. simpl. split.
    { intros q Hq. by destruct (Hold q Hq) as (e & -> & ->). }
    split; simpl; try done.
    + exists f'. destruct Hr' as [? ? ? ? ? ? ? ?]. by split.
    + intros i l q Hi Hql. destruct (W8 i l q Hi Hql) as (e & [S1 S2 S3 S4]).
      exists e. split; simpl; try done.
      destruct (Hold q) as (e' & He' & ->); [|congruence]. apply elem_of_app. left. by eapply concat_elem.
    + intros q Hqh. destruct (W9 q Hqh) as (e & He & Hfr). exists e. split; [|done].
      destruct (Hold q) as (e' & He' & ->); [set_solver|congruence].
Qed.

(** Returning a held event. *)
Lemma return_wf s slots held p :
  wheel_wf s slots (p :: held) ->
  exists s', give_back s (Some p) = Some s' /\ wheel_wf s' slots held /\
    (forall q, info s' q = info s q) /\ tq s' = tq s /\ wheel s' = wheel s /\
    reads s' = reads s /\ calls s' = calls s.
Proof.
  intros [W1 W2 W3 W4 W5 W6 (free & W7) W8 W9 W10]. unfold give_back, timeout_event_return.
  destruct (W9 p) as (e & He & Hfr); [set_solver|]. rewrite He. simpl. rewrite Hfr.
  set (g := fun e => Tevent (ev_cb e) (ev_data e) (ev_recur e) (ev_delay e) (ev_offset e) true).
  set (st := teventp (on_world (fun w => upd_event w p g) (wmod s))).
  assert (Hd : dom (alter g p (evs s)) = dom (evs s)) by apply dom_alter_L.
  assert (H1 : pool_rel st free (p :: concat slots ++ held) (dom (evs s))).
  { eapply pool_rel_perm; [symmetry; apply Permutation_middle|].
    destruct W7 as [? ? ? ? ? ? ? ?]. by split; simpl; rewrite ?Hd. }
  destruct (return_rel st free _ _ p H1) as (u' & Hu & H2 & _); [set_solver|].
  apply (Permutation_cons_inv) in Hu.
  assert (Hnd : p ∉ concat slots ++ held /\ NoDup (concat slots ++ held)).
  { rewrite <- Permutation_middle in W6. by apply NoDup_cons in W6. }
  destruct Hnd as [Hp Hnd].
  assert (Hq : forall q, q ≠ p -> alter g p (evs s) !! q = evs s !! q)
    by (intros q Hq; by rewrite lookup_alter_ne).
  eexists. split; [done|]. split; [|split; [|done]].
  - split; simpl; try done.
    + exists (p :: free). eapply pool_rel_perm; [symmetry; exact Hu|]. rewrite Hd.
      destruct H2 as [? ? ? ? ? ? ? ?]. by split.
    + intros i l q Hl Hql. destruct (W8 i l q Hl Hql) as (e' & [S1 S2 S3 S4]).
      exists e'. split; simpl; try done. rewrite Hq; [done|]. intros ->. apply Hp.
      apply elem_of_app. left. by eapply concat_elem.
    + intros q Hqh. rewrite Hq by set_solver. apply W9. set_solver.
  - intros q. unfold info. simpl. destruct (decide (q = p)) as [->|]; [|by rewrite Hq].
    by rewrite lookup_alter_eq, He.
Qed.

(** The wheel's fields but nevent and nprocess. *)
Definition same_wheel s s' : Prop :=
  cap (wheel s') = cap (wheel s) /\ curr (wheel s') = curr (wheel s) /\
  tick_ns (wheel s') = tick_ns (wheel s) /\ tick (wheel s') = tick (wheel s) /\
  max_ntick (wheel s') = max_ntick (wheel s) /\ due (wheel s') = due (wheel s).

Lemma used_bound s slots held :
  wheel_wf s slots held -> zlen (concat slots) + zlen held <= UINT32_MAX.
Proof.
  intros [_ _ _ _ _ _ (free & W7) _ _ _]. destruct W7 as [_ _ _ [H1 H2] _ _ _ _].
  rewrite zlen_app in H1. pose proof (zlen_nonneg free). lia.
Qed.

Lemma queues_update s q slots i l es :
  (forall j k, slots !! j = Some k -> tailq (tq s) (slot_head (Z.of_nat j)) k) ->
  (forall j k, slots !! j = Some k -> i ≠ j -> k ## es) ->
  tailq q (slot_head (Z.of_nat i)) l -> modifies (tq s) q (slot_head (Z.of_nat i)) es ->
  forall j k, <[i := l]> slots !! j = Some k -> tailq q (slot_head (Z.of_nat j)) k.
Proof.
  intros Hq Hd Hl Hm j k Hj. destruct (decide (i = j)) as [<-|Hne].
  - apply list_lookup_insert_Some in Hj as [(_ & <- & _)|(Hne & _)]; done.
  - rewrite list_lookup_insert_ne in Hj by done.
    eapply modifies_tailq; [exact Hm| |by eapply Hd|by apply Hq].
    intros E. by apply slot_head_inj in E.
Qed.

(** The slots other than [i] keep their events' records. *)
Lemma slotted_keep s s' i p e :
  slotted s i p e -> evs s' !! p = Some e -> cap (wheel s') = cap (wheel s) ->
  tick_ns (wheel s') = tick_ns (wheel s) -> slotted s' i p e.
Proof.
  intros [S1 S2 S3 S4] He Hc Ht. split; try done. intros Hr. destruct (S4 Hr) as (? & ? & H).
  split_and!; [done|lia|lia|]. unfold ticks in *. by rewrite Hc, Ht.
Qed.

Lemma link_wf s slots held p e i l :
  wheel_wf s slots (p :: held) -> slots !! i = Some l -> slotted s i p e ->
  exists s', _timing_wheel_insert s p = Some s' /\ wheel_wf s' (<[i := l ++ [p]]> slots) held /\
    evs s' = evs s /\ same_wheel s s' /\ reads s' = reads s /\ calls s' = calls s /\
    nprocess (wheel s') = nprocess (wheel s).
Proof.
  intros Hwf Hl Hs. pose proof (used_bound _ _ _ Hwf) as Hb.
  destruct Hwf as [W1 W2 W3 W4 W5 W6 (free & W7) W8 W9 W10]. pose proof Hs as [S1 S2 S3 S4].
  apply lookup_lt_Some in Hl as Hlt. unfold UINT32_MAX in *.
  unfold _timing_wheel_insert. rewrite S1. cbn [mbind option_bind]. rewrite S2.
  rewrite (proj2 (Z.leb_le 0 _)) by lia. rewrite (proj2 (Z.ltb_lt _ _)) by (unfold zlen in W1; lia).
  assert (Hpl : p ∉ concat slots).
  { apply NoDup_app in W6 as (_ & Hd & _). intros Hp. apply (Hd p Hp). set_solver. }
  assert (Hnl : p ∉ l) by (intros ?; apply Hpl; by eapply concat_elem).
  destruct (tq_insert_tail (tq s) (slot_head (Z.of_nat i)) l p (W5 i l Hl) Hnl) as [Hq Hm].
  pose proof (concat_update slots i l (l ++ [p]) Hl) as Hperm.
  assert (Hc : concat (<[i := l ++ [p]]> slots) ≡ₚ p :: concat slots).
  { apply (Permutation_app_inv_r l). rewrite <- Hperm. solve_Permutation. }
  assert (Hnd : NoDup (concat slots)) by (by apply NoDup_app in W6 as (? & _)).
  eexists. split; [done|]. split; [|done]. split; simpl; try done.
  - unfold zlen. by rewrite length_insert.
  - eapply queues_update; [exact W5| |exact Hq|exact Hm]. intros j k Hj Hne.
    pose proof (concat_disjoint slots i j l k Hnd Hl Hj Hne).
    assert (p ∉ k) by (intros ?; apply Hpl; by eapply concat_elem). set_solver.
  - rewrite Hc. rewrite <- Permutation_middle in W6. done.
  - exists free. eapply pool_rel_perm; [|destruct W7 as [? ? ? ? ? ? ? ?]; by split].
    rewrite Hc. symmetry. apply Permutation_middle.
  - intros j k q Hj Hq'. destruct (decide (i = j)) as [<-|Hne].
    + apply list_lookup_insert_Some in Hj as [(_ & <- & _)|(Hne & _)]; [|done].
      apply elem_of_app in Hq' as [Hq'|Hq'].
      * destruct (W8 i l q Hl Hq') as (e' & Hs'). exists e'. by eapply slotted_keep; [|apply Hs'|..].
      * apply list_elem_of_singleton in Hq' as ->. exists e. by eapply slotted_keep.
    + rewrite list_lookup_insert_ne in Hj by done.
      destruct (W8 j k q Hj Hq') as (e' & Hs'). exists e'. by eapply slotted_keep; [|apply Hs'|..].
  - intros q Hq'. apply W9. set_solver.
  - rewrite W10. assert (Hz : zlen (concat (<[i := l ++ [p]]> slots)) = zlen (concat slots) + 1).
    { unfold zlen. rewrite Hc. simpl. lia. }
    rewrite Hz. apply u64_small. pose proof (zlen_nonneg (concat slots)).
    pose proof (zlen_nonneg (p :: held)). lia.
Qed.

Lemma unlink_wf s slots held p i a b :
  wheel_wf s slots held -> slots !! i = Some (a ++ p :: b) ->
  exists s' e, _timing_wheel_remove s p = Some s' /\
    wheel_wf s' (<[i := a ++ b]> slots) (p :: held) /\ slotted s i p e /\
    evs s' = evs s /\ same_wheel s s' /\ reads s' = reads s /\ calls s' = calls s /\
    nprocess (wheel s') = nprocess (wheel s).
Proof.
  intros Hwf Hl. pose proof (used_bound _ _ _ Hwf) as Hb.
  destruct Hwf as [W1 W2 W3 W4 W5 W6 (free & W7) W8 W9 W10].
  destruct (W8 i _ p Hl) as (e & Hs); [set_solver|]. pose proof Hs as [S1 S2 S3 S4].
  apply lookup_lt_Some in Hl as Hlt. unfold UINT32_MAX in *.
  unfold _timing_wheel_remove. rewrite S1. cbn [mbind option_bind]. rewrite S2.
  rewrite (proj2 (Z.leb_le 0 _)) by lia. rewrite (proj2 (Z.ltb_lt _ _)) by (unfold zlen in W1; lia).
  destruct (tq_remove (tq s) (slot_head (Z.of_nat i)) a p b (W5 i _ Hl)) as (q & -> & Hq & _ & _ & Hm).
  cbn [mbind option_bind].
  pose proof (concat_update slots i _ (a ++ b) Hl) as Hperm.
  assert (Hc : concat slots ≡ₚ p :: concat (<[i := a ++ b]> slots)).
  { apply (Permutation_app_inv_r (a ++ b)). rewrite Hperm. solve_Permutation. }
  assert (Hnd : NoDup (concat slots)) by (by apply NoDup_app in W6 as (? & _)).
  assert (Hp : p ∉ concat (<[i := a ++ b]> slots)).
  { rewrite Hc in Hnd. by apply NoDup_cons in Hnd as [? _]. }
  eexists _, e. split; [done|]. split; [|done]. split; simpl; try done.
  - unfold zlen. by rewrite length_insert.
  - eapply queues_update; [exact W5| |exact Hq|exact Hm]. intros j k Hj Hne.
    pose proof (concat_disjoint slots i j _ k Hnd Hl Hj Hne). set_solver.
  - rewrite <- Permutation_middle. rewrite Hc in W6. done.
  - exists free. eapply pool_rel_perm; [|destruct W7 as [? ? ? ? ? ? ? ?]; by split].
    rewrite Hc. apply Permutation_middle.
  - intros j k q' Hj Hq'. destruct (decide (i = j)) as [<-|Hne].
    + apply list_lookup_insert_Some in Hj as [(_ & <- & _)|(Hne & _)]; [|done].
      destruct (W8 i _ q' Hl) as (e' & Hs'); [set_solver|]. exists e'. by eapply slotted_keep; [|apply Hs'|..].
    + rewrite list_lookup_insert_ne in Hj by done.
      destruct (W8 j k q' Hj Hq') as (e' & Hs'). exists e'. by eapply slotted_keep; [|apply Hs'|..].
  - intros q' [->|Hq']%elem_of_cons; [eauto|]. by apply W9.
  - rewrite W10. assert (Hz : zlen (concat slots) = zlen (concat (<[i := a ++ b]> slots)) + 1).
    { unfold zlen. rewrite Hc. simpl. lia. }
    pose proof (zlen_nonneg (concat (<[i := a ++ b]> slots))). pose proof (zlen_nonneg held).
    rewrite u64_small by lia. lia.
Qed.

End Wf.

(** ** Ticks *)

Lemma offset_ticks tw clk d :
  is_intvl d = true -> 0 <= tp d <= INT64_MAX -> 0 < tick_ns tw ->
  _offset tw clk d = Some (ticks tw d) /\ 0 <= ticks tw d /\ (tp d <> 0 -> 0 < ticks tw d).
Proof.
  intros Hi Hd Ht. unfold _offset, ticks, timeout_ns. rewrite Hi. unfold INT64_MAX in *.
  rewrite (u64_small (tp d)) by lia. case_zcmp; try lia; [split; [done|lia]|].
  assert (0 <= (tp d - 1) / tick_ns tw <= tp d - 1).
  { split; [apply Z.div_pos; lia|]. apply Z.div_le_upper_bound; nia. }
  rewrite u64_small by lia. split; [done|lia].
Qed.

(** Append to slot [j]. *)
Definition push_slot (j : nat) (t : positive) (slots : list (list positive)) : list (list positive) :=
  match slots !! j with
  | Some l => <[j := l ++ [t]]> slots
  | None => slots
  end.

(** The ticks after which [t] comes up again once it has fired. *)
Definition again (endmode : bool) (s : wstate) (t : positive) : option Z :=
  match info s t with
  | Some (_, _, true, d) => if endmode then None else Some (ticks (wheel s) d)
  | _ => None
  end.

(** Slot [c] loses its first event, which moves on or leaves. *)
Definition step_slots (c cap : Z) (k : option Z) (t : positive) (rest : list positive)
    (slots : list (list positive)) : list (list positive) :=
  let slots := <[Z.to_nat c := rest]> slots in
  match k with
  | Some k => push_slot (Z.to_nat ((c + k) mod cap)) t slots
  | None => slots
  end.

Fixpoint run_slot (c cap : Z) (ag : positive -> option Z) (l : list positive)
    (slots : list (list positive)) : list (list positive) :=
  match l with
  | [] => slots
  | t :: l => run_slot c cap ag l (step_slots c cap (ag t) t l slots)
  end.

(** [n] ticks from slot [c] on: the events that fire, in order, and the slots then. *)
Fixpoint spin (n : nat) (c cap : Z) (ag : positive -> option Z) (slots : list (list positive))
  : list positive * list (list positive) :=
  match n with
  | O => ([], slots)
  | S n =>
      let l := default [] (slots !! Z.to_nat c) in
      let '(fired, slots) := spin n ((c + 1) mod cap) cap ag (run_slot c cap ag l slots) in
      (l ++ fired, slots)
  end.

Lemma run_slot_ext c n f g l : (forall t, f t = g t) ->
  forall slots, run_slot c n f l slots = run_slot c n g l slots.
Proof. intros H. induction l as [|t l IH]; intros slots; [done|]. cbn [run_slot]. by rewrite H, IH. Qed.

Lemma spin_ext n c cap f g : (forall t, f t = g t) -> forall slots, spin n c cap f slots = spin n c cap g slots.
Proof.
  intros H. revert c. induction n as [|n IH]; intros c slots; [done|]. cbn [spin].
  by rewrite (run_slot_ext c cap f g _ H), IH.
Qed.

(** The calls that firing the events of [l] makes. *)
Definition call_of (s : wstate) (t : positive) : list (Z * Z) :=
  match info s t with
  | Some (Some f, d, _, _) => [(f, d)]
  | _ => []
  end.

(** What a tick leaves alone. *)
Record tick_frame (s s' : wstate) : Prop := {
  tf_wheel : same_wheel s s';
  tf_reads : reads s' = reads s;
  tf_info : forall q, info s' q = info s q;
}.

#[export] Instance tick_frame_refl : Reflexive tick_frame.
Proof. intros s. by split. Qed.

#[export] Instance tick_frame_trans : Transitive tick_frame.
Proof.
  intros a b c [(A1 & A2 & A3 & A4 & A5 & A6) A7 A8] [(B1 & B2 & B3 & B4 & B5 & B6) B7 B8].
  split; [repeat split; congruence|congruence|]. intros q. by rewrite B8.
Qed.

Lemma frame_again s s' endmode t : tick_frame s s' -> again endmode s' t = again endmode s t.
Proof.
  intros [(_ & _ & Ht & _) _ Hi]. unfold again, ticks. by rewrite Hi, Ht.
Qed.

Lemma frame_call s s' t : tick_frame s s' -> call_of s' t = call_of s t.
Proof. intros [_ _ Hi]. unfold call_of. by rewrite Hi. Qed.

Section Steps.
Implicit Types (s : wstate) (slots : list (list positive)) (t : positive).

Lemma leave_wf s slots t :
  wheel_wf s slots [t] ->
  exists s', give_back s (Some t) = Some s' /\ wheel_wf s' slots [] /\ tick_frame s s' /\
    nprocess (wheel s') = nprocess (wheel s) /\ calls s' = calls s.
Proof.
  intros Hwf. destruct (return_wf s slots [] t Hwf) as (s' & E & H & Hi & _ & Hw & Hr & Hc).
  exists s'. split; [done|]. split; [done|]. rewrite Hw. split; [|done]. split; [|done|done].
  unfold same_wheel. by rewrite Hw.
Qed.

Lemma absolute_at s slots held k :
  wheel_wf s slots held -> 0 <= k < cap (wheel s) ->
  absolute (wheel s) k = Some ((curr (wheel s) + k) mod cap (wheel s)) /\
  exists l, slots !! Z.to_nat ((curr (wheel s) + k) mod cap (wheel s)) = Some l.
Proof.
  intros Hwf Hk. pose proof (ww_size _ _ _ Hwf) as Hsz. pose proof (ww_curr _ _ _ Hwf) as Hc.
  pose proof (ww_cap _ _ _ Hwf) as Hcap. unfold UINT32_MAX in *. unfold absolute.
  rewrite (proj2 (Z.eqb_neq _ _)) by lia. rewrite u64_small by lia. split; [done|].
  apply lookup_lt_is_Some. unfold zlen in Hcap. pose proof (Z.mod_pos_bound (curr (wheel s) + k) (cap (wheel s))). lia.
Qed.

(** The event [t], outside the table, goes to the slot [k] ticks ahead. *)
Lemma enter_wf s slots held t e k :
  wheel_wf s slots (t :: held) -> evs s !! t = Some e -> 0 <= k < cap (wheel s) ->
  (ev_recur e = true -> is_intvl (ev_delay e) = true /\ 0 < tp (ev_delay e) <= INT64_MAX /\
     ticks (wheel s) (ev_delay e) < cap (wheel s)) ->
  exists s', (o ← absolute (wheel s) k; _timing_wheel_insert (set_event s t (with_offset o)) t) = Some s' /\
    wheel_wf s' (push_slot (Z.to_nat ((curr (wheel s) + k) mod cap (wheel s))) t slots) held /\
    tick_frame s s' /\ nprocess (wheel s') = nprocess (wheel s) /\ calls s' = calls s.
Proof.
  intros Hwf He Hk Hrec. destruct (absolute_at s slots _ k Hwf Hk) as (-> & l & Hl).
  cbn [mbind option_bind]. set (o := (curr (wheel s) + k) mod cap (wheel s)) in *.
  assert (Ho : 0 <= o) by (apply Z.mod_pos_bound; pose proof (ww_curr _ _ _ Hwf); lia).
  pose proof (wf_set_event s slots _ t (with_offset o) Hwf ltac:(set_solver) ltac:(done)) as Hwf'.
  assert (He' : evs (set_event s t (with_offset o)) !! t = Some (with_offset o e))
    by (simpl; by rewrite lookup_alter_eq, He).
  destruct (link_wf _ slots held t (with_offset o e) (Z.to_nat o) l Hwf' Hl) as (s' & -> & H & E & F & R & C & P).
  - split; [done| | |done].
    + simpl. lia.
    + destruct (ww_held _ _ _ Hwf t) as (e0 & He0 & Hfr); [set_solver|]. simpl. congruence.
  - exists s'. split; [done|]. unfold push_slot. rewrite Hl. split; [done|]. split; [|done].
    split; [exact F|exact R|]. intros q. unfold info. rewrite E. simpl.
    destruct (decide (q = t)) as [->|]; [by rewrite lookup_alter_eq, He|by rewrite lookup_alter_ne].
Qed.

Lemma again_range endmode s slots held i l t k :
  wheel_wf s slots held -> slots !! i = Some l -> t ∈ l -> again endmode s t = Some k ->
  0 < k < cap (wheel s).
Proof.
  intros Hwf Hl Ht. destruct (ww_events _ _ _ Hwf i l t Hl Ht) as (e & [S1 S2 S3 S4]).
  unfold again, info. rewrite S1. simpl. destruct (ev_recur e); [|done].
  destruct endmode; [done|]. intros [= <-]. destruct (S4 eq_refl) as (Hi & Hd & Hk).
  destruct (offset_ticks (wheel s) (fun _ => None) (ev_delay e)) as (_ & _ & H);
    [done|lia|apply Hwf|]. split; [apply H; lia|done].
Qed.

Lemma ahead_ne c k n : 0 <= c < n -> 0 < k < n -> (c + k) mod n ≠ c.
Proof.
  intros Hc Hk E. destruct (Z_lt_le_dec (c + k) n).
  - rewrite Z.mod_small in E by lia. lia.
  - replace (c + k) with ((c + k - n) + 1 * n) in E by lia.
    rewrite Z.mod_add, Z.mod_small in E by lia. lia.
Qed.

(** The current slot after one event: the rest of it. *)
Lemma step_slots_curr s slots held endmode t rest :
  wheel_wf s slots held -> slots !! Z.to_nat (curr (wheel s)) = Some (t :: rest) ->
  step_slots (curr (wheel s)) (cap (wheel s)) (again endmode s t) t rest slots
    !! Z.to_nat (curr (wheel s)) = Some rest.
Proof.
  intros Hwf Hl. apply lookup_lt_Some in Hl as Hlt. unfold step_slots.
  destruct (again endmode s t) as [k|] eqn:Ek; [|by rewrite list_lookup_insert_eq].
  apply (again_range _ _ _ _ _ _ _ _ Hwf Hl) in Ek; [|left].
  pose proof (ahead_ne _ _ _ (ww_curr _ _ _ Hwf) Ek) as Hne. pose proof (ww_curr _ _ _ Hwf).
  unfold push_slot. destruct (_ !! Z.to_nat (_ mod _)) as [l|]; [|by rewrite list_lookup_insert_eq].
  rewrite list_lookup_insert_ne; [by rewrite list_lookup_insert_eq|].
  pose proof (Z.mod_pos_bound (curr (wheel s) + k) (cap (wheel s))). lia.
Qed.

(** A tick adds no event to the wheel. *)
Lemma concat_push j t slots : zlen (concat (push_slot j t slots)) <= zlen (concat slots) + 1.
Proof.
  unfold push_slot. destruct (slots !! j) as [l|] eqn:E; [|lia].
  pose proof (concat_update slots j l (l ++ [t]) E) as H.
  assert (H' : length (concat slots ++ l ++ [t]) = length (concat (<[j := l ++ [t]]> slots) ++ l)) by (by rewrite H).
  rewrite !length_app in H'. simpl in H'. unfold zlen. lia.
Qed.

Lemma concat_step c n k t rest slots :
  slots !! Z.to_nat c = Some (t :: rest) ->
  zlen (concat (step_slots c n k t rest slots)) <= zlen (concat slots).
Proof.
  intros Hl. pose proof (concat_update slots _ _ rest Hl) as H.
  assert (H' : length (concat slots ++ rest) = length (concat (<[Z.to_nat c := rest]> slots) ++ t :: rest)) by (by rewrite H).
  rewrite !length_app in H'. simpl in H'. unfold step_slots. destruct k as [k|].
  - etrans; [apply concat_push|]. unfold zlen. lia.
  - unfold zlen. lia.
Qed.

Lemma push_prefix j t slots i l :
  slots !! i = Some l -> exists l', push_slot j t slots !! i = Some (l ++ l').
Proof.
  intros Hl. unfold push_slot. destruct (slots !! j) as [k|] eqn:E; [|exists []; by rewrite app_nil_r].
  destruct (decide (i = j)) as [->|].
  - rewrite list_lookup_insert_eq by (by eapply lookup_lt_Some). simplify_eq. eauto.
  - rewrite list_lookup_insert_ne by done. exists []. by rewrite app_nil_r.
Qed.

(** Other slots only grow, at their end. *)
Lemma run_slot_other c n ag l : forall slots i k,
  slots !! i = Some k -> i ≠ Z.to_nat c -> exists k', run_slot c n ag l slots !! i = Some (k ++ k').
Proof.
  induction l as [|t l IH]; intros slots i k Hk Hne; cbn [run_slot]; [exists []; by rewrite app_nil_r|].
  assert (Hs : exists k', step_slots c n (ag t) t l slots !! i = Some (k ++ k')).
  { unfold step_slots. assert (<[Z.to_nat c := l]> slots !! i = Some k) by (by rewrite list_lookup_insert_ne).
    destruct (ag t); [by apply push_prefix|]. exists []. by rewrite app_nil_r. }
  destruct Hs as [k1 Hk1]. destruct (IH _ _ _ Hk1 Hne) as [k2 Hk2]. exists (k1 ++ k2).
  by rewrite app_assoc.
Qed.

Lemma curr_slot s slots held :
  wheel_wf s slots held -> exists l, slots !! Z.to_nat (curr (wheel s)) = Some l /\ (length l <= length (concat slots))%nat.
Proof.
  intros Hwf. destruct (absolute_at s slots held 0 Hwf) as (_ & l & Hl); [pose proof (ww_curr _ _ _ Hwf); lia|].
  rewrite Z.add_0_r, Z.mod_small in Hl by apply Hwf. exists l. split; [done|].
  pose proof (concat_update slots _ l [] Hl) as H. rewrite app_nil_r in H. rewrite H, length_app. lia.
Qed.

Lemma advance_wf s slots held :
  wheel_wf s slots held ->
  exists s', _advance_curr s = Some s' /\ wheel_wf s' slots held /\
    curr (wheel s') = (curr (wheel s) + 1) mod cap (wheel s) /\
    cap (wheel s') = cap (wheel s) /\ tick_ns (wheel s') = tick_ns (wheel s) /\
    (forall q, info s' q = info s q) /\ reads s' = reads s /\ calls s' = calls s /\
    due (wheel s') = due (wheel s) /\ tick (wheel s') = tick (wheel s) /\
    max_ntick (wheel s') = max_ntick (wheel s) /\ ntick (wheel s') = u64 (ntick (wheel s) + 1).
Proof.
  intros Hwf. pose proof (ww_curr _ _ _ Hwf) as Hc. pose proof (ww_size _ _ _ Hwf) as Hs.
  unfold _advance_curr, absolute, UINT32_MAX in *. rewrite (proj2 (Z.eqb_neq _ _)) by lia.
  rewrite u64_small by lia. cbn [mbind option_bind]. eexists. split; [done|]. split; [|done].
  eapply wf_same; [..|exact Hwf]; try done. simpl. apply Z.mod_pos_bound. lia.
Qed.

End Steps.

Section Tick.
Variable clocks : nat -> clock.
Variable callback : Z -> Z -> wstate -> option wstate.
Hypothesis quiet : forall f d s, callback f d s = Some s.
Implicit Types (s : wstate) (slots : list (list positive)) (t : positive).

Lemma fire_wf s slots held e :
  wheel_wf s slots held ->
  exists s', fire callback s e = Some s' /\ wheel_wf s' slots held /\ evs s' = evs s /\
    tick_frame s s' /\ nprocess (wheel s') = nprocess (wheel s) /\
    calls s' = calls s ++ match ev_cb e with Some f => [(f, ev_data e)] | None => [] end.
Proof.
  intros Hwf. unfold fire. destruct (ev_cb e) as [f|]; [rewrite quiet|];
    (eexists; split; [done|]); (split; [|rewrite ?app_nil_r; repeat split; done]).
  - eapply wf_same; [..|exact Hwf]; try done. apply Hwf.
  - done.
Qed.

Lemma process_event_wf endmode s slots t rest :
  wheel_wf s slots [] -> slots !! Z.to_nat (curr (wheel s)) = Some (t :: rest) ->
  exists s', process_event clocks callback endmode s t = Some s' /\
    wheel_wf s' (step_slots (curr (wheel s)) (cap (wheel s)) (again endmode s t) t rest slots) [] /\
    tick_frame s s' /\ nprocess (wheel s') = u64 (nprocess (wheel s) + 1) /\
    calls s' = calls s ++ call_of s t.
Proof.
  intros Hwf Hl. unfold process_event.
  set (s0 := count "timing_wheel_process" _).
  assert (H0 : wheel_wf s0 slots []) by (eapply wf_same; [..|exact Hwf]; try done; apply Hwf).
  destruct (unlink_wf s0 slots [] t _ [] rest H0 Hl) as (s1 & e & -> & H1 & Hs & E1 & F1 & R1 & C1 & P1).
  cbn [mbind option_bind]. rewrite E1, (sl_event _ _ _ _ Hs). cbn [mbind option_bind].
  destruct (fire_wf s1 _ _ e H1) as (s2 & -> & H2 & E2 & F2 & P2 & C2).
  cbn [mbind option_bind]. rewrite E2, E1, (sl_event _ _ _ _ Hs). cbn [mbind option_bind].
  assert (F02 : tick_frame s s2).
  { transitivity s1; [|done]. split; [exact F1|exact R1|]. intros q. unfold info. by rewrite E1. }
  assert (Hinfo : info s t = Some (ev_cb e, ev_data e, ev_recur e, ev_delay e)).
  { unfold info. change (evs s) with (evs s0). by rewrite (sl_event _ _ _ _ Hs). }
  assert (Hcalls : calls s2 = calls s ++ call_of s t).
  { rewrite C2, C1. unfold call_of. rewrite Hinfo. by destruct (ev_cb e). }
  assert (Hproc : nprocess (wheel s2) = u64 (nprocess (wheel s) + 1)) by (by rewrite P2, P1).
  rewrite <- Hcalls, <- Hproc. unfold again. rewrite Hinfo.
  destruct (ev_recur e && negb endmode) eqn:Er.
  - apply andb_prop in Er as [Er Em]. rewrite Er. destruct endmode; [done|]. cbn [negb andb].
    destruct (sl_recur _ _ _ _ Hs Er) as (Hi & Htp & Htk).
    pose proof (ww_tick _ _ _ Hwf) as Htick.
    destruct (tf_wheel _ _ F02) as (Fc & Fr & Ft & _).
    destruct (offset_ticks (wheel s2) (clocks (reads s2)) (ev_delay e)) as (Ho & Ho' & _); [done|lia|lia|].
    assert (Et : ticks (wheel s2) (ev_delay e) = ticks (wheel s) (ev_delay e))
      by (unfold ticks; by rewrite Ft).
    change (ticks (wheel s0) (ev_delay e)) with (ticks (wheel s) (ev_delay e)) in Htk.
    change (cap (wheel s0)) with (cap (wheel s)) in Htk.
    unfold offset_of. rewrite Hi, Ho. cbn [mbind option_bind].
    destruct (enter_wf s2 _ _ t e (ticks (wheel s2) (ev_delay e)) H2) as (s3 & -> & H3 & F3 & P3 & C3).
    + by rewrite E2, E1, (sl_event _ _ _ _ Hs).
    + lia.
    + intros _. rewrite Et, Fc. split_and!; [done|lia|lia|lia].
    + exists s3. split; [done|]. rewrite Fc, Fr, Et in H3. split; [exact H3|].
      split; [by transitivity s2|done].
  - assert (Eb : negb endmode && ev_recur e = false) by (by rewrite andb_comm). rewrite Eb.
    destruct (leave_wf s2 _ t H2) as (s3 & -> & H3 & F3 & P3 & C3).
    exists s3. split; [done|]. split; [|split; [by transitivity s2|done]].
    destruct (ev_recur e), endmode; done.
Qed.

Lemma process_loop_wf endmode l : forall fuel s slots ag,
  wheel_wf s slots [] -> slots !! Z.to_nat (curr (wheel s)) = Some l ->
  (forall t, ag t = again endmode s t) -> (length l <= fuel)%nat ->
  exists s', process_loop clocks callback fuel endmode (head l) s = Some s' /\
    wheel_wf s' (run_slot (curr (wheel s)) (cap (wheel s)) ag l slots) [] /\
    tick_frame s s' /\ u64 (nprocess (wheel s')) = u64 (nprocess (wheel s) + zlen l) /\
    calls s' = calls s ++ concat (map (call_of s) l) /\
    zlen (concat (run_slot (curr (wheel s)) (cap (wheel s)) ag l slots)) <= zlen (concat slots).
Proof.
  induction l as [|t l IH]; intros fuel s slots ag Hwf Hl Hag Hfu.
  - exists s. destruct fuel; simpl; rewrite app_nil_r;
      (split_and!; [done..|by rewrite zlen_nil, Z.add_0_r|done|lia]).
  - destruct fuel as [|fuel]; [simpl in Hfu; lia|]. simpl in Hfu. cbn [head process_loop].
    assert (Hq : tailq (tq s) (slot_head (curr (wheel s))) (t :: l)).
    { pose proof (ww_queues _ _ _ Hwf _ _ Hl) as Hq. pose proof (ww_curr _ _ _ Hwf).
      by rewrite Z2Nat.id in Hq by lia. }
    rewrite (tq_next _ _ [] t l Hq).
    destruct (process_event_wf endmode s slots t l Hwf Hl) as (s1 & -> & H1 & F1 & P1 & C1).
    cbn [mbind option_bind]. destruct (tf_wheel _ _ F1) as (Fc & Fr & _).
    destruct (IH fuel s1 _ ag H1) as (s2 & E & H2 & F2 & P2 & C2 & L2).
    + rewrite Fr. by eapply step_slots_curr.
    + intros q. rewrite Hag. symmetry. by apply frame_again.
    + lia.
    + exists s2. split; [done|]. rewrite Fc, Fr in H2, L2. cbn [run_slot]. rewrite Hag.
      split; [done|]. split; [by transitivity s1|]. split; [|split].
      * rewrite P2, P1, zlen_cons. unfold u64. rewrite Zplus_mod_idemp_l. f_equal. lia.
      * rewrite C2, C1, <- app_assoc. simpl. do 2 f_equal. f_equal. apply map_ext.
        intros q. by apply frame_call.
      * etrans; [exact L2|]. by apply concat_step.
Qed.

Lemma process_tick_wf endmode s slots fuel :
  wheel_wf s slots [] -> (length (concat slots) <= fuel)%nat ->
  exists l s', slots !! Z.to_nat (curr (wheel s)) = Some l /\
    _process_tick clocks callback fuel endmode s = Some s' /\
    wheel_wf s' (run_slot (curr (wheel s)) (cap (wheel s)) (again endmode s) l slots) [] /\
    tick_frame s s' /\ u64 (nprocess (wheel s')) = u64 (nprocess (wheel s) + zlen l) /\
    calls s' = calls s ++ concat (map (call_of s) l) /\
    zlen (concat (run_slot (curr (wheel s)) (cap (wheel s)) (again endmode s) l slots)) <= zlen (concat slots).
Proof.
  intros Hwf Hfu. destruct (curr_slot s slots [] Hwf) as (l & Hl & Hlen). exists l.
  pose proof (ww_queues _ _ _ Hwf _ _ Hl) as Hq. rewrite Z2Nat.id in Hq by apply Hwf.
  destruct (process_loop_wf endmode l fuel s slots (again endmode s) Hwf Hl) as (s' & E & H); [done|lia|].
  exists s'. split; [done|]. split; [|exact H]. unfold _process_tick. by rewrite (tq_first _ _ _ Hq).
Qed.

(** A tick and the step to the next slot, [n] times. *)
Fixpoint turn (fuel n : nat) (s : wstate) : option wstate :=
  match n with
  | O => Some s
  | S n => s ← _process_tick clocks callback fuel false s; s ← _advance_curr s; turn fuel n s
  end.

(** What one tick that fires [l] and the step to the next slot do. *)
Record ticked (s s' : wstate) (l : list positive) : Prop := {
  td_curr : curr (wheel s') = (curr (wheel s) + 1) mod cap (wheel s);
  td_cap : cap (wheel s') = cap (wheel s);
  td_again : forall t, again false s' t = again false s t;
  td_info : forall q, info s' q = info s q;
  td_calls : calls s' = calls s ++ concat (map (call_of s) l);
  td_tick : tick (wheel s') = tick (wheel s);
  td_max : max_ntick (wheel s') = max_ntick (wheel s);
}.

Lemma tick_wf s slots fuel :
  wheel_wf s slots [] -> (length (concat slots) <= fuel)%nat ->
  exists l s1 s2, slots !! Z.to_nat (curr (wheel s)) = Some l /\
    _process_tick clocks callback fuel false s = Some s1 /\ _advance_curr s1 = Some s2 /\
    wheel_wf s2 (run_slot (curr (wheel s)) (cap (wheel s)) (again false s) l slots) [] /\
    (length (concat (run_slot (curr (wheel s)) (cap (wheel s)) (again false s) l slots)) <= fuel)%nat /\
    ticked s s2 l /\ reads s2 = reads s /\ due (wheel s2) = due (wheel s).
Proof.
  intros Hwf Hfu. destruct (process_tick_wf false s slots fuel Hwf Hfu) as (l & s1 & Hl & E1 & H1 & F1 & _ & C1 & L1).
  destruct (advance_wf _ _ _ H1) as (s2 & E2 & H2 & Hc2 & Hcap2 & T2 & I2 & R2 & C2 & D2 & K2 & M2 & _).
  pose proof F1 as [(Fc & Fr & Ft & Fk & Fm & Fd) Frd FI].
  exists l, s1, s2. split_and!; try done; [unfold zlen in L1; lia| |congruence|congruence].
  split; try congruence.
  - intros t. rewrite <- (frame_again s s1 false t F1). unfold again, ticks. by rewrite I2, T2.
Qed.

Lemma ticked_calls s s' l ls : ticked s s' l -> concat (map (call_of s') ls) = concat (map (call_of s) ls).
Proof. intros H. f_equal. apply map_ext. intros q. unfold call_of. by rewrite (td_info _ _ _ H). Qed.

(** [n] ticks fire the events of the slots passed, and nothing else. *)
Lemma turn_spin n : forall fuel s slots,
  wheel_wf s slots [] -> (length (concat slots) <= fuel)%nat ->
  let sp := spin n (curr (wheel s)) (cap (wheel s)) (again false s) slots in
  exists s', turn fuel n s = Some s' /\ wheel_wf s' sp.2 [] /\ (length (concat sp.2) <= fuel)%nat /\
    curr (wheel s') = (curr (wheel s) + Z.of_nat n) mod cap (wheel s) /\ cap (wheel s') = cap (wheel s) /\
    (forall q, info s' q = info s q) /\ calls s' = calls s ++ concat (map (call_of s) sp.1).
Proof.
  induction n as [|n IH]; intros fuel s slots Hwf Hfu; cbn [turn spin].
  - exists s. rewrite Z.add_0_r, Z.mod_small by apply Hwf. simpl. by rewrite app_nil_r.
  - destruct (tick_wf s slots fuel Hwf Hfu) as (l & s1 & s2 & Hl & -> & E2 & H2 & L2 & T & _).
    cbn [mbind option_bind]. rewrite E2. cbn [mbind option_bind]. rewrite Hl. cbn [default].
    destruct (IH fuel s2 _ H2 L2) as (s' & E & H' & L' & Hc' & Hcap' & I' & C').
    rewrite (td_curr _ _ _ T), (td_cap _ _ _ T), (spin_ext _ _ _ _ _ (td_again _ _ _ T)) in *. unfold id in *.
    destruct (spin n _ _ _ _) as [fired slots']. cbn [fst snd] in *. exists s'.
    split_and!; try done.
    + rewrite Hc', Zplus_mod_idemp_l. f_equal. lia.
    + intros q. by rewrite I', (td_info _ _ _ T).
    + by rewrite C', (td_calls _ _ _ T), (ticked_calls _ _ _ _ T), map_app, concat_app, app_assoc.
Qed.

(** An event [n + m] slots ahead does not fire in [n] ticks, and is [m] slots ahead
    after them. *)
Lemma spin_keeps n : forall m fuel s slots p l,
  wheel_wf s slots [] -> Z.of_nat n + Z.of_nat m < cap (wheel s) -> (length (concat slots) <= fuel)%nat ->
  let i := Z.to_nat ((curr (wheel s) + Z.of_nat (n + m)) mod cap (wheel s)) in
  slots !! i = Some l -> p ∈ l ->
  let sp := spin n (curr (wheel s)) (cap (wheel s)) (again false s) slots in
  p ∉ sp.1 /\ exists l', sp.2 !! i = Some l' /\ p ∈ l'.
Proof.
  induction n as [|n IH]; intros m fuel s slots p l Hwf Hn Hfu i Hl Hp; cbn [spin].
  { split; [apply not_elem_of_nil|eauto]. }
  destruct (tick_wf s slots fuel Hwf Hfu) as (l0 & s1 & s2 & Hl0 & _ & _ & H2 & L2 & T & _).
  pose proof (ww_curr _ _ _ Hwf) as Hc.
  assert (Hne : i ≠ Z.to_nat (curr (wheel s))).
  { pose proof (ahead_ne (curr (wheel s)) (Z.of_nat (S n + m)) (cap (wheel s)) Hc ltac:(lia)).
    pose proof (Z.mod_pos_bound (curr (wheel s) + Z.of_nat (S n + m)) (cap (wheel s))). unfold i. lia. }
  destruct (run_slot_other (curr (wheel s)) (cap (wheel s)) (again false s) l0 slots i l Hl Hne) as [l1 Hl1].
  assert (Hp0 : p ∉ l0).
  { pose proof (ww_nodup _ _ _ Hwf) as Hnd. rewrite app_nil_r in Hnd.
    intros Hp0. by apply (concat_disjoint _ _ _ _ _ Hnd Hl Hl0 Hne p). }
  assert (Ei : Z.to_nat ((curr (wheel s2) + Z.of_nat (n + m)) mod cap (wheel s2)) = i).
  { rewrite (td_curr _ _ _ T), (td_cap _ _ _ T), Zplus_mod_idemp_l. unfold i. do 2 f_equal. lia. }
  destruct (IH m fuel s2 _ p (l ++ l1) H2) as [Hf Hs].
  - rewrite (td_cap _ _ _ T). lia.
  - done.
  - by rewrite Ei.
  - set_solver.
  - rewrite Ei, (td_curr _ _ _ T), (td_cap _ _ _ T), (spin_ext _ _ _ _ _ (td_again _ _ _ T)) in *.
    rewrite Hl0. cbn [default]. unfold id in *. destruct (spin n _ _ _ _) as [fired slots']. cbn [fst snd] in *.
    split; [set_solver|done].
Qed.

End Tick.

(** ** Insertion and removal *)

Section Edit.
Implicit Types (s : wstate) (slots : list (list positive)).

(** The events scheduled before keep what they were given. *)
Definition keeps slots s s' : Prop := forall q, q ∈ concat slots -> info s' q = info s q.

Lemma remove_wf s slots p i a b :
  wheel_wf s slots [] -> slots !! i = Some (a ++ p :: b) ->
  exists s', timing_wheel_remove s p = Some s' /\ wheel_wf s' (<[i := a ++ b]> slots) [] /\
    p ∉ concat (<[i := a ++ b]> slots) /\ keeps slots s s' /\ same_wheel s s' /\ calls s' = calls s.
Proof.
  intros Hwf Hl. unfold timing_wheel_remove.
  destruct (unlink_wf s slots [] p i a b Hwf Hl) as (s1 & e & -> & H1 & _ & E1 & F1 & _ & C1 & _).
  cbn [mbind option_bind].
  destruct (return_wf s1 _ [] p H1) as (s2 & -> & H2 & I2 & _ & W2 & _ & C2).
  exists s2. split; [done|]. split; [done|]. split.
  { pose proof (ww_nodup _ _ _ H1) as Hnd. apply NoDup_app in Hnd as (_ & Hd & _).
    intros Hp. apply (Hd p Hp). set_solver. }
  split; [intros q _; rewrite I2; unfold info; by rewrite E1|].
  split; [unfold same_wheel; rewrite W2; exact F1|by rewrite C2].
Qed.

Variable clocks : nat -> clock.

Lemma insert_wf s slots held delay recur cb arg :
  wheel_wf s slots held -> is_intvl delay = true -> 0 <= tp delay <= INT64_MAX ->
  let k := ticks (wheel s) delay in
  exists r0 m r s', timeout_event_borrow (wmod s) = Some (r0, m) /\
    timing_wheel_insert clocks s delay recur cb arg = Some (r, s') /\
    (r = None <-> r0 = None \/ cap (wheel s) <= k \/ (recur = true /\ k = 0)) /\
    (forall q, q ∈ concat slots ++ held -> info s' q = info s q) /\ same_wheel s s' /\ calls s' = calls s /\
    nprocess (wheel s') = nprocess (wheel s) /\
    match r with
    | Some p => p ∉ concat slots ++ held /\ info s' p = Some (cb, arg, recur, delay) /\
        wheel_wf s' (push_slot (Z.to_nat ((curr (wheel s) + k) mod cap (wheel s))) p slots) held
    | None => wheel_wf s' slots held
    end.
Proof.
  intros Hwf Hi Hd k. unfold timing_wheel_insert.
  destruct (borrow_wf s slots held Hwf) as (r0 & m & E & Hold & Hr). rewrite E. exists r0, m. cbn [mbind option_bind].
  assert (K0 : forall q, q ∈ concat slots ++ held -> info (set_mod s m) q = info s q)
    by (intros q Hq; unfold info; by rewrite Hold).
  destruct r0 as [t|].
  2: { exists None, (set_mod s m). split_and!; try done. by split; [left|]. }
  destruct Hr as (Ht & H1 & He). set (f := fun e => Tevent cb arg recur delay (ev_offset e) (ev_free e)).
  set (s1 := set_event (set_mod s m) t f).
  pose proof (wf_set_event _ _ _ t f H1 ltac:(set_solver) ltac:(done)) as H2. fold s1 in H2.
  assert (He1 : evs s1 !! t = Some (Tevent cb arg recur delay 0 false))
    by (simpl in *; by rewrite lookup_alter_eq, He).
  assert (K1 : forall q, q ∈ concat slots ++ held -> info s1 q = info s q).
  { intros q Hq. rewrite <- K0 by done. unfold info. simpl. rewrite lookup_alter_ne; [done|]. by intros ->. }
  destruct (offset_ticks (wheel s1) (clocks (reads s1)) delay) as (Ho & Hk0 & _); [done|done|apply Hwf|].
  change (ticks (wheel s1) delay) with k in *. unfold offset_of. rewrite Hi, Ho. cbn [mbind option_bind].
  change (cap (wheel s1)) with (cap (wheel s)).
  assert (Hback : exists s', (s ← give_back s1 (Some t); Some (@None positive, s)) = Some (None, s') /\
    (forall q, q ∈ concat slots ++ held -> info s' q = info s q) /\ same_wheel s s' /\ calls s' = calls s /\
    nprocess (wheel s') = nprocess (wheel s) /\ wheel_wf s' slots held).
  { destruct (return_wf s1 slots held t H2) as (s' & -> & H3 & I3 & _ & W3 & _ & C3).
    exists s'. split; [done|]. split; [intros q Hq; rewrite I3; by apply K1|].
    split; [unfold same_wheel; by rewrite W3|]. split; [done|]. by rewrite W3. }
  destruct Hback as (s' & Eb & Hb).
  destruct (Z.leb_spec (cap (wheel s)) k).
  { exists None, s'. split; [done|]. split; [done|]. split; [split; [by right; left|done]|done]. }
  destruct (recur && (k =? 0)) eqn:Er.
  { apply andb_prop in Er as [-> Hk%Z.eqb_eq]. exists None, s'.
    split; [done|]. split; [done|]. split; [split; [by right; right|done]|done]. }
  destruct (enter_wf s1 slots held t _ k H2 He1) as (s2 & E2 & H3 & F2 & P2 & C2).
  - change (cap (wheel s1)) with (cap (wheel s)). lia.
  - simpl. intros ->. split_and!; [done| |lia|done].
    simpl in Er. apply Z.eqb_neq in Er. unfold k, ticks in Er. revert Er. case_zcmp; lia.
  - destruct (absolute (wheel s1) k) as [o|]; [|done]. cbn [mbind option_bind] in E2 |- *.
    rewrite E2. cbn [mbind option_bind]. exists (Some t), s2. split; [done|]. split; [done|].
    split.
    { split; [done|]. intros [?|[?|[-> Hk]]]; [done|lia|]. by rewrite Hk in Er. }
    split; [intros q Hq; rewrite (tf_info _ _ F2); by apply K1|].
    split; [apply F2|]. split; [done|]. split; [done|]. split; [done|]. split; [|done].
    rewrite (tf_info _ _ F2). unfold info. by rewrite He1.
Qed.

End Edit.

Section Scheduled.
Variable clocks : nat -> clock.
Variable callback : Z -> Z -> wstate -> option wstate.
Hypothesis quiet : forall f d s, callback f d s = Some s.

(** An event [n + m] slots ahead, after [n] ticks: it has not fired and can be removed;
    if [m] is 0 the next tick fires it. *)
Lemma scheduled n m fuel (s : wstate) slots p l :
  wheel_wf s slots [] -> Z.of_nat n + Z.of_nat m < cap (wheel s) -> (length (concat slots) <= fuel)%nat ->
  let i := Z.to_nat ((curr (wheel s) + Z.of_nat (n + m)) mod cap (wheel s)) in
  slots !! i = Some l -> p ∈ l ->
  exists s2 slots2 fired a b s3, turn clocks callback fuel n s = Some s2 /\ wheel_wf s2 slots2 [] /\
    curr (wheel s2) = (curr (wheel s) + Z.of_nat n) mod cap (wheel s) /\
    calls s2 = calls s ++ concat (map (call_of s) fired) /\ p ∉ fired /\
    slots2 !! i = Some (a ++ p :: b) /\ info s2 p = info s p /\
    timing_wheel_remove s2 p = Some s3 /\ wheel_wf s3 (<[i := a ++ b]> slots2) [] /\
    p ∉ concat (<[i := a ++ b]> slots2) /\ calls s3 = calls s2 /\
    (m = O -> exists s4, _process_tick clocks callback fuel false s2 = Some s4 /\
       calls s4 = calls s2 ++ concat (map (call_of s2) (a ++ p :: b))).
Proof.
  intros Hwf Hn Hfu i Hl Hp.
  destruct (turn_spin clocks callback quiet n fuel s slots Hwf Hfu) as (s2 & E2 & H2 & L2 & Hc2 & Hcap2 & I2 & C2).
  destruct (spin_keeps clocks callback quiet n m fuel s slots p l Hwf Hn Hfu Hl Hp) as (Hf & l' & Hl' & Hp').
  fold i in Hl'. apply list_elem_of_split in Hp' as (a & b & ->).
  destruct (remove_wf s2 _ p i a b H2 Hl') as (s3 & E3 & H3 & Hn3 & _ & _ & C3).
  eexists s2, _, _, a, b, s3. split_and!; try done. intros ->.
  destruct (process_tick_wf clocks callback quiet false s2 _ fuel H2 L2) as (l2 & s4 & Hl2 & E4 & _ & _ & _ & C4 & _).
  exists s4. split; [done|]. unfold i in Hl'. rewrite Nat.add_0_r, <- Hc2, Hl2 in Hl'. by simplify_eq.
Qed.

End Scheduled.

(** ** Flushing *)

Section Flush.
Implicit Types (s : wstate) (slots rot : list (list positive)).

Lemma run_slot_end c n s l : forall slots,
  slots !! Z.to_nat c = Some l -> run_slot c n (again true s) l slots = <[Z.to_nat c := []]> slots.
Proof.
  induction l as [|t l IH]; intros slots Hl; cbn [run_slot]; [by rewrite list_insert_id|].
  assert (Ha : again true s t = None).
  { unfold again. by destruct (info s t) as [[[[? ?] []] ?]|]. }
  rewrite Ha. unfold step_slots. rewrite IH, list_insert_insert_eq; [done|].
  apply list_lookup_insert_eq. by eapply lookup_lt_Some.
Qed.

(** The slots in the order in which the wheel comes to them. *)
Definition rotation (c : Z) slots : list (list positive) :=
  drop (Z.to_nat c) slots ++ take (Z.to_nat c) slots.

Lemma rotation_lookup c slots (i : nat) :
  0 <= c < zlen slots -> (i < length slots)%nat ->
  rotation c slots !! i = slots !! Z.to_nat ((c + Z.of_nat i) mod zlen slots).
Proof.
  intros Hc Hi. unfold rotation, zlen in *.
  destruct (decide (i < length slots - Z.to_nat c)%nat).
  - rewrite lookup_app_l by (rewrite length_drop; lia). rewrite lookup_drop, Z.mod_small by lia.
    f_equal. lia.
  - rewrite lookup_app_r by (rewrite length_drop; lia). rewrite length_drop, lookup_take_lt by lia.
    replace (c + Z.of_nat i) with ((c + Z.of_nat i - Z.of_nat (length slots)) + 1 * Z.of_nat (length slots)) by lia.
    rewrite Z.mod_add, Z.mod_small by lia. f_equal. lia.
Qed.

Lemma concat_nil slots : (forall j l, slots !! j = Some l -> l = []) -> concat slots = [].
Proof.
  induction slots as [|l slots IH]; intros H; [done|]. simpl. rewrite (H 0%nat l eq_refl). simpl.
  apply IH. intros j k Hj. by apply (H (S j)).
Qed.

Lemma index_back (c j n : Z) : 0 <= j < n -> (c + (j - c) mod n) mod n = j.
Proof. intros. rewrite Zplus_mod_idemp_r. replace (c + (j - c)) with j by lia. by apply Z.mod_small. Qed.

Variable clocks : nat -> clock.
Variable callback : Z -> Z -> wstate -> option wstate.
Hypothesis quiet : forall f d s, callback f d s = Some s.

(** After [n] ticks from slot [c0]: the first [n] slots are empty, the others as
    they were. *)
Record flush_at (c0 : Z) rot (n : nat) s slots : Prop := {
  fl_wf : wheel_wf s slots [];
  fl_start : 0 <= c0 < cap (wheel s);
  fl_cap : zlen rot = cap (wheel s);
  fl_curr : curr (wheel s) = (c0 + Z.of_nat n) mod cap (wheel s);
  fl_slots : forall i l, rot !! i = Some l ->
    slots !! Z.to_nat ((c0 + Z.of_nat i) mod cap (wheel s)) = Some (if (i <? n)%nat then [] else l);
}.

Lemma index_inj c n (i j : nat) :
  0 <= c < n -> Z.of_nat i < n -> Z.of_nat j < n ->
  (c + Z.of_nat i) mod n = (c + Z.of_nat j) mod n -> i = j.
Proof.
  intros Hc Hi Hj E. apply (f_equal (fun x => (x - c) mod n)) in E.
  rewrite !Zminus_mod_idemp_l in E. replace (c + Z.of_nat i - c) with (Z.of_nat i) in E by lia.
  replace (c + Z.of_nat j - c) with (Z.of_nat j) in E by lia. rewrite !Z.mod_small in E by lia. lia.
Qed.

Lemma flush_tick c0 rot n s slots efuel :
  flush_at c0 rot n s slots -> (n < length rot)%nat -> (length (concat slots) <= efuel)%nat ->
  exists l s1 s2 slots2, _process_tick clocks callback efuel true s = Some s1 /\
    _advance_curr s1 = Some s2 /\ flush_at c0 rot (S n) s2 slots2 /\
    drop n rot = l :: drop (S n) rot /\ calls s2 = calls s ++ concat (map (call_of s) l) /\
    (length (concat slots2) <= length (concat slots))%nat /\ (forall q, info s2 q = info s q).
Proof.
  intros [Hwf Hc0 Hcap Hcurr Hsl] Hn Hef.
  destruct (process_tick_wf clocks callback quiet true s slots efuel Hwf Hef)
    as (l & s1 & Hl & -> & H1 & F1 & _ & C1 & L1).
  destruct (advance_wf _ _ _ H1) as (s2 & E2 & H2 & Hc2 & Hcap2 & _ & I2 & _ & C2 & _).
  rewrite (run_slot_end _ _ _ _ _ Hl) in H2, L1.
  destruct F1 as [(Fc & Fr & _) _ FI]. rewrite Fc, Fr in Hc2. rewrite Fc in Hcap2.
  assert (Hln : rot !! n = Some l).
  { destruct (rot !! n) as [l'|] eqn:En; [|apply lookup_ge_None in En; lia].
    apply Hsl in En as En'. rewrite Nat.ltb_irrefl, <- Hcurr, Hl in En'. by simplify_eq. }
  exists l, s1, s2, (<[Z.to_nat (curr (wheel s)) := []]> slots). split; [done|]. split; [done|].
  split; [|split; [by apply drop_S|split; [by rewrite C2|split;
    [unfold zlen in L1; lia|intros q; by rewrite I2]]]].
  split; rewrite ?Hcap2; try done.
  { rewrite Hc2, Hcurr, Zplus_mod_idemp_l. f_equal. lia. }
  intros i k Hi. apply lookup_lt_Some in Hi as Hlt. unfold zlen in Hcap. rewrite Hcurr.
  destruct (decide (i = n)) as [->|Hne].
  - rewrite list_lookup_insert_eq; [by rewrite (proj2 (Nat.ltb_lt _ _)) by lia|].
    rewrite <- Hcurr. by eapply lookup_lt_Some.
  - rewrite list_lookup_insert_ne.
    + rewrite (Hsl i k Hi). destruct (Nat.ltb_spec i n), (Nat.ltb_spec i (S n)); done || lia.
    + intros E. apply Hne. apply (index_inj c0 (cap (wheel s))); [lia..|].
      pose proof (Z.mod_pos_bound (c0 + Z.of_nat i) (cap (wheel s))).
      pose proof (Z.mod_pos_bound (c0 + Z.of_nat n) (cap (wheel s))). lia.
Qed.

Lemma flush_end c0 rot s slots :
  flush_at c0 rot (length rot) s slots -> concat slots = [] /\ curr (wheel s) = c0.
Proof.
  intros [Hwf Hc0 Hcap Hcurr Hsl]. unfold zlen in Hcap. split.
  - apply concat_nil. intros j l Hj. apply lookup_lt_Some in Hj as Hlt.
    pose proof (ww_cap _ _ _ Hwf) as Hlen. unfold zlen in Hlen.
    pose proof (Z.mod_pos_bound (Z.of_nat j - c0) (cap (wheel s))) as Hm.
    destruct (lookup_lt_is_Some_2 rot (Z.to_nat ((Z.of_nat j - c0) mod cap (wheel s)))) as [k Hk]; [lia|].
    apply Hsl in Hk as Hk'. rewrite Z2Nat.id, index_back, Nat2Z.id, Hj in Hk' by lia.
    apply lookup_lt_Some in Hk. rewrite (proj2 (Nat.ltb_lt _ _)) in Hk' by lia. by simplify_eq.
  - rewrite Hcurr, Hcap. rewrite <- Z.add_mod_idemp_r, Z.mod_same, Z.add_0_r by lia.
    by apply Z.mod_small.
Qed.

Lemma flush_loop_wf c0 rot efuel m : forall n fuel s slots,
  flush_at c0 rot n s slots -> length rot = (n + S m)%nat ->
  (m < fuel)%nat -> (length (concat slots) <= efuel)%nat ->
  exists s' slots', flush_loop clocks callback fuel efuel c0 s = Some s' /\ wheel_wf s' slots' [] /\
    concat slots' = [] /\ curr (wheel s') = c0 /\
    calls s' = calls s ++ concat (map (call_of s) (concat (drop n rot))).
Proof.
  induction m as [|m IH]; intros n fuel s slots Hfl Hrot Hfu Hef; (destruct fuel as [|fuel]; [lia|]);
    cbn [flush_loop];
    destruct (flush_tick c0 rot n s slots efuel Hfl) as (l & s1 & s2 & slots2 & E1 & E2 & H2 & Hd & C2 & L2 & I2);
    [lia|done| |lia|done|]; rewrite E1; cbn [mbind option_bind]; rewrite E2; cbn [mbind option_bind].
  - replace (S n) with (length rot) in H2 by lia. destruct (flush_end _ _ _ _ H2) as [He Hc].
    rewrite Hc, Z.eqb_refl. exists s2, slots2. split_and!; [done|apply H2|done|done|].
    rewrite Hd, drop_ge, C2 by lia. simpl. by rewrite app_nil_r.
  - assert (Hne : curr (wheel s2) ≠ c0).
    { rewrite (fl_curr _ _ _ _ _ H2). pose proof (fl_cap _ _ _ _ _ H2) as Hcap. unfold zlen in Hcap.
      apply ahead_ne; [apply H2|lia]. }
    rewrite (proj2 (Z.eqb_neq _ _)) by done.
    destruct (IH (S n) fuel s2 slots2 H2) as (s' & slots' & E & H' & He & Hc & C'); [lia..|].
    exists s', slots'. split_and!; [done..|]. rewrite C', C2, Hd, <- app_assoc. simpl.
    rewrite map_app, concat_app. do 2 f_equal. f_equal. apply map_ext. intros q.
    unfold call_of. by rewrite I2.
Qed.

End Flush.

(** ** Execution *)

Section Execute.
Variable clocks : nat -> clock.
Variable callback : Z -> Z -> wstate -> option wstate.
Hypothesis quiet : forall f d s, callback f d s = Some s.

(** A clock that works: [time n] is its n-th reading in nanoseconds, and two
    successive readings are less than 2^52 ns apart. *)
Variable time : nat -> Z.
Hypothesis clock_ok : forall n, exists t, clocks n CLOCK_MONOTONIC_RAW = Some t /\ ts_ok t /\
  ns_of t = time n /\ time n <= INT64_MAX /\ Z.abs (time (S n) - time n) < 2 ^ 52.
Implicit Types (s : wstate) (slots : list (list positive)).

Definition due_ok s (n : Z) : Prop :=
  0 < tp (tick (wheel s)) /\ 0 <= tp (due (wheel s)) /\
  tp (due (wheel s)) + n * tp (tick (wheel s)) <= INT64_MAX.

(** The time spent in a tick, as the loop measures it. *)
Lemma elapsed_ns d0 n :
  let d := duration_stop (clocks (S n)) (duration_start (clocks n) d0) in
  u64_of_double (duration_ns d) = Some (Z.max 0 (time (S n) - time n)).
Proof.
  intros d. destruct (clock_ok n) as (t0 & C0 & K0 & N0 & _ & Hd).
  destruct (clock_ok (S n)) as (t1 & C1 & K1 & N1 & _ & _).
  assert (E : d_start d = t0 /\ d_stop d = t1).
  { unfold d, duration_stop, duration_start, duration_start_type, _gettime. simpl. by rewrite C0, C1. }
  destruct E as [E0 E1]. pose proof (duration_ns_exact d) as X. rewrite E0, E1, N0, N1 in X.
  specialize (X K0 K1 Hd). destruct (Z.ltb_spec (time (S n)) (time n)).
  - rewrite X, Z.max_l by lia. by vm_compute.
  - rewrite Z.max_r by lia. apply trunc_int; [done|lia].
Qed.

(** The due time [d] after a tick that starts at reading [r]: a tick later, less the
    time spent, unless that was a tick or more. *)
Definition next_due (tk : Z) (r : nat) (d : Z) : Z :=
  let e := Z.max 0 (time (S r) - time r) in
  if e <? tk then d + tk - e else d.
(** The due time after [n] ticks, when the clock is read [r] times before the first test;
    every turn of the loop reads it three times. *)
Fixpoint due_after (n : nat) (tk : Z) (r : nat) (d : Z) : Z :=
  match n with
  | O => d
  | S n => due_after n tk (r + 3) (next_due tk (S r) d)
  end.

Lemma next_due_range tk r d : 0 < tk -> d <= next_due tk r d <= d + tk.
Proof. intros. unfold next_due. case_zcmp; lia. Qed.

Lemma due_after_range n tk : 0 < tk -> forall r d, d <= due_after n tk r d <= d + Z.of_nat n * tk.
Proof.
  intros Htk. induction n as [|n IH]; intros r d; cbn [due_after]; [lia|].
  pose proof (next_due_range tk (S r) d Htk). specialize (IH (r + 3)%nat (next_due tk (S r) d)). nia.
Qed.

(** The body of the loop is one tick, and sets the next due time. *)
Lemma execute_tick_wf s slots efuel n :
  wheel_wf s slots [] -> due_ok s (n + 1) -> 0 <= n -> (length (concat slots) <= efuel)%nat ->
  is_set (due (wheel s)) = true ->
  exists l s', slots !! Z.to_nat (curr (wheel s)) = Some l /\ execute_tick clocks callback efuel s = Some s' /\
    wheel_wf s' (run_slot (curr (wheel s)) (cap (wheel s)) (again false s) l slots) [] /\
    (length (concat (run_slot (curr (wheel s)) (cap (wheel s)) (again false s) l slots)) <= efuel)%nat /\
    ticked s s' l /\ reads s' = S (S (reads s)) /\ is_set (due (wheel s')) = true /\
    tp (due (wheel s')) = next_due (tp (tick (wheel s))) (reads s) (tp (due (wheel s))).
Proof.
  intros Hwf (Hd1 & Hd2 & Hd3) Hn Hef Hset. unfold execute_tick. cbn [now].
  set (s0 := WState _ _ _ (S (reads s)) _).
  assert (H0 : wheel_wf s0 slots []) by (eapply wf_same; [..|exact Hwf]; try done; apply Hwf).
  destruct (tick_wf clocks callback quiet s0 slots efuel H0 Hef)
    as (l & s1 & s2 & Hl & -> & E2 & H2 & L2 & T & R2 & D2).
  cbn [mbind option_bind]. rewrite E2. cbn [mbind option_bind now]. rewrite R2.
  change (reads s0) with (S (reads s)). rewrite elapsed_ns. cbn [mbind option_bind].
  destruct (clock_ok (reads s)) as (_ & _ & _ & _ & _ & Hdiff). unfold next_due.
  set (e := Z.max 0 (time (S (reads s)) - time (reads s))).
  assert (He : 0 <= e < 2 ^ 52) by lia. cbn [wheel timeout_set_ns tp]. rewrite i64_small by lia.
  pose proof (td_tick _ _ _ T) as T2. change (wheel s0) with (wheel s) in *. rewrite T2.
  exists l. destruct (Z.ltb_spec e (tp (tick (wheel s)))) as [Hlt|Hge];
    (eexists; split; [done|]; split; [done|];
     split; [eapply wf_same; [..|exact H2]; try done; apply H2|]; split; [done|];
     split; [by destruct T; split|]; split; [done|]; split; [|]).
  - done.
  - simpl. rewrite D2, T2. unfold INT64_MAX in *.
    assert (tp (tick (wheel s)) <= (n + 1) * tp (tick (wheel s))) by nia.
    rewrite (i64_small e), (i64_small (_ + _)) by lia. apply i64_small. lia.
  - simpl. by rewrite D2.
  - simpl. by rewrite D2.
Qed.

(** A run of the loop from [s] to [s'] that ticks [n] times, with room for [limit]
    ticks. *)
Record executed s slots (n : nat) (limit : Z) s' : Prop := {
  ex_wf : wheel_wf s' (spin n (curr (wheel s)) (cap (wheel s)) (again false s) slots).2 [];
  ex_calls : calls s' = calls s ++
    concat (map (call_of s) (spin n (curr (wheel s)) (cap (wheel s)) (again false s) slots).1);
  ex_curr : curr (wheel s') = (curr (wheel s) + Z.of_nat n) mod cap (wheel s);
  ex_due : tp (due (wheel s')) = due_after n (tp (tick (wheel s))) (reads s) (tp (due (wheel s)));
  ex_limit : Z.of_nat n <= limit;
  ex_stopped : is_set (due (wheel s)) = false -> n = O;
  ex_late : forall i, (i < n)%nat ->
    due_after i (tp (tick (wheel s))) (reads s) (tp (due (wheel s))) <= time (reads s + 3 * i);
  ex_end : is_set (due (wheel s)) = true -> Z.of_nat n < limit ->
    time (reads s + 3 * n) < due_after n (tp (tick (wheel s))) (reads s) (tp (due (wheel s)));
}.

Lemma executed_0 s s' slots limit :
  wheel_wf s' slots [] -> wheel s' = wheel s -> calls s' = calls s -> 0 <= limit ->
  (is_set (due (wheel s)) = true -> 0 < limit -> time (reads s) < tp (due (wheel s))) ->
  executed s slots 0 limit s'.
Proof.
  intros Hwf Hw Hc Hl Hend. pose proof (ww_curr _ _ _ Hwf) as Hr. rewrite Hw in Hr.
  split; cbn [spin due_after fst snd map concat]; rewrite ?Hw, ?app_nil_r, ?Nat.mul_0_r, ?Nat.add_0_r;
    try done; [by rewrite Z.add_0_r, Z.mod_small|lia].
Qed.

(** A tick in front of a run. *)
Lemma executed_S s s1 slots l n limit s' :
  slots !! Z.to_nat (curr (wheel s)) = Some l -> ticked s s1 l -> reads s1 = (reads s + 3)%nat ->
  tp (due (wheel s)) <= time (reads s) -> is_set (due (wheel s)) = true -> is_set (due (wheel s1)) = true ->
  tp (due (wheel s1)) = next_due (tp (tick (wheel s))) (S (reads s)) (tp (due (wheel s))) ->
  executed s1 (run_slot (curr (wheel s)) (cap (wheel s)) (again false s) l slots) n limit s' ->
  executed s slots (S n) (limit + 1) s'.
Proof.
  intros Hl T R Hlate Hset Hset1 Hd1 [X1 X2 X3 X4 X5 X6 X7 X8]. pose proof T as [Tc Tcap Ta Ti Tca Tt Tm].
  rewrite Tc, Tcap, (spin_ext _ _ _ _ _ Ta) in *. rewrite Tt, R, Hd1 in *. rewrite (ticked_calls _ _ _ _ T) in X2.
  split; cbn [spin due_after]; rewrite ?Hl; cbn [default]; unfold id; try done.
  - by destruct (spin n _ _ _ _).
  - rewrite X2, Tca. destruct (spin n _ _ _ _) as [fired slots']. simpl. by rewrite map_app, concat_app, app_assoc.
  - rewrite X3, Zplus_mod_idemp_l. f_equal. lia.
  - lia.
  - congruence.
  - intros [|i] Hi; cbn [due_after]; [by rewrite Nat.mul_0_r, Nat.add_0_r|].
    replace (reads s + 3 * S i)%nat with (reads s + 3 + 3 * i)%nat by lia. apply X7. lia.
  - intros _ Hn. replace (reads s + 3 * S n)%nat with (reads s + 3 + 3 * n)%nat by lia. apply X8; [done|lia].
Qed.

Lemma due_expired s :
  is_set (due (wheel s)) = true ->
  timeout_expired (clocks (reads s)) (due (wheel s)) = (tp (due (wheel s)) <=? time (reads s)).
Proof.
  intros Hset. unfold timeout_expired. rewrite Hset. destruct (clock_ok (reads s)) as (t & Ct & Kt & Nt & Bt & _).
  rewrite (now_ns_at _ t Ct Kt) by lia. rewrite Nt, i64_small; [done|].
  unfold ts_ok, ns_of, NSEC_PER_SEC, INT64_MAX in *. lia.
Qed.

Lemma execute_loop_wf efuel j : forall fuel nt s slots,
  wheel_wf s slots [] -> 0 <= nt -> max_ntick (wheel s) = nt + Z.of_nat j ->
  0 < max_ntick (wheel s) <= UINT32_MAX -> due_ok s (Z.of_nat j) -> (j <= fuel)%nat ->
  (length (concat slots) <= efuel)%nat ->
  exists n s', execute_loop clocks callback fuel efuel nt s = Some s' /\ executed s slots n (Z.of_nat j) s'.
Proof.
  induction j as [|j IH]; intros fuel nt s slots Hwf Hnt Hmx Hmb Hdue Hfu Hef.
  { assert (E : _tick_allowed (wheel s) nt = false) by (unfold _tick_allowed; case_zcmp; done || lia).
    exists O, s. split; [by destruct fuel; cbn [execute_loop]; rewrite E|]. by apply executed_0. }
  assert (E : _tick_allowed (wheel s) nt = true) by (unfold _tick_allowed; case_zcmp; done || lia).
  destruct fuel as [|fuel]; [lia|]. cbn [execute_loop]. rewrite E.
  destruct (is_set (due (wheel s))) eqn:Eset.
  2: { exists O, s. split; [done|]. apply executed_0; [done|done|done|lia|congruence]. }
  cbn [now]. set (s0 := WState _ _ _ (S (reads s)) _).
  assert (H0 : wheel_wf s0 slots []) by (eapply wf_same; [..|exact Hwf]; try done; apply Hwf).
  change (due (wheel s0)) with (due (wheel s)). rewrite due_expired by done.
  destruct (Z.leb_spec (tp (due (wheel s))) (time (reads s))) as [Hex|Hex].
  2: { exists O, s0. split; [done|]. apply executed_0; done || lia. }
  destruct (execute_tick_wf s0 slots efuel (Z.of_nat j) H0)
    as (l & s1 & Hl & -> & H1 & L1 & T & R1 & Hset1 & Hd1); [|lia|done|done|].
  { replace (Z.of_nat j + 1) with (Z.of_nat (S j)) by lia. exact Hdue. }
  cbn [mbind option_bind]. pose proof (td_max _ _ _ T) as Hm1. pose proof (td_tick _ _ _ T) as Ht1.
  change (wheel s0) with (wheel s) in *. change (reads s0) with (S (reads s)) in *.
  change (again false s0) with (again false s) in *. unfold UINT32_MAX in *.
  assert (Hdue1 : due_ok s1 (Z.of_nat j)).
  { destruct Hdue as (D1 & D2 & D3). pose proof (next_due_range (tp (tick (wheel s))) (S (reads s)) (tp (due (wheel s))) D1).
    unfold due_ok. rewrite Hd1, Ht1. lia. }
  destruct (IH fuel (u64 (nt + 1)) s1 _ H1) as (n & s' & E' & X);
    rewrite ?Hm1, ?u64_small by lia; try lia; try done.
  rewrite u64_small in E' by lia.
  exists (S n), s'. split; [exact E'|]. replace (Z.of_nat (S j)) with (Z.of_nat j + 1) by lia.
  apply (executed_S s s1 slots l); [done|by destruct T; split|rewrite R1; lia|done..].
Qed.

End Execute.

(** ** A fresh wheel *)

Lemma table_empty n q : forall i : nat, (i < n)%nat -> tailq (init_table n q) (slot_head (Z.of_nat i)) [].
Proof.
  induction n as [|n IH]; intros i Hi; [lia|]. cbn [init_table].
  destruct (decide (i = n)) as [->|Hne]; [apply tq_init|].
  assert (Hh : slot_head (Z.of_nat i) ≠ slot_head (Z.of_nat n)) by (intros E; by apply slot_head_inj in E).
  destruct (IH i ltac:(lia)) as [H1 H2 H3 H4]. unfold TAILQ_INIT. simpl in H1, H2.
  split; simpl; [| |done|done]; autorewrite with queue; rewrite decide_False by congruence; done.
Qed.

Lemma setup_pool fuel ms s :
  teventp_init s = false ->
  exists m, timing_wheel_setup fuel ms s = Some (Returns m) /\
    pool_rel (teventp m) [] [] (dom (events (world (teventp m)))).
Proof.
  intros Hi. unfold timing_wheel_setup, timeout_event_pool_create. cbn [teventp_init on_world]. rewrite Hi.
  destruct (create_rel (teventp (on_world (on_metrics (fun _ => ms)) s)) 0
    (dom (events (world (teventp s))))) as [H _]; [done|unfold UINT32_MAX; lia|].
  destruct fuel; (eexists; split; [reflexivity|exact H]).
Qed.

Lemma wheel_create_wf clk q tick cap ntick m free :
  pool_rel (teventp m) free [] (dom (events (world (teventp m)))) ->
  is_intvl tick = true -> 0 < tp tick <= INT64_MAX -> 0 < cap <= UINT32_MAX ->
  exists tw q', timing_wheel_create clk q tick cap ntick true true = Some (tw, q') /\
    wheel_wf (WState m q' tw 0 []) (replicate (Z.to_nat cap) []) [].
Proof.
  intros Hp Hi Ht Hc. unfold timing_wheel_create. simpl. rewrite (proj2 (Z.eqb_neq _ _)) by lia.
  do 2 eexists. split; [done|].
  assert (E : concat (replicate (Z.to_nat cap) (@nil positive)) = []).
  { apply concat_nil. intros j l [-> _]%lookup_replicate. done. }
  split; simpl; rewrite ?E.
  - unfold zlen. rewrite length_replicate. lia.
  - lia.
  - lia.
  - unfold timeout_ns. rewrite Hi. unfold INT64_MAX in *. rewrite u64_small by lia. lia.
  - intros i l [-> Hi']%lookup_replicate. by apply table_empty.
  - apply NoDup_nil_2.
  - by exists free.
  - intros i l p [-> _]%lookup_replicate Hp'. by apply elem_of_nil in Hp'.
  - intros p Hp'. by apply elem_of_nil in Hp'.
  - done.
Qed.

(** ** Properties *)

Lemma ticks_least tw d :
  0 <= tp d -> 0 < tick_ns tw ->
  tp d <= ticks tw d * tick_ns tw < tp d + tick_ns tw.
Proof.
  intros Hd Ht. unfold ticks. case_zcmp; [lia|].
  pose proof (Z.div_mod (tp d - 1) (tick_ns tw)). pose proof (Z.mod_pos_bound (tp d - 1) (tick_ns tw)). nia.
Qed.

(** C13: in a wheel whose callbacks do not touch it (every callback returns the wheel
    as it was), inserting an event with an interval delay fails, and leaves the slots as
    they were, exactly when no event can be borrowed, the delay is longer than the wheel, or
    a recurring event has no delay.  Otherwise, [k] being the delay in ticks rounded up,
    the event fires in the tick after [k] ticks and not before: through the first [k]
    ticks it stays in its slot with what the user gave and is not among the events fired;
    then its slot is the current one, and the next tick calls the events of that slot.
    After any number of those [k] ticks it can be removed: that takes it, and only it,
    out of its slot and calls nothing; removed at once, the slots are as before. *)
Theorem wheel_schedule (clocks : nat -> clock) (callback : Z -> Z -> wstate -> option wstate)
    (s : wstate) (slots : list (list positive)) (delay : timeout) (recur : bool) (cb : option Z)
    (arg : Z) (fuel : nat) :
  (forall f d s, callback f d s = Some s) ->
  wheel_wf s slots [] -> is_intvl delay = true -> 0 <= tp delay <= INT64_MAX ->
  (length (concat slots) < fuel)%nat ->
  let k := ticks (wheel s) delay in
  let i := Z.to_nat ((curr (wheel s) + k) mod cap (wheel s)) in
  tp delay <= k * tick_ns (wheel s) < tp delay + tick_ns (wheel s) /\
  exists r0 m r s1, timeout_event_borrow (wmod s) = Some (r0, m) /\
    timing_wheel_insert clocks s delay recur cb arg = Some (r, s1) /\
    (r = None <-> r0 = None \/ cap (wheel s) <= k \/ (recur = true /\ k = 0)) /\
    calls s1 = calls s /\
    match r with
    | None => wheel_wf s1 slots []
    | Some p =>
        p ∉ concat slots /\
        (forall j, 0 <= j <= k -> exists s2 slots2 fired a b s3,
          turn clocks callback fuel (Z.to_nat j) s1 = Some s2 /\ wheel_wf s2 slots2 [] /\
          curr (wheel s2) = (curr (wheel s) + j) mod cap (wheel s) /\
          calls s2 = calls s ++ concat (map (call_of s1) fired) /\ p ∉ fired /\
          slots2 !! i = Some (a ++ p :: b) /\ info s2 p = Some (cb, arg, recur, delay) /\
          timing_wheel_remove s2 p = Some s3 /\ wheel_wf s3 (<[i := a ++ b]> slots2) [] /\
          p ∉ concat (<[i := a ++ b]> slots2) /\ calls s3 = calls s2 /\
          (j = k -> exists s4, _process_tick clocks callback fuel false s2 = Some s4 /\
             calls s4 = calls s2 ++ concat (map (call_of s2) (a ++ p :: b)))) /\
        (exists s2, timing_wheel_remove s1 p = Some s2 /\ wheel_wf s2 slots [] /\ calls s2 = calls s)
    end.
Proof.
  intros quiet Hwf Hi Hd Hfu k i. split; [apply ticks_least; [lia|apply Hwf]|].
  destruct (insert_wf clocks s slots [] delay recur cb arg Hwf Hi Hd)
    as (r0 & m & r & s1 & E0 & E1 & Hr & _ & (Fc & Fr & _) & C1 & _ & H1). rewrite app_nil_r in H1.
  fold k in Hr, H1. fold i in H1. exists r0, m, r, s1. do 4 (split; [done|]). destruct r as [p|]; [|done].
  destruct H1 as (Hp & Hinfo & H1). split; [done|].
  destruct (offset_ticks (wheel s) (fun _ => None) delay Hi Hd (ww_tick _ _ _ Hwf)) as (_ & Hk & _).
  fold k in Hk. assert (Hkc : k < cap (wheel s)).
  { destruct (Z_lt_le_dec k (cap (wheel s))); [done|]. destruct Hr as [_ Hr].
    discriminate Hr. by right; left. }
  destruct (absolute_at s slots [] k Hwf ltac:(lia)) as (_ & l0 & Hl0). fold i in Hl0.
  assert (E : push_slot i p slots = <[i := l0 ++ [p]]> slots) by (unfold push_slot; by rewrite Hl0).
  apply lookup_lt_Some in Hl0 as Hlt. pose proof (concat_push i p slots) as Hlen.
  rewrite E in H1, Hlen. unfold zlen in Hlen. split.
  - intros j Hj.
    assert (Hsl : <[i := l0 ++ [p]]> slots !! i = Some (l0 ++ [p])) by (by apply list_lookup_insert_eq).
    destruct (scheduled clocks callback quiet (Z.to_nat j) (Z.to_nat (k - j)) fuel s1 _ p (l0 ++ [p]) H1)
      as (s2 & slots2 & fired & a & b & s3 & E2 & H2 & Hc2 & C2 & Hf2 & Hs2 & I2 & E3 & H3 & Hn3 & C3 & Hnext);
      [lia|lia| |set_solver|]; rewrite Fc, Fr in *;
      replace (curr (wheel s) + Z.of_nat (Z.to_nat j + Z.to_nat (k - j))) with (curr (wheel s) + k) in * by lia;
      [done|]. fold i in Hs2, H3, Hn3. rewrite C1 in C2. rewrite Hinfo in I2. rewrite Z2Nat.id in Hc2 by lia.
    exists s2, slots2, fired, a, b, s3. split_and!; try done. intros ->. apply Hnext. lia.
  - destruct (remove_wf s1 _ p i l0 [] H1) as (s2 & E2 & H2 & _ & _ & _ & C2); [by apply list_lookup_insert_eq|].
    exists s2. split; [done|]. split; [|congruence]. rewrite app_nil_r, list_insert_insert_eq in H2.
    by rewrite list_insert_id in H2.
Qed.

(** A wheel of four 10 ns slots with addresses 7, 8 and 9 for its events, and a
    clock that advances 5 ns per reading for a while. *)
Definition module0 : wheel_module :=
  WheelModule (PState qmem_empty (Pool 1 0 0 0 false)
    (TwWorld ∅ [Some 7%positive; Some 8%positive; Some 9%positive] None)) false false.

Definition clock5 (n : nat) : clock := fun _ => Some (Timespec 0 (Z.min (5 * Z.of_nat n) 1000)).

Lemma wheel4 : exists m tw q,
  timing_wheel_setup 0 None module0 = Some (Returns m) /\
  timing_wheel_create (clock5 0) qmem_empty (timeout_set_ns 10) 4 2 true true = Some (tw, q) /\
  wheel_wf (WState m q tw 0 []) [[]; []; []; []] [].
Proof.
  destruct (setup_pool 0 None module0 eq_refl) as (m & E & H).
  destruct (wheel_create_wf (clock5 0) qmem_empty (timeout_set_ns 10) 4 2 m [] H) as (tw & q & E' & H');
    [reflexivity|vm_compute; split; congruence|vm_compute; split; congruence|]. by exists m, tw, q.
Defined.

Lemma wheel_schedule_witness :
  exists s s1 p s2 s3 s4 s5,
    timing_wheel_insert clock5 s (timeout_set_ns 25) false (Some 3) 4 = Some (Some p, s1) /\
    turn clock5 (fun _ _ s => Some s) 1 2 s1 = Some s2 /\ timing_wheel_remove s2 p = Some s3 /\
    turn clock5 (fun _ _ s => Some s) 1 3 s1 = Some s4 /\
    _process_tick clock5 (fun _ _ s => Some s) 1 false s4 = Some s5.
Proof.
  destruct wheel4 as (m & tw & q & E1 & E2 & Hwf). injection E1 as <-. injection E2 as <- <-.
  match type of Hwf with wheel_wf ?st _ _ => exists st;
    destruct (wheel_schedule clock5 (fun _ _ s => Some s) st [[]; []; []; []] (timeout_set_ns 25)
      false (Some 3) 4 1) as (_ & r0 & m & r & s1 & H0 & H1 & Hr & _ & H) end;
    [reflexivity|exact Hwf|reflexivity|vm_compute; split; congruence|simpl; lia|].
  injection H0 as <- <-. destruct r as [p|].
  - destruct H as (_ & H & _).
    destruct (H 2) as (s2 & _ & _ & _ & _ & s3 & H2 & _ & _ & _ & _ & _ & _ & H3 & _); [vm_compute; split; congruence|].
    destruct (H 3) as (s4 & sl4 & fi4 & a4 & b4 & s4' & H4 & _ & _ & _ & _ & _ & _ & _ & _ & _ & _ & H5);
      [vm_compute; split; congruence|]. destruct (H5 eq_refl) as (s5 & H6 & _).
    exists s1, p, s2, s3, s4, s5. split; [exact H1|]. split; [exact H2|]. split; [exact H3|].
    split; [exact H4|exact H6].
  - exfalso. destruct Hr as [Hr _]. destruct (Hr eq_refl) as [Hx|[Hx|[Hx _]]];
      [discriminate Hx|vm_compute in Hx; congruence|discriminate Hx].
Defined.

(** C14: in a wheel whose callbacks do not touch it (every callback returns the wheel
    as it was), one tick, in either mode, ends; it calls the callbacks of
    exactly the events in the current slot, in the order of their insertion and
    once each, counts them, and leaves the slots as the list function [run_slot]
    says: every event of the slot is taken out, and unless the wheel is being
    flushed a recurring one is appended to the slot its delay ahead; the events
    taken out for good are returned to the pool. *)
Theorem wheel_tick (clocks : nat -> clock) (callback : Z -> Z -> wstate -> option wstate)
    (s : wstate) (slots : list (list positive)) (endmode : bool) (fuel : nat) :
  (forall f d s, callback f d s = Some s) ->
  wheel_wf s slots [] -> (length (concat slots) <= fuel)%nat ->
  exists l s', slots !! Z.to_nat (curr (wheel s)) = Some l /\
    _process_tick clocks callback fuel endmode s = Some s' /\
    calls s' = calls s ++ concat (map (call_of s) l) /\
    u64 (nprocess (wheel s')) = u64 (nprocess (wheel s) + zlen l) /\
    wheel_wf s' (run_slot (curr (wheel s)) (cap (wheel s)) (again endmode s) l slots) [] /\
    nused (ctl (teventp (wmod s'))) =
      zlen (concat (run_slot (curr (wheel s)) (cap (wheel s)) (again endmode s) l slots)) /\
    nevent (wheel s') = nused (ctl (teventp (wmod s'))).
Proof.
  intros quiet Hwf Hfu.
  destruct (process_tick_wf clocks callback quiet endmode s slots fuel Hwf Hfu)
    as (l & s' & Hl & E & H & _ & P & C & _).
  exists l, s'. do 5 (split; [done|]). destruct (ww_pool _ _ _ H) as (free & Hp).
  rewrite app_nil_r in Hp. rewrite (pr_nused _ _ _ _ Hp), (ww_nevent _ _ _ H). done.
Qed.

Lemma wheel_tick_witness :
  exists s s', _process_tick clock5 (fun _ _ s => Some s) 0 false s = Some s' /\
    nused (ctl (teventp (wmod s'))) = 0.
Proof.
  destruct wheel4 as (m & tw & q & E1 & E2 & Hwf). injection E1 as <-. injection E2 as <- <-.
  match type of Hwf with wheel_wf ?st _ _ => exists st;
    destruct (wheel_tick clock5 (fun _ _ s => Some s) st [[]; []; []; []] false 0)
      as (l & s' & Hl & H1 & _ & _ & _ & H2 & _) end;
    [reflexivity|exact Hwf|simpl; lia|].
  exists s'. split; [exact H1|]. rewrite H2. injection Hl as <-. reflexivity.
Defined.

(** Flushing a wheel ends after one turn, calls the callback of
    every event in it once, slot by slot from the current one on, recurring or
    not, and leaves every slot empty, no event counted, every event back in the
    pool and the current slot where it was. *)
Theorem wheel_flush (clocks : nat -> clock) (callback : Z -> Z -> wstate -> option wstate)
    (s : wstate) (slots : list (list positive)) (fuel efuel : nat) :
  (forall f d s, callback f d s = Some s) ->
  wheel_wf s slots [] -> (Z.to_nat (cap (wheel s)) <= fuel)%nat ->
  (length (concat slots) <= efuel)%nat ->
  exists s' slots', timing_wheel_flush clocks callback fuel efuel s = Some s' /\
    wheel_wf s' slots' [] /\ concat slots' = [] /\ nevent (wheel s') = 0 /\
    nused (ctl (teventp (wmod s'))) = 0 /\ curr (wheel s') = curr (wheel s) /\
    calls s' = calls s ++ concat (map (call_of s)
      (concat (drop (Z.to_nat (curr (wheel s))) slots ++ take (Z.to_nat (curr (wheel s))) slots))).
Proof.
  intros quiet Hwf Hfu Hef. pose proof (ww_curr _ _ _ Hwf) as Hc. pose proof (ww_cap _ _ _ Hwf) as Hcap.
  set (rot := rotation (curr (wheel s)) slots).
  assert (Hlen : length rot = length slots)
    by (unfold rot, rotation, zlen in *; rewrite length_app, length_drop, length_take; lia).
  unfold zlen in Hcap. unfold timing_wheel_flush.
  destruct (flush_loop_wf clocks callback quiet (curr (wheel s)) rot efuel (pred (length rot)) 0 fuel s slots)
    as (s' & slots' & E & H & Hn & Hcur & C).
  - split; [done|done|unfold zlen; lia|by rewrite Z.add_0_r, Z.mod_small|].
    intros i l Hi. apply lookup_lt_Some in Hi as Hlt.
    unfold rot in Hi. rewrite rotation_lookup in Hi by (unfold zlen; lia). unfold zlen in Hi.
    by rewrite Hcap in Hi.
  - lia.
  - lia.
  - done.
  - exists s', slots'. do 3 (split; [done|]). rewrite (ww_nevent _ _ _ H), Hn.
    split; [done|]. destruct (ww_pool _ _ _ H) as (free & Hp). rewrite Hn in Hp.
    split; [by rewrite (pr_nused _ _ _ _ Hp)|]. split; [done|exact C].
Qed.

Lemma wheel_flush_witness :
  exists s s', timing_wheel_flush clock5 (fun _ _ s => Some s) 4 0 s = Some s' /\ nevent (wheel s') = 0.
Proof.
  destruct wheel4 as (m & tw & q & E1 & E2 & Hwf). injection E1 as <-. injection E2 as <- <-.
  match type of Hwf with wheel_wf ?st _ _ => exists st;
    destruct (wheel_flush clock5 (fun _ _ s => Some s) st [[]; []; []; []] 4 0)
      as (s' & slots' & H1 & _ & _ & H2 & _) end;
    [reflexivity|exact Hwf|simpl; lia|simpl; lia|].
  exists s'. split; [exact H1|exact H2].
Defined.

(** C15: take a started or stopped wheel with a limit of [max_ntick] > 0 ticks whose
    callbacks do not touch it, a clock that answers (readings within int64 and less than
    2^52 ns apart), and a due time that stays within int64 over [max_ntick] ticks.
    timing_wheel_execute ends, and makes [n] ticks: it calls the callbacks of the events
    of the [n] slots from the current one on, slot by slot, and leaves the slots as these
    [n] ticks leave them ([spin]); [n] is 0 if the wheel is stopped; otherwise before each
    of the [n] ticks the due time had come, and after them either the limit is reached or
    the clock is before the due time.  A tick moves the due time on by a tick less the
    time spent in it, and leaves it when that was a tick or more, so it never moves back
    and never by more than a tick per tick. *)
Theorem wheel_execute (clocks : nat -> clock) (callback : Z -> Z -> wstate -> option wstate)
    (time : nat -> Z) (s : wstate) (slots : list (list positive)) (fuel efuel : nat) :
  (forall f d s, callback f d s = Some s) ->
  (forall n, exists t, clocks n CLOCK_MONOTONIC_RAW = Some t /\ ts_ok t /\ ns_of t = time n /\
     time n <= INT64_MAX /\ Z.abs (time (S n) - time n) < 2 ^ 52) ->
  wheel_wf s slots [] -> 0 < max_ntick (wheel s) <= UINT32_MAX ->
  due_ok s (max_ntick (wheel s)) -> (Z.to_nat (max_ntick (wheel s)) <= fuel)%nat ->
  (length (concat slots) <= efuel)%nat ->
  let due_at n := due_after time n (tp (tick (wheel s))) (reads s) (tp (due (wheel s))) in
  exists n s', timing_wheel_execute clocks callback fuel efuel s = Some s' /\
    let '(fired, slots') := spin n (curr (wheel s)) (cap (wheel s)) (again false s) slots in
    wheel_wf s' slots' [] /\ calls s' = calls s ++ concat (map (call_of s) fired) /\
    curr (wheel s') = (curr (wheel s) + Z.of_nat n) mod cap (wheel s) /\
    Z.of_nat n <= max_ntick (wheel s) /\ (is_set (due (wheel s)) = false -> n = O) /\
    (forall i, (i < n)%nat -> due_at i <= time (reads s + 3 * i)%nat) /\
    (is_set (due (wheel s)) = true ->
       Z.of_nat n = max_ntick (wheel s) \/ time (reads s + 3 * n)%nat < due_at n) /\
    tp (due (wheel s')) = due_at n /\
    tp (due (wheel s)) <= due_at n <= tp (due (wheel s)) + Z.of_nat n * tp (tick (wheel s)).
Proof.
  intros quiet Hclk Hwf Hm Hd Hfu Hef due_at.
  destruct (execute_loop_wf clocks callback quiet time Hclk efuel (Z.to_nat (max_ntick (wheel s))) fuel 0 s slots Hwf)
    as (n & s1 & E & X); rewrite ?Z2Nat.id in * by lia; try lia; try done.
  unfold timing_wheel_execute. rewrite E. cbn [mbind option_bind]. exists n. eexists. split; [done|].
  destruct X as [X1 X2 X3 X4 X5 X6 X7 X8]. destruct (spin n _ _ _ _) as [fired slots'].
  split_and!; try done.
  - eapply wf_same; [..|exact X1]; try done. apply X1.
  - intros Hset. destruct (decide (Z.of_nat n = max_ntick (wheel s))); [by left|right]. apply X8; [done|lia].
  - apply due_after_range, Hd.
  - apply due_after_range, Hd.
Qed.

(** A clock that advances 50 ns per reading: with a tick of 10 ns the wheel is always
    late, and ticks up to its limit. *)
Definition clock50 (n : nat) : clock := fun _ => Some (Timespec 0 (Z.min (50 * Z.of_nat n) 5000)).

(** An event one tick ahead in a wheel that may tick twice. *)
Lemma wheel_execute_witness :
  exists s s', timing_wheel_execute clock50 (fun _ _ s => Some s) 2 1 s = Some s' /\
    calls s = [] /\ calls s' = [(3, 4)] /\ curr (wheel s') = 2.
Proof.
  destruct wheel4 as (m & tw & q & E1 & E2 & Hwf). injection E1 as <-. injection E2 as <- <-.
  match type of Hwf with wheel_wf ?st _ _ =>
    destruct (insert_wf clock50 st [[]; []; []; []] [] (timeout_set_ns 10) false (Some 3) 4 Hwf)
      as (r0 & m & r & s1 & _ & Ei & _ & _ & _ & _ & _ & H1); [reflexivity|vm_compute; split; congruence|] end.
  injection Ei as <- <-. destruct H1 as (_ & _ & H1). clear Hwf.
  match type of H1 with wheel_wf ?st _ _ => exists (timing_wheel_start clock50 st);
    destruct (wheel_execute clock50 (fun _ _ s => Some s) (fun n => Z.min (50 * Z.of_nat n) 5000)
      (timing_wheel_start clock50 st) [[]; [7%positive]; []; []] 2 1)
      as (n & s' & E & H) end.
  - reflexivity.
  - intros n. exists (Timespec 0 (Z.min (50 * Z.of_nat n) 5000)).
    unfold ts_ok, ns_of, NSEC_PER_SEC, INT64_MAX. simpl. split; [reflexivity|lia].
  - eapply wf_same; [..|exact H1]; try reflexivity. vm_compute. split; congruence.
  - vm_compute. split; congruence.
  - vm_compute. repeat split; congruence.
  - apply Nat.leb_le. vm_compute. reflexivity.
  - apply Nat.leb_le. vm_compute. reflexivity.
  - assert (Hn : n = 2%nat).
    { destruct (spin n _ _ _ _) as [fired slots'].
      destruct H as (_ & _ & _ & Hle & _ & _ & Hend & _). change (max_ntick _) with 2 in *.
      destruct n as [|[|[|n]]]; [..|lia]; try reflexivity;
        (destruct (Hend eq_refl) as [Hx|Hx]; [discriminate Hx|vm_compute in Hx; discriminate Hx]). }
    subst n. exists s'. split; [exact E|]. split; [reflexivity|].
    destruct H as (_ & Hc & Hcu & _). split; [exact Hc|exact Hcu].
Defined.
