(* ===== verification/WheelReentry.v ===== *)
(** * Callbacks that use the wheel (src/time/cc_wheel.c)

    [Wheel] takes callbacks that leave the wheel alone.  Here a callback may insert
    events, as one that arms its timer again does: [script f d] are the insertions
    the function [f] makes when it is called on [d].  As long as their delays are
    not zero, a tick still fires exactly the events that were in its slot.

    A delay of zero is the boundary: the event goes to the slot that is being
    processed, and whether it fires in this tick or a whole turn later depends on
    whether the event whose callback inserts it is the last of the slot
    ([zero_delay_fires], [zero_delay_waits]).  A callback that removes the next
    event of its slot leaves the loop with a stale pointer ([remove_next_stale]). *)

From S2P Require Import Prelude Metric Queue Tailq Pool Timer Wheel.
Local Open Scope Z_scope.

(** The arguments of timing_wheel_insert. *)
Record insertion := Insertion {
  in_delay : timeout;
  in_recur : bool;
  in_cb : option Z;
  in_arg : Z;
}.

Section Reentry.
Variable clocks : nat -> clock.
Variable script : Z -> Z -> list insertion.

Fixpoint run_insertions (l : list insertion) (s : wstate) : option wstate :=
  match l with
  | [] => Some s
  | i :: l => '(_, s) ← timing_wheel_insert clocks s (in_delay i) (in_recur i) (in_cb i) (in_arg i); run_insertions l s
  end.

Definition inserting (f d : Z) (s : wstate) : option wstate := run_insertions (script f d) s.

(** An interval that is not zero. *)
Definition in_ok (i : insertion) : Prop := is_intvl (in_delay i) = true /\ 0 < tp (in_delay i) <= INT64_MAX.

Implicit Types (s : wstate) (slots : list (list positive)) (held : list positive).

(** What insertions do to a wheel whose current slot is [c]: slots grow at their
    end, and the current one does not. *)
Definition grows (c : nat) slots slots' : Prop :=
  length slots' = length slots /\
  forall i l, slots !! i = Some l -> exists m, slots' !! i = Some (l ++ m) /\ (i = c -> m = []).

Lemma grows_refl c slots : grows c slots slots.
Proof. split; [done|]. intros i l Hl. exists []. by rewrite app_nil_r. Qed.

Lemma grows_trans c slots1 slots2 slots3 : grows c slots1 slots2 -> grows c slots2 slots3 -> grows c slots1 slots3.
Proof.
  intros [L1 G1] [L2 G2]. split; [congruence|]. intros i l Hl. destruct (G1 i l Hl) as (m & Hm & E).
  destruct (G2 i _ Hm) as (m' & Hm' & E'). exists (m ++ m'). rewrite app_assoc. split; [done|].
  intros Hi. by rewrite E, E'.
Qed.

Lemma grows_push c j p slots : j <> c -> grows c slots (push_slot j p slots).
Proof.
  intros Hj. split; [unfold push_slot; destruct (slots !! j); [apply length_insert|done]|].
  intros i l Hl. unfold push_slot. destruct (slots !! j) as [k|] eqn:Ek; [|exists []; by rewrite app_nil_r].
  destruct (decide (i = j)) as [->|].
  - simplify_eq. exists [p]. rewrite list_lookup_insert_eq by (by eapply lookup_lt_Some). by split.
  - exists []. rewrite list_lookup_insert_ne by done. by rewrite app_nil_r.
Qed.

Lemma concat_slot slots p : p ∈ concat slots -> exists i l, slots !! i = Some l /\ p ∈ l.
Proof.
  rewrite list_elem_of_In, in_concat. intros (l & Hl & Hp). rewrite <- list_elem_of_In in Hl. apply list_elem_of_lookup in Hl as [i Hi].
  exists i, l. by rewrite list_elem_of_In.
Qed.

Lemma grows_elem c slots slots' p : grows c slots slots' -> p ∈ concat slots -> p ∈ concat slots'.
Proof.
  intros [_ G] (i & l & Hl & Hp)%concat_slot. destruct (G i l Hl) as (m & Hm & _).
  apply (concat_elem slots' i (l ++ m)); [done|]. apply elem_of_app. by left.
Qed.

(** What the events [qs] were given is kept, and so is the wheel but its events. *)
Record kept (qs : list positive) (s s' : wstate) : Prop := {
  kp_info : forall q, q ∈ qs -> info s' q = info s q;
  kp_wheel : same_wheel s s';
}.

Lemma kept_events_trans qs qs' s1 s2 s3 : kept qs s1 s2 -> kept qs' s2 s3 -> qs ⊆ qs' -> kept qs s1 s3.
Proof.
  intros [I1 (A1 & A2 & A3 & A4 & A5 & A6)] [I2 (B1 & B2 & B3 & B4 & B5 & B6)] Hq. split; [|repeat split; congruence].
  intros q Hin. rewrite I2 by (by apply Hq). by apply I1.
Qed.

Lemma delay_ahead s slots held d :
  wheel_wf s slots held -> is_intvl d = true -> 0 < tp d <= INT64_MAX -> 0 < ticks (wheel s) d.
Proof.
  intros Hwf Hi Hd. destruct (offset_ticks (wheel s) (fun _ => None) d) as (_ & _ & H); [done|lia|apply Hwf|]. apply H. lia.
Qed.

(** The slot [k] ticks ahead is another one. *)
Lemma other_slot s slots held k :
  wheel_wf s slots held -> 0 < k < cap (wheel s) ->
  Z.to_nat ((curr (wheel s) + k) mod cap (wheel s)) <> Z.to_nat (curr (wheel s)).
Proof.
  intros Hwf Hk E. pose proof (ww_curr _ _ _ Hwf). pose proof (ahead_ne (curr (wheel s)) k (cap (wheel s))).
  pose proof (Z.mod_pos_bound (curr (wheel s) + k) (cap (wheel s))). lia.
Qed.

Lemma run_insertions_wf l : Forall in_ok l -> forall s slots held,
  wheel_wf s slots held ->
  exists s' slots', run_insertions l s = Some s' /\ wheel_wf s' slots' held /\
    grows (Z.to_nat (curr (wheel s))) slots slots' /\ kept (concat slots ++ held) s s' /\
    calls s' = calls s /\ nprocess (wheel s') = nprocess (wheel s).
Proof.
  induction 1 as [|i l [Hi Hd] Hall IH]; intros s slots held Hwf; cbn [run_insertions].
  { exists s, slots. split_and!; try done; apply grows_refl. }
  destruct (insert_wf clocks s slots held (in_delay i) (in_recur i) (in_cb i) (in_arg i) Hwf Hi ltac:(lia))
    as (r0 & m & r & s1 & _ & -> & Hr & I1 & F1 & C1 & P1 & H1). cbn [mbind option_bind].
  assert (Hstep : exists slots1, wheel_wf s1 slots1 held /\ grows (Z.to_nat (curr (wheel s))) slots slots1).
  { destruct r as [p|]; [|by exists slots; split; [|apply grows_refl]]. destruct H1 as (_ & _ & H1). eexists. split; [exact H1|].
    apply grows_push. apply (other_slot s slots held); [done|]. pose proof (delay_ahead _ _ _ _ Hwf Hi Hd).
    destruct (Z_lt_le_dec (ticks (wheel s) (in_delay i)) (cap (wheel s))); [done|]. destruct Hr as [_ Hr]. discriminate Hr. by right; left. }
  destruct Hstep as (slots1 & W1 & G1). destruct (IH s1 slots1 held W1) as (s2 & slots2 & E & W2 & G2 & K2 & C2 & P2).
  pose proof F1 as (_ & Ec & _). rewrite Ec in G2. exists s2, slots2. split; [done|]. split; [done|].
  split; [by eapply grows_trans|]. split; [|split; congruence].
  eapply kept_events_trans; [split; [exact I1|exact F1]|exact K2|]. intros q. rewrite !elem_of_app. intros [Hq|]; [left|by right].
  by eapply grows_elem.
Qed.

Hypothesis script_ok : forall f d, Forall in_ok (script f d).

Lemma fire_re s slots held e :
  wheel_wf s slots held ->
  exists s' slots', fire inserting s e = Some s' /\ wheel_wf s' slots' held /\
    grows (Z.to_nat (curr (wheel s))) slots slots' /\ kept (concat slots ++ held) s s' /\
    calls s' = calls s ++ match ev_cb e with Some f => [(f, ev_data e)] | None => [] end /\
    nprocess (wheel s') = nprocess (wheel s).
Proof.
  intros Hwf. unfold fire. destruct (ev_cb e) as [f|].
  - set (s0 := WState _ _ _ _ _). assert (W0 : wheel_wf s0 slots held) by (eapply wf_same; [..|exact Hwf]; try done; apply Hwf).
    destruct (run_insertions_wf _ (script_ok f (ev_data e)) s0 slots held W0) as (s' & slots' & E & W & G & K & C & P).
    destruct K as [K1 K2]. exists s', slots'. split_and!; [done..|by split|done|done].
  - exists s, slots. rewrite app_nil_r. split_and!; try done; apply grows_refl.
Qed.

(** The end of the loop's body: the event goes to its next slot or to the pool. *)
Lemma settle_re endmode s slots t e :
  wheel_wf s slots [t] -> evs s !! t = Some e ->
  (ev_recur e = true -> is_intvl (ev_delay e) = true /\ 0 < tp (ev_delay e) <= INT64_MAX /\
     ticks (wheel s) (ev_delay e) < cap (wheel s)) ->
  exists s' slots', (if negb endmode && ev_recur e then
      '(offset, s) ← offset_of clocks s (ev_delay e);
      o ← absolute (wheel s) offset;
      _timing_wheel_insert (set_event s t (with_offset o)) t
    else give_back s (Some t)) = Some s' /\ wheel_wf s' slots' [] /\
    grows (Z.to_nat (curr (wheel s))) slots slots' /\ tick_frame s s' /\ calls s' = calls s /\
    nprocess (wheel s') = nprocess (wheel s) /\
    forall k, again endmode s t = Some k ->
      exists m, slots' !! Z.to_nat ((curr (wheel s) + k) mod cap (wheel s)) = Some m /\ t ∈ m.
Proof.
  intros Hwf He Hrec. unfold again, info. rewrite He. simpl. destruct (negb endmode && ev_recur e) eqn:Er.
  - apply andb_prop in Er as [Em Er]. destruct endmode; [done|]. rewrite Er. destruct (Hrec Er) as (Hi & Hd & Hk).
    pose proof (delay_ahead _ _ _ _ Hwf Hi Hd) as Hk0.
    destruct (offset_ticks (wheel s) (clocks (reads s)) (ev_delay e)) as (Ho & _); [done|lia|apply Hwf|].
    unfold offset_of. rewrite Hi, Ho. cbn [mbind option_bind].
    destruct (enter_wf s slots [] t e (ticks (wheel s) (ev_delay e)) Hwf He ltac:(lia) Hrec) as (s' & -> & W & F & P & C).
    eexists s', _. split; [done|]. split; [exact W|]. split; [apply grows_push, (other_slot s slots [t]); [done|lia]|].
    split_and!; [done..|]. intros k [= <-]. destruct (absolute_at s slots [t] _ Hwf (conj (Z.lt_le_incl _ _ Hk0) Hk)) as (_ & l & Hl).
    unfold push_slot. rewrite Hl, list_lookup_insert_eq by (by eapply lookup_lt_Some). exists (l ++ [t]). split; [done|set_solver].
  - destruct (leave_wf s slots t Hwf) as (s' & -> & W & F & P & C). exists s', slots. split_and!; try done; [apply grows_refl|].
    intros k Hk. destruct (ev_recur e), endmode; done.
Qed.

(** One event fires: it leaves the slot, its callback inserts, and it goes to its
    next slot or back to the pool. *)
Lemma process_event_re endmode s slots t rest :
  wheel_wf s slots [] -> slots !! Z.to_nat (curr (wheel s)) = Some (t :: rest) ->
  let c := Z.to_nat (curr (wheel s)) in
  exists s' slots', process_event clocks inserting endmode s t = Some s' /\ wheel_wf s' slots' [] /\
    grows c (<[c := rest]> slots) slots' /\ kept (concat (<[c := rest]> slots)) s s' /\
    calls s' = calls s ++ call_of s t /\ nprocess (wheel s') = u64 (nprocess (wheel s) + 1) /\
    forall k, again endmode s t = Some k -> info s' t = info s t /\
      exists m, slots' !! Z.to_nat ((curr (wheel s) + k) mod cap (wheel s)) = Some m /\ t ∈ m.
Proof.
  intros Hwf Hl c. unfold process_event. set (s0 := count "timing_wheel_process" _).
  assert (W0 : wheel_wf s0 slots []) by (eapply wf_same; [..|exact Hwf]; try done; apply Hwf).
  destruct (unlink_wf s0 slots [] t _ [] rest W0 Hl) as (s1 & e & -> & W1 & Hs & E1 & F1 & _ & C1 & P1).
  cbn [mbind option_bind]. rewrite E1, (sl_event _ _ _ _ Hs). cbn [mbind option_bind].
  destruct (fire_re s1 _ _ e W1) as (s2 & slots2 & -> & W2 & G2 & K2 & C2 & P2). cbn [mbind option_bind].
  pose proof F1 as (_ & Ec & _). rewrite Ec in G2. change (curr (wheel s0)) with (curr (wheel s)) in G2. fold c in G2, K2.
  assert (I1 : forall q, info s1 q = info s q) by (intros q; unfold info; by rewrite E1).
  assert (K : kept (concat (<[c := rest]> slots) ++ [t]) s s2).
  { destruct K2 as [K2 F2]. destruct F1 as (A1 & A2 & A3 & A4 & A5 & A6), F2 as (B1 & B2 & B3 & B4 & B5 & B6).
    split; [intros q Hq; rewrite K2 by exact Hq; apply I1|repeat split; simpl in *; congruence]. }
  assert (Hinfo : info s t = Some (ev_cb e, ev_data e, ev_recur e, ev_delay e)).
  { unfold info. change (evs s) with (evs s0). by rewrite (sl_event _ _ _ _ Hs). }
  assert (Hi2 : info s2 t = info s t) by (apply K; set_solver).
  destruct (evs s2 !! t) as [e2|] eqn:E2; [|unfold info in Hi2 at 1; rewrite E2, Hinfo in Hi2; done]. cbn [mbind option_bind].
  assert (Ed : (ev_cb e2, ev_data e2, ev_recur e2, ev_delay e2) = (ev_cb e, ev_data e, ev_recur e, ev_delay e)).
  { unfold info in Hi2 at 1. rewrite E2, Hinfo in Hi2. by injection Hi2 as -> -> -> ->. }
  assert (Hcalls : calls s2 = calls s ++ call_of s t).
  { rewrite C2, C1. unfold call_of. rewrite Hinfo. by destruct (ev_cb e). }
  injection Ed as _ _ Er Edl. destruct (kp_wheel _ _ _ K) as (Fc & Fr & Ft & _).
  destruct (settle_re endmode s2 slots2 t e2 W2 E2) as (s3 & slots3 & -> & W3 & G3 & F3 & C3 & P3 & A3).
  { rewrite Er, Edl. intros Hr. destruct (sl_recur _ _ _ _ Hs Hr) as (? & ? & Htk). split; [done|]. split; [done|].
    unfold ticks in *. rewrite Ft, Fc. exact Htk. }
  rewrite Fr in G3. fold c in G3. exists s3, slots3. split; [done|]. split; [done|]. split; [by eapply grows_trans|].
  split; [|split; [by rewrite C3|split; [by rewrite P3, P2, P1|]]].
  - eapply (kept_events_trans _ (concat (<[c := rest]> slots) ++ [t])); [|split; [intros q _; apply F3|apply F3]|set_solver].
    split; [|apply K]. intros q Hq. apply K. set_solver.
  - intros k Hk. split; [by rewrite (tf_info _ _ F3)|]. rewrite <- Fc, <- Fr. apply A3. revert Hk. unfold again, ticks.
    by rewrite Hi2, Ft.
Qed.

(** The same slot replaced on both sides. *)
Lemma grows_insert c l x slots slots' :
  grows c (<[c := l]> slots) slots' -> (c < length slots)%nat -> grows c (<[c := x]> slots) (<[c := x]> slots').
Proof.
  intros [L G] Hc. rewrite length_insert in L. split; [rewrite !length_insert; done|]. intros i k Hk.
  destruct (decide (i = c)) as [->|Hi].
  - rewrite list_lookup_insert_eq in Hk |- * by lia. simplify_eq. exists []. by rewrite app_nil_r.
  - rewrite list_lookup_insert_ne in Hk |- * by done. apply G. by rewrite list_lookup_insert_ne.
Qed.

Lemma concat_insert c l x slots q :
  slots !! c = Some l -> q ∈ concat (<[c := []]> slots) -> q ∈ concat (<[c := x]> slots).
Proof.
  intros Hc (i & k & Hi & Hq)%concat_slot. apply lookup_lt_Some in Hc. destruct (decide (i = c)) as [->|Hne].
  - rewrite list_lookup_insert_eq in Hi by done. simplify_eq. by apply not_elem_of_nil in Hq.
  - rewrite list_lookup_insert_ne in Hi by done. apply (concat_elem _ i k); [by rewrite list_lookup_insert_ne|done].
Qed.

Lemma call_info s s' t : info s' t = info s t -> call_of s' t = call_of s t.
Proof. unfold call_of. by intros ->. Qed.

Lemma again_info endmode s s' t :
  info s' t = info s t -> tick_ns (wheel s') = tick_ns (wheel s) -> again endmode s' t = again endmode s t.
Proof. unfold again, ticks. by intros -> ->. Qed.

Lemma process_loop_re endmode l : forall fuel s slots,
  wheel_wf s slots [] -> slots !! Z.to_nat (curr (wheel s)) = Some l -> (length l <= fuel)%nat ->
  let c := Z.to_nat (curr (wheel s)) in
  exists s' slots', process_loop clocks inserting fuel endmode (head l) s = Some s' /\ wheel_wf s' slots' [] /\
    grows c (<[c := []]> slots) slots' /\ kept (concat (<[c := []]> slots)) s s' /\
    calls s' = calls s ++ concat (map (call_of s) l) /\
    u64 (nprocess (wheel s')) = u64 (nprocess (wheel s) + zlen l) /\
    forall t k, t ∈ l -> again endmode s t = Some k -> info s' t = info s t /\
      exists m, slots' !! Z.to_nat ((curr (wheel s) + k) mod cap (wheel s)) = Some m /\ t ∈ m.
Proof.
  induction l as [|t l IH]; intros fuel s slots Hwf Hl Hfu c.
  - exists s, slots. replace (<[c := []]> slots) with slots by (by rewrite list_insert_id).
    destruct fuel; simpl; rewrite app_nil_r, zlen_nil, Z.add_0_r;
      (split_and!; try done; [apply grows_refl|intros t k []%not_elem_of_nil]).
  - destruct fuel as [|fuel]; [simpl in Hfu; lia|]. simpl in Hfu. cbn [head process_loop].
    assert (Hq : tailq (tq s) (slot_head (curr (wheel s))) (t :: l)).
    { pose proof (ww_queues _ _ _ Hwf _ _ Hl) as Hq. by rewrite Z2Nat.id in Hq by apply Hwf. }
    rewrite (tq_next _ _ [] t l Hq). clear Hq.
    destruct (process_event_re endmode s slots t l Hwf Hl) as (s1 & slots1 & -> & W1 & G1 & K1 & C1 & P1 & A1).
    fold c in G1, K1, Hl. cbn [mbind option_bind]. destruct (kp_wheel _ _ _ K1) as (Fc & Fr & Ft & _).
    apply lookup_lt_Some in Hl as Hlt.
    assert (Hl1 : slots1 !! c = Some l).
    { destruct G1 as [_ G1]. destruct (G1 c l) as (m & Hm & E); [by apply list_lookup_insert_eq|]. by rewrite Hm, E, app_nil_r. }
    destruct (IH fuel s1 slots1 W1) as (s2 & slots2 & E & W2 & G2 & K2 & C2 & P2 & A2); [by rewrite Fr|lia|].
    rewrite Fr, ?Fc in G2, K2, A2. fold c in G2, K2, A2.
    assert (Hin : forall q, q ∈ l -> info s1 q = info s q).
    { intros q Hq. apply K1, (concat_elem _ c l); [by apply list_lookup_insert_eq|done]. }
    pose proof (grows_insert c l [] slots slots1 G1 Hlt) as G1'.
    exists s2, slots2. split; [done|]. split; [done|]. split; [by eapply grows_trans|]. split_and!.
    + eapply kept_events_trans; [|exact K2|intros q; by apply grows_elem with (1 := G1')].
      split; [|apply K1]. intros q Hq. apply K1. by eapply concat_insert.
    + rewrite C2, C1, <- app_assoc. simpl. do 2 f_equal. f_equal. apply map_ext_in. intros q Hq.
      apply call_info, Hin. by apply list_elem_of_In.
    + rewrite P2, P1, zlen_cons. unfold u64. rewrite Zplus_mod_idemp_l. f_equal. lia.
    + intros t0 k [->|Ht0]%elem_of_cons Hk.
      * destruct (A1 k Hk) as (I1 & m & Hm & Htm). apply (again_range _ _ _ _ _ _ _ _ Hwf Hl) in Hk as Hkr; [|left].
        pose proof (other_slot s slots [] k Hwf Hkr) as Hne. fold c in Hne.
        assert (Hm' : <[c := []]> slots1 !! Z.to_nat ((curr (wheel s) + k) mod cap (wheel s)) = Some m)
          by (by rewrite list_lookup_insert_ne).
        split; [rewrite (kp_info _ _ _ K2); [done|by eapply concat_elem]|].
        destruct G2 as [_ G2]. destruct (G2 _ _ Hm') as (m' & ? & _). exists (m ++ m'). split; [done|set_solver].
      * rewrite <- (Hin t0 Ht0), <- Fc. apply A2; [done|]. by rewrite (again_info _ s s1) by auto.
Qed.

End Reentry.

(** ** Properties *)

(** C16: with callbacks that insert events into the wheel they are called from, at
    delays that are not zero, one tick ends and calls the callbacks of exactly the
    events that were in its slot when it began, in order and once each; the slot is
    empty afterwards, every other slot has what it had followed by events added,
    recurring events are in the slot their delay ahead with what they were given,
    and the wheel and its pool are well formed. *)
Theorem wheel_reentry (clocks : nat -> clock) (script : Z -> Z -> list insertion)
    (s : wstate) (slots : list (list positive)) (endmode : bool) (fuel : nat) :
  (forall f d, Forall in_ok (script f d)) -> wheel_wf s slots [] -> (length (concat slots) <= fuel)%nat ->
  let c := Z.to_nat (curr (wheel s)) in
  exists l s' slots', slots !! c = Some l /\
    _process_tick clocks (inserting clocks script) fuel endmode s = Some s' /\
    calls s' = calls s ++ concat (map (call_of s) l) /\
    u64 (nprocess (wheel s')) = u64 (nprocess (wheel s) + zlen l) /\
    wheel_wf s' slots' [] /\ slots' !! c = Some [] /\
    (forall i k, i <> c -> slots !! i = Some k -> exists m, slots' !! i = Some (k ++ m)) /\
    forall t k, t ∈ l -> again endmode s t = Some k -> info s' t = info s t /\
      exists m, slots' !! Z.to_nat ((curr (wheel s) + k) mod cap (wheel s)) = Some m /\ t ∈ m.
Proof.
  intros Hok Hwf Hfu c. destruct (curr_slot s slots [] Hwf) as (l & Hl & Hlen).
  destruct (process_loop_re clocks script Hok endmode l fuel s slots Hwf Hl ltac:(lia))
    as (s' & slots' & E & W & [_ G] & K & C & P & A). apply lookup_lt_Some in Hl as Hlt.
  exists l, s', slots'. pose proof (ww_queues _ _ _ Hwf _ _ Hl) as Hq. rewrite Z2Nat.id in Hq by apply Hwf.
  unfold _process_tick. rewrite (tq_first _ _ _ Hq). split_and!; try done.
  - destruct (G c []) as (m & Hm & Em); [by apply list_lookup_insert_eq|]. by rewrite Hm, Em.
  - intros i k Hi Hk. destruct (G i k) as (m & Hm & _); [by rewrite list_lookup_insert_ne|]. by exists m.
Qed.

(** The wheel of [wheel4], with the events of a list of insertions. *)
Definition wheel_with (l : list insertion) : option wstate :=
  m ← timing_wheel_setup 0 None module0;
  '(tw, q) ← timing_wheel_create (clock5 0) qmem_empty (timeout_set_ns 10) 4 2 true true;
  match m with Returns m => run_insertions clock5 l (WState m q tw 0 []) | Exits => None end.

Definition after (delay cb : Z) : insertion := Insertion (timeout_set_ns delay) false (Some cb) 0.

(** Function 1 inserts a call of function 2. *)
Definition one_two (delay f d : Z) : list insertion := if f =? 1 then [after delay 2] else [].

(** The calls made in [n] ticks. *)
Definition calls_after (l : list insertion) (callback : Z -> Z -> wstate -> option wstate) (n : nat) : option (list (Z * Z)) :=
  s ← wheel_with l; s ← turn clock5 callback 5 n s; Some (calls s).

Lemma wheel_reentry_witness :
  calls_after [after 5 1; after 5 3] (inserting clock5 (one_two 15)) 5 = Some [(1, 0); (3, 0); (2, 0)] /\
  exists s s' slots', (s ← wheel_with [after 5 1; after 5 3]; _advance_curr s) = Some s /\
    _process_tick clock5 (inserting clock5 (one_two 15)) 2 false s = Some s' /\ wheel_wf s' slots' [].
Proof.
  split; [reflexivity|]. destruct wheel4 as (m & tw & q & E1 & E2 & Hwf).
  assert (Hin : Forall in_ok [after 5 1; after 5 3]) by (repeat constructor; vm_compute; congruence).
  destruct (run_insertions_wf clock5 _ Hin _ _ [] Hwf) as (s0 & slots & E & W & _).
  destruct (advance_wf s0 slots [] W) as (s & Ea & Wa & _).
  assert (Hs : (s ← wheel_with [after 5 1; after 5 3]; _advance_curr s) = Some s).
  { unfold wheel_with. rewrite E1. cbn [mbind option_bind]. rewrite E2. cbn [mbind option_bind]. rewrite E. exact Ea. }
  assert (Hn : nevent (wheel s) = 2) by (vm_compute in Hs; injection Hs as <-; reflexivity).
  rewrite (ww_nevent _ _ _ Wa) in Hn. unfold zlen in Hn.
  destruct (wheel_reentry clock5 (one_two 15) s slots false 2) as (l & s' & slots' & _ & H1 & _ & _ & H2 & _).
  - intros f d. unfold one_two. destruct (f =? 1); repeat constructor; vm_compute; congruence.
  - exact Wa.
  - lia.
  - exists s, s', slots'. split; [exact Hs|]. split; [exact H1|exact H2].
Defined.

(** An event that the callback of the last event of the slot inserts without delay
    is not reached in this tick: it fires a whole turn later. *)
Lemma zero_delay_waits :
  calls_after [after 0 1] (inserting clock5 (one_two 0)) 4 = Some [(1, 0)] /\
  calls_after [after 0 1] (inserting clock5 (one_two 0)) 5 = Some [(1, 0); (2, 0)].
Proof. split; reflexivity. Qed.

(** Inserted by the callback of another event of the slot, it fires in the tick. *)
Lemma zero_delay_fires :
  calls_after [after 0 1; after 0 3] (inserting clock5 (one_two 0)) 1 = Some [(1, 0); (3, 0); (2, 0)].
Proof. reflexivity. Qed.

(** Function 1 removes the event [p]. *)
Definition removing (p : positive) (f d : Z) (s : wstate) : option wstate :=
  if f =? 1 then timing_wheel_remove s p else Some s.

(** A callback may remove an event of another slot, but not the next one of its own:
    the loop has read the pointer to it and unlinks it again through links that are
    NULL. *)
Lemma remove_next_stale :
  calls_after [after 0 1; after 15 3] (removing 8) 4 = Some [(1, 0)] /\
  calls_after [after 0 1; after 0 3] (removing 8) 1 = None.
Proof. split; reflexivity. Qed.
