(* ===== verification/WheelRecur.v ===== *)
(** * Recurring events (src/time/cc_wheel.c)

    What a recurring event gives its user over any number of ticks: its callback
    runs once in every period, exactly. *)

From S2P Require Import Prelude Metric Queue Tailq Pool Timer Wheel.
Local Open Scope Z_scope.

(** ** Where an event goes in a tick *)

Section Moves.
Implicit Types (slots : list (list positive)) (l : list positive) (t p q : positive).

Lemma push_elem j t slots q : q ∈ concat (push_slot j t slots) -> q ∈ concat slots \/ q = t.
Proof.
  unfold push_slot. destruct (slots !! j) as [l|] eqn:E; [|by left].
  pose proof (concat_update slots j l (l ++ [t]) E) as H. intros Hq.
  assert (Hq' : q ∈ concat slots ++ l ++ [t]) by (rewrite H; set_solver).
  apply elem_of_app in Hq' as [Hq'|Hq']; [by left|]. apply elem_of_app in Hq' as [Hq'|Hq']; [|set_solver].
  left. by eapply concat_elem.
Qed.

Lemma insert_elem i l slots q : q ∈ concat (<[i := l]> slots) -> q ∈ concat slots \/ q ∈ l.
Proof.
  destruct (slots !! i) as [k|] eqn:E.
  - pose proof (concat_update slots i k l E) as H. intros Hq.
    assert (Hq' : q ∈ concat slots ++ l) by (rewrite H; set_solver). set_solver.
  - rewrite list_insert_ge; [by left|]. by apply lookup_ge_None.
Qed.

(** A tick brings no new event. *)
Lemma run_slot_elem c n ag l : forall slots q,
  q ∈ concat (run_slot c n ag l slots) -> q ∈ concat slots \/ q ∈ l.
Proof.
  induction l as [|t l IH]; intros slots q; cbn [run_slot]; [by left|].
  intros [Hq|Hq]%IH; [|right; set_solver]. unfold step_slots in Hq.
  destruct (ag t); [apply push_elem in Hq as [Hq| ->]; [|right; set_solver]|];
    apply insert_elem in Hq; set_solver.
Qed.

Lemma length_push j t slots : length (push_slot j t slots) = length slots.
Proof. unfold push_slot. destruct (slots !! j); [|done]. by rewrite length_insert. Qed.

Lemma length_step c n k t l slots : length (step_slots c n k t l slots) = length slots.
Proof. unfold step_slots. destruct k; rewrite ?length_push; by rewrite length_insert. Qed.

(** An event that comes up again goes to the slot of its delay. *)
Lemma run_slot_moves c n ag l : forall slots p k,
  p ∈ l -> ag p = Some k -> Z.to_nat ((c + k) mod n) ≠ Z.to_nat c ->
  (Z.to_nat ((c + k) mod n) < length slots)%nat ->
  exists l', run_slot c n ag l slots !! Z.to_nat ((c + k) mod n) = Some l' /\ p ∈ l'.
Proof.
  induction l as [|t l IH]; intros slots p k Hp Hk Hne Hlt; [by apply elem_of_nil in Hp|]. cbn [run_slot].
  destruct (decide (t = p)) as [->|Htp]; [|apply IH; [set_solver|done|done|by rewrite length_step]].
  destruct (<[Z.to_nat c := l]> slots !! Z.to_nat ((c + k) mod n)) as [x|] eqn:Ex;
    [|apply lookup_ge_None in Ex; rewrite length_insert in Ex; lia].
  destruct (run_slot_other c n ag l (step_slots c n (ag p) p l slots) _ (x ++ [p])
    ltac:(unfold step_slots, push_slot; rewrite Hk, Ex; apply list_lookup_insert_eq; by rewrite length_insert) Hne)
    as [k' Hk']. exists ((x ++ [p]) ++ k'). split; [done|set_solver].
Qed.

Lemma concat_nodup_slot slots i l : NoDup (concat slots) -> slots !! i = Some l -> NoDup l.
Proof.
  intros Hnd Hl. pose proof (concat_update slots i l [] Hl) as E. rewrite app_nil_r in E. rewrite E in Hnd.
  by apply NoDup_app in Hnd as (_ & _ & ?).
Qed.

End Moves.

(** ** Periods *)

(** The calls of the function [f]. *)
Definition calls_to (f : Z) (cs : list (Z * Z)) : list (Z * Z) := List.filter (fun c => c.1 =? f) cs.

(** No other event than [p] has the function [f]. *)
Definition only (f : Z) (p : positive) (s : wstate) (slots : list (list positive)) : Prop :=
  forall q cb d r dl, q ∈ concat slots -> q ≠ p -> info s q = Some (cb, d, r, dl) -> cb ≠ Some f.

Section Recur.
Variable clocks : nat -> clock.
Variable callback : Z -> Z -> wstate -> option wstate.
Hypothesis quiet : forall f d s, callback f d s = Some s.
Variables (f arg : Z) (p : positive) (d : timeout) (k : Z) (fuel : nat).
Implicit Types (s : wstate) (slots : list (list positive)).

(** [p] is a recurring event of period [k], [j] slots ahead. *)
Record recurs (j : Z) s slots : Prop := {
  re_wf : wheel_wf s slots [];
  re_fuel : (length (concat slots) <= fuel)%nat;
  re_info : info s p = Some (Some f, arg, true, d);
  re_period : ticks (wheel s) d = k /\ 0 < k < cap (wheel s);
  re_ahead : 0 <= j < cap (wheel s);
  re_slot : exists l, slots !! Z.to_nat ((curr (wheel s) + j) mod cap (wheel s)) = Some l /\ p ∈ l;
  re_only : only f p s slots;
}.

Lemma calls_to_app cs cs' : calls_to f (cs ++ cs') = calls_to f cs ++ calls_to f cs'.
Proof. apply List.filter_app. Qed.

(** Events that are not [p] do not call [f]. *)
Lemma calls_others s slots l :
  only f p s slots -> (forall q, q ∈ l -> q ∈ concat slots) -> p ∉ l ->
  calls_to f (concat (map (call_of s) l)) = [].
Proof.
  intros Ho Hl Hp. induction l as [|q l IH]; [done|]. simpl. rewrite calls_to_app, IH by set_solver.
  rewrite app_nil_r. unfold call_of. destruct (info s q) as [[[[[g|] x] r] dl]|] eqn:E; [|done..]. simpl.
  destruct (Z.eqb_spec g f) as [->|]; [|done]. exfalso.
  eapply (Ho q); [apply Hl; set_solver| |exact E|done]. intros ->. set_solver.
Qed.

Lemma calls_slot s slots l :
  only f p s slots -> (forall q, q ∈ l -> q ∈ concat slots) -> NoDup l -> p ∈ l ->
  info s p = Some (Some f, arg, true, d) ->
  calls_to f (concat (map (call_of s) l)) = [(f, arg)].
Proof.
  intros Ho Hl Hnd (l1 & l2 & ->)%list_elem_of_split Hi.
  apply NoDup_app in Hnd as (_ & Hd & Hnd). apply NoDup_cons in Hnd as [Hp2 _].
  rewrite map_app, concat_app. simpl. rewrite !calls_to_app.
  rewrite (calls_others s slots l1), (calls_others s slots l2);
    [|done|set_solver|done|done|set_solver|intros H; apply (Hd p H); set_solver].
  unfold call_of. rewrite Hi. simpl. by rewrite Z.eqb_refl.
Qed.

(** The slots between now and the event after a tick. *)
Definition next (j : Z) : Z := if j =? 0 then k - 1 else j - 1.

Lemma recurs_tick j s slots :
  recurs j s slots ->
  exists s1 s2 slots2, _process_tick clocks callback fuel false s = Some s1 /\ _advance_curr s1 = Some s2 /\
    recurs (next j) s2 slots2 /\
    exists new, calls s2 = calls s ++ new /\ calls_to f new = if j =? 0 then [(f, arg)] else [].
Proof.
  intros [Hwf Hfu Hi [Hk Hkc] Hj (l & Hl & Hp) Ho].
  destruct (process_tick_wf clocks callback quiet false s slots fuel Hwf Hfu)
    as (l0 & s1 & Hl0 & E1 & H1 & F1 & _ & C1 & L1).
  destruct (advance_wf _ _ _ H1) as (s2 & E2 & H2 & Hc2 & Hcap2 & Ht2 & I2 & _ & C2 & _).
  destruct F1 as [(Fc & Fr & Ft & _) _ FI]. rewrite Fc, Fr in Hc2. rewrite Fc in Hcap2. rewrite Ft in Ht2.
  set (slots2 := run_slot _ _ _ _ _) in *. exists s1, s2, slots2. split; [done|]. split; [done|].
  pose proof (ww_curr _ _ _ Hwf) as Hc. pose proof (ww_cap _ _ _ Hwf) as Hlen. unfold zlen in Hlen, L1.
  assert (Hsub : forall q, q ∈ l0 -> q ∈ concat slots) by (intros q Hq; by eapply concat_elem).
  pose proof (ww_nodup _ _ _ Hwf) as Hnd. rewrite app_nil_r in Hnd.
  assert (Hag : again false s p = Some k) by (unfold again; by rewrite Hi, Hk).
  assert (Hplace : exists l', slots2 !! Z.to_nat ((curr (wheel s2) + next j) mod cap (wheel s2)) = Some l' /\ p ∈ l').
  { rewrite Hc2, Hcap2, Zplus_mod_idemp_l. unfold next. destruct (Z.eqb_spec j 0) as [->|Hj0].
    - rewrite Z.add_0_r, Z.mod_small, Hl0 in Hl by lia. injection Hl as <-.
      replace (curr (wheel s) + 1 + (k - 1)) with (curr (wheel s) + k) by lia.
      pose proof (ahead_ne _ _ _ Hc Hkc). pose proof (Z.mod_pos_bound (curr (wheel s) + k) (cap (wheel s))).
      apply run_slot_moves; [done|done|lia|lia].
    - replace (curr (wheel s) + 1 + (j - 1)) with (curr (wheel s) + j) by lia.
      pose proof (ahead_ne _ j _ Hc ltac:(lia)). pose proof (Z.mod_pos_bound (curr (wheel s) + j) (cap (wheel s))).
      destruct (run_slot_other (curr (wheel s)) (cap (wheel s)) (again false s) l0 slots _ _ Hl) as [l' Hl']; [lia|].
      exists (l ++ l'). split; [done|set_solver]. }
  split.
  - split; rewrite ?Hcap2, ?I2, ?FI; try done.
    + lia.
    + unfold ticks. rewrite Ht2. done.
    + unfold next. destruct (Z.eqb_spec j 0); lia.
    + rewrite Hcap2 in Hplace. done.
    + intros q cb x r dl Hq. rewrite I2, FI. apply Ho. apply run_slot_elem in Hq as [|]; auto.
  - eexists. split; [by rewrite C2|]. destruct (Z.eqb_spec j 0) as [->|Hj0].
    + rewrite Z.add_0_r, Z.mod_small, Hl0 in Hl by lia. injection Hl as <-.
      apply (calls_slot s slots); try done. by eapply concat_nodup_slot.
    + apply (calls_others s slots); try done. intros Hp0.
      eapply (concat_disjoint slots _ _ l0 l Hnd Hl0 Hl); [|exact Hp0|exact Hp].
      pose proof (ahead_ne _ j _ Hc ltac:(lia)). pose proof (Z.mod_pos_bound (curr (wheel s) + j) (cap (wheel s))). lia.
Qed.

Lemma recurs_turn n : forall j s slots,
  recurs j s slots -> j < k ->
  exists s' slots' j', turn clocks callback fuel n s = Some s' /\ recurs j' s' slots' /\
    calls_to f (calls s') =
      calls_to f (calls s) ++ replicate (Z.to_nat ((Z.of_nat n + (k - 1 - j)) / k)) (f, arg).
Proof.
  induction n as [|n IH]; intros j s slots Hr Hjk.
  - exists s, slots, j. split; [done|]. split; [done|]. pose proof (re_ahead _ _ _ Hr).
    rewrite Z.div_small by lia. simpl. by rewrite app_nil_r.
  - destruct (recurs_tick j s slots Hr) as (s1 & s2 & slots2 & E1 & E2 & Hr2 & new & C2 & N2).
    pose proof (re_ahead _ _ _ Hr). pose proof (re_ahead _ _ _ Hr2).
    destruct (IH (next j) s2 slots2 Hr2) as (s' & slots' & j' & E & Hr' & C').
    { unfold next. destruct (Z.eqb_spec j 0); lia. }
    exists s', slots', j'. split; [cbn [turn]; rewrite E1; simpl; by rewrite E2|]. split; [done|].
    rewrite C', C2, calls_to_app, N2, <- app_assoc. f_equal. unfold next. destruct (Z.eqb_spec j 0) as [->|].
    + replace (Z.of_nat (S n) + (k - 1 - 0)) with (Z.of_nat n + (k - 1 - (k - 1)) + 1 * k) by lia.
      pose proof (Z.div_pos (Z.of_nat n + (k - 1 - (k - 1))) k ltac:(lia) ltac:(lia)).
      rewrite Z.div_add, Z2Nat.inj_add, Nat.add_comm by lia. done.
    + simpl. do 3 f_equal. lia.
Qed.

End Recur.

(** An insertion that succeeds puts the event one period ahead. *)
Lemma insert_recurs (clocks : nat -> clock) s slots delay f arg fuel :
  wheel_wf s slots [] -> is_intvl delay = true -> 0 <= tp delay <= INT64_MAX ->
  (length (concat slots) < fuel)%nat ->
  (forall q cb d r dl, q ∈ concat slots -> info s q = Some (cb, d, r, dl) -> cb ≠ Some f) ->
  let k := ticks (wheel s) delay in
  exists r s1, timing_wheel_insert clocks s delay true (Some f) arg = Some (r, s1) /\ calls s1 = calls s /\
    match r with
    | None => wheel_wf s1 slots []
    | Some p => 0 < k < cap (wheel s) /\ exists slots1, recurs f arg p delay k fuel k s1 slots1
    end.
Proof.
  intros Hwf Hi Hd Hfu Ho k.
  destruct (insert_wf clocks s slots [] delay true (Some f) arg Hwf Hi Hd)
    as (r0 & m & r & s1 & _ & E1 & Hr & Hold & (Fc & Fr & Ft & _) & C1 & _ & H1).
  rewrite app_nil_r in H1, Hold. fold k in Hr, H1. exists r, s1. do 2 (split; [done|]).
  destruct r as [p|]; [|done]. destruct H1 as (Hp & Hinfo & H1).
  destruct (offset_ticks (wheel s) (fun _ => None) delay Hi Hd (ww_tick _ _ _ Hwf)) as (_ & Hk & _). fold k in Hk.
  assert (Hk0 : 0 < k < cap (wheel s)).
  { destruct Hr as [_ Hr]. destruct (Z_lt_le_dec k (cap (wheel s))); [|exfalso; discriminate Hr; tauto].
    destruct (Z.eq_dec k 0); [|lia]. exfalso. discriminate Hr. tauto. }
  split; [done|]. eexists. split; rewrite ?Fc, ?Fr; try done.
  - pose proof (concat_push (Z.to_nat ((curr (wheel s) + k) mod cap (wheel s))) p slots). unfold zlen in *. lia.
  - unfold ticks. by rewrite Ft.
  - lia.
  - destruct (absolute_at s slots [] k Hwf ltac:(lia)) as (_ & l & Hl). exists (l ++ [p]).
    unfold push_slot. rewrite Hl. split; [|set_solver]. apply list_lookup_insert_eq. by eapply lookup_lt_Some.
  - intros q cb x r dl Hq Hqp Hq'. apply push_elem in Hq as [Hq|Hq]; [|done]. rewrite Hold in Hq' by done.
    by eapply Ho.
Qed.

(** C17: a recurring event fires once in every period, exactly, in a wheel whose
    callbacks do not touch it: every callback returns the wheel as it was, so none
    inserts or removes an event.  Insert an event with a delay of [k] ticks into such a
    wheel, in which no other event has its function [f]: unless the insertion fails (it
    then leaves the slots as they were), any number [n] of ticks ends, and [f] is called
    (n - 1) / k times, each time with the argument given at insertion.  The other events
    have any delays, recurring or not, and any functions but [f]. *)
Theorem wheel_recurs (clocks : nat -> clock) (callback : Z -> Z -> wstate -> option wstate)
    (s : wstate) (slots : list (list positive)) (delay : timeout) (f arg : Z) (n fuel : nat) :
  (forall f d s, callback f d s = Some s) ->
  wheel_wf s slots [] -> is_intvl delay = true -> 0 <= tp delay <= INT64_MAX ->
  (length (concat slots) < fuel)%nat ->
  (forall q cb d r dl, q ∈ concat slots -> info s q = Some (cb, d, r, dl) -> cb ≠ Some f) ->
  let k := ticks (wheel s) delay in
  exists r s1, timing_wheel_insert clocks s delay true (Some f) arg = Some (r, s1) /\
    match r with
    | None => wheel_wf s1 slots []
    | Some p => 0 < k < cap (wheel s) /\
        exists s2, turn clocks callback fuel n s1 = Some s2 /\
          calls_to f (calls s2) =
            calls_to f (calls s) ++ replicate (Z.to_nat ((Z.of_nat n - 1) / k)) (f, arg)
    end.
Proof.
  intros quiet Hwf Hi Hd Hfu Ho k.
  destruct (insert_recurs clocks s slots delay f arg fuel Hwf Hi Hd Hfu Ho) as (r & s1 & E1 & C1 & H1).
  exists r, s1. split; [done|]. destruct r as [p|]; [|done]. fold k in H1. destruct H1 as (Hk & slots1 & Hrec).
  split; [done|]. destruct n as [|n].
  { exists s1. split; [done|]. rewrite C1. change (Z.of_nat 0 - 1) with (-1).
    rewrite Z2Nat.nonpos; [by rewrite app_nil_r|]. pose proof (Z.div_lt_upper_bound (-1) k 0). lia. }
  destruct (recurs_tick clocks callback quiet _ _ _ _ _ _ _ _ _ Hrec) as (s1' & s2 & slots2 & E2 & E3 & Hr2 & new & C2 & N2).
  unfold next in Hr2. rewrite (proj2 (Z.eqb_neq _ _)) in Hr2, N2 by lia.
  destruct (recurs_turn clocks callback quiet f arg p delay k fuel n _ s2 slots2 Hr2) as (s3 & slots3 & j3 & E4 & _ & C4); [lia|].
  exists s3. split; [cbn [turn]; rewrite E2; simpl; by rewrite E3|].
  rewrite C4, C2, C1, calls_to_app, N2, app_nil_r. do 3 f_equal. f_equal. lia.
Qed.

Lemma wheel_recurs_witness :
  exists s p s1 s2, timing_wheel_insert clock5 s (timeout_set_ns 20) true (Some 3) 4 = Some (Some p, s1) /\
    turn clock5 (fun _ _ s => Some s) 1 5 s1 = Some s2 /\ calls_to 3 (calls s2) = [(3, 4); (3, 4)].
Proof.
  destruct wheel4 as (m & tw & q & E1 & E2 & Hwf). injection E1 as <-. injection E2 as <- <-.
  match type of Hwf with wheel_wf ?st _ _ => exists st;
    destruct (wheel_recurs clock5 (fun _ _ s => Some s) st [[]; []; []; []] (timeout_set_ns 20) 3 4 5 1)
      as (r & s1 & H1 & H2) end;
    [reflexivity|exact Hwf|reflexivity|vm_compute; split; congruence|simpl; lia|intros x ? ? ? ? Hx; by apply elem_of_nil in Hx|].
  vm_compute in H1. injection H1 as <- <-. destruct H2 as (_ & s2 & H3 & H4).
  exists 7%positive. do 2 eexists. split; [vm_compute; reflexivity|]. split; [exact H3|exact H4].
Defined.
