(* ===== verification/Pooled.v ===== *)
(** * Modules that keep their objects in a free pool

    The connection and socket modules all manage their structs the same way:
    create and destroy are passed to the FREEPOOL macros, borrow resets what the
    pool hands out, return marks it free.  This file has the lemmas they share,
    for any client whose live objects are [live w].

    [pooled st used]: the pool [st] is consistent, [used] is what is borrowed
    from it, and every live object is either idle or borrowed. *)

From S2P Require Import Prelude Metric Queue Pool.
Local Open Scope Z_scope.

Section Pooled.
Context {W : Type} `{!PoolClient qmem W} `{!PoolClientLaws qmem W}.
Context (live : W -> gset positive).
Context (live_spec : forall w X, pc_live w X <-> live w = X).
Implicit Types (p : pstate qmem W) (w : W) (used : list positive).

Definition pooled p used : Prop :=
  exists free, pool_rel p free used (live (world p)) /\
    live (world p) = list_to_set (free ++ used).

Lemma pooled_live p used x : pooled p used -> x ∈ used -> x ∈ live (world p).
Proof using Type.
  intros (free & _ & ->) Hx. rewrite elem_of_list_to_set, elem_of_app. by right.
Qed.

Lemma pooled_nodup p used : pooled p used -> NoDup used.
Proof using Type. intros (free & Hr & _). apply (NoDup_app free), (pr_nodup _ _ _ _ Hr). Qed.

(** The client may change its objects as long as the same ones are live. *)
Lemma pooled_world p used w' :
  pooled p used -> live w' = live (world p) -> pooled (PState (mem p) (ctl p) w') used.
Proof.
  intros (free & [? ? ? ? ? ? ? ?] & Hd) Hl. exists free. simpl. rewrite Hl. split; [|done].
  split; simpl; try done. by apply live_spec.
Qed.

(** Clearing the link of a borrowed object does not disturb the free queue. *)
Lemma pooled_clear p used x :
  pooled p used -> x ∈ used -> pooled (PState (sq_clear_next (mem p) x) (ctl p) (world p)) used.
Proof using Type.
  intros (free & Hr & Hd) Hx. exists free. split; [|done].
  pose proof (pr_nodup _ _ _ _ Hr) as Hnd. destruct Hr as [Hq ? ? ? ? ? ? ?].
  split; cbn [mem ctl world]; try done. apply sq_clear_next_repr; [done|].
  intros Hin. apply NoDup_app in Hnd as (_ & Hdis & _). by apply (Hdis x).
Qed.

(** A borrow hands out an object nobody holds, or fails with the free queue
    empty; what creation preserves, it preserves. *)
Lemma pooled_borrow p used (P : W -> Prop) :
  (forall m w r m' w', pc_create m w = (r, (m', w')) -> P w -> P w') ->
  pooled p used -> P (world p) ->
  exists r p', FREEPOOL_BORROW p = Some (r, p') /\ P (world p') /\
    match r with
    | Some x => x ∉ used /\ pooled p' (x :: used)
    | None => pooled p' used /\ nfree (ctl p) = 0
    end.
Proof.
  intros HP (free & Hr & Hd) Hw.
  destruct (borrow_rel _ _ _ _ Hr) as (r & p' & f' & u' & X' & E & Hst & Hr' & _).
  exists r, p'. split; [done|]. split; [by eapply borrow_world|].
  pose proof (proj1 (live_spec _ _) (pr_live _ _ _ _ Hr')) as Hl. rewrite <- Hl in Hr'.
  destruct r as [x|].
  - assert (Hu : u' = x :: used) by (by inversion Hst). subst u'. split.
    + pose proof (pr_nodup _ _ _ _ Hr') as Hnd. rewrite <- Permutation_middle in Hnd.
      apply NoDup_cons in Hnd as [? _]. set_solver.
    + exists f'. split; [done|]. rewrite Hl. clear -Hst Hd.
      inversion Hst; subst; rewrite ?Hd; set_solver.
  - assert (Hu : u' = used) by (by inversion Hst). subst u'. split.
    + exists f'. split; [done|]. rewrite Hl. clear -Hst Hd. by inversion Hst; subst.
    + rewrite (pr_nfree _ _ _ _ Hr). by inversion Hst.
Qed.

Lemma pooled_return p used x :
  pooled p used -> x ∈ used ->
  pooled (FREEPOOL_RETURN p x) (filter (fun y => y ≠ x) used) /\
  zlen used = 1 + zlen (filter (fun y => y ≠ x) used).
Proof using Type.
  intros Hpl Hx. pose proof (pooled_nodup _ _ Hpl) as Hnd. destruct Hpl as (free & Hr & Hd).
  destruct (return_rel _ _ _ _ _ Hr Hx) as (used' & Hp & Hr2 & _).
  pose proof (filter_out x used used' Hnd Hp) as Hfil. split.
  - exists (x :: free). split.
    + apply (pool_rel_perm _ _ used'); [done|]. exact Hr2.
    + simpl. rewrite Hd. apply set_eq. intros y. clear -Hx.
      rewrite elem_of_union, !elem_of_list_to_set, !elem_of_app, elem_of_singleton.
      rewrite list_elem_of_filter. destruct (decide (y = x)) as [->|]; tauto.
  - unfold zlen. rewrite Hfil, Hp. simpl. lia.
Qed.

(** Setting a pool up with [max] objects ends; unless an allocation failed, it
    holds [max] idle objects and nothing is borrowed. *)
Lemma pooled_setup fuel p max (P : W -> Prop) :
  (forall m w r m' w', pc_create m w = (r, (m', w')) -> P w -> P w') ->
  live (world p) = ∅ -> P (world p) -> 0 <= max <= UINT32_MAX -> (Z.to_nat max <= fuel)%nat ->
  exists p', FREEPOOL_PREALLOC fuel (FREEPOOL_CREATE p max) max = Some p' /\
    P (world p') /\ pooled p' [] /\ nfree (ctl p') <= max.
Proof.
  intros HP Hl Hw Hmax Hfu.
  destruct (create_rel p max ∅) as [H0 Hmx]; [by apply live_spec|done|].
  destruct (prealloc_rel fuel _ _ _ _ max H0) as (p' & new & X' & E & Hr & _ & HX & Hz & _);
    [rewrite Hmx, zlen_nil; unfold UINT32_MAX in *; case_zcmp; lia|rewrite zlen_nil; lia|].
  rewrite app_nil_r in Hr. exists p'. split; [done|]. split_and!.
  - refine (prealloc_world P _ _ _ _ HP E _). done.
  - pose proof (proj1 (live_spec _ _) (pr_live _ _ _ _ Hr)) as Hl'. exists new.
    rewrite <- Hl' in Hr. split; [done|]. rewrite Hl', HX, app_nil_r. set_solver.
  - rewrite (pr_nfree _ _ _ _ Hr). unfold zlen in *. simpl in Hz. lia.
Qed.

(** With everything returned, destroying the pool frees every object. *)
Lemma pooled_destroy fuel p :
  pooled p [] -> (size (live (world p)) <= fuel)%nat ->
  exists p', FREEPOOL_DESTROY fuel p = Some p' /\ live (world p') = ∅.
Proof.
  intros (free & Hr & Hd) Hfu. rewrite app_nil_r in Hd.
  assert (Hnd : NoDup free) by (pose proof (pr_nodup _ _ _ _ Hr) as H; by rewrite app_nil_r in H).
  destruct (destroy_rel fuel _ _ _ _ Hr) as (p' & E & _ & _ & _ & Hl).
  { by rewrite Hd, size_list_to_set in Hfu. }
  exists p'. split; [done|]. apply live_spec in Hl. by rewrite Hl, Hd, difference_diag_L.
Qed.

(** What destruction preserves holds after the pool is destroyed. *)
Lemma destroy_world fuel p p' (P : W -> Prop) :
  (forall x m w m' w', pc_destroy x m w = (m', w') -> P w -> P w') ->
  FREEPOOL_DESTROY fuel p = Some p' -> P (world p) -> P (world p').
Proof using Type.
  intros HP. unfold FREEPOOL_DESTROY.
  generalize (sq_first (mem p) (freeq (ctl p))). revert p.
  induction fuel as [|fuel IH]; intros p [x|]; cbn [destroy_loop]; try done;
    try (by intros [= <-]).
  destruct (sq_remove_head (mem p) (freeq (ctl p))) as [m|]; simpl; [|done].
  destruct (pc_destroy x m (world p)) as [m' w'] eqn:E. intros Ho Hw.
  apply (IH _ _ Ho). simpl. eauto.
Qed.

End Pooled.

(** ** Objects with a free flag and a gauge of the borrowed ones

    [objs w] are the client's objects, [ofree] their field free, [active w] the
    gauge that counts the borrowed ones; [P] is what else creation preserves. *)

Section Objects.
Context {W O : Type} `{!PoolClient qmem W} `{!PoolClientLaws qmem W}.
Context (objs : W -> gmap positive O) (ofree : O -> bool) (active : W -> option Z) (P : W -> Prop).
Context (live_spec : forall w X, pc_live w X <-> dom (objs w) = X).
Context (create_spec : forall m w r m' w', pc_create m w = (r, (m', w')) ->
  (P w -> P w') /\ active w' = active w /\
  (forall x o, objs w !! x = Some o -> objs w' !! x = Some o)).
Implicit Types (p : pstate qmem W) (w : W) (used : list positive).

Record minv p used : Prop := {
  mi_pooled : pooled (fun w => dom (objs w)) p used;
  mi_extra : P (world p);
  mi_active : active (world p) = Some (i64 (zlen used));
  mi_busy : forall x, x ∈ used -> exists o, objs (world p) !! x = Some o /\ ofree o = false;
}.

Lemma minv_borrow p used :
  minv p used ->
  exists r p', FREEPOOL_BORROW p = Some (r, p') /\
    match r with
    | Some x => x ∉ used /\ is_Some (objs (world p') !! x) /\ P (world p') /\
        active (world p') = Some (i64 (zlen used)) /\
        forall w' reset, (forall o, ofree (reset o) = false) ->
          objs w' = alter reset x (objs (world p')) -> P w' ->
          active w' = Some (i64 (zlen used + 1)) ->
          minv (PState (sq_clear_next (mem p') x) (ctl p') w') (x :: used)
    | None => nfree (ctl p) = 0 /\ P (world p') /\ active (world p') = Some (i64 (zlen used)) /\
        forall w', objs w' = objs (world p') -> P w' -> active w' = Some (i64 (zlen used)) ->
          minv (PState (mem p') (ctl p') w') used
    end.
Proof.
  intros [Hp HP Ha Hb].
  set (I := fun w => (P w /\ active w = Some (i64 (zlen used))) /\
    forall x, x ∈ used -> exists o, objs w !! x = Some o /\ ofree o = false).
  destruct (pooled_borrow (fun w => dom (objs w)) live_spec p used I)
    as (r & p' & E & [[HP' Ha'] Hb'] & Hr); [|done|done|].
  { intros m w r m' w' Hc [[H1 H2] H3]. destruct (create_spec _ _ _ _ _ Hc) as (C1 & C2 & C3).
    split; [split; [auto|congruence]|]. intros x Hx. destruct (H3 x Hx) as (o & Ho & Hf). eauto. }
  exists r, p'. split; [done|]. destruct r as [x|].
  - destruct Hr as [Hx Hpl]. split; [done|].
    assert (Hin : x ∈ dom (objs (world p'))).
    { apply (pooled_live (fun w => dom (objs w)) p' (x :: used)); [done|]. by left. }
    split; [by apply elem_of_dom|]. split; [done|]. split; [done|].
    intros w' reset Hres Ho HPw Hact. split; cbn [mem ctl world]; try done.
    + apply (pooled_world _ live_spec (PState (sq_clear_next (mem p') x) (ctl p') (world p'))).
      * apply pooled_clear; [done|by left].
      * simpl. by rewrite Ho, dom_alter_L.
    + rewrite Hact, zlen_cons. do 2 f_equal. lia.
    + intros y [->|Hy]%elem_of_cons; rewrite Ho.
      * apply elem_of_dom in Hin as [o Hlk]. rewrite lookup_alter_eq, Hlk. simpl. eauto.
      * rewrite lookup_alter_ne by (by intros ->). by apply Hb'.
  - destruct Hr as [Hpl Hn]. split; [done|]. split; [done|]. split; [done|].
    intros w' Ho HPw Hact. split; simpl; try done.
    + apply (pooled_world _ live_spec p'); [done|]. by rewrite Ho.
    + intros y Hy. rewrite Ho. by apply Hb'.
Qed.

Lemma minv_return p used x (setf : O -> O) w1 :
  minv p used -> x ∈ used -> objs w1 = alter setf x (objs (world p)) ->
  let p1 := FREEPOOL_RETURN (PState (mem p) (ctl p) w1) x in
  world p1 = w1 /\
  forall w', objs w' = objs w1 -> P w' ->
    active w' = Some (i64 (zlen used - 1)) ->
    minv (PState (mem p1) (ctl p1) w') (filter (fun y => y ≠ x) used).
Proof.
  intros [Hp HP Ha Hb] Hx Ho. split; [done|]. intros w' Ho' HP' Ha'.
  assert (Hpl : pooled (fun w => dom (objs w)) (PState (mem p) (ctl p) w1) used).
  { apply (pooled_world _ live_spec p); [done|]. by rewrite Ho, dom_alter_L. }
  destruct (pooled_return (fun w => dom (objs w)) _ _ _ Hpl Hx) as [Hpl' Hz].
  split; cbn [mem ctl world].
  - apply (pooled_world _ live_spec (FREEPOOL_RETURN (PState (mem p) (ctl p) w1) x)); [done|].
    by rewrite Ho'.
  - done.
  - rewrite Ha', Hz. do 2 f_equal. lia.
  - intros y Hy. apply list_elem_of_filter in Hy as [Hne Hy].
    rewrite Ho', Ho, lookup_alter_ne by done. by apply Hb.
Qed.

(** The holder of an object changes it but for the flag. *)
Lemma minv_edit p used x (f : O -> O) w' :
  minv p used -> x ∈ used -> (forall o, ofree (f o) = ofree o) ->
  objs w' = alter f x (objs (world p)) -> P w' -> active w' = active (world p) ->
  minv (PState (mem p) (ctl p) w') used.
Proof.
  intros [Hp HP Ha Hb] Hx Hf Ho HP' Ha'. split; simpl; try done.
  - apply (pooled_world _ live_spec p); [done|]. by rewrite Ho, dom_alter_L.
  - congruence.
  - intros y Hy. destruct (Hb y Hy) as (o & Hlk & Hfr). rewrite Ho.
    destruct (decide (y = x)) as [->|].
    + rewrite lookup_alter_eq, Hlk. simpl. eexists. split; [done|]. by rewrite Hf.
    + rewrite lookup_alter_ne by done. eauto.
Qed.

Lemma minv_setup fuel p max :
  objs (world p) = ∅ -> P (world p) -> active (world p) = Some 0 ->
  0 <= max <= UINT32_MAX -> (Z.to_nat max <= fuel)%nat ->
  exists p', FREEPOOL_PREALLOC fuel (FREEPOOL_CREATE p max) max = Some p' /\
    minv p' [] /\ nfree (ctl p') <= max.
Proof.
  intros Ho HP Ha Hm Hf.
  destruct (pooled_setup (fun w => dom (objs w)) live_spec fuel p max
    (fun w => P w /\ active w = Some 0)) as (p' & E & [HP' Ha'] & Hpl & Hn); [|by rewrite Ho|done..|].
  { intros m w r m' w' Hc [H1 H2]. destruct (create_spec _ _ _ _ _ Hc) as (C1 & C2 & _).
    split; [auto|congruence]. }
  exists p'. split; [done|]. split; [|done]. split; try done.
  intros x Hx. by apply elem_of_nil in Hx.
Qed.

Lemma minv_destroy fuel p :
  minv p [] -> (size (objs (world p)) <= fuel)%nat ->
  exists p', FREEPOOL_DESTROY fuel p = Some p' /\ objs (world p') = ∅.
Proof.
  intros [Hp _ _ _] Hf.
  destruct (pooled_destroy (fun w => dom (objs w)) live_spec fuel p Hp) as (p' & E & Hd).
  { by rewrite size_dom. }
  exists p'. split; [done|]. by apply dom_empty_inv_L.
Qed.

End Objects.
