(* ===== verification/Sys.v ===== *)
(** * System calls

    The operating system is not part of the repository: it is a parameter, the
    class [Kernel], whose functions say what each call answers in a state of the
    kernel.  The wrappers [c_*] are the calls as C sees them: a negative result
    comes with [errno].  [KernelLaws] states the documented behaviour the modules
    rely on, through a view [net] of the kernel: the open descriptors with the
    bytes still to be read from each, the bytes accepted for each, and the number
    of signals still to interrupt calls.  [ideal] is a kernel that meets the
    laws.

    [st S] is the state monad with undefined behaviour in which the modules over
    system calls are written, and [wp] its weakest precondition for total
    correctness. *)

From S2P Require Import Prelude.
Local Open Scope Z_scope.

(** ** State with undefined behaviour *)

Definition st (S A : Type) : Type := S -> option (A * S).

#[export] Instance st_ret S : MRet (st S) := fun A x s => Some (x, s).
#[export] Instance st_bind S : MBind (st S) := fun A B k m s =>
  match m s with Some (x, s') => k x s' | None => None end.

Section Monad.
Context {S : Type}.

Definition stuck {A} : st S A := fun _ => None.
Definition get : st S S := fun s => Some (s, s).
Definition modify (f : S -> S) : st S unit := fun s => Some (tt, f s).

(** The program [m] from [s] ends without undefined behaviour, in [Q]. *)
Definition wp {A} (m : st S A) (Q : A -> S -> Prop) (s : S) : Prop :=
  exists x s', m s = Some (x, s') /\ Q x s'.

Lemma wp_ret {A} (x : A) (Q : A -> S -> Prop) s : Q x s -> wp (mret x) Q s.
Proof. intros. by exists x, s. Qed.

Lemma wp_bind {A B} (m : st S A) (k : A -> st S B) (Q : B -> S -> Prop) s :
  wp m (fun x => wp (k x) Q) s -> wp (m ≫= k) Q s.
Proof.
  intros (x & s1 & E & y & s2 & E2 & H). exists y, s2. split; [|done].
  unfold mbind, st_bind. by rewrite E.
Qed.

Lemma wp_modify f (Q : unit -> S -> Prop) s : Q tt (f s) -> wp (modify f) Q s.
Proof. intros. by exists tt, (f s). Qed.

Lemma wp_get (Q : S -> S -> Prop) s : Q s s -> wp get Q s.
Proof. intros. by exists s, s. Qed.

Lemma wp_mono {A} (m : st S A) (Q R : A -> S -> Prop) s :
  wp m Q s -> (forall x s', Q x s' -> R x s') -> wp m R s.
Proof. intros (x & s' & E & H) HR. exists x, s'. eauto. Qed.

Lemma wp_det {A} (m : st S A) (Q : A -> S -> Prop) s x s' : wp m Q s -> m s = Some (x, s') -> Q x s'.
Proof. intros (y & s1 & E & H) E'. rewrite E in E'. by simplify_eq. Qed.

End Monad.

(** A program on one half of the state. *)
Definition on_fst {S T A} (m : st S A) : st (S * T) A := fun s =>
  match m s.1 with Some (x, s1) => Some (x, (s1, s.2)) | None => None end.
Definition on_snd {S T A} (m : st T A) : st (S * T) A := fun s =>
  match m s.2 with Some (x, s2) => Some (x, (s.1, s2)) | None => None end.

Lemma wp_fst {S T A} (m : st S A) (Q : A -> S * T -> Prop) s t :
  wp m (fun x s' => Q x (s', t)) s -> wp (on_fst m) Q (s, t).
Proof. intros (x & s' & E & H). exists x, (s', t). unfold on_fst. simpl. by rewrite E. Qed.

Lemma wp_snd {S T A} (m : st T A) (Q : A -> S * T -> Prop) s t :
  wp m (fun x t' => Q x (s, t')) t -> wp (on_snd m) Q (s, t).
Proof. intros (x & t' & E & H). exists x, (s, t'). unfold on_snd. simpl. by rewrite E. Qed.

(** ** The calls *)

Inductive answer (A : Type) := Ok (x : A) | Err (e : Z).
Arguments Ok {A} _.
Arguments Err {A} _.

(** Linux, x86-64. *)
Definition EINTR : Z := 4.
Definition EAGAIN : Z := 11.
Definition EWOULDBLOCK : Z := 11.
Definition EEXIST : Z := 17.
Definition EINPROGRESS : Z := 115.
Definition O_NONBLOCK : Z := 2048.
Definition SOL_SOCKET : Z := 1.
Definition IPPROTO_TCP : Z := 6.
Definition TCP_NODELAY : Z := 1.
Definition SO_REUSEADDR : Z := 2.
Definition SO_ERROR : Z := 4.
Definition SO_SNDBUF : Z := 7.
Definition SO_RCVBUF : Z := 8.
Definition SO_KEEPALIVE : Z := 9.
Definition SO_LINGER : Z := 13.

(** What socket, connect and bind read of a struct addrinfo; the socket address
    itself is opaque. *)
Record addrinfo := Addrinfo {
  ai_family : Z; ai_socktype : Z; ai_protocol : Z; ai_addr : list byte }.

Class Kernel (K : Type) := {
  k_socket : Z -> Z -> Z -> K -> answer Z * K;
  k_connect : Z -> list byte -> K -> answer Z * K;
  k_bind : Z -> list byte -> K -> answer Z * K;
  k_listen : Z -> Z -> K -> answer Z * K;
  k_accept : Z -> bool -> K -> answer Z * K;
  k_close : Z -> K -> answer Z * K;
  k_read : Z -> Z -> K -> answer (list byte) * K;
  k_readv : Z -> list Z -> K -> answer (list byte) * K;
  k_write : Z -> list byte -> K -> answer Z * K;
  k_writev : Z -> list (list byte) -> K -> answer Z * K;
  k_getfl : Z -> K -> answer Z * K;
  k_setfl : Z -> Z -> K -> answer Z * K;
  k_setsockopt : Z -> Z -> Z -> list Z -> K -> answer Z * K;
  k_getsockopt : Z -> Z -> Z -> K -> answer Z * K;
  k_pipe : K -> answer (Z * Z) * K;
}.

(** The process as the calls see it. *)
Record proc (K : Type) := Proc { kern : K; errno : Z }.
Arguments Proc {K} _ _.
Arguments kern {K} _.
Arguments errno {K} _.

Section Calls.
Context {K : Type} `{!Kernel K}.

(** A call with an int result. *)
Definition call (f : K -> answer Z * K) : st (proc K) Z := fun p =>
  match f (kern p) with
  | (Ok x, k) => Some (x, Proc k (errno p))
  | (Err e, k) => Some (-1, Proc k e)
  end.

(** A call that also fills memory. *)
Definition call_data {A} (size : A -> Z) (none : A) (f : K -> answer A * K) : st (proc K) (Z * A) :=
  fun p =>
  match f (kern p) with
  | (Ok x, k) => Some ((size x, x), Proc k (errno p))
  | (Err e, k) => Some ((-1, none), Proc k e)
  end.

Definition c_errno : st (proc K) Z := fun p => Some (errno p, p).
Definition set_errno (e : Z) : st (proc K) unit := modify (fun p => Proc (kern p) e).

Definition c_socket (ai : addrinfo) := call (k_socket (ai_family ai) (ai_socktype ai) (ai_protocol ai)).
Definition c_connect sd (ai : addrinfo) := call (k_connect sd (ai_addr ai)).
Definition c_bind sd (ai : addrinfo) := call (k_bind sd (ai_addr ai)).
Definition c_listen sd backlog := call (k_listen sd backlog).
Definition c_accept sd := call (k_accept sd false).
(** accept4(sd, NULL, NULL, SOCK_NONBLOCK) *)
Definition c_accept4 sd := call (k_accept sd true).
Definition c_close fd := call (k_close fd).
Definition c_read fd n := call_data zlen [] (k_read fd n).
Definition c_readv fd iov := call_data zlen [] (k_readv fd iov).
Definition c_write fd bs := call (k_write fd bs).
Definition c_writev fd iov := call (k_writev fd iov).
Definition c_getfl fd := call (k_getfl fd).
Definition c_setfl fd flags := call (k_setfl fd flags).
Definition c_setsockopt sd level opt v := call (k_setsockopt sd level opt v).
Definition c_getsockopt sd level opt := call_data (fun _ => 0) 0 (k_getsockopt sd level opt).
Definition c_pipe := call_data (fun _ => 0) (0, 0) k_pipe.

End Calls.

(** ** Documented behaviour *)

(** An open descriptor: the bytes that will be read from it, in order; those it
    accepted; for the write end of a pipe, the read end; the connections that
    wait to be accepted on it; its status flags. *)
Record desc := Desc {
  d_in : list byte; d_out : list byte; d_peer : option Z; d_pend : nat; d_flags : Z }.

Definition set_in (d : desc) (i : list byte) : desc :=
  Desc i (d_out d) (d_peer d) (d_pend d) (d_flags d).
Definition set_pend (d : desc) (n : nat) : desc :=
  Desc (d_in d) (d_out d) (d_peer d) n (d_flags d).
Definition set_flags (d : desc) (f : Z) : desc :=
  Desc (d_in d) (d_out d) (d_peer d) (d_pend d) f.
Definition add_in (bs : list byte) (d : desc) : desc := set_in d (d_in d ++ bs).
Definition add_out (bs : list byte) (d : desc) : desc :=
  Desc (d_in d) (d_out d ++ bs) (d_peer d) (d_pend d) (d_flags d).

Record net := Net { fds : gmap Z desc; sigs : nat }.

(** A call failed: errno is positive, nothing changed, and EINTR used up a
    signal. *)
Definition failed (w : net) (e : Z) (w' : net) : Prop :=
  0 < e /\ fds w' = fds w /\ (sigs w' <= sigs w)%nat /\ (e = EINTR -> (sigs w' < sigs w)%nat).

Definition moved (w : net) (m : gmap Z desc) (w' : net) : Prop :=
  fds w' = m /\ (sigs w' <= sigs w)%nat.

(** write(fd, bs) accepted [n] bytes; the write end of a pipe passes them on. *)
Definition written (m : gmap Z desc) (fd : Z) (bs : list byte) : gmap Z desc :=
  match m !! fd with
  | Some d =>
      let m := <[fd := add_out bs d]> m in
      match d_peer d with Some r => alter (add_in bs) r m | None => m end
  | None => m
  end.

Definition read_law (fd n : Z) (w : net) (a : answer (list byte)) (w' : net) : Prop :=
  match a with
  | Err e => failed w e w'
  | Ok bs => exists d rest, fds w !! fd = Some d /\ d_in d = bs ++ rest /\ zlen bs <= n /\
      (bs = [] -> 0 < n -> rest = []) /\ moved w (<[fd := set_in d rest]> (fds w)) w'
  end.

Definition write_law (fd : Z) (bs : list byte) (w : net) (a : answer Z) (w' : net) : Prop :=
  match a with
  | Err e => failed w e w'
  | Ok n => is_Some (fds w !! fd) /\ 0 <= n <= zlen bs /\
      moved w (written (fds w) fd (take (Z.to_nat n) bs)) w'
  end.

(** A call that creates a descriptor. *)
Definition fresh_law (fd : Z) (m : gmap Z desc) (w w' : net) : Prop :=
  0 <= fd /\ fds w !! fd = None /\
  exists d, d_peer d = None /\ moved w (<[fd := d]> m) w'.

Definition plain_law (w : net) (a : answer Z) (w' : net) : Prop :=
  match a with Err e => failed w e w' | Ok x => 0 <= x /\ moved w (fds w) w' end.

Class KernelLaws (K : Type) `{!Kernel K} := {
  view : K -> net;
  law_socket f t p k a k' : k_socket f t p k = (a, k') ->
    match a with
    | Err e => failed (view k) e (view k')
    | Ok fd => fresh_law fd (fds (view k)) (view k) (view k')
    end;
  law_connect sd ad k a k' : k_connect sd ad k = (a, k') -> plain_law (view k) a (view k');
  law_bind sd ad k a k' : k_bind sd ad k = (a, k') -> plain_law (view k) a (view k');
  law_listen sd n k a k' : k_listen sd n k = (a, k') -> plain_law (view k) a (view k');
  law_accept sd nb k a k' : k_accept sd nb k = (a, k') ->
    match a with
    | Err e => failed (view k) e (view k')
    | Ok fd => exists d n, fds (view k) !! sd = Some d /\ d_pend d = S n /\
        fresh_law fd (<[sd := set_pend d n]> (fds (view k))) (view k) (view k') /\
        (nb = true -> forall d', fds (view k') !! fd = Some d' ->
           Z.land (d_flags d') O_NONBLOCK = O_NONBLOCK)
    end;
  (** close releases the descriptor even when it reports an error *)
  law_close fd k a k' : k_close fd k = (a, k') ->
    (sigs (view k') <= sigs (view k))%nat /\ fds (view k') = delete fd (fds (view k)) /\
    match a with Err e => 0 < e | Ok x => x = 0 end;
  law_read fd n k a k' : k_read fd n k = (a, k') -> read_law fd n (view k) a (view k');
  law_readv fd iov k a k' : k_readv fd iov k = (a, k') ->
    read_law fd (foldr Z.add 0 iov) (view k) a (view k');
  law_write fd bs k a k' : k_write fd bs k = (a, k') -> write_law fd bs (view k) a (view k');
  law_writev fd iov k a k' : k_writev fd iov k = (a, k') ->
    write_law fd (concat iov) (view k) a (view k');
  law_getfl fd k a k' : k_getfl fd k = (a, k') ->
    match a with
    | Err e => failed (view k) e (view k')
    | Ok f => 0 <= f /\ moved (view k) (fds (view k)) (view k') /\
        exists d, fds (view k) !! fd = Some d /\ d_flags d = f
    end;
  law_setfl fd f k a k' : k_setfl fd f k = (a, k') ->
    match a with
    | Err e => failed (view k) e (view k')
    | Ok x => x = 0 /\ moved (view k) (alter (fun d => set_flags d f) fd (fds (view k))) (view k')
    end;
  law_setsockopt sd l o v k a k' : k_setsockopt sd l o v k = (a, k') ->
    plain_law (view k) a (view k');
  law_getsockopt sd l o k a k' : k_getsockopt sd l o k = (a, k') ->
    match a with
    | Err e => failed (view k) e (view k')
    | Ok _ => moved (view k) (fds (view k)) (view k')
    end;
  law_pipe k a k' : k_pipe k = (a, k') ->
    match a with
    | Err e => failed (view k) e (view k')
    | Ok (r, w) => 0 <= r /\ 0 <= w /\ r ≠ w /\
        fds (view k) !! r = None /\ fds (view k) !! w = None /\
        moved (view k) (<[w := Desc [] [] (Some r) 0 0]> (<[r := Desc [] [] None 0 0]>
          (fds (view k)))) (view k')
    end;
}.

Section CallLemmas.
Context {K : Type} `{!Kernel K}.
Implicit Types (p : proc K).

(** Every call returns; what it returns is the kernel's answer. *)
Lemma wp_call (f : K -> answer Z * K) (Q : Z -> proc K -> Prop) p :
  (forall x k, f (kern p) = (Ok x, k) -> Q x (Proc k (errno p))) ->
  (forall e k, f (kern p) = (Err e, k) -> Q (-1) (Proc k e)) ->
  wp (call f) Q p.
Proof.
  intros H1 H2. unfold wp, call. destruct (f (kern p)) as [[x|e] k]; eauto.
Qed.

Lemma wp_call_data {A} size none (f : K -> answer A * K) (Q : Z * A -> proc K -> Prop) p :
  (forall x k, f (kern p) = (Ok x, k) -> Q (size x, x) (Proc k (errno p))) ->
  (forall e k, f (kern p) = (Err e, k) -> Q (-1, none) (Proc k e)) ->
  wp (call_data size none f) Q p.
Proof.
  intros H1 H2. unfold wp, call_data. destruct (f (kern p)) as [[x|e] k]; eauto.
Qed.

End CallLemmas.

(** Step through a program of the monad. *)
Ltac wp_step :=
  match goal with
  | |- wp (_ ≫= _) _ _ => apply wp_bind
  | |- wp (mret _) _ _ => apply wp_ret
  | |- wp (modify _) _ _ => apply wp_modify
  | |- wp (on_fst _) _ (_, _) => apply wp_fst
  | |- wp (on_snd _) _ (_, _) => apply wp_snd
  | |- wp (call _) _ _ => apply wp_call
  | |- wp (call_data _ _ _) _ _ => apply wp_call_data
  | |- wp (c_read _ _) _ _ => apply wp_call_data
  | |- wp (c_readv _ _) _ _ => apply wp_call_data
  | |- wp (c_getsockopt _ _ _) _ _ => apply wp_call_data
  | |- wp c_pipe _ _ => apply wp_call_data
  | |- wp (c_socket _) _ _ => apply wp_call
  | |- wp (c_connect _ _) _ _ => apply wp_call
  | |- wp (c_bind _ _) _ _ => apply wp_call
  | |- wp (c_listen _ _) _ _ => apply wp_call
  | |- wp (c_accept _) _ _ => apply wp_call
  | |- wp (c_accept4 _) _ _ => apply wp_call
  | |- wp (c_close _) _ _ => apply wp_call
  | |- wp (c_write _ _) _ _ => apply wp_call
  | |- wp (c_writev _ _) _ _ => apply wp_call
  | |- wp (c_getfl _) _ _ => apply wp_call
  | |- wp (c_setfl _ _) _ _ => apply wp_call
  | |- wp (c_setsockopt _ _ _ _) _ _ => apply wp_call
  end.

(** ** A kernel that meets the laws

    It reads as much as there is, accepts every byte, and interrupts calls that
    may wait as long as signals are left. *)

Definition next_fd {A} (m : gmap Z A) : Z := map_fold (fun fd _ acc => Z.max (fd + 1) acc) 3 m.

Lemma next_fd_bound {A} (m : gmap Z A) : 3 <= next_fd m /\ forall fd, is_Some (m !! fd) -> fd < next_fd m.
Proof.
  unfold next_fd. apply (map_fold_weak_ind (fun acc m => 3 <= acc /\ forall fd, is_Some (m !! fd) -> fd < acc)).
  - split; [lia|]. intros fd [d H]. by rewrite lookup_empty in H.
  - intros fd d m' acc Hn [H1 H2]. split; [lia|]. intros fd' [d' H].
    apply lookup_insert_Some in H as [[<- _]|[_ H]]; [lia|].
    assert (fd' < acc) by eauto. lia.
Qed.

Lemma next_fd_fresh {A} (m : gmap Z A) : m !! next_fd m = None.
Proof.
  apply eq_None_not_Some. intros H. pose proof (proj2 (next_fd_bound m) _ H). lia.
Qed.

Definition fresh_desc : desc := Desc [] [] None 0 0.

(** Interrupt, refuse an unknown descriptor, or proceed. *)
Definition ideal_on {A} (fd : Z) (f : desc -> net -> answer A * net) (w : net) : answer A * net :=
  match sigs w with
  | S n => (Err EINTR, Net (fds w) n)
  | O => match fds w !! fd with Some d => f d w | None => (Err 9, w) end
  end.

Definition ideal_read (n : Z) (fd : Z) (d : desc) (w : net) : answer (list byte) * net :=
  if 0 <? n then
    (Ok (take (Z.to_nat n) (d_in d)),
     Net (<[fd := set_in d (drop (Z.to_nat n) (d_in d))]> (fds w)) (sigs w))
  else (Err 22, w).

Definition ideal_write (bs : list byte) (fd : Z) (d : desc) (w : net) : answer Z * net :=
  (Ok (zlen bs), Net (written (fds w) fd bs) (sigs w)).

Definition ideal_ok (w : net) : answer Z * net := (Ok 0, w).

#[export] Instance ideal : Kernel net := {
  k_socket _ _ _ w := let fd := next_fd (fds w) in (Ok fd, Net (<[fd := fresh_desc]> (fds w)) (sigs w));
  k_connect sd _ w := ideal_ok w;
  k_bind sd _ w := ideal_ok w;
  k_listen sd _ w := ideal_ok w;
  k_accept sd nb := ideal_on sd (fun d w =>
    match d_pend d with
    | O => (Err EAGAIN, w)
    | S n => let fd := next_fd (fds w) in
        (Ok fd, Net (<[fd := set_flags fresh_desc (if nb then O_NONBLOCK else 0)]>
                       (<[sd := set_pend d n]> (fds w))) (sigs w))
    end);
  k_close fd w :=
    (match fds w !! fd with Some _ => Ok 0 | None => Err 9 end, Net (delete fd (fds w)) (sigs w));
  k_read fd n := ideal_on fd (ideal_read n fd);
  k_readv fd iov := ideal_on fd (ideal_read (foldr Z.add 0 iov) fd);
  k_write fd bs := ideal_on fd (ideal_write bs fd);
  k_writev fd iov := ideal_on fd (ideal_write (concat iov) fd);
  k_getfl fd w := match fds w !! fd with
                  | Some d => if 0 <=? d_flags d then (Ok (d_flags d), w) else (Err 22, w)
                  | None => (Err 9, w)
                  end;
  k_setfl fd f w := match fds w !! fd with
                    | Some d => (Ok 0, Net (alter (fun d => set_flags d f) fd (fds w)) (sigs w))
                    | None => (Err 9, w)
                    end;
  k_setsockopt _ _ _ _ w := ideal_ok w;
  k_getsockopt _ _ _ w := ideal_ok w;
  k_pipe w :=
    let r := next_fd (fds w) in
    let m := <[r := Desc [] [] None 0 0]> (fds w) in
    (Ok (r, r + 1), Net (<[r + 1 := Desc [] [] (Some r) 0 0]> m) (sigs w));
}.

Lemma ideal_on_law {A} (fd : Z) f (w : net) (a : answer A) w' (ok : answer A -> Prop) :
  (forall e, failed w e w' -> ok (Err e)) ->
  (forall d, sigs w = 0%nat -> fds w !! fd = Some d -> f d w = (a, w') -> ok a) ->
  ideal_on fd f w = (a, w') -> ok a.
Proof.
  intros He Hf. unfold ideal_on. destruct (sigs w) as [|n] eqn:Es.
  - destruct (fds w !! fd) as [d|] eqn:Ed; [by apply Hf|].
    intros [= <- <-]. apply He. split_and!; [lia|done|lia|done].
  - intros [= <- <-]. apply He. split_and!; [unfold EINTR; lia|done|simpl; lia|simpl; lia].
Qed.

Lemma ideal_read_law n fd (w : net) a w' :
  ideal_on fd (ideal_read n fd) w = (a, w') -> read_law fd n w a w'.
Proof.
  apply (ideal_on_law _ _ _ _ _ (fun a => read_law fd n w a w')); [done|].
  intros d _ Hd. unfold ideal_read, read_law. case_zcmp.
  - intros [= <- <-]. exists d, (drop (Z.to_nat n) (d_in d)). split_and!; try done.
    + by rewrite take_drop.
    + unfold zlen. rewrite length_take. lia.
    + intros Ht _. destruct (d_in d) as [|b l]; [by rewrite drop_nil|].
      assert (Z.to_nat n = S (Nat.pred (Z.to_nat n))) as E by lia. by rewrite E in Ht.
  - intros [= <- <-]. split_and!; [lia|done|lia|done].
Qed.

Lemma ideal_write_law bs fd (w : net) a w' :
  ideal_on fd (ideal_write bs fd) w = (a, w') -> write_law fd bs w a w'.
Proof.
  apply (ideal_on_law _ _ _ _ _ (fun a => write_law fd bs w a w')); [done|].
  intros d _ Hd. unfold ideal_write, write_law. intros [= <- <-].
  split; [by rewrite Hd|]. split; [len_lia|].
  unfold zlen at 1. rewrite Nat2Z.id, take_ge by done. done.
Qed.

#[export] Instance ideal_laws : KernelLaws net.
Proof.
  refine {| view w := w |}; simpl.
  - intros _ _ _ k a k' [= <- <-]. split; [pose proof (next_fd_bound (fds k)); lia|].
    split; [apply next_fd_fresh|]. by exists fresh_desc.
  - intros _ _ k a k' [= <- <-]. simpl. by split.
  - intros _ _ k a k' [= <- <-]. simpl. by split.
  - intros _ _ k a k' [= <- <-]. simpl. by split.
  - intros sd nb k a k'.
    apply (ideal_on_law _ _ _ _ _ (fun a => match a with
      | Err e => failed k e k'
      | Ok fd => exists d n, fds k !! sd = Some d /\ d_pend d = S n /\
          fresh_law fd (<[sd := set_pend d n]> (fds k)) k k' /\
          (nb = true -> forall d', fds k' !! fd = Some d' ->
             Z.land (d_flags d') O_NONBLOCK = O_NONBLOCK)
      end)); [done|].
    intros d Hs Hd. destruct (d_pend d) as [|n] eqn:En.
    + intros [= <- <-]. unfold failed, EAGAIN, EINTR. split_and!; [lia|done|lia|lia].
    + intros [= <- <-]. exists d, n. split_and!; [done..| |].
      * split; [pose proof (next_fd_bound (fds k)); lia|]. split; [apply next_fd_fresh|].
        eexists. split; [|done]. done.
      * intros -> d' Hl. simpl in Hl. rewrite lookup_insert_eq in Hl.
        injection Hl as <-. reflexivity.
  - intros fd k a k' [= <- <-]. simpl. split_and!; [lia|done|]. by destruct (fds k !! fd).
  - intros fd n k a k'. apply ideal_read_law.
  - intros fd iov k a k'. apply ideal_read_law.
  - intros fd bs k a k'. apply ideal_write_law.
  - intros fd iov k a k'. apply ideal_write_law.
  - intros fd k a k'. destruct (fds k !! fd) as [d|] eqn:Ed; [case_zcmp|].
    + intros [= <- <-]. split_and!; [done..|]. by exists d.
    + intros [= <- <-]. unfold failed, EINTR. split_and!; [lia|done|lia|lia].
    + intros [= <- <-]. unfold failed, EINTR. split_and!; [lia|done|lia|lia].
  - intros fd f k a k'. destruct (fds k !! fd) as [d|] eqn:Ed.
    + intros [= <- <-]. done.
    + intros [= <- <-]. unfold failed, EINTR. split_and!; [lia|done|lia|lia].
  - intros _ _ _ _ k a k' [= <- <-]. simpl. by split.
  - intros _ _ _ k a k' [= <- <-]. simpl. by split.
  - intros k a k' [= <- <-]. pose proof (next_fd_bound (fds k)) as [H3 Hb].
    split_and!; try done; [lia..|apply next_fd_fresh|].
    apply eq_None_not_Some. intros H. apply Hb in H. lia.
Defined.
