(* ===== verification/Signal.v ===== *)
(** * Signal handlers (include/cc_signal.h, src/cc_signal.c)

    [signals] is the library's table of overridden handlers, of SIGNAL_MAX
    entries; sigaction is the operating system's and a parameter. *)

From S2P Require Import Prelude Sys.
Local Open Scope Z_scope.

Definition SIGNAL_MIN : Z := 1.
Definition SIGNAL_MAX : Z := 31.

Definition SIGHUP : Z := 1.
Definition SIGSEGV : Z := 11.
Definition SIGPIPE : Z := 13.

(** A handler: a default action or a function, named by a number. *)
Inductive sig_fn := SIG_DFL | SIG_IGN | Handler (f : Z).

Record signal := Signal { sg_info : string; sg_flags : Z; sg_handler : sig_fn; sg_mask : Z }.

(** What sigaction is given: the fields of struct sigaction. *)
Record sigact := Sigact { sa_flags : Z; sa_handler : sig_fn; sa_mask : list Z }.

Class SigKernel (K : Type) := k_sigaction : Z -> sigact -> K -> answer Z * K.

Section Signal.
Context {K : Type} `{!SigKernel K}.

(** for (i = SIGNAL_MIN; i < SIGNAL_MAX; ++i) if ((1 << i) & mask) sigaddset *)
Definition mask_set (mask : Z) : list Z :=
  filter (fun i => Z.land (Z.shiftl 1 i) mask ≠ 0) (seqZ SIGNAL_MIN (SIGNAL_MAX - SIGNAL_MIN)).

(** Storing into signals[signo] outside the table is undefined. *)
Definition signal_override (signo : Z) (info : string) (flags mask : Z) (handler : sig_fn)
  : st (list signal * proc K) Z :=
  tbl ← on_fst get;
  if (0 <=? signo) && (signo <? zlen tbl) then
    let sg := Signal info flags handler mask in
    on_fst (modify (fun _ => <[Z.to_nat signo := sg]> tbl));;
    on_snd (call (k_sigaction signo (Sigact (sg_flags sg) (sg_handler sg) (mask_set mask))))
  else stuck.

(** channel_sigpipe_ignore of channel/cc_channel.h *)
Definition channel_sigpipe_ignore : st (list signal * proc K) Z :=
  signal_override SIGPIPE "ignoring sigpipe" 0 0 SIG_IGN.

(** The names signal_override logs, without CC_HAVE_SIGNAME. *)
Definition sys_signame : list string := [
  "UNDEFINED"; "SIGHUP"; "SIGINT"; "SIGQUIT"; "SIGILL"; "SIGTRAP"; "SIGABRT"; "SIGEMT";
  "SIGFPE"; "SIGKILL"; "SIGBUS"; "SIGSEGV"; "SIGSYS"; "SIGPIPE"; "SIGALRM"; "SIGTERM";
  "SIGURG"; "SIGSTOP"; "SIGTSTP"; "SIGCONT"; "SIGCHLD"; "SIGTTIN"; "SIGTTOU"; "SIGIO";
  "SIGXCPU"; "SIGXFSZ"; "SIGVTALRM"; "SIGPROF"; "SIGWINCH"; "SIGINFO"; "SIGUSR1"; "SIGUSR2"
].

(** The table before any handler is overridden (static storage, all zero). *)
Definition signals_init : list signal :=
  replicate (Z.to_nat SIGNAL_MAX) (Signal "" 0 SIG_DFL 0).

(** Bit i of the mask selects signal i, for the signals 1 to 30. *)
Lemma mask_set_spec mask i :
  i ∈ mask_set mask <-> SIGNAL_MIN <= i < SIGNAL_MAX /\ Z.testbit mask i = true.
Proof.
  unfold mask_set, SIGNAL_MIN, SIGNAL_MAX.
  rewrite list_elem_of_filter, elem_of_seqZ.
  assert (Hbit : 0 <= i -> Z.land (Z.shiftl 1 i) mask ≠ 0 <-> Z.testbit mask i = true).
  { intros Hi. rewrite Z.shiftl_1_l. split.
    - intros Hne. destruct (Z.testbit mask i) eqn:E; [done|]. exfalso. apply Hne.
      apply Z.bits_inj'. intros n Hn. rewrite Z.land_spec, Z.bits_0, Z.pow2_bits_eqb by lia.
      destruct (Z.eqb_spec i n) as [<-|]; [by rewrite E|done].
    - intros E H0. assert (H := f_equal (fun z => Z.testbit z i) H0). simpl in H.
      rewrite Z.land_spec, Z.bits_0, Z.pow2_bits_true, E in H by lia. done. }
  split; [intros [Hb Hi]|intros [Hi Hb]]; (split; [|lia || idtac]); try lia; apply Hbit; try done; lia.
Qed.

(** signal_override fills the entry of its signal and no other, asks the system
    for exactly the handler, the flags and the signals of the mask, and passes
    its status on. *)
Theorem signal_override_spec (tbl : list signal) (p : proc K) signo info flags mask handler :
  zlen tbl = SIGNAL_MAX -> 0 <= signo < SIGNAL_MAX ->
  wp (signal_override signo info flags mask handler)
    (fun r s =>
       s.1 !! Z.to_nat signo = Some (Signal info flags handler mask) /\
       (forall j, j ≠ Z.to_nat signo -> s.1 !! j = tbl !! j) /\ zlen s.1 = SIGNAL_MAX /\
       match k_sigaction signo (Sigact flags handler (mask_set mask)) (kern p) with
       | (Ok x, k) => r = x /\ s.2 = Proc k (errno p)
       | (Err e, k) => r = -1 /\ s.2 = Proc k e
       end) (tbl, p).
Proof.
  intros Hl Hs. unfold signal_override. repeat wp_step. apply wp_get.
  rewrite Hl. destruct (Z.leb_spec 0 signo), (Z.ltb_spec signo SIGNAL_MAX); try lia. simpl.
  assert (Ht : <[Z.to_nat signo := Signal info flags handler mask]> tbl !! Z.to_nat signo =
    Some (Signal info flags handler mask)).
  { apply list_lookup_insert_eq. unfold zlen in Hl. lia. }
  assert (Hz : zlen (<[Z.to_nat signo := Signal info flags handler mask]> tbl) = SIGNAL_MAX).
  { unfold zlen. by rewrite length_insert. }
  assert (Hne : forall j, j ≠ Z.to_nat signo ->
    <[Z.to_nat signo := Signal info flags handler mask]> tbl !! j = tbl !! j).
  { intros j Hj. by apply list_lookup_insert_ne. }
  repeat wp_step; intros ? ? E; simpl; by rewrite E.
Qed.

End Signal.

(** A system that accepts every sigaction. *)
#[export] Instance ideal_sigaction : SigKernel net := fun _ _ w => (Ok 0, w).

Lemma signal_override_spec_witness :
  exists s, signal_override SIGPIPE "x" 0 2 SIG_IGN (signals_init, Proc (Net ∅ 0) 0) = Some (0, s) /\
    s.1 !! 13%nat = Some (Signal "x" 0 SIG_IGN 2).
Proof.
  destruct (signal_override_spec (K := net) signals_init (Proc (Net ∅ 0) 0) SIGPIPE "x" 0 2 SIG_IGN)
    as (r & s & E & H1 & _ & _ & H2 & _); [reflexivity|vm_compute; split; congruence|].
  exists s. rewrite H2 in E. split; [exact E|exact H1].
Defined.

(** The entry of signal 31 lies outside the table. *)
Example signal_override_31 :
  signal_override SIGNAL_MAX "x" 0 0 SIG_IGN (signals_init, Proc (Net ∅ 0) 0) = None.
Proof. reflexivity. Qed.

(** Signal numbers of Linux (signal(7), x86 and ARM).  The table has the order of
    BSD: signal_override names these signals wrongly in its log. *)
Definition linux_signals : list (Z * string) :=
  [(7, "SIGBUS"); (10, "SIGUSR1"); (12, "SIGUSR2"); (17, "SIGCHLD"); (18, "SIGCONT"); (19, "SIGSTOP");
   (20, "SIGTSTP"); (23, "SIGURG"); (29, "SIGIO"); (31, "SIGSYS")]%string.

Lemma signame_wrong : Forall (fun '(n, s) => exists s', sys_signame !! Z.to_nat n = Some s' /\ s' ≠ s) linux_signals.
Proof. repeat constructor; by eexists. Qed.
