(* ===== verification/Channel.v ===== *)
(** * The channel interface (include/channel/cc_channel.h)

    Channel levels and states, and the table of operations through which streams
    use a channel.  [C] is the type of channel handles, [S] the state the
    operations run on. *)

From S2P Require Import Prelude Metric Sys.
Local Open Scope Z_scope.

Inductive ch_level_e := CHANNEL_INVALID | CHANNEL_META | CHANNEL_BASE.

Inductive ch_state :=
| CHANNEL_UNKNOWN
| CHANNEL_LISTEN
| CHANNEL_OPEN
| CHANNEL_ESTABLISHED
| CHANNEL_TERM
| CHANNEL_ERROR.

#[export] Instance ch_level_eq_dec : EqDecision ch_level_e.
Proof. solve_decision. Defined.
#[export] Instance ch_state_eq_dec : EqDecision ch_state.
Proof. solve_decision. Defined.

(** channel_handler_st; a NULL entry is [None].  recv returns the result with
    the bytes placed in the buffer, send takes the bytes of the buffer. *)
Record channel_handler (S C A : Type) := ChannelHandler {
  h_accept : option (C -> C -> st S bool);
  h_reject : option (C -> st S unit);
  h_open : option (A -> C -> st S bool);
  h_term : option (C -> st S unit);
  h_recv : option (C -> Z -> st S (Z * list byte));
  h_send : option (C -> list byte -> st S Z);
  h_rid : option (C -> st S Z);
  h_wid : option (C -> st S Z);
}.
Arguments ChannelHandler {S C A} _ _ _ _ _ _ _ _.
Arguments h_recv {S C A} _.
Arguments h_send {S C A} _.

(** ** Byte ranges given by vectors

    readv fills the buffers of a vector in order, writev takes their bytes in
    order. *)

Fixpoint scatter (bs : list byte) (iov : list (list byte)) : list (list byte) :=
  match iov with
  | [] => []
  | b :: iov =>
      (take (length b) bs ++ drop (length bs) b) :: scatter (drop (length b) bs) iov
  end.

(** What was scattered is the beginning of the vector's bytes, and the buffers
    keep their sizes and the bytes behind it. *)
Lemma scatter_spec bs iov :
  (length bs <= length (concat iov))%nat ->
  concat (scatter bs iov) = bs ++ drop (length bs) (concat iov) /\
  map length (scatter bs iov) = map length iov.
Proof.
  revert bs. induction iov as [|b iov IH]; intros bs; simpl.
  - destruct bs; simpl; [done|lia].
  - rewrite length_app. intros Hl.
    destruct (IH (drop (length b) bs)) as [IH1 IH2]; [rewrite length_drop; lia|].
    rewrite IH1, IH2. split.
    + rewrite length_drop, <- app_assoc. destruct (Nat.le_ge_cases (length bs) (length b)).
      * rewrite (take_ge bs) by lia. rewrite (drop_ge bs (length b)) by lia.
        simpl. replace (length bs - length b)%nat with 0%nat by lia.
        rewrite drop_0, drop_app_le by lia. done.
      * rewrite (drop_ge b) by lia. simpl. rewrite app_assoc, take_drop.
        rewrite drop_app_ge by lia. done.
    + f_equal. rewrite length_app, length_take, length_drop. lia.
Qed.

Lemma concat_zlen (iov : list (list byte)) : foldr Z.add 0 (map zlen iov) = zlen (concat iov).
Proof. induction iov as [|b iov IH]; simpl; [done|]. rewrite IH, zlen_app. done. Qed.

Lemma scatter_take (bs : list byte) iov :
  zlen bs <= foldr Z.add 0 (map zlen iov) -> take (length bs) (concat (scatter bs iov)) = bs.
Proof.
  rewrite concat_zlen. unfold zlen. intros H.
  destruct (scatter_spec bs iov) as [-> _]; [lia|]. by rewrite take_app_length.
Qed.

Lemma scatter_nil iov : scatter [] iov = iov.
Proof. induction iov as [|b iov IH]; simpl; [done|]. by rewrite !take_nil, !drop_nil, IH. Qed.

(** ** What a receive and a send may do

    [m] are the open descriptors and [c] the channel before the call, the
    indices the result, the bytes received, the channel and the descriptors
    after it.  [on_data], [on_eof] and [on_err] are the updates of the channel. *)

Section Cases.
Context {C : Type} (on_data : Z -> C -> C) (on_eof : C -> C) (on_err : Z -> C -> C).
Context (fd : Z) (m : gmap Z desc) (c : C).

Inductive recv_case (nbyte : Z) : Z -> list byte -> C -> gmap Z desc -> Prop :=
| Recv_data d bs rest :
    m !! fd = Some d -> d_in d = bs ++ rest -> 0 < zlen bs <= nbyte ->
    recv_case nbyte (zlen bs) bs (on_data (zlen bs) c) (<[fd := set_in d rest]> m)
| Recv_eof d :
    m !! fd = Some d -> (0 < nbyte -> d_in d = []) -> recv_case nbyte 0 [] (on_eof c) m
| Recv_again : recv_case nbyte CC_EAGAIN [] c m
| Recv_error e :
    0 < e -> e ≠ EINTR -> e ≠ EAGAIN -> recv_case nbyte CC_ERROR [] (on_err e c) m.

Inductive send_case (bs : list byte) : Z -> C -> gmap Z desc -> Prop :=
| Send_data n :
    is_Some (m !! fd) -> 0 < n <= zlen bs ->
    send_case bs n (on_data n c) (written m fd (take (Z.to_nat n) bs))
| Send_zero : send_case bs 0 c m
| Send_again : send_case bs CC_EAGAIN c m
| Send_error e :
    0 < e -> e ≠ EINTR -> e ≠ EAGAIN -> send_case bs CC_ERROR (on_err e c) m.

End Cases.

Lemma set_in_id (d : desc) : set_in d (d_in d) = d.
Proof. by destruct d. Qed.

Lemma written_nil m fd : written m fd [] = m.
Proof.
  unfold written. destruct (m !! fd) as [d|] eqn:E; [|done].
  assert (add_out [] d = d) as -> by (destruct d; unfold add_out; simpl; by rewrite app_nil_r).
  rewrite insert_id by done. destruct (d_peer d) as [r|]; [|done].
  apply map_eq. intros x. destruct (decide (x = r)) as [->|].
  - rewrite lookup_alter_eq. destruct (m !! r) as [d'|]; simpl; [|done].
    unfold add_in. by rewrite app_nil_r, set_in_id.
  - by rewrite lookup_alter_ne.
Qed.

(** What the kernel's laws say of a read that moved nothing. *)
Lemma read_zero fd n (v v' : net) bs :
  read_law fd n v (Ok bs) v' -> zlen bs = 0 ->
  bs = [] /\ fds v' = fds v /\ exists d, fds v !! fd = Some d /\ (0 < n -> d_in d = []).
Proof.
  intros (d & rest & Hd & Hi & _ & He & Hm & _) Hz.
  assert (bs = []) as -> by (destruct bs; [done|unfold zlen in Hz; simpl in Hz; lia]).
  simpl in Hi. subst rest. split; [done|]. rewrite set_in_id in Hm. split.
  - rewrite Hm. by apply insert_id.
  - exists d. split; [done|]. intros Hn. by apply He.
Qed.

Lemma read_some fd n (v v' : net) bs :
  read_law fd n v (Ok bs) v' -> 0 < zlen bs ->
  exists d rest, fds v !! fd = Some d /\ d_in d = bs ++ rest /\ zlen bs <= n /\
    fds v' = <[fd := set_in d rest]> (fds v).
Proof. intros (d & rest & Hd & Hi & Hn & _ & Hm & _) _. eauto 8. Qed.

(** The effect on the descriptors, whatever the outcome. *)
Lemma recv_effect {C} f g h fd (m m' : gmap Z desc) (c c' : C) nbyte n bs d :
  recv_case f g h fd m c nbyte n bs c' m' -> m !! fd = Some d ->
  (exists d', m' !! fd = Some d' /\ d_in d = bs ++ d_in d' /\ d_out d' = d_out d /\
     d_peer d' = d_peer d) /\
  (forall fd', fd' ≠ fd -> m' !! fd' = m !! fd') /\ zlen bs = Z.max 0 n /\
  zlen bs <= Z.max 0 nbyte.
Proof.
  intros Hr Hd. pose proof (zlen_nonneg bs).
  destruct Hr as [d0 bs rest Hd0 Hi Hn|d0 Hd0 Hi| |e He1 He2 He3]; simplify_eq.
  - split; [|split; [|split; lia]].
    + exists (set_in d0 rest). rewrite lookup_insert_eq. done.
    + intros fd' Hne. by rewrite lookup_insert_ne.
  - split; [|split_and!; [done..|apply Z.le_max_l]]. by exists d0.
  - split; [|split_and!; [done..|apply Z.le_max_l]]. by exists d.
  - split; [|split_and!; [done..|apply Z.le_max_l]]. by exists d.
Qed.

Lemma send_effect {C} f h fd (m m' : gmap Z desc) (c c' : C) bs n d :
  send_case f h fd m c bs n c' m' -> m !! fd = Some d -> d_peer d = None ->
  (exists d', m' !! fd = Some d' /\ d_out d' = d_out d ++ take (Z.to_nat n) bs /\
     d_in d' = d_in d /\ d_peer d' = None) /\
  (forall fd', fd' ≠ fd -> m' !! fd' = m !! fd') /\
  zlen (take (Z.to_nat n) bs) = Z.max 0 n.
Proof.
  intros Hs Hd Hp. pose proof (zlen_nonneg bs).
  destruct Hs as [n Hi Hn| | |e He1 He2 He3].
  - unfold written. rewrite Hd, Hp. rewrite zlen_take by lia. split; [|split; [|lia]].
    + eexists. by rewrite lookup_insert_eq.
    + intros fd' Hne. by rewrite lookup_insert_ne.
  - split; [|done]. exists d. by rewrite app_nil_r.
  - split; [|done]. exists d. by rewrite app_nil_r.
  - split; [|done]. exists d. by rewrite app_nil_r.
Qed.

(** The tail of the receive and send loops, after a failed call: retry on EINTR,
    else report.  [IH] is the induction hypothesis of the loop, [step] the
    module's stepping tactic. *)
Ltac io_fails step IH Hfail tc :=
  destruct Hfail as (He & Hm & Hs & Hi); simpl; repeat step tt; simpl; repeat step tt; simpl;
  match type of He with
  | 0 < ?e =>
    destruct (Z.eqb_spec e EINTR) as [->|Hne];
    [ specialize (Hi eq_refl); eapply wp_mono; [apply IH; [done|simpl; lia]|];
      intros r [w' p'] Hr; try (destruct r as [n bs]);
      destruct Hr as (tc' & k & Hr & Ht & Hs' & He' & C1 & C2 & C3); simpl in *;
      exists tc', (S k); rewrite <- Hm; split_and!;
      [done|apply Ht..|lia|done|counts_then C1|counts_then C2|counts_then C3]
    | change EWOULDBLOCK with EAGAIN; rewrite orb_diag;
      destruct (Z.eqb_spec e EAGAIN) as [->|Hne2]; repeat step tt; simpl; rewrite <- Hm;
      [ exists tc, 0%nat; split; [first [by constructor|by eexists; split; [constructor|rewrite ?scatter_nil]]|]; split; [by split; [rewrite insert_id|]|];
        split; [done|]; split; [done|]; change (CC_EAGAIN <? 0) with true; split_and!; counts
      | eexists _, 0%nat; split; [first [by constructor|by eexists; split; [constructor|rewrite ?scatter_nil]]|]; split; [done|];
        split; [done|]; split; [done|]; change (CC_ERROR <? 0) with true; split_and!; counts ] ]
  end.
