(* ===== verification/Tcp.v ===== *)
(** * TCP channels (include/channel/cc_tcp.h, src/channel/cc_tcp.c)

    A [tcp_conn] is the struct; its link lives in the queue memory.  [tcp_world]
    is the module's state beside the pool: the live connections, the answers of
    the allocator still to come, tcp_metrics and max_backlog.  The operations on
    sockets run on [tcp_world] and the process ([Sys]); logging is left out
    (_log restores errno).  [accept4] says whether the build has accept4. *)

From S2P Require Import Prelude Metric Mm Queue Pool Pooled Sys Signal Channel.
Local Open Scope Z_scope.

Definition TCP_BACKLOG : Z := 128.
Definition TCP_POOLSIZE : Z := 0.
Definition MiB : Z := 1048576.

Record tcp_conn := TcpConn {
  tc_free : bool;
  tc_level : ch_level_e;
  tc_sd : Z;
  tc_recv_nbyte : Z;
  tc_send_nbyte : Z;
  tc_state : ch_state;
  tc_flags : Z;
  tc_err : Z;
}.

Definition set_free (b : bool) (c : tcp_conn) : tcp_conn :=
  TcpConn b (tc_level c) (tc_sd c) (tc_recv_nbyte c) (tc_send_nbyte c) (tc_state c) (tc_flags c)
    (tc_err c).
Definition set_level (l : ch_level_e) (c : tcp_conn) : tcp_conn :=
  TcpConn (tc_free c) l (tc_sd c) (tc_recv_nbyte c) (tc_send_nbyte c) (tc_state c) (tc_flags c)
    (tc_err c).
Definition set_sd (sd : Z) (c : tcp_conn) : tcp_conn :=
  TcpConn (tc_free c) (tc_level c) sd (tc_recv_nbyte c) (tc_send_nbyte c) (tc_state c) (tc_flags c)
    (tc_err c).
Definition set_state (x : ch_state) (c : tcp_conn) : tcp_conn :=
  TcpConn (tc_free c) (tc_level c) (tc_sd c) (tc_recv_nbyte c) (tc_send_nbyte c) x (tc_flags c)
    (tc_err c).
Definition set_err (e : Z) (c : tcp_conn) : tcp_conn :=
  TcpConn (tc_free c) (tc_level c) (tc_sd c) (tc_recv_nbyte c) (tc_send_nbyte c) (tc_state c)
    (tc_flags c) e.
Definition add_recv (n : Z) (c : tcp_conn) : tcp_conn :=
  TcpConn (tc_free c) (tc_level c) (tc_sd c) (u64 (tc_recv_nbyte c + n)) (tc_send_nbyte c)
    (tc_state c) (tc_flags c) (tc_err c).
Definition add_send (n : Z) (c : tcp_conn) : tcp_conn :=
  TcpConn (tc_free c) (tc_level c) (tc_sd c) (tc_recv_nbyte c) (u64 (tc_send_nbyte c + n))
    (tc_state c) (tc_flags c) (tc_err c).

(** tcp_conn_reset, the part on the struct; its first line clears the link. *)
Definition tcp_conn_reset (c : tcp_conn) : tcp_conn :=
  TcpConn false CHANNEL_INVALID 0 0 0 CHANNEL_UNKNOWN 0 0.
Definition tcp_conn_reset_next (m : qmem) (p : positive) : qmem := sq_clear_next m p.

Definition tcp_read_id (c : tcp_conn) : Z := tc_sd c.
Definition tcp_write_id (c : tcp_conn) : Z := tc_sd c.

(** ** Resource management *)

Record tcp_world := TcpWorld {
  conns : gmap positive tcp_conn;
  conn_answers : list (option positive);
  tcp_metrics : metrics_st;
  max_backlog : Z;
}.

Definition set_conns (w : tcp_world) (cs : gmap positive tcp_conn) : tcp_world :=
  TcpWorld cs (conn_answers w) (tcp_metrics w) (max_backlog w).
Definition on_metrics (f : metrics_st -> metrics_st) (w : tcp_world) : tcp_world :=
  TcpWorld (conns w) (conn_answers w) (f (tcp_metrics w)) (max_backlog w).

(** The next answer of malloc; an address in use is not one it gives. *)
Definition next_conn (w : tcp_world) : option positive * tcp_world :=
  match conn_answers w with
  | [] => (None, w)
  | a :: rest =>
      (match a with
       | Some p => if decide (conns w !! p = None) then Some p else None
       | None => None
       end, TcpWorld (conns w) rest (tcp_metrics w) (max_backlog w))
  end.

(** The bytes malloc returns are arbitrary; tcp_conn_reset sets every field. *)
Definition tcp_conn_create (m : qmem) (w : tcp_world) : option positive * (qmem * tcp_world) :=
  match next_conn w with
  | (None, w) => (None, (m, on_metrics (fun ms => INCR ms "tcp_conn_create_ex") w))
  | (Some p, w) =>
      let fresh := TcpConn false CHANNEL_INVALID 0 0 0 CHANNEL_UNKNOWN 0 0 in
      let w := set_conns w (<[p := tcp_conn_reset fresh]> (conns w)) in
      (Some p, (tcp_conn_reset_next m p,
        on_metrics (fun ms => INCR (INCR ms "tcp_conn_create") "tcp_conn_curr") w))
  end.

(** tcp_conn_destroy(struct tcp_conn **conn): the pointer *conn and the new
    value of it; freeing what is not live is undefined. *)
Definition tcp_conn_destroy (c : option positive) (w : tcp_world)
  : option (option positive * tcp_world) :=
  match c with
  | None => Some (None, w)
  | Some p =>
      match conns w !! p with
      | Some _ =>
          Some (None, on_metrics (fun ms => DECR (INCR ms "tcp_conn_destroy") "tcp_conn_curr")
                        (set_conns w (delete p (conns w))))
      | None => None
      end
  end.

#[export] Instance tcp_pool_client : PoolClient qmem tcp_world := {
  pc_create := tcp_conn_create;
  pc_destroy p m w := (m, match tcp_conn_destroy (Some p) w with Some (_, w) => w | None => w end);
}.

Record tcp_module := TcpModule {
  cp : pstate qmem tcp_world;
  cp_init : bool;
  tcp_init : bool;
}.

Definition set_cp (s : tcp_module) (p : pstate qmem tcp_world) : tcp_module :=
  TcpModule p (cp_init s) (tcp_init s).

Definition tcp_conn_pool_destroy (fuel : nat) (s : tcp_module) : option tcp_module :=
  if negb (cp_init s) then Some s else
  p ← FREEPOOL_DESTROY fuel (cp s);
  Some (TcpModule p false (tcp_init s)).

Definition tcp_conn_pool_create (fuel : nat) (max : Z) (s : tcp_module)
  : option (outcome tcp_module) :=
  s ← (if cp_init s then tcp_conn_pool_destroy fuel s else Some s);
  p ← FREEPOOL_PREALLOC fuel (FREEPOOL_CREATE (cp s) max) max;
  Some (if nfree (ctl p) <? max then Exits else Returns (TcpModule p true (tcp_init s))).

Definition upd_world (s : tcp_module) (f : tcp_world -> tcp_world) : tcp_module :=
  set_cp s (PState (mem (cp s)) (ctl (cp s)) (f (world (cp s)))).

Definition tcp_conn_borrow (s : tcp_module) : option (option positive * tcp_module) :=
  '(r, p) ← FREEPOOL_BORROW (cp s);
  match r with
  | None =>
      Some (None, upd_world (set_cp s p) (on_metrics (fun ms => INCR ms "tcp_conn_borrow_ex")))
  | Some c =>
      let p := PState (tcp_conn_reset_next (mem p) c) (ctl p)
                 (set_conns (world p) (alter tcp_conn_reset c (conns (world p)))) in
      Some (Some c, upd_world (set_cp s p)
        (on_metrics (fun ms => INCR (INCR ms "tcp_conn_borrow") "tcp_conn_active")))
  end.

(** [None] is a NULL argument, [Some None] a pointer to NULL. *)
Definition tcp_conn_return (c : option (option positive)) (s : tcp_module)
  : option (option (option positive) * tcp_module) :=
  match c with
  | Some (Some x) =>
      tc ← conns (world (cp s)) !! x;
      if tc_free tc then Some (c, s) else
      let s := upd_world s (fun w => set_conns w (alter (set_free true) x (conns w))) in
      let s := set_cp s (FREEPOOL_RETURN (cp s) x) in
      Some (Some None, upd_world s
        (on_metrics (fun ms => DECR (INCR ms "tcp_conn_return") "tcp_conn_active")))
  | _ => Some (c, s)
  end.

Section Setup.
Context {K : Type} `{!SigKernel K}.

(** [options]: tcp_backlog and tcp_poolsize. *)
Definition tcp_setup (fuel : nat) (options : option (Z * Z)) (metrics : metrics_st)
  : st (tcp_module * (list signal * proc K)) (outcome unit) := fun '(s, sys) =>
  let w := world (cp s) in
  let max := match options with Some (_, n) => u32 n | None => TCP_POOLSIZE end in
  let backlog := match options with Some (n, _) => i32 n | None => max_backlog w end in
  let w := TcpWorld (conns w) (conn_answers w) metrics backlog in
  r ← tcp_conn_pool_create fuel max (set_cp s (PState (mem (cp s)) (ctl (cp s)) w));
  match r with
  | Exits => Some (Exits, (s, sys))
  | Returns s =>
      '(_, sys) ← channel_sigpipe_ignore sys;
      Some (Returns tt, (TcpModule (cp s) (cp_init s) true, sys))
  end.

End Setup.

Definition tcp_teardown (fuel : nat) (s : tcp_module) : option tcp_module :=
  s ← tcp_conn_pool_destroy fuel s;
  let s := upd_world s (on_metrics (fun _ => None)) in
  Some (TcpModule (cp s) (cp_init s) false).

(** ** Sockets *)

Section IO.
Context {K : Type} `{!Kernel K}.

Abbreviation io A := (st (tcp_world * proc K) A).

(** c->...: a connection that is not live is undefined behaviour. *)
Definition conn (c : positive) : io tcp_conn := on_fst (fun w =>
  match conns w !! c with Some tc => Some (tc, w) | None => None end).
Definition upd_conn (c : positive) (f : tcp_conn -> tcp_conn) : io unit := on_fst (fun w =>
  match conns w !! c with
  | Some tc => Some (tt, set_conns w (<[c := f tc]> (conns w)))
  | None => None
  end).
Definition incr (field : string) : io unit :=
  on_fst (modify (on_metrics (fun ms => INCR ms field))).
Definition incr_n (field : string) (n : Z) : io unit :=
  on_fst (modify (on_metrics (fun ms => INCR_N ms field n))).

Definition tcp_set_blocking (sd : Z) : io Z :=
  flags ← on_snd (c_getfl sd);
  if flags <? 0 then mret flags
  else on_snd (c_setfl sd (Z.land flags (Z.lnot O_NONBLOCK))).

Definition tcp_set_nonblocking (sd : Z) : io Z :=
  flags ← on_snd (c_getfl sd);
  if flags <? 0 then mret flags
  else on_snd (c_setfl sd (Z.lor flags O_NONBLOCK)).

Definition tcp_set_reuseaddr (sd : Z) : io Z :=
  on_snd (c_setsockopt sd SOL_SOCKET SO_REUSEADDR [1]).
Definition tcp_set_tcpnodelay (sd : Z) : io Z :=
  on_snd (c_setsockopt sd IPPROTO_TCP TCP_NODELAY [1]).
Definition tcp_set_keepalive (sd : Z) : io Z :=
  on_snd (c_setsockopt sd SOL_SOCKET SO_KEEPALIVE [1]).
Definition tcp_set_linger (sd timeout : Z) : io Z :=
  on_snd (c_setsockopt sd SOL_SOCKET SO_LINGER [1; timeout]).
Definition tcp_unset_linger (sd : Z) : io Z :=
  on_snd (c_setsockopt sd SOL_SOCKET SO_LINGER [0; 0]).
Definition tcp_set_sndbuf (sd size : Z) : io Z :=
  on_snd (c_setsockopt sd SOL_SOCKET SO_SNDBUF [size]).
Definition tcp_set_rcvbuf (sd size : Z) : io Z :=
  on_snd (c_setsockopt sd SOL_SOCKET SO_RCVBUF [size]).

Definition tcp_get_sndbuf (sd : Z) : io Z :=
  '(status, size) ← on_snd (c_getsockopt sd SOL_SOCKET SO_SNDBUF);
  if status <? 0 then mret status else mret size.

Definition tcp_get_rcvbuf (sd : Z) : io Z :=
  '(status, size) ← on_snd (c_getsockopt sd SOL_SOCKET SO_RCVBUF);
  if status <? 0 then mret status else mret size.

Definition tcp_get_soerror (sd : Z) : io Z :=
  '(status, err) ← on_snd (c_getsockopt sd SOL_SOCKET SO_ERROR);
  if status =? 0 then on_snd (set_errno err);; mret status else mret status.

(** The while loop of tcp_maximize_sndbuf; min + max stays below 2^31. *)
Fixpoint maximize_loop (fuel : nat) (sd min max : Z) : io unit :=
  if min <=? max then
    match fuel with
    | O => stuck
    | S fuel =>
        let avg := Z.quot (min + max) 2 in
        status ← tcp_set_sndbuf sd avg;
        if negb (status =? 0) then maximize_loop fuel sd min (avg - 1)
        else maximize_loop fuel sd (avg + 1) max
    end
  else mret tt.

Definition tcp_maximize_sndbuf (fuel : nat) (sd : Z) : io unit :=
  min ← tcp_get_sndbuf sd;
  if min <? 0 then mret tt else maximize_loop fuel sd min (256 * MiB).

(** The error label of tcp_connect. *)
Definition connect_error (c : positive) : io bool :=
  e ← on_snd c_errno;
  upd_conn c (set_err e);;
  tc ← conn c;
  (if 0 <? tc_sd tc then on_snd (c_close (tc_sd tc)) else mret 0);;
  incr "tcp_connect_ex";;
  mret false.

Definition tcp_connect (ai : addrinfo) (c : positive) : io bool :=
  sd ← on_snd (c_socket ai);
  upd_conn c (set_sd sd);;
  incr "tcp_connect";;
  if sd <? 0 then connect_error c else
  ret ← tcp_set_tcpnodelay sd;
  if ret <? 0 then connect_error c else
  ret ← on_snd (c_connect sd ai);
  e ← on_snd c_errno;
  if (ret <? 0) && negb (e =? EINPROGRESS) then connect_error c else
  upd_conn c (set_state (if ret <? 0 then CHANNEL_OPEN else CHANNEL_ESTABLISHED));;
  ret ← tcp_set_nonblocking sd;
  if ret <? 0 then connect_error c else mret true.

(** tcp_close on a connection that is not NULL *)
Definition tcp_close (c : positive) : io unit :=
  incr "tcp_close";;
  tc ← conn c;
  on_snd (c_close (tc_sd tc));;
  mret tt.

(** The error label of tcp_listen. *)
Definition listen_error (c : positive) : io bool :=
  tc ← conn c;
  (if 0 <? tc_sd tc then tcp_close c else mret tt);;
  mret false.

Definition tcp_listen (ai : addrinfo) (c : positive) : io bool :=
  sd ← on_snd (c_socket ai);
  upd_conn c (set_sd sd);;
  if sd <? 0 then listen_error c else
  ret ← tcp_set_reuseaddr sd;
  if ret <? 0 then listen_error c else
  ret ← on_snd (c_bind sd ai);
  if ret <? 0 then listen_error c else
  w ← on_fst get;
  ret ← on_snd (c_listen sd (max_backlog w));
  if ret <? 0 then listen_error c else
  ret ← tcp_set_nonblocking sd;
  if negb (ret =? CC_OK) then listen_error c else
  tcp_set_tcpnodelay sd;;
  upd_conn c (set_level CHANNEL_META);;
  upd_conn c (set_state CHANNEL_LISTEN);;
  mret true.

(** The for loop of _tcp_accept; [None] when [fuel] calls do not end it. *)
Fixpoint _tcp_accept (fuel : nat) (accept4 : bool) (sc : positive) : io Z :=
  match fuel with
  | O => stuck
  | S fuel =>
      tc ← conn sc;
      sd ← on_snd (if accept4 then c_accept4 (tc_sd tc) else c_accept (tc_sd tc));
      if sd <? 0 then
        e ← on_snd c_errno;
        if (e =? EAGAIN) || (e =? EWOULDBLOCK) then mret (-1)
        else if e =? EINTR then _tcp_accept fuel accept4 sc
        else incr "tcp_accept_ex";; mret (-1)
      else mret sd
  end.

Definition tcp_accept (fuel : nat) (accept4 : bool) (sc c : positive) : io bool :=
  sd ← _tcp_accept fuel accept4 sc;
  incr "tcp_accept";;
  if sd <? 0 then mret false else
  upd_conn c (set_sd sd);;
  upd_conn c (set_level CHANNEL_BASE);;
  upd_conn c (set_state CHANNEL_ESTABLISHED);;
  (if accept4 then mret 0 else tcp_set_nonblocking sd);;
  mret true.

Definition tcp_reject (fuel : nat) (accept4 : bool) (sc : positive) : io unit :=
  incr "tcp_reject";;
  sd ← _tcp_accept fuel accept4 sc;
  if sd <? 0 then incr "tcp_reject_ex" else
  ret ← on_snd (c_close sd);
  if ret <? 0 then incr "tcp_reject_ex" else mret tt.

Fixpoint tcp_reject_all (fuel : nat) (sc : positive) : io unit :=
  match fuel with
  | O => stuck
  | S fuel =>
      tc ← conn sc;
      sd ← on_snd (c_accept (tc_sd tc));
      if sd <? 0 then
        e ← on_snd c_errno;
        if (e =? EAGAIN) || (e =? EWOULDBLOCK) then mret tt
        else if e =? EINTR then tcp_reject_all fuel sc
        else incr "tcp_reject_ex"
      else
        ret ← on_snd (c_close sd);
        (if ret <? 0 then incr "tcp_reject_ex" else mret tt);;
        incr "tcp_reject";;
        tcp_reject_all fuel sc
  end.

(** The result and the bytes placed in the buffer. *)
Fixpoint tcp_recv (fuel : nat) (c : positive) (nbyte : Z) : io (Z * list byte) :=
  match fuel with
  | O => stuck
  | S fuel =>
      tc ← conn c;
      '(n, bs) ← on_snd (c_read (tc_sd tc) nbyte);
      incr "tcp_recv";;
      if 0 <? n then
        upd_conn c (add_recv n);; incr_n "tcp_recv_byte" n;; mret (n, bs)
      else if n =? 0 then
        upd_conn c (set_state CHANNEL_TERM);; mret (n, bs)
      else
        incr "tcp_recv_ex";;
        e ← on_snd c_errno;
        if e =? EINTR then tcp_recv fuel c nbyte
        else if (e =? EAGAIN) || (e =? EWOULDBLOCK) then mret (CC_EAGAIN, bs)
        else upd_conn c (set_err e);; mret (CC_ERROR, bs)
  end.

(** [bufv]: the buffers of the vector; returned as readv filled them. *)
Fixpoint tcp_recvv (fuel : nat) (c : positive) (bufv : list (list byte))
  : io (Z * list (list byte)) :=
  match fuel with
  | O => stuck
  | S fuel =>
      tc ← conn c;
      '(n, bs) ← on_snd (c_readv (tc_sd tc) (map zlen bufv));
      incr "tcp_recv";;
      if 0 <? n then
        upd_conn c (add_recv n);; incr_n "tcp_recv" n;; mret (n, scatter bs bufv)
      else if n =? 0 then mret (0, scatter bs bufv)
      else
        incr "tcp_recv_ex";;
        e ← on_snd c_errno;
        if e =? EINTR then tcp_recvv fuel c bufv
        else if (e =? EAGAIN) || (e =? EWOULDBLOCK) then mret (CC_EAGAIN, bufv)
        else upd_conn c (set_err e);; mret (CC_ERROR, bufv)
  end.

Fixpoint tcp_send (fuel : nat) (c : positive) (bs : list byte) : io Z :=
  match fuel with
  | O => stuck
  | S fuel =>
      tc ← conn c;
      n ← on_snd (c_write (tc_sd tc) bs);
      incr "tcp_send";;
      if 0 <? n then
        incr_n "tcp_send_byte" n;; upd_conn c (add_send n);; mret n
      else if n =? 0 then mret 0
      else
        incr "tcp_send_ex";;
        e ← on_snd c_errno;
        if e =? EINTR then tcp_send fuel c bs
        else if (e =? EAGAIN) || (e =? EWOULDBLOCK) then mret CC_EAGAIN
        else upd_conn c (set_err e);; mret CC_ERROR
  end.

Fixpoint tcp_sendv (fuel : nat) (c : positive) (bufv : list (list byte)) : io Z :=
  match fuel with
  | O => stuck
  | S fuel =>
      tc ← conn c;
      n ← on_snd (c_writev (tc_sd tc) bufv);
      incr "tcp_send_ex";;
      if 0 <? n then
        upd_conn c (add_send n);; incr_n "tcp_send_byte" n;; mret n
      else if n =? 0 then mret 0
      else
        incr "tcp_send_ex";;
        e ← on_snd c_errno;
        if e =? EINTR then tcp_sendv fuel c bufv
        else if (e =? EAGAIN) || (e =? EWOULDBLOCK) then mret CC_EAGAIN
        else upd_conn c (set_err e);; mret CC_ERROR
  end.

End IO.

(** ** Proofs about the socket operations *)

Section IOLemmas.
Context {K : Type} `{!Kernel K} `{!KernelLaws K}.
Implicit Types (w : tcp_world) (p : proc K) (c : positive) (tc : tcp_conn).

Lemma wp_conn c tc (Q : tcp_conn -> tcp_world * proc K -> Prop) w p :
  conns w !! c = Some tc -> Q tc (w, p) -> wp (conn c) Q (w, p).
Proof. intros Hc HQ. unfold conn. apply wp_fst. unfold wp. rewrite Hc. eauto. Qed.

Lemma wp_upd_conn c tc f (Q : unit -> tcp_world * proc K -> Prop) w p :
  conns w !! c = Some tc -> Q tt (set_conns w (<[c := f tc]> (conns w)), p) ->
  wp (upd_conn c f) Q (w, p).
Proof. intros Hc HQ. unfold upd_conn. apply wp_fst. unfold wp. rewrite Hc. eauto. Qed.

Lemma wp_incr_n f n (Q : unit -> tcp_world * proc K -> Prop) w p :
  Q tt (on_metrics (fun ms => INCR_N ms f n) w, p) -> wp (incr_n f n) Q (w, p).
Proof. intros HQ. unfold incr_n. apply wp_fst, wp_modify. done. Qed.

Lemma wp_incr f (Q : unit -> tcp_world * proc K -> Prop) w p :
  Q tt (on_metrics (fun ms => INCR ms f) w, p) -> wp (incr f) Q (w, p).
Proof. apply wp_incr_n. Qed.

Lemma wp_errno (Q : Z -> tcp_world * proc K -> Prop) w p :
  Q (errno p) (w, p) -> wp (on_snd c_errno) Q (w, p).
Proof. intros HQ. by exists (errno p), (w, p). Qed.

End IOLemmas.

Ltac tcp_step :=
  match goal with
  | |- wp (conn _) _ _ => eapply wp_conn; [first [eassumption|apply lookup_insert_eq]|]
  | |- wp (upd_conn _ _) _ _ => eapply wp_upd_conn; [first [eassumption|apply lookup_insert_eq]|]
  | |- wp (incr _) _ _ => apply wp_incr
  | |- wp (incr_n _ _) _ _ => apply wp_incr_n
  | |- wp (on_snd c_errno) _ _ => apply wp_errno
  | |- wp (match ?x with (_, _) => _ end) _ _ => destruct x
  | _ => wp_step
  end.

(** Up to the next system call. *)
Ltac tcp_steps :=
  repeat lazymatch goal with
  | |- wp (on_snd c_errno) _ _ => apply wp_errno
  | |- wp (on_snd _) _ _ => fail
  | _ => tcp_step
  end.

Ltac loop_fails IH Hfail tc := io_fails ltac:(fun _ => tcp_step) IH Hfail tc.

Section Stream.
Context {K : Type} `{!Kernel K} `{!KernelLaws K}.
Implicit Types (w : tcp_world) (p : proc K) (c : positive) (tc : tcp_conn).

Abbreviation fds_of p := (fds (view (kern p))).
Abbreviation sigs_of p := (sigs (view (kern p))).

(** The world changed in the connection [c] and in the metrics. *)
Definition touched c tc' w w' : Prop :=
  conns w' = <[c := tc']> (conns w) /\ conn_answers w' = conn_answers w /\
  max_backlog w' = max_backlog w.

(** tcp_recv returns once the pending signals are used up, in one of the four
    ways of [recv_case]; the metrics count the attempts, the failures and the
    bytes. *)
Lemma tcp_recv_spec fuel c nbyte tc w p :
  conns w !! c = Some tc -> (sigs_of p < fuel)%nat ->
  wp (tcp_recv fuel c nbyte) (fun '(n, bs) '(w', p') =>
    exists tc' (k : nat),
      recv_case add_recv (set_state CHANNEL_TERM) set_err (tc_sd tc) (fds_of p) tc nbyte
        n bs tc' (fds_of p') /\
      touched c tc' w w' /\ (sigs_of p' <= sigs_of p)%nat /\
      (n = CC_ERROR -> tc_err tc' = errno p') /\
      counts "tcp_recv" (Z.of_nat k + 1) (tcp_metrics w) (tcp_metrics w') /\
      counts "tcp_recv_ex" (Z.of_nat k + if n <? 0 then 1 else 0) (tcp_metrics w) (tcp_metrics w') /\
      counts "tcp_recv_byte" (zlen bs) (tcp_metrics w) (tcp_metrics w')) (w, p).
Proof.
  intros Hc. revert w p Hc. induction fuel as [|fuel IH]; intros w p Hc Hf; [lia|].
  simpl tcp_recv. repeat tcp_step.
  - intros bs k' E. pose proof (law_read _ _ _ _ _ E) as Hlaw. simpl. repeat tcp_step.
    case_zcmp; repeat tcp_step.
    + destruct (read_some _ _ _ _ _ Hlaw) as (d & rest & Hd & Hi & Hn & Hm); [done|].
      exists (add_recv (zlen bs) tc), 0%nat. simpl. rewrite Hm. split; [|split; [done|]].
      * by apply Recv_data; [..|lia].
      * destruct Hlaw as (? & ? & _ & _ & _ & _ & _ & Hs). split; [done|].
        split; [unfold CC_ERROR; lia|]. split_and!; [counts|case_zcmp; [lia|counts]|counts].
    + destruct (read_zero _ _ _ _ _ Hlaw) as (-> & Hm & d & Hd & Hi); [done|].
      exists (set_state CHANNEL_TERM tc), 0%nat. simpl. rewrite Hm. split; [by eapply Recv_eof|].
      split; [done|]. destruct Hlaw as (? & ? & _ & _ & _ & _ & _ & Hs).
      split; [done|]. split; [done|]. split_and!; counts.
    + pose proof (zlen_nonneg bs). lia.
  - intros e k' E. pose proof (law_read _ _ _ _ _ E) as Hfail. loop_fails IH Hfail tc.
Qed.

Lemma tcp_send_spec fuel c bs tc w p :
  conns w !! c = Some tc -> (sigs_of p < fuel)%nat ->
  wp (tcp_send fuel c bs) (fun n '(w', p') =>
    exists tc' (k : nat),
      send_case add_send set_err (tc_sd tc) (fds_of p) tc bs n tc' (fds_of p') /\
      touched c tc' w w' /\ (sigs_of p' <= sigs_of p)%nat /\
      (n = CC_ERROR -> tc_err tc' = errno p') /\
      counts "tcp_send" (Z.of_nat k + 1) (tcp_metrics w) (tcp_metrics w') /\
      counts "tcp_send_ex" (Z.of_nat k + if n <? 0 then 1 else 0) (tcp_metrics w) (tcp_metrics w') /\
      counts "tcp_send_byte" (Z.max 0 n) (tcp_metrics w) (tcp_metrics w')) (w, p).
Proof.
  intros Hc. revert w p Hc. induction fuel as [|fuel IH]; intros w p Hc Hf; [lia|].
  simpl tcp_send. repeat tcp_step.
  - intros n k' E. pose proof (law_write _ _ _ _ _ E) as (Hd & Hn & Hm & Hs). simpl. repeat tcp_step.
    case_zcmp; repeat tcp_step; [| |lia].
    + exists (add_send n tc), 0%nat. simpl. rewrite Hm. split; [by apply Send_data; [|lia]|].
      split; [done|]. split; [done|]. split; [unfold CC_ERROR; lia|].
      split_and!; [counts|case_zcmp; [lia|counts]|counts].
    + subst n. exists tc, 0%nat. simpl. rewrite Hm, written_nil. split; [apply Send_zero|].
      split; [by split; [rewrite insert_id|]|]. split; [done|]. split; [done|]. split_and!; counts.
  - intros e k' E. pose proof (law_write _ _ _ _ _ E) as Hfail. loop_fails IH Hfail tc.
Qed.

(** The vector versions.  tcp_recvv adds the bytes it received to the number of
    attempts (tcp_recv) instead of tcp_recv_byte, and leaves the state of the
    channel as it is at the end of the stream; tcp_sendv counts each attempt as
    an exception. *)
Lemma tcp_recvv_spec fuel c bufv tc w p :
  conns w !! c = Some tc -> (sigs_of p < fuel)%nat ->
  wp (tcp_recvv fuel c bufv) (fun '(n, bufs) '(w', p') =>
    exists tc' (k : nat),
      (exists bs, recv_case add_recv (fun tc => tc) set_err (tc_sd tc) (fds_of p) tc
         (foldr Z.add 0 (map zlen bufv)) n bs tc' (fds_of p') /\ bufs = scatter bs bufv) /\
      touched c tc' w w' /\ (sigs_of p' <= sigs_of p)%nat /\
      (n = CC_ERROR -> tc_err tc' = errno p') /\
      counts "tcp_recv" (Z.of_nat k + 1 + Z.max 0 n) (tcp_metrics w) (tcp_metrics w') /\
      counts "tcp_recv_ex" (Z.of_nat k + if n <? 0 then 1 else 0) (tcp_metrics w) (tcp_metrics w') /\
      counts "tcp_recv_byte" 0 (tcp_metrics w) (tcp_metrics w')) (w, p).
Proof.
  intros Hc. revert w p Hc. induction fuel as [|fuel IH]; intros w p Hc Hf; [lia|].
  simpl tcp_recvv. repeat tcp_step.
  - intros bs k' E. pose proof (law_readv _ _ _ _ _ E) as Hlaw. simpl. repeat tcp_step.
    case_zcmp; repeat tcp_step; [| |pose proof (zlen_nonneg bs); lia].
    + destruct (read_some _ _ _ _ _ Hlaw) as (d & rest & Hd & Hi & Hn & Hm); [done|].
      exists (add_recv (zlen bs) tc), 0%nat. simpl. rewrite Hm. split.
      { exists bs. split; [|done]. by apply Recv_data; [..|lia]. }
      destruct Hlaw as (? & ? & _ & _ & _ & _ & _ & Hs). split; [done|]. split; [done|].
      split; [unfold CC_ERROR; lia|]. split_and!; [counts|case_zcmp; [lia|counts]|counts].
    + destruct (read_zero _ _ _ _ _ Hlaw) as (-> & Hm & d & Hd & Hi); [done|].
      exists tc, 0%nat. simpl. rewrite Hm. split.
      { exists []. split; [|done]. by apply (Recv_eof _ (fun tc => tc) _ _ _ tc _ d). }
      split; [by split; [rewrite insert_id|]|].
      destruct Hlaw as (? & ? & _ & _ & _ & _ & _ & Hs). split; [done|]. split; [done|].
      split_and!; counts.
  - intros e k' E. pose proof (law_readv _ _ _ _ _ E) as Hfail. loop_fails IH Hfail tc.
Qed.

Lemma tcp_sendv_spec fuel c bufv tc w p :
  conns w !! c = Some tc -> (sigs_of p < fuel)%nat ->
  wp (tcp_sendv fuel c bufv) (fun n '(w', p') =>
    exists tc' (k : nat),
      send_case add_send set_err (tc_sd tc) (fds_of p) tc (concat bufv) n tc' (fds_of p') /\
      touched c tc' w w' /\ (sigs_of p' <= sigs_of p)%nat /\
      (n = CC_ERROR -> tc_err tc' = errno p') /\
      counts "tcp_send" 0 (tcp_metrics w) (tcp_metrics w') /\
      counts "tcp_send_ex" (2 * Z.of_nat k + 1 + if n <? 0 then 1 else 0)
        (tcp_metrics w) (tcp_metrics w') /\
      counts "tcp_send_byte" (Z.max 0 n) (tcp_metrics w) (tcp_metrics w')) (w, p).
Proof.
  intros Hc. revert w p Hc. induction fuel as [|fuel IH]; intros w p Hc Hf; [lia|].
  simpl tcp_sendv. repeat tcp_step.
  - intros n k' E. pose proof (law_writev _ _ _ _ _ E) as (Hd & Hn & Hm & Hs). simpl.
    repeat tcp_step. case_zcmp; repeat tcp_step; [| |lia].
    + exists (add_send n tc), 0%nat. simpl. rewrite Hm. split; [by apply Send_data; [|lia]|].
      split; [done|]. split; [done|]. split; [unfold CC_ERROR; lia|].
      split_and!; [counts|case_zcmp; [lia|counts]|counts].
    + subst n. exists tc, 0%nat. simpl. rewrite Hm, written_nil. split; [apply Send_zero|].
      split; [by split; [rewrite insert_id|]|]. split; [done|]. split; [done|]. split_and!; counts.
  - intros e k' E. pose proof (law_writev _ _ _ _ _ E) as Hfail. loop_fails IH Hfail tc.
Qed.

(** ** Histories of one connection

    Sends and receives on [c], in any order, with the bytes received and the
    bytes accepted so far.  The fuel of each call outlasts the pending signals. *)
Inductive tcp_run c (s0 : tcp_world * proc K) : list byte -> list byte -> tcp_world * proc K -> Prop :=
| Tcp_start : tcp_run c s0 [] [] s0
| Tcp_recv r o s fuel nbyte n bs s' :
    tcp_run c s0 r o s -> (sigs_of s.2 < fuel)%nat -> 0 < nbyte ->
    tcp_recv fuel c nbyte s = Some (n, bs, s') -> tcp_run c s0 (r ++ bs) o s'
| Tcp_recvv r o s fuel bufv n bufs s' :
    tcp_run c s0 r o s -> (sigs_of s.2 < fuel)%nat ->
    tcp_recvv fuel c bufv s = Some (n, bufs, s') ->
    tcp_run c s0 (r ++ take (Z.to_nat n) (concat bufs)) o s'
| Tcp_send r o s fuel bs n s' :
    tcp_run c s0 r o s -> (sigs_of s.2 < fuel)%nat ->
    tcp_send fuel c bs s = Some (n, s') -> tcp_run c s0 r (o ++ take (Z.to_nat n) bs) s'
| Tcp_sendv r o s fuel bufv n s' :
    tcp_run c s0 r o s -> (sigs_of s.2 < fuel)%nat ->
    tcp_sendv fuel c bufv s = Some (n, s') ->
    tcp_run c s0 r (o ++ take (Z.to_nat n) (concat bufv)) s'.

Record stream_inv c tc0 d0 (s0 : tcp_world * proc K) (r o : list byte) (s : tcp_world * proc K)
  : Prop := {
  si_conn : exists tc, conns s.1 = <[c := tc]> (conns s0.1) /\ tc_sd tc = tc_sd tc0 /\
    u64 (tc_recv_nbyte tc) = u64 (tc_recv_nbyte tc0 + zlen r) /\
    u64 (tc_send_nbyte tc) = u64 (tc_send_nbyte tc0 + zlen o) /\
    exists d, fds_of s.2 !! tc_sd tc0 = Some d /\ d_in d0 = r ++ d_in d /\
      d_out d = d_out d0 ++ o /\ d_peer d = None /\
      (tc_state tc = tc_state tc0 \/ tc_state tc = CHANNEL_TERM /\ d_in d = []);
  si_fds : forall fd, fd ≠ tc_sd tc0 -> fds_of s.2 !! fd = fds_of s0.2 !! fd;
}.

Lemma u64_add_eq x y z : u64 x = u64 y -> u64 (u64 (x + z)) = u64 (y + z).
Proof. unfold u64. mlia. Qed.

(** One call that received [bs] and accepted [os]. *)
Lemma stream_step c tc0 d0 s0 r o s s' tc tc' bs os d' :
  stream_inv c tc0 d0 s0 r o s -> conns s.1 !! c = Some tc ->
  touched c tc' s.1 s'.1 -> tc_sd tc' = tc_sd tc ->
  u64 (tc_recv_nbyte tc') = u64 (tc_recv_nbyte tc + zlen bs) ->
  u64 (tc_send_nbyte tc') = u64 (tc_send_nbyte tc + zlen os) ->
  fds_of s'.2 !! tc_sd tc0 = Some d' ->
  (forall d, fds_of s.2 !! tc_sd tc0 = Some d ->
     d_in d = bs ++ d_in d' /\ d_out d' = d_out d ++ os /\ d_peer d' = d_peer d) ->
  (forall fd, fd ≠ tc_sd tc0 -> fds_of s'.2 !! fd = fds_of s.2 !! fd) ->
  (tc_state tc' = tc_state tc \/ tc_state tc' = CHANNEL_TERM /\ d_in d' = []) ->
  stream_inv c tc0 d0 s0 (r ++ bs) (o ++ os) s'.
Proof.
  intros [(tc1 & Hc1 & Hsd & Hr & Ho & d & Hd & Hi & Hout & Hp & Hst) Hfds] Hc Ht Hsd' Hr' Ho'
    Hd' Heff Hfds' Hst'.
  assert (tc1 = tc) as -> by (rewrite Hc1, lookup_insert_eq in Hc; congruence).
  destruct (Heff d Hd) as (Hi' & Hout' & Hp'). split.
  - exists tc'. destruct Ht as (Ht & _). rewrite Ht, Hc1, insert_insert_eq. split; [done|].
    split; [congruence|]. rewrite !zlen_app, !Z.add_assoc, Hr', Ho'.
    split; [rewrite <- u64_add_l, Hr, u64_add_l; done|].
    split; [rewrite <- u64_add_l, Ho, u64_add_l; done|].
    exists d'. split; [done|]. rewrite Hi, Hi', Hout', Hout, !app_assoc.
    split; [done|]. split; [done|]. split; [congruence|].
    destruct Hst' as [->|]; [|by right]. destruct Hst as [|[Hst He]]; [by left|right].
    split; [done|]. rewrite He in Hi'. by destruct bs; [|done].
  - intros fd Hne. rewrite Hfds' by done. by apply Hfds.
Qed.

Lemma stream_conn c tc0 d0 s0 r o s :
  stream_inv c tc0 d0 s0 r o s ->
  exists tc d, conns s.1 !! c = Some tc /\ tc_sd tc = tc_sd tc0 /\ fds_of s.2 !! tc_sd tc0 = Some d /\
    d_peer d = None.
Proof.
  intros [(tc & Hc & Hsd & _ & _ & d & Hd & _ & _ & Hp & _) _]. exists tc, d. by rewrite Hc, lookup_insert_eq.
Qed.

(** A receive; [on_eof] is what the call makes of the end of the stream. *)
Lemma stream_recv on_eof c tc0 d0 s0 r o w p w' p' tc tc' nbyte n bs :
  (forall x, tc_sd (on_eof x) = tc_sd x /\ tc_recv_nbyte (on_eof x) = tc_recv_nbyte x /\
     tc_send_nbyte (on_eof x) = tc_send_nbyte x /\
     (tc_state (on_eof x) = tc_state x \/ tc_state (on_eof x) = CHANNEL_TERM /\ 0 < nbyte)) ->
  stream_inv c tc0 d0 s0 r o (w, p) -> conns w !! c = Some tc -> tc_sd tc = tc_sd tc0 ->
  recv_case add_recv on_eof set_err (tc_sd tc) (fds_of p) tc nbyte n bs tc' (fds_of p') ->
  touched c tc' w w' -> stream_inv c tc0 d0 s0 (r ++ bs) o (w', p').
Proof.
  intros Heof Hinv Hc Hsd Hr Ht. destruct (stream_conn _ _ _ _ _ _ _ Hinv) as (tc1 & d & _ & _ & Hd & _).
  rewrite Hsd in Hr. simpl in Hd.
  destruct (recv_effect _ _ _ _ _ _ _ _ _ _ _ d Hr Hd) as ((d' & Hd' & Hi & Ho & Hp') & Hfr & _).
  destruct (Heof tc) as (E1 & E2 & E3 & E4). rewrite <- (app_nil_r o).
  eapply (stream_step c tc0 d0 s0 r o (w, p) (w', p') tc tc' bs [] d'); try done.
  - by destruct Hr.
  - destruct Hr; simpl; rewrite ?E2, ?Z.add_0_r; try done. by apply u64_add_eq.
  - rewrite zlen_nil, Z.add_0_r. destruct Hr; rewrite ?E3; done.
  - intros d1 Hd1. simpl in Hd1. simplify_eq. by rewrite app_nil_r.
  - destruct Hr as [| d2 Hd2 Hi2 | |]; try (by left). destruct E4 as [|[E4 Hnb]]; [by left|right].
    split; [done|]. specialize (Hi2 Hnb). simplify_eq. done.
Qed.

Lemma stream_send c tc0 d0 s0 r o w p w' p' tc tc' n bs :
  stream_inv c tc0 d0 s0 r o (w, p) -> conns w !! c = Some tc -> tc_sd tc = tc_sd tc0 ->
  send_case add_send set_err (tc_sd tc) (fds_of p) tc bs n tc' (fds_of p') ->
  touched c tc' w w' -> stream_inv c tc0 d0 s0 r (o ++ take (Z.to_nat n) bs) (w', p').
Proof.
  intros Hinv Hc Hsd Hs Ht. destruct (stream_conn _ _ _ _ _ _ _ Hinv) as (tc1 & d & _ & _ & Hd & Hp).
  rewrite Hsd in Hs. simpl in Hd.
  destruct (send_effect _ _ _ _ _ _ _ _ _ d Hs Hd Hp) as ((d' & Hd' & Ho & Hi & Hp') & Hfr & Hz).
  rewrite <- (app_nil_r r).
  eapply (stream_step c tc0 d0 s0 r o (w, p) (w', p') tc tc' [] _ d'); try done.
  - by destruct Hs.
  - rewrite zlen_nil, Z.add_0_r. by destruct Hs.
  - destruct Hs; simpl; rewrite ?Hz; rewrite ?Z.add_0_r; try done. rewrite Z.max_r by lia. by apply u64_add_eq.
  - intros d1 Hd1. simpl in Hd1. simplify_eq. by rewrite Hi, Hp, Hp'.
  - destruct Hs; by left.
Qed.

Lemma io_run_inv c tc0 d0 s0 r o s :
  conns s0.1 !! c = Some tc0 -> fds_of s0.2 !! tc_sd tc0 = Some d0 -> d_peer d0 = None ->
  tcp_run c s0 r o s -> stream_inv c tc0 d0 s0 r o s.
Proof.
  intros Hc0 Hd0 Hp0 Hrun.
  induction Hrun as [|r o s fuel nbyte n bs s' _ IH Hf Hnb E|r o s fuel bufv n bufs s' _ IH Hf E
    |r o s fuel bs n s' _ IH Hf E|r o s fuel bufv n s' _ IH Hf E].
  { split; [|done].
    exists tc0. rewrite insert_id by done. rewrite zlen_nil, !Z.add_0_r. split_and!; try done.
    exists d0. rewrite app_nil_r. split_and!; try done. by left. }
  all: destruct (stream_conn _ _ _ _ _ _ _ IH) as (tc & d & Hc & Hsd & Hd & Hp); destruct s as [w p], s' as [w' p'];
    simpl in Hc, Hd, Hf.
  - pose proof (wp_det _ _ _ _ _ (tcp_recv_spec fuel c nbyte tc w p Hc Hf) E) as (tc' & k & Hr & Ht & _).
    eapply stream_recv; [|done..]. intros x. split_and!; try done. by right.
  - pose proof (wp_det _ _ _ _ _ (tcp_recvv_spec fuel c bufv tc w p Hc Hf) E) as (tc' & k & (bs & Hr & ->) & Ht & _).
    pose proof Hr as Hr'. rewrite Hsd in Hr'.
    destruct (recv_effect _ _ _ _ _ _ _ _ _ _ _ d Hr' Hd) as (_ & _ & Hz & Hle).
    assert (take (Z.to_nat n) (concat (scatter bs bufv)) = bs) as ->.
    { replace (Z.to_nat n) with (length bs) by (unfold zlen in Hz; lia).
      apply scatter_take. rewrite concat_zlen in *. pose proof (zlen_nonneg (concat bufv)). lia. }
    eapply stream_recv; [|done..]. intros x. split_and!; try done. by left.
  - pose proof (wp_det _ _ _ _ _ (tcp_send_spec fuel c bs tc w p Hc Hf) E) as (tc' & k & Hs & Ht & _).
    by eapply stream_send.
  - pose proof (wp_det _ _ _ _ _ (tcp_sendv_spec fuel c bufv tc w p Hc Hf) E) as (tc' & k & Hs & Ht & _).
    by eapply stream_send.
Qed.

End Stream.

(** ** Opening, accepting and closing *)

Section Open.
Context {K : Type} `{!Kernel K} `{!KernelLaws K}.
Implicit Types (w : tcp_world) (p : proc K) (c : positive) (tc : tcp_conn).

Abbreviation fds_of p := (fds (view (kern p))).
Abbreviation sigs_of p := (sigs (view (kern p))).

(** A call that does not change the descriptors. *)
Lemma wp_plain f (Q : Z -> tcp_world * proc K -> Prop) w p :
  (forall a k', f (kern p) = (a, k') -> plain_law (view (kern p)) a (view k')) ->
  (forall x p', 0 <= x -> fds_of p' = fds_of p -> errno p' = errno p -> Q x (w, p')) ->
  (forall p', fds_of p' = fds_of p -> 0 < errno p' -> Q (-1) (w, p')) ->
  wp (on_snd (call f)) Q (w, p).
Proof.
  intros Hlaw H1 H2. repeat wp_step.
  - intros x k E. apply Hlaw in E as (Hx & Hm & _). by apply H1.
  - intros e k E. apply Hlaw in E as (He & Hm & _). by apply H2.
Qed.

Lemma wp_close fd (Q : Z -> tcp_world * proc K -> Prop) w p :
  (forall x p', fds_of p' = delete fd (fds_of p) -> (sigs_of p' <= sigs_of p)%nat -> Q x (w, p')) ->
  wp (on_snd (c_close fd)) Q (w, p).
Proof.
  intros H1. repeat wp_step; intros ? ? E; apply law_close in E as (Hs & Hm & _); by apply H1.
Qed.

Lemma land_lor_nonblock f : Z.land (Z.lor f O_NONBLOCK) O_NONBLOCK = O_NONBLOCK.
Proof.
  apply Z.bits_inj'. intros n Hn. rewrite Z.land_spec, Z.lor_spec.
  by destruct (Z.testbit f n), (Z.testbit O_NONBLOCK n).
Qed.

Lemma wp_nonblock sd d (Q : Z -> tcp_world * proc K -> Prop) w p :
  fds_of p !! sd = Some d ->
  (forall p' d', fds_of p' = <[sd := d']> (fds_of p) ->
     Z.land (d_flags d') O_NONBLOCK = O_NONBLOCK -> Q 0 (w, p')) ->
  (forall p', fds_of p' = fds_of p -> 0 < errno p' -> Q (-1) (w, p')) ->
  wp (tcp_set_nonblocking sd) Q (w, p).
Proof.
  intros Hd H1 H2. unfold tcp_set_nonblocking. repeat wp_step.
  - intros f k E. apply law_getfl in E as (Hf & (Hm & _) & d' & Hd' & <-). simplify_eq.
    simpl. case_zcmp; [lia|]. repeat wp_step; simpl.
    + intros x k' E. apply law_setfl in E as (-> & Hm' & _).
      apply (H1 _ (set_flags d (Z.lor (d_flags d) O_NONBLOCK))).
      * simpl. rewrite Hm', Hm. by apply (alter_alt_Some (fun d => set_flags d _)).
      * apply land_lor_nonblock.
    + intros e k' E. apply law_setfl in E as (He & Hm' & _). apply H2; simpl; [congruence|done].
  - intros e k E. apply law_getfl in E as (He & Hm & _). simpl. repeat wp_step. by apply H2.
Qed.

(** The connection that failed to open keeps the reason; its descriptor is
    closed, except descriptor 0, which the test c->sd > 0 takes for none. *)
Lemma wp_connect_error c tc (Q : bool -> tcp_world * proc K -> Prop) w p :
  conns w !! c = Some tc ->
  (forall p', fds_of p' = (if 0 <? tc_sd tc then delete (tc_sd tc) (fds_of p) else fds_of p) ->
     Q false (on_metrics (fun ms => INCR ms "tcp_connect_ex")
                (set_conns w (<[c := set_err (errno p) tc]> (conns w))), p')) ->
  wp (connect_error c) Q (w, p).
Proof.
  intros Hc HQ. unfold connect_error. repeat tcp_step. simpl. revert HQ. case_zcmp; intros HQ.
  - apply wp_close. intros x p' Hm _. repeat tcp_step. by apply HQ.
  - repeat tcp_step. by apply HQ.
Qed.

Lemma wp_listen_error c tc (Q : bool -> tcp_world * proc K -> Prop) w p :
  conns w !! c = Some tc ->
  (forall w' p', conns w' = conns w -> conn_answers w' = conn_answers w ->
     max_backlog w' = max_backlog w ->
     fds_of p' = (if 0 <? tc_sd tc then delete (tc_sd tc) (fds_of p) else fds_of p) ->
     Q false (w', p')) ->
  wp (listen_error c) Q (w, p).
Proof.
  intros Hc HQ. unfold listen_error, tcp_close. tcp_steps. revert HQ. case_zcmp; intros HQ.
  - tcp_steps. apply wp_close. intros x p' Hm _. repeat tcp_step. by apply HQ.
  - repeat tcp_step. by apply HQ.
Qed.

(** What opening did to the descriptors. *)
Definition opened (m : gmap Z desc) (ok : bool) (sd : Z) (m' : gmap Z desc) : Prop :=
  if ok then
    0 <= sd /\ m !! sd = None /\
    exists d, m' = <[sd := d]> m /\ Z.land (d_flags d) O_NONBLOCK = O_NONBLOCK
  else m' = m \/ sd = 0 /\ m !! 0 = None /\ exists d, m' = <[0 := d]> m.

Lemma opened_failed m sd d (m' : gmap Z desc) :
  m !! sd = None -> 0 <= sd ->
  m' = (if 0 <? sd then delete sd (<[sd := d]> m) else <[sd := d]> m) -> opened m false sd m'.
Proof.
  intros Hsd H0 ->. case_zcmp; simpl.
  - left. by apply delete_insert_id.
  - assert (sd = 0) as -> by lia. right. eauto.
Qed.

(** What tcp_connect leaves behind: on success a connection that holds a new
    non-blocking descriptor, on failure no descriptor, and the reason. *)
Definition connect_post c w p (ok : bool) (s : tcp_world * proc K) : Prop :=
  exists tc', touched c tc' w s.1 /\ opened (fds_of p) ok (tc_sd tc') (fds_of s.2) /\
    (ok = true -> tc_state tc' = CHANNEL_OPEN \/ tc_state tc' = CHANNEL_ESTABLISHED) /\
    (ok = false -> 0 < tc_err tc') /\
    counts "tcp_connect" 1 (tcp_metrics w) (tcp_metrics s.1) /\
    counts "tcp_connect_ex" (if ok then 0 else 1) (tcp_metrics w) (tcp_metrics s.1).

(** The error label, reached with an open socket. *)
Lemma connect_fails c w p sd tc1 w1 p1 :
  fds_of p !! sd = None -> 0 <= sd -> touched c tc1 w w1 -> tc_sd tc1 = sd ->
  (exists d, fds_of p1 = <[sd := d]> (fds_of p)) -> 0 < errno p1 ->
  counts "tcp_connect" 1 (tcp_metrics w) (tcp_metrics w1) ->
  counts "tcp_connect_ex" 0 (tcp_metrics w) (tcp_metrics w1) ->
  wp (connect_error c) (connect_post c w p) (w1, p1).
Proof.
  intros Hn H0 (Hc1 & Ha & Hb) Hsd [d Hm1] He C1 C2.
  eapply wp_connect_error; [rewrite Hc1; apply lookup_insert_eq|]. simpl. intros p' Hp'.
  exists (set_err (errno p1) tc1). rewrite Hsd, Hm1 in Hp'. simpl.
  split; [split; [simpl; rewrite Hc1; apply insert_insert_eq|done]|].
  split; [rewrite Hsd; by eapply opened_failed|]. split; [done|]. split; [done|]. split; counts.
Qed.

Lemma tcp_connect_spec ai c tc w p :
  conns w !! c = Some tc -> wp (tcp_connect ai c) (connect_post c w p) (w, p).
Proof.
  intros Hc. unfold tcp_connect. tcp_steps. repeat wp_step.
  2:{ intros e k E. apply law_socket in E as (He & Hm & _). simpl. tcp_steps.
      eapply wp_connect_error; [apply lookup_insert_eq|]. simpl. intros p' Hp'.
      eexists. split; [split; [apply insert_insert_eq|done]|]. split; [left; simpl; congruence|].
      split; [done|]. split; [done|]. simpl. split; counts. }
  intros sd k E. apply law_socket in E as (H0 & Hn & d & Hpeer & Hm & _). simpl. tcp_steps.
  case_zcmp; [lia|]. set (w1 := on_metrics _ _).
  assert (T1 : touched c (set_sd sd tc) w w1) by done.
  assert (C1 : counts "tcp_connect" 1 (tcp_metrics w) (tcp_metrics w1)) by (simpl; counts).
  assert (C2 : counts "tcp_connect_ex" 0 (tcp_metrics w) (tcp_metrics w1)) by (simpl; counts).
  apply wp_bind, wp_plain; [intros a k'; apply law_setsockopt| |].
  2:{ intros p1 Hm1 He. simpl in *. eapply (connect_fails c w p sd); try done. exists d. congruence. }
  intros x p1 Hx Hm1 _. simpl in Hm1. case_zcmp; [lia|].
  apply wp_bind, wp_plain; [intros a k'; apply law_connect| |].
  - intros y p2 Hy Hm2 _. tcp_steps. destruct (Z.ltb_spec y 0); [lia|]. simpl. tcp_steps.
    rewrite Hm1, Hm in Hm2. eapply wp_nonblock; [rewrite Hm2; apply lookup_insert_eq| |].
    + intros p3 d' Hm3 Hf. simpl. tcp_steps. eexists.
      split; [split; [simpl; apply insert_insert_eq|done]|]. simpl.
      split; [|split; [by right|split; [done|split; counts]]].
      split; [done|]. split; [done|]. exists d'. rewrite Hm3, Hm2. by rewrite insert_insert_eq.
    + intros p3 Hm3 He. simpl. rewrite Hm2 in Hm3.
      eapply (connect_fails c w p sd (set_state CHANNEL_ESTABLISHED (set_sd sd tc))); try done;
        [|by eauto]. split; [simpl; apply insert_insert_eq|done].
  - intros p2 Hm2 He. tcp_steps. rewrite Hm1, Hm in Hm2. simpl.
    destruct (Z.eqb_spec (errno p2) EINPROGRESS); simpl.
    + tcp_steps. eapply wp_nonblock; [rewrite Hm2; apply lookup_insert_eq| |].
      * intros p3 d' Hm3 Hf. simpl. tcp_steps. eexists.
        split; [split; [simpl; apply insert_insert_eq|done]|]. simpl.
        split; [|split; [by left|split; [done|split; counts]]].
        split; [done|]. split; [done|]. exists d'. rewrite Hm3, Hm2. by rewrite insert_insert_eq.
      * intros p3 Hm3 He3. simpl. rewrite Hm2 in Hm3.
        eapply (connect_fails c w p sd (set_state CHANNEL_OPEN (set_sd sd tc))); try done;
          [|by eauto]. split; [simpl; apply insert_insert_eq|done].
    + eapply (connect_fails c w p sd); try done. by eauto.
Qed.

Definition listen_post c w p (ok : bool) (s : tcp_world * proc K) : Prop :=
  exists tc', touched c tc' w s.1 /\ opened (fds_of p) ok (tc_sd tc') (fds_of s.2) /\
    (ok = true -> tc_level tc' = CHANNEL_META /\ tc_state tc' = CHANNEL_LISTEN).

Lemma listen_fails c w p sd tc w1 p1 :
  fds_of p !! sd = None -> 0 <= sd -> touched c (set_sd sd tc) w w1 ->
  (exists d, fds_of p1 = <[sd := d]> (fds_of p)) ->
  wp (listen_error c) (listen_post c w p) (w1, p1).
Proof.
  intros Hn H0 (Hc1 & Ha & Hb) [d Hm1].
  eapply wp_listen_error; [rewrite Hc1; apply lookup_insert_eq|]. simpl.
  intros w' p' Hc' Ha' Hb' Hp'. exists (set_sd sd tc). rewrite Hm1 in Hp'.
  split; [split; simpl; [congruence|split; congruence]|].
  split; [by eapply opened_failed|done].
Qed.

Lemma tcp_listen_spec ai c tc w p :
  conns w !! c = Some tc -> wp (tcp_listen ai c) (listen_post c w p) (w, p).
Proof.
  intros Hc. unfold tcp_listen. tcp_steps. repeat wp_step.
  2:{ intros e k E. apply law_socket in E as (He & Hm & _). simpl. tcp_steps. simpl.
      eapply wp_listen_error; [apply lookup_insert_eq|]. simpl. intros w' p' Hc' Ha' Hb' Hp'.
      exists (set_sd (-1) tc). split; [done|]. split; [left; simpl; congruence|done]. }
  intros sd k E. apply law_socket in E as (H0 & Hn & d & Hpeer & Hm & _). simpl. tcp_steps.
  case_zcmp; [lia|]. set (w1 := set_conns _ _).
  assert (T1 : touched c (set_sd sd tc) w w1) by done.
  assert (Hbad : forall p1 : proc K, fds_of p1 = <[sd := d]> (fds_of p) ->
    wp (listen_error c) (listen_post c w p) (w1, p1)).
  { intros p1 Hm1. eapply (listen_fails c w p sd); try done. by exists d. }
  apply wp_bind, wp_plain; [intros a k'; apply law_setsockopt| |].
  2:{ intros p1 Hm1 _. simpl in *. apply Hbad. congruence. }
  intros x p1 Hx Hm1 _. simpl in Hm1. rewrite Hm in Hm1. case_zcmp; [lia|].
  apply wp_bind, wp_plain; [intros a k'; apply law_bind| |].
  2:{ intros p2 Hm2 _. simpl. apply Hbad. congruence. }
  intros y p2 Hy Hm2 _. rewrite Hm1 in Hm2. case_zcmp; [lia|]. tcp_steps. apply wp_get. tcp_steps.
  apply wp_plain; [intros a k'; apply law_listen| |].
  2:{ intros p3 Hm3 _. simpl. apply Hbad. congruence. }
  intros z p3 Hz Hm3 _. rewrite Hm2 in Hm3. case_zcmp; [lia|]. tcp_steps.
  eapply wp_nonblock; [rewrite Hm3; apply lookup_insert_eq| |].
  2:{ intros p4 Hm4 _. simpl. apply Hbad. congruence. }
  intros p4 d' Hm4 Hf. simpl. rewrite Hm3, insert_insert_eq in Hm4. tcp_steps.
  assert (Hdone : forall p5 : proc K, fds_of p5 = fds_of p4 -> wp (upd_conn c (set_level CHANNEL_META);;
    upd_conn c (set_state CHANNEL_LISTEN);; mret true) (listen_post c w p) (w1, p5)).
  { intros p5 Hm5. repeat tcp_step. exists (set_state CHANNEL_LISTEN (set_level CHANNEL_META (set_sd sd tc))).
    split; [split; simpl; [by rewrite !insert_insert_eq|done]|]. simpl. split; [|done].
    split; [done|]. split; [done|]. exists d'. split; [congruence|done]. }
  apply wp_plain; [intros a k'; apply law_setsockopt| |]; intros; by apply Hdone.
Qed.

(** The kernel's answer to accept on [lsd], called again as long as a signal
    interrupts it. *)
Inductive accept_answer (nb : bool) (lsd : Z) : K -> answer Z -> K -> Prop :=
| Answer_last k a k' :
    k_accept lsd nb k = (a, k') -> a ≠ Err EINTR -> accept_answer nb lsd k a k'
| Answer_interrupted k k1 a k' :
    k_accept lsd nb k = (Err EINTR, k1) -> accept_answer nb lsd k1 a k' -> accept_answer nb lsd k a k'.

(** What an accepted connection is: the frontmost one of the backlog, with a new
    descriptor. *)
Record accepted (nb : bool) (lsd : Z) (m : gmap Z desc) (sd : Z) (ls : desc) (n : nat) (d : desc)
    (m' : gmap Z desc) : Prop := {
  ac_sd : 0 <= sd;
  ac_ls : m !! lsd = Some ls;
  ac_pend : d_pend ls = S n;
  ac_new : m !! sd = None;
  ac_peer : d_peer d = None;
  ac_nonblock : nb = true -> Z.land (d_flags d) O_NONBLOCK = O_NONBLOCK;
  ac_fds : m' = <[sd := d]> (<[lsd := set_pend ls n]> m);
}.

Lemma accept_answer_view nb lsd k a k' :
  accept_answer nb lsd k a k' ->
  (sigs (view k') <= sigs (view k))%nat /\
  match a with
  | Ok sd => exists ls n d, accepted nb lsd (fds (view k)) sd ls n d (fds (view k'))
  | Err e => e ≠ EINTR /\ fds (view k') = fds (view k)
  end.
Proof.
  induction 1 as [k a k' E Hne|k k1 a k' E _ [IHs IH]].
  - apply law_accept in E. destruct a as [sd|e].
    + destruct E as (ls & n & Hls & Hn & (H0 & Hf & d & Hp & Hm & Hs) & Hnb). split; [done|].
      exists ls, n, d. split; try done. intros Hb. apply (Hnb Hb). rewrite Hm. apply lookup_insert_eq.
    + destruct E as (He & Hm & Hs & Hi). split; [done|]. split; [congruence|done].
  - apply law_accept in E as (_ & Hm & Hs & _). rewrite Hm in IH. split; [lia|done].
Qed.

(** The metrics after the answer. *)
Definition count_answer (a : answer Z) (ms : metrics_st) : metrics_st :=
  match a with
  | Ok _ => ms
  | Err e => if e =? EAGAIN then ms else INCR ms "tcp_accept_ex"
  end.

(** _tcp_accept returns what accept answers once the pending signals are used up. *)
Lemma tcp_accept_loop_spec fuel accept4 sc tc w p :
  conns w !! sc = Some tc -> (sigs_of p < fuel)%nat ->
  wp (_tcp_accept fuel accept4 sc) (fun sd '(w', p') =>
    exists a, accept_answer accept4 (tc_sd tc) (kern p) a (kern p') /\ w' = on_metrics (count_answer a) w /\
      sd = match a with Ok sd => sd | Err _ => -1 end) (w, p).
Proof.
  intros Hc. revert p. induction fuel as [|fuel IH]; intros p Hf; [lia|].
  simpl _tcp_accept. tcp_steps.
  assert (Heq : (if accept4 then c_accept4 (tc_sd tc) else c_accept (tc_sd tc)) =
    call (K := K) (k_accept (tc_sd tc) accept4)) by (by destruct accept4).
  rewrite Heq. repeat wp_step.
  - intros sd k E. pose proof E as (_ & _ & _ & _ & (H0 & _) & _)%law_accept. case_zcmp; [lia|].
    tcp_steps. exists (Ok sd). split_and!; [by apply Answer_last|by destruct w|done].
  - intros e k E. simpl. tcp_steps. change EWOULDBLOCK with EAGAIN. rewrite orb_diag. simpl.
    destruct (Z.eqb_spec e EAGAIN) as [->|Hne]; [|destruct (Z.eqb_spec e EINTR) as [->|Hni]].
    + tcp_steps. exists (Err EAGAIN). split_and!; [by apply Answer_last|by destruct w|done].
    + pose proof E as (_ & _ & _ & Hi)%law_accept. specialize (Hi eq_refl).
      eapply wp_mono; [apply IH; simpl; lia|]. intros sd [w' p'] (a & Ha & H). exists a. split; [|done].
      by eapply Answer_interrupted.
    + tcp_steps. exists (Err e). split_and!; [apply Answer_last; [done|congruence]| |done].
      unfold count_answer. by rewrite (proj2 (Z.eqb_neq e EAGAIN)).
Qed.

Lemma closed_accepted nb lsd (m : gmap Z desc) sd ls n d m' :
  accepted nb lsd m sd ls n d m' -> delete sd m' = <[lsd := set_pend ls n]> m.
Proof.
  intros [_ Hl _ Hs _ _ ->]. apply delete_insert_id. rewrite lookup_insert_ne; [done|]. congruence.
Qed.

(** [n] connections are accepted on [lsd] and closed, one after the other, [x] of them
    with an error of close, until accept fails with [e]. *)
Inductive rejects (lsd : Z) : nat -> nat -> Z -> K -> K -> Prop :=
| Rejects_end k e k' :
    accept_answer false lsd k (Err e) k' -> rejects lsd 0 0 e k k'
| Rejects_one k sd k1 r k2 n x e k' :
    accept_answer false lsd k (Ok sd) k1 -> k_close sd k1 = (r, k2) -> rejects lsd n x e k2 k' ->
    rejects lsd (S n) (match r with Ok _ => x | Err _ => S x end) e k k'.

Lemma rejects_interrupted lsd n x e k k1 k' :
  k_accept lsd false k = (Err EINTR, k1) -> rejects lsd n x e k1 k' -> rejects lsd n x e k k'.
Proof.
  intros E H. revert E. destruct H as [k2 e' k3 Ha|k2 sd k3 r k4 n' x' e' k5 Ha Hc Hr]; intros E.
  - apply Rejects_end. by eapply Answer_interrupted.
  - eapply Rejects_one; [by eapply Answer_interrupted|done|done].
Qed.

(** The backlog loses the rejected connections; no descriptor stays. *)
Lemma rejects_view lsd n x e k k' ls :
  rejects lsd n x e k k' -> fds (view k) !! lsd = Some ls ->
  (n <= d_pend ls)%nat /\ fds (view k') = <[lsd := set_pend ls (d_pend ls - n)]> (fds (view k)).
Proof.
  intros H. revert ls. induction H as [k e k' Ha|k sd k1 r k2 n x e k' Ha Hc _ IH]; intros ls Hl.
  - apply accept_answer_view in Ha as (_ & _ & ->). split; [lia|]. rewrite insert_id; [done|].
    rewrite Hl, Nat.sub_0_r. by destruct ls.
  - apply accept_answer_view in Ha as (_ & ls' & m & d & A). pose proof (ac_ls _ _ _ _ _ _ _ _ A). simplify_eq.
    apply law_close in Hc as (_ & Hm & _). rewrite (closed_accepted _ _ _ _ _ _ _ _ A) in Hm.
    destruct (IH (set_pend ls m)) as [IH1 IH2]; [rewrite Hm; apply lookup_insert_eq|]. simpl in *.
    pose proof (ac_pend _ _ _ _ _ _ _ _ A) as Hp. rewrite Hp. split; [lia|].
    by rewrite IH2, Hm, insert_insert_eq.
Qed.

(** A kernel whose accept says EAGAIN only with an empty backlog. *)
Definition eagain_means_empty (lsd : Z) : Prop := forall k k' ls,
  k_accept lsd false k = (Err EAGAIN, k') -> fds (view k) !! lsd = Some ls -> d_pend ls = O.

Lemma answer_empty lsd k k' ls :
  eagain_means_empty lsd -> accept_answer false lsd k (Err EAGAIN) k' ->
  fds (view k) !! lsd = Some ls -> d_pend ls = O.
Proof.
  intros He. remember (Err EAGAIN) as a eqn:Ea. induction 1 as [k a k' E _|k k1 a k' E _ IH]; intros Hl; subst.
  - by eapply He.
  - apply law_accept in E as (_ & Hm & _). apply IH; [done|]. by rewrite Hm.
Qed.

Lemma rejects_empty lsd n x k k' ls :
  eagain_means_empty lsd -> rejects lsd n x EAGAIN k k' -> fds (view k) !! lsd = Some ls -> n = d_pend ls.
Proof.
  intros He. remember EAGAIN as e eqn:Ee. intros H. revert ls.
  induction H as [k e k' Ha|k sd k1 r k2 n x e k' Ha Hc _ IH]; intros ls Hl; subst.
  - symmetry. by eapply answer_empty.
  - apply accept_answer_view in Ha as (_ & ls' & m & d & A). pose proof (ac_ls _ _ _ _ _ _ _ _ A). simplify_eq.
    apply law_close in Hc as (_ & Hm & _). rewrite (closed_accepted _ _ _ _ _ _ _ _ A) in Hm.
    pose proof (ac_pend _ _ _ _ _ _ _ _ A) as Hp. rewrite Hp. f_equal.
    apply (IH eq_refl (set_pend ls m)). rewrite Hm. apply lookup_insert_eq.
Qed.

Lemma tcp_accept_spec fuel accept4 sc c stc tc w p ls :
  conns w !! sc = Some stc -> conns w !! c = Some tc -> fds_of p !! tc_sd stc = Some ls ->
  (sigs_of p < fuel)%nat ->
  wp (tcp_accept fuel accept4 sc c) (fun ok '(w', p') =>
    exists a k1, accept_answer accept4 (tc_sd stc) (kern p) a k1 /\
      tcp_metrics w' = INCR (count_answer a (tcp_metrics w)) "tcp_accept" /\
      match a with
      | Ok sd => ok = true /\
          conns w' = <[c := set_state CHANNEL_ESTABLISHED (set_level CHANNEL_BASE (set_sd sd tc))]> (conns w) /\
          exists d n, d_pend ls = S n /\ fds_of p !! sd = None /\
            fds_of p' = <[sd := d]> (<[tc_sd stc := set_pend ls n]> (fds_of p)) /\
            (accept4 = true -> Z.land (d_flags d) O_NONBLOCK = O_NONBLOCK)
      | Err e => ok = false /\ conns w' = conns w /\ kern p' = k1 /\ fds_of p' = fds_of p
      end) (w, p).
Proof.
  intros Hs Hc Hl Hf. unfold tcp_accept. apply wp_bind.
  eapply wp_mono; [by eapply (tcp_accept_loop_spec fuel accept4 sc stc)|].
  intros sd [w1 p1] (a & Ha & -> & ->). pose proof (accept_answer_view _ _ _ _ _ Ha) as [_ Hv]. tcp_steps.
  destruct a as [sd|e].
  - destruct Hv as (ls' & n & d & [H0 Hl' Hn Hfr _ Hnb Hm]). simplify_eq. case_zcmp; [lia|]. tcp_steps.
    destruct accept4; tcp_steps.
    + exists (Ok sd), (kern p1). split; [done|]. split; [done|]. split; [done|].
      split; [simpl; by rewrite !insert_insert_eq|]. by exists d, n.
    + eapply (wp_nonblock sd d); [by rewrite Hm, lookup_insert_eq|intros p' d' Hm' _|intros p' Hm' _];
        tcp_steps; exists (Ok sd), (kern p1); (split; [done|]; split; [done|]; split; [done|];
        split; [simpl; by rewrite !insert_insert_eq|]).
      * exists d', n. by rewrite Hm', Hm, insert_insert_eq.
      * exists d, n. by rewrite Hm'.
  - simpl. tcp_steps. exists (Err e), (kern p1). split; [done|]. split; [done|]. by destruct Hv.
Qed.

Lemma tcp_reject_spec fuel accept4 sc stc w p ls :
  conns w !! sc = Some stc -> fds_of p !! tc_sd stc = Some ls -> (sigs_of p < fuel)%nat ->
  wp (tcp_reject fuel accept4 sc) (fun _ '(w', p') =>
    exists a k1, accept_answer accept4 (tc_sd stc) (kern p) a k1 /\ conns w' = conns w /\
      match a with
      | Ok sd => exists r n, k_close sd k1 = (r, kern p') /\ d_pend ls = S n /\
          fds_of p' = <[tc_sd stc := set_pend ls n]> (fds_of p) /\
          tcp_metrics w' = match r with
            | Ok _ => INCR (tcp_metrics w) "tcp_reject"
            | Err _ => INCR (INCR (tcp_metrics w) "tcp_reject") "tcp_reject_ex"
            end
      | Err e => kern p' = k1 /\ fds_of p' = fds_of p /\
          tcp_metrics w' = INCR (count_answer a (INCR (tcp_metrics w) "tcp_reject")) "tcp_reject_ex"
      end) (w, p).
Proof.
  intros Hs Hl Hf. unfold tcp_reject. tcp_steps.
  eapply wp_mono; [eapply (tcp_accept_loop_spec fuel accept4 sc stc); [by simpl|done]|].
  intros sd [w1 p1] (a & Ha & -> & ->). pose proof (accept_answer_view _ _ _ _ _ Ha) as [_ Hv].
  destruct a as [sd|e].
  - destruct Hv as (ls' & n & d & A). pose proof (ac_ls _ _ _ _ _ _ _ _ A). simplify_eq.
    pose proof (ac_sd _ _ _ _ _ _ _ _ A). pose proof (ac_pend _ _ _ _ _ _ _ _ A) as Hp. case_zcmp; [lia|].
    pose proof (closed_accepted _ _ _ _ _ _ _ _ A) as Hcl.
    repeat wp_step; intros r k2 Ec; pose proof Ec as (_ & Hm2 & Hr)%law_close; rewrite Hcl in Hm2.
    + subst r. simpl. apply wp_ret. exists (Ok sd), (kern p1). split; [done|]. split; [done|]. by exists (Ok 0), n.
    + simpl. tcp_steps. exists (Ok sd), (kern p1). split; [done|]. split; [done|]. by exists (Err r), n.
  - simpl. tcp_steps. exists (Err e), (kern p1). split; [done|]. split; [done|]. by destruct Hv.
Qed.

(** tcp_reject_all goes on until accept fails, past signals, and counts. *)
Lemma tcp_reject_all_spec fuel sc tc w p ls :
  conns w !! sc = Some tc -> fds_of p !! tc_sd tc = Some ls ->
  (sigs_of p + d_pend ls < fuel)%nat ->
  wp (tcp_reject_all fuel sc) (fun _ '(w', p') =>
    exists n x e, rejects (tc_sd tc) n x e (kern p) (kern p') /\ conns w' = conns w /\
      counts "tcp_reject" (Z.of_nat n) (tcp_metrics w) (tcp_metrics w') /\
      counts "tcp_reject_ex" (Z.of_nat x + if e =? EAGAIN then 0 else 1)
        (tcp_metrics w) (tcp_metrics w')) (w, p).
Proof.
  intros Hc. revert w p ls Hc. induction fuel as [|fuel IH]; intros w p ls Hc Hls Hf; [lia|].
  simpl tcp_reject_all. tcp_steps. repeat wp_step.
  - intros sd k E. assert (Ha : accept_answer false (tc_sd tc) (kern p) (Ok sd) k) by (by apply Answer_last).
    pose proof (accept_answer_view _ _ _ _ _ Ha) as (Hs & ls' & n & d & A).
    pose proof (ac_ls _ _ _ _ _ _ _ _ A). simplify_eq. pose proof (ac_sd _ _ _ _ _ _ _ _ A).
    pose proof (ac_pend _ _ _ _ _ _ _ _ A) as Hp. case_zcmp; [lia|].
    assert (Hgo : forall r k2 e (w1 : tcp_world), k_close sd k = (r, k2) -> conns w1 = conns w ->
      counts "tcp_reject" 0 (tcp_metrics w) (tcp_metrics w1) ->
      counts "tcp_reject_ex" (match r with Ok _ => 0 | Err _ => 1 end) (tcp_metrics w) (tcp_metrics w1) ->
      wp (incr "tcp_reject";; tcp_reject_all fuel sc) (fun _ '(w', p') =>
        exists n x e, rejects (tc_sd tc) n x e (kern p) (kern p') /\ conns w' = conns w /\
        counts "tcp_reject" (Z.of_nat n) (tcp_metrics w) (tcp_metrics w') /\
        counts "tcp_reject_ex" (Z.of_nat x + if e =? EAGAIN then 0 else 1)
          (tcp_metrics w) (tcp_metrics w')) (w1, Proc k2 e)).
    { intros r k2 er w1 Ec Hw1 C1 C2. pose proof Ec as (Hs2 & Hm2 & _)%law_close.
      rewrite (closed_accepted _ _ _ _ _ _ _ _ A) in Hm2. tcp_steps.
      eapply wp_mono; [apply (IH _ _ (set_pend ls n)); [by simpl; rewrite Hw1|..]|].
      - simpl. rewrite Hm2. apply lookup_insert_eq.
      - simpl. lia.
      - intros _ [w' p'] (n' & x' & e' & Hr & Hw' & C3 & C4). simpl in *.
        exists (S n'), (match r with Ok _ => x' | Err _ => S x' end), e'.
        split; [by eapply Rejects_one|]. split; [congruence|]. unfold INCR in *.
        split; (eapply counts_eq; [eapply counts_trans; [|eassumption]; counts_go|]); [lia|destruct r; lia]. }
    repeat wp_step.
    + intros x k2 Ec. pose proof Ec as (_ & _ & ->)%law_close. simpl. apply wp_bind, wp_ret.
      eapply Hgo; [done|done|apply counts_refl|apply counts_refl].
    + intros e k2 Ec. simpl. tcp_steps. eapply Hgo; [done|done|simpl; counts|simpl; counts].
  - intros e k E. simpl. tcp_steps. change EWOULDBLOCK with EAGAIN. rewrite orb_diag. simpl.
    destruct (Z.eqb_spec e EAGAIN) as [->|Hne]; [|destruct (Z.eqb_spec e EINTR) as [->|Hni]].
    + tcp_steps. exists O, O, EAGAIN. split; [apply Rejects_end; by apply Answer_last|].
      split_and!; [done|apply counts_refl|apply counts_refl].
    + pose proof E as (_ & Hm & _ & Hi)%law_accept. specialize (Hi eq_refl).
      eapply wp_mono; [apply (IH _ _ ls); [done|by simpl; rewrite Hm|simpl; lia]|].
      intros _ [w' p'] (n & x & e & Hr & H). exists n, x, e. split; [by eapply rejects_interrupted|done].
    + tcp_steps. exists O, O, e. split; [apply Rejects_end, Answer_last; [done|congruence]|].
      rewrite (proj2 (Z.eqb_neq _ _)) by done. split_and!; [done|simpl; counts|simpl; counts].
Qed.

End Open.

(** ** The search for the largest send buffer *)

(** setsockopt(SO_SNDBUF) on [sd] sets the buffer [sndbuf] to any size up to
    [limit] and refuses larger ones, getsockopt reads it. *)
Definition sndbuf_limit {K : Type} `{!Kernel K} (sd limit : Z) (sndbuf : K -> Z) : Prop :=
  (forall k v, 0 <= v -> exists k',
     (v <= limit -> k_setsockopt sd SOL_SOCKET SO_SNDBUF [v] k = (Ok 0, k') /\ sndbuf k' = v) /\
     (limit < v -> exists e, k_setsockopt sd SOL_SOCKET SO_SNDBUF [v] k = (Err e, k') /\
        sndbuf k' = sndbuf k)) /\
  (forall k, k_getsockopt sd SOL_SOCKET SO_SNDBUF k = (Ok (sndbuf k), k)).

Lemma maximize_loop_done {K : Type} `{!Kernel K} fuel sd min max :
  max < min -> maximize_loop (K := K) fuel sd min max = mret tt.
Proof. intros H. destruct fuel; simpl; case_zcmp; done || lia. Qed.

Section Maximize.
Context {K : Type} `{!Kernel K} (sd limit : Z) (sndbuf : K -> Z).
Hypothesis Hlim : sndbuf_limit sd limit sndbuf.

Lemma wp_set_sndbuf v (Q : Z -> tcp_world * proc K -> Prop) w (p : proc K) :
  0 <= v ->
  (forall p', v <= limit -> sndbuf (kern p') = v -> Q 0 (w, p')) ->
  (forall p', limit < v -> sndbuf (kern p') = sndbuf (kern p) -> Q (-1) (w, p')) ->
  wp (tcp_set_sndbuf sd v) Q (w, p).
Proof.
  intros Hv H1 H2. destruct (proj1 Hlim (kern p) v Hv) as (k' & Ha & Hb).
  unfold tcp_set_sndbuf. repeat wp_step; intros x k E.
  - destruct (Z.le_gt_cases v limit) as [Hle|Hgt].
    + destruct (Ha Hle) as [E' Hs]. rewrite E' in E. simplify_eq. by apply H1.
    + destruct (Hb Hgt) as (e & E' & Hs). rewrite E' in E. simplify_eq.
  - destruct (Z.le_gt_cases v limit) as [Hle|Hgt].
    + destruct (Ha Hle) as [E' Hs]. rewrite E' in E. simplify_eq.
    + destruct (Hb Hgt) as (e & E' & Hs). rewrite E' in E. simplify_eq. by apply H2.
Qed.

(** Sizes below [min] were accepted, the last of them is set; sizes above [max]
    are refused or out of range. *)
Lemma maximize_loop_spec fuel min max w (p : proc K) :
  0 <= min -> max <= 256 * MiB -> max - min + 1 < 2 ^ Z.of_nat fuel ->
  sndbuf (kern p) = min - 1 \/ sndbuf (kern p) = min ->
  min - 1 <= limit -> (max < 256 * MiB -> limit <= max) ->
  min <= max + 1 -> (sndbuf (kern p) = min -> min <= limit /\ min <= 256 * MiB) ->
  wp (maximize_loop fuel sd min max) (fun _ '(w', p') =>
    w' = w /\ sndbuf (kern p') = Z.min limit (256 * MiB)) (w, p).
Proof.
  assert (HM : 256 * MiB = 268435456) by done. rewrite HM.
  revert min max p. induction fuel as [|fuel IH]; intros min max p H0 Hmax Hf Hs Hml Hlm Hmm Heq;
    cbn [maximize_loop]; case_zcmp.
  - simpl in Hf. lia.
  - apply wp_ret. split; [done|]. destruct Hs as [Hs|Hs]; [|specialize (Heq Hs)]; lia.
  - rewrite Nat2Z.inj_succ, Z.pow_succ_r in Hf by lia.
    assert (Hq : Z.quot (min + max) 2 = (min + max) / 2) by (apply Z.quot_div_nonneg; lia).
    rewrite Hq. set (avg := (min + max) / 2). assert (min <= avg <= max) by (unfold avg; mlia).
    apply wp_bind, wp_set_sndbuf; [lia| |].
    + intros p' Hle Hs'. simpl. apply IH; try lia. unfold avg in *. mlia.
    + intros p' Hgt Hs'. simpl. apply IH; try lia; unfold avg in *; mlia.
  - apply wp_ret. split; [done|]. destruct Hs as [Hs|Hs]; [|specialize (Heq Hs)]; lia.
Qed.

End Maximize.

(** ** The pool of connections *)

#[export] Instance tcp_pool_client_laws : PoolClientLaws qmem tcp_world.
Proof.
  unshelve econstructor; [exact (fun w X => dom (conns w) = X)|..]; simpl.
  - intros m w r m' w' h l X. unfold tcp_conn_create, next_conn.
    destruct (conn_answers w) as [|[p|] rest]; try case_decide as Hd; try (by intros [= <- <- <-]).
    intros [= <- <- <-] <- Hsub Hq. apply stailq_set_next; [done|].
    eapply live_not_elem; [|done]. by apply not_elem_of_dom.
  - intros m w e m' w' X. unfold tcp_conn_create, next_conn.
    destruct (conn_answers w) as [|[p|] rest]; try done. case_decide; [|done].
    intros [= <- <- <-] <-. simpl. split; [by apply not_elem_of_dom|]. by rewrite dom_insert_L.
  - intros m w m' w' X. unfold tcp_conn_create, next_conn.
    destruct (conn_answers w) as [|[p|] rest]; try case_decide; by intros [= <- <-].
  - intros e m w m' w' h l [= <- <-]. done.
  - intros e m w m' w' X [= <- <-] <- [c Hc]%elem_of_dom. rewrite Hc. simpl. by rewrite dom_delete_L.
Defined.

Lemma tcp_live (w : tcp_world) (X : gset positive) : pc_live (M := qmem) w X <-> dom (conns w) = X.
Proof. done. Qed.

Definition curr_ok (w : tcp_world) : Prop :=
  gauge_of (tcp_metrics w) "tcp_conn_curr" = Some (i64 (Z.of_nat (size (conns w)))).

Definition active_of (w : tcp_world) : option Z := gauge_of (tcp_metrics w) "tcp_conn_active".

Abbreviation tcp_inv := (minv conns tc_free active_of curr_ok).

Lemma tcp_create_spec m w r m' w' :
  tcp_conn_create m w = (r, (m', w')) ->
  (curr_ok w -> curr_ok w') /\ active_of w' = active_of w /\
  (forall x o, conns w !! x = Some o -> conns w' !! x = Some o).
Proof.
  unfold tcp_conn_create, next_conn, curr_ok, active_of.
  destruct (conn_answers w) as [|[p|] rest]; [|case_decide as Hd|]; intros [= <- <- <-]; simpl;
    unfold INCR; try (split; [intros; gauge|split; [by rewrite !gauge_incr_ne by done|done]]).
  split; [|split; [by rewrite !gauge_incr_ne by done|]].
  - intros Hc. eapply eq_trans; [gauge|]. rewrite map_size_insert_None by done.
    rewrite i64_add_l. do 2 f_equal. lia.
  - intros x o Hx. rewrite lookup_insert_ne; [done|]. congruence.
Qed.

Section Pool.
Implicit Types (s : tcp_module) (x : positive) (used : list positive).

Lemma tcp_borrow_inv s used :
  tcp_inv (cp s) used ->
  exists r s', tcp_conn_borrow s = Some (r, s') /\
    match r with
    | Some x => x ∉ used /\ tcp_inv (cp s') (x :: used) /\
        conns (world (cp s')) !! x = Some (TcpConn false CHANNEL_INVALID 0 0 0 CHANNEL_UNKNOWN 0 0)
    | None => nfree (ctl (cp s)) = 0 /\ tcp_inv (cp s') used
    end.
Proof.
  intros Hi. destruct (minv_borrow conns tc_free active_of curr_ok tcp_live
    tcp_create_spec (cp s) used Hi) as (r & p & E & Hr).
  unfold tcp_conn_borrow. rewrite E. simpl. destruct r as [x|].
  - destruct Hr as (Hx & [tc Htc] & HP & Ha & Hinv). do 2 eexists. split; [done|]. split; [done|].
    split.
    + apply (Hinv _ tcp_conn_reset); try done; unfold curr_ok, active_of in *; simpl.
      * assert (Hd : size (alter tcp_conn_reset x (conns (world p))) = size (conns (world p))).
        { by rewrite <- size_dom, dom_alter_L, size_dom. }
        rewrite Hd. gauge.
      * eapply eq_trans; [gauge|]. by rewrite i64_add_l.
    + simpl. by rewrite lookup_alter_eq, Htc.
  - destruct Hr as (Hn & HP & Ha & Hinv). do 2 eexists. split; [done|]. split; [done|].
    apply Hinv; try done; unfold curr_ok, active_of in *; simpl; gauge.
Qed.

Lemma tcp_return_inv s used x :
  tcp_inv (cp s) used -> x ∈ used ->
  exists s', tcp_conn_return (Some (Some x)) s = Some (Some None, s') /\
    tcp_inv (cp s') (filter (fun y => y ≠ x) used) /\ cp_init s' = cp_init s /\
    tcp_conn_return (Some (Some x)) s' = Some (Some (Some x), s').
Proof.
  intros Hi Hx. destruct (mi_busy _ _ _ _ _ _ Hi x Hx) as (tc & Hl & Hf).
  unfold tcp_conn_return at 1. rewrite Hl. simpl. rewrite Hf.
  destruct (minv_return conns tc_free active_of curr_ok tcp_live (cp s) used x
    (set_free true) _ Hi Hx (eq_refl (alter (set_free true) x (conns (world (cp s))))
      : conns (set_conns (world (cp s)) (alter (set_free true) x (conns (world (cp s))))) = _))
    as [_ Hinv].
  destruct Hi as [_ HP Ha _]. eexists. split; [done|]. split; [|split; [done|]].
  - apply Hinv; [done|..]; unfold curr_ok, active_of in *; simpl.
    + assert (Hd : size (alter (set_free true) x (conns (world (cp s)))) = size (conns (world (cp s)))).
      { by rewrite <- size_dom, dom_alter_L, size_dom. }
      rewrite Hd. gauge.
    + eapply eq_trans; [gauge|]. by rewrite i64_sub_l.
  - unfold tcp_conn_return. simpl. rewrite lookup_alter_eq, Hl. simpl. done.
Qed.

(** What a program does with the pool: borrow, use a connection it holds (any
    operation on sockets: it changes that connection and counters), return. *)
Inductive tcp_hist s0 : tcp_module -> list positive -> Prop :=
| Hist_start : tcp_hist s0 s0 []
| Hist_borrow s used r s' :
    tcp_hist s0 s used -> tcp_conn_borrow s = Some (r, s') ->
    tcp_hist s0 s' (match r with Some x => x :: used | None => used end)
| Hist_use s used x f w' :
    tcp_hist s0 s used -> x ∈ used -> (forall tc, tc_free (f tc) = tc_free tc) ->
    conns w' = alter f x (conns (world (cp s))) ->
    (forall g, gauge_of (tcp_metrics w') g = gauge_of (tcp_metrics (world (cp s))) g) ->
    tcp_hist s0 (upd_world s (fun _ => w')) used
| Hist_return s used x c s' :
    tcp_hist s0 s used -> x ∈ used -> tcp_conn_return (Some (Some x)) s = Some (c, s') ->
    tcp_hist s0 s' (filter (fun y => y ≠ x) used).

Lemma tcp_hist_inv s0 s used :
  tcp_inv (cp s0) [] -> tcp_hist s0 s used ->
  tcp_inv (cp s) used /\ cp_init s = cp_init s0.
Proof.
  intros H0. induction 1 as [|s used r s' _ [IH IHi] E|s used x f w' _ [IH IHi] Hx Hf Hc Hg|
    s used x c s' _ [IH IHi] Hx E].
  - done.
  - assert (cp_init s' = cp_init s) as ->.
    { unfold tcp_conn_borrow in E. destruct (FREEPOOL_BORROW _) as [[[]]|]; by simplify_eq/=. }
    destruct (tcp_borrow_inv s used IH) as (r' & s1 & E1 & Hr). rewrite E1 in E. simplify_eq.
    destruct r; (split; [apply Hr|done]).
  - split; [|done]. apply (minv_edit conns tc_free active_of curr_ok tcp_live
      (cp s) used x f); try done; unfold curr_ok, active_of in *.
    + destruct IH as [_ HP _ _]. unfold curr_ok in HP. rewrite Hg, HP, Hc.
      by rewrite <- (size_dom (alter _ _ _)), dom_alter_L, size_dom.
    + apply Hg.
  - destruct (tcp_return_inv s used x IH Hx) as (s1 & E1 & Hi & Hcp & _). rewrite E1 in E.
    simplify_eq. split; [done|congruence].
Qed.

End Pool.

(** ** Properties *)

(** C23: any interleaving of tcp_recv, tcp_recvv, tcp_send and tcp_sendv
    on a connection keeps what cc_channel.h promises: the bytes received so far
    are a prefix of the bytes that arrive at the socket, in order, none lost and
    none twice; the bytes the socket accepted are those of the buffers handed to
    send, as far as send reported them; recv_nbyte and send_nbyte are their
    numbers; CHANNEL_TERM is reached only when the whole stream has been read;
    other connections and descriptors are untouched.  The next tcp_recv and
    tcp_send return as soon as the pending signals are used up. *)
Theorem tcp_stream {K : Type} `{!Kernel K} `{!KernelLaws K} (c : positive) (tc0 : tcp_conn)
    (d0 : desc) (s0 s : tcp_world * proc K) (r o : list byte) :
  conns s0.1 !! c = Some tc0 -> fds (view (kern s0.2)) !! tc_sd tc0 = Some d0 ->
  d_peer d0 = None -> tcp_run c s0 r o s ->
  exists tc d, conns s.1 !! c = Some tc /\ tc_sd tc = tc_sd tc0 /\
    fds (view (kern s.2)) !! tc_sd tc = Some d /\
    d_in d0 = r ++ d_in d /\ d_out d = d_out d0 ++ o /\
    u64 (tc_recv_nbyte tc) = u64 (tc_recv_nbyte tc0 + zlen r) /\
    u64 (tc_send_nbyte tc) = u64 (tc_send_nbyte tc0 + zlen o) /\
    (tc_state tc = CHANNEL_TERM -> tc_state tc0 = CHANNEL_TERM \/ r = d_in d0) /\
    (forall c', c' ≠ c -> conns s.1 !! c' = conns s0.1 !! c') /\
    (forall fd, fd ≠ tc_sd tc0 ->
       fds (view (kern s.2)) !! fd = fds (view (kern s0.2)) !! fd) /\
    forall fuel, (sigs (view (kern s.2)) < fuel)%nat ->
      (forall nbyte, is_Some (tcp_recv fuel c nbyte s)) /\ (forall bs, is_Some (tcp_send fuel c bs s)).
Proof.
  intros Hc0 Hd0 Hp0 Hrun.
  destruct (io_run_inv c tc0 d0 s0 r o s Hc0 Hd0 Hp0 Hrun)
    as [(tc & Hc & Hsd & Hr & Ho & d & Hd & Hi & Hout & _ & Hst) Hfds].
  assert (Hlk : conns s.1 !! c = Some tc) by (rewrite Hc; apply lookup_insert_eq).
  exists tc, d. split; [done|]. split; [done|]. rewrite Hsd. do 5 (split; [done|]).
  split; [|split; [|split; [done|]]].
  - intros Ht. destruct Hst as [Hst|[_ He]]; [left; congruence|right].
    by rewrite Hi, He, app_nil_r.
  - intros c' Hne. rewrite Hc. by apply lookup_insert_ne.
  - intros fuel Hf. destruct s as [w p]. split.
    + intros nbyte. destruct (tcp_recv_spec fuel c nbyte tc w p Hlk Hf) as (x & s' & -> & _). done.
    + intros bs. destruct (tcp_send_spec fuel c bs tc w p Hlk Hf) as (x & s' & -> & _). done.
Qed.

(** Tcp_maximize_sndbuf ends after at most 29 probes.  When the
    system accepts send buffers up to some limit that is not below the current
    size, it leaves the socket with the largest buffer that is accepted and does
    not exceed 256 MiB; a buffer already larger than that is left alone. *)
Theorem tcp_maximize_sndbuf_max {K : Type} `{!Kernel K} (sd limit : Z) (sndbuf : K -> Z)
    (w : tcp_world) (p : proc K) :
  sndbuf_limit sd limit sndbuf -> 0 <= sndbuf (kern p) <= limit ->
  wp (tcp_maximize_sndbuf 29 sd) (fun _ '(w', p') =>
    w' = w /\
    sndbuf (kern p') = Z.max (sndbuf (kern p)) (Z.min limit (256 * MiB))) (w, p).
Proof.
  intros Hlim H0. unfold tcp_maximize_sndbuf, tcp_get_sndbuf. repeat wp_step.
  2:{ intros e k E. rewrite (proj2 Hlim) in E. done. }
  intros x k E. rewrite (proj2 Hlim) in E. simplify_eq. change (0 <? 0) with false. cbv beta iota.
  wp_step. case_zcmp; [lia|]. assert (HM : 256 * MiB = 268435456) by done. rewrite HM.
  destruct (Z.le_gt_cases (sndbuf (kern p)) 268435456).
  - eapply wp_mono; [eapply (maximize_loop_spec sd limit sndbuf Hlim); rewrite ?HM; cbn [kern]; try lia|].
    intros _ [w' p'] [-> ->]. split; [done|]. rewrite HM. lia.
  - rewrite maximize_loop_done by lia. wp_step. split; [done|]. cbn [kern]. lia.
Qed.

(** C24: tcp_connect and tcp_listen return.  When they report success,
    the connection holds a descriptor that was not open before, it is
    non-blocking, and no other descriptor changed; when they report failure, the
    descriptor of the attempt is closed again and none is leaked, except when the
    system handed out descriptor 0, which the code takes for no descriptor. *)
Theorem tcp_open_close {K : Type} `{!Kernel K} `{!KernelLaws K} (ai : addrinfo) (c : positive)
    (tc : tcp_conn) (w : tcp_world) (p : proc K) :
  conns w !! c = Some tc ->
  wp (tcp_connect ai c) (connect_post c w p) (w, p) /\
  wp (tcp_listen ai c) (listen_post c w p) (w, p).
Proof. intros Hc. split; [by eapply tcp_connect_spec|by eapply tcp_listen_spec]. Qed.

(** C25: accepting and rejecting on a listening socket, with fuel for the pending
    signals and the backlog.  [a] is what the kernel answers to accept once no signal
    interrupts it.  tcp_accept: if [a] is a descriptor it returns true, takes the
    frontmost connection off the backlog, and makes [c] an established connection on
    exactly that descriptor, non-blocking if accept4 is there; if [a] is an error it
    returns false and changes neither the connections nor the descriptors.  Either way
    tcp_accept grows by one, and tcp_accept_ex on an error other than EAGAIN.
    tcp_reject: a connection that is accepted is closed at once, so that the backlog has
    one fewer and no descriptor is left; tcp_reject grows by one, tcp_reject_ex if accept
    or close fails.  tcp_reject_all accepts and closes one connection after the other
    until accept fails with something other than a signal; the backlog has lost the [n]
    connections rejected, tcp_reject has grown by [n], and no descriptor is left.  If it
    ends with EAGAIN, and the kernel says so only when nothing is pending, all the pending
    connections were rejected. *)
Theorem tcp_accept_reject {K : Type} `{!Kernel K} `{!KernelLaws K} (fuel : nat) (accept4 : bool)
    (sc c : positive) (stc tc : tcp_conn) (w : tcp_world) (p : proc K) (ls : desc) :
  conns w !! sc = Some stc -> conns w !! c = Some tc ->
  fds (view (kern p)) !! tc_sd stc = Some ls ->
  (sigs (view (kern p)) + d_pend ls < fuel)%nat ->
  wp (tcp_accept fuel accept4 sc c) (fun ok '(w', p') =>
    exists a k1, accept_answer accept4 (tc_sd stc) (kern p) a k1 /\
      tcp_metrics w' = INCR (count_answer a (tcp_metrics w)) "tcp_accept" /\
      match a with
      | Ok sd => ok = true /\
          conns w' = <[c := set_state CHANNEL_ESTABLISHED (set_level CHANNEL_BASE (set_sd sd tc))]> (conns w) /\
          exists d n, d_pend ls = S n /\ fds (view (kern p)) !! sd = None /\
            fds (view (kern p')) = <[sd := d]> (<[tc_sd stc := set_pend ls n]> (fds (view (kern p)))) /\
            (accept4 = true -> Z.land (d_flags d) O_NONBLOCK = O_NONBLOCK)
      | Err e => ok = false /\ conns w' = conns w /\ kern p' = k1 /\
          fds (view (kern p')) = fds (view (kern p))
      end) (w, p) /\
  wp (tcp_reject fuel accept4 sc) (fun _ '(w', p') =>
    exists a k1, accept_answer accept4 (tc_sd stc) (kern p) a k1 /\ conns w' = conns w /\
      match a with
      | Ok sd => exists r n, k_close sd k1 = (r, kern p') /\ d_pend ls = S n /\
          fds (view (kern p')) = <[tc_sd stc := set_pend ls n]> (fds (view (kern p))) /\
          tcp_metrics w' = match r with
            | Ok _ => INCR (tcp_metrics w) "tcp_reject"
            | Err _ => INCR (INCR (tcp_metrics w) "tcp_reject") "tcp_reject_ex"
            end
      | Err e => kern p' = k1 /\ fds (view (kern p')) = fds (view (kern p)) /\
          tcp_metrics w' = INCR (count_answer a (INCR (tcp_metrics w) "tcp_reject")) "tcp_reject_ex"
      end) (w, p) /\
  wp (tcp_reject_all fuel sc) (fun _ '(w', p') =>
    exists n x e, rejects (tc_sd stc) n x e (kern p) (kern p') /\ conns w' = conns w /\ (n <= d_pend ls)%nat /\
      fds (view (kern p')) = <[tc_sd stc := set_pend ls (d_pend ls - n)]> (fds (view (kern p))) /\
      counts "tcp_reject" (Z.of_nat n) (tcp_metrics w) (tcp_metrics w') /\
      counts "tcp_reject_ex" (Z.of_nat x + if e =? EAGAIN then 0 else 1)
        (tcp_metrics w) (tcp_metrics w') /\
      (eagain_means_empty (tc_sd stc) -> e = EAGAIN -> n = d_pend ls)) (w, p).
Proof.
  intros Hs Hc Hl Hf. split; [|split].
  - by apply (tcp_accept_spec fuel accept4 sc c stc tc w p ls); [..|lia].
  - by apply (tcp_reject_spec fuel accept4 sc stc w p ls); [..|lia].
  - eapply wp_mono; [by eapply tcp_reject_all_spec|].
    intros _ [w' p'] (n & x & e & Hr & Hw & C1 & C2). exists n, x, e.
    destruct (rejects_view _ _ _ _ _ _ _ Hr Hl) as [Hn Hm]. split_and!; try done.
    intros He ->. by eapply rejects_empty.
Qed.

(** Tcp_setup with a pool of [max] connections ends.  Unless it exits
    the process, SIGPIPE is ignored, the pool holds [max] idle connections, and
    after any history of borrowing, using and returning connections:
    tcp_conn_curr and tcp_conn_active are the numbers of allocated and of borrowed
    connections; the next borrow hands out a reset connection nobody holds, or
    fails with no idle connection left; returning a connection clears the caller's
    pointer and a second return does nothing; with everything returned,
    tcp_teardown frees every connection. *)
Theorem tcp_conn_lifecycle {K : Type} `{!SigKernel K} (fuel : nat) (backlog max : Z)
    (ms : metrics_st) (s0 : tcp_module) (tbl : list signal) (p : proc K) :
  cp_init s0 = false -> conns (world (cp s0)) = ∅ ->
  gauge_of ms "tcp_conn_curr" = Some 0 -> gauge_of ms "tcp_conn_active" = Some 0 ->
  0 <= max <= UINT32_MAX -> (Z.to_nat max <= fuel)%nat -> zlen tbl = SIGNAL_MAX ->
  exists r s1 sys, tcp_setup fuel (Some (backlog, max)) ms (s0, (tbl, p)) = Some (r, (s1, sys)) /\
  (r = Returns tt ->
    sys.1 !! Z.to_nat SIGPIPE = Some (Signal "ignoring sigpipe" 0 SIG_IGN 0) /\
    nfree (ctl (cp s1)) = max /\ forall s used, tcp_hist s1 s used ->
    let w := world (cp s) in
    gauge_of (tcp_metrics w) "tcp_conn_curr" = Some (i64 (Z.of_nat (size (conns w)))) /\
    gauge_of (tcp_metrics w) "tcp_conn_active" = Some (i64 (zlen used)) /\
    (exists r s', tcp_conn_borrow s = Some (r, s') /\
       match r with
       | Some x => x ∉ used /\ conns (world (cp s')) !! x =
           Some (TcpConn false CHANNEL_INVALID 0 0 0 CHANNEL_UNKNOWN 0 0)
       | None => nfree (ctl (cp s)) = 0
       end) /\
    (forall x, x ∈ used -> exists s', tcp_conn_return (Some (Some x)) s = Some (Some None, s') /\
       tcp_conn_return (Some (Some x)) s' = Some (Some (Some x), s')) /\
    (forall fuel', used = [] -> (size (conns w) <= fuel')%nat ->
       exists s', tcp_teardown fuel' s = Some s' /\ conns (world (cp s')) = ∅)).
Proof.
  intros Hi Ho Hg1 Hg2 Hmax Hfu Htbl. unfold tcp_setup, tcp_conn_pool_create. simpl. rewrite Hi. simpl.
  assert (u32 max = max) as -> by (apply u32_small; unfold UINT32_MAX in Hmax; lia).
  match goal with |- context [FREEPOOL_CREATE ?st max] => set (st0 := st) end.
  destruct (minv_setup conns tc_free active_of curr_ok tcp_live tcp_create_spec fuel st0 max)
    as (p' & E & Hinv & Hn); [done|unfold curr_ok; simpl; by rewrite Ho|done..|].
  rewrite E. simpl. case_zcmp; [by do 3 eexists; split|].
  destruct (signal_override_spec tbl p SIGPIPE "ignoring sigpipe" 0 0 SIG_IGN Htbl)
    as (r & sys & Es & Hsig & _); [unfold SIGPIPE, SIGNAL_MAX; lia|].
  unfold channel_sigpipe_ignore. rewrite Es. simpl. do 3 eexists. split; [done|]. intros _. simpl.
  split; [done|]. split; [lia|]. intros s used Hh.
  destruct (tcp_hist_inv (TcpModule p' true true) s used Hinv Hh) as [Hs Hci]. simpl in Hci.
  split; [apply (mi_extra _ _ _ _ _ _ Hs)|]. split; [apply (mi_active _ _ _ _ _ _ Hs)|].
  split; [|split].
  - destruct (tcp_borrow_inv s used Hs) as (r' & s' & Eb & Hr). exists r', s'. split; [done|].
    destruct r' as [x|]; [split; apply Hr|apply Hr].
  - intros x Hx. destruct (tcp_return_inv s used x Hs Hx) as (s' & E1 & _ & _ & E2). eauto.
  - intros fuel' -> Hf'. unfold tcp_teardown, tcp_conn_pool_destroy. rewrite Hci. simpl.
    destruct (minv_destroy conns tc_free active_of curr_ok tcp_live fuel' (cp s) Hs Hf')
      as (p2 & -> & Hd). simpl. eexists. split; [done|]. done.
Qed.

(** ** Witnesses: a socket 5 with three bytes to come, a listening socket 6 with
    one connection waiting, and one signal. *)

Definition sample_net : net :=
  Net {[5 := Desc [7; 8; 9] [] None 0 0; 6 := Desc [] [] None 1 0]} 1.

Definition sample_conn (sd : Z) : tcp_conn :=
  TcpConn false CHANNEL_BASE sd 0 0 CHANNEL_ESTABLISHED 0 0.

Definition sample_world : tcp_world :=
  TcpWorld {[1%positive := sample_conn 5; 2%positive := sample_conn 6]} [Some 3%positive; None]
    None TCP_BACKLOG.

Definition sample_io : tcp_world * proc net := (sample_world, Proc sample_net 0).

Definition tcp_metrics0 : metrics_st :=
  Some (list_to_map (map (fun f => METRIC_INIT f.1 f.2 "") [
    ("tcp_conn_curr", METRIC_GAUGE); ("tcp_conn_active", METRIC_GAUGE)])).

Lemma tcp_stream_witness :
  exists s tc, tcp_run 1 sample_io [7; 8] [] s /\ conns s.1 !! 1%positive = Some tc /\
    u64 (tc_recv_nbyte tc) = 2.
Proof.
  assert (Hrun : exists s, tcp_run 1 sample_io [7; 8] [] s).
  { eexists. change [7; 8] with ([] ++ [7; 8]).
    eapply (Tcp_recv 1 sample_io [] [] sample_io 2 2); [apply Tcp_start| | |reflexivity];
      [simpl; lia|lia]. }
  destruct Hrun as [s Hrun].
  destruct (tcp_stream 1 (sample_conn 5) (Desc [7; 8; 9] [] None 0 0) sample_io s [7; 8] [])
    as (tc & d & Hc & _ & _ & _ & _ & Hn & _); [reflexivity..|exact Hrun|].
  exists s, tc. split; [exact Hrun|]. split; [exact Hc|exact Hn].
Defined.

Lemma tcp_open_close_witness :
  exists ok s, tcp_connect (Addrinfo 2 1 0 []) 1 sample_io = Some (ok, s) /\
    connect_post 1 sample_world (Proc sample_net 0) ok s.
Proof.
  destruct (tcp_open_close (K := net) (Addrinfo 2 1 0 []) 1 (sample_conn 5) sample_world
    (Proc sample_net 0)) as [H _]; [reflexivity|exact H].
Defined.

Lemma ideal_eagain lsd : eagain_means_empty (K := net) lsd.
Proof.
  intros k k' ls. simpl. unfold ideal_on. destruct (sigs k); [|by intros [= <-]].
  destruct (fds k !! lsd) as [d|]; [|done]. destruct (d_pend d) eqn:Ed; [|done]. by intros _ [= <-].
Qed.

(** One signal and one connection pending. *)
Lemma tcp_accept_reject_witness :
  (exists w p, tcp_accept 3 true 2 1 sample_io = Some (true, (w, p)) /\
     tc_sd <$> conns w !! 1%positive = Some 7) /\
  exists u w p, tcp_reject_all 3 2 sample_io = Some (u, (w, p)) /\
    fds (kern p) !! 6 = Some (Desc [] [] None 0 0).
Proof.
  destruct (tcp_accept_reject (K := net) 3 true 2 1 (sample_conn 6) (sample_conn 5) sample_world
    (Proc sample_net 0) (Desc [] [] None 1 0)) as ((ok & [w p] & E & _) & _ & (u & [w' p'] & E' & _));
    [reflexivity..|simpl; lia|]. split.
  - vm_compute in E. injection E as <- <- <-. do 2 eexists. split; reflexivity.
  - vm_compute in E'. injection E' as <- <- <-. do 3 eexists. split; reflexivity.
Defined.

(** A socket whose send buffer may hold up to 1000 bytes. *)
Definition sized_kernel : Kernel Z := {|
  k_socket _ _ _ k := (Err 1, k); k_connect _ _ k := (Err 1, k); k_bind _ _ k := (Err 1, k);
  k_listen _ _ k := (Err 1, k); k_accept _ _ k := (Err 1, k); k_close _ k := (Err 1, k);
  k_read _ _ k := (Err 1, k); k_readv _ _ k := (Err 1, k); k_write _ _ k := (Err 1, k);
  k_writev _ _ k := (Err 1, k); k_getfl _ k := (Err 1, k); k_setfl _ _ k := (Err 1, k);
  k_setsockopt _ _ _ v k := match v with
    | [n] => if n <=? 1000 then (Ok 0, n) else (Err 22, k)
    | _ => (Err 22, k)
    end;
  k_getsockopt _ _ _ k := (Ok k, k);
  k_pipe k := (Err 1, k) |}.

Lemma tcp_maximize_sndbuf_max_witness :
  exists x w p, @tcp_maximize_sndbuf Z sized_kernel 29 5 (sample_world, Proc 64 0) = Some (x, (w, p)) /\
    kern p = 1000.
Proof.
  destruct (@tcp_maximize_sndbuf_max Z sized_kernel 5 1000 (fun k => k) sample_world (Proc 64 0))
    as (x & [w p] & E & _ & Hp).
  - split; [|reflexivity]. intros k v Hv. simpl.
    destruct (Z.leb_spec v 1000); eexists; (split; intros; try lia); [by split|by eexists; split].
  - simpl. lia.
  - exists x, w, p. split; [exact E|exact Hp].
Defined.

Lemma tcp_conn_lifecycle_witness :
  exists s1 sys, tcp_setup 1 (Some (128, 1)) tcp_metrics0
      (TcpModule (PState qmem_empty (Pool 1 0 0 0 false) (TcpWorld ∅ [Some 3%positive; None] None 0)) false false,
       (signals_init, Proc sample_net 0)) = Some (Returns tt, (s1, sys)) /\
    nfree (ctl (cp s1)) = 1.
Proof.
  destruct (tcp_conn_lifecycle (K := net) 1 128 1 tcp_metrics0
    (TcpModule (PState qmem_empty (Pool 1 0 0 0 false) (TcpWorld ∅ [Some 3%positive; None] None 0)) false false)
    signals_init (Proc sample_net 0)) as (r & s1 & sys & E & H);
    [reflexivity..|unfold UINT32_MAX; lia|simpl; lia|reflexivity|].
  destruct r as [[]|]; [|discriminate E].
  exists s1, sys. split; [exact E|]. by apply H.
Defined.
