(* ===== verification/Pipe.v ===== *)
(** * Pipe channels (include/channel/cc_pipe.h, src/channel/cc_pipe.c)

    As [Tcp]: the struct, the module's state beside the pool ([pipe_world]), and
    the operations on the two descriptors of a pipe over the kernel of [Sys]. *)

From S2P Require Import Prelude Metric Mm Queue Pool Pooled Sys Signal Channel.
Local Open Scope Z_scope.

Definition PIPE_POOLSIZE : Z := 0.

Record pipe_conn := PipeConn {
  pc_free : bool;
  pc_fd0 : Z;
  pc_fd1 : Z;
  pc_recv_nbyte : Z;
  pc_send_nbyte : Z;
  pc_state : ch_state;
  pc_flags : Z;
  pc_err : Z;
}.

Definition set_free (b : bool) (c : pipe_conn) : pipe_conn :=
  PipeConn b (pc_fd0 c) (pc_fd1 c) (pc_recv_nbyte c) (pc_send_nbyte c) (pc_state c) (pc_flags c)
    (pc_err c).
Definition set_fds (r w : Z) (c : pipe_conn) : pipe_conn :=
  PipeConn (pc_free c) r w (pc_recv_nbyte c) (pc_send_nbyte c) (pc_state c) (pc_flags c) (pc_err c).
Definition set_state (x : ch_state) (c : pipe_conn) : pipe_conn :=
  PipeConn (pc_free c) (pc_fd0 c) (pc_fd1 c) (pc_recv_nbyte c) (pc_send_nbyte c) x (pc_flags c)
    (pc_err c).
Definition set_err (e : Z) (c : pipe_conn) : pipe_conn :=
  PipeConn (pc_free c) (pc_fd0 c) (pc_fd1 c) (pc_recv_nbyte c) (pc_send_nbyte c) (pc_state c)
    (pc_flags c) e.
Definition add_recv (n : Z) (c : pipe_conn) : pipe_conn :=
  PipeConn (pc_free c) (pc_fd0 c) (pc_fd1 c) (u64 (pc_recv_nbyte c + n)) (pc_send_nbyte c)
    (pc_state c) (pc_flags c) (pc_err c).
Definition add_send (n : Z) (c : pipe_conn) : pipe_conn :=
  PipeConn (pc_free c) (pc_fd0 c) (pc_fd1 c) (pc_recv_nbyte c) (u64 (pc_send_nbyte c + n))
    (pc_state c) (pc_flags c) (pc_err c).

(** pipe_conn_reset, the part on the struct; its first line clears the link. *)
Definition pipe_conn_reset (c : pipe_conn) : pipe_conn := PipeConn false 0 0 0 0 CHANNEL_TERM 0 0.
Definition pipe_conn_reset_next (m : qmem) (p : positive) : qmem := sq_clear_next m p.

Definition pipe_read_id (c : pipe_conn) : Z := pc_fd0 c.
Definition pipe_write_id (c : pipe_conn) : Z := pc_fd1 c.

Record pipe_world := PipeWorld {
  pipes : gmap positive pipe_conn;
  pipe_answers : list (option positive);
  pipe_metrics : metrics_st;
}.

Definition set_pipes (w : pipe_world) (cs : gmap positive pipe_conn) : pipe_world :=
  PipeWorld cs (pipe_answers w) (pipe_metrics w).
Definition on_metrics (f : metrics_st -> metrics_st) (w : pipe_world) : pipe_world :=
  PipeWorld (pipes w) (pipe_answers w) (f (pipe_metrics w)).

Definition next_pipe (w : pipe_world) : option positive * pipe_world :=
  match pipe_answers w with
  | [] => (None, w)
  | a :: rest =>
      (match a with
       | Some p => if decide (pipes w !! p = None) then Some p else None
       | None => None
       end, PipeWorld (pipes w) rest (pipe_metrics w))
  end.

Definition pipe_conn_create (m : qmem) (w : pipe_world) : option positive * (qmem * pipe_world) :=
  match next_pipe w with
  | (None, w) => (None, (m, on_metrics (fun ms => INCR ms "pipe_conn_create_ex") w))
  | (Some p, w) =>
      let fresh := PipeConn false 0 0 0 0 CHANNEL_TERM 0 0 in
      let w := set_pipes w (<[p := pipe_conn_reset fresh]> (pipes w)) in
      (Some p, (pipe_conn_reset_next m p,
        on_metrics (fun ms => INCR (INCR ms "pipe_conn_create") "pipe_conn_curr") w))
  end.

(** pipe_conn_destroy(struct pipe_conn **c): [None] is a NULL argument.  The code
    clears its own argument instead of the caller's pointer, which stays. *)
Definition pipe_conn_destroy (c : option (option positive)) (w : pipe_world)
  : option (option (option positive) * pipe_world) :=
  match c with
  | Some (Some p) =>
      match pipes w !! p with
      | Some _ =>
          Some (c, on_metrics (fun ms => DECR (INCR ms "pipe_conn_destroy") "pipe_conn_curr")
                     (set_pipes w (delete p (pipes w))))
      | None => None
      end
  | _ => Some (c, w)
  end.

#[export] Instance pipe_pool_client : PoolClient qmem pipe_world := {
  pc_create := pipe_conn_create;
  pc_destroy p m w :=
    (m, match pipe_conn_destroy (Some (Some p)) w with Some (_, w) => w | None => w end);
}.

Record pipe_module := PipeModule {
  cp : pstate qmem pipe_world;
  cp_init : bool;
  pipe_init : bool;
}.

Definition set_cp (s : pipe_module) (p : pstate qmem pipe_world) : pipe_module :=
  PipeModule p (cp_init s) (pipe_init s).
Definition upd_world (s : pipe_module) (f : pipe_world -> pipe_world) : pipe_module :=
  set_cp s (PState (mem (cp s)) (ctl (cp s)) (f (world (cp s)))).

Definition pipe_conn_pool_destroy (fuel : nat) (s : pipe_module) : option pipe_module :=
  if negb (cp_init s) then Some s else
  p ← FREEPOOL_DESTROY fuel (cp s);
  Some (PipeModule p false (pipe_init s)).

Definition pipe_conn_pool_create (fuel : nat) (max : Z) (s : pipe_module)
  : option (outcome pipe_module) :=
  s ← (if cp_init s then pipe_conn_pool_destroy fuel s else Some s);
  p ← FREEPOOL_PREALLOC fuel (FREEPOOL_CREATE (cp s) max) max;
  Some (if nfree (ctl p) <? max then Exits else Returns (PipeModule p true (pipe_init s))).

Definition pipe_conn_borrow (s : pipe_module) : option (option positive * pipe_module) :=
  '(r, p) ← FREEPOOL_BORROW (cp s);
  match r with
  | None =>
      Some (None, upd_world (set_cp s p) (on_metrics (fun ms => INCR ms "pipe_conn_borrow_ex")))
  | Some c =>
      let p := PState (pipe_conn_reset_next (mem p) c) (ctl p)
                 (set_pipes (world p) (alter pipe_conn_reset c (pipes (world p)))) in
      Some (Some c, upd_world (set_cp s p)
        (on_metrics (fun ms => INCR (INCR ms "pipe_conn_borrow") "pipe_conn_active")))
  end.

Definition pipe_conn_return (c : option (option positive)) (s : pipe_module)
  : option (option (option positive) * pipe_module) :=
  match c with
  | Some (Some x) =>
      pc ← pipes (world (cp s)) !! x;
      if pc_free pc then Some (c, s) else
      let s := upd_world s (fun w => set_pipes w (alter (set_free true) x (pipes w))) in
      let s := set_cp s (FREEPOOL_RETURN (cp s) x) in
      Some (Some None, upd_world s
        (on_metrics (fun ms => DECR (INCR ms "pipe_conn_return") "pipe_conn_active")))
  | _ => Some (c, s)
  end.

Section Setup.
Context {K : Type} `{!SigKernel K}.

(** [options]: pipe_poolsize. *)
Definition pipe_setup (fuel : nat) (options : option Z) (metrics : metrics_st)
  : st (pipe_module * (list signal * proc K)) (outcome unit) := fun '(s, sys) =>
  let w := world (cp s) in
  let max := match options with Some n => u32 n | None => PIPE_POOLSIZE end in
  let w := PipeWorld (pipes w) (pipe_answers w) metrics in
  r ← pipe_conn_pool_create fuel max (set_cp s (PState (mem (cp s)) (ctl (cp s)) w));
  match r with
  | Exits => Some (Exits, (s, sys))
  | Returns s =>
      '(_, sys) ← channel_sigpipe_ignore sys;
      Some (Returns tt, (PipeModule (cp s) (cp_init s) true, sys))
  end.

End Setup.

Definition pipe_teardown (fuel : nat) (s : pipe_module) : option pipe_module :=
  s ← pipe_conn_pool_destroy fuel s;
  let s := upd_world s (on_metrics (fun _ => None)) in
  Some (PipeModule (cp s) (cp_init s) false).

(** ** Using a pipe *)

Section IO.
Context {K : Type} `{!Kernel K}.

Abbreviation io A := (st (pipe_world * proc K) A).

Definition conn (c : positive) : io pipe_conn := on_fst (fun w =>
  match pipes w !! c with Some pc => Some (pc, w) | None => None end).
Definition upd_conn (c : positive) (f : pipe_conn -> pipe_conn) : io unit := on_fst (fun w =>
  match pipes w !! c with
  | Some pc => Some (tt, set_pipes w (<[c := f pc]> (pipes w)))
  | None => None
  end).
Definition incr (field : string) : io unit :=
  on_fst (modify (on_metrics (fun ms => INCR ms field))).
Definition incr_n (field : string) (n : Z) : io unit :=
  on_fst (modify (on_metrics (fun ms => INCR_N ms field n))).

(** pipe(2) fills the array only when it succeeds. *)
Definition pipe_open (c : positive) : io bool :=
  '(status, (r, w)) ← on_snd c_pipe;
  if negb (status =? 0) then
    e ← on_snd c_errno;
    upd_conn c (set_err e);;
    incr "pipe_open_ex";;
    mret false
  else
    upd_conn c (set_fds r w);;
    upd_conn c (set_state CHANNEL_LISTEN);;
    incr "pipe_open";;
    mret true.

Definition pipe_close (c : positive) : io unit :=
  pc ← conn c;
  (if 0 <=? pc_fd0 pc then on_snd (c_close (pc_fd0 pc)) else mret 0);;
  (if 0 <=? pc_fd1 pc then on_snd (c_close (pc_fd1 pc)) else mret 0);;
  incr "pipe_close".

Fixpoint pipe_recv (fuel : nat) (c : positive) (nbyte : Z) : io (Z * list byte) :=
  match fuel with
  | O => stuck
  | S fuel =>
      pc ← conn c;
      '(n, bs) ← on_snd (c_read (pc_fd0 pc) nbyte);
      incr "pipe_recv";;
      if 0 <? n then
        upd_conn c (add_recv n);; incr_n "pipe_recv_byte" n;; mret (n, bs)
      else if n =? 0 then mret (n, bs)
      else
        incr "pipe_recv_ex";;
        e ← on_snd c_errno;
        if e =? EINTR then pipe_recv fuel c nbyte
        else if (e =? EAGAIN) || (e =? EWOULDBLOCK) then mret (CC_EAGAIN, bs)
        else upd_conn c (set_err e);; mret (CC_ERROR, bs)
  end.

Fixpoint pipe_send (fuel : nat) (c : positive) (bs : list byte) : io Z :=
  match fuel with
  | O => stuck
  | S fuel =>
      pc ← conn c;
      n ← on_snd (c_write (pc_fd1 pc) bs);
      incr "pipe_send";;
      if 0 <? n then
        upd_conn c (add_send n);; incr_n "pipe_send_byte" n;; mret n
      else if n =? 0 then mret 0
      else
        incr "pipe_send_ex";;
        e ← on_snd c_errno;
        if e =? EINTR then pipe_send fuel c bs
        else if (e =? EAGAIN) || (e =? EWOULDBLOCK) then mret CC_EAGAIN
        else upd_conn c (set_err e);; mret CC_ERROR
  end.

Definition _pipe_set_blocking (fd : Z) : io unit :=
  flags ← on_snd (c_getfl fd);
  if flags <? 0 then incr "pipe_flag_ex"
  else on_snd (c_setfl fd (Z.land flags (Z.lnot O_NONBLOCK)));; mret tt.

Definition pipe_set_blocking (c : positive) : io unit :=
  pc ← conn c; _pipe_set_blocking (pipe_read_id pc);;
  pc ← conn c; _pipe_set_blocking (pipe_write_id pc).

Definition _pipe_set_nonblocking (fd : Z) : io unit :=
  flags ← on_snd (c_getfl fd);
  if flags <? 0 then incr "pipe_flag_ex"
  else on_snd (c_setfl fd (Z.lor flags O_NONBLOCK));; mret tt.

Definition pipe_set_nonblocking (c : positive) : io unit :=
  pc ← conn c; _pipe_set_nonblocking (pipe_read_id pc);;
  pc ← conn c; _pipe_set_nonblocking (pipe_write_id pc).

End IO.

Section IOLemmas.
Context {K : Type} `{!Kernel K}.
Implicit Types (w : pipe_world) (p : proc K) (c : positive) (tc : pipe_conn).

Lemma pipe_wp_conn c tc (Q : pipe_conn -> pipe_world * proc K -> Prop) w p :
  pipes w !! c = Some tc -> Q tc (w, p) -> wp (conn c) Q (w, p).
Proof. intros Hc HQ. unfold conn. apply wp_fst. unfold wp. rewrite Hc. eauto. Qed.

Lemma pipe_wp_upd_conn c tc f (Q : unit -> pipe_world * proc K -> Prop) w p :
  pipes w !! c = Some tc -> Q tt (set_pipes w (<[c := f tc]> (pipes w)), p) ->
  wp (upd_conn c f) Q (w, p).
Proof. intros Hc HQ. unfold upd_conn. apply wp_fst. unfold wp. rewrite Hc. eauto. Qed.

Lemma pipe_wp_incr_n f n (Q : unit -> pipe_world * proc K -> Prop) w p :
  Q tt (on_metrics (fun ms => INCR_N ms f n) w, p) -> wp (incr_n f n) Q (w, p).
Proof. intros HQ. unfold incr_n. apply wp_fst, wp_modify. done. Qed.

Lemma pipe_wp_incr f (Q : unit -> pipe_world * proc K -> Prop) w p :
  Q tt (on_metrics (fun ms => INCR ms f) w, p) -> wp (incr f) Q (w, p).
Proof. apply pipe_wp_incr_n. Qed.

Lemma pipe_wp_errno (Q : Z -> pipe_world * proc K -> Prop) w p :
  Q (errno p) (w, p) -> wp (on_snd c_errno) Q (w, p).
Proof. intros HQ. by exists (errno p), (w, p). Qed.

End IOLemmas.

Ltac pipe_step :=
  match goal with
  | |- wp (conn _) _ _ => eapply pipe_wp_conn; [first [eassumption|apply lookup_insert_eq]|]
  | |- wp (upd_conn _ _) _ _ => eapply pipe_wp_upd_conn; [first [eassumption|apply lookup_insert_eq]|]
  | |- wp (incr _) _ _ => apply pipe_wp_incr
  | |- wp (incr_n _ _) _ _ => apply pipe_wp_incr_n
  | |- wp (on_snd c_errno) _ _ => apply pipe_wp_errno
  | |- wp (match ?x with (_, _) => _ end) _ _ => destruct x
  | _ => wp_step
  end.

Section Stream.
Context {K : Type} `{!Kernel K} `{!KernelLaws K}.
Implicit Types (w : pipe_world) (p : proc K) (c : positive) (tc : pipe_conn).

Abbreviation fds_of p := (fds (view (kern p))).
Abbreviation sigs_of p := (sigs (view (kern p))).

Definition touched c tc' w w' : Prop :=
  pipes w' = <[c := tc']> (pipes w) /\ pipe_answers w' = pipe_answers w.

Lemma pipe_recv_spec fuel c nbyte tc w p :
  pipes w !! c = Some tc -> (sigs_of p < fuel)%nat ->
  wp (pipe_recv fuel c nbyte) (fun '(n, bs) '(w', p') =>
    exists tc' (k : nat),
      recv_case add_recv (fun tc => tc) set_err (pc_fd0 tc) (fds_of p) tc nbyte n bs tc' (fds_of p') /\
      touched c tc' w w' /\ (sigs_of p' <= sigs_of p)%nat /\
      (n = CC_ERROR -> pc_err tc' = errno p') /\
      counts "pipe_recv" (Z.of_nat k + 1) (pipe_metrics w) (pipe_metrics w') /\
      counts "pipe_recv_ex" (Z.of_nat k + if n <? 0 then 1 else 0) (pipe_metrics w) (pipe_metrics w') /\
      counts "pipe_recv_byte" (zlen bs) (pipe_metrics w) (pipe_metrics w')) (w, p).
Proof.
  intros Hc. revert w p Hc. induction fuel as [|fuel IH]; intros w p Hc Hf; [lia|].
  simpl pipe_recv. repeat pipe_step.
  - intros bs k' E. pose proof (law_read _ _ _ _ _ E) as Hlaw. simpl. repeat pipe_step.
    case_zcmp; repeat pipe_step; [| |pose proof (zlen_nonneg bs); lia].
    + destruct (read_some _ _ _ _ _ Hlaw) as (d & rest & Hd & Hi & Hn & Hm); [done|].
      exists (add_recv (zlen bs) tc), 0%nat. simpl. rewrite Hm. split; [by apply Recv_data; [..|lia]|].
      destruct Hlaw as (? & ? & _ & _ & _ & _ & _ & Hs). split; [done|]. split; [done|].
      split; [unfold CC_ERROR; lia|]. split_and!; [counts|case_zcmp; [lia|counts]|counts].
    + destruct (read_zero _ _ _ _ _ Hlaw) as (-> & Hm & d & Hd & Hi); [done|].
      exists tc, 0%nat. simpl. rewrite Hm. split; [by apply (Recv_eof _ (fun tc => tc) _ _ _ tc _ d)|].
      split; [by split; [rewrite insert_id|]|].
      destruct Hlaw as (? & ? & _ & _ & _ & _ & _ & Hs). split; [done|]. split; [done|].
      split_and!; counts.
  - intros e k' E. pose proof (law_read _ _ _ _ _ E) as Hfail.
    io_fails ltac:(fun _ => pipe_step) IH Hfail tc.
Qed.

Lemma pipe_send_spec fuel c bs tc w p :
  pipes w !! c = Some tc -> (sigs_of p < fuel)%nat ->
  wp (pipe_send fuel c bs) (fun n '(w', p') =>
    exists tc' (k : nat),
      send_case add_send set_err (pc_fd1 tc) (fds_of p) tc bs n tc' (fds_of p') /\
      touched c tc' w w' /\ (sigs_of p' <= sigs_of p)%nat /\
      (n = CC_ERROR -> pc_err tc' = errno p') /\
      counts "pipe_send" (Z.of_nat k + 1) (pipe_metrics w) (pipe_metrics w') /\
      counts "pipe_send_ex" (Z.of_nat k + if n <? 0 then 1 else 0) (pipe_metrics w) (pipe_metrics w') /\
      counts "pipe_send_byte" (Z.max 0 n) (pipe_metrics w) (pipe_metrics w')) (w, p).
Proof.
  intros Hc. revert w p Hc. induction fuel as [|fuel IH]; intros w p Hc Hf; [lia|].
  simpl pipe_send. repeat pipe_step.
  - intros n k' E. pose proof (law_write _ _ _ _ _ E) as (Hd & Hn & Hm & Hs). simpl. repeat pipe_step.
    case_zcmp; repeat pipe_step; [| |lia].
    + exists (add_send n tc), 0%nat. simpl. rewrite Hm. split; [by apply Send_data; [|lia]|].
      split; [done|]. split; [done|]. split; [unfold CC_ERROR; lia|].
      split_and!; [counts|case_zcmp; [lia|counts]|counts].
    + subst n. exists tc, 0%nat. simpl. rewrite Hm, written_nil. split; [apply Send_zero|].
      split; [by split; [rewrite insert_id|]|]. split; [done|]. split; [done|]. split_and!; counts.
  - intros e k' E. pose proof (law_write _ _ _ _ _ E) as Hfail.
    io_fails ltac:(fun _ => pipe_step) IH Hfail tc.
Qed.

(** ** Histories of one pipe *)

Inductive pipe_run c (s0 : pipe_world * proc K)
  : list byte -> list byte -> pipe_world * proc K -> Prop :=
| Pipe_start : pipe_run c s0 [] [] s0
| Pipe_recv r o s fuel nbyte n bs s' :
    pipe_run c s0 r o s -> (sigs_of s.2 < fuel)%nat ->
    pipe_recv fuel c nbyte s = Some (n, bs, s') -> pipe_run c s0 (r ++ bs) o s'
| Pipe_send r o s fuel bs n s' :
    pipe_run c s0 r o s -> (sigs_of s.2 < fuel)%nat ->
    pipe_send fuel c bs s = Some (n, s') -> pipe_run c s0 r (o ++ take (Z.to_nat n) bs) s'.

(** The ends of the pipe of [c]; [flight] are the bytes in it. *)
Record ends tc (m : gmap Z desc) (flight : list byte) : Prop := {
  en_ne : pc_fd0 tc ≠ pc_fd1 tc;
  en_read : exists d, m !! pc_fd0 tc = Some d /\ d_in d = flight;
  en_write : exists d, m !! pc_fd1 tc = Some d /\ d_peer d = Some (pc_fd0 tc);
}.

Lemma recv_ends tc (m m' : gmap Z desc) flight nbyte n bs tc' :
  recv_case add_recv (fun tc => tc) set_err (pc_fd0 tc) m tc nbyte n bs tc' m' ->
  ends tc m flight -> exists flight', flight = bs ++ flight' /\ ends tc m' flight'.
Proof.
  intros Hr [Hne (d & Hd & <-) (dw & Hdw & Hp)].
  destruct (recv_effect _ _ _ _ _ _ _ _ _ _ _ d Hr Hd) as ((d' & Hd' & Hi & _) & Hfr & _).
  exists (d_in d'). split; [done|]. split; [done|by exists d'|].
  exists dw. by rewrite Hfr.
Qed.

Lemma send_ends tc (m m' : gmap Z desc) flight bs n tc' :
  send_case add_send set_err (pc_fd1 tc) m tc bs n tc' m' ->
  ends tc m flight ->
  ends tc m' (flight ++ take (Z.to_nat n) bs) /\ zlen (take (Z.to_nat n) bs) = Z.max 0 n.
Proof.
  intros Hs [Hne (d & Hd & <-) (dw & Hdw & Hp)].
  destruct Hs as [n Hi Hn| | |e He1 He2 He3].
  - rewrite zlen_take by lia. split; [|lia]. unfold written. rewrite Hdw, Hp. split; [done|..].
    + eexists. rewrite lookup_alter_eq, lookup_insert_ne, Hd by done. done.
    + eexists. rewrite lookup_alter_ne, lookup_insert_eq by done. done.
  - simpl. rewrite app_nil_r. split; [|done]. by split; eauto.
  - simpl. rewrite app_nil_r. split; [|done]. by split; eauto.
  - simpl. rewrite app_nil_r. split; [|done]. by split; eauto.
Qed.

Lemma pipe_run_inv c tc0 s0 i0 r o s :
  pipes s0.1 !! c = Some tc0 -> ends tc0 (fds_of s0.2) i0 -> pipe_run c s0 r o s ->
  exists tc flight, pipes s.1 !! c = Some tc /\
    pc_fd0 tc = pc_fd0 tc0 /\ pc_fd1 tc = pc_fd1 tc0 /\
    ends tc (fds_of s.2) flight /\ i0 ++ o = r ++ flight /\
    u64 (pc_recv_nbyte tc) = u64 (pc_recv_nbyte tc0 + zlen r) /\
    u64 (pc_send_nbyte tc) = u64 (pc_send_nbyte tc0 + zlen o).
Proof.
  intros Hc0 He0 Hrun.
  induction Hrun as [|r o s fuel nbyte n bs s' _ IH Hf E|r o s fuel bs n s' _ IH Hf E].
  - exists tc0, i0. rewrite zlen_nil, !Z.add_0_r, app_nil_r. done.
  - destruct IH as (tc & fl & Hc & H0 & H1 & He & Hi & Hr & Ho). destruct s as [w p], s' as [w' p'].
    pose proof (wp_det _ _ _ _ _ (pipe_recv_spec fuel c nbyte tc w p Hc Hf) E)
      as (tc' & k & Hcase & (Ht & _) & _).
    destruct (recv_ends _ _ _ _ _ _ _ _ Hcase He) as (fl' & -> & [He1 He2 He3]).
    exists tc', fl'. simpl. rewrite Ht, lookup_insert_eq. split; [done|].
    assert (Hk : pc_fd0 tc' = pc_fd0 tc /\ pc_fd1 tc' = pc_fd1 tc /\
      pc_send_nbyte tc' = pc_send_nbyte tc /\ u64 (pc_recv_nbyte tc') = u64 (pc_recv_nbyte tc + zlen bs)).
    { destruct Hcase; simpl; rewrite ?Z.add_0_r; split_and!; try done. unfold u64. mlia. }
    destruct Hk as (K0 & K1 & K2 & K3). split; [congruence|]. split; [congruence|].
    split; [split; [congruence|rewrite K0; done|rewrite K1, K0; done]|].
    split; [by rewrite <- app_assoc|]. split; [|congruence].
    rewrite K3, zlen_app, Z.add_assoc, <- u64_add_l, Hr, u64_add_l. done.
  - destruct IH as (tc & fl & Hc & H0 & H1 & He & Hi & Hr & Ho). destruct s as [w p], s' as [w' p'].
    pose proof (wp_det _ _ _ _ _ (pipe_send_spec fuel c bs tc w p Hc Hf) E)
      as (tc' & k & Hcase & (Ht & _) & _).
    destruct (send_ends _ _ _ _ _ _ _ Hcase He) as [[He1 He2 He3] Hz].
    exists tc', (fl ++ take (Z.to_nat n) bs). simpl. rewrite Ht, lookup_insert_eq. split; [done|].
    assert (Hk : pc_fd0 tc' = pc_fd0 tc /\ pc_fd1 tc' = pc_fd1 tc /\
      pc_recv_nbyte tc' = pc_recv_nbyte tc /\
      u64 (pc_send_nbyte tc') = u64 (pc_send_nbyte tc + Z.max 0 n)).
    { destruct Hcase; simpl; rewrite ?Z.add_0_r; split_and!; try done.
      rewrite Z.max_r by lia. unfold u64. mlia. }
    destruct Hk as (K0 & K1 & K2 & K3). split; [congruence|]. split; [congruence|].
    split; [split; [congruence|rewrite K0; done|rewrite K1, K0; done]|].
    split; [by rewrite !app_assoc, Hi|]. split; [congruence|].
    rewrite K3, zlen_app, Hz, Z.add_assoc, <- u64_add_l, Ho, u64_add_l. done.
Qed.

(** pipe_open returns; on success the pipe is empty and its ends are new. *)
Lemma pipe_open_spec c tc w p :
  pipes w !! c = Some tc ->
  wp (pipe_open c) (fun ok '(w', p') => exists tc', touched c tc' w w' /\
    if ok then
      ends tc' (fds_of p') [] /\ pc_state tc' = CHANNEL_LISTEN /\ 0 <= pc_fd0 tc' /\ 0 <= pc_fd1 tc' /\
      fds_of p !! pc_fd0 tc' = None /\ fds_of p !! pc_fd1 tc' = None /\
      delete (pc_fd0 tc') (delete (pc_fd1 tc') (fds_of p')) = fds_of p /\
      pc_recv_nbyte tc' = pc_recv_nbyte tc /\ pc_send_nbyte tc' = pc_send_nbyte tc
    else fds_of p' = fds_of p /\ 0 < pc_err tc') (w, p).
Proof.
  intros Hc. unfold pipe_open. repeat pipe_step.
  - intros [r x] k E. apply law_pipe in E as (Hr & Hx & Hne & Hfr & Hfx & Hm & _). simpl.
    repeat pipe_step. exists (set_state CHANNEL_LISTEN (set_fds r x tc)).
    split; [split; simpl; [by rewrite !insert_insert_eq|done]|]. simpl. rewrite Hm.
    split_and!; try done.
    + split; simpl; [done|..].
      * eexists. by rewrite lookup_insert_ne, lookup_insert_eq.
      * eexists. by rewrite lookup_insert_eq.
    + rewrite delete_insert_id by (by rewrite lookup_insert_ne).
      by apply delete_insert_id.
  - intros e k E. apply law_pipe in E as (He & Hm & _). simpl. repeat pipe_step.
    exists (set_err e tc). done.
Qed.

(** pipe_close closes both ends. *)
Lemma pipe_close_spec c tc w p :
  pipes w !! c = Some tc -> 0 <= pc_fd0 tc -> 0 <= pc_fd1 tc ->
  wp (pipe_close c) (fun _ '(w', p') => pipes w' = pipes w /\
    fds_of p' = delete (pc_fd1 tc) (delete (pc_fd0 tc) (fds_of p))) (w, p).
Proof.
  intros Hc H0 H1. unfold pipe_close. pipe_step. pipe_step.
  rewrite !(proj2 (Z.leb_le _ _)) by done. apply wp_bind.
  assert (Hcl : forall fd (Q : Z -> pipe_world * proc K -> Prop) w p,
    (forall x p', fds_of p' = delete fd (fds_of p) -> Q x (w, p')) -> wp (on_snd (c_close fd)) Q (w, p)).
  { intros fd Q w1 p1 HQ. repeat wp_step; intros ? ? E; apply law_close in E as (_ & Hm & _);
      by apply HQ. }
  apply Hcl. intros _ p1 Hm1. apply wp_bind.
  apply Hcl. intros _ p2 Hm2. pipe_step. split; [done|]. congruence.
Qed.

End Stream.

(** ** The pool of pipes *)

#[export] Instance pipe_pool_client_laws : PoolClientLaws qmem pipe_world.
Proof.
  unshelve econstructor; [exact (fun w X => dom (pipes w) = X)|..]; simpl.
  - intros m w r m' w' h l X. unfold pipe_conn_create, next_pipe.
    destruct (pipe_answers w) as [|[p|] rest]; try case_decide as Hd; try (by intros [= <- <- <-]).
    intros [= <- <- <-] <- Hsub Hq. apply stailq_set_next; [done|].
    eapply live_not_elem; [|done]. by apply not_elem_of_dom.
  - intros m w e m' w' X. unfold pipe_conn_create, next_pipe.
    destruct (pipe_answers w) as [|[p|] rest]; try done. case_decide; [|done].
    intros [= <- <- <-] <-. simpl. split; [by apply not_elem_of_dom|]. by rewrite dom_insert_L.
  - intros m w m' w' X. unfold pipe_conn_create, next_pipe.
    destruct (pipe_answers w) as [|[p|] rest]; try case_decide; by intros [= <- <-].
  - intros e m w m' w' h l [= <- <-]. done.
  - intros e m w m' w' X [= <- <-] <- [c Hc]%elem_of_dom. rewrite Hc. simpl. by rewrite dom_delete_L.
Defined.

Lemma pipe_live (w : pipe_world) (X : gset positive) : pc_live (M := qmem) w X <-> dom (pipes w) = X.
Proof. done. Qed.

Definition curr_ok (w : pipe_world) : Prop :=
  gauge_of (pipe_metrics w) "pipe_conn_curr" = Some (i64 (Z.of_nat (size (pipes w)))).

Definition active_of (w : pipe_world) : option Z := gauge_of (pipe_metrics w) "pipe_conn_active".

Abbreviation pipe_inv := (minv pipes pc_free active_of curr_ok).

Lemma pipe_create_spec m w r m' w' :
  pipe_conn_create m w = (r, (m', w')) ->
  (curr_ok w -> curr_ok w') /\ active_of w' = active_of w /\
  (forall x o, pipes w !! x = Some o -> pipes w' !! x = Some o).
Proof.
  unfold pipe_conn_create, next_pipe, curr_ok, active_of.
  destruct (pipe_answers w) as [|[p|] rest]; [|case_decide as Hd|]; intros [= <- <- <-]; simpl;
    unfold INCR; try (split; [intros; gauge|split; [by rewrite !gauge_incr_ne by done|done]]).
  split; [|split; [by rewrite !gauge_incr_ne by done|]].
  - intros Hc. eapply eq_trans; [gauge|]. rewrite map_size_insert_None by done.
    rewrite i64_add_l. do 2 f_equal. lia.
  - intros x o Hx. rewrite lookup_insert_ne; [done|]. congruence.
Qed.

Section Pool.
Implicit Types (s : pipe_module) (x : positive) (used : list positive).

Lemma pipe_borrow_inv s used :
  pipe_inv (cp s) used ->
  exists r s', pipe_conn_borrow s = Some (r, s') /\ cp_init s' = cp_init s /\
    match r with
    | Some x => x ∉ used /\ pipe_inv (cp s') (x :: used) /\
        pipes (world (cp s')) !! x = Some (PipeConn false 0 0 0 0 CHANNEL_TERM 0 0)
    | None => nfree (ctl (cp s)) = 0 /\ pipe_inv (cp s') used
    end.
Proof.
  intros Hi. destruct (minv_borrow pipes pc_free active_of curr_ok pipe_live
    pipe_create_spec (cp s) used Hi) as (r & p & E & Hr).
  unfold pipe_conn_borrow. rewrite E. simpl. destruct r as [x|].
  - destruct Hr as (Hx & [tc Htc] & HP & Ha & Hinv). do 2 eexists. split; [done|]. split; [done|].
    split; [done|]. split.
    + apply (Hinv _ pipe_conn_reset); try done; unfold curr_ok, active_of in *; simpl.
      * assert (Hd : size (alter pipe_conn_reset x (pipes (world p))) = size (pipes (world p))).
        { by rewrite <- size_dom, dom_alter_L, size_dom. }
        rewrite Hd. gauge.
      * eapply eq_trans; [gauge|]. by rewrite i64_add_l.
    + simpl. by rewrite lookup_alter_eq, Htc.
  - destruct Hr as (Hn & HP & Ha & Hinv). do 2 eexists. split; [done|]. split; [done|]. split; [done|].
    apply Hinv; try done; unfold curr_ok, active_of in *; simpl; gauge.
Qed.

Lemma pipe_return_inv s used x :
  pipe_inv (cp s) used -> x ∈ used ->
  exists s', pipe_conn_return (Some (Some x)) s = Some (Some None, s') /\
    pipe_inv (cp s') (filter (fun y => y ≠ x) used) /\ cp_init s' = cp_init s /\
    pipe_conn_return (Some (Some x)) s' = Some (Some (Some x), s').
Proof.
  intros Hi Hx. destruct (mi_busy _ _ _ _ _ _ Hi x Hx) as (tc & Hl & Hf).
  unfold pipe_conn_return at 1. rewrite Hl. simpl. rewrite Hf.
  destruct (minv_return pipes pc_free active_of curr_ok pipe_live (cp s) used x
    (set_free true) _ Hi Hx (eq_refl (alter (set_free true) x (pipes (world (cp s))))
      : pipes (set_pipes (world (cp s)) (alter (set_free true) x (pipes (world (cp s))))) = _))
    as [_ Hinv].
  destruct Hi as [_ HP Ha _]. eexists. split; [done|]. split; [|split; [done|]].
  - apply Hinv; [done|..]; unfold curr_ok, active_of in *; simpl.
    + assert (Hd : size (alter (set_free true) x (pipes (world (cp s)))) = size (pipes (world (cp s)))).
      { by rewrite <- size_dom, dom_alter_L, size_dom. }
      rewrite Hd. gauge.
    + eapply eq_trans; [gauge|]. by rewrite i64_sub_l.
  - unfold pipe_conn_return. simpl. rewrite lookup_alter_eq, Hl. simpl. done.
Qed.

Inductive pipe_hist s0 : pipe_module -> list positive -> Prop :=
| Hist_start : pipe_hist s0 s0 []
| Hist_borrow s used r s' :
    pipe_hist s0 s used -> pipe_conn_borrow s = Some (r, s') ->
    pipe_hist s0 s' (match r with Some x => x :: used | None => used end)
| Hist_use s used x f w' :
    pipe_hist s0 s used -> x ∈ used -> (forall pc, pc_free (f pc) = pc_free pc) ->
    pipes w' = alter f x (pipes (world (cp s))) ->
    (forall g, gauge_of (pipe_metrics w') g = gauge_of (pipe_metrics (world (cp s))) g) ->
    pipe_hist s0 (upd_world s (fun _ => w')) used
| Hist_return s used x c s' :
    pipe_hist s0 s used -> x ∈ used -> pipe_conn_return (Some (Some x)) s = Some (c, s') ->
    pipe_hist s0 s' (filter (fun y => y ≠ x) used).

Lemma pipe_hist_inv s0 s used :
  pipe_inv (cp s0) [] -> pipe_hist s0 s used -> pipe_inv (cp s) used /\ cp_init s = cp_init s0.
Proof.
  intros H0. induction 1 as [|s used r s' _ [IH IHi] E|s used x f w' _ [IH IHi] Hx Hf Hc Hg|
    s used x c s' _ [IH IHi] Hx E].
  - done.
  - destruct (pipe_borrow_inv s used IH) as (r' & s1 & E1 & Hci & Hr). rewrite E1 in E. simplify_eq.
    split; [|congruence]. destruct r; apply Hr.
  - split; [|done]. apply (minv_edit pipes pc_free active_of curr_ok pipe_live
      (cp s) used x f); try done; unfold curr_ok, active_of in *.
    + destruct IH as [_ HP _ _]. unfold curr_ok in HP. rewrite Hg, HP, Hc.
      by rewrite <- (size_dom (alter _ _ _)), dom_alter_L, size_dom.
    + apply Hg.
  - destruct (pipe_return_inv s used x IH Hx) as (s1 & E1 & Hi & Hcp & _). rewrite E1 in E.
    simplify_eq. split; [done|congruence].
Qed.

End Pool.

(** ** Properties *)

(** C26: pipe_open returns, and when it succeeds, after any interleaving
    of pipe_send and pipe_recv the bytes sent so far are exactly the bytes received
    followed by those still in the pipe: everything arrives once and in order.
    send_nbyte and recv_nbyte grow by the numbers of bytes, the next pipe_recv and
    pipe_send return as soon as the pending signals are used up, and pipe_close
    releases the two descriptors of the pipe. *)
Theorem pipe_fifo {K : Type} `{!Kernel K} `{!KernelLaws K} (c : positive) (tc0 : pipe_conn)
    (w0 : pipe_world) (p0 : proc K) :
  pipes w0 !! c = Some tc0 ->
  exists ok s0, pipe_open c (w0, p0) = Some (ok, s0) /\
  (ok = true -> forall r o s, pipe_run c s0 r o s ->
    exists tc flight, pipes s.1 !! c = Some tc /\ ends tc (fds (view (kern s.2))) flight /\
      o = r ++ flight /\
      u64 (pc_recv_nbyte tc) = u64 (pc_recv_nbyte tc0 + zlen r) /\
      u64 (pc_send_nbyte tc) = u64 (pc_send_nbyte tc0 + zlen o) /\
      (forall fuel, (sigs (view (kern s.2)) < fuel)%nat ->
         (forall nbyte, is_Some (pipe_recv fuel c nbyte s)) /\
         (forall bs, is_Some (pipe_send fuel c bs s))) /\
      wp (pipe_close c) (fun _ s' =>
        fds (view (kern s'.2)) = delete (pc_fd1 tc) (delete (pc_fd0 tc) (fds (view (kern s.2))))) s).
Proof.
  intros Hc0. destruct (pipe_open_spec c tc0 w0 p0 Hc0) as (ok & [w1 p1] & E & tc1 & Ht & Hok).
  exists ok, (w1, p1). split; [done|]. intros -> r o s Hrun.
  destruct Hok as (He1 & _ & Hge0 & Hge1 & _ & _ & _ & Hr1 & Hs1).
  assert (Hc1 : pipes w1 !! c = Some tc1) by (rewrite (proj1 Ht); apply lookup_insert_eq).
  destruct (pipe_run_inv c tc1 (w1, p1) [] r o s Hc1 He1 Hrun)
    as (tc & fl & Hc & Hf0 & Hf1 & He & Hi & Hr & Ho).
  exists tc, fl. rewrite Hr1 in Hr. rewrite Hs1 in Ho.
  do 5 (split; [done|]). destruct s as [w p]. split.
  - intros fuel Hf. split.
    + intros nbyte. destruct (pipe_recv_spec fuel c nbyte tc w p Hc Hf) as (x & s' & -> & _). done.
    + intros bs. destruct (pipe_send_spec fuel c bs tc w p Hc Hf) as (x & s' & -> & _). done.
  - eapply wp_mono; [apply (pipe_close_spec c tc w p Hc); congruence|].
    by intros _ [w' p'] [_ Hm].
Qed.

(** Pipe_setup with a pool of [max] pipes ends; unless it exits the
    process, after any history of borrowing, using and returning, pipe_conn_curr
    and pipe_conn_active are the numbers of allocated and of borrowed pipes, the
    next borrow hands out a reset pipe nobody holds or fails with no idle one
    left, a second return does nothing, and with everything returned
    pipe_teardown frees every pipe. *)
Theorem pipe_conn_lifecycle {K : Type} `{!SigKernel K} (fuel : nat) (max : Z)
    (ms : metrics_st) (s0 : pipe_module) (tbl : list signal) (p : proc K) :
  cp_init s0 = false -> pipes (world (cp s0)) = ∅ ->
  gauge_of ms "pipe_conn_curr" = Some 0 -> gauge_of ms "pipe_conn_active" = Some 0 ->
  0 <= max <= UINT32_MAX -> (Z.to_nat max <= fuel)%nat -> zlen tbl = SIGNAL_MAX ->
  exists r s1 sys, pipe_setup fuel (Some max) ms (s0, (tbl, p)) = Some (r, (s1, sys)) /\
  (r = Returns tt -> nfree (ctl (cp s1)) = max /\ forall s used, pipe_hist s1 s used ->
    let w := world (cp s) in
    gauge_of (pipe_metrics w) "pipe_conn_curr" = Some (i64 (Z.of_nat (size (pipes w)))) /\
    gauge_of (pipe_metrics w) "pipe_conn_active" = Some (i64 (zlen used)) /\
    (exists r s', pipe_conn_borrow s = Some (r, s') /\
       match r with
       | Some x => x ∉ used /\
           pipes (world (cp s')) !! x = Some (PipeConn false 0 0 0 0 CHANNEL_TERM 0 0)
       | None => nfree (ctl (cp s)) = 0
       end) /\
    (forall x, x ∈ used -> exists s', pipe_conn_return (Some (Some x)) s = Some (Some None, s') /\
       pipe_conn_return (Some (Some x)) s' = Some (Some (Some x), s')) /\
    (forall fuel', used = [] -> (size (pipes w) <= fuel')%nat ->
       exists s', pipe_teardown fuel' s = Some s' /\ pipes (world (cp s')) = ∅)).
Proof.
  intros Hi Ho Hg1 Hg2 Hmax Hfu Htbl. unfold pipe_setup, pipe_conn_pool_create. simpl. rewrite Hi. simpl.
  assert (u32 max = max) as -> by (apply u32_small; unfold UINT32_MAX in Hmax; lia).
  match goal with |- context [FREEPOOL_CREATE ?st max] => set (st0 := st) end.
  destruct (minv_setup pipes pc_free active_of curr_ok pipe_live pipe_create_spec fuel st0 max)
    as (p' & E & Hinv & Hn); [done|unfold curr_ok; simpl; by rewrite Ho|done..|].
  rewrite E. simpl. case_zcmp; [by do 3 eexists; split|].
  destruct (signal_override_spec tbl p SIGPIPE "ignoring sigpipe" 0 0 SIG_IGN Htbl)
    as (r & sys & Es & _); [unfold SIGPIPE, SIGNAL_MAX; lia|].
  unfold channel_sigpipe_ignore. rewrite Es. simpl. do 3 eexists. split; [done|]. intros _. simpl.
  split; [lia|]. intros s used Hh.
  destruct (pipe_hist_inv (PipeModule p' true true) s used Hinv Hh) as [Hs Hci]. simpl in Hci.
  split; [apply (mi_extra _ _ _ _ _ _ Hs)|]. split; [apply (mi_active _ _ _ _ _ _ Hs)|].
  split; [|split].
  - destruct (pipe_borrow_inv s used Hs) as (r' & s' & Eb & _ & Hr). exists r', s'. split; [done|].
    destruct r' as [x|]; [split; apply Hr|apply Hr].
  - intros x Hx. destruct (pipe_return_inv s used x Hs Hx) as (s' & E1 & _ & _ & E2). eauto.
  - intros fuel' -> Hf'. unfold pipe_teardown, pipe_conn_pool_destroy. rewrite Hci. simpl.
    destruct (minv_destroy pipes pc_free active_of curr_ok pipe_live fuel' (cp s) Hs Hf')
      as (p2 & -> & Hd). simpl. eexists. split; [done|]. done.
Qed.

(** ** Witnesses *)

Definition sample_pipe : pipe_world :=
  PipeWorld {[1%positive := PipeConn false 0 0 0 0 CHANNEL_TERM 0 0]} [] None.

Lemma pipe_fifo_witness :
  exists s0 s tc flight, pipe_open 1 (sample_pipe, Proc (Net ∅ 0) 0) = Some (true, s0) /\
    pipe_run 1 s0 [7] [7; 8] s /\ pipes s.1 !! 1%positive = Some tc /\ [7; 8] = [7] ++ flight.
Proof.
  destruct (pipe_fifo (K := net) 1 (PipeConn false 0 0 0 0 CHANNEL_TERM 0 0) sample_pipe
    (Proc (Net ∅ 0) 0)) as (ok & s0 & E & H); [reflexivity|].
  assert (ok = true) as -> by (vm_compute in E; injection E; intros; subst; reflexivity).
  assert (Hrun : exists s, pipe_run 1 s0 [7] [7; 8] s).
  { eexists. change [7] with ([] ++ [7]). eapply (Pipe_recv 1 s0 [] [7; 8] _ 1 1).
    - change [7; 8] with ([] ++ take (Z.to_nat 2) [7; 8]).
      eapply (Pipe_send 1 s0 [] [] s0 1 [7; 8] 2); [apply Pipe_start|..];
        vm_compute in E; injection E as <-; [vm_compute; lia|reflexivity].
    - vm_compute in E; injection E as <-; vm_compute. lia.
    - vm_compute in E; injection E as <-; vm_compute. reflexivity. }
  destruct Hrun as [s Hrun]. destruct (H eq_refl _ _ _ Hrun) as (tc & fl & Hc & _ & Hi & _).
  exists s0, s, tc, fl. split; [exact E|]. split; [exact Hrun|]. split; [exact Hc|exact Hi].
Defined.

Definition pipe_metrics0 : metrics_st :=
  Some (list_to_map (map (fun f => METRIC_INIT f.1 f.2 "") [
    ("pipe_conn_curr", METRIC_GAUGE); ("pipe_conn_active", METRIC_GAUGE)])).

Definition pipe_start0 : pipe_module :=
  PipeModule (PState qmem_empty (Pool 1 0 0 0 false) (PipeWorld ∅ [Some 3%positive; None] None))
    false false.

Lemma pipe_conn_lifecycle_witness :
  exists s1 sys, pipe_setup 1 (Some 1) pipe_metrics0
      (pipe_start0, (signals_init, Proc (Net ∅ 0) 0)) = Some (Returns tt, (s1, sys)) /\
    nfree (ctl (cp s1)) = 1.
Proof.
  destruct (pipe_conn_lifecycle (K := net) 1 1 pipe_metrics0 pipe_start0 signals_init (Proc (Net ∅ 0) 0))
    as (r & s1 & sys & E & H);
    [reflexivity..|unfold UINT32_MAX; lia|simpl; lia|reflexivity|].
  destruct r as [[]|]; [|discriminate E].
  exists s1, sys. split; [exact E|]. by apply H.
Defined.
