(* ===== verification/Sockio.v ===== *)
(** * Buffered sockets (include/stream/cc_sockio.h, src/stream/cc_sockio.c)

    A [buf_sock] is the struct: pointers to a TCP connection and to two buffers,
    each NULL or an address.  [sock_world] is the module's state with that of the
    modules it uses: the connections of [Tcp] and the buffers of [Dbuf] and [Buf],
    each with the memory of its link fields.  [handlers] gives the channel
    handlers the sockets point to.  ASSERT only logs: a NULL pointer that is
    followed is undefined behaviour. *)

From S2P Require Import Prelude Metric Mm Queue Pool Pooled Buf Dbuf Sys Signal Channel Tcp.
Local Open Scope Z_scope.

Definition BUFSOCK_POOLSIZE : Z := 0.

Record buf_sock := BufSock {
  bs_owner : option positive;
  bs_free : bool;
  bs_flag : Z;
  bs_data : option positive;
  bs_hdl : option Z;
  bs_ch : option positive;
  bs_rbuf : option positive;
  bs_wbuf : option positive;
}.

Record sock_world := SockWorld {
  socks : gmap positive buf_sock;
  sock_answers : list (option (positive * (Z * option positive)));
  sockio_metrics : metrics_st;
  stcp : tcp_world;
  stcpq : qmem;
  sdbuf : dbuf_module;
}.

Definition set_socks (w : sock_world) (ss : gmap positive buf_sock) : sock_world :=
  SockWorld ss (sock_answers w) (sockio_metrics w) (stcp w) (stcpq w) (sdbuf w).
Definition on_metrics (f : metrics_st -> metrics_st) (w : sock_world) : sock_world :=
  SockWorld (socks w) (sock_answers w) (f (sockio_metrics w)) (stcp w) (stcpq w) (sdbuf w).
Definition set_tcp (w : sock_world) (q : qmem) (t : tcp_world) : sock_world :=
  SockWorld (socks w) (sock_answers w) (sockio_metrics w) t q (sdbuf w).
Definition set_dbuf (w : sock_world) (d : dbuf_module) : sock_world :=
  SockWorld (socks w) (sock_answers w) (sockio_metrics w) (stcp w) (stcpq w) d.

(** The live buffers. *)
Definition sbufs (w : sock_world) : gmap positive buf := bufs (dworld (sdbuf w)).
Definition set_sbuf (w : sock_world) (q : positive) (b : buf) : sock_world :=
  set_dbuf w (Dbuf.set_state (sdbuf w) (dmem (sdbuf w)) (set_bufs (dworld (sdbuf w)) (<[q := b]> (sbufs w)))).

(** ** Reading and writing *)

Section IO.
Context {K : Type} `{!Kernel K}.
Context (handlers : Z -> channel_handler (tcp_world * proc K) positive addrinfo).

Abbreviation io A := (st (sock_world * proc K) A).

(** A value that must be there. *)
Definition need {A} (o : option A) : io A := fun s =>
  match o with Some x => Some (x, s) | None => None end.

Definition sock (s : positive) : io buf_sock := fun '(w, p) =>
  match socks w !! s with Some sk => Some (sk, (w, p)) | None => None end.
Definition upd_sock (s : positive) (f : buf_sock -> buf_sock) : io unit :=
  on_fst (modify (fun w => set_socks w (alter f s (socks w)))).

Definition load_buf (q : positive) : io buf := fun '(w, p) =>
  match sbufs w !! q with Some b => Some (b, (w, p)) | None => None end.
Definition store_buf (q : positive) (b : buf) : io unit :=
  on_fst (modify (fun w => set_sbuf w q b)).

(** An operation on the connections. *)
Definition on_tcp {A} (m : st (tcp_world * proc K) A) : io A := fun '(w, p) =>
  match m (stcp w, p) with
  | Some (x, (t, p)) => Some (x, (set_tcp w (stcpq w) t, p))
  | None => None
  end.

Definition set_rbuf (q : option positive) (sk : buf_sock) : buf_sock :=
  BufSock (bs_owner sk) (bs_free sk) (bs_flag sk) (bs_data sk) (bs_hdl sk) (bs_ch sk) q (bs_wbuf sk).

(** h->recv(c, buf->wpos, cap): the bytes received are stored behind wpos. *)
Definition recv_into (h : Z) (c q : positive) (cap : Z) : io Z :=
  recv ← need (h_recv (handlers h));
  '(n, bs) ← on_tcp (recv c cap);
  b ← load_buf q;
  d ← need (memwrite (data b) (wpos b) bs);
  store_buf q (set_data b d);;
  mret n.

(** h->send(c, buf->rpos, cap) *)
Definition send_from (h : Z) (c q : positive) (cap : Z) : io Z :=
  send ← need (h_send (handlers h));
  b ← load_buf q;
  bs ← need (memread (data b) (rpos b) cap);
  on_tcp (send c bs).

(** buf->wpos += n and buf->rpos += n *)
Definition advance_wpos (q : positive) (n : Z) : io unit :=
  b ← load_buf q; store_buf q (set_wpos b (wpos b + n)).
Definition advance_rpos (q : positive) (n : Z) : io unit :=
  b ← load_buf q; store_buf q (set_rpos b (rpos b + n)).

Definition buf_tcp_read (s : positive) : io Z :=
  sk ← sock s;
  c ← need (bs_ch sk);
  h ← need (bs_hdl sk);
  q ← need (bs_rbuf sk);
  b ← load_buf q;
  let cap := buf_wsize b in
  if cap =? 0 then mret CC_ENOMEM else
  n ← recv_into h c q cap;
  status ← (if n <? 0 then
              if n =? CC_EAGAIN then mret CC_OK
              else on_tcp (upd_conn c (Tcp.set_state CHANNEL_ERROR));; mret CC_ERROR
            else if n =? 0 then
              on_tcp (upd_conn c (Tcp.set_state CHANNEL_TERM));; mret CC_ERDHUP
            else if n =? cap then mret CC_ERETRY
            else mret CC_OK);
  (if 0 <? n then advance_wpos q n else mret tt);;
  mret status.

Definition buf_tcp_write (s : positive) : io Z :=
  sk ← sock s;
  c ← need (bs_ch sk);
  h ← need (bs_hdl sk);
  q ← need (bs_wbuf sk);
  b ← load_buf q;
  let cap := buf_rsize b in
  if cap =? 0 then mret CC_EEMPTY else
  n ← send_from h c q cap;
  status ← (if n <? 0 then
              if n =? CC_EAGAIN then mret CC_EAGAIN
              else on_tcp (upd_conn c (Tcp.set_state CHANNEL_ERROR));; mret CC_ERROR
            else if n <? cap then mret CC_ERETRY
            else mret CC_OK);
  (if 0 <? n then advance_rpos q n else mret tt);;
  mret status.

(** dbuf_double(&s->rbuf) *)
Definition double_rbuf (s q : positive) : io Z := fun '(w, p) =>
  match dbuf_double (sdbuf w) q with
  | Some (status, q', d) =>
      Some (status, (set_socks (set_dbuf w d) (alter (set_rbuf (Some q')) s (socks w)), p))
  | None => None
  end.

(** s->rbuf *)
Definition rbuf_of (s : positive) : io positive := sk ← sock s; need (bs_rbuf sk).

(** The first part of the loop body: cap, after doubling a full buffer; [None]
    when doubling failed. *)
Definition ensure_room (s : positive) : io (option Z) :=
  q ← rbuf_of s;
  b ← load_buf q;
  let cap := buf_wsize b in
  if cap =? 0 then
    status ← double_rbuf s q;
    if negb (status =? CC_OK) then mret None
    else q ← rbuf_of s; b ← load_buf q; mret (Some (buf_wsize b))
  else mret (Some cap).

(** The do-while loop of dbuf_tcp_read; cap is a uint32_t. *)
Fixpoint dbuf_read_loop (fuel : nat) (s c : positive) (h : Z) : io Z :=
  match fuel with
  | O => stuck
  | S fuel =>
      r ← ensure_room s;
      match r with
      | None => mret CC_ERETRY
      | Some cap =>
          q ← rbuf_of s;
          n ← recv_into h c q cap;
          if n <? 0 then
            if n =? CC_EAGAIN then mret CC_OK
            else on_tcp (upd_conn c (Tcp.set_state CHANNEL_ERROR));; mret CC_ERROR
          else if n =? 0 then
            on_tcp (upd_conn c (Tcp.set_state CHANNEL_TERM));; mret CC_ERDHUP
          else
            q ← rbuf_of s;
            advance_wpos q n;;
            if n =? cap then dbuf_read_loop fuel s c h else mret CC_OK
      end
  end.

Definition dbuf_tcp_read (fuel : nat) (s : positive) : io Z :=
  sk ← sock s;
  c ← need (bs_ch sk);
  h ← need (bs_hdl sk);
  dbuf_read_loop fuel s c h.

End IO.

(** ** Resource management *)

(** What malloc returns: an address in use is not one it gives.  The fields that
    buf_sock_create does not set keep what the fresh block holds (the pair). *)
Definition next_sock (w : sock_world) : option (positive * (Z * option positive)) * sock_world :=
  match sock_answers w with
  | [] => (None, w)
  | a :: rest =>
      (match a with
       | Some (p, g) => if decide (socks w !! p = None) then Some (p, g) else None
       | None => None
       end, SockWorld (socks w) rest (sockio_metrics w) (stcp w) (stcpq w) (sdbuf w))
  end.

(** tcp_conn_create() and buf_create() in the state of this module. *)
Definition make_conn (w : sock_world) : option positive * sock_world :=
  let '(c, (q, t)) := tcp_conn_create (stcpq w) (stcp w) in (c, set_tcp w q t).
Definition make_buf (w : sock_world) : option positive * sock_world :=
  let d := sdbuf w in
  let '(b, (q, bw)) := buf_create (dmem d) (dworld d) in (b, set_dbuf w (Dbuf.set_state d q bw)).

(** tcp_conn_destroy(&p) and buf_destroy(&p) on pointers that may be NULL. *)
Definition drop_conn (c : option positive) (w : sock_world) : option sock_world :=
  '(_, t) ← tcp_conn_destroy c (stcp w); Some (set_tcp w (stcpq w) t).
Definition drop_buf (b : option positive) (w : sock_world) : option sock_world :=
  let d := sdbuf w in
  '(_, bw) ← buf_destroy (Some b) (dworld d); Some (set_dbuf w (Dbuf.set_state d (dmem d) bw)).

(** buf_sock_destroy on a non-NULL pointer *)
Definition buf_sock_destroy_at (s : positive) (w : sock_world) : option sock_world :=
  sk ← socks w !! s;
  w ← drop_conn (bs_ch sk) w;
  w ← drop_buf (bs_rbuf sk) w;
  w ← drop_buf (bs_wbuf sk) w;
  let w := set_socks w (delete s (socks w)) in
  Some (on_metrics (fun ms => DECR (INCR ms "buf_sock_destroy") "buf_sock_curr") w).

(** [None] is a NULL argument, [Some None] a pointer to NULL. *)
Definition buf_sock_destroy (s : option (option positive)) (w : sock_world)
  : option (option (option positive) * sock_world) :=
  match s with
  | Some (Some x) => w ← buf_sock_destroy_at x w; Some (Some None, w)
  | _ => Some (s, w)
  end.

(** The error label of buf_sock_create. *)
Definition create_error (s : positive) (w : sock_world) : option sock_world :=
  buf_sock_destroy_at s (on_metrics (fun ms => INCR ms "buf_sock_create_ex") w).

Definition put_sock (w : sock_world) (s : positive) (f : buf_sock -> buf_sock) : sock_world :=
  set_socks w (alter f s (socks w)).

Definition set_ch (c : option positive) (sk : buf_sock) : buf_sock :=
  BufSock (bs_owner sk) (bs_free sk) (bs_flag sk) (bs_data sk) (bs_hdl sk) c (bs_rbuf sk) (bs_wbuf sk).
Definition set_wbuf (q : option positive) (sk : buf_sock) : buf_sock :=
  BufSock (bs_owner sk) (bs_free sk) (bs_flag sk) (bs_data sk) (bs_hdl sk) (bs_ch sk) (bs_rbuf sk) q.

Definition buf_sock_create (m : qmem) (w : sock_world) : option (option positive * (qmem * sock_world)) :=
  match next_sock w with
  | (None, w) => Some (None, (m, on_metrics (fun ms => INCR ms "buf_sock_create_ex") w))
  | (Some (s, (flag, dat)), w) =>
      let m := sq_clear_next m s in
      let w := set_socks w (<[s := BufSock None false flag dat None None None None]> (socks w)) in
      let fail w := w ← create_error s w; Some (None, (m, w)) in
      let '(c, w) := make_conn w in
      let w := put_sock w s (set_ch c) in
      match c with
      | None => fail w
      | Some _ =>
          let '(r, w) := make_buf w in
          let w := put_sock w s (set_rbuf r) in
          match r with
          | None => fail w
          | Some _ =>
              let '(b, w) := make_buf w in
              let w := put_sock w s (set_wbuf b) in
              match b with
              | None => fail w
              | Some _ =>
                  Some (Some s, (m, on_metrics (fun ms =>
                    INCR (INCR ms "buf_sock_create") "buf_sock_curr") w))
              end
          end
      end
  end.

(** The pool's create and destroy.  Creation is always defined ([create_spec]) and
    destruction is for a socket that owns its parts ([destroy_defined]): in the
    other case, which does not arise, the socket is just dropped. *)
#[export] Instance sock_pool_client : PoolClient qmem sock_world := {
  pc_create m w := default (None, (m, w)) (buf_sock_create m w);
  pc_destroy s m w :=
    (m, default (set_socks w (delete s (socks w))) (buf_sock_destroy_at s w));
}.

Record sockio_module := SockioModule {
  bsp : pstate qmem sock_world;
  bsp_init : bool;
  sockio_init : bool;
}.

Definition set_bsp (s : sockio_module) (p : pstate qmem sock_world) : sockio_module :=
  SockioModule p (bsp_init s) (sockio_init s).
Definition upd_world (s : sockio_module) (f : sock_world -> sock_world) : sockio_module :=
  set_bsp s (PState (mem (bsp s)) (ctl (bsp s)) (f (world (bsp s)))).

Definition buf_sock_pool_destroy (fuel : nat) (s : sockio_module) : option sockio_module :=
  if negb (bsp_init s) then Some s else
  p ← FREEPOOL_DESTROY fuel (bsp s);
  Some (SockioModule p false (sockio_init s)).

Definition buf_sock_pool_create (fuel : nat) (max : Z) (s : sockio_module)
  : option (outcome sockio_module) :=
  s ← (if bsp_init s then buf_sock_pool_destroy fuel s else Some s);
  p ← FREEPOOL_PREALLOC fuel (FREEPOOL_CREATE (bsp s) max) max;
  Some (if nfree (ctl p) <? max then Exits else Returns (SockioModule p true (sockio_init s))).

Definition reset_sock (sk : buf_sock) : buf_sock :=
  BufSock None false 0 None None (bs_ch sk) (bs_rbuf sk) (bs_wbuf sk).

(** tcp_conn_reset and buf_reset through the pointers. *)
Definition reset_conn (c : option positive) (w : sock_world) : option sock_world :=
  c ← c;
  tc ← conns (stcp w) !! c;
  Some (set_tcp w (tcp_conn_reset_next (stcpq w) c)
          (set_conns (stcp w) (<[c := tcp_conn_reset tc]> (conns (stcp w))))).
Definition reset_buf (q : option positive) (w : sock_world) : option sock_world :=
  q ← q;
  b ← sbufs w !! q;
  let d := sdbuf w in
  Some (set_dbuf w (Dbuf.set_state d (buf_reset_next (dmem d) q)
          (set_bufs (dworld d) (<[q := buf_reset b]> (bufs (dworld d)))))).

Definition buf_sock_reset (s : positive) (p : pstate qmem sock_world)
  : option (pstate qmem sock_world) :=
  sk ← socks (world p) !! s;
  let m := sq_clear_next (mem p) s in
  let w := put_sock (world p) s reset_sock in
  w ← reset_conn (bs_ch sk) w;
  w ← reset_buf (bs_rbuf sk) w;
  w ← reset_buf (bs_wbuf sk) w;
  Some (PState m (ctl p) w).

Definition buf_sock_borrow (s : sockio_module) : option (option positive * sockio_module) :=
  '(r, p) ← FREEPOOL_BORROW (bsp s);
  match r with
  | None =>
      Some (None, upd_world (set_bsp s p) (on_metrics (fun ms => INCR ms "buf_sock_borrow_ex")))
  | Some x =>
      p ← buf_sock_reset x p;
      Some (Some x, upd_world (set_bsp s p)
        (on_metrics (fun ms => INCR (INCR ms "buf_sock_borrow") "buf_sock_active")))
  end.

Definition set_sfree (b : bool) (sk : buf_sock) : buf_sock :=
  BufSock (bs_owner sk) b (bs_flag sk) (bs_data sk) (bs_hdl sk) (bs_ch sk) (bs_rbuf sk) (bs_wbuf sk).

Definition buf_sock_return (s : option (option positive)) (m : sockio_module)
  : option (option (option positive) * sockio_module) :=
  match s with
  | Some (Some x) =>
      sk ← socks (world (bsp m)) !! x;
      if bs_free sk then Some (s, m) else
      let m := upd_world m (fun w => put_sock w x (set_sfree true)) in
      let m := set_bsp m (FREEPOOL_RETURN (bsp m) x) in
      Some (Some None, upd_world m
        (on_metrics (fun ms => DECR (INCR ms "buf_sock_return") "buf_sock_active")))
  | _ => Some (s, m)
  end.

(** [options]: buf_sock_poolsize. *)
Definition sockio_setup (fuel : nat) (options : option Z) (metrics : metrics_st) (s : sockio_module)
  : option (outcome sockio_module) :=
  let max := match options with Some n => u32 n | None => BUFSOCK_POOLSIZE end in
  r ← buf_sock_pool_create fuel max (upd_world s (on_metrics (fun _ => metrics)));
  Some (match r with
        | Returns s => Returns (SockioModule (bsp s) (bsp_init s) true)
        | Exits => Exits
        end).

Definition sockio_teardown (fuel : nat) (s : sockio_module) : option sockio_module :=
  buf_sock_pool_destroy fuel s.

(** ** Proofs about reading and writing *)

Section IOLemmas.
Context {K : Type} `{!Kernel K} `{!KernelLaws K}.
Context (handlers : Z -> channel_handler (tcp_world * proc K) positive addrinfo).
Implicit Types (w : sock_world) (p : proc K) (s c q : positive) (sk : buf_sock) (b : buf).

Lemma wp_need {A} (o : option A) x (Q : A -> sock_world * proc K -> Prop) w p :
  o = Some x -> Q x (w, p) -> wp (need o) Q (w, p).
Proof. intros -> HQ. by exists x, (w, p). Qed.

Lemma wp_sock s sk (Q : buf_sock -> sock_world * proc K -> Prop) w p :
  socks w !! s = Some sk -> Q sk (w, p) -> wp (sock s) Q (w, p).
Proof. intros H HQ. exists sk, (w, p). unfold sock. by rewrite H. Qed.

Lemma wp_load q b (Q : buf -> sock_world * proc K -> Prop) w p :
  sbufs w !! q = Some b -> Q b (w, p) -> wp (load_buf q) Q (w, p).
Proof. intros H HQ. exists b, (w, p). unfold load_buf. by rewrite H. Qed.

Lemma wp_on_tcp {A} (m : st (tcp_world * proc K) A) (Q : A -> sock_world * proc K -> Prop) w p :
  wp m (fun x '(t, p') => Q x (set_tcp w (stcpq w) t, p')) (stcp w, p) -> wp (on_tcp m) Q (w, p).
Proof.
  intros (x & [t p'] & E & HQ). exists x, (set_tcp w (stcpq w) t, p').
  unfold on_tcp. by rewrite E.
Qed.

End IOLemmas.

Ltac sock_step :=
  match goal with
  | |- wp (need _) _ _ => eapply wp_need; [eassumption|]
  | |- wp (sock _) _ _ => eapply wp_sock; [eassumption|]
  | |- wp (load_buf _) _ _ => eapply wp_load; [first [eassumption|apply lookup_insert_eq]|]
  | |- wp (store_buf _ _) _ _ => apply wp_fst, wp_modify
  | |- wp (on_tcp _) _ _ => apply wp_on_tcp
  | |- wp (upd_conn _ _) _ _ => eapply wp_upd_conn; [first [eassumption|apply lookup_insert_eq]|]
  | _ => wp_step
  end.

Section Stream.
Context {K : Type} `{!Kernel K} `{!KernelLaws K}.
Context (handlers : Z -> channel_handler (tcp_world * proc K) positive addrinfo).
Implicit Types (w : sock_world) (p : proc K) (s c q : positive) (sk : buf_sock) (b : buf)
  (tc : tcp_conn) (d : desc).

Abbreviation fds_of p := (fds (view (kern p))).
Abbreviation sigs_of p := (sigs (view (kern p))).

(** The handler [h] is TCP's; each call outlasts the pending signals. *)
Definition tcp_handler h p : Prop :=
  exists fuel, h_recv (handlers h) = Some (tcp_recv fuel) /\
    h_send (handlers h) = Some (tcp_send fuel) /\ (sigs_of p < fuel)%nat.

(** The socket [s] of [w] with what it points at: the connection [tc] at [c] on
    the descriptor [d], the read buffer [rb] at [q] and the write buffer [wb] at
    [x]. *)
Record sock_at s h c q x w p tc d rb wb : Prop := {
  sa_sock : exists sk, socks w !! s = Some sk /\ bs_ch sk = Some c /\ bs_hdl sk = Some h /\
    bs_rbuf sk = Some q /\ bs_wbuf sk = Some x;
  sa_conn : conns (stcp w) !! c = Some tc;
  sa_desc : fds_of p !! tc_sd tc = Some d;
  sa_peer : d_peer d = None;
  sa_rbuf : sbufs w !! q = Some rb;
  sa_wbuf : sbufs w !! x = Some wb;
  sa_ne : q ≠ x;
  sa_rwf : buf_wf rb;
  sa_wwf : buf_wf wb;
}.

(** Only the socket's parts changed: the connection, its descriptor and the two
    buffers.  The read buffer may have moved to another address. *)
Record sock_frame s c q q' x w p tc w' p' : Prop := {
  sf_socks : forall t, t ≠ s -> socks w' !! t = socks w !! t;
  sf_conns : forall t, t ≠ c -> conns (stcp w') !! t = conns (stcp w) !! t;
  sf_fds : forall fd, fd ≠ tc_sd tc -> fds_of p' !! fd = fds_of p !! fd;
  sf_bufs : forall t, t ≠ q -> t ≠ q' -> t ≠ x -> sbufs w' !! t = sbufs w !! t;
  sf_moved : q' = q \/ sbufs w !! q' = None /\ sbufs w' !! q = None;
  sf_sigs : (sigs_of p' <= sigs_of p)%nat;
  sf_size : max_size (sdbuf w') = max_size (sdbuf w);
  sf_self : bs_free <$> socks w' !! s = bs_free <$> socks w !! s;
  sf_metrics : sockio_metrics w' = sockio_metrics w;
}.

Lemma sock_frame_refl s c q x w p tc : sock_frame s c q q x w p tc w p.
Proof. split; try done. by left. Qed.

(** The bytes the kernel delivered, stored behind the content of the buffer. *)
Lemma store_content b bs :
  buf_wf b -> zlen bs <= bend b - wpos b ->
  exists dt, memwrite (data b) (wpos b) bs = Some dt /\
    buf_wf (set_data b dt) /\ content (set_data b dt) = content b /\
    buf_wf (set_wpos (set_data b dt) (wpos b + zlen bs)) /\
    content (set_wpos (set_data b dt) (wpos b + zlen bs)) = content b ++ bs.
Proof.
  intros [H1 H2 H3 H4 H5] Hl. pose proof (zlen_nonneg bs).
  unfold BUF_HDR_SIZE, UINT32_MAX in *.
  rewrite memwrite_some by lia. eexists. split; [done|]. unfold content. simpl.
  rewrite slice_splice_before by lia. split_and!; try done.
  - split; simpl; rewrite ?zlen_splice; unfold BUF_HDR_SIZE, UINT32_MAX; lia.
  - split; simpl; rewrite ?zlen_splice; unfold BUF_HDR_SIZE, UINT32_MAX; lia.
  - replace (wpos b + zlen bs - rpos b) with ((wpos b - rpos b) + zlen bs) by lia.
    rewrite slice_split by lia. rewrite slice_splice_before by lia. f_equal.
    replace (rpos b + (wpos b - rpos b)) with (wpos b) by lia. apply slice_splice_same; lia.
Qed.

(** One call of the receive handler into the read buffer; after it wpos is to be
    moved over the bytes received. *)
Lemma recv_into_spec s h c q x cap w p tc d rb wb :
  sock_at s h c q x w p tc d rb wb -> tcp_handler h p -> 0 < cap <= buf_wsize rb ->
  wp (recv_into handlers h c q cap) (fun n '(w', p') =>
    exists bs tc' rb',
      recv_case add_recv (Tcp.set_state CHANNEL_TERM) Tcp.set_err (tc_sd tc) (fds_of p) tc cap
        n bs tc' (fds_of p') /\
      sock_at s h c q x w' p' tc' (set_in d (drop (length bs) (d_in d))) rb' wb /\
      wpos rb' = wpos rb /\ rpos rb' = rpos rb /\ bend rb' = bend rb /\
      buf_wf (set_wpos rb' (wpos rb + zlen bs)) /\
      content rb' = content rb /\
      content (set_wpos rb' (wpos rb + zlen bs)) = content rb ++ bs /\
      sock_frame s c q q x w p tc w' p') (w, p).
Proof.
  intros [(sk & Hsk & Hch & Hh & Hrb & Hwb) Hc Hd Hp Hq Hx Hne Hrw Hww] (fuel & Hr & _ & Hf) Hcap.
  unfold recv_into. repeat sock_step.
  eapply wp_mono; [by apply (tcp_recv_spec fuel c cap tc)|].
  intros [n bs] [t p1] (tc' & k & Hcase & (Ht & _) & Hs & _).
  destruct (recv_effect _ _ _ _ _ _ _ _ _ _ _ d Hcase Hd)
    as ((d' & Hd' & Hi & Ho & Hpe) & Hfr & Hz & Hle).
  rewrite wsize_eq in Hcap by done.
  destruct (store_content rb bs Hrw) as (dt & E & W1 & C1 & W2 & C2); [lia|].
  repeat sock_step.
  assert (Hdd : fds_of p1 !! tc_sd tc = Some (set_in d (drop (length bs) (d_in d)))).
  { rewrite Hi, drop_app_length. clear -Hcase Hd Hi Hd'. destruct Hcase; simplify_eq.
    - rewrite lookup_insert_eq. f_equal. rewrite H0 in Hi. by apply app_inv_head in Hi as ->.
    - rewrite Hd. by rewrite set_in_id.
    - rewrite Hd. by rewrite set_in_id.
    - rewrite Hd. by rewrite set_in_id. }
  assert (Hsd : tc_sd tc' = tc_sd tc) by (by destruct Hcase).
  exists bs, tc', (set_data rb dt). split; [done|]. split; [|split_and!; try done].
  - split; simpl; rewrite ?Ht, ?Hsd; try done.
    + by exists sk.
    + by rewrite lookup_insert_eq.
    + unfold sbufs. simpl. by rewrite lookup_insert_eq.
    + unfold sbufs. simpl. by rewrite lookup_insert_ne.
  - split; try done.
    + intros t' Hne'. simpl. by rewrite Ht, lookup_insert_ne.
    + intros t' H1 _ _. unfold sbufs. simpl. by rewrite lookup_insert_ne.
    + by left.
Qed.

Lemma sock_at_rbuf s h c q x w p tc d rb wb rb' :
  sock_at s h c q x w p tc d rb wb -> buf_wf rb' ->
  sock_at s h c q x (set_sbuf w q rb') p tc d rb' wb /\
  sock_frame s c q q x w p tc (set_sbuf w q rb') p.
Proof.
  intros [Hsk Hc Hd Hp Hq Hx Hne Hrw Hww] Hwf. split; split; try done; unfold sbufs; simpl.
  - by rewrite lookup_insert_eq.
  - by rewrite lookup_insert_ne.
  - intros t H1 _ _. by rewrite lookup_insert_ne.
  - by left.
Qed.

Lemma sock_at_wbuf s h c q x w p tc d rb wb wb' :
  sock_at s h c q x w p tc d rb wb -> buf_wf wb' ->
  sock_at s h c q x (set_sbuf w x wb') p tc d rb wb' /\
  sock_frame s c q q x w p tc (set_sbuf w x wb') p.
Proof.
  intros [Hsk Hc Hd Hp Hq Hx Hne Hrw Hww] Hwf. split; split; try done; unfold sbufs; simpl.
  - by rewrite lookup_insert_ne.
  - by rewrite lookup_insert_eq.
  - intros t _ _ H1. by rewrite lookup_insert_ne.
  - by left.
Qed.

Lemma sock_at_conn s h c q x w p tc d rb wb (f : tcp_conn -> tcp_conn) :
  let w' := set_tcp w (stcpq w) (set_conns (stcp w) (<[c := f tc]> (conns (stcp w)))) in
  tc_sd (f tc) = tc_sd tc -> sock_at s h c q x w p tc d rb wb ->
  sock_at s h c q x w' p (f tc) d rb wb /\ sock_frame s c q q x w p tc w' p.
Proof.
  intros w' Hsd [Hsk Hc Hd Hp Hq Hx Hne Hrw Hww]. split; split; try done; simpl.
  - by rewrite lookup_insert_eq.
  - by rewrite Hsd.
  - intros t Ht. by rewrite lookup_insert_ne.
  - by left.
Qed.

Lemma sock_frame_trans s h c q q1 q2 x w p tc w1 p1 tc1 d1 rb1 wb1 w2 p2 :
  sock_frame s c q q1 x w p tc w1 p1 -> sock_at s h c q1 x w1 p1 tc1 d1 rb1 wb1 ->
  tc_sd tc1 = tc_sd tc -> q ≠ x ->
  sock_frame s c q1 q2 x w1 p1 tc1 w2 p2 -> sock_frame s c q q2 x w p tc w2 p2.
Proof.
  intros [A1 A2 A3 A4 A5 A6 A7 A8 A9] [_ _ _ _ Hq Hx Hne _ _] Hsd Hqx [B1 B2 B3 B4 B5 B6 B7 B8 B9].
  rewrite Hsd in B3. split.
  - intros t Ht. rewrite B1 by done. by apply A1.
  - intros t Ht. rewrite B2 by done. by apply A2.
  - intros t Ht. rewrite B3 by done. by apply A3.
  - intros t H1 H2 H3. destruct (decide (t = q1)) as [->|].
    + destruct A5 as [->|[A5 _]]; [done|]. destruct B5 as [->|[_ B5]]; [done|]. congruence.
    + rewrite B4 by done. by apply A4.
  - destruct (decide (q2 = q)) as [|Hn]; [by left|right].
    destruct A5 as [->|[A5 A5']].
    { destruct B5 as [->|[B5 B5']]; [done|]. rewrite <- (A4 q2) by congruence. done. }
    assert (q ≠ q1) by congruence. rewrite (B4 q) by congruence. split; [|done].
    destruct B5 as [->|[B5 _]]; [done|]. rewrite <- A4; [done|done|congruence|congruence].
  - lia.
  - congruence.
  - congruence.
  - congruence.
Qed.

(** How a read ended, with the state of the descriptor and of the read buffer
    after it. *)
Inductive read_outcome tc d' tc' rb' : Z -> Prop :=
| Read_ok : tc_state tc' = tc_state tc -> wpos rb' < bend rb' -> read_outcome tc d' tc' rb' CC_OK
| Read_retry :
    tc_state tc' = tc_state tc -> wpos rb' = bend rb' -> read_outcome tc d' tc' rb' CC_ERETRY
| Read_hup : d_in d' = [] -> tc_state tc' = CHANNEL_TERM -> read_outcome tc d' tc' rb' CC_ERDHUP
| Read_error : tc_state tc' = CHANNEL_ERROR -> read_outcome tc d' tc' rb' CC_ERROR.

(** The bytes [bs] moved from the descriptor to the end of the read buffer. *)
Definition read_post s h c q x w p tc d rb wb (bs : list byte) q' status w' p' : Prop :=
  exists d' tc' rb', sock_at s h c q' x w' p' tc' d' rb' wb /\
    sock_frame s c q q' x w p tc w' p' /\ tc_sd tc' = tc_sd tc /\
    d_in d = bs ++ d_in d' /\ d_out d' = d_out d /\ content rb' = content rb ++ bs /\
    buf_size rb' <= Z.max (buf_size rb) (max_size (sdbuf w)) /\
    read_outcome tc d' tc' rb' status.

Definition set_conn w c tc' : sock_world :=
  set_tcp w (stcpq w) (set_conns (stcp w) (<[c := tc']> (conns (stcp w)))).

(** What one receive into the read buffer amounts to once the code has reacted to
    its result [n]. *)
Lemma recv_settles s h c q x cap w p tc d rb wb :
  sock_at s h c q x w p tc d rb wb -> tcp_handler h p -> 0 < cap <= buf_wsize rb ->
  wp (recv_into handlers h c q cap) (fun n '(w1, p1) =>
    exists tc1 d1 rb1, sock_at s h c q x w1 p1 tc1 d1 rb1 wb /\ wpos rb1 = wpos rb /\
      bend rb1 = bend rb /\
      let post bs := read_post s h c q x w p tc d rb wb bs q in
      (n = CC_EAGAIN /\ post [] CC_OK w1 p1 \/
       n = CC_ERROR /\ post [] CC_ERROR (set_conn w1 c (Tcp.set_state CHANNEL_ERROR tc1)) p1 \/
       n = 0 /\ post [] CC_ERDHUP (set_conn w1 c (Tcp.set_state CHANNEL_TERM tc1)) p1 \/
       0 < n <= cap /\ exists bs, zlen bs = n /\
         post bs (if n =? buf_wsize rb then CC_ERETRY else CC_OK)
           (set_sbuf w1 q (set_wpos rb1 (wpos rb1 + n))) p1)) (w, p).
Proof.
  intros Hat Hh Hcap. pose proof (sa_rwf _ _ _ _ _ _ _ _ _ _ _ Hat) as Hrw.
  pose proof (sa_ne _ _ _ _ _ _ _ _ _ _ _ Hat) as Hne.
  pose proof (sa_desc _ _ _ _ _ _ _ _ _ _ _ Hat) as Hd.
  pose proof (wsize_eq rb Hrw) as Hws.
  eapply wp_mono; [by apply recv_into_spec|].
  intros n [w1 p1] (bs & tc1 & rb1 & Hcase & Hat1 & Hw1 & Hr1 & He1 & W2 & C1 & C2 & Hfr).
  exists tc1, (set_in d (drop (length bs) (d_in d))), rb1. do 3 (split; [done|]).
  assert (Hsd : tc_sd tc1 = tc_sd tc) by (by destruct Hcase).
  assert (Hsize : buf_size rb1 <= Z.max (buf_size rb) (max_size (sdbuf w))).
  { unfold buf_size. rewrite He1. lia. }
  assert (Hconn : forall st, let w2 := set_conn w1 c (Tcp.set_state st tc1) in
    sock_at s h c q x w2 p1 (Tcp.set_state st tc1) (set_in d (drop (length bs) (d_in d))) rb1 wb /\
    sock_frame s c q q x w p tc w2 p1).
  { intros st w2. edestruct (sock_at_conn s h c q x w1 p1 tc1) with (f := Tcp.set_state st); [done..|].
    split; [done|]. eapply sock_frame_trans; done. }
  destruct Hcase as [d0 bs rest Hd0 Hi Hn|d0 Hd0 Hi| |e E1 E2 E3]; simplify_eq.
  - right; right; right. split; [lia|]. exists bs. split; [done|].
    destruct (sock_at_rbuf _ _ _ _ _ _ _ _ _ _ _ _ Hat1 W2) as [Hat2 Hfr2]. rewrite Hw1.
    do 3 eexists. split; [exact Hat2|]. split; [by eapply sock_frame_trans|].
    simpl. rewrite Hi, drop_app_length. split_and!; try done.
    case_zcmp; [apply Read_retry|apply Read_ok]; simpl; try done; lia.
  - right; right; left. split; [done|]. destruct (Hconn CHANNEL_TERM) as [Hat2 Hfr2].
    do 3 eexists. split; [exact Hat2|]. split_and!; try done; [by rewrite app_nil_r|].
    apply Read_hup; simpl; [|done]. rewrite drop_0. apply Hi. lia.
  - left. split; [done|]. do 3 eexists. split; [exact Hat1|].
    split_and!; try done; [by rewrite app_nil_r|]. apply Read_ok; [done|lia].
  - right; left. split; [done|]. destruct (Hconn CHANNEL_ERROR) as [Hat2 Hfr2].
    do 3 eexists. split; [exact Hat2|]. split_and!; try done; [by rewrite app_nil_r|].
    by apply Read_error.
Qed.

Lemma buf_tcp_read_spec s h c q x w p tc d rb wb :
  sock_at s h c q x w p tc d rb wb -> tcp_handler h p ->
  wp (buf_tcp_read handlers s) (fun status '(w', p') =>
    wpos rb = bend rb /\ status = CC_ENOMEM /\ (w', p') = (w, p) \/
    wpos rb < bend rb /\ exists bs,
      read_post s h c q x w p tc d rb wb bs q status w' p') (w, p).
Proof.
  intros Hat Hh. pose proof (wsize_eq rb (sa_rwf _ _ _ _ _ _ _ _ _ _ _ Hat)) as Hws.
  pose proof (wf_end rb (sa_rwf _ _ _ _ _ _ _ _ _ _ _ Hat)) as Hend.
  destruct (sa_sock _ _ _ _ _ _ _ _ _ _ _ Hat) as (sk & Hsk & Hch & Hhd & Hrb & Hwb).
  pose proof (sa_rbuf _ _ _ _ _ _ _ _ _ _ _ Hat) as Hq.
  unfold buf_tcp_read. repeat sock_step.
  destruct (Z.eqb_spec (buf_wsize rb) 0) as [E|E]; [repeat sock_step; left; split; [lia|done]|].
  apply wp_bind. eapply wp_mono; [apply (recv_settles s h c q x _ w p tc d rb wb); try done; lia|].
  intros n [w1 p1] (tc1 & d1 & rb1 & Hat1 & Hw1 & _ & Hcases). simpl in Hcases.
  pose proof (sa_conn _ _ _ _ _ _ _ _ _ _ _ Hat1) as Hc1.
  pose proof (sa_rbuf _ _ _ _ _ _ _ _ _ _ _ Hat1) as Hq1.
  destruct Hcases as [[-> H]|[[-> H]|[[-> H]|(Hn & bs & Hb & H)]]]; simpl; repeat sock_step;
    try (right; split; [lia|]; by exists []).
  rewrite (proj2 (Z.ltb_ge n 0)), (proj2 (Z.eqb_neq n 0)) by lia.
  rewrite (proj2 (Z.ltb_lt 0 n)) by lia.
  destruct (n =? buf_wsize rb); repeat sock_step; unfold advance_wpos; repeat sock_step;
    (right; split; [lia|]; by exists bs).
Qed.

(** How a write ended; [wb'] is the write buffer after it. *)
Inductive write_outcome tc tc' wb wb' : Z -> Prop :=
| Write_ok : tc_state tc' = tc_state tc -> content wb' = [] -> write_outcome tc tc' wb wb' CC_OK
| Write_retry :
    tc_state tc' = tc_state tc -> content wb' ≠ [] -> write_outcome tc tc' wb wb' CC_ERETRY
| Write_again : tc' = tc -> wb' = wb -> write_outcome tc tc' wb wb' CC_EAGAIN
| Write_error :
    tc_state tc' = CHANNEL_ERROR -> wb' = wb -> write_outcome tc tc' wb wb' CC_ERROR.

(** The bytes [bs] moved from the front of the write buffer to the descriptor. *)
Definition write_post s h c q x w p tc d rb wb (bs : list byte) status w' p' : Prop :=
  exists d' tc' wb', sock_at s h c q x w' p' tc' d' rb wb' /\
    sock_frame s c q q x w p tc w' p' /\ tc_sd tc' = tc_sd tc /\
    d_in d' = d_in d /\ d_out d' = d_out d ++ bs /\ content wb = bs ++ content wb' /\
    write_outcome tc tc' wb wb' status.

Lemma sent_content b n :
  buf_wf b -> 0 <= n <= buf_rsize b ->
  buf_wf (set_rpos b (rpos b + n)) /\
  content b = take (Z.to_nat n) (content b) ++ content (set_rpos b (rpos b + n)) /\
  zlen (content (set_rpos b (rpos b + n))) = buf_rsize b - n.
Proof.
  intros Hwf Hn. rewrite rsize_eq, content_length in * by done.
  assert (Hwf' : buf_wf (set_rpos b (rpos b + n))).
  { destruct Hwf as [H1 H2 H3 H4 H5]. split; simpl; unfold BUF_HDR_SIZE, UINT32_MAX in *; lia. }
  split; [done|]. rewrite (content_length _ Hwf'), (content_length _ Hwf). simpl. split; [|lia].
  destruct Hwf as [H1 H2 H3 H4 H5]. unfold content. simpl.
  replace (wpos b - rpos b) with (n + (wpos b - (rpos b + n))) by lia.
  rewrite slice_split by lia.
  rewrite take_app_length' by (pose proof (zlen_slice (data b) (rpos b) n); unfold zlen in *; lia).
  done.
Qed.

Lemma buf_tcp_write_spec s h c q x w p tc d rb wb :
  sock_at s h c q x w p tc d rb wb -> tcp_handler h p ->
  wp (buf_tcp_write handlers s) (fun status '(w', p') =>
    content wb = [] /\ status = CC_EEMPTY /\ (w', p') = (w, p) \/
    content wb ≠ [] /\ exists bs,
      write_post s h c q x w p tc d rb wb bs status w' p') (w, p).
Proof.
  intros Hat (fuel & _ & Hsend & Hf).
  pose proof Hat as [(sk & Hsk & Hch & Hhd & Hrb & Hwb) Hc Hd Hp Hq Hx Hne Hrw Hww].
  pose proof (rsize_eq wb Hww) as Hrs.
  unfold buf_tcp_write. repeat sock_step.
  destruct (Z.eqb_spec (buf_rsize wb) 0) as [E|E].
  { repeat sock_step. left. split; [|done]. apply nil_length_inv. unfold zlen in Hrs. lia. }
  unfold send_from. repeat sock_step.
  assert (Hcont : memread (data wb) (rpos wb) (buf_rsize wb) = Some (content wb)).
  { pose proof Hww as [H1 H2 H3 H4 H5]. rewrite Hrs, content_length by done. rewrite memread_some by lia. done. }
  repeat sock_step. eapply wp_mono; [by apply (tcp_send_spec fuel c (content wb) tc)|].
  intros n [t p1] (tc1 & k & Hcase & (Ht & _) & Hs & _).
  destruct (send_effect _ _ _ _ _ _ _ _ _ d Hcase Hd Hp) as ((d' & Hd' & Ho & Hi & Hpe) & Hfds & Hz).
  assert (Hsd : tc_sd tc1 = tc_sd tc) by (by destruct Hcase).
  set (w1 := set_tcp w (stcpq w) t).
  assert (Hat1 : sock_at s h c q x w1 p1 tc1 d' rb wb).
  { split; simpl; rewrite ?Ht, ?Hsd; try done; [by exists sk|by rewrite lookup_insert_eq]. }
  assert (Hfr : sock_frame s c q q x w p tc w1 p1).
  { split; try done; [|by left]. intros t' Hne'. simpl. by rewrite Ht, lookup_insert_ne. }
  assert (Hnil : content wb ≠ []) by (intros Hn; rewrite Hn in Hrs; done).
  destruct Hcase as [n Hi0 Hn| | |e E1 E2 E3].
  - rewrite (proj2 (Z.ltb_ge n 0)), (proj2 (Z.ltb_lt 0 n)) by lia.
    destruct (sent_content wb n Hww) as (W2 & C2 & L2); [lia|].
    destruct (sock_at_wbuf _ _ _ _ _ _ _ _ _ _ _ _ Hat1 W2) as [Hat2 Hfr2].
    pose proof (sa_wbuf _ _ _ _ _ _ _ _ _ _ _ Hat1) as Hx1.
    assert (Hpost : write_post s h c q x w p tc d rb wb (take (Z.to_nat n) (content wb))
      (if n <? buf_rsize wb then CC_ERETRY else CC_OK)
      (set_sbuf w1 x (set_rpos wb (rpos wb + n))) p1).
    { do 3 eexists. split; [exact Hat2|]. split; [by eapply sock_frame_trans|].
      split_and!; try done. case_zcmp; constructor; try done.
      - intros Hn'. rewrite Hn' in L2. change (zlen []) with 0 in L2. lia.
      - apply nil_length_inv. unfold zlen in L2. lia. }
    destruct (n <? buf_rsize wb); unfold advance_rpos; repeat sock_step; right; eauto.
  - simpl. rewrite (proj2 (Z.ltb_lt 0 (buf_rsize wb))) by (pose proof (zlen_nonneg (content wb)); lia).
    repeat sock_step. right. split; [done|]. exists []. do 3 eexists. split; [exact Hat1|].
    split_and!; try done.
    by apply Write_retry.
  - simpl. repeat sock_step. right. split; [done|]. exists []. do 3 eexists. split; [exact Hat1|].
    split_and!; try done. by apply Write_again.
  - simpl. pose proof (sa_conn _ _ _ _ _ _ _ _ _ _ _ Hat1). repeat sock_step.
    edestruct (sock_at_conn s h c q x w1 p1) with (f := Tcp.set_state CHANNEL_ERROR) as [Hat2 Hfr2];
      [|exact Hat1|]; [done|]. right. split; [done|]. exists []. do 3 eexists.
    split; [exact Hat2|]. split; [by eapply sock_frame_trans|]. split_and!; try done.
    by apply Write_error.
Qed.

Lemma double_rbuf_spec s h c q x w p tc d rb wb :
  sock_at s h c q x w p tc d rb wb -> buf_size rb < 2 ^ 31 ->
  wp (double_rbuf s q) (fun status '(w1, p1) => p1 = p /\ exists q1 rb1,
    sock_at s h c q1 x w1 p tc d rb1 wb /\ sock_frame s c q q1 x w p tc w1 p /\
    content rb1 = content rb /\ wpos rb1 = wpos rb /\
    (status = CC_OK /\ buf_size rb1 = 2 * buf_size rb /\ buf_size rb1 <= max_size (sdbuf w) \/
     status ≠ CC_OK /\ q1 = q /\ rb1 = rb)) (w, p).
Proof.
  intros [(sk & Hsk & Hch & Hh & Hrb & Hwb) Hc Hd Hp Hq Hx Hne Hrw Hww] Hsz.
  unfold double_rbuf, wp, dbuf_double. unfold sbufs in *. rewrite Hq. simpl.
  pose proof (size_eq rb Hrw) as Hse. pose proof (wf_end rb Hrw) as Hend.
  pose proof (wf_rpos rb Hrw). pose proof (wf_wpos rb Hrw). unfold BUF_HDR_SIZE in Hse.
  rewrite (u32_small (buf_size rb * 2)) by lia.
  destruct (resize_spec (sdbuf w) q rb (buf_size rb * 2)) as (st & q1 & m & E & Hr);
    [done|done|unfold BUF_HDR_SIZE, UINT32_MAX; lia|]. rewrite E. simpl.
  do 2 eexists. split; [done|]. split; [done|].
  assert (Hsk' : forall q1, exists sk, alter (set_rbuf (Some q1)) s (socks w) !! s = Some sk /\
    bs_ch sk = Some c /\ bs_hdl sk = Some h /\ bs_rbuf sk = Some q1 /\ bs_wbuf sk = Some x).
  { intros q'. exists (set_rbuf (Some q') sk). by rewrite lookup_alter_eq, Hsk. }
  assert (Hso : forall q1 t, t ≠ s -> alter (set_rbuf (Some q1)) s (socks w) !! t = socks w !! t).
  { intros q' t Ht. by rewrite lookup_alter_ne. }
  assert (Hself : forall q1, bs_free <$> alter (set_rbuf (Some q1)) s (socks w) !! s =
    bs_free <$> socks w !! s).
  { intros q'. by rewrite lookup_alter_eq, Hsk. }
  destruct Hr as [q1 b' m Hm Hfresh Hco Hw Hfree Hs Hwf Hmem Hb _ _|Hm|m Hm Hmem Hb _ _].
  - exists q1, b'. split; [|split; [|split_and!; try done; left; split_and!; [done|lia|lia]]].
    + assert (q1 ≠ x) by (destruct Hfresh; congruence).
      split; simpl; unfold sbufs; simpl; try done; rewrite Hb.
      * by rewrite lookup_insert_eq.
      * rewrite lookup_insert_ne, lookup_delete_ne by done. done.
    + split; simpl; unfold sbufs; simpl; try done; try rewrite Hb; auto.
      * intros t H1 H2 _. by rewrite lookup_insert_ne, lookup_delete_ne.
      * destruct Hfresh as [->|Hf]; [by left|right]. split; [done|].
        rewrite lookup_insert_ne by congruence. apply lookup_delete_eq.
      * by eapply resize_max_size.
  - exists q, rb. split; [|split; [|split_and!; try done; right; split_and!; try done]].
    + split; simpl; unfold sbufs; simpl; try done.
    + split; simpl; try done; auto.
  - exists q, rb. split; [|split; [|split_and!; try done; right; split_and!; try done]].
    + split; simpl; unfold sbufs; simpl; try rewrite Hb; try done.
    + split; simpl; unfold sbufs; simpl; try rewrite Hb; try done; auto.
      by eapply resize_max_size.
Qed.

Lemma read_post_trans s h c q q1 q2 x w p tc d rb wb w1 p1 tc1 d1 rb1 bs1 bs2 status w2 p2 :
  q ≠ x -> sock_at s h c q1 x w1 p1 tc1 d1 rb1 wb -> sock_frame s c q q1 x w p tc w1 p1 ->
  tc_sd tc1 = tc_sd tc -> tc_state tc1 = tc_state tc ->
  d_in d = bs1 ++ d_in d1 -> d_out d1 = d_out d -> content rb1 = content rb ++ bs1 ->
  buf_size rb1 <= Z.max (buf_size rb) (max_size (sdbuf w)) ->
  read_post s h c q1 x w1 p1 tc1 d1 rb1 wb bs2 q2 status w2 p2 ->
  read_post s h c q x w p tc d rb wb (bs1 ++ bs2) q2 status w2 p2.
Proof.
  intros Hqx Hat Hfr Hsd Hst Hi Ho Hc Hz
    (d2 & tc2 & rb2 & Hat2 & Hfr2 & Hsd2 & Hi2 & Ho2 & Hc2 & Hz2 & Hout).
  rewrite (sf_size _ _ _ _ _ _ _ _ _ _ Hfr) in Hz2.
  exists d2, tc2, rb2. split; [done|]. split; [by eapply sock_frame_trans|].
  rewrite Hi, Hi2, Hc2, Hc, !app_assoc. split_and!; try congruence; [lia|].
  destruct Hout; constructor; congruence.
Qed.

Lemma tcp_handler_mono h p p' : tcp_handler h p -> (sigs_of p' <= sigs_of p)%nat -> tcp_handler h p'.
Proof. intros (fuel & H1 & H2 & H3) Hle. exists fuel. split_and!; [done..|lia]. Qed.

Lemma wp_rbuf_of s h c q x w p tc d rb wb (Q : positive -> sock_world * proc K -> Prop) :
  sock_at s h c q x w p tc d rb wb -> Q q (w, p) -> wp (rbuf_of s) Q (w, p).
Proof.
  intros [(sk & Hsk & Hch & Hh & Hrb & Hwb) _ _ _ _ _ _ _ _] HQ.
  unfold rbuf_of. repeat sock_step. done.
Qed.

(** The rounds the loop has left are enough: each one after the first begins with
    a full buffer and doubles it, and the size stays below max_size. *)
Definition rounds (fuel : nat) w rb : Prop :=
  (wpos rb = bend rb -> 1 <= Z.of_nat fuel /\ max_size (sdbuf w) < buf_size rb * 2 ^ Z.of_nat fuel) /\
  (wpos rb < bend rb -> 2 <= Z.of_nat fuel /\
     max_size (sdbuf w) < buf_size rb * 2 ^ (Z.of_nat fuel - 1)).

Lemma rounds_full fuel w rb w' rb' :
  rounds (S fuel) w rb -> max_size (sdbuf w') = max_size (sdbuf w) -> 0 < buf_size rb ->
  wpos rb' = bend rb' ->
  (wpos rb < bend rb /\ buf_size rb' = buf_size rb \/
   wpos rb = bend rb /\ buf_size rb' = 2 * buf_size rb /\ buf_size rb' <= max_size (sdbuf w)) ->
  rounds fuel w' rb'.
Proof.
  intros [R1 R2] Hm H0 Hfull Hcase. split; [intros _|lia]. rewrite Hm.
  destruct Hcase as [[Hlt Hs]|(Heq & Hs & Hle)].
  - destruct (R2 Hlt) as [H1 H2]. rewrite Hs.
    replace (Z.of_nat (S fuel) - 1) with (Z.of_nat fuel) in H2 by lia. split; [lia|done].
  - destruct (R1 Heq) as [H1 H2]. rewrite Hs. rewrite Nat2Z.inj_succ, Z.pow_succ_r in H2 by lia.
    destruct fuel as [|fuel]; [simpl in H2; lia|]. split; [lia|]. nia.
Qed.

Lemma ensure_room_spec s h c q x w p tc d rb wb :
  sock_at s h c q x w p tc d rb wb -> buf_size rb < 2 ^ 31 -> max_size (sdbuf w) < 2 ^ 31 ->
  wp (ensure_room s) (fun r '(w1, p1) => p1 = p /\ exists q1 rb1,
    sock_at s h c q1 x w1 p tc d rb1 wb /\ sock_frame s c q q1 x w p tc w1 p /\
    content rb1 = content rb /\
    match r with
    | None => rb1 = rb /\ wpos rb = bend rb
    | Some cap => cap = buf_wsize rb1 /\ 0 < cap /\ buf_size rb1 < 2 ^ 31 /\
        (wpos rb < bend rb /\ buf_size rb1 = buf_size rb \/
         wpos rb = bend rb /\ buf_size rb1 = 2 * buf_size rb /\
           buf_size rb1 <= max_size (sdbuf w))
    end) (w, p).
Proof.
  intros Hat Hsz Hmax. pose proof (sa_rwf _ _ _ _ _ _ _ _ _ _ _ Hat) as Hrw.
  pose proof (wsize_eq rb Hrw) as Hws. pose proof (wf_end rb Hrw) as Hend.
  pose proof (size_eq rb Hrw) as Hse. pose proof (wf_rpos rb Hrw). pose proof (wf_wpos rb Hrw).
  unfold BUF_HDR_SIZE in Hse. unfold ensure_room. apply wp_bind.
  eapply wp_rbuf_of; [done|]. apply wp_bind. eapply wp_load; [by eapply sa_rbuf|].
  destruct (Z.eqb_spec (buf_wsize rb) 0) as [E|E].
  - apply wp_bind. eapply wp_mono; [by eapply double_rbuf_spec|].
    intros st [w1 p1] (-> & q1 & rb1 & Hat1 & Hfr1 & Hc1 & Hw1 & [(-> & Hs1 & Hm1)|(Hst & -> & ->)]).
    + simpl. apply wp_bind. eapply wp_rbuf_of; [done|]. apply wp_bind.
      eapply wp_load; [by eapply sa_rbuf|]. apply wp_ret. split; [done|]. exists q1, rb1.
      split_and!; try done; [|lia|right; lia].
      pose proof (sa_rwf _ _ _ _ _ _ _ _ _ _ _ Hat1) as Hrw1.
      pose proof (size_eq rb1 Hrw1). rewrite wsize_eq by done. unfold BUF_HDR_SIZE in *. lia.
    + rewrite (proj2 (Z.eqb_neq st CC_OK)) by done. simpl. apply wp_ret. split; [done|].
      exists q, rb. split_and!; try done. lia.
  - apply wp_ret. split; [done|]. exists q, rb.
    split_and!; try done; [apply sock_frame_refl|lia|left; lia].
Qed.

Lemma dbuf_read_loop_spec fuel s h c q x w p tc d rb wb :
  sock_at s h c q x w p tc d rb wb -> tcp_handler h p ->
  buf_size rb < 2 ^ 31 -> max_size (sdbuf w) < 2 ^ 31 -> rounds fuel w rb ->
  wp (dbuf_read_loop handlers fuel s c h) (fun status '(w', p') => exists q' bs,
    read_post s h c q x w p tc d rb wb bs q' status w' p') (w, p).
Proof.
  revert q w p tc d rb. induction fuel as [|fuel IH];
    intros q w p tc d rb Hat Hh Hsz Hmax Hro; pose proof (sa_rwf _ _ _ _ _ _ _ _ _ _ _ Hat) as Hrw.
  { destruct Hro as [R1 R2]. pose proof (wf_end _ Hrw). exfalso. lia. }
  pose proof (sa_ne _ _ _ _ _ _ _ _ _ _ _ Hat) as Hqx.
  assert (Hpos : 0 < buf_size rb).
  { pose proof (size_eq rb Hrw). destruct Hrw. unfold BUF_HDR_SIZE in *. lia. }
  cbn [dbuf_read_loop]. apply wp_bind. eapply wp_mono; [by apply ensure_room_spec|].
  intros r [w1 p1] (-> & q1 & rb1 & Hat1 & Hfr1 & Hc1 & Hr).
  destruct r as [cap|]; cycle 1.
  { destruct Hr as [-> Hfull]. apply wp_ret. exists q1, [].
    do 3 eexists. split; [done|]. split_and!; try done; [by rewrite app_nil_r|lia|].
    by apply Read_retry. }
  destruct Hr as (-> & Hcap & Hsz1 & Hs1).
  pose proof (sa_rwf _ _ _ _ _ _ _ _ _ _ _ Hat1) as Hrw1.
  assert (Hh1 : tcp_handler h p) by done.
  apply wp_bind. eapply wp_rbuf_of; [done|]. apply wp_bind.
  eapply wp_mono; [apply (recv_settles s h c q1 x _ w1 p tc d rb1 wb); try done; lia|].
  intros n [w2 p2] (tc2 & d2 & rb2 & Hat2 & Hw2 & He2 & Hcases). simpl in Hcases.
  assert (Hglue : forall bs q' st w' p', read_post s h c q1 x w1 p tc d rb1 wb bs q' st w' p' ->
    read_post s h c q x w p tc d rb wb bs q' st w' p').
  { intros bs q' st w' p' Hp. change bs with ([] ++ bs).
    apply (read_post_trans s h c q q1 q' x w p tc d rb wb w1 p tc d rb1 [] bs); try done; [by rewrite app_nil_r|lia]. }
  pose proof (sa_conn _ _ _ _ _ _ _ _ _ _ _ Hat2).
  pose proof (sa_rbuf _ _ _ _ _ _ _ _ _ _ _ Hat2).
  destruct Hcases as [[-> Hp]|[[-> Hp]|[[-> Hp]|(Hn & bs & Hb & Hp)]]]; simpl; repeat sock_step;
    try (exists q1, []; by apply Hglue).
  rewrite (proj2 (Z.ltb_ge n 0)), (proj2 (Z.eqb_neq n 0)) by lia.
  apply wp_bind. eapply wp_rbuf_of; [done|]. unfold advance_wpos. repeat sock_step.
  apply Hglue in Hp. destruct (Z.eqb_spec n (buf_wsize rb1)) as [Hfull|]; cycle 1.
  { repeat sock_step. eauto. }
  destruct Hp as (d3 & tc3 & rb3 & Hat3 & Hfr3 & Hsd3 & Hi3 & Ho3 & Hc3 & Hz3 & Hout3).
  inversion Hout3 as [|Hst3 Hw3| |].
  assert (Hs3 : buf_size rb3 = buf_size rb1).
  { pose proof (sa_rbuf _ _ _ _ _ _ _ _ _ _ _ Hat3) as Hq3. unfold sbufs in Hq3. simpl in Hq3.
    rewrite lookup_insert_eq in Hq3. simplify_eq. unfold buf_size. simpl. by rewrite He2. }
  pose proof (sf_size _ _ _ _ _ _ _ _ _ _ Hfr3) as Hm3.
  eapply wp_mono; [apply (IH q1 _ p2 tc3 d3 rb3)|]; [done| |lia|lia| |].
  - eapply tcp_handler_mono; [done|]. by apply Hfr3.
  - eapply rounds_full; try done. by rewrite Hs3.
  - intros st [w' p'] (q' & bs' & Hp'). exists q', (bs ++ bs'). by eapply read_post_trans.
Qed.

Lemma dbuf_tcp_read_spec s h c q x w p tc d rb wb :
  sock_at s h c q x w p tc d rb wb -> tcp_handler h p ->
  buf_size rb < 2 ^ 31 -> max_size (sdbuf w) < 2 ^ 31 ->
  wp (dbuf_tcp_read handlers 32 s) (fun status '(w', p') => exists q' bs,
    read_post s h c q x w p tc d rb wb bs q' status w' p') (w, p).
Proof.
  intros Hat Hh Hsz Hm. destruct (sa_sock _ _ _ _ _ _ _ _ _ _ _ Hat) as (sk & Hsk & Hch & Hhd & _).
  unfold dbuf_tcp_read. repeat sock_step. apply dbuf_read_loop_spec; try done.
  pose proof (sa_rwf _ _ _ _ _ _ _ _ _ _ _ Hat) as Hrw. pose proof (size_eq rb Hrw).
  destruct Hrw. unfold BUF_HDR_SIZE in *. split; intros _; simpl Z.of_nat; lia.
Qed.

(** ** A client of one socket

    What a server does with a socket: read from it in either way, write to it,
    take [n] bytes out of its read buffer with buf_read, put bytes into its write
    buffer with buf_write. *)

Definition take_rbuf s (n : Z) : st (sock_world * proc K) (list byte) :=
  sk ← sock s; q ← need (bs_rbuf sk); b ← load_buf q;
  '(bytes, _, b) ← need (buf_read b n);
  store_buf q b;; mret bytes.

Definition put_wbuf s (src : list byte) : st (sock_world * proc K) Z :=
  sk ← sock s; q ← need (bs_wbuf sk); b ← load_buf q;
  '(n, b) ← need (buf_write b src (zlen src));
  store_buf q b;; mret n.

Lemma take_rbuf_spec s h c q x w p tc d rb wb n :
  sock_at s h c q x w p tc d rb wb -> 0 <= n ->
  wp (take_rbuf s n) (fun bytes '(w', p') => exists rb',
    sock_at s h c q x w' p' tc d rb' wb /\ sock_frame s c q q x w p tc w' p' /\
    content rb = bytes ++ content rb' /\ buf_size rb' = buf_size rb) (w, p).
Proof.
  intros Hat Hn. pose proof Hat as [(sk & Hsk & Hch & Hhd & Hrb & Hwb) _ _ _ Hq _ _ Hrw _].
  destruct (read_spec rb n Hrw Hn) as (bs & b' & E & _ & Hc & Hwf & Hbe & Hbf).
  unfold take_rbuf. repeat sock_step. simpl. repeat sock_step. exists b'.
  destruct (sock_at_rbuf _ _ _ _ _ _ _ _ _ _ _ _ Hat Hwf) as [Hat' Hfr'].
  split_and!; try done. unfold buf_size. by rewrite Hbe.
Qed.

Lemma put_wbuf_spec s h c q x w p tc d rb wb src :
  sock_at s h c q x w p tc d rb wb ->
  wp (put_wbuf s src) (fun n '(w', p') => exists wb',
    sock_at s h c q x w' p' tc d rb wb' /\ sock_frame s c q q x w p tc w' p' /\
    content wb' = content wb ++ take (Z.to_nat n) src) (w, p).
Proof.
  intros Hat. pose proof Hat as [(sk & Hsk & Hch & Hhd & Hrb & Hwb) _ _ _ _ Hx _ _ Hww].
  destruct (write_spec wb src (zlen src) Hww) as (b' & E & Hc & Hwf & _ & _);
    [pose proof (zlen_nonneg src); lia|].
  unfold put_wbuf. repeat sock_step. simpl. repeat sock_step. exists b'.
  destruct (sock_at_wbuf _ _ _ _ _ _ _ _ _ _ _ _ Hat Hwf) as [Hat' Hfr']. done.
Qed.

(** [r] has been taken out of the read buffer and [o] put into the write buffer
    since [s0]. *)
Inductive sock_run s (s0 : sock_world * proc K) : list byte -> list byte -> sock_world * proc K -> Prop :=
| Sock_start : sock_run s s0 [] [] s0
| Sock_read r o st status st' :
    sock_run s s0 r o st -> buf_tcp_read handlers s st = Some (status, st') -> sock_run s s0 r o st'
| Sock_dread r o st status st' :
    sock_run s s0 r o st -> dbuf_tcp_read handlers 32 s st = Some (status, st') ->
    sock_run s s0 r o st'
| Sock_write r o st status st' :
    sock_run s s0 r o st -> buf_tcp_write handlers s st = Some (status, st') -> sock_run s s0 r o st'
| Sock_take r o st n bytes st' :
    sock_run s s0 r o st -> 0 <= n -> take_rbuf s n st = Some (bytes, st') ->
    sock_run s s0 (r ++ bytes) o st'
| Sock_put r o st src n st' :
    sock_run s s0 r o st -> put_wbuf s src st = Some (n, st') ->
    sock_run s s0 r (o ++ take (Z.to_nat n) src) st'.

Record sock_inv s h c q0 x w0 p0 tc0 d0 rb0 wb0 (r o : list byte) q w p tc d rb wb : Prop := {
  sv_at : sock_at s h c q x w p tc d rb wb;
  sv_frame : sock_frame s c q0 q x w0 p0 tc0 w p;
  sv_sd : tc_sd tc = tc_sd tc0;
  sv_in : content rb0 ++ d_in d0 = r ++ content rb ++ d_in d;
  sv_out : d_out d0 ++ content wb0 ++ o = d_out d ++ content wb;
  sv_size : buf_size rb < 2 ^ 31;
}.

Lemma sock_read_inv s h c q0 x w0 p0 tc0 d0 rb0 wb0 r o q w p tc d rb wb bs q' status w' p' :
  q0 ≠ x -> max_size (sdbuf w0) < 2 ^ 31 ->
  sock_inv s h c q0 x w0 p0 tc0 d0 rb0 wb0 r o q w p tc d rb wb ->
  read_post s h c q x w p tc d rb wb bs q' status w' p' ->
  exists tc' d' rb', sock_inv s h c q0 x w0 p0 tc0 d0 rb0 wb0 r o q' w' p' tc' d' rb' wb.
Proof.
  intros Hqx Hm [Hat Hfr Hsd Hin Hout Hsz]
    (d' & tc' & rb' & Hat' & Hfr' & Hsd' & Hi & Ho & Hc & Hz & _).
  exists tc', d', rb'. rewrite (sf_size _ _ _ _ _ _ _ _ _ _ Hfr) in Hz. split; try done.
  - by eapply sock_frame_trans.
  - congruence.
  - by rewrite Hin, Hi, Hc, <- app_assoc.
  - by rewrite Ho.
  - lia.
Qed.

Lemma sock_run_inv s h c q0 x w0 p0 tc0 d0 rb0 wb0 r o st :
  sock_at s h c q0 x w0 p0 tc0 d0 rb0 wb0 -> tcp_handler h p0 ->
  buf_size rb0 < 2 ^ 31 -> max_size (sdbuf w0) < 2 ^ 31 ->
  sock_run s (w0, p0) r o st ->
  exists q tc d rb wb, sock_inv s h c q0 x w0 p0 tc0 d0 rb0 wb0 r o q st.1 st.2 tc d rb wb.
Proof.
  intros Hat0 Hh Hsz Hm Hrun. pose proof (sa_ne _ _ _ _ _ _ _ _ _ _ _ Hat0) as Hqx.
  induction Hrun as [|r o [w p] status [w' p'] _ IH E|r o [w p] status [w' p'] _ IH E
    |r o [w p] status [w' p'] _ IH E|r o [w p] n bytes [w' p'] _ IH Hn E|r o [w p] src n [w' p'] _ IH E];
    [exists q0, tc0, d0, rb0, wb0; split; try done; [apply sock_frame_refl|by rewrite app_nil_r]|..];
    destruct IH as (q & tc & d & rb & wb & Hinv); simpl in Hinv; pose proof Hinv as [Hat Hfr Hsd Hin Hout Hs];
    (assert (Hh' : tcp_handler h p) by (eapply tcp_handler_mono; [done|apply Hfr])).
  - destruct (wp_det _ _ _ _ _ (buf_tcp_read_spec s h c q x w p tc d rb wb Hat Hh') E)
      as [(_ & _ & [= -> ->])|(_ & bs & Hp)]; [by exists q, tc, d, rb, wb|].
    destruct (sock_read_inv _ _ _ _ _ _ _ _ _ _ _ _ _ _ _ _ _ _ _ _ _ _ _ _ _ Hqx Hm Hinv Hp)
      as (tc' & d' & rb' & H). by exists q, tc', d', rb', wb.
  - destruct (wp_det _ _ _ _ _ (dbuf_tcp_read_spec s h c q x w p tc d rb wb Hat Hh' Hs
      ltac:(rewrite (sf_size _ _ _ _ _ _ _ _ _ _ Hfr); done)) E) as (q' & bs & Hp).
    destruct (sock_read_inv _ _ _ _ _ _ _ _ _ _ _ _ _ _ _ _ _ _ _ _ _ _ _ _ _ Hqx Hm Hinv Hp)
      as (tc' & d' & rb' & H). by exists q', tc', d', rb', wb.
  - destruct (wp_det _ _ _ _ _ (buf_tcp_write_spec s h c q x w p tc d rb wb Hat Hh') E)
      as [(_ & _ & [= -> ->])|(_ & bs & d' & tc' & wb' & Hat' & Hfr' & Hsd' & Hi & Ho & Hc & _)];
      [by exists q, tc, d, rb, wb|].
    exists q, tc', d', rb, wb'. split; try done; [by eapply sock_frame_trans|congruence|by rewrite Hi|].
    by rewrite Hout, Ho, Hc, <- app_assoc.
  - destruct (wp_det _ _ _ _ _ (take_rbuf_spec _ _ _ _ _ _ _ _ _ _ _ n Hat Hn) E)
      as (rb' & Hat' & Hfr' & Hc & Hz).
    exists q, tc, d, rb', wb. split; try done; [by eapply sock_frame_trans|simpl; by rewrite Hin, Hc, <- !app_assoc|].
    by rewrite Hz.
  - destruct (wp_det _ _ _ _ _ (put_wbuf_spec _ _ _ _ _ _ _ _ _ _ _ src Hat) E)
      as (wb' & Hat' & Hfr' & Hc).
    exists q, tc, d, rb, wb'. split; try done; [by eapply sock_frame_trans|].
    simpl. rewrite Hc, !app_assoc. rewrite !app_assoc in Hout. by rewrite Hout.
Qed.

End Stream.

(** ** Proofs about the resources of a socket *)

Section Resources.
Implicit Types (w : sock_world) (m : qmem) (s c q r b x : positive) (sk : buf_sock).

(** Only the connections and the buffers may differ. *)
Definition same_socks w w' : Prop :=
  socks w' = socks w /\ sockio_metrics w' = sockio_metrics w.

Lemma make_conn_spec w :
  exists o w', make_conn w = (o, w') /\ same_socks w w' /\ sdbuf w' = sdbuf w /\
    match o with
    | Some c => conns (stcp w) !! c = None /\ exists tc, conns (stcp w') = <[c := tc]> (conns (stcp w))
    | None => conns (stcp w') = conns (stcp w)
    end.
Proof.
  unfold make_conn, tcp_conn_create, next_conn.
  destruct (conn_answers (stcp w)) as [|[p|] rest]; [|case_decide as Hd|]; simpl;
    do 2 eexists; (split; [done|]); try done.
  split; [done|]. split; [done|]. split; [done|]. by eexists.
Qed.

Lemma make_buf_spec w :
  exists o w', make_buf w = (o, w') /\ same_socks w w' /\ stcp w' = stcp w /\
    match o with
    | Some q => sbufs w !! q = None /\ exists bf, sbufs w' = <[q := bf]> (sbufs w)
    | None => sbufs w' = sbufs w
    end.
Proof.
  unfold make_buf, buf_create, next_block, sbufs.
  destruct (answers (dworld (sdbuf w))) as [|[[p g]|] rest]; [|case_decide as Hd|]; simpl.
  - unfold cc_alloc. destruct (_ =? 0); do 2 eexists; (split; [done|]); done.
  - unfold cc_alloc. destruct (_ =? 0); simpl; do 2 eexists; (split; [done|]); [done|].
    split; [done|]. split; [done|]. split; [apply Hd|]. by eexists.
  - unfold cc_alloc. destruct (_ =? 0); do 2 eexists; (split; [done|]); done.
  - unfold cc_alloc. destruct (_ =? 0); do 2 eexists; (split; [done|]); done.
Qed.

Lemma drop_conn_spec c w tc :
  conns (stcp w) !! c = Some tc ->
  exists w', drop_conn (Some c) w = Some w' /\ same_socks w w' /\ sdbuf w' = sdbuf w /\
    conns (stcp w') = delete c (conns (stcp w)).
Proof. intros H. unfold drop_conn, tcp_conn_destroy. rewrite H. simpl. by eexists. Qed.

Lemma drop_buf_spec q w bf :
  sbufs w !! q = Some bf ->
  exists w', drop_buf (Some q) w = Some w' /\ same_socks w w' /\ stcp w' = stcp w /\
    sbufs w' = delete q (sbufs w).
Proof.
  intros H. unfold drop_buf, buf_destroy, buf_destroy_at, sbufs in *. rewrite H. simpl. by eexists.
Qed.

(** Without what the pointer [o] points at, if anything. *)
Definition without {A} (o : option positive) (mp : gmap positive A) : gmap positive A :=
  match o with Some x => delete x mp | None => mp end.

(** What the pointers of a socket point at is allocated, once. *)
Record parts_live w sk : Prop := {
  pl_ch : forall c, bs_ch sk = Some c -> is_Some (conns (stcp w) !! c);
  pl_rbuf : forall r, bs_rbuf sk = Some r -> is_Some (sbufs w !! r);
  pl_wbuf : forall b, bs_wbuf sk = Some b -> is_Some (sbufs w !! b) /\ bs_rbuf sk ≠ Some b;
}.

Lemma destroy_at_spec s w sk :
  socks w !! s = Some sk -> parts_live w sk ->
  exists w', buf_sock_destroy_at s w = Some w' /\ socks w' = delete s (socks w) /\
    conns (stcp w') = without (bs_ch sk) (conns (stcp w)) /\
    sbufs w' = without (bs_wbuf sk) (without (bs_rbuf sk) (sbufs w)) /\
    sockio_metrics w' = DECR (INCR (sockio_metrics w) "buf_sock_destroy") "buf_sock_curr".
Proof.
  intros Hs [Hc Hr Hb]. unfold buf_sock_destroy_at. rewrite Hs. simpl.
  assert (H1 : exists w1, drop_conn (bs_ch sk) w = Some w1 /\ same_socks w w1 /\
    sdbuf w1 = sdbuf w /\ conns (stcp w1) = without (bs_ch sk) (conns (stcp w))).
  { destruct (bs_ch sk) as [c|]; [|by exists w; destruct w].
    destruct (Hc c eq_refl) as [tc ?]. by apply (drop_conn_spec c w tc). }
  destruct H1 as (w1 & -> & [S1 M1] & D1 & C1). simpl.
  assert (B1 : sbufs w1 = sbufs w) by (unfold sbufs; by rewrite D1).
  assert (H2 : exists w2, drop_buf (bs_rbuf sk) w1 = Some w2 /\ same_socks w1 w2 /\
    stcp w2 = stcp w1 /\ sbufs w2 = without (bs_rbuf sk) (sbufs w)).
  { rewrite <- B1. destruct (bs_rbuf sk) as [r|]; [|by exists w1; destruct w1 as [? ? ? ? ? []]].
    destruct (Hr r eq_refl) as [bf Hbf]. apply (drop_buf_spec r w1 bf). by rewrite B1. }
  destruct H2 as (w2 & -> & [S2 M2] & T2 & B2). simpl.
  assert (H3 : exists w3, drop_buf (bs_wbuf sk) w2 = Some w3 /\ same_socks w2 w3 /\
    stcp w3 = stcp w2 /\ sbufs w3 = without (bs_wbuf sk) (sbufs w2)).
  { destruct (bs_wbuf sk) as [b|]; [|by exists w2; destruct w2 as [? ? ? ? ? []]].
    destruct (Hb b eq_refl) as [[bf Hbf] Hne]. apply (drop_buf_spec b w2 bf). rewrite B2.
    destruct (bs_rbuf sk) as [r|]; simpl; [|done]. by rewrite lookup_delete_ne by congruence. }
  destruct H3 as (w3 & -> & [S3 M3] & T3 & B3). simpl. eexists. split; [done|].
  split_and!; simpl; try congruence. unfold sbufs in *. simpl. congruence.
Qed.

(** What buf_sock_create does: everything or nothing. *)
Inductive created w : option positive -> sock_world -> Prop :=
| Created_none w' :
    socks w' = socks w -> conns (stcp w') = conns (stcp w) -> sbufs w' = sbufs w -> created w None w'
| Created_some s c r b flag dat tc rb wb w' :
    socks w !! s = None -> conns (stcp w) !! c = None -> sbufs w !! r = None ->
    sbufs w !! b = None -> r ≠ b ->
    socks w' = <[s := BufSock None false flag dat None (Some c) (Some r) (Some b)]> (socks w) ->
    conns (stcp w') = <[c := tc]> (conns (stcp w)) ->
    sbufs w' = <[b := wb]> (<[r := rb]> (sbufs w)) -> created w (Some s) w'.

(** Undoing a creation: destroying the fresh socket gives back what was there. *)
Lemma create_error_spec s w1 sk w0 :
  socks w1 = <[s := sk]> (socks w0) -> socks w0 !! s = None -> parts_live w1 sk ->
  without (bs_ch sk) (conns (stcp w1)) = conns (stcp w0) ->
  without (bs_wbuf sk) (without (bs_rbuf sk) (sbufs w1)) = sbufs w0 ->
  sockio_metrics w1 = sockio_metrics w0 ->
  exists w', create_error s w1 = Some w' /\ created w0 None w' /\
    (forall g, g ≠ "buf_sock_curr" -> g ≠ "buf_sock_create_ex" -> g ≠ "buf_sock_destroy" ->
       gauge_of (sockio_metrics w') g = gauge_of (sockio_metrics w0) g).
Proof.
  intros Hs Hn [P1 P2 P3] Hc Hb Hm.
  destruct (destroy_at_spec s (on_metrics (fun ms => INCR ms "buf_sock_create_ex") w1) sk)
    as (w' & E & Hs' & Hc' & Hb' & Hm').
  { simpl. by rewrite Hs, lookup_insert_eq. }
  { by split. }
  exists w'. split; [done|]. simpl in Hs', Hc'. split.
  - apply Created_none; [|congruence|unfold sbufs in *; simpl in *; congruence].
    by rewrite Hs', Hs, delete_insert_id.
  - intros g H1 H2 H3. rewrite Hm'. simpl. rewrite Hm. unfold DECR, INCR.
    rewrite gauge_decr_ne, !gauge_incr_ne by congruence. done.
Qed.

Lemma put_sock_insert w w' s sk f :
  socks w' = <[s := sk]> (socks w) -> socks (put_sock w' s f) = <[s := f sk]> (socks w).
Proof. intros H. simpl. by rewrite H, alter_insert_eq. Qed.

Lemma create_spec m w :
  exists o m' w', buf_sock_create m w = Some (o, (m', w')) /\ created w o w' /\
    gauge_of (sockio_metrics w') "buf_sock_active" = gauge_of (sockio_metrics w) "buf_sock_active" /\
    (forall h l, list_to_set l ⊆ dom (socks w) -> sq_repr m h l -> sq_repr m' h l).
Proof.
  unfold buf_sock_create.
  assert (Hnone : forall w', socks w' = socks w -> conns (stcp w') = conns (stcp w) ->
    sbufs w' = sbufs w -> sockio_metrics w' = sockio_metrics w ->
    exists o m' w2, Some (None, (m, on_metrics (fun ms => INCR ms "buf_sock_create_ex") w')) =
      Some (o, (m', w2)) /\ created w o w2 /\
      gauge_of (sockio_metrics w2) "buf_sock_active" = gauge_of (sockio_metrics w) "buf_sock_active" /\
      (forall h l, list_to_set l ⊆ dom (socks w) -> sq_repr m h l -> sq_repr m' h l)).
  { intros w' H1 H2 H3 H4. do 3 eexists. split; [done|]. split; [by apply Created_none|].
    split; [|done]. simpl. rewrite H4. unfold INCR. by rewrite gauge_incr_ne. }
  unfold next_sock. destruct (sock_answers w) as [|[[s [flag dat]]|] rest]; [by apply Hnone| |by apply Hnone].
  case_decide as Hs; [|by apply Hnone].
  set (w1 := SockWorld (socks w) rest (sockio_metrics w) (stcp w) (stcpq w) (sdbuf w)).
  assert (Hq : forall h l, list_to_set l ⊆ dom (socks w) -> sq_repr m h l ->
    sq_repr (sq_clear_next m s) h l).
  { intros h l Hsub Hl. apply sq_clear_next_repr; [done|].
    eapply live_not_elem; [|done]. by apply not_elem_of_dom. }
  assert (Hfail : forall w' sk, socks w' = <[s := sk]> (socks w) -> parts_live w' sk ->
    without (bs_ch sk) (conns (stcp w')) = conns (stcp w) ->
    without (bs_wbuf sk) (without (bs_rbuf sk) (sbufs w')) = sbufs w ->
    sockio_metrics w' = sockio_metrics w ->
    exists o m' w2, (w0 ← create_error s w'; Some (None, (sq_clear_next m s, w0))) = Some (o, (m', w2)) /\
      created w o w2 /\
      gauge_of (sockio_metrics w2) "buf_sock_active" = gauge_of (sockio_metrics w) "buf_sock_active" /\
      (forall h l, list_to_set l ⊆ dom (socks w) -> sq_repr m h l -> sq_repr m' h l)).
  { intros w' sk H1 H2 H3 H4 H5.
    destruct (create_error_spec s w' sk w) as (w2 & -> & Hcr & Hg); try done. simpl.
    do 3 eexists. split; [done|]. split; [done|]. split; [by apply Hg|done]. }
  match goal with |- context [make_conn ?w0] => set (w2 := w0) end.
  destruct (make_conn_spec w2) as (oc & w3 & -> & [S3 M3] & D3 & C3).
  pose proof (put_sock_insert w w3 s _ (set_ch oc) S3) as S3'.
  assert (B3 : sbufs w3 = sbufs w) by (unfold sbufs; by rewrite D3).
  destruct oc as [c|]; cycle 1.
  { apply (Hfail _ _ S3'); try done. }
  destruct C3 as (Cn & tc & C3).
  destruct (make_buf_spec (put_sock w3 s (set_ch (Some c)))) as (or & w4 & -> & [S4 M4] & T4 & B4).
  rewrite S3' in S4. pose proof (put_sock_insert w w4 s _ (set_rbuf or) S4) as S4'.
  assert (Cd : delete c (conns (stcp w4)) = conns (stcp w)).
  { rewrite T4. simpl. rewrite C3. by apply delete_insert_id. }
  assert (Cl : is_Some (conns (stcp w4) !! c)) by (rewrite T4; simpl; rewrite C3, lookup_insert_eq; done).
  change (sbufs (put_sock w3 s (set_ch (Some c)))) with (sbufs w3) in B4. rewrite B3 in B4.
  destruct or as [r|]; cycle 1.
  { apply (Hfail _ _ S4'); try done; [|by simpl; rewrite M4; simpl; rewrite M3].
    split; simpl; try done. by intros c' [= <-]. }
  destruct B4 as (Rn & rb & B4).
  destruct (make_buf_spec (put_sock w4 s (set_rbuf (Some r)))) as (ob & w5 & -> & [S5 M5] & T5 & B5).
  rewrite S4' in S5. pose proof (put_sock_insert w w5 s _ (set_wbuf ob) S5) as S5'.
  change (sbufs (put_sock w4 s (set_rbuf (Some r)))) with (sbufs w4) in B5. rewrite B4 in B5.
  assert (Hm5 : sockio_metrics w5 = sockio_metrics w) by (by rewrite M5; simpl; rewrite M4; simpl; rewrite M3).
  destruct ob as [b|]; cycle 1.
  { apply (Hfail _ _ S5'); try done; simpl; [|by rewrite T5|].
    - split; simpl; [by intros c' [= <-]; rewrite T5| |done].
      intros r' [= <-]. unfold sbufs in *. simpl in *. rewrite B5. by rewrite lookup_insert_eq.
    - unfold sbufs in *. simpl in *. rewrite B5. by apply delete_insert_id. }
  destruct B5 as (Bn & wb & B5). rewrite lookup_insert_None in Bn. destruct Bn as [Bn Hne].
  do 3 eexists. split; [done|]. split; [|split; [|done]].
  - eapply (Created_some w s c r b flag dat tc rb wb); try done. simpl. rewrite T5. simpl. rewrite T4. done.
  - simpl. rewrite Hm5. unfold INCR. by rewrite !gauge_incr_ne.
Qed.

Lemma exists_insert {A} (mp : gmap positive A) s o (P : A -> Prop) :
  mp !! s = None ->
  (exists t y, <[s := o]> mp !! t = Some y /\ P y) <-> P o \/ exists t y, mp !! t = Some y /\ P y.
Proof.
  intros Hs. split.
  - intros (t & y & [[<- <-]|[_ Ht]]%lookup_insert_Some & HP); eauto.
  - intros [HP|(t & y & Ht & HP)]; [exists s, o; by rewrite lookup_insert_eq|].
    exists t, y. split; [|done]. rewrite lookup_insert_ne; [done|congruence].
Qed.

(** Ownership: every socket has a connection and two buffers of its own; beside
    those, the connections [C] and the buffers [B] of others are all there is. *)
Record owned (C B : gset positive) w : Prop := {
  ow_parts : forall s sk, socks w !! s = Some sk -> exists c r b,
    bs_ch sk = Some c /\ bs_rbuf sk = Some r /\ bs_wbuf sk = Some b /\ r ≠ b /\
    c ∉ C /\ r ∉ B /\ b ∉ B;
  ow_conns : forall c, is_Some (conns (stcp w) !! c) <->
    c ∈ C \/ exists s sk, socks w !! s = Some sk /\ bs_ch sk = Some c;
  ow_bufs : forall q, is_Some (sbufs w !! q) <->
    q ∈ B \/ exists s sk, socks w !! s = Some sk /\ (bs_rbuf sk = Some q \/ bs_wbuf sk = Some q);
  ow_inj : forall s1 s2 sk1 sk2, socks w !! s1 = Some sk1 -> socks w !! s2 = Some sk2 -> s1 ≠ s2 ->
    bs_ch sk1 ≠ bs_ch sk2 /\
    forall q, bs_rbuf sk1 = Some q \/ bs_wbuf sk1 = Some q ->
      ~ (bs_rbuf sk2 = Some q \/ bs_wbuf sk2 = Some q);
}.

Lemma owned_live C B w s sk : owned C B w -> socks w !! s = Some sk -> parts_live w sk.
Proof.
  intros [H1 H2 H3 _] Hs. destruct (H1 s sk Hs) as (c & r & b & E1 & E2 & E3 & Hne & _).
  split.
  - intros c' Hc. apply H2. right. eauto.
  - intros r' Hr. apply H3. right. eauto 6.
  - intros b' Hb. split; [apply H3; right; eauto 6|]. congruence.
Qed.

Lemma owned_start w : socks w = ∅ -> owned (dom (conns (stcp w))) (dom (sbufs w)) w.
Proof.
  intros E. split; rewrite ?E; try (by intros; simplify_map_eq).
  - intros c. rewrite <- elem_of_dom. split; [by left|]. intros [|(s & sk & H & _)]; [done|].
    by rewrite lookup_empty in H.
  - intros c. rewrite <- elem_of_dom. split; [by left|]. intros [|(s & sk & H & _)]; [done|].
    by rewrite lookup_empty in H.
Qed.

(** With no socket left, only what belongs to others is. *)
Lemma owned_end C B w :
  owned C B w -> socks w = ∅ -> dom (conns (stcp w)) = C /\ dom (sbufs w) = B.
Proof.
  intros [_ H2 H3 _] E. rewrite E in *. split; apply set_eq; intros y; rewrite elem_of_dom.
  - rewrite H2. split; [|by left]. intros [|(s & sk & H & _)]; [done|]. by rewrite lookup_empty in H.
  - rewrite H3. split; [|by left]. intros [|(s & sk & H & _)]; [done|]. by rewrite lookup_empty in H.
Qed.

Lemma created_owned C B w o w' : created w o w' -> owned C B w -> owned C B w'.
Proof.
  intros Hc [H1 H2 H3 H4].
  destruct Hc as [w' E1 E2 E3|s c r b flag dat tc rb wb w' Hs Hc Hr Hb Hne E1 E2 E3].
  { split; rewrite ?E1, ?E2, ?E3; done. }
  assert (HnC : c ∉ C). { intros Hin. destruct (proj2 (H2 c) (or_introl Hin)). congruence. }
  assert (HnB : forall q, sbufs w !! q = None -> q ∉ B).
  { intros q Hq Hin. destruct (proj2 (H3 q) (or_introl Hin)). congruence. }
  assert (Hco : forall t sk, socks w !! t = Some sk -> bs_ch sk ≠ Some c).
  { intros t sk Ht Hch. destruct (proj2 (H2 c)); [right; eauto|congruence]. }
  assert (Hbo : forall t sk q, socks w !! t = Some sk -> sbufs w !! q = None ->
    ~ (bs_rbuf sk = Some q \/ bs_wbuf sk = Some q)).
  { intros t sk q Ht Hq Hor. destruct (proj2 (H3 q)); [right; eauto|congruence]. }
  split; rewrite E1.
  - intros t sk [[<- <-]|[Hne' Ht]]%lookup_insert_Some; [|by apply H1 in Ht].
    exists c, r, b. simpl. split_and!; auto.
  - intros y. rewrite E2, lookup_insert_is_Some', H2, exists_insert by done. simpl.
    intuition congruence.
  - intros y. rewrite E3, !lookup_insert_is_Some', H3, exists_insert by done. simpl.
    intuition congruence.
  - intros s1 s2 sk1 sk2 [[<- <-]|[N1 L1]]%lookup_insert_Some [[<- <-]|[N2 L2]]%lookup_insert_Some Hs12;
      simpl; try done.
    + split; [by intros E; apply (Hco _ _ L2)|].
      intros q [[= <-]|[= <-]]; by apply (Hbo s2).
    + split; [by apply (Hco _ _ L1)|].
      intros q Hor [[= <-]|[= <-]]; by apply (Hbo s1 sk1 _ L1) in Hor.
    + by apply (H4 s1 s2).
Qed.

(** Destroying a socket gives back exactly its parts. *)
Lemma destroy_defined C B w s sk :
  owned C B w -> socks w !! s = Some sk ->
  exists w', buf_sock_destroy_at s w = Some w' /\ owned C B w' /\ socks w' = delete s (socks w).
Proof.
  intros Hown Hs. destruct (destroy_at_spec s w sk Hs (owned_live _ _ _ _ _ Hown Hs))
    as (w' & E & E1 & E2 & E3 & _).
  exists w'. split; [done|]. split; [|done]. destruct Hown as [H1 H2 H3 H4].
  destruct (H1 s sk Hs) as (c & r & b & P1 & P2 & P3 & Hne & NC & NR & NB).
  rewrite P1 in E2. rewrite P2, P3 in E3. simpl in E2, E3.
  rewrite <- (insert_delete_id (socks w) s sk Hs) in H2, H3.
  split; rewrite E1.
  - intros t sk' [_ Ht]%lookup_delete_Some. by apply (H1 t).
  - intros y. rewrite E2, lookup_delete_is_Some, H2, exists_insert by apply lookup_delete_eq.
    rewrite P1. split; [intuition congruence|]. intros Hy. split; [|tauto].
    intros ->. destruct Hy as [|(t & sk' & [Hne' Ht]%lookup_delete_Some & Hch)]; [done|].
    destruct (H4 s t sk sk') as [Hd _]; [done..|]. congruence.
  - intros y. rewrite E3, !lookup_delete_is_Some, H3, exists_insert by apply lookup_delete_eq.
    rewrite P2, P3. split; [intuition congruence|]. intros Hy.
    assert (Hyb : y ≠ b /\ y ≠ r).
    { destruct Hy as [|(t & sk' & [Hne' Ht]%lookup_delete_Some & Hor)]; [by split; intros ->|].
      destruct (H4 s t sk sk') as [_ Hd]; [done..|].
      split; intros ->; [apply (Hd b)|apply (Hd r)]; auto. }
    destruct Hyb. split_and!; [done..|]. tauto.
  - intros s1 s2 sk1 sk2 [_ L1]%lookup_delete_Some [_ L2]%lookup_delete_Some. by apply H4.
Qed.

(** The fields of a socket that say what it owns. *)
Definition parts sk : option positive * option positive * option positive :=
  (bs_ch sk, bs_rbuf sk, bs_wbuf sk).

Lemma owned_same C B w w' :
  (forall s, parts <$> socks w' !! s = parts <$> socks w !! s) ->
  (forall c, is_Some (conns (stcp w') !! c) <-> is_Some (conns (stcp w) !! c)) ->
  (forall q, is_Some (sbufs w' !! q) <-> is_Some (sbufs w !! q)) ->
  owned C B w -> owned C B w'.
Proof.
  intros Hp Hc Hb [H1 H2 H3 H4].
  assert (Hget : forall s sk', socks w' !! s = Some sk' -> exists sk, socks w !! s = Some sk /\
    bs_ch sk = bs_ch sk' /\ bs_rbuf sk = bs_rbuf sk' /\ bs_wbuf sk = bs_wbuf sk').
  { intros s sk' Hs. specialize (Hp s). rewrite Hs in Hp. unfold parts in Hp.
    destruct (socks w !! s) as [sk|]; simpl in Hp; simplify_eq. eauto. }
  assert (Hput : forall s sk, socks w !! s = Some sk -> exists sk', socks w' !! s = Some sk' /\
    bs_ch sk = bs_ch sk' /\ bs_rbuf sk = bs_rbuf sk' /\ bs_wbuf sk = bs_wbuf sk').
  { intros s sk Hs. specialize (Hp s). rewrite Hs in Hp. unfold parts in Hp.
    destruct (socks w' !! s) as [sk'|]; simpl in Hp; simplify_eq. eauto. }
  split.
  - intros s sk' (sk & Hs & <- & <- & <-)%Hget. eauto.
  - intros c. rewrite Hc, H2. split; (intros [|(s & sk & Hs & E)]; [by left|right]).
    + destruct (Hput s sk Hs) as (sk' & ? & ? & _). exists s, sk'. split; [done|congruence].
    + destruct (Hget s sk Hs) as (sk' & ? & ? & _). exists s, sk'. split; [done|congruence].
  - intros q. rewrite Hb, H3. split; (intros [|(s & sk & Hs & E)]; [by left|right]).
    + destruct (Hput s sk Hs) as (sk' & ? & _ & E1 & E2). exists s, sk'. by rewrite <- E1, <- E2.
    + destruct (Hget s sk Hs) as (sk' & ? & _ & E1 & E2). exists s, sk'. by rewrite E1, E2.
  - intros s1 s2 sk1 sk2 (k1 & L1 & <- & <- & <-)%Hget (k2 & L2 & <- & <- & <-)%Hget. by apply H4.
Qed.

End Resources.

#[export] Instance sock_pool_client_laws : PoolClientLaws qmem sock_world.
Proof.
  unshelve econstructor; [exact (fun w X => dom (socks w) = X)|..]; simpl.
  - intros m w r m' w' h l X. destruct (create_spec m w) as (o & m1 & w1 & -> & _ & _ & Hq). simpl.
    intros [= <- <- <-] <-. apply Hq.
  - intros m w e m' w' X. destruct (create_spec m w) as (o & m1 & w1 & -> & Hc & _ & _). simpl.
    intros [= -> <- <-] <-. inversion Hc as [|? c r b flag dat tc rb wb ? Hs ? ? ? ? E1]; subst.
    split; [by apply not_elem_of_dom|]. by rewrite E1, dom_insert_L.
  - intros m w m' w' X. destruct (create_spec m w) as (o & m1 & w1 & -> & Hc & _ & _). simpl.
    intros [= -> <- <-] <-. inversion Hc as [? E1|]; subst. by rewrite E1.
  - intros e m w m' w' h l [= <- <-]. done.
  - intros e m w m' w' X [= <- <-] <- _. unfold buf_sock_destroy_at.
    destruct (socks w !! e) as [sk|]; simpl; [|by rewrite dom_delete_L].
    unfold drop_conn. destruct (tcp_conn_destroy _ _) as [[o t]|]; simpl; [|by rewrite dom_delete_L].
    unfold drop_buf at 2. destruct (buf_destroy _ _) as [[o' t']|]; simpl; [|by rewrite dom_delete_L].
    unfold drop_buf. destruct (buf_destroy _ _) as [[o'' t'']|]; simpl; by rewrite dom_delete_L.
Defined.

Lemma sock_live (w : sock_world) (X : gset positive) : pc_live (M := qmem) w X <-> dom (socks w) = X.
Proof. done. Qed.

Definition sock_active (w : sock_world) : option Z := gauge_of (sockio_metrics w) "buf_sock_active".

Section Pool.
Context (C B : gset positive).
Implicit Types (s : sockio_module) (x : positive) (used : list positive) (w : sock_world).

Abbreviation sock_minv := (minv socks bs_free sock_active (owned C B)).

Lemma sock_create_spec m w r m' w' :
  pc_create m w = (r, (m', w')) ->
  (owned C B w -> owned C B w') /\ sock_active w' = sock_active w /\
  (forall x o, socks w !! x = Some o -> socks w' !! x = Some o).
Proof using Type.
  simpl. destruct (create_spec m w) as (o & m1 & w1 & -> & Hc & Ha & _). simpl. intros [= <- <- <-].
  split; [by eapply created_owned|]. split; [done|].
  intros x sk Hx. destruct Hc as [w1 E1|s c r b flag dat tc rb wb w1 Hs ? ? ? ? E1]; rewrite E1; [done|].
  rewrite lookup_insert_ne; [done|congruence].
Qed.

(** A socket as buf_sock_borrow hands it out. *)
Definition fresh_sock w x : Prop :=
  exists c r b tc rb wb, socks w !! x = Some (BufSock None false 0 None None (Some c) (Some r) (Some b)) /\
    conns (stcp w) !! c = Some tc /\ tc = tcp_conn_reset tc /\
    sbufs w !! r = Some rb /\ content rb = [] /\ bfree rb = false /\
    sbufs w !! b = Some wb /\ content wb = [] /\ bfree wb = false.

Lemma reset_spec x (p : pstate qmem sock_world) sk :
  socks (world p) !! x = Some sk -> owned C B (world p) ->
  exists w', buf_sock_reset x p = Some (PState (sq_clear_next (mem p) x) (ctl p) w') /\
    socks w' = alter reset_sock x (socks (world p)) /\ owned C B w' /\
    sockio_metrics w' = sockio_metrics (world p) /\ fresh_sock w' x.
Proof using Type.
  intros Hs Hown. pose proof (owned_live _ _ _ _ _ Hown Hs) as [L1 L2 L3].
  destruct (ow_parts _ _ _ Hown x sk Hs) as (c & r & b & P1 & P2 & P3 & Hne & _).
  destruct (L1 c P1) as [tc Hc]. destruct (L2 r P2) as [rb Hr]. destruct (L3 b P3) as [[wb Hb] _].
  unfold buf_sock_reset, reset_conn, reset_buf, sbufs in *. rewrite Hs. simpl. rewrite P1, P2, P3.
  simpl. rewrite Hc. simpl. rewrite Hr. simpl. rewrite lookup_insert_ne, Hb by done. simpl.
  eexists. split; [done|]. split; [done|]. split; [|split; [done|]].
  - eapply owned_same; [..|exact Hown]; unfold sbufs; simpl.
    + intros t. destruct (decide (t = x)) as [->|].
      * rewrite lookup_alter_eq. by destruct (socks (world p) !! x).
      * by rewrite lookup_alter_ne.
    + intros t. rewrite lookup_insert_is_Some'. split; [intros [<-|?]; [by rewrite Hc|done]|by right].
    + intros t. rewrite !lookup_insert_is_Some'.
      split; [intros [<-|[<-|?]]; [by rewrite Hb|by rewrite Hr|done]|tauto].
  - exists c, r, b. do 3 eexists. simpl. split_and!.
    + rewrite lookup_alter_eq, Hs. simpl. unfold reset_sock. by rewrite P1, P2, P3.
    + by rewrite lookup_insert_eq.
    + done.
    + unfold sbufs. simpl. by rewrite lookup_insert_ne, lookup_insert_eq by done.
    + done.
    + done.
    + unfold sbufs. simpl. by rewrite lookup_insert_eq.
    + done.
    + done.
Qed.

Lemma owned_metrics f w : owned C B w -> owned C B (on_metrics f w).
Proof using Type. by apply owned_same. Qed.

Lemma sock_borrow_inv s used :
  sock_minv (bsp s) used ->
  exists r s', buf_sock_borrow s = Some (r, s') /\ bsp_init s' = bsp_init s /\
    match r with
    | Some x => x ∉ used /\ sock_minv (bsp s') (x :: used) /\ fresh_sock (world (bsp s')) x
    | None => nfree (ctl (bsp s)) = 0 /\ sock_minv (bsp s') used
    end.
Proof using Type.
  intros Hi. destruct (minv_borrow socks bs_free sock_active (owned C B) sock_live
    sock_create_spec (bsp s) used Hi) as (r & p & E & Hr).
  unfold buf_sock_borrow. rewrite E. simpl. destruct r as [x|].
  - destruct Hr as (Hx & [sk Hsk] & HP & Ha & Hinv).
    destruct (reset_spec x p sk Hsk HP) as (w' & -> & Hs' & Hown & Hm & Hf). simpl.
    do 2 eexists. split; [done|]. split; [done|]. split; [done|]. split; [|done].
    apply (Hinv _ reset_sock); try done; [by apply owned_metrics|].
    unfold sock_active in *. simpl. rewrite Hm. eapply eq_trans; [gauge|]. by rewrite i64_add_l.
  - destruct Hr as (Hn & HP & Ha & Hinv). do 2 eexists. split; [done|]. split; [done|]. split; [done|].
    apply Hinv; try done; [by apply owned_metrics|]. unfold sock_active in *. simpl. gauge.
Qed.

Lemma sock_return_inv s used x :
  sock_minv (bsp s) used -> x ∈ used ->
  exists s', buf_sock_return (Some (Some x)) s = Some (Some None, s') /\
    sock_minv (bsp s') (filter (fun y => y ≠ x) used) /\ bsp_init s' = bsp_init s /\
    buf_sock_return (Some (Some x)) s' = Some (Some (Some x), s').
Proof using Type.
  intros Hi Hx. destruct (mi_busy _ _ _ _ _ _ Hi x Hx) as (sk & Hl & Hf).
  unfold buf_sock_return at 1. rewrite Hl. simpl. rewrite Hf.
  destruct (minv_return socks bs_free sock_active (owned C B) sock_live (bsp s) used x
    (set_sfree true) (put_sock (world (bsp s)) x (set_sfree true)) Hi Hx eq_refl) as [_ Hinv].
  destruct Hi as [_ HP Ha _]. eexists. split; [done|]. split; [|split; [done|]].
  - apply Hinv; [done|..].
    + apply owned_metrics. eapply owned_same; [..|exact HP]; try done. intros t. simpl.
      destruct (decide (t = x)) as [->|]; [|by rewrite lookup_alter_ne].
      rewrite lookup_alter_eq. by destruct (socks (world (bsp s)) !! x).
    + unfold sock_active in *. simpl. eapply eq_trans; [gauge|]. by rewrite i64_sub_l.
  - unfold buf_sock_return. simpl. by rewrite lookup_alter_eq, Hl.
Qed.

(** What the holder of a socket may do to it: set its fields, but for the flag
    [free], the channel and the write buffer; change the connection and the
    buffers; have the read buffer reallocated. *)
Definition uses x w w' : Prop :=
  exists sk sk' q q', socks w !! x = Some sk /\ socks w' = <[x := sk']> (socks w) /\
    bs_free sk' = bs_free sk /\ bs_ch sk' = bs_ch sk /\ bs_wbuf sk' = bs_wbuf sk /\
    bs_rbuf sk = Some q /\ bs_rbuf sk' = Some q' /\ (q' = q \/ sbufs w !! q' = None) /\
    (forall c, is_Some (conns (stcp w') !! c) <-> is_Some (conns (stcp w) !! c)) /\
    (forall t, is_Some (sbufs w' !! t) <-> t = q' \/ t ≠ q /\ is_Some (sbufs w !! t)) /\
    sock_active w' = sock_active w.

Lemma uses_owned x w w' : uses x w w' -> owned C B w -> owned C B w'.
Proof using Type.
  intros (sk & sk' & q & q' & Hx & Es & _ & Ech & Ewb & Eq & Eq' & Hfresh & Hc & Hb & _) Hown.
  pose proof (owned_live _ _ _ _ _ Hown Hx) as [_ _ L3].
  destruct Hown as [H1 H2 H3 H4].
  destruct (H1 x sk Hx) as (c & r & b & P1 & P2 & P3 & Hne & NC & NR & NB).
  assert (r = q) as -> by congruence.
  assert (Hq'b : q' ≠ b) by (intros ->; destruct Hfresh as [|Hn]; [done|]; destruct (L3 b P3) as [[? ?] _]; congruence).
  assert (Hq'o : forall t skt y, socks w !! t = Some skt -> t ≠ x -> bs_rbuf skt = Some y \/ bs_wbuf skt = Some y -> y ≠ q').
  { intros t skt y Ht Htx Hor ->. destruct Hfresh as [->|Hn].
    - destruct (H4 t x skt sk) as [_ Hd]; [done..|]. apply (Hd q); auto.
    - destruct (proj2 (H3 q')) as [? ?]; [right; eauto|congruence]. }
  assert (HqB : q' ∉ B).
  { intros Hin. destruct Hfresh as [->|Hn]; [done|]. destruct (proj2 (H3 q')) as [? ?]; [by left|congruence]. }
  assert (Hqo : forall t skt y, delete x (socks w) !! t = Some skt ->
    bs_rbuf skt = Some y \/ bs_wbuf skt = Some y -> y ≠ q).
  { intros t skt y [Htx Ht]%lookup_delete_Some Hor ->.
    destruct (H4 t x skt sk) as [_ Hd]; [done..|]. apply (Hd q); auto. }
  rewrite <- (insert_delete_id (socks w) x sk Hx) in H2, H3.
  split; rewrite Es.
  - intros t skt [[<- <-]|[Htx Ht]]%lookup_insert_Some; [|by apply (H1 t)].
    exists c, q', b. split_and!; congruence.
  - intros y. rewrite Hc, H2, <- (insert_delete_eq (socks w)), !exists_insert by apply lookup_delete_eq.
    by rewrite Ech.
  - intros y. rewrite Hb, H3, <- (insert_delete_eq (socks w)), !exists_insert by apply lookup_delete_eq.
    rewrite Ewb, Eq, Eq', P3. split; [intuition congruence|].
    intros [Hy|[[[= ->]|[= ->]]|(t & skt & Ht & Hor)]]; [right| by left|right|right].
    + split; [congruence|auto].
    + split; [congruence|auto].
    + split; [by eapply Hqo|]. right; right. eauto.
  - intros s1 s2 sk1 sk2 [[<- <-]|[N1 L1]]%lookup_insert_Some [[<- <-]|[N2 L2]]%lookup_insert_Some Hs12;
      try done.
    + rewrite Ech, Ewb, Eq'. destruct (H4 x s2 sk sk2) as [Ha Hd]; [done..|]. split; [done|].
      intros y [[= <-]|Hy] Hor; [by apply (Hq'o s2 sk2 q' L2) in Hor|]. apply (Hd y); auto.
    + rewrite Ech, Ewb, Eq'. destruct (H4 s1 x sk1 sk) as [Ha Hd]; [done..|]. split; [done|].
      intros y Hor [[= <-]|Hy]; [by apply (Hq'o s1 sk1 q' L1) in Hor|]. apply (Hd y); auto.
    + by apply (H4 s1 s2).
Qed.

(** Borrow, use what was borrowed, return. *)
Inductive sock_hist s0 : sockio_module -> list positive -> Prop :=
| Hist_start : sock_hist s0 s0 []
| Hist_borrow s used r s' :
    sock_hist s0 s used -> buf_sock_borrow s = Some (r, s') ->
    sock_hist s0 s' (match r with Some x => x :: used | None => used end)
| Hist_use s used x w' :
    sock_hist s0 s used -> x ∈ used -> uses x (world (bsp s)) w' ->
    sock_hist s0 (upd_world s (fun _ => w')) used
| Hist_return s used x c s' :
    sock_hist s0 s used -> x ∈ used -> buf_sock_return (Some (Some x)) s = Some (c, s') ->
    sock_hist s0 s' (filter (fun y => y ≠ x) used).

Lemma sock_hist_inv s0 s used :
  sock_minv (bsp s0) [] -> sock_hist s0 s used ->
  sock_minv (bsp s) used /\ bsp_init s = bsp_init s0.
Proof using Type.
  intros H0. induction 1 as [|s used r s' _ [IH IHi] E|s used x w' _ [IH IHi] Hx Hu|
    s used x c s' _ [IH IHi] Hx E].
  - done.
  - destruct (sock_borrow_inv s used IH) as (r' & s1 & E1 & Hbi & Hr). rewrite E1 in E. simplify_eq.
    destruct r; (split; [apply Hr|congruence]).
  - split; [|done]. pose proof (uses_owned _ _ _ Hu (mi_extra _ _ _ _ _ _ IH)) as Hown.
    destruct Hu as (sk & sk' & q & q' & Hl & Es & Hf & _ & _ & _ & _ & _ & _ & _ & Ha).
    apply (minv_edit socks bs_free sock_active (owned C B) sock_live (bsp s) used x
      (fun o => set_sfree (bs_free o) sk')); try done.
    rewrite Es. apply map_eq. intros t. destruct (decide (t = x)) as [->|].
    + rewrite lookup_insert_eq, lookup_alter_eq, Hl. simpl. rewrite <- Hf. by destruct sk'.
    + by rewrite lookup_insert_ne, lookup_alter_ne.
  - destruct (sock_return_inv s used x IH Hx) as (s1 & E1 & Hi & Hcp & _). rewrite E1 in E.
    simplify_eq. split; [done|congruence].
Qed.

Lemma sock_teardown_inv fuel s :
  sock_minv (bsp s) [] -> bsp_init s = true -> (size (socks (world (bsp s))) <= fuel)%nat ->
  exists s', sockio_teardown fuel s = Some s' /\ socks (world (bsp s')) = ∅ /\
    owned C B (world (bsp s')).
Proof using Type.
  intros Hs Hi Hf. unfold sockio_teardown, buf_sock_pool_destroy. rewrite Hi. simpl.
  destruct (minv_destroy socks bs_free sock_active (owned C B) sock_live fuel (bsp s) Hs Hf)
    as (p & E & Hd). rewrite E. simpl. eexists. split; [done|]. split; [done|]. simpl.
  refine (destroy_world fuel (bsp s) p (owned C B) _ E (mi_extra _ _ _ _ _ _ Hs)).
  intros x m w m' w' [= <- <-] Hown. destruct (socks w !! x) as [sk|] eqn:Ex.
  - destruct (destroy_defined C B w x sk Hown Ex) as (w2 & -> & H & _). done.
  - unfold buf_sock_destroy_at. rewrite Ex. simpl. eapply owned_same; [..|exact Hown]; try done.
    intros t. simpl. destruct (decide (t = x)) as [->|]; [by rewrite lookup_delete_eq, Ex|].
    by rewrite lookup_delete_ne.
Qed.

End Pool.

(** Reading and writing are such uses. *)
Lemma frame_uses {K : Type} `{!Kernel K} `{!KernelLaws K} s h c q q' x w tc d rb wb
    w' (p p' : proc K) tc' d' rb' wb' :
  sock_at s h c q x w p tc d rb wb -> sock_at s h c q' x w' p' tc' d' rb' wb' ->
  sock_frame s c q q' x w p tc w' p' -> uses s w w'.
Proof.
  intros [(sk & Hsk & Hch & _ & Hrb & Hwb) Hc _ _ Hq Hx Hne _ _]
    [(sk' & Hsk' & Hch' & _ & Hrb' & Hwb') Hc' _ _ Hq' Hx' Hne' _ _]
    [F1 F2 _ F4 F5 _ _ F8 F9].
  exists sk, sk', q, q'. rewrite Hsk, Hsk' in F8. simpl in F8. split; [done|]. split_and!; try congruence.
  - apply map_eq. intros t. destruct (decide (t = s)) as [->|].
    + by rewrite lookup_insert_eq.
    + rewrite lookup_insert_ne by done. by apply F1.
  - destruct F5 as [|[? _]]; auto.
  - intros t. destruct (decide (t = c)) as [->|]; [by rewrite Hc, Hc'|]. by rewrite F2.
  - intros t. destruct (decide (t = q')) as [->|Htq']; [rewrite Hq'; naive_solver|].
    destruct (decide (t = x)) as [->|Htx]; [rewrite Hx', Hx; naive_solver|].
    destruct (decide (t = q)) as [->|Htq].
    + destruct F5 as [|[_ F5]]; [done|]. rewrite F5. split; [by intros []|]. intros [|[]]; done.
    + rewrite F4 by done. naive_solver.
  - unfold sock_active. by rewrite F9.
Qed.

(** ** Properties *)

(** C10: a buffered socket is a pair of reliable byte queues between its
    client and the peer.  After any sequence of buf_tcp_read, dbuf_tcp_read and
    buf_tcp_write on the socket, of buf_read from its read buffer and buf_write to
    its write buffer: the bytes that were to come are, in order, those the client
    has taken, those in the read buffer and those still to be received; the bytes
    the socket sent followed by those in the write buffer are the ones the client
    has put in, in order; no byte is lost when dbuf_tcp_read reallocates the read
    buffer; every other socket, connection, descriptor and buffer is untouched;
    and the next read or write is defined and returns, the loop of dbuf_tcp_read
    within 32 rounds. *)
Theorem sock_stream {K : Type} `{!Kernel K} `{!KernelLaws K}
    (handlers : Z -> channel_handler (tcp_world * proc K) positive addrinfo)
    (s c q0 x : positive) (h : Z) (w0 : sock_world) (p0 : proc K) (tc0 : tcp_conn) (d0 : desc)
    (rb0 wb0 : buf) (r o : list byte) (w : sock_world) (p : proc K) :
  sock_at s h c q0 x w0 p0 tc0 d0 rb0 wb0 -> tcp_handler handlers h p0 ->
  buf_size rb0 < 2 ^ 31 -> max_size (sdbuf w0) < 2 ^ 31 ->
  sock_run handlers s (w0, p0) r o (w, p) ->
  exists q tc d rb wb, sock_at s h c q x w p tc d rb wb /\
    content rb0 ++ d_in d0 = r ++ content rb ++ d_in d /\
    d_out d0 ++ content wb0 ++ o = d_out d ++ content wb /\
    sock_frame s c q0 q x w0 p0 tc0 w p /\ uses s w0 w /\
    is_Some (buf_tcp_read handlers s (w, p)) /\ is_Some (dbuf_tcp_read handlers 32 s (w, p)) /\
    is_Some (buf_tcp_write handlers s (w, p)).
Proof.
  intros Hat Hh Hsz Hm Hrun.
  destruct (sock_run_inv handlers s h c q0 x w0 p0 tc0 d0 rb0 wb0 r o (w, p) Hat Hh Hsz Hm Hrun)
    as (q & tc & d & rb & wb & [Hat' Hfr Hsd Hin Hout Hs]). simpl in *.
  assert (Hh' : tcp_handler handlers h p) by (eapply tcp_handler_mono; [done|apply Hfr]).
  exists q, tc, d, rb, wb. do 4 (split; [done|]). split; [by eapply frame_uses|]. split_and!.
  - destruct (buf_tcp_read_spec handlers s h c q x w p tc d rb wb Hat' Hh') as (? & ? & -> & _). done.
  - destruct (dbuf_tcp_read_spec handlers s h c q x w p tc d rb wb Hat' Hh' Hs) as (? & ? & -> & _);
      [|done]. by rewrite (sf_size _ _ _ _ _ _ _ _ _ _ Hfr).
  - destruct (buf_tcp_write_spec handlers s h c q x w p tc d rb wb Hat' Hh') as (? & ? & -> & _). done.
Qed.

(** What the status of dbuf_tcp_read tells the caller.  CC_OK: the
    state of the channel is as it was and the read buffer has room left;
    CC_ERETRY: the buffer is full, and doubling it failed; CC_ERDHUP: nothing is
    left to read and the channel is CHANNEL_TERM; CC_ERROR: the channel is
    CHANNEL_ERROR.  There is no other status, and in each case the bytes received
    follow the earlier content of the buffer and have left the descriptor. *)
Theorem dbuf_tcp_read_status {K : Type} `{!Kernel K} `{!KernelLaws K}
    (handlers : Z -> channel_handler (tcp_world * proc K) positive addrinfo)
    (s c q x : positive) (h : Z) (w : sock_world) (p : proc K) (tc : tcp_conn) (d : desc)
    (rb wb : buf) :
  sock_at s h c q x w p tc d rb wb -> tcp_handler handlers h p ->
  buf_size rb < 2 ^ 31 -> max_size (sdbuf w) < 2 ^ 31 ->
  exists status w' p' q' bs, dbuf_tcp_read handlers 32 s (w, p) = Some (status, (w', p')) /\
    read_post s h c q x w p tc d rb wb bs q' status w' p' /\
    In status [CC_OK; CC_ERETRY; CC_ERDHUP; CC_ERROR].
Proof.
  intros Hat Hh Hsz Hm.
  destruct (dbuf_tcp_read_spec handlers s h c q x w p tc d rb wb Hat Hh Hsz Hm)
    as (status & [w' p'] & E & q' & bs & Hp).
  exists status, w', p', q', bs. split; [done|]. split; [done|].
  destruct Hp as (d' & tc' & rb' & _ & _ & _ & _ & _ & _ & _ & Ho). destruct Ho; simpl; auto.
Qed.

(** C22: sockio_setup with a pool of [max] sockets ends.  Unless it exits
    the process, the pool holds [max] idle sockets and after any history of
    borrowing, using and returning sockets: every socket owns a connection and two
    buffers that no other socket and nobody else has ([owned]); buf_sock_active is
    the number of borrowed sockets; the next borrow hands out a socket nobody
    holds, reset with its connection and with both buffers empty, or fails with no
    idle socket left, and a creation that runs out of memory half way leaks
    nothing; returning clears the caller's pointer and a second return does
    nothing; with everything returned, sockio_teardown frees each socket together
    with its connection and its buffers, and nothing else. *)
Theorem buf_sock_lifecycle (fuel : nat) (max : Z) (ms : metrics_st) (s0 : sockio_module) :
  bsp_init s0 = false -> socks (world (bsp s0)) = ∅ ->
  gauge_of ms "buf_sock_active" = Some 0 ->
  0 <= max <= UINT32_MAX -> (Z.to_nat max <= fuel)%nat ->
  let C := dom (conns (stcp (world (bsp s0)))) in
  let B := dom (sbufs (world (bsp s0))) in
  exists r, sockio_setup fuel (Some max) ms s0 = Some r /\
  forall s1, r = Returns s1 -> nfree (ctl (bsp s1)) = max /\
  forall s used, sock_hist s1 s used ->
    let w := world (bsp s) in
    owned C B w /\ gauge_of (sockio_metrics w) "buf_sock_active" = Some (i64 (zlen used)) /\
    (exists r s', buf_sock_borrow s = Some (r, s') /\ owned C B (world (bsp s')) /\
       match r with
       | Some x => x ∉ used /\ fresh_sock (world (bsp s')) x
       | None => nfree (ctl (bsp s)) = 0
       end) /\
    (forall x, x ∈ used -> exists s', buf_sock_return (Some (Some x)) s = Some (Some None, s') /\
       buf_sock_return (Some (Some x)) s' = Some (Some (Some x), s')) /\
    (forall fuel', used = [] -> (size (socks w) <= fuel')%nat ->
       exists s', sockio_teardown fuel' s = Some s' /\ let w' := world (bsp s') in
         socks w' = ∅ /\ dom (conns (stcp w')) = C /\ dom (sbufs w') = B).
Proof.
  intros Hi Ho Hg Hmax Hfu C B. unfold sockio_setup, buf_sock_pool_create. simpl. rewrite Hi. simpl.
  assert (u32 max = max) as -> by (apply u32_small; unfold UINT32_MAX in Hmax; lia).
  match goal with |- context [FREEPOOL_CREATE ?st max] => set (st0 := st) end.
  destruct (minv_setup socks bs_free sock_active (owned C B) sock_live (sock_create_spec C B) fuel
    st0 max) as (p' & E & Hinv & Hn); [done| |done..|].
  { apply (owned_metrics C B). by apply owned_start. }
  rewrite E. simpl. case_zcmp; (eexists; split; [done|]); intros s1 [= <-].
  split; [simpl; lia|]. intros s used Hh.
  destruct (sock_hist_inv C B (SockioModule p' true true) s used Hinv Hh) as [Hs Hci]. simpl in Hci.
  split; [apply (mi_extra _ _ _ _ _ _ Hs)|]. split; [apply (mi_active _ _ _ _ _ _ Hs)|].
  split; [|split].
  - destruct (sock_borrow_inv C B s used Hs) as (r' & s' & Eb & _ & Hr). exists r', s'.
    split; [done|]. destruct r' as [x|].
    + destruct Hr as (Hx & Hm & Hf). split; [apply (mi_extra _ _ _ _ _ _ Hm)|done].
    + destruct Hr as (Hx & Hm). split; [apply (mi_extra _ _ _ _ _ _ Hm)|done].
  - intros x Hx. destruct (sock_return_inv C B s used x Hs Hx) as (s' & E1 & _ & _ & E2). eauto.
  - intros fuel' -> Hf'. destruct (sock_teardown_inv C B fuel' s Hs Hci Hf') as (s' & Et & Hd & Hown).
    exists s'. split; [done|]. simpl. split; [done|]. by apply owned_end.
Qed.

(** ** Witnesses: a socket on descriptor 5 with three bytes to come, a read buffer
    of 2 bytes and a write buffer that holds one byte; one signal is pending. *)

Definition tcp_handlers (h : Z) : channel_handler (tcp_world * proc net) positive addrinfo :=
  ChannelHandler None None None None (Some (tcp_recv 2)) (Some (tcp_send 2)) None None.

Definition sample_sock : buf_sock := 
  BufSock None false 0 None (Some 0) (Some 1%positive) (Some 1%positive) (Some 2%positive).

Definition sample_socks : sock_world :=
  SockWorld {[3%positive := sample_sock]} [] None Tcp.sample_world qmem_empty
    (DbufModule qmem_empty
       (BufWorld {[1%positive := Buf 0 0 2 false [0; 0]; 2%positive := Buf 0 1 2 false [6; 0]]}
          [Some (4%positive, replicate 70 0)] 35 None) 8 8960 None true).

Definition sock_kernel : proc net := Proc Tcp.sample_net 0.

Lemma sample_sock_at :
  sock_at 3 0 1 1 2 sample_socks sock_kernel (Tcp.sample_conn 5) (Desc [7; 8; 9] [] None 0 0)
    (Buf 0 0 2 false [0; 0]) (Buf 0 1 2 false [6; 0]).
Proof.
  split; try reflexivity; try done. by exists sample_sock.
Qed.

Lemma sample_handler : tcp_handler tcp_handlers 0 sock_kernel.
Proof. exists 2%nat. split_and!; [done..|simpl; lia]. Qed.

(** dbuf_tcp_read fills the two bytes of the buffer, doubles it, which moves it to
    address 4, and receives the third byte. *)
Lemma sock_stream_witness :
  exists w p q tc d rb wb,
    sock_run tcp_handlers 3 (sample_socks, sock_kernel) [7; 8] [] (w, p) /\
    sock_at 3 0 1 q 2 w p tc d rb wb /\ content rb ++ d_in d = [9].
Proof.
  assert (Hrun : exists st, sock_run tcp_handlers 3 (sample_socks, sock_kernel) [7; 8] [] st).
  { eexists. change [7; 8] with ([] ++ [7; 8]). eapply (Sock_take _ _ _ _ _ _ 2); [|lia|].
    - eapply Sock_dread; [apply Sock_start|vm_compute; reflexivity].
    - vm_compute. reflexivity. }
  destruct Hrun as [[w p] Hrun].
  destruct (sock_stream tcp_handlers 3 1 1 2 0 sample_socks sock_kernel (Tcp.sample_conn 5)
    (Desc [7; 8; 9] [] None 0 0) (Buf 0 0 2 false [0; 0]) (Buf 0 1 2 false [6; 0]) [7; 8] [] w p)
    as (q & tc & d & rb & wb & Hat & Hin & _);
    [exact sample_sock_at|exact sample_handler|reflexivity..|exact Hrun|].
  exists w, p, q, tc, d, rb, wb. split; [exact Hrun|]. split; [exact Hat|].
  change ([7; 8] ++ [9] = [7; 8] ++ content rb ++ d_in d) in Hin. by apply app_inv_head in Hin.
Defined.

Lemma dbuf_tcp_read_status_witness :
  exists w p, dbuf_tcp_read tcp_handlers 32 3 (sample_socks, sock_kernel) = Some (CC_OK, (w, p)).
Proof.
  destruct (dbuf_tcp_read_status tcp_handlers 3 1 1 2 0 sample_socks sock_kernel (Tcp.sample_conn 5)
    (Desc [7; 8; 9] [] None 0 0) (Buf 0 0 2 false [0; 0]) (Buf 0 1 2 false [6; 0]))
    as (st & w & p & q & bs & E & _);
    [exact sample_sock_at|exact sample_handler|reflexivity..|].
  exists w, p. rewrite E. do 2 f_equal. vm_compute in E. by injection E.
Defined.

Definition sockio_metrics0 : metrics_st :=
  Some (list_to_map (map (fun f => METRIC_INIT f.1 f.2 "") [
    ("buf_sock_curr", METRIC_GAUGE); ("buf_sock_active", METRIC_GAUGE)])).

(** The module before setup; [blocks] are the answers to the allocation of
    buffers. *)
Definition sockio_start (blocks : list (option (positive * list byte))) : sockio_module :=
  SockioModule (PState qmem_empty (Pool 1 0 0 0 false)
    (SockWorld ∅ [Some (3%positive, (0, None))] sockio_metrics0
       (TcpWorld ∅ [Some 5%positive] None TCP_BACKLOG) qmem_empty
       (DbufModule qmem_empty (BufWorld ∅ blocks 40 None) 8 10240 None true))) false false.

Lemma buf_sock_lifecycle_witness :
  exists s1, sockio_setup 1 (Some 1) sockio_metrics0
      (sockio_start [Some (7%positive, replicate 40 0); Some (8%positive, replicate 40 0)]) =
      Some (Returns s1) /\ nfree (ctl (bsp s1)) = 1.
Proof.
  destruct (buf_sock_lifecycle 1 1 sockio_metrics0
    (sockio_start [Some (7%positive, replicate 40 0); Some (8%positive, replicate 40 0)]))
    as (r & E & H); [reflexivity..|unfold UINT32_MAX; lia|simpl; lia|].
  destruct r as [s1|]; [|vm_compute in E; discriminate E].
  exists s1. split; [exact E|]. by apply (H s1).
Defined.

(** A creation that fails for the second buffer is undone, but leaves
    buf_sock_curr at -1: the error path calls buf_sock_destroy, which decrements
    a gauge that was not incremented. *)
Example create_failure_curr :
  let w := world (bsp (sockio_start [Some (7%positive, replicate 40 0); None])) in
  match buf_sock_create qmem_empty w with
  | Some (None, (_, w')) =>
      bool_decide (socks w' = socks w) && bool_decide (sbufs w' = sbufs w) = true /\
      gauge_of (sockio_metrics w') "buf_sock_curr" = Some (-1)
  | _ => False
  end.
Proof. vm_compute. done. Qed.
