(* ===== verification/Event.v ===== *)
(** * The event loop on Linux (include/cc_event.h, src/event/cc_epoll.c, cc_shared.c)

    epoll is a parameter, the class [Epoll] over [Kernel]; [EpollLaws] states what
    epoll(7) documents, through a view of the interest lists.  An event base and
    its array of returned events are blocks of [event_world].  Callbacks are the
    program's: a function pointer is a number, [callbacks] says what the function
    does, to the state of the program [U] as well as to that of this module.
    ASSERT only logs. *)

From S2P Require Import Prelude Metric Mm Sys.
Local Open Scope Z_scope.

Definition EVENT_READ : Z := 255.      (* 0x0000ff *)
Definition EVENT_WRITE : Z := 65280.   (* 0x00ff00 *)
Definition EVENT_ERR : Z := 16711680.  (* 0xff0000 *)

Definition EPOLLIN : Z := 1.
Definition EPOLLOUT : Z := 4.
Definition EPOLLERR : Z := 8.
Definition EPOLLHUP : Z := 16.
Definition EPOLLRDHUP : Z := 8192.
Definition EPOLL_CTL_ADD : Z := 1.
Definition EPOLL_CTL_DEL : Z := 2.
Definition ENOENT : Z := 2.

Record epoll_event := EpollEvent { ev_events : Z; ev_data : option positive }.

Class Epoll (K : Type) := {
  k_epoll_create : K -> answer Z * K;
  k_epoll_ctl : Z -> Z -> Z -> epoll_event -> K -> answer Z * K;
  k_epoll_wait : Z -> Z -> Z -> K -> answer (list epoll_event) * K;
}.

(** struct event_base; [eb_event] is the address of the array. *)
Record event_base := EventBase {
  eb_ep : Z; eb_event : positive; eb_nevent : Z; eb_cb : option Z }.

Record event_world := EventWorld {
  bases : gmap positive event_base;
  arrays : gmap positive (list epoll_event);
  ev_answers : list (option positive);
  event_metrics : metrics_st;
  event_init : bool;
}.

Definition set_bases (w : event_world) (bs : gmap positive event_base) : event_world :=
  EventWorld bs (arrays w) (ev_answers w) (event_metrics w) (event_init w).
Definition set_arrays (w : event_world) (a : gmap positive (list epoll_event)) : event_world :=
  EventWorld (bases w) a (ev_answers w) (event_metrics w) (event_init w).
Definition on_metrics (f : metrics_st -> metrics_st) (w : event_world) : event_world :=
  EventWorld (bases w) (arrays w) (ev_answers w) (f (event_metrics w)) (event_init w).

Definition event_setup (metrics : metrics_st) (w : event_world) : event_world :=
  EventWorld (bases w) (arrays w) (ev_answers w) metrics true.
Definition event_teardown (w : event_world) : event_world :=
  EventWorld (bases w) (arrays w) (ev_answers w) None false.

(** The next answer of the allocator: an address that is in use is not one. *)
Definition next_event_block (w : event_world) : option positive * event_world :=
  match ev_answers w with
  | [] => (None, w)
  | a :: rest =>
      (match a with
       | Some p => if decide (bases w !! p = None /\ arrays w !! p = None) then Some p else None
       | None => None
       end, EventWorld (bases w) (arrays w) rest (event_metrics w) (event_init w))
  end.

(** What event_wait passes to the callback. *)
Definition event_mask (ev : epoll_event) : Z :=
  let events := 0 in
  let events := if negb (Z.land (ev_events ev) (Z.lor EPOLLERR EPOLLHUP) =? 0)
                then Z.lor events EVENT_ERR else events in
  let events := if negb (Z.land (ev_events ev) (Z.lor EPOLLIN EPOLLRDHUP) =? 0)
                then Z.lor events EVENT_READ else events in
  if negb (Z.land (ev_events ev) EPOLLOUT =? 0) then Z.lor events EVENT_WRITE else events.

Section Ops.
Context {K U : Type} `{!Kernel K} `{!Epoll K}.

Abbreviation io A := (st (event_world * (proc K * U)) A).

Context (callbacks : Z -> option positive -> Z -> io unit).

Definition sys {A} (m : st (proc K) A) : io A := on_snd (on_fst m).
Definition need {A} (o : option A) : io A := fun s =>
  match o with Some x => Some (x, s) | None => None end.
Definition with_world {A} (f : event_world -> A) : io A := fun s => Some (f s.1, s).
Definition upd (f : event_world -> event_world) : io unit := on_fst (modify f).
Definition incr_n (field : string) (n : Z) : io unit := upd (on_metrics (fun ms => INCR_N ms field n)).
Definition incr (field : string) : io unit := incr_n field 1.
Definition alloc : io (option positive) := fun s =>
  let '(p, w) := next_event_block s.1 in Some (p, (w, s.2)).

(** *evb *)
Definition base (evb : positive) : io event_base := with_world (fun w => bases w !! evb) ≫= need.

(** cc_calloc(nevent, sizeof(struct epoll_event)): no block for a size of 0 or one
    beyond PTRDIFF_MAX, which a negative nevent gives. *)
Definition calloc_events (nevent : Z) : io (option positive) :=
  if nevent <=? 0 then mret None else
  p ← alloc;
  match p with
  | Some a =>
      upd (fun w => set_arrays w (<[a := replicate (Z.to_nat nevent) (EpollEvent 0 None)]> (arrays w)));;
      mret (Some a)
  | None => mret None
  end.

Definition event_base_create (nevent : Z) (cb : option Z) : io (option positive) :=
  ep ← sys (call k_epoll_create);
  if ep <? 0 then mret None else
  event ← calloc_events nevent;
  match event with
  | None => sys (c_close ep);; mret None
  | Some event =>
      evb ← alloc;
      match evb with
      | None =>
          upd (fun w => set_arrays w (delete event (arrays w)));;
          sys (c_close ep);;
          mret None
      | Some evb =>
          upd (fun w => set_bases w (<[evb := EventBase ep event nevent cb]> (bases w)));;
          mret (Some evb)
      end
  end.

(** The new value of *evb; freeing an array that is gone is undefined. *)
Definition event_base_destroy (evb : option positive) : io (option positive) :=
  match evb with
  | None => mret None
  | Some p =>
      e ← base p;
      a ← with_world (fun w => arrays w !! eb_event e);
      need a;;
      upd (fun w => set_arrays w (delete (eb_event e) (arrays w)));;
      sys (c_close (eb_ep e));;
      upd (fun w => set_bases w (delete p (bases w)));;
      mret None
  end.

Definition _event_update (evb : positive) (fd op events : Z) (ptr : option positive) : io Z :=
  e ← base evb;
  sys (call (k_epoll_ctl (eb_ep e) op fd (EpollEvent events ptr))).

Definition event_add_read (evb : positive) (fd : Z) (data : option positive) : io Z :=
  status ← _event_update evb fd EPOLL_CTL_ADD EPOLLIN data;
  incr "event_read";;
  mret status.

Definition event_add_write (evb : positive) (fd : Z) (data : option positive) : io Z :=
  status ← _event_update evb fd EPOLL_CTL_ADD EPOLLOUT data;
  incr "event_write";;
  mret status.

Definition event_del (evb : positive) (fd : Z) : io Z :=
  _event_update evb fd EPOLL_CTL_DEL 0 None.

(** epoll_wait(ep, ev_arr, nevent, timeout): the events go to the front of the
    array. *)
Definition wait_call (ep : Z) (ev_arr : positive) (nevent timeout : Z) : io Z :=
  '(n, evs) ← sys (call_data zlen [] (k_epoll_wait ep nevent timeout));
  a ← with_world (fun w => arrays w !! ev_arr) ≫= need;
  if Nat.ltb (length a) (length evs) then stuck else
  upd (fun w => set_arrays w (<[ev_arr := evs ++ drop (length evs) a]> (arrays w)));;
  mret n.

(** The loop over the events returned, from [i]; [todo] are left. *)
Fixpoint dispatch (todo i : nat) (evb ev_arr : positive) : io unit :=
  match todo with
  | O => mret tt
  | S todo =>
      a ← with_world (fun w => arrays w !! ev_arr) ≫= need;
      ev ← need (a !! i);
      e ← base evb;
      (match eb_cb e with
       | Some f => callbacks f (ev_data ev) (event_mask ev)
       | None => mret tt
       end);;
      dispatch todo (S i) evb ev_arr
  end.

Fixpoint wait_loop (fuel : nat) (evb : positive) (ep : Z) (ev_arr : positive) (nevent timeout : Z)
  : io Z :=
  match fuel with
  | O => stuck
  | S fuel =>
      nreturned ← wait_call ep ev_arr nevent timeout;
      incr "event_loop";;
      if 0 <? nreturned then
        incr_n "event_total" nreturned;;
        dispatch (Z.to_nat nreturned) 0 evb ev_arr;;
        mret nreturned
      else if nreturned =? 0 then
        mret (if timeout =? -1 then -1 else 0)
      else
        e ← sys c_errno;
        if e =? EINTR then wait_loop fuel evb ep ev_arr nevent timeout else mret (-1)
  end.

Definition event_wait (fuel : nat) (evb : positive) (timeout : Z) : io Z :=
  e ← base evb;
  wait_loop fuel evb (eb_ep e) (eb_event e) (eb_nevent e) timeout.

End Ops.

(** ** What epoll documents

    [interest k]: for each epoll descriptor, what is registered by file
    descriptor; [waits k]: the signals that are still to interrupt a wait. *)

Class EpollLaws (K : Type) `{!Kernel K} `{!Epoll K} := {
  interest : K -> gmap Z (gmap Z epoll_event);
  waits : K -> nat;
  law_epoll_create k a k' : k_epoll_create k = (a, k') ->
    match a with
    | Ok ep => 0 <= ep /\ interest k !! ep = None /\ interest k' = <[ep := ∅]> (interest k)
    | Err e => 0 < e /\ interest k' = interest k
    end;
  (** adding what is registered fails *)
  law_epoll_add ep fd ev k a k' : k_epoll_ctl ep EPOLL_CTL_ADD fd ev k = (a, k') ->
    waits k' = waits k /\
    match a with
    | Ok x => x = 0 /\ exists m, interest k !! ep = Some m /\ m !! fd = None /\
        interest k' = <[ep := <[fd := ev]> m]> (interest k)
    | Err e => 0 < e /\ interest k' = interest k
    end;
  law_epoll_del ep fd ev k a k' : k_epoll_ctl ep EPOLL_CTL_DEL fd ev k = (a, k') ->
    waits k' = waits k /\
    match a with
    | Ok x => x = 0 /\ exists m, interest k !! ep = Some m /\ is_Some (m !! fd) /\
        interest k' = <[ep := delete fd m]> (interest k)
    | Err e => 0 < e /\ interest k' = interest k
    end;
  (** the events reported are among those asked for, errors and hangups *)
  law_epoll_wait ep n t k a k' : k_epoll_wait ep n t k = (a, k') ->
    interest k' = interest k /\
    match a with
    | Ok evs => zlen evs <= Z.max 0 n /\ (waits k' <= waits k)%nat /\
        exists m, interest k !! ep = Some m /\
        forall ev, ev ∈ evs -> exists fd reg, m !! fd = Some reg /\ ev_data ev = ev_data reg /\
          Z.land (ev_events ev) (Z.lnot (Z.lor (ev_events reg) (Z.lor EPOLLERR EPOLLHUP))) = 0
    | Err e => 0 < e /\ (waits k' <= waits k)%nat /\ (e = EINTR -> (waits k' < waits k)%nat)
    end;
  law_epoll_close ep k a k' : k_close ep k = (a, k') -> is_Some (interest k !! ep) ->
    interest k' = delete ep (interest k);
}.

(** ** Masks *)

(** Each kind of event sets its bits and no others. *)
Lemma event_mask_bits ev :
  Z.land (event_mask ev) EVENT_ERR =
    (if Z.land (ev_events ev) (Z.lor EPOLLERR EPOLLHUP) =? 0 then 0 else EVENT_ERR) /\
  Z.land (event_mask ev) EVENT_READ =
    (if Z.land (ev_events ev) (Z.lor EPOLLIN EPOLLRDHUP) =? 0 then 0 else EVENT_READ) /\
  Z.land (event_mask ev) EVENT_WRITE = (if Z.land (ev_events ev) EPOLLOUT =? 0 then 0 else EVENT_WRITE) /\
  Z.land (event_mask ev) (Z.lnot (Z.lor EVENT_ERR (Z.lor EVENT_READ EVENT_WRITE))) = 0.
Proof.
  unfold event_mask.
  destruct (Z.land (ev_events ev) (Z.lor EPOLLERR EPOLLHUP) =? 0),
    (Z.land (ev_events ev) (Z.lor EPOLLIN EPOLLRDHUP) =? 0),
    (Z.land (ev_events ev) EPOLLOUT =? 0); by vm_compute.
Qed.

(** The mask bit by bit: EPOLLERR and EPOLLHUP are an error, EPOLLIN and EPOLLRDHUP a
    read, EPOLLOUT a write. *)
Definition mask_of (ev : epoll_event) : Z :=
  (if Z.testbit (ev_events ev) 3 || Z.testbit (ev_events ev) 4 then EVENT_ERR else 0) +
  (if Z.testbit (ev_events ev) 0 || Z.testbit (ev_events ev) 13 then EVENT_READ else 0) +
  (if Z.testbit (ev_events ev) 2 then EVENT_WRITE else 0).

Lemma land_pow2 x i : 0 <= i -> (Z.land x (2 ^ i) =? 0) = negb (Z.testbit x i).
Proof.
  intros Hi. destruct (Z.testbit x i) eqn:E; simpl.
  - apply Z.eqb_neq. intros H. apply (f_equal (fun y => Z.testbit y i)) in H.
    by rewrite Z.land_spec, E, Z.pow2_bits_true, Z.bits_0 in H by done.
  - apply Z.eqb_eq, Z.bits_inj'. intros n Hn. rewrite Z.land_spec, Z.bits_0.
    destruct (Z.eq_dec n i) as [->|Hne]; [by rewrite E|]. by rewrite Z.pow2_bits_false, andb_false_r.
Qed.

Lemma land_lor_eqb x a b : (Z.land x (Z.lor a b) =? 0) = (Z.land x a =? 0) && (Z.land x b =? 0).
Proof.
  rewrite Z.land_lor_distr_r. apply eq_true_iff_eq. by rewrite andb_true_iff, !Z.eqb_eq, Z.lor_eq_0_iff.
Qed.

Lemma event_mask_of ev : event_mask ev = mask_of ev.
Proof.
  unfold event_mask, mask_of. rewrite !land_lor_eqb.
  change EPOLLERR with (2 ^ 3). change EPOLLHUP with (2 ^ 4). change EPOLLIN with (2 ^ 0).
  change EPOLLRDHUP with (2 ^ 13). change EPOLLOUT with (2 ^ 2). rewrite !land_pow2 by lia.
  by destruct (Z.testbit _ 3), (Z.testbit _ 4), (Z.testbit _ 0), (Z.testbit _ 13), (Z.testbit _ 2).
Qed.

(** A bit that was reported was asked for, unless it is an error. *)
Lemma reported_bit x reg b :
  Z.land x (Z.lnot (Z.lor reg (Z.lor EPOLLERR EPOLLHUP))) = 0 ->
  Z.land b (Z.lor EPOLLERR EPOLLHUP) = 0 -> Z.land x b ≠ 0 -> Z.land reg b ≠ 0.
Proof.
  intros H Hb Hx Hr. apply Hx. apply Z.bits_inj'. intros n Hn.
  assert (Hbn : forall y z, Z.land y z = 0 -> Z.testbit y n && Z.testbit z n = false).
  { intros y z E. rewrite <- Z.land_spec, E. apply Z.bits_0. }
  apply Hbn in H, Hb, Hr. rewrite Z.lnot_spec, Z.lor_spec in H by done.
  rewrite Z.land_spec, Z.bits_0.
  destruct (Z.testbit x n), (Z.testbit b n), (Z.testbit reg n),
    (Z.testbit (Z.lor EPOLLERR EPOLLHUP) n); simpl in *; congruence.
Qed.

(** ** Registration *)

(** The calls that change what is registered, with their results. *)
Inductive ev_op := AddRead (fd : Z) (data : option positive) | AddWrite (fd : Z) (data : option positive)
  | Del (fd : Z).

(** The interest list as a client may think of it: a successful add enters the
    descriptor with one direction, a successful delete removes it. *)
Definition applied (R : gmap Z epoll_event) (c : ev_op * Z) : gmap Z epoll_event :=
  if c.2 =? 0 then
    match c.1 with
    | AddRead fd data => <[fd := EpollEvent EPOLLIN data]> R
    | AddWrite fd data => <[fd := EpollEvent EPOLLOUT data]> R
    | Del fd => delete fd R
    end
  else R.

(** Adds succeed only for new descriptors, deletes only for registered ones. *)
Definition allowed (R : gmap Z epoll_event) (op : ev_op) : Prop :=
  match op with
  | AddRead fd _ | AddWrite fd _ => R !! fd = None
  | Del fd => is_Some (R !! fd)
  end.

Fixpoint valid (R : gmap Z epoll_event) (h : list (ev_op * Z)) : Prop :=
  match h with
  | [] => True
  | c :: h => (c.2 = 0 /\ allowed R c.1 \/ c.2 = -1) /\ valid (applied R c) h
  end.

Lemma valid_snoc R h c :
  valid R (h ++ [c]) <->
  valid R h /\ (c.2 = 0 /\ allowed (fold_left applied h R) c.1 \/ c.2 = -1).
Proof.
  revert R. induction h as [|c' h IH]; intros R; simpl; [tauto|]. rewrite IH. tauto.
Qed.

(** The calls of event_add_read and event_add_write, successful or not. *)
Definition adds_read (h : list (ev_op * Z)) : Z :=
  zlen (List.filter (fun c => match c.1 with AddRead _ _ => true | _ => false end) h).
Definition adds_write (h : list (ev_op * Z)) : Z :=
  zlen (List.filter (fun c => match c.1 with AddWrite _ _ => true | _ => false end) h).

Section Registration.
Context {K U : Type} `{!Kernel K} `{!Epoll K} `{!EpollLaws K}.
Implicit Types (w : event_world) (p : proc K) (u : U) (evb : positive) (e : event_base).

Definition do_op evb (op : ev_op) : st (event_world * (proc K * U)) Z :=
  match op with
  | AddRead fd data => event_add_read evb fd data
  | AddWrite fd data => event_add_write evb fd data
  | Del fd => event_del evb fd
  end.

Inductive ev_run evb (s0 : event_world * (proc K * U))
  : list (ev_op * Z) -> event_world * (proc K * U) -> Prop :=
| Ev_start : ev_run evb s0 [] s0
| Ev_step h s op status s' :
    ev_run evb s0 h s -> do_op evb op s = Some (status, s') -> ev_run evb s0 (h ++ [(op, status)]) s'.

Lemma wp_base evb e (Q : event_base -> event_world * (proc K * U) -> Prop) w s :
  bases w !! evb = Some e -> Q e (w, s) -> wp (base evb) Q (w, s).
Proof. intros H HQ. exists e, (w, s). unfold base, with_world, mbind, st_bind. simpl. by rewrite H. Qed.

Lemma wp_sys {A} (m : st (proc K) A) (Q : A -> event_world * (proc K * U) -> Prop) w p u :
  wp m (fun x p' => Q x (w, (p', u))) p -> wp (sys m) Q (w, (p, u)).
Proof. intros H. unfold sys. by apply wp_snd, wp_fst. Qed.

Lemma wp_upd f (Q : unit -> event_world * (proc K * U) -> Prop) w s :
  Q tt (f w, s) -> wp (upd f) Q (w, s).
Proof. intros H. unfold upd. by apply wp_fst, wp_modify. Qed.

(** One call on the base [e], whose interest list is [R]. *)
Lemma do_op_spec evb op e R w p u :
  bases w !! evb = Some e -> interest (kern p) !! eb_ep e = Some R ->
  wp (do_op evb op) (fun status '(w', (p', u')) =>
    u' = u /\ bases w' = bases w /\ arrays w' = arrays w /\
    (status = 0 /\ allowed R op \/ status = -1) /\
    interest (kern p') = <[eb_ep e := applied R (op, status)]> (interest (kern p)) /\
    waits (kern p') = waits (kern p) /\
    counts "event_read" (adds_read [(op, status)]) (event_metrics w) (event_metrics w') /\
    counts "event_write" (adds_write [(op, status)]) (event_metrics w) (event_metrics w')) (w, (p, u)).
Proof.
  intros He HR.
  destruct op as [fd data|fd data|fd]; simpl; unfold event_add_read, event_add_write, event_del,
    _event_update; repeat wp_step; (eapply wp_base; [done|]); apply wp_sys, wp_call.
  all: intros x k' E; first [apply law_epoll_add in E as [Hw E]|apply law_epoll_del in E as [Hw E]].
  all: repeat wp_step; try apply wp_upd; repeat wp_step; split_and!; try done.
  all: try (simpl; unfold adds_read, adds_write, zlen; simpl; counts; fail).
  all: try (destruct E as [-> (m & Hm & Hfd & Hi)]; simplify_eq; auto; fail).
  all: try (destruct E as [_ Hi]; simpl; rewrite Hi, insert_id; done).
  all: by right.
Qed.

Lemma zlen_filter_snoc {A} (f : A -> bool) l c :
  zlen (List.filter f (l ++ [c])) = zlen (List.filter f l) + zlen (List.filter f [c]).
Proof. by rewrite List.filter_app, zlen_app. Qed.

Lemma ev_run_inv evb e R0 w0 p0 u0 h s :
  bases w0 !! evb = Some e -> interest (kern p0) !! eb_ep e = Some R0 ->
  ev_run evb (w0, (p0, u0)) h s ->
  bases s.1 = bases w0 /\ arrays s.1 = arrays w0 /\ s.2.2 = u0 /\
  interest (kern s.2.1) = <[eb_ep e := fold_left applied h R0]> (interest (kern p0)) /\
  valid R0 h /\
  counts "event_read" (adds_read h) (event_metrics w0) (event_metrics s.1) /\
  counts "event_write" (adds_write h) (event_metrics w0) (event_metrics s.1).
Proof.
  intros He HR. induction 1 as [|h [w [p u]] op status [w' [p' u']] _ IH E].
  - simpl. rewrite insert_id by done. split_and!; try done; apply counts_refl.
  - simpl in *. destruct IH as (Hb & Ha & -> & Hi & Hv & C1 & C2).
    pose proof (do_op_spec evb op e (fold_left applied h R0) w p u0) as Hwp.
    eapply wp_det in E; [|apply Hwp; [by rewrite Hb|by rewrite Hi, lookup_insert_eq]].
    destruct E as (-> & Hb' & Ha' & Hst & Hi' & _ & C1' & C2').
    rewrite Hb', Ha', Hi', Hi, insert_insert_eq, fold_left_app. simpl.
    split_and!; try done; [by apply valid_snoc|..]; unfold adds_read, adds_write in *;
      rewrite zlen_filter_snoc; by eapply counts_trans.
Qed.

End Registration.

(** ** Waiting *)

Section Wait.
Context {K U : Type} `{!Kernel K} `{!Epoll K} `{!EpollLaws K}.
Context (callbacks : Z -> option positive -> Z -> st (event_world * (proc K * U)) unit).
Implicit Types (w : event_world) (p : proc K) (u : U) (evb : positive) (e : event_base).

(** The callback for each event, in order, with its pointer and its mask. *)
Fixpoint run_callbacks (f : Z) (evs : list epoll_event) : st (event_world * (proc K * U)) unit :=
  match evs with
  | [] => mret tt
  | ev :: evs => callbacks f (ev_data ev) (mask_of ev);; run_callbacks f evs
  end.

(** The callback neither destroys the base nor waits on it itself. *)
Definition keeps (f : Z) evb (arr : positive) : Prop :=
  forall data mask s x s', callbacks f data mask s = Some (x, s') ->
    bases s'.1 !! evb = bases s.1 !! evb /\ arrays s'.1 !! arr = arrays s.1 !! arr.

Lemma bind_eq {S A B} (m : st S A) (k : A -> st S B) s x s' :
  m s = Some (x, s') -> (m ≫= k) s = k x s'.
Proof. unfold mbind, st_bind. by intros ->. Qed.

Lemma dispatch_eq f evb e arr pre evs post s :
  keeps f evb arr -> bases s.1 !! evb = Some e -> eb_cb e = Some f ->
  arrays s.1 !! arr = Some (pre ++ evs ++ post) ->
  dispatch callbacks (length evs) (length pre) evb arr s = run_callbacks f evs s.
Proof using Type.
  intros Hk. revert pre s. induction evs as [|ev evs IH]; intros pre s He Hf Ha; [done|].
  cbn [length dispatch run_callbacks].
  erewrite bind_eq; [|unfold with_world, mbind, st_bind, need; simpl; by rewrite Ha].
  erewrite bind_eq; [|unfold need; simpl; by rewrite list_lookup_middle].
  erewrite bind_eq; [|unfold base, with_world, mbind, st_bind, need; simpl; by rewrite He].
  rewrite Hf, event_mask_of. unfold mbind, st_bind.
  destruct (callbacks f (ev_data ev) (mask_of ev) s) as [[x s1]|] eqn:E; [|done].
  destruct (Hk _ _ _ _ _ E) as [Hb1 Ha1]. rewrite <- (last_length pre ev).
  apply IH; [by rewrite Hb1|done|]. by rewrite Ha1, Ha, <- app_assoc.
Qed.

(** A base without a callback. *)
Lemma dispatch_none evb e arr a n i s :
  bases s.1 !! evb = Some e -> eb_cb e = None -> arrays s.1 !! arr = Some a ->
  (i + n <= length a)%nat -> dispatch callbacks n i evb arr s = Some (tt, s).
Proof using Type.
  intros He Hf Ha. revert i. induction n as [|n IH]; intros i Hn; [done|]. cbn [dispatch].
  erewrite bind_eq; [|unfold with_world, mbind, st_bind, need; simpl; by rewrite Ha].
  destruct (lookup_lt_is_Some_2 a i) as [ev Hev]; [lia|].
  erewrite bind_eq; [|unfold need; by rewrite Hev].
  erewrite bind_eq; [|unfold base, with_world, mbind, st_bind, need; simpl; by rewrite He].
  rewrite Hf. erewrite bind_eq by done. apply IH. lia.
Qed.

Lemma wait_call_eq ep arr n t w p u ans k' a :
  k_epoll_wait ep n t (kern p) = (ans, k') -> arrays w !! arr = Some a ->
  match ans with
  | Ok evs => (length evs <= length a)%nat ->
      wait_call ep arr n t (w, (p, u)) =
        Some (zlen evs, (set_arrays w (<[arr := evs ++ drop (length evs) a]> (arrays w)),
                         (Proc k' (errno p), u)))
  | Err e => wait_call ep arr n t (w, (p, u)) = Some (-1, (w, (Proc k' e, u)))
  end.
Proof using Type.
  intros E Ha. destruct ans as [evs|e].
  - intros Hl. unfold wait_call.
    erewrite bind_eq; [|unfold sys, on_snd, on_fst, call_data; simpl; by rewrite E]. simpl.
    erewrite bind_eq; [|unfold with_world, mbind, st_bind, need; simpl; by rewrite Ha].
    rewrite (proj2 (Nat.ltb_ge _ _)) by done. done.
  - unfold wait_call.
    erewrite bind_eq; [|unfold sys, on_snd, on_fst, call_data; simpl; by rewrite E]. simpl.
    erewrite bind_eq; [|unfold with_world, mbind, st_bind, need; simpl; by rewrite Ha]. simpl.
    unfold upd, on_fst, modify, mbind, st_bind. simpl. rewrite drop_0, insert_id by done.
    by destruct w.
Qed.

(** Every event reported is for a registered descriptor and carries its data; a
    direction is reported only if it was asked for. *)
Definition reported (R : gmap Z epoll_event) (ev : epoll_event) : Prop :=
  exists fd reg, R !! fd = Some reg /\ ev_data ev = ev_data reg /\
    (Z.land (mask_of ev) EVENT_READ ≠ 0 -> Z.land (ev_events reg) (Z.lor EPOLLIN EPOLLRDHUP) ≠ 0) /\
    (Z.land (mask_of ev) EVENT_WRITE ≠ 0 -> Z.land (ev_events reg) EPOLLOUT ≠ 0).

Lemma reported_law R fd reg ev :
  R !! fd = Some reg -> ev_data ev = ev_data reg ->
  Z.land (ev_events ev) (Z.lnot (Z.lor (ev_events reg) (Z.lor EPOLLERR EPOLLHUP))) = 0 ->
  reported R ev.
Proof using Type.
  intros HR Hd Hb. exists fd, reg. rewrite <- event_mask_of. destruct (event_mask_bits ev) as (_ & -> & -> & _).
  do 2 (split; [done|]). split.
  - destruct (Z.eqb_spec (Z.land (ev_events ev) (Z.lor EPOLLIN EPOLLRDHUP)) 0); [done|].
    intros _. by eapply reported_bit.
  - destruct (Z.eqb_spec (Z.land (ev_events ev) EPOLLOUT) 0); [done|].
    intros _. by eapply reported_bit.
Qed.

(** The kernel's answer to epoll_wait, called again after each of [k] signals. *)
Inductive wait_answer (ep n t : Z) : nat -> K -> answer (list epoll_event) -> K -> Prop :=
| Wait_last k a k' :
    k_epoll_wait ep n t k = (a, k') -> a ≠ Err EINTR -> wait_answer ep n t 0 k a k'
| Wait_interrupted i k k1 a k' :
    k_epoll_wait ep n t k = (Err EINTR, k1) -> wait_answer ep n t i k1 a k' ->
    wait_answer ep n t (S i) k a k'.

Definition events_of (a : answer (list epoll_event)) : list epoll_event :=
  match a with Ok evs => evs | Err _ => [] end.

(** The state in which the callbacks start: [evs] are at the front of the array,
    [k] waits were interrupted. *)
Record waited (e : event_base) (k : nat) (evs : list epoll_event) w p w1 p1 : Prop := {
  wd_bases : bases w1 = bases w;
  wd_array : exists rest, arrays w1 = <[eb_event e := evs ++ rest]> (arrays w) /\
    zlen (evs ++ rest) = eb_nevent e;
  wd_interest : interest (kern p1) = interest (kern p);
  wd_reported : forall R ev, interest (kern p) !! eb_ep e = Some R -> ev ∈ evs -> reported R ev;
  wd_loop : counts "event_loop" (Z.of_nat k + 1) (event_metrics w) (event_metrics w1);
  wd_total : counts "event_total" (zlen evs) (event_metrics w) (event_metrics w1);
}.

(** One round that failed. *)
Lemma wait_loop_err fuel evb ep arr n t w p u er k' a :
  k_epoll_wait ep n t (kern p) = (Err er, k') -> arrays w !! arr = Some a ->
  wait_loop callbacks (S fuel) evb ep arr n t (w, (p, u)) =
    let s' := (on_metrics (fun ms => INCR_N ms "event_loop" 1) w, (Proc k' er, u)) in
    if er =? EINTR then wait_loop callbacks fuel evb ep arr n t s' else Some (-1, s').
Proof using Type.
  intros E Ha. cbn [wait_loop]. rewrite (bind_eq _ _ _ _ _ (wait_call_eq _ _ _ _ w p u _ _ a E Ha)).
  unfold incr at 1, incr_n at 1, upd at 1. erewrite bind_eq by done. simpl.
  erewrite bind_eq by done. simpl. by destruct (er =? EINTR).
Qed.

Lemma wait_loop_spec fuel evb e timeout w p u a :
  (waits (kern p) < fuel)%nat -> arrays w !! eb_event e = Some a -> zlen a = eb_nevent e ->
  exists k ans w1 p1, wait_answer (eb_ep e) (eb_nevent e) timeout k (kern p) ans (kern p1) /\
    waited e k (events_of ans) w p w1 p1 /\
    wait_loop callbacks fuel evb (eb_ep e) (eb_event e) (eb_nevent e) timeout (w, (p, u)) =
      match ans with
      | Ok [] => Some (if timeout =? -1 then -1 else 0, (w1, (p1, u)))
      | Ok evs => (dispatch callbacks (length evs) 0 evb (eb_event e);; mret (zlen evs)) (w1, (p1, u))
      | Err _ => Some (-1, (w1, (p1, u)))
      end.
Proof using Type.
  revert w p. induction fuel as [|fuel IH]; intros w p Hf Ha Hl; [lia|].
  destruct (k_epoll_wait (eb_ep e) (eb_nevent e) timeout (kern p)) as [ans k'] eqn:E.
  pose proof (wait_call_eq _ _ _ _ w p u _ _ a E Ha) as Hc. pose proof E as E0.
  apply law_epoll_wait in E as [Hi Hans]. destruct ans as [evs|er].
  - destruct Hans as (Hz & _ & m & Hm & Hev).
    assert (Hle : (length evs <= length a)%nat) by (unfold zlen in *; lia).
    specialize (Hc Hle). set (w1 := set_arrays _ _) in Hc.
    exists 0%nat, (Ok evs),
      (if 0 <? zlen evs then on_metrics (fun ms => INCR_N ms "event_total" (zlen evs))
         (on_metrics (fun ms => INCR_N ms "event_loop" 1) w1)
       else on_metrics (fun ms => INCR_N ms "event_loop" 1) w1), (Proc k' (errno p)).
    split; [by apply Wait_last|]. split; cbn [events_of].
    + split.
      * by case_zcmp.
      * exists (drop (length evs) a). split; [by case_zcmp|]. rewrite <- Hl.
        unfold zlen. rewrite length_app, length_drop. lia.
      * done.
      * intros R ev HR Hin. destruct (Hev ev Hin) as (fd & reg & H1 & H2 & H3).
        simplify_eq. by eapply reported_law.
      * case_zcmp; simpl; counts.
      * pose proof (zlen_nonneg evs). case_zcmp; simpl; counts.
    + cbn [wait_loop]. rewrite (bind_eq _ _ _ _ _ Hc). unfold incr at 1, incr_n at 1, upd.
      unfold on_fst, modify at 1. erewrite bind_eq by done. simpl.
      destruct evs as [|ev evs]; [done|]. rewrite (proj2 (Z.ltb_lt _ _)) by (unfold zlen; simpl; lia).
      unfold incr_n, upd. erewrite bind_eq by done.
      by replace (Z.to_nat (zlen (ev :: evs))) with (length (ev :: evs)) by (unfold zlen; lia).
  - destruct Hans as (He & Hw & Hint). clear Hc.
    pose proof (fun evb => wait_loop_err fuel evb _ _ _ _ w p u _ _ a E0 Ha) as Heq. rewrite Heq. clear Heq.
    destruct (Z.eqb_spec er EINTR) as [->|Hne].
    + specialize (Hint eq_refl).
      destruct (IH (on_metrics (fun ms => INCR_N ms "event_loop" 1) w) (Proc k' EINTR))
        as (k & ans & w1 & p1 & Hans & [W1 (rest & W2 & W2') W3 W4 W5 W6] & Hr); [simpl; lia|done|done|].
      exists (S k), ans, w1, p1. simpl in *. split; [by eapply Wait_interrupted|]. split; [|done].
      split; try done; [eauto|by rewrite W3|intros R ev HR; apply W4; by rewrite Hi|..].
      * counts_then W5.
      * counts_then W6.
    + exists 0%nat, (Err er), (on_metrics (fun ms => INCR_N ms "event_loop" 1) w), (Proc k' er).
      split; [apply Wait_last; [done|congruence]|]. split; [|done]. split; simpl; try done; try counts.
      * exists a. by rewrite insert_id.
      * intros R ev _ Hin. by apply elem_of_nil in Hin.
Qed.

End Wait.

(** ** Event bases *)

Section Bases.
Context {K U : Type} `{!Kernel K} `{!Epoll K} `{!EpollLaws K}.
Implicit Types (w : event_world) (p : proc K) (u : U) (evb : positive) (e : event_base).

(** What a successful creation gives. *)
Definition new_base (nevent : Z) (cb : option Z) w p evb w' p' : Prop :=
  exists ep arr, 0 <= ep /\ interest (kern p) !! ep = None /\
    interest (kern p') = <[ep := ∅]> (interest (kern p)) /\
    bases w !! evb = None /\ arrays w !! arr = None /\
    bases w' = <[evb := EventBase ep arr nevent cb]> (bases w) /\
    arrays w' = <[arr := replicate (Z.to_nat nevent) (EpollEvent 0 None)]> (arrays w).

Definition same_blocks w w' : Prop := bases w' = bases w /\ arrays w' = arrays w.

Lemma wp_alloc (Q : option positive -> event_world * (proc K * U) -> Prop) w s :
  (forall w', same_blocks w w' -> Q None (w', s)) ->
  (forall x w', same_blocks w w' -> bases w !! x = None -> arrays w !! x = None -> Q (Some x) (w', s)) ->
  wp alloc Q (w, s).
Proof.
  intros H1 H2. unfold wp, alloc, next_event_block. simpl.
  destruct (ev_answers w) as [|[x|] rest]; [|case_decide as Hd|]; simpl;
    do 2 eexists; (split; [done|]); [by apply H1|by apply H2; [|apply Hd..]|by apply H1..].
Qed.

Lemma wp_close_ep ep m (Q : Z -> event_world * (proc K * U) -> Prop) w p u :
  interest (kern p) !! ep = Some m ->
  (forall x p', interest (kern p') = delete ep (interest (kern p)) -> Q x (w, (p', u))) ->
  wp (sys (c_close ep)) Q (w, (p, u)).
Proof.
  intros Hm HQ. apply wp_sys, wp_call; intros x k' E; apply HQ; simpl;
    by eapply law_epoll_close; [exact E|rewrite Hm].
Qed.

Lemma event_base_create_spec nevent cb w p u :
  wp (event_base_create nevent cb) (fun r '(w', (p', u')) => u' = u /\
    match r with
    | None => same_blocks w w' /\ interest (kern p') = interest (kern p)
    | Some evb => 0 < nevent /\ new_base nevent cb w p evb w' p'
    end) (w, (p, u)).
Proof.
  unfold event_base_create. wp_step. apply wp_sys, wp_call; intros ep k' E;
    apply law_epoll_create in E; cycle 1.
  { destruct E as [_ Hi]. simpl. repeat wp_step. done. }
  destruct E as (Hep & Hn & Hi). rewrite (proj2 (Z.ltb_ge _ _)) by done.
  assert (Hback : delete ep (interest k') = interest (kern p)) by (rewrite Hi; by apply delete_insert_id).
  assert (Hlk : interest k' !! ep = Some ∅) by (rewrite Hi; apply lookup_insert_eq).
  wp_step. unfold calloc_events. destruct (Z.leb_spec nevent 0) as [Hle|Hlt].
  { repeat wp_step. eapply wp_close_ep; [done|]. simpl. intros _ p' Hp. repeat wp_step.
    by rewrite Hp, Hback. }
  wp_step. apply wp_alloc.
  - intros w1 Hs1. repeat wp_step. eapply wp_close_ep; [done|]. intros _ p' Hp. repeat wp_step.
    simpl in Hp. by rewrite Hp, Hback.
  - intros arr w1 [Hb1 Ha1] _ Harr. wp_step. apply wp_upd. repeat wp_step. apply wp_alloc.
    + intros w2 [Hb2 Ha2]. simpl in *. wp_step. apply wp_upd. wp_step.
      eapply wp_close_ep; [done|]. intros _ p' Hp. repeat wp_step. simpl in *.
      rewrite Hp, Hback. split; [done|]. split; [|done]. split; simpl; [congruence|].
      rewrite Ha2, Ha1. by apply delete_insert_id.
    + intros evb w2 [Hb2 Ha2] Hevb _. simpl in *. wp_step. apply wp_upd. repeat wp_step.
      split; [done|]. split; [done|]. exists ep, arr. simpl.
      rewrite Hb2, Ha2, Hb1, Ha1. rewrite Hb1 in Hevb. done.
Qed.

Lemma event_base_destroy_spec evb e a R w p u :
  bases w !! evb = Some e -> arrays w !! eb_event e = Some a ->
  interest (kern p) !! eb_ep e = Some R ->
  wp (event_base_destroy (Some evb)) (fun r '(w', (p', u')) =>
    r = None /\ u' = u /\ bases w' = delete evb (bases w) /\
    arrays w' = delete (eb_event e) (arrays w) /\
    interest (kern p') = delete (eb_ep e) (interest (kern p))) (w, (p, u)).
Proof.
  intros He Ha HR. unfold event_base_destroy. wp_step. eapply wp_base; [done|]. wp_step.
  exists (Some a), (w, (p, u)). split; [unfold with_world; simpl; by rewrite Ha|]. wp_step.
  exists a, (w, (p, u)). split; [done|]. wp_step. apply wp_upd. wp_step.
  eapply wp_close_ep; [done|]. intros x p' Hp. wp_step. apply wp_upd. wp_step. done.
Qed.

End Bases.

(** ** Properties *)

(** C27: event_wait calls epoll_wait again after every signal, [k] of them, and takes
    the first other answer [ans] of the kernel; event_loop counts the [k + 1] calls.  If
    that answer is a list of events (at most nevent, as many as event_total grows by), the
    callback is called for exactly these, once each, in the order the kernel gave, with
    the pointer of the event, which is the one registered for its descriptor, and with a
    mask that has the bits of EVENT_ERR just if EPOLLERR or EPOLLHUP was reported, those
    of EVENT_READ just if EPOLLIN or EPOLLRDHUP was, those of EVENT_WRITE just if EPOLLOUT
    was, and no others ([mask_of]); a direction is reported only if it was registered;
    then the number of events is returned.  With no events the result is 0, or -1 for an
    unbounded wait; an error of the kernel gives -1 and calls nothing.  The callback may do
    anything but destroy the base or wait on it itself. *)
Theorem event_wait_dispatch {K U : Type} `{!Kernel K} `{!Epoll K} `{!EpollLaws K}
    (callbacks : Z -> option positive -> Z -> st (event_world * (proc K * U)) unit)
    (fuel : nat) (evb : positive) (e : event_base) (f timeout : Z) (R : gmap Z epoll_event)
    (a : list epoll_event) (w : event_world) (p : proc K) (u : U) :
  bases w !! evb = Some e -> eb_cb e = Some f -> arrays w !! eb_event e = Some a ->
  zlen a = eb_nevent e -> interest (kern p) !! eb_ep e = Some R ->
  keeps callbacks f evb (eb_event e) -> (waits (kern p) < fuel)%nat ->
  exists k ans w1 p1,
    wait_answer (eb_ep e) (eb_nevent e) timeout k (kern p) ans (kern p1) /\
    waited e k (events_of ans) w p w1 p1 /\ zlen (events_of ans) <= eb_nevent e /\
    (forall ev, ev ∈ events_of ans -> reported R ev) /\
    event_wait callbacks fuel evb timeout (w, (p, u)) =
      match ans with
      | Ok [] => Some (if timeout =? -1 then -1 else 0, (w1, (p1, u)))
      | Ok evs => (run_callbacks callbacks f evs;; mret (zlen evs)) (w1, (p1, u))
      | Err _ => Some (-1, (w1, (p1, u)))
      end.
Proof.
  intros He Hcb Ha Hl HR Hk Hf.
  destruct (wait_loop_spec callbacks fuel evb e timeout w p u a Hf Ha Hl)
    as (k & ans & w1 & p1 & Hans & Hw & Hr). exists k, ans, w1, p1. split; [done|]. split; [done|].
  pose proof Hw as [W1 (rest & W2 & W2') W3 W4 _ _]. split.
  { rewrite <- W2', zlen_app. pose proof (zlen_nonneg rest). lia. }
  split; [intros ev; by apply W4|]. unfold event_wait.
  erewrite bind_eq; [|unfold base, with_world, mbind, st_bind, need; simpl; by rewrite He].
  rewrite Hr. destruct ans as [[|ev evs]|er]; [done| |done].
  unfold mbind, st_bind. cbn [events_of] in *.
  change 0%nat with (length (A := epoll_event) []).
  erewrite (dispatch_eq callbacks f evb e (eb_event e) [] (ev :: evs) rest); [done|done| |done|].
  - simpl. by rewrite W1.
  - simpl. by rewrite W2, lookup_insert_eq.
Qed.

(** C28: after any sequence of event_add_read, event_add_write and
    event_del on a base, what is registered is exactly what the calls that
    returned 0 made of it: an add enters a descriptor that was not registered,
    with that one direction, a delete removes one that was; every other call
    returns -1 and changes nothing.  In particular adding a second direction to a
    registered descriptor fails and leaves the first.  event_read and event_write
    count the calls, failed ones included; other epoll instances are untouched;
    the next call is defined. *)
Theorem event_registration {K U : Type} `{!Kernel K} `{!Epoll K} `{!EpollLaws K}
    (evb : positive) (e : event_base) (R0 : gmap Z epoll_event) (w0 w : event_world)
    (p0 p : proc K) (u0 u : U) (h : list (ev_op * Z)) :
  bases w0 !! evb = Some e -> interest (kern p0) !! eb_ep e = Some R0 ->
  ev_run evb (w0, (p0, u0)) h (w, (p, u)) ->
  let R := fold_left applied h R0 in
  interest (kern p) = <[eb_ep e := R]> (interest (kern p0)) /\ valid R0 h /\
  bases w = bases w0 /\ u = u0 /\
  counts "event_read" (adds_read h) (event_metrics w0) (event_metrics w) /\
  counts "event_write" (adds_write h) (event_metrics w0) (event_metrics w) /\
  (forall op, is_Some (do_op evb op (w, (p, u)))) /\
  (forall fd data, is_Some (R !! fd) ->
     exists w' p', event_add_write evb fd data (w, (p, u)) = Some (-1, (w', (p', u))) /\
       interest (kern p') = interest (kern p)).
Proof.
  intros He HR Hrun R.
  destruct (ev_run_inv evb e R0 w0 p0 u0 h (w, (p, u)) He HR Hrun)
    as (Hb & _ & Hu & Hi & Hv & C1 & C2). simpl in *.
  assert (He' : bases w !! evb = Some e) by (by rewrite Hb).
  assert (HR' : interest (kern p) !! eb_ep e = Some R) by (by rewrite Hi, lookup_insert_eq).
  do 6 (split; [done|]). split.
  - intros op. destruct (do_op_spec evb op e R w p u He' HR') as (? & ? & -> & _). done.
  - intros fd data [ev Hfd].
    destruct (do_op_spec evb (AddWrite fd data) e R w p u He' HR')
      as (st & [w' [p' u']] & E & -> & _ & _ & Hst & Hi' & _). simpl in *.
    destruct Hst as [[_ Hst]| ->]; [congruence|]. exists w', p'. split; [done|].
    rewrite Hi'. unfold applied. simpl. by apply insert_id.
Qed.

(** Event_base_create gives a base with its own epoll instance and
    an array of nevent events, or NULL with no descriptor and no block left
    behind, whichever of the three allocations failed; destroying the base after
    any sequence of registrations clears the caller's pointer and gives
    everything back. *)
Theorem event_base_lifecycle {K U : Type} `{!Kernel K} `{!Epoll K} `{!EpollLaws K}
    (nevent : Z) (cb : option Z) (w : event_world) (p : proc K) (u : U) :
  exists r w1 p1, event_base_create nevent cb (w, (p, u)) = Some (r, (w1, (p1, u))) /\
  match r with
  | None => same_blocks w w1 /\ interest (kern p1) = interest (kern p)
  | Some evb => 0 < nevent /\ new_base nevent cb w p evb w1 p1 /\
      forall h w2 p2 u2, ev_run evb (w1, (p1, u)) h (w2, (p2, u2)) ->
        exists w3 p3, event_base_destroy (Some evb) (w2, (p2, u2)) = Some (None, (w3, (p3, u2))) /\
          same_blocks w w3 /\ interest (kern p3) = interest (kern p)
  end.
Proof.
  destruct (event_base_create_spec nevent cb w p u) as (r & [w1 [p1 u1]] & E & -> & Hr).
  exists r, w1, p1. split; [done|]. destruct r as [evb|]; [|done].
  destruct Hr as (Hn & Hnew). split; [done|]. split; [done|]. intros h w2 p2 u2 Hrun.
  destruct Hnew as (ep & arr & Hep & Hfr & Hi & Hb & Ha & Hbs & Has).
  set (e := EventBase ep arr nevent cb) in *.
  destruct (ev_run_inv evb e ∅ w1 p1 u h (w2, (p2, u2))) as (Hb2 & Ha2 & _ & Hi2 & _);
    [by rewrite Hbs, lookup_insert_eq|simpl; by rewrite Hi, lookup_insert_eq|done|]. simpl in *.
  destruct (event_base_destroy_spec evb e (replicate (Z.to_nat nevent) (EpollEvent 0 None))
    (fold_left applied h ∅) w2 p2 u2) as (r & [w3 [p3 u3]] & Ed & -> & -> & Hb3 & Ha3 & Hi3).
  - by rewrite Hb2, Hbs, lookup_insert_eq.
  - simpl. by rewrite Ha2, Has, lookup_insert_eq.
  - simpl. by rewrite Hi2, lookup_insert_eq.
  - exists w3, p3. split; [done|]. simpl in *. split; [split|].
    + rewrite Hb3, Hb2, Hbs. by apply delete_insert_id.
    + rewrite Ha3, Ha2, Has. by apply delete_insert_id.
    + rewrite Hi3, Hi2, Hi, insert_insert_eq. by apply delete_insert_id.
Qed.

(** ** An epoll that meets the laws, and witnesses

    [ek_ready]: descriptors with the conditions that hold on them. *)

Record ek := Ek { ek_int : gmap Z (gmap Z epoll_event); ek_ready : list (Z * Z); ek_sigs : nat }.

Definition ek_report (R : gmap Z epoll_event) (r : Z * Z) : option epoll_event :=
  match R !! r.1 with
  | Some reg => Some (EpollEvent (Z.land r.2 (Z.lor (ev_events reg) (Z.lor EPOLLERR EPOLLHUP)))
                        (ev_data reg))
  | None => None
  end.

#[local] Instance ek_kernel : Kernel ek := {
  k_socket _ _ _ k := (Err 1, k); k_connect _ _ k := (Err 1, k); k_bind _ _ k := (Err 1, k);
  k_listen _ _ k := (Err 1, k); k_accept _ _ k := (Err 1, k);
  k_close ep k := (Ok 0, Ek (delete ep (ek_int k)) (ek_ready k) (ek_sigs k));
  k_read _ _ k := (Err 1, k); k_readv _ _ k := (Err 1, k); k_write _ _ k := (Err 1, k);
  k_writev _ _ k := (Err 1, k); k_getfl _ k := (Err 1, k); k_setfl _ _ k := (Err 1, k);
  k_setsockopt _ _ _ _ k := (Err 1, k); k_getsockopt _ _ _ k := (Err 1, k); k_pipe k := (Err 1, k);
}.

#[local] Instance ek_epoll : Epoll ek := {
  k_epoll_create k :=
    let ep := next_fd (ek_int k) in (Ok ep, Ek (<[ep := ∅]> (ek_int k)) (ek_ready k) (ek_sigs k));
  k_epoll_ctl ep op fd ev k :=
    match ek_int k !! ep with
    | None => (Err 9, k)
    | Some R =>
        match R !! fd with
        | Some _ =>
            if op =? EPOLL_CTL_ADD then (Err EEXIST, k)
            else (Ok 0, Ek (<[ep := delete fd R]> (ek_int k)) (ek_ready k) (ek_sigs k))
        | None =>
            if op =? EPOLL_CTL_ADD
            then (Ok 0, Ek (<[ep := <[fd := ev]> R]> (ek_int k)) (ek_ready k) (ek_sigs k))
            else (Err ENOENT, k)
        end
    end;
  k_epoll_wait ep n t k :=
    match ek_sigs k, ek_int k !! ep with
    | S m, _ => (Err EINTR, Ek (ek_int k) (ek_ready k) m)
    | O, Some R => (Ok (take (Z.to_nat n) (omap (ek_report R) (ek_ready k))), k)
    | O, None => (Err 9, k)
    end;
}.

#[local] Instance ek_laws : EpollLaws ek.
Proof.
  refine {| interest := ek_int; waits := ek_sigs |}; simpl.
  - intros k a k' [= <- <-]. pose proof (next_fd_bound (ek_int k)). split; [lia|].
    split; [apply next_fd_fresh|done].
  - intros ep fd ev k a k'. destruct (ek_int k !! ep) as [R|] eqn:ER; [|by intros [= <- <-]].
    destruct (R !! fd) eqn:Efd; intros [= <- <-]; [done|]. split; [done|]. split; [done|]. by exists R.
  - intros ep fd ev k a k'. destruct (ek_int k !! ep) as [R|] eqn:ER; [|by intros [= <- <-]].
    destruct (R !! fd) eqn:Efd; intros [= <- <-]; [|done]. split; [done|]. split; [done|].
    exists R. by rewrite Efd.
  - intros ep n t k a k'. destruct (ek_sigs k) as [|m] eqn:Es.
    + destruct (ek_int k !! ep) as [R|] eqn:ER; intros [= <- <-].
      * split; [done|]. split; [unfold zlen; rewrite length_take; lia|]. split; [lia|].
        exists R. split; [done|]. intros ev Hin. apply (subseteq_take _ _ ev) in Hin.
        apply list_elem_of_omap in Hin as ([fd r] & _ & E). unfold ek_report in E. simpl in E.
        destruct (R !! fd) as [reg|] eqn:Ef; [|done]. injection E as <-. exists fd, reg.
        split; [done|]. split; [done|]. simpl. apply Z.bits_inj'. intros i Hi.
        rewrite !Z.land_spec, Z.lnot_spec, Z.bits_0 by done.
        destruct (Z.testbit r i), (Z.testbit (Z.lor (ev_events reg) (Z.lor EPOLLERR EPOLLHUP)) i); done.
      * split; [done|]. unfold EINTR. split_and!; [lia|lia|lia].
    + intros [= <- <-]. simpl. split; [done|]. unfold EINTR. split_and!; [lia|lia|lia].
  - intros ep k a k' [= <- <-]. done.
Defined.

(** Descriptor 4 is readable and writable; one signal is pending.  The callback
    keeps a log of its calls. *)
Definition log_callbacks (f : Z) (data : option positive) (mask : Z)
  : st (event_world * (proc ek * list (option positive * Z))) unit :=
  fun s => Some (tt, (s.1, (s.2.1, s.2.2 ++ [(data, mask)]))).

Definition sample_base : event_base := EventBase 3 7 2 (Some 0).
Definition sample_events : list epoll_event := [EpollEvent 0 None; EpollEvent 0 None].
Definition sample_ew : event_world :=
  EventWorld {[8%positive := sample_base]} {[7%positive := sample_events]} [] None true.
Definition sample_reg : gmap Z epoll_event := {[4 := EpollEvent EPOLLIN (Some 5%positive)]}.
Definition sample_ek : proc ek := Proc (Ek {[3 := sample_reg]} [(4, 5)] 1) 0.

Lemma event_wait_dispatch_witness :
  exists w p, event_wait log_callbacks 2 8 (-1) (sample_ew, (sample_ek, [])) =
    Some (1, (w, (p, [(Some 5%positive, EVENT_READ)]))).
Proof.
  destruct (event_wait_dispatch log_callbacks 2 8 sample_base 0 (-1) sample_reg sample_events sample_ew
    sample_ek []) as (k & ans & w1 & p1 & Hans & _ & _ & _ & Hr); try reflexivity.
  - intros data mask s x s' [= <- <-]. by split.
  - simpl. lia.
  - destruct ans as [[|ev evs]|er]; vm_compute in Hr; try discriminate Hr.
    do 2 eexists. vm_compute. reflexivity.
Defined.

Lemma event_registration_witness :
  exists w p, ev_run 8 (sample_ew, (sample_ek, tt)) [(AddWrite 6 None, 0)] (w, (p, tt)) /\
    exists w' p', event_add_write 8 4 None (w, (p, tt)) = Some (-1, (w', (p', tt))).
Proof.
  assert (Hrun : exists w p, ev_run 8 (sample_ew, (sample_ek, tt)) [(AddWrite 6 None, 0)] (w, (p, tt))).
  { do 2 eexists. change [(AddWrite 6 None, 0)] with ([] ++ [(AddWrite 6 None, 0)]).
    eapply Ev_step; [apply Ev_start|]. reflexivity. }
  destruct Hrun as (w & p & Hrun). exists w, p. split; [exact Hrun|].
  destruct (event_registration 8 sample_base sample_reg sample_ew w sample_ek p tt tt
    [(AddWrite 6 None, 0)]) as (_ & _ & _ & _ & _ & _ & _ & H); [reflexivity..|exact Hrun|].
  destruct (H 4 None) as (w' & p' & E & _); [vm_compute; by eexists|]. by exists w', p'.
Defined.

Lemma event_base_lifecycle_witness :
  exists evb w p, event_base_create 2 (Some 0)
      (EventWorld ∅ ∅ [Some 7%positive; Some 8%positive] None true, (Proc (Ek ∅ [] 0) 0, tt)) =
      Some (Some evb, (w, (p, tt))) /\ 0 < 2.
Proof.
  destruct (event_base_lifecycle 2 (Some 0)
    (EventWorld ∅ ∅ [Some 7%positive; Some 8%positive] None true) (Proc (Ek ∅ [] 0) 0) tt)
    as (r & w & p & E & Hr).
  destruct r as [evb|]; [|vm_compute in E; discriminate E].
  exists evb, w, p. split; [exact E|apply Hr].
Defined.
