(* ===== verification/Kqueue.v ===== *)
(** * The event loop on OS X (src/event/cc_kqueue.c)

    kqueue is a parameter, the class [Kqueue] over [Kernel]; [KqueueLaws] states what
    kqueue(2) documents, through a view of the filters registered.  An event base,
    its list of changes and its array of returned events are blocks of [kq_world].
    Callbacks are the program's, as in [Event], and ASSERT only logs. *)

From S2P Require Import Prelude Metric Mm Sys Timer Event.
Local Open Scope Z_scope.

Definition EVFILT_READ : Z := -1.
Definition EVFILT_WRITE : Z := -2.
Definition EV_ADD : Z := 1.
Definition EV_DELETE : Z := 2.
Definition EV_ERROR : Z := 16384. (* 0x4000 *)
Definition KQ_ENOMEM : Z := 12.
Definition KQ_EACCES : Z := 13.
Definition KQ_EFAULT : Z := 14.
Definition KQ_EINVAL : Z := 22.

Definition i16 (x : Z) : Z := (x + 32768) mod 65536 - 32768.

Record kevent := Kevent {
  ke_ident : Z; ke_filter : Z; ke_flags : Z; ke_data : Z; ke_udata : option positive }.

(** kevent(kq, changes, nchanges, ..., nevents, timeout), with the events it puts in
    the list. *)
Class Kqueue (K : Type) := {
  k_kqueue : K -> answer Z * K;
  k_kevent : Z -> list kevent -> Z -> option timespec -> K -> answer (list kevent) * K;
}.

(** struct event_base; the arrays are named by their addresses. *)
Record kq_base := KqBase {
  kb_kq : Z;
  kb_change : positive;
  kb_nchange : Z;
  kb_event : positive;
  kb_nevent : Z;
  kb_nreturned : Z;
  kb_nprocessed : Z;
  kb_cb : option Z;
}.

Record kq_world := KqWorld {
  kbases : gmap positive kq_base;
  karrays : gmap positive (list kevent);
  kq_answers : list (option positive);
  kq_metrics : metrics_st;
}.

Definition set_kbases (w : kq_world) (bs : gmap positive kq_base) : kq_world :=
  KqWorld bs (karrays w) (kq_answers w) (kq_metrics w).
Definition set_karrays (w : kq_world) (a : gmap positive (list kevent)) : kq_world :=
  KqWorld (kbases w) a (kq_answers w) (kq_metrics w).
Definition on_kmetrics (f : metrics_st -> metrics_st) (w : kq_world) : kq_world :=
  KqWorld (kbases w) (karrays w) (kq_answers w) (f (kq_metrics w)).

(** The next answer of the allocator: an address that is in use is not one. *)
Definition next_kq_block (w : kq_world) : option positive * kq_world :=
  match kq_answers w with
  | [] => (None, w)
  | a :: rest =>
      (match a with
       | Some p => if decide (kbases w !! p = None /\ karrays w !! p = None) then Some p else None
       | None => None
       end, KqWorld (kbases w) (karrays w) rest (kq_metrics w))
  end.

Definition set_nchange (n : Z) (e : kq_base) : kq_base :=
  KqBase (kb_kq e) (kb_change e) n (kb_event e) (kb_nevent e) (kb_nreturned e) (kb_nprocessed e) (kb_cb e).
Definition set_nreturned (n : Z) (e : kq_base) : kq_base :=
  KqBase (kb_kq e) (kb_change e) (kb_nchange e) (kb_event e) (kb_nevent e) n (kb_nprocessed e) (kb_cb e).
Definition set_nprocessed (n : Z) (e : kq_base) : kq_base :=
  KqBase (kb_kq e) (kb_change e) (kb_nchange e) (kb_event e) (kb_nevent e) (kb_nreturned e) n (kb_cb e).

(** What the body of the loop passes to the callback, [None] where it continues. *)
Definition kevent_mask (ev : kevent) : option Z :=
  let events := 0 in
  events ← (if negb (Z.land (ke_flags ev) EV_ERROR =? 0) then
              if negb (ke_data ev =? KQ_ENOMEM) && negb (ke_data ev =? KQ_EFAULT) &&
                 negb (ke_data ev =? KQ_EACCES) && negb (ke_data ev =? KQ_EINVAL)
              then None else Some (Z.lor events EVENT_ERR)
            else Some events);
  let events := if ke_filter ev =? EVFILT_READ then Z.lor events EVENT_READ else events in
  let events := if ke_filter ev =? EVFILT_WRITE then Z.lor events EVENT_WRITE else events in
  Some events.

(** The timeout of event_wait in milliseconds as a timespec. *)
Definition kq_timeout (timeout : Z) : option timespec :=
  if timeout <? 0 then None
  else Some (Timespec (Z.quot timeout 1000) (Z.rem timeout 1000 * 1000000)).

Section Ops.
Context {K U : Type} `{!Kernel K} `{!Kqueue K}.

Abbreviation io A := (st (kq_world * (proc K * U)) A).

Context (callbacks : Z -> option positive -> Z -> io unit).

Definition ksys {A} (m : st (proc K) A) : io A := on_snd (on_fst m).
Definition kneed {A} (o : option A) : io A := fun s =>
  match o with Some x => Some (x, s) | None => None end.
Definition kget {A} (f : kq_world -> A) : io A := fun s => Some (f s.1, s).
Definition kupd (f : kq_world -> kq_world) : io unit := on_fst (modify f).
Definition kincr_n (field : string) (n : Z) : io unit := kupd (on_kmetrics (fun ms => INCR_N ms field n)).
Definition kalloc : io (option positive) := fun s =>
  let '(p, w) := next_kq_block s.1 in Some (p, (w, s.2)).

(** *evb, an array of the base, and a store to *evb *)
Definition kbase (evb : positive) : io kq_base := kget (fun w => kbases w !! evb) ≫= kneed.
Definition karray (a : positive) : io (list kevent) := kget (fun w => karrays w !! a) ≫= kneed.
Definition kset (evb : positive) (f : kq_base -> kq_base) : io unit :=
  e ← kbase evb; kupd (fun w => set_kbases w (<[evb := f e]> (kbases w))).

(** cc_calloc(nevent, sizeof(struct kevent)) *)
Definition calloc_kevents (nevent : Z) : io (option positive) :=
  if nevent <=? 0 then mret None else
  p ← kalloc;
  match p with
  | Some a =>
      kupd (fun w => set_karrays w (<[a := replicate (Z.to_nat nevent) (Kevent 0 0 0 0 None)]> (karrays w)));;
      mret (Some a)
  | None => mret None
  end.

(** cc_free of an array *)
Definition free_kevents (a : positive) : io unit :=
  karray a;; kupd (fun w => set_karrays w (delete a (karrays w))).

Definition event_base_create (nevent : Z) (cb : option Z) : io (option positive) :=
  kq ← ksys (call k_kqueue);
  if kq <? 0 then mret None else
  change ← calloc_kevents nevent;
  match change with
  | None => ksys (c_close kq);; mret None
  | Some change =>
      event ← calloc_kevents nevent;
      match event with
      | None => free_kevents change;; ksys (c_close kq);; mret None
      | Some event =>
          evb ← kalloc;
          match evb with
          | None => free_kevents change;; free_kevents event;; ksys (c_close kq);; mret None
          | Some evb =>
              kupd (fun w => set_kbases w
                (<[evb := KqBase kq change 0 event nevent 0 0 cb]> (kbases w)));;
              mret (Some evb)
          end
      end
  end.

(** The new value of *evb. *)
Definition event_base_destroy (evb : option positive) : io (option positive) :=
  match evb with
  | None => mret None
  | Some p =>
      e ← kbase p;
      free_kevents (kb_change e);;
      free_kevents (kb_event e);;
      ksys (c_close (kb_kq e));;
      kupd (fun w => set_kbases w (delete p (kbases w)));;
      mret None
  end.

(** The result of kevent is not looked at. *)
Definition _event_update (evb : positive) (fd flags fflags : Z) (data : option positive) : io unit :=
  e ← kbase evb;
  a ← karray (kb_change e);
  (if (0 <=? kb_nchange e) && (kb_nchange e <? zlen a) then mret tt else stuck);;
  kset evb (set_nchange (kb_nchange e + 1));;
  kupd (fun w => set_karrays w (<[kb_change e :=
    <[Z.to_nat (kb_nchange e) := Kevent (u64 fd) (i16 flags) (u16 fflags) 0 data]> a]> (karrays w)));;
  e ← kbase evb;
  a ← karray (kb_change e);
  ksys (call_data zlen [] (k_kevent (kb_kq e) (take (Z.to_nat (kb_nchange e)) a) 0 None));;
  kset evb (set_nchange 0).

Definition event_add_read (evb : positive) (fd : Z) (data : option positive) : io Z :=
  _event_update evb fd (u16 EVFILT_READ) EV_ADD data;;
  kincr_n "event_read" 1;;
  mret 0.

Definition event_add_write (evb : positive) (fd : Z) (data : option positive) : io Z :=
  _event_update evb fd (u16 EVFILT_WRITE) EV_ADD data;;
  kincr_n "event_write" 1;;
  mret 0.

Definition event_del (evb : positive) (fd : Z) : io Z :=
  _event_update evb fd (u16 EVFILT_READ) EV_DELETE None;;
  _event_update evb fd (u16 EVFILT_WRITE) EV_DELETE None;;
  mret 0.

(** evb->nreturned = kevent(kq, evb->change, evb->nchange, evb->event, evb->nevent,
    tsp): the events go to the front of the array. *)
Definition kwait_call (evb : positive) (kq : Z) (tsp : option timespec) : io Z :=
  e ← kbase evb;
  c ← karray (kb_change e);
  '(n, evs) ← ksys (call_data zlen [] (k_kevent kq (take (Z.to_nat (kb_nchange e)) c) (kb_nevent e) tsp));
  a ← karray (kb_event e);
  if Nat.ltb (length a) (length evs) then stuck else
  kupd (fun w => set_karrays w (<[kb_event e := evs ++ drop (length evs) a]> (karrays w)));;
  kset evb (set_nreturned n);;
  mret n.

(** The loop over the events returned. *)
Fixpoint kdispatch (fuel : nat) (evb : positive) : io unit :=
  match fuel with
  | O => stuck
  | S fuel =>
      e ← kbase evb;
      if kb_nprocessed e <? kb_nreturned e then
        a ← karray (kb_event e);
        ev ← kneed (a !! Z.to_nat (kb_nprocessed e));
        (match kevent_mask ev, kb_cb e with
         | Some events, Some f => if events =? 0 then mret tt else callbacks f (ke_udata ev) events
         | _, _ => mret tt
         end);;
        e ← kbase evb;
        kset evb (set_nprocessed (kb_nprocessed e + 1));;
        kdispatch fuel evb
      else mret tt
  end.

Fixpoint kwait_loop (fuel : nat) (evb : positive) (kq timeout : Z) : io Z :=
  match fuel with
  | O => stuck
  | S fuel =>
      nreturned ← kwait_call evb kq (kq_timeout timeout);
      kincr_n "event_loop" 1;;
      kset evb (set_nchange 0);;
      if 0 <? nreturned then
        kincr_n "event_total" nreturned;;
        kset evb (set_nprocessed 0);;
        kdispatch (S (Z.to_nat nreturned)) evb;;
        e ← kbase evb;
        mret (kb_nreturned e)
      else if nreturned =? 0 then
        mret (if timeout =? -1 then -1 else 0)
      else
        er ← ksys c_errno;
        if er =? EINTR then kwait_loop fuel evb kq timeout else mret (-1)
  end.

Definition event_wait (fuel : nat) (evb : positive) (timeout : Z) : io Z :=
  e ← kbase evb;
  kwait_loop fuel evb (kb_kq e) timeout.

End Ops.

(** ** What kqueue documents

    [filters k]: for each kqueue, the user data registered by descriptor and
    filter; [kwaits k]: the signals that are still to interrupt a wait. *)

Class KqueueLaws (K : Type) `{!Kernel K} `{!Kqueue K} := {
  filters : K -> gmap Z (gmap (Z * Z) (option positive));
  kwaits : K -> nat;
  law_kqueue k a k' : k_kqueue k = (a, k') ->
    match a with
    | Ok kq => 0 <= kq /\ filters k !! kq = None /\ filters k' = <[kq := ∅]> (filters k)
    | Err e => 0 < e /\ filters k' = filters k
    end;
  (** adding what is registered replaces its user data *)
  law_kevent_add kq ident filter ud k a k' :
    k_kevent kq [Kevent ident filter EV_ADD 0 ud] 0 None k = (a, k') ->
    kwaits k' = kwaits k /\
    match a with
    | Ok evs => evs = [] /\ exists m, filters k !! kq = Some m /\
        filters k' = <[kq := <[(ident, filter) := ud]> m]> (filters k)
    | Err e => 0 < e /\ filters k' = filters k
    end;
  law_kevent_delete kq ident filter ud k a k' :
    k_kevent kq [Kevent ident filter EV_DELETE 0 ud] 0 None k = (a, k') ->
    kwaits k' = kwaits k /\
    match a with
    | Ok evs => evs = [] /\ exists m, filters k !! kq = Some m /\ is_Some (m !! (ident, filter)) /\
        filters k' = <[kq := delete (ident, filter) m]> (filters k)
    | Err e => 0 < e /\ filters k' = filters k
    end;
  (** the events reported are registered *)
  law_kevent_wait kq n t k a k' : k_kevent kq [] n t k = (a, k') ->
    filters k' = filters k /\
    match a with
    | Ok evs => zlen evs <= Z.max 0 n /\ (kwaits k' <= kwaits k)%nat /\
        exists m, filters k !! kq = Some m /\
        forall ev, ev ∈ evs -> m !! (ke_ident ev, ke_filter ev) = Some (ke_udata ev)
    | Err e => 0 < e /\ (kwaits k' <= kwaits k)%nat /\ (e = EINTR -> (kwaits k' < kwaits k)%nat)
    end;
  law_kq_close kq k a k' : k_close kq k = (a, k') -> is_Some (filters k !! kq) ->
    filters k' = delete kq (filters k);
}.

(** ** Registration *)

(** A change to what is registered, and whether the kernel took it. *)
Definition changed (R : gmap (Z * Z) (option positive)) (fd filter : Z) (ud : option (option positive))
    (ok : bool) : gmap (Z * Z) (option positive) :=
  if ok then match ud with Some ud => <[(fd, filter) := ud]> R | None => delete (fd, filter) R end else R.

(** What is registered after a call; [ok1] and [ok2] are what the kernel made of its
    changes. *)
Definition kapplied (R : gmap (Z * Z) (option positive)) (c : ev_op * (bool * bool))
  : gmap (Z * Z) (option positive) :=
  match c.1 with
  | AddRead fd data => changed R (u64 fd) EVFILT_READ (Some data) c.2.1
  | AddWrite fd data => changed R (u64 fd) EVFILT_WRITE (Some data) c.2.1
  | Del fd => changed (changed R (u64 fd) EVFILT_READ None c.2.1) (u64 fd) EVFILT_WRITE None c.2.2
  end.

(** A base at rest: nothing in its list of changes, and arrays of its size. *)
Record at_rest (w : kq_world) (evb : positive) (e : kq_base) : Prop := {
  ar_base : kbases w !! evb = Some e;
  ar_nchange : kb_nchange e = 0;
  ar_nevent : 0 < kb_nevent e;
  ar_change : exists c, karrays w !! kb_change e = Some c /\ zlen c = kb_nevent e;
  ar_event : exists a, karrays w !! kb_event e = Some a /\ zlen a = kb_nevent e;
  ar_apart : kb_change e ≠ kb_event e;
}.

(** [w'] differs from [w] in the metrics and the contents of the list of changes. *)
Definition change_only (e : kq_base) (w w' : kq_world) : Prop :=
  kbases w' = kbases w /\ exists c, karrays w' = <[kb_change e := c]> (karrays w) /\ zlen c = kb_nevent e.

Section Wp.
Context {K U : Type} `{!Kernel K} `{!Kqueue K} `{!KqueueLaws K}.
Implicit Types (w : kq_world) (p : proc K) (u : U) (evb : positive) (e : kq_base).

Lemma wp_kbase evb e (Q : kq_base -> kq_world * (proc K * U) -> Prop) w s :
  kbases w !! evb = Some e -> Q e (w, s) -> wp (kbase evb) Q (w, s).
Proof. intros H HQ. exists e, (w, s). unfold kbase, kget, mbind, st_bind. simpl. by rewrite H. Qed.

Lemma wp_karray x a (Q : list kevent -> kq_world * (proc K * U) -> Prop) w s :
  karrays w !! x = Some a -> Q a (w, s) -> wp (karray x) Q (w, s).
Proof. intros H HQ. exists a, (w, s). unfold karray, kget, mbind, st_bind. simpl. by rewrite H. Qed.

Lemma wp_ksys {A} (m : st (proc K) A) (Q : A -> kq_world * (proc K * U) -> Prop) w p u :
  wp m (fun x p' => Q x (w, (p', u))) p -> wp (ksys m) Q (w, (p, u)).
Proof. intros H. unfold ksys. by apply wp_snd, wp_fst. Qed.

Lemma wp_kupd f (Q : unit -> kq_world * (proc K * U) -> Prop) w s :
  Q tt (f w, s) -> wp (kupd f) Q (w, s).
Proof. intros H. unfold kupd. by apply wp_fst, wp_modify. Qed.

Lemma wp_kset evb f e (Q : unit -> kq_world * (proc K * U) -> Prop) w s :
  kbases w !! evb = Some e -> Q tt (set_kbases w (<[evb := f e]> (kbases w)), s) ->
  wp (kset evb f) Q (w, s).
Proof. intros H HQ. unfold kset. wp_step. eapply wp_kbase; [done|]. by apply wp_kupd. Qed.

(** One change, whatever the kernel makes of it. *)
Lemma event_update_spec evb e fd filter flags data ud R w p u :
  at_rest w evb e -> filters (kern p) !! kb_kq e = Some R ->
  (flags = EV_ADD /\ ud = Some data \/ flags = EV_DELETE /\ ud = None) ->
  -32768 <= filter < 32768 ->
  wp (_event_update evb fd (u16 filter) flags data) (fun _ '(w', (p', u')) =>
    u' = u /\ change_only e w w' /\ kq_metrics w' = kq_metrics w /\ kq_answers w' = kq_answers w /\
    kwaits (kern p') = kwaits (kern p) /\
    exists ok, filters (kern p') = <[kb_kq e := changed R (u64 fd) filter ud ok]> (filters (kern p)) /\
      (ok = true -> ud = None -> is_Some (R !! (u64 fd, filter)))) (w, (p, u)).
Proof.
  intros [Hb Hn Hne (c & Hc & Hcl) _ _] HR Hud Hf. unfold _event_update. wp_step.
  eapply wp_kbase; [done|]. wp_step. eapply wp_karray; [done|]. rewrite Hn.
  assert (Hlt : (0 <=? 0) && (0 <? zlen c) = true) by (rewrite (proj2 (Z.ltb_lt _ _)); [done|lia]).
  rewrite Hlt. wp_step. wp_step. wp_step. eapply wp_kset; [done|]. wp_step. apply wp_kupd. simpl.
  wp_step. eapply wp_kbase; [apply lookup_insert_eq|]. simpl. wp_step.
  eapply wp_karray; [apply lookup_insert_eq|]. wp_step.
  destruct c as [|c0 c]; [unfold zlen in *; simpl in *; lia|]. simpl.
  assert (Hi : i16 (u16 filter) = filter) by (unfold i16, u16; mlia). rewrite Hi, take_0.
  assert (Hu : u16 flags = flags) by (unfold u16; destruct Hud as [[-> _]|[-> _]]; done). rewrite Hu.
  assert (Hbk : <[evb := set_nchange 0 (set_nchange (0 + 1) e)]> (<[evb := set_nchange (0 + 1) e]> (kbases w))
    = kbases w).
  { rewrite insert_insert_eq. apply insert_id. rewrite Hb. destruct e. simpl in *. by subst. }
  assert (Hpost : forall p' ok, kwaits (kern p') = kwaits (kern p) ->
    filters (kern p') = <[kb_kq e := changed R (u64 fd) filter ud ok]> (filters (kern p)) ->
    (ok = true -> ud = None -> is_Some (R !! (u64 fd, filter))) ->
    wp (kset (U := U) evb (set_nchange 0)) (fun _ '(w', (p', u')) =>
    u' = u /\ change_only e w w' /\ kq_metrics w' = kq_metrics w /\ kq_answers w' = kq_answers w /\
    kwaits (kern p') = kwaits (kern p) /\
    exists ok, filters (kern p') = <[kb_kq e := changed R (u64 fd) filter ud ok]> (filters (kern p)) /\
      (ok = true -> ud = None -> is_Some (R !! (u64 fd, filter))))
    (set_karrays (set_kbases w (<[evb := set_nchange (0 + 1) e]> (kbases w)))
      (<[kb_change e := Kevent (u64 fd) filter flags 0 data :: c]> (karrays w)), (p', u))).
  { intros p' ok P1 P2 P3. eapply wp_kset; [apply lookup_insert_eq|]. simpl. rewrite Hbk.
    split_and!; try done; [|by exists ok]. split; [done|]. eexists. by split. }
  apply wp_ksys, wp_call_data; intros x k' E; destruct Hud as [[-> ->]|[-> ->]].
  - apply law_kevent_add in E as (W & _ & m & Hm & Hk). simplify_eq. by apply (Hpost _ true).
  - apply law_kevent_delete in E as (W & _ & m & Hm & Hd & Hk). simplify_eq. by apply (Hpost _ true).
  - apply law_kevent_add in E as (W & _ & Hk). apply (Hpost _ false); [done| |done].
    simpl. rewrite Hk. by rewrite insert_id.
  - apply law_kevent_delete in E as (W & _ & Hk). apply (Hpost _ false); [done| |done].
    simpl. rewrite Hk. by rewrite insert_id.
Qed.

Lemma at_rest_change evb e w w' : at_rest w evb e -> change_only e w w' -> at_rest w' evb e.
Proof.
  intros [Hb Hn Hne Hc (a & Ha & Hal) Hap] (Eb & c & Ec & Ecl). split; try done.
  - by rewrite Eb.
  - exists c. by rewrite Ec, lookup_insert_eq.
  - exists a. by rewrite Ec, lookup_insert_ne.
Qed.

Lemma change_only_trans e w w1 w2 : change_only e w w1 -> change_only e w1 w2 -> change_only e w w2.
Proof.
  intros (E1 & c1 & A1 & L1) (E2 & c2 & A2 & L2). split; [congruence|]. exists c2.
  by rewrite A2, A1, insert_insert_eq.
Qed.

End Wp.

Section Registration.
Context {K U : Type} `{!Kernel K} `{!Kqueue K} `{!KqueueLaws K}.
Implicit Types (w : kq_world) (p : proc K) (u : U) (evb : positive) (e : kq_base).

Definition kdo_op evb (op : ev_op) : st (kq_world * (proc K * U)) Z :=
  match op with
  | AddRead fd data => event_add_read evb fd data
  | AddWrite fd data => event_add_write evb fd data
  | Del fd => event_del evb fd
  end.

(** The calls a program makes on a base, with their results. *)
Inductive kq_run evb (s0 : kq_world * (proc K * U))
  : list (ev_op * Z) -> kq_world * (proc K * U) -> Prop :=
| Kq_start : kq_run evb s0 [] s0
| Kq_step h s op r s' :
    kq_run evb s0 h s -> kdo_op evb op s = Some (r, s') -> kq_run evb s0 (h ++ [(op, r)]) s'.

(** One call: the result is 0 and only the answers of the kernel decide what became
    of the changes. *)
Lemma kdo_op_spec evb op e R w p u :
  at_rest w evb e -> filters (kern p) !! kb_kq e = Some R ->
  wp (kdo_op evb op) (fun r '(w', (p', u')) =>
    r = 0 /\ u' = u /\ change_only e w w' /\ kwaits (kern p') = kwaits (kern p) /\
    (exists oks, filters (kern p') = <[kb_kq e := kapplied R (op, oks)]> (filters (kern p))) /\
    counts "event_read" (adds_read [(op, r)]) (kq_metrics w) (kq_metrics w') /\
    counts "event_write" (adds_write [(op, r)]) (kq_metrics w) (kq_metrics w')) (w, (p, u)).
Proof.
  intros Ha HR. destruct op as [fd data|fd data|fd]; simpl.
  - unfold event_add_read. wp_step.
    eapply wp_mono; [apply (event_update_spec evb e fd EVFILT_READ EV_ADD data (Some data) R w p u Ha HR);
      [by left|unfold EVFILT_READ; lia]|].
    intros _ [w1 [p1 u1]] (-> & Hc & Hm & _ & Hw & ok & Hf & _). wp_step. apply wp_kupd. wp_step.
    split_and!; try done; [by exists (ok, true)|..]; simpl; rewrite <- Hm;
      unfold adds_read, adds_write, zlen; simpl; counts.
  - unfold event_add_write. wp_step.
    eapply wp_mono; [apply (event_update_spec evb e fd EVFILT_WRITE EV_ADD data (Some data) R w p u Ha HR);
      [by left|unfold EVFILT_WRITE; lia]|].
    intros _ [w1 [p1 u1]] (-> & Hc & Hm & _ & Hw & ok & Hf & _). wp_step. apply wp_kupd. wp_step.
    split_and!; try done; [by exists (ok, true)|..]; simpl; rewrite <- Hm;
      unfold adds_read, adds_write, zlen; simpl; counts.
  - unfold event_del. wp_step.
    eapply wp_mono; [apply (event_update_spec evb e fd EVFILT_READ EV_DELETE None None R w p u Ha HR);
      [by right|unfold EVFILT_READ; lia]|].
    intros _ [w1 [p1 u1]] (-> & Hc & Hm & _ & Hw & ok & Hf & _). wp_step.
    eapply wp_mono; [apply (event_update_spec evb e fd EVFILT_WRITE EV_DELETE None None
      (changed R (u64 fd) EVFILT_READ None ok) w1 p1 u);
      [by eapply at_rest_change|by rewrite Hf, lookup_insert_eq|by right|unfold EVFILT_WRITE; lia]|].
    intros _ [w2 [p2 u2]] (-> & Hc2 & Hm2 & _ & Hw2 & ok2 & Hf2 & _). wp_step.
    split_and!; try done; [by eapply change_only_trans|congruence|..].
    + exists (ok, ok2). rewrite Hf2, Hf, insert_insert_eq. done.
    + rewrite Hm2, Hm. apply counts_refl.
    + rewrite Hm2, Hm. apply counts_refl.
Qed.

Lemma kq_run_inv evb e R0 w0 p0 u0 h s :
  at_rest w0 evb e -> filters (kern p0) !! kb_kq e = Some R0 ->
  kq_run evb (w0, (p0, u0)) h s ->
  at_rest s.1 evb e /\ kbases s.1 = kbases w0 /\ s.2.2 = u0 /\ Forall (fun c => c.2 = 0) h /\
  (exists c, karrays s.1 = <[kb_change e := c]> (karrays w0)) /\
  (exists oks, length oks = length h /\ filters (kern s.2.1) =
     <[kb_kq e := fold_left kapplied (zip h.*1 oks) R0]> (filters (kern p0))) /\
  counts "event_read" (adds_read h) (kq_metrics w0) (kq_metrics s.1) /\
  counts "event_write" (adds_write h) (kq_metrics w0) (kq_metrics s.1).
Proof.
  intros Ha HR. induction 1 as [|h [w [p u]] op r [w' [p' u']] _ IH E].
  - simpl. split_and!; try done; try apply counts_refl.
    + pose proof Ha as [_ _ _ (c & Hc & _) _ _]. exists c. by rewrite insert_id.
    + exists []. split; [done|]. simpl. by rewrite insert_id.
  - simpl in *. destruct IH as (Ha' & Hb & -> & Hall & (c & Hc) & (oks & Hlen & Hi) & C1 & C2).
    set (R := fold_left kapplied (zip h.*1 oks) R0) in *.
    pose proof (kdo_op_spec evb op e R w p u0 Ha') as Hwp.
    eapply wp_det in E; [|apply Hwp; by rewrite Hi, lookup_insert_eq].
    destruct E as (-> & -> & Hch & _ & (ok & Hok) & C1' & C2').
    pose proof Hch as (Hb' & c' & Hc' & _).
    split_and!; try done.
    + by eapply at_rest_change.
    + by rewrite Hb'.
    + apply Forall_app. by split; [|repeat constructor].
    + exists c'. by rewrite Hc', Hc, insert_insert_eq.
    + exists (oks ++ [ok]). rewrite !length_app, Hlen. split; [done|].
      rewrite fmap_app, zip_with_app by (by rewrite length_fmap). rewrite fold_left_app. simpl.
      by rewrite Hok, Hi, insert_insert_eq.
    + unfold adds_read in *. rewrite zlen_filter_snoc. by eapply counts_trans.
    + unfold adds_write in *. rewrite zlen_filter_snoc. by eapply counts_trans.
Qed.

End Registration.

(** ** Waiting *)

(** Exactly the errors a callback should see are passed on. *)
Lemma kevent_mask_bits ev :
  match kevent_mask ev with
  | None => Z.land (ke_flags ev) EV_ERROR ≠ 0 /\ ke_data ev ∉ [KQ_ENOMEM; KQ_EFAULT; KQ_EACCES; KQ_EINVAL]
  | Some m =>
      (Z.land m EVENT_ERR = if Z.land (ke_flags ev) EV_ERROR =? 0 then 0 else EVENT_ERR) /\
      (Z.land m EVENT_READ = if ke_filter ev =? EVFILT_READ then EVENT_READ else 0) /\
      (Z.land m EVENT_WRITE = if ke_filter ev =? EVFILT_WRITE then EVENT_WRITE else 0) /\
      Z.land m (Z.lnot (Z.lor EVENT_ERR (Z.lor EVENT_READ EVENT_WRITE))) = 0
  end.
Proof.
  unfold kevent_mask. destruct (Z.eqb_spec (Z.land (ke_flags ev) EV_ERROR) 0) as [H|H]; simpl.
  - destruct (ke_filter ev =? EVFILT_READ), (ke_filter ev =? EVFILT_WRITE); by vm_compute.
  - destruct (Z.eqb_spec (ke_data ev) KQ_ENOMEM), (Z.eqb_spec (ke_data ev) KQ_EFAULT),
      (Z.eqb_spec (ke_data ev) KQ_EACCES), (Z.eqb_spec (ke_data ev) KQ_EINVAL); simpl;
      try (destruct (ke_filter ev =? EVFILT_READ), (ke_filter ev =? EVFILT_WRITE); by vm_compute).
    split; [done|]. rewrite !not_elem_of_cons. split_and!; try done. by apply not_elem_of_nil.
Qed.

Section Wait.
Context {K U : Type} `{!Kernel K} `{!Kqueue K} `{!KqueueLaws K}.
Context (callbacks : Z -> option positive -> Z -> st (kq_world * (proc K * U)) unit).
Implicit Types (w : kq_world) (p : proc K) (u : U) (evb : positive) (e : kq_base).

(** What the loop does for an event. *)
Definition handle (cb : option Z) (ev : kevent) : st (kq_world * (proc K * U)) unit :=
  match kevent_mask ev, cb with
  | Some events, Some f => if events =? 0 then mret tt else callbacks f (ke_udata ev) events
  | _, _ => mret tt
  end.

(** The callback for each event, in order, with evb->nprocessed counting. *)
Fixpoint handle_all evb (cb : option Z) (i : Z) (evs : list kevent)
  : st (kq_world * (proc K * U)) unit :=
  match evs with
  | [] => mret tt
  | ev :: evs =>
      handle cb ev;;
      kset evb (set_nprocessed (i + 1));;
      handle_all evb cb (i + 1) evs
  end.

(** The callback leaves the base and its array of events alone: it neither destroys
    the base nor waits on it itself.  It may register and delete events. *)
Definition kkeeps (cb : option Z) evb (arr : positive) : Prop :=
  forall f data mask s x s', cb = Some f -> callbacks f data mask s = Some (x, s') ->
    kbases s'.1 !! evb = kbases s.1 !! evb /\ karrays s'.1 !! arr = karrays s.1 !! arr.

Lemma handle_keeps cb evb arr ev s x s' :
  kkeeps cb evb arr -> handle cb ev s = Some (x, s') ->
  kbases s'.1 !! evb = kbases s.1 !! evb /\ karrays s'.1 !! arr = karrays s.1 !! arr.
Proof using Type.
  intros Hk. unfold handle.
  destruct (kevent_mask ev) as [m|]; [|by intros [= _ <-]].
  destruct cb as [f|]; [|by intros [= _ <-]].
  destruct (m =? 0); [by intros [= _ <-]|]. by apply Hk.
Qed.

Lemma kbase_eq evb e s :
  kbases s.1 !! evb = Some e -> kbase (K := K) (U := U) evb s = Some (e, s).
Proof using Type. intros H. unfold kbase, kget, mbind, st_bind. simpl. by rewrite H. Qed.

Lemma karray_eq x a s :
  karrays s.1 !! x = Some a -> karray (K := K) (U := U) x s = Some (a, s).
Proof using Type. intros H. unfold karray, kget, mbind, st_bind. simpl. by rewrite H. Qed.

Lemma kset_eq evb f e w s :
  kbases w !! evb = Some e ->
  kset (K := K) (U := U) evb f (w, s) = Some (tt, (set_kbases w (<[evb := f e]> (kbases w)), s)).
Proof using Type. intros H. unfold kset. by rewrite (bind_eq _ _ _ _ _ (kbase_eq evb e (w, s) H)). Qed.

Lemma bind_ext {S A B} (m : st S A) (k1 k2 : A -> st S B) s :
  (forall x s', m s = Some (x, s') -> k1 x s' = k2 x s') -> (m ≫= k1) s = (m ≫= k2) s.
Proof using Type. unfold mbind, st_bind. destruct (m s) as [[x s']|]; auto. Qed.

Lemma kdispatch_eq evb evs : forall fuel pre post e s,
  kkeeps (kb_cb e) evb (kb_event e) -> kbases s.1 !! evb = Some e ->
  karrays s.1 !! kb_event e = Some (pre ++ evs ++ post) ->
  kb_nprocessed e = zlen pre -> kb_nreturned e = zlen (pre ++ evs) -> (length evs < fuel)%nat ->
  kdispatch callbacks fuel evb s = handle_all evb (kb_cb e) (zlen pre) evs s.
Proof using Type.
  induction evs as [|ev evs IH]; intros fuel pre post e s Hk Hb Ha Hp Hr Hf;
    (destruct fuel as [|fuel]; [simpl in Hf; lia|]); cbn [kdispatch handle_all].
  - rewrite (bind_eq _ _ _ _ _ (kbase_eq evb e s Hb)).
    rewrite Hp, Hr, app_nil_r, Z.ltb_irrefl. done.
  - rewrite (bind_eq _ _ _ _ _ (kbase_eq evb e s Hb)).
    rewrite Hp, Hr, zlen_app, zlen_cons. pose proof (zlen_nonneg evs).
    rewrite (proj2 (Z.ltb_lt _ _)) by lia.
    rewrite (bind_eq _ _ _ _ _ (karray_eq _ _ s Ha)).
    assert (Hi : (pre ++ (ev :: evs) ++ post) !! Z.to_nat (zlen pre) = Some ev).
    { unfold zlen. rewrite Nat2Z.id. by apply list_lookup_middle. }
    erewrite bind_eq; [|unfold kneed; by rewrite Hi].
    apply bind_ext. intros x [w1 s1] E.
    destruct (handle_keeps _ _ _ _ _ _ _ Hk E) as [Hb1 Ha1]. simpl in Hb1, Ha1.
    rewrite Hb in Hb1. rewrite Ha in Ha1.
    rewrite (bind_eq _ _ _ _ _ (kbase_eq evb e (w1, s1) Hb1)), Hp.
    rewrite !(bind_eq _ _ _ _ _ (kset_eq evb _ e w1 s1 Hb1)).
    replace (zlen pre + 1) with (zlen (pre ++ [ev])) by (rewrite zlen_app; done).
    apply (IH fuel (pre ++ [ev]) post (set_nprocessed (zlen (pre ++ [ev])) e)); simpl.
    + done.
    + apply lookup_insert_eq.
    + by rewrite Ha1, <- app_assoc.
    + done.
    + by rewrite Hr, <- app_assoc.
    + simpl in Hf. lia.
Qed.

(** The base survives the callbacks but for its count of events processed. *)
Lemma handle_all_base evb cb arr evs : forall i e s x s',
  kkeeps cb evb arr -> kbases s.1 !! evb = Some e ->
  handle_all evb cb i evs s = Some (x, s') ->
  exists n, kbases s'.1 !! evb = Some (set_nprocessed n e).
Proof using Type.
  induction evs as [|ev evs IH]; intros i e s x s' Hk Hb; cbn [handle_all].
  - intros [= _ <-]. exists (kb_nprocessed e). rewrite Hb. by destruct e.
  - unfold mbind, st_bind. destruct (handle cb ev s) as [[y [w1 s1]]|] eqn:E; [|done].
    destruct (handle_keeps _ _ _ _ _ _ _ Hk E) as [Hb1 _]. simpl in Hb1. rewrite Hb in Hb1.
    rewrite (kset_eq evb _ e w1 s1 Hb1). intros H.
    destruct (IH _ (set_nprocessed (i + 1) e) _ _ _ Hk (lookup_insert_eq _ _ _) H) as [n Hn].
    by exists n.
Qed.

(** The whole of the loop over the events, and the result that is read from the
    base after it. *)
Lemma kdispatch_bind evb e evs post fuel s :
  kkeeps (kb_cb e) evb (kb_event e) -> kbases s.1 !! evb = Some e ->
  karrays s.1 !! kb_event e = Some (evs ++ post) -> kb_nprocessed e = 0 ->
  kb_nreturned e = zlen evs -> (length evs < fuel)%nat ->
  (kdispatch callbacks fuel evb;; e ← kbase evb; mret (kb_nreturned e)) s =
  (handle_all evb (kb_cb e) 0 evs;; mret (zlen evs)) s.
Proof using Type.
  intros Hk Hb Ha Hp Hr Hf.
  transitivity ((handle_all evb (kb_cb e) 0 evs;; e ← kbase evb; mret (kb_nreturned e)) s).
  { unfold mbind, st_bind. by rewrite (kdispatch_eq evb evs fuel [] post e s). }
  apply bind_ext. intros x s' E.
  destruct (handle_all_base evb (kb_cb e) (kb_event e) evs 0 e s x s' Hk Hb E) as [n Hn].
  rewrite (bind_eq _ _ _ _ _ (kbase_eq evb _ s' Hn)). simpl. by rewrite Hr.
Qed.

Lemma kwait_call_eq evb e t w p u ans k' a :
  at_rest w evb e -> karrays w !! kb_event e = Some a ->
  k_kevent (kb_kq e) [] (kb_nevent e) t (kern p) = (ans, k') ->
  match ans with
  | Ok evs => (length evs <= length a)%nat ->
      kwait_call evb (kb_kq e) t (w, (p, u)) =
        Some (zlen evs, (KqWorld (<[evb := set_nreturned (zlen evs) e]> (kbases w))
          (<[kb_event e := evs ++ drop (length evs) a]> (karrays w)) (kq_answers w) (kq_metrics w),
          (Proc k' (errno p), u)))
  | Err er => kwait_call evb (kb_kq e) t (w, (p, u)) =
      Some (-1, (set_kbases w (<[evb := set_nreturned (-1) e]> (kbases w)), (Proc k' er, u)))
  end.
Proof using Type.
  intros [Hb Hn _ (c & Hc & _) _ _] Ha E. unfold kwait_call. destruct ans as [evs|er].
  - intros Hl. rewrite (bind_eq _ _ _ _ _ (kbase_eq evb e (w, (p, u)) Hb)).
    rewrite (bind_eq _ _ _ _ _ (karray_eq _ c (w, (p, u)) Hc)), Hn, take_0.
    erewrite bind_eq; [|unfold ksys, on_snd, on_fst, call_data; simpl; by rewrite E]. simpl.
    rewrite (bind_eq _ _ _ _ _ (karray_eq _ a (w, (Proc k' (errno p), u)) Ha)).
    rewrite (proj2 (Nat.ltb_ge _ _)) by done. unfold kupd, on_fst, modify. erewrite bind_eq by done. simpl.
    by erewrite bind_eq; [|apply kset_eq; exact Hb].
  - rewrite (bind_eq _ _ _ _ _ (kbase_eq evb e (w, (p, u)) Hb)).
    rewrite (bind_eq _ _ _ _ _ (karray_eq _ c (w, (p, u)) Hc)), Hn, take_0.
    erewrite bind_eq; [|unfold ksys, on_snd, on_fst, call_data; simpl; by rewrite E]. simpl.
    rewrite (bind_eq _ _ _ _ _ (karray_eq _ a (w, (Proc k' er, u)) Ha)). simpl.
    unfold kupd, on_fst, modify. erewrite bind_eq by done. simpl.
    rewrite drop_0, (insert_id (karrays w)) by done.
    by erewrite bind_eq; [|apply kset_eq; exact Hb].
Qed.

(** [e1] is [e] but for the counts of events returned and processed. *)
Definition kb_same e e1 : Prop := e1 = set_nreturned (kb_nreturned e1) (set_nprocessed (kb_nprocessed e1) e).

(** The state in which the callbacks start: [evs] are at the front of the array,
    [k] waits were interrupted. *)
Record kwaited evb e (k : nat) (evs : list kevent) w p w1 p1 : Prop := {
  kwd_base : exists e1, kbases w1 = <[evb := e1]> (kbases w) /\ kb_same e e1 /\
    (evs ≠ [] -> kb_nreturned e1 = zlen evs /\ kb_nprocessed e1 = 0);
  kwd_array : exists rest, karrays w1 = <[kb_event e := evs ++ rest]> (karrays w) /\
    zlen (evs ++ rest) = kb_nevent e;
  kwd_filters : filters (kern p1) = filters (kern p);
  kwd_reported : forall R ev, filters (kern p) !! kb_kq e = Some R -> ev ∈ evs ->
    R !! (ke_ident ev, ke_filter ev) = Some (ke_udata ev);
  kwd_loop : counts "event_loop" (Z.of_nat k + 1) (kq_metrics w) (kq_metrics w1);
  kwd_total : counts "event_total" (zlen evs) (kq_metrics w) (kq_metrics w1);
}.

(** One round that failed. *)
Lemma kwait_loop_err fuel evb e timeout w p u er k' a :
  at_rest w evb e -> karrays w !! kb_event e = Some a ->
  k_kevent (kb_kq e) [] (kb_nevent e) (kq_timeout timeout) (kern p) = (Err er, k') ->
  kwait_loop callbacks (S fuel) evb (kb_kq e) timeout (w, (p, u)) =
    let w1 := on_kmetrics (fun ms => INCR_N ms "event_loop" 1)
                (set_kbases w (<[evb := set_nreturned (-1) e]> (kbases w))) in
    let s' := (w1, (Proc k' er, u)) in
    if er =? EINTR then kwait_loop callbacks fuel evb (kb_kq e) timeout s' else Some (-1, s').
Proof using Type.
  intros Hat Ha E. cbn [kwait_loop].
  rewrite (bind_eq _ _ _ _ _ (kwait_call_eq evb e _ w p u _ _ a Hat Ha E)).
  unfold kincr_n at 1, kupd at 1. erewrite bind_eq by done. simpl.
  erewrite bind_eq; [|apply kset_eq; simpl; apply lookup_insert_eq]. simpl.
  erewrite bind_eq by done. simpl.
  assert (Hs : set_nchange 0 (set_nreturned (-1) e) = set_nreturned (-1) e).
  { destruct Hat as [_ Hn _ _ _ _]. destruct e. simpl in *. by subst. }
  unfold set_kbases, on_kmetrics. simpl. rewrite insert_insert_eq, Hs. by destruct (er =? EINTR).
Qed.

(** One round that did not. *)
Lemma kwait_loop_ok fuel evb e timeout w p u evs k' a :
  at_rest w evb e -> karrays w !! kb_event e = Some a ->
  k_kevent (kb_kq e) [] (kb_nevent e) (kq_timeout timeout) (kern p) = (Ok evs, k') ->
  (length evs <= length a)%nat ->
  kwait_loop callbacks (S fuel) evb (kb_kq e) timeout (w, (p, u)) =
    let arr := <[kb_event e := evs ++ drop (length evs) a]> (karrays w) in
    let ms := INCR_N (kq_metrics w) "event_loop" 1 in
    if 0 <? zlen evs then
      (kdispatch callbacks (S (Z.to_nat (zlen evs))) evb;; e ← kbase evb; mret (kb_nreturned e))
        (KqWorld (<[evb := set_nprocessed 0 (set_nreturned (zlen evs) e)]> (kbases w)) arr (kq_answers w)
           (INCR_N ms "event_total" (zlen evs)), (Proc k' (errno p), u))
    else Some (if timeout =? -1 then -1 else 0,
      (KqWorld (<[evb := set_nreturned (zlen evs) e]> (kbases w)) arr (kq_answers w) ms,
       (Proc k' (errno p), u))).
Proof using Type.
  intros Hat Ha E Hle. cbn [kwait_loop].
  rewrite (bind_eq _ _ _ _ _ (kwait_call_eq evb e _ w p u _ _ a Hat Ha E Hle)).
  unfold kincr_n at 1, kupd at 1. erewrite bind_eq by done. simpl.
  erewrite bind_eq; [|apply kset_eq; simpl; apply lookup_insert_eq]. simpl.
  assert (Hs : set_nchange 0 (set_nreturned (zlen evs) e) = set_nreturned (zlen evs) e).
  { destruct Hat as [_ Hn _ _ _ _]. destruct e. simpl in *. by subst. }
  unfold set_kbases, on_kmetrics. simpl. rewrite insert_insert_eq, Hs.
  destruct (Z.ltb_spec 0 (zlen evs)) as [Hp|Hp].
  - unfold kincr_n, kupd. erewrite bind_eq by done. simpl. unfold on_kmetrics. simpl.
    erewrite bind_eq; [|apply kset_eq; simpl; apply lookup_insert_eq].
    unfold set_kbases. simpl. by rewrite insert_insert_eq.
  - pose proof (zlen_nonneg evs). by rewrite (proj2 (Z.eqb_eq (zlen evs) 0)) by lia.
Qed.

Lemma at_rest_returned evb e w n f :
  at_rest w evb e ->
  at_rest (on_kmetrics f (set_kbases w (<[evb := set_nreturned n e]> (kbases w)))) evb (set_nreturned n e).
Proof using Type. intros [H1 H2 H3 H4 H5 H6]. split; try done. simpl. apply lookup_insert_eq. Qed.

Lemma kwait_loop_spec fuel evb timeout : forall e w p u,
  (kwaits (kern p) < fuel)%nat -> at_rest w evb e -> kkeeps (kb_cb e) evb (kb_event e) ->
  exists k evs w1 p1, kwaited evb e k evs w p w1 p1 /\
    let r := kwait_loop callbacks fuel evb (kb_kq e) timeout (w, (p, u)) in
    (evs ≠ [] /\ r = (handle_all evb (kb_cb e) 0 evs;; mret (zlen evs)) (w1, (p1, u)) \/
     evs = [] /\ exists n, r = Some (n, (w1, (p1, u))) /\
       (n = (if timeout =? -1 then -1 else 0) \/ n = -1 /\ errno p1 ≠ EINTR)).
Proof using Type.
  induction fuel as [|fuel IH]; intros e w p u Hf Hat Hk; [lia|].
  pose proof Hat as [Hb Hn Hne (c & Hc & Hcl) (a & Ha & Hal) Hap].
  destruct (k_kevent (kb_kq e) [] (kb_nevent e) (kq_timeout timeout) (kern p)) as [ans k'] eqn:E.
  pose proof E as E0. apply law_kevent_wait in E as [Hi Hans]. destruct ans as [evs|er].
  - destruct Hans as (Hz & _ & m & Hm & Hev).
    assert (Hle : (length evs <= length a)%nat) by (unfold zlen in *; lia).
    assert (Hz' : zlen (evs ++ drop (length evs) a) = kb_nevent e).
    { rewrite <- Hal. unfold zlen. rewrite length_app, length_drop. lia. }
    cbv zeta. rewrite (kwait_loop_ok fuel evb e timeout w p u evs k' a Hat Ha E0 Hle). cbv zeta.
    destruct (Z.ltb_spec 0 (zlen evs)) as [Hp|Hp].
    + set (e1 := set_nprocessed 0 (set_nreturned (zlen evs) e)). set (w1 := KqWorld _ _ _ _).
      exists 0%nat, evs, w1, (Proc k' (errno p)). split.
      * split; simpl; try done; try counts.
        -- exists e1. split; [done|]. split; [by destruct e|done].
        -- exists (drop (length evs) a). by split.
        -- intros R ev HR Hin. simplify_eq. by apply Hev.
      * left. split; [by intros ->|].
        apply (kdispatch_bind evb e1 evs (drop (length evs) a) (S (Z.to_nat (zlen evs)))); [done|..].
        -- simpl. apply lookup_insert_eq.
        -- simpl. by rewrite lookup_insert_eq.
        -- done.
        -- done.
        -- unfold zlen. lia.
    + assert (evs = []) as -> by (apply nil_length_inv; unfold zlen in *; lia).
      exists 0%nat, []. do 2 eexists. split; cycle 1.
      * right. split; [done|]. eexists. split; [reflexivity|]. by left.
      * split; simpl; try done; try counts.
        -- exists (set_nreturned 0 e). split; [done|]. split; [by destruct e|done].
        -- exists (drop 0 a). by split.
        -- intros R ev _ Hin. by apply elem_of_nil in Hin.
  - destruct Hans as (He & Hw & Hint).
    cbv zeta. rewrite (kwait_loop_err fuel evb e timeout w p u er k' a Hat Ha E0). cbv zeta.
    set (w0 := on_kmetrics _ _).
    assert (Hat0 : at_rest w0 evb (set_nreturned (-1) e)) by (by apply at_rest_returned).
    destruct (Z.eqb_spec er EINTR) as [->|Hner].
    + specialize (Hint eq_refl).
      destruct (IH (set_nreturned (-1) e) w0 (Proc k' EINTR) u)
        as (k & evs & w1 & p1 & [(e1 & W1 & W1' & W1'') (rest & W2 & W2') W3 W4 W5 W6] & Hr);
        [simpl; lia|done|done|].
      exists (S k), evs, w1, p1. simpl in *. split; [|done].
      split; try done.
      * exists e1. rewrite W1. unfold w0. simpl. rewrite insert_insert_eq.
        split; [done|]. split; [|done]. rewrite W1'. by destruct e.
      * exists rest. by split.
      * by rewrite W3.
      * intros R ev HR. apply W4. by rewrite Hi.
      * counts_then W5.
      * counts_then W6.
    + exists 0%nat, [], w0, (Proc k' er). split.
      * split; simpl; try done; try counts.
        -- exists (set_nreturned (-1) e). split; [done|]. split; [by destruct e|done].
        -- exists a. by rewrite insert_id.
        -- intros R ev _ Hin. by apply elem_of_nil in Hin.
      * right. split; [done|]. eexists. split; [done|]. by right.
Qed.

End Wait.

(** ** Event bases *)

Section Bases.
Context {K U : Type} `{!Kernel K} `{!Kqueue K} `{!KqueueLaws K}.
Implicit Types (w : kq_world) (p : proc K) (u : U) (evb : positive) (e : kq_base).

Definition ksame_blocks w w' : Prop := kbases w' = kbases w /\ karrays w' = karrays w.

(** What a successful creation gives. *)
Definition new_kbase (nevent : Z) (cb : option Z) w p evb w' p' : Prop :=
  exists kq ch ev, let e := KqBase kq ch 0 ev nevent 0 0 cb in
    let empty := replicate (Z.to_nat nevent) (Kevent 0 0 0 0 None) in
    0 <= kq /\ filters (kern p) !! kq = None /\
    filters (kern p') = <[kq := ∅]> (filters (kern p)) /\
    kbases w !! evb = None /\ karrays w !! ch = None /\ karrays w !! ev = None /\ ch ≠ ev /\
    kbases w' = <[evb := e]> (kbases w) /\
    karrays w' = <[ev := empty]> (<[ch := empty]> (karrays w)).

Lemma wp_kalloc (Q : option positive -> kq_world * (proc K * U) -> Prop) w s :
  (forall w', ksame_blocks w w' -> Q None (w', s)) ->
  (forall x w', ksame_blocks w w' -> kbases w !! x = None -> karrays w !! x = None -> Q (Some x) (w', s)) ->
  wp kalloc Q (w, s).
Proof.
  intros H1 H2. unfold wp, kalloc, next_kq_block. simpl.
  destruct (kq_answers w) as [|[x|] rest]; [|case_decide as Hd|]; simpl;
    do 2 eexists; (split; [done|]); [by apply H1|by apply H2; [|apply Hd..]|by apply H1..].
Qed.

Lemma wp_close_kq kq m (Q : Z -> kq_world * (proc K * U) -> Prop) w p u :
  filters (kern p) !! kq = Some m ->
  (forall x p', filters (kern p') = delete kq (filters (kern p)) -> Q x (w, (p', u))) ->
  wp (ksys (c_close kq)) Q (w, (p, u)).
Proof.
  intros Hm HQ. apply wp_ksys, wp_call; intros x k' E; apply HQ; simpl;
    by eapply law_kq_close; [exact E|rewrite Hm].
Qed.

Lemma wp_free_kevents x a (Q : unit -> kq_world * (proc K * U) -> Prop) w s :
  karrays w !! x = Some a -> Q tt (set_karrays w (delete x (karrays w)), s) ->
  wp (free_kevents x) Q (w, s).
Proof. intros H HQ. unfold free_kevents. wp_step. eapply wp_karray; [done|]. by apply wp_kupd. Qed.

(** calloc of an array of events: NULL, or a fresh zeroed block. *)
Lemma wp_calloc_kevents nevent (Q : option positive -> kq_world * (proc K * U) -> Prop) w s :
  (forall w', ksame_blocks w w' -> Q None (w', s)) ->
  (forall x w', 0 < nevent -> karrays w !! x = None -> kbases w' = kbases w ->
    karrays w' = <[x := replicate (Z.to_nat nevent) (Kevent 0 0 0 0 None)]> (karrays w) ->
    Q (Some x) (w', s)) ->
  wp (calloc_kevents nevent) Q (w, s).
Proof.
  intros H1 H2. unfold calloc_kevents. destruct (Z.leb_spec nevent 0); [wp_step; by apply H1|].
  wp_step. apply wp_kalloc.
  - intros w' Hs. wp_step. by apply H1.
  - intros x w' [Hb Ha] _ Hx. wp_step. apply wp_kupd. wp_step. apply H2; simpl; [done..|].
    by rewrite Ha.
Qed.

Lemma kq_base_create_spec nevent cb w p u :
  wp (event_base_create nevent cb) (fun r '(w', (p', u')) => u' = u /\
    match r with
    | None => ksame_blocks w w' /\ filters (kern p') = filters (kern p)
    | Some evb => 0 < nevent /\ new_kbase nevent cb w p evb w' p'
    end) (w, (p, u)).
Proof.
  unfold event_base_create. wp_step. apply wp_ksys, wp_call; intros kq k' E;
    apply law_kqueue in E; cycle 1.
  { simpl. destruct E as [_ E]. repeat wp_step. done. }
  destruct E as (Hkq & Hn & Hi). rewrite (proj2 (Z.ltb_ge _ _)) by done.
  assert (Hback : delete kq (filters k') = filters (kern p)) by (rewrite Hi; by apply delete_insert_id).
  assert (Hlk : filters k' !! kq = Some ∅) by (rewrite Hi; apply lookup_insert_eq).
  wp_step. apply wp_calloc_kevents.
  { intros w1 Hs. wp_step. eapply wp_close_kq; [done|]. intros _ p' Hp. wp_step.
    simpl in Hp. by rewrite Hp, Hback. }
  intros ch w1 Hpos Hch Hb1 Ha1. wp_step. apply wp_calloc_kevents.
  { intros w2 [Hb2 Ha2]. wp_step. eapply wp_free_kevents; [by rewrite Ha2, Ha1, lookup_insert_eq|].
    wp_step. eapply wp_close_kq; [done|]. intros _ p' Hp. wp_step. simpl in *. rewrite Hp, Hback.
    split; [done|]. split; [|done]. split; simpl; [congruence|].
    rewrite Ha2, Ha1. by apply delete_insert_id. }
  intros ev w2 _ Hev Hb2 Ha2. rewrite Ha1 in Hev.
  assert (Hne : ch ≠ ev) by (intros ->; by rewrite lookup_insert_eq in Hev).
  rewrite lookup_insert_ne in Hev by done. wp_step. apply wp_kalloc.
  - intros w3 [Hb3 Ha3]. wp_step.
    eapply wp_free_kevents; [by rewrite Ha3, Ha2, Ha1, lookup_insert_ne, lookup_insert_eq|].
    wp_step. eapply wp_free_kevents.
    { simpl. by rewrite lookup_delete_ne, Ha3, Ha2, lookup_insert_eq. }
    wp_step. eapply wp_close_kq; [done|]. intros _ p' Hp. wp_step. simpl in *. rewrite Hp, Hback.
    split; [done|]. split; [|done]. split; simpl; [congruence|].
    rewrite Ha3, Ha2, Ha1, delete_delete, (delete_insert_id _ ev), (delete_insert_id _ ch); try done.
    by rewrite lookup_insert_ne.
  - intros evb w3 [Hb3 Ha3] Hevb _. wp_step. apply wp_kupd. wp_step. split; [done|]. split; [done|].
    exists kq, ch, ev. simpl. rewrite Hb3, Ha3, Ha2, Ha1, Hb2, Hb1. rewrite Hb2, Hb1 in Hevb. done.
Qed.

Lemma new_kbase_rest nevent cb w p evb w' p' :
  0 < nevent -> new_kbase nevent cb w p evb w' p' ->
  exists e, at_rest w' evb e /\ filters (kern p') !! kb_kq e = Some ∅.
Proof.
  intros Hn (kq & ch & ev & Hkq & _ & Hf & _ & _ & _ & Hne & Hb & Ha).
  exists (KqBase kq ch 0 ev nevent 0 0 cb).
  assert (Hl : zlen (replicate (Z.to_nat nevent) (Kevent 0 0 0 0 None)) = nevent).
  { unfold zlen. rewrite length_replicate. lia. }
  split; [split; simpl; try done|].
  - by rewrite Hb, lookup_insert_eq.
  - eexists. by rewrite Ha, lookup_insert_ne, lookup_insert_eq.
  - eexists. by rewrite Ha, lookup_insert_eq.
  - simpl. by rewrite Hf, lookup_insert_eq.
Qed.

Lemma kq_base_destroy_spec evb e R w p u :
  at_rest w evb e -> filters (kern p) !! kb_kq e = Some R ->
  wp (event_base_destroy (Some evb)) (fun r '(w', (p', u')) =>
    r = None /\ u' = u /\ kbases w' = delete evb (kbases w) /\
    karrays w' = delete (kb_event e) (delete (kb_change e) (karrays w)) /\
    filters (kern p') = delete (kb_kq e) (filters (kern p))) (w, (p, u)).
Proof.
  intros [Hb _ _ (c & Hc & _) (a & Ha & _) Hne] HR. unfold event_base_destroy. wp_step.
  eapply wp_kbase; [done|]. wp_step. eapply wp_free_kevents; [done|]. wp_step.
  eapply wp_free_kevents; [simpl; by rewrite lookup_delete_ne|]. wp_step.
  eapply wp_close_kq; [done|]. intros x p' Hp. wp_step. apply wp_kupd. wp_step. done.
Qed.

End Bases.

(** ** Properties *)

(** Event_wait returns as soon as the pending signals are used up, and
    calls kevent once more than it was interrupted (event_loop counts the calls).
    If events came, there are at most nevent of them and event_total goes up by
    their number; each is of a registered descriptor and filter and carries the
    pointer registered with it.  They are handled once each, in order: the callback
    gets EVENT_READ or EVENT_WRITE for the filter and EVENT_ERR for an error, while
    the errors of a descriptor that went away are passed over.  Then the number of
    events is returned.  With no events the result is 0, or -1 for a timeout of -1;
    any other error gives -1.  The callback may register and delete events, but not
    destroy the base or wait on it. *)
Theorem kq_wait_dispatch {K U : Type} `{!Kernel K} `{!Kqueue K} `{!KqueueLaws K}
    (callbacks : Z -> option positive -> Z -> st (kq_world * (proc K * U)) unit)
    (fuel : nat) (evb : positive) (e : kq_base) (timeout : Z) (R : gmap (Z * Z) (option positive))
    (w : kq_world) (p : proc K) (u : U) :
  at_rest w evb e -> filters (kern p) !! kb_kq e = Some R ->
  kkeeps callbacks (kb_cb e) evb (kb_event e) -> (kwaits (kern p) < fuel)%nat ->
  exists k evs w1 p1, kwaited evb e k evs w p w1 p1 /\ zlen evs <= kb_nevent e /\
    (forall ev, ev ∈ evs -> R !! (ke_ident ev, ke_filter ev) = Some (ke_udata ev)) /\
    let r := event_wait callbacks fuel evb timeout (w, (p, u)) in
    (evs ≠ [] /\ r = (handle_all callbacks evb (kb_cb e) 0 evs;; mret (zlen evs)) (w1, (p1, u)) \/
     evs = [] /\ exists n, r = Some (n, (w1, (p1, u))) /\
       (n = (if timeout =? -1 then -1 else 0) \/ n = -1 /\ errno p1 ≠ EINTR)).
Proof.
  intros Hat HR Hk Hf.
  destruct (kwait_loop_spec callbacks fuel evb timeout e w p u Hf Hat Hk)
    as (k & evs & w1 & p1 & Hw & Hr). exists k, evs, w1, p1. split; [done|].
  pose proof Hw as [_ (rest & W2 & W2') _ W4 _ _]. split.
  { rewrite <- W2', zlen_app. pose proof (zlen_nonneg rest). lia. }
  split; [intros ev; by apply W4|]. cbv zeta in *. unfold event_wait.
  by rewrite (bind_eq _ _ _ _ _ (kbase_eq evb e (w, (p, u)) (ar_base _ _ _ Hat))).
Qed.

(** Any sequence of event_add_read, event_add_write and event_del on a
    base: every call returns 0, and what is registered is what the changes the
    kernel took made of it (oks; a refused change is not reported to the caller).
    The two directions of a descriptor are independent, and event_del asks for the
    removal of both.  The list of changes never overflows and is empty after each
    call; event_read and event_write count the calls; other kqueues are untouched;
    the next call is defined. *)
Theorem kq_registration {K U : Type} `{!Kernel K} `{!Kqueue K} `{!KqueueLaws K}
    (evb : positive) (e : kq_base) (R0 : gmap (Z * Z) (option positive)) (w0 w : kq_world)
    (p0 p : proc K) (u0 u : U) (h : list (ev_op * Z)) :
  at_rest w0 evb e -> filters (kern p0) !! kb_kq e = Some R0 ->
  kq_run evb (w0, (p0, u0)) h (w, (p, u)) ->
  at_rest w evb e /\ u = u0 /\ Forall (fun c => c.2 = 0) h /\
  (exists oks, length oks = length h /\
    filters (kern p) = <[kb_kq e := fold_left kapplied (zip h.*1 oks) R0]> (filters (kern p0))) /\
  counts "event_read" (adds_read h) (kq_metrics w0) (kq_metrics w) /\
  counts "event_write" (adds_write h) (kq_metrics w0) (kq_metrics w) /\
  (forall op, exists s', kdo_op evb op (w, (p, u)) = Some (0, s')).
Proof.
  intros Hat HR Hrun.
  destruct (kq_run_inv evb e R0 w0 p0 u0 h (w, (p, u)) Hat HR Hrun)
    as (Ha & _ & Hu & Hall & _ & (oks & Hlen & Hf) & C1 & C2). simpl in *.
  split_and!; try done; [by exists oks|]. intros op.
  destruct (kdo_op_spec evb op e (fold_left kapplied (zip h.*1 oks) R0) w p u Ha)
    as (r & [w' [p' u']] & E & -> & _); [by rewrite Hf, lookup_insert_eq|]. eauto.
Qed.

(** Event_base_create gives a base at rest with its own kqueue and two
    arrays of nevent events, or NULL with no descriptor and no block left behind,
    whichever of the four allocations failed; destroying the base after any sequence
    of registrations clears the caller's pointer and gives everything back. *)
Theorem kq_base_lifecycle {K U : Type} `{!Kernel K} `{!Kqueue K} `{!KqueueLaws K}
    (nevent : Z) (cb : option Z) (w : kq_world) (p : proc K) (u : U) :
  exists r w1 p1, event_base_create nevent cb (w, (p, u)) = Some (r, (w1, (p1, u))) /\
  match r with
  | None => ksame_blocks w w1 /\ filters (kern p1) = filters (kern p)
  | Some evb => 0 < nevent /\ new_kbase nevent cb w p evb w1 p1 /\
      forall h w2 p2 u2, kq_run evb (w1, (p1, u)) h (w2, (p2, u2)) ->
        exists w3 p3, event_base_destroy (Some evb) (w2, (p2, u2)) = Some (None, (w3, (p3, u2))) /\
          ksame_blocks w w3 /\ filters (kern p3) = filters (kern p)
  end.
Proof.
  destruct (kq_base_create_spec nevent cb w p u) as (r & [w1 [p1 u1]] & E & -> & Hr).
  exists r, w1, p1. split; [done|]. destruct r as [evb|]; [|done].
  destruct Hr as (Hn & Hnew). split; [done|]. split; [done|]. intros h w2 p2 u2 Hrun.
  destruct (new_kbase_rest _ _ _ _ _ _ _ Hn Hnew) as (e & Hat & HR).
  destruct Hnew as (kq & ch & ev & Hkq & Hfr & Hf & Hb & Hc & Hev & Hne & Hbs & Has).
  assert (e = KqBase kq ch 0 ev nevent 0 0 cb) as ->.
  { destruct Hat as [H _ _ _ _ _]. rewrite Hbs, lookup_insert_eq in H. by injection H. }
  destruct (kq_run_inv evb _ ∅ w1 p1 u h (w2, (p2, u2)) Hat HR Hrun)
    as (Hat2 & Hb2 & _ & _ & (c & Hc2) & (oks & _ & Hf2) & _). simpl in *.
  destruct (kq_base_destroy_spec evb _ (fold_left kapplied (zip h.*1 oks) ∅) w2 p2 u2 Hat2)
    as (r & [w3 [p3 u3]] & Ed & -> & -> & Hb3 & Ha3 & Hf3); [simpl; by rewrite Hf2, lookup_insert_eq|].
  exists w3, p3. split; [done|]. simpl in *. split; [split|].
  - rewrite Hb3, Hb2, Hbs. by apply delete_insert_id.
  - rewrite Ha3, Hc2, Has.
    rewrite (insert_insert_ne _ ch ev), (insert_insert_eq (karrays w)) by done.
    rewrite delete_insert_ne, (delete_insert_id _ ch) by done. by apply delete_insert_id.
  - rewrite Hf3, Hf2, Hf, insert_insert_eq. by apply delete_insert_id.
Qed.

(** ** A kqueue that meets the laws, and witnesses

    [qk_ready]: the events that are pending; a change of a descriptor in [qk_bad]
    is refused. *)

Record qk := Qk {
  qk_filters : gmap Z (gmap (Z * Z) (option positive));
  qk_ready : list (Z * Z);
  qk_bad : list Z;
  qk_sigs : nat;
}.

Definition qk_report (R : gmap (Z * Z) (option positive)) (r : Z * Z) : option kevent :=
  ud ← R !! r; Some (Kevent r.1 r.2 0 0 ud).

Definition qk_set (k : qk) (f : gmap Z (gmap (Z * Z) (option positive))) : qk :=
  Qk f (qk_ready k) (qk_bad k) (qk_sigs k).

#[local] Instance qk_kernel : Kernel qk := {
  k_socket _ _ _ k := (Err 1, k); k_connect _ _ k := (Err 1, k); k_bind _ _ k := (Err 1, k);
  k_listen _ _ k := (Err 1, k); k_accept _ _ k := (Err 1, k);
  k_close kq k := (Ok 0, qk_set k (delete kq (qk_filters k)));
  k_read _ _ k := (Err 1, k); k_readv _ _ k := (Err 1, k); k_write _ _ k := (Err 1, k);
  k_writev _ _ k := (Err 1, k); k_getfl _ k := (Err 1, k); k_setfl _ _ k := (Err 1, k);
  k_setsockopt _ _ _ _ k := (Err 1, k); k_getsockopt _ _ _ k := (Err 1, k); k_pipe k := (Err 1, k);
}.

#[local] Instance qk_kqueue : Kqueue qk := {
  k_kqueue k :=
    let kq := next_fd (qk_filters k) in (Ok kq, qk_set k (<[kq := ∅]> (qk_filters k)));
  k_kevent kq changes n t k :=
    match qk_filters k !! kq, changes with
    | None, _ => (Err 9, k)
    | Some R, [Kevent ident filter flags _ ud] =>
        if bool_decide (ident ∈ qk_bad k) then (Err 9, k) else
        if flags =? EV_ADD
        then (Ok [], qk_set k (<[kq := <[(ident, filter) := ud]> R]> (qk_filters k)))
        else match R !! (ident, filter) with
             | Some _ => (Ok [], qk_set k (<[kq := delete (ident, filter) R]> (qk_filters k)))
             | None => (Err ENOENT, k)
             end
    | Some R, _ =>
        match qk_sigs k with
        | S m => (Err EINTR, Qk (qk_filters k) (qk_ready k) (qk_bad k) m)
        | O => (Ok (take (Z.to_nat n) (omap (qk_report R) (qk_ready k))), k)
        end
    end;
}.

#[local] Instance qk_laws : KqueueLaws qk.
Proof.
  refine {| filters := qk_filters; kwaits := qk_sigs |}; simpl.
  - intros k a k' [= <- <-]. pose proof (next_fd_bound (qk_filters k)). split; [lia|].
    split; [apply next_fd_fresh|done].
  - intros kq ident filter ud k a k'. destruct (qk_filters k !! kq) as [R|] eqn:ER; [|by intros [= <- <-]].
    case_bool_decide; intros [= <- <-]; [done|]. split; [done|]. split; [done|]. by exists R.
  - intros kq ident filter ud k a k'. destruct (qk_filters k !! kq) as [R|] eqn:ER; [|by intros [= <- <-]].
    case_bool_decide; [by intros [= <- <-]|]. simpl.
    destruct (R !! (ident, filter)) eqn:Ef; intros [= <- <-]; [|done]. split; [done|]. split; [done|].
    exists R. by rewrite Ef.
  - intros kq n t k a k'. destruct (qk_filters k !! kq) as [R|] eqn:ER; cycle 1.
    { intros [= <- <-]. split; [done|]. unfold EINTR. split_and!; lia. }
    destruct (qk_sigs k) as [|m] eqn:Es; intros [= <- <-].
    + split; [done|]. split; [unfold zlen; rewrite length_take; lia|]. split; [lia|].
      exists R. split; [done|]. intros ev Hin. apply (subseteq_take _ _ ev) in Hin.
      apply list_elem_of_omap in Hin as ([fd fl] & _ & E). unfold qk_report in E.
      destruct (R !! (fd, fl)) as [ud|] eqn:Ef; [|done]. by injection E as <-.
    + simpl. split; [done|]. unfold EINTR. split_and!; lia.
  - intros kq k a k' [= <- <-]. done.
Defined.

(** Descriptor 4 is readable and one signal is pending; descriptor 6 was closed.
    The callback keeps a log of its calls. *)
Definition klog_callbacks (f : Z) (data : option positive) (mask : Z)
  : st (kq_world * (proc qk * list (option positive * Z))) unit :=
  fun s => Some (tt, (s.1, (s.2.1, s.2.2 ++ [(data, mask)]))).

Definition sample_kb : kq_base := KqBase 3 7 0 8 2 0 0 (Some 0).
Definition sample_kevents : list kevent := replicate 2 (Kevent 0 0 0 0 None).
Definition sample_kw : kq_world :=
  KqWorld {[9%positive := sample_kb]} {[7%positive := sample_kevents; 8%positive := sample_kevents]} [] None.
Definition sample_kr : gmap (Z * Z) (option positive) := {[(4, EVFILT_READ) := Some 5%positive]}.
Definition sample_qk : proc qk := Proc (Qk {[3 := sample_kr]} [(4, EVFILT_READ)] [6] 1) 0.

Lemma sample_rest : at_rest sample_kw 9 sample_kb.
Proof. split; try done; [by exists sample_kevents..]. Qed.

Lemma kq_wait_dispatch_witness :
  exists w p, event_wait klog_callbacks 2 9 (-1) (sample_kw, (sample_qk, [])) =
    Some (1, (w, (p, [(Some 5%positive, EVENT_READ)]))).
Proof.
  destruct (kq_wait_dispatch klog_callbacks 2 9 sample_kb (-1) sample_kr sample_kw sample_qk [])
    as (k & evs & w1 & p1 & _ & _ & _ & Hr).
  - exact sample_rest.
  - reflexivity.
  - intros f data mask s x s' _ [= <- <-]. by split.
  - simpl. lia.
  - cbv zeta in Hr. destruct Hr as [[_ Hr]|[_ (n & Hr & _)]]; vm_compute in Hr; try discriminate Hr.
    do 2 eexists. vm_compute. reflexivity.
Defined.

(** Both directions of descriptor 4; the refused descriptor 6 goes unnoticed. *)
Lemma kq_registration_witness :
  exists w p, kq_run 9 (sample_kw, (sample_qk, tt)) [(AddWrite 4 None, 0); (AddRead 6 None, 0)] (w, (p, tt)) /\
    at_rest w 9 sample_kb /\ qk_filters (kern p) =
      {[3 := {[(4, EVFILT_READ) := Some 5%positive; (4, EVFILT_WRITE) := None]}]}.
Proof.
  assert (Hrun : exists w p, kq_run 9 (sample_kw, (sample_qk, tt))
      [(AddWrite 4 None, 0); (AddRead 6 None, 0)] (w, (p, tt)) /\
    qk_filters (kern p) = {[3 := {[(4, EVFILT_READ) := Some 5%positive; (4, EVFILT_WRITE) := None]}]}).
  { do 2 eexists. split.
    - change [(AddWrite 4 None, 0); (AddRead 6 None, 0)] with
        (([] ++ [(AddWrite 4 None, 0)]) ++ [(AddRead 6 None, 0)]).
      eapply Kq_step; [eapply Kq_step; [apply Kq_start|reflexivity]|reflexivity].
    - vm_compute. reflexivity. }
  destruct Hrun as (w & p & Hrun & Hf). exists w, p. split; [exact Hrun|].
  destruct (kq_registration 9 sample_kb sample_kr sample_kw w sample_qk p tt tt
    [(AddWrite 4 None, 0); (AddRead 6 None, 0)]) as (H & _);
    [exact sample_rest|reflexivity|exact Hrun|]. by split.
Defined.

Lemma kq_base_lifecycle_witness :
  exists evb w p, event_base_create 2 (Some 0)
      (KqWorld ∅ ∅ [Some 7%positive; Some 8%positive; Some 9%positive] None, (Proc (Qk ∅ [] [] 0) 0, tt)) =
      Some (Some evb, (w, (p, tt))) /\ 0 < 2.
Proof.
  destruct (kq_base_lifecycle 2 (Some 0)
    (KqWorld ∅ ∅ [Some 7%positive; Some 8%positive; Some 9%positive] None) (Proc (Qk ∅ [] [] 0) 0) tt)
    as (r & w & p & E & Hr).
  destruct r as [evb|]; [|vm_compute in E; discriminate E].
  exists evb, w, p. split; [exact E|apply Hr].
Defined.
