(* ===== verification/Debug.v ===== *)
(** * Debug logging (include/cc_debug.h, src/cc_debug.c)

    The default debug logger over [Log], its setup with the signal handlers of
    [Signal], and the formatting of a log line and of a hex dump.  [answers i] is
    what the i-th write system call answers; the bytes written are the trace
    [dout], with their descriptor.  Text that vsnprintf formats from the
    arguments of a message (time, thread, file, line) is an argument.  CC_LOGGING
    is taken as off inside this module.  The frames of backtrace are an argument. *)

From S2P Require Import Prelude Metric Mm Rbuf Log Print Pool Sys Signal.
From Stdlib Require Import Ascii.
Local Open Scope Z_scope.

Definition DEBUG_LOG_LEVEL : Z := 4.
Definition DEBUG_LOG_NBUF : Z := 0.
Definition LOG_ALWAYS : Z := 0.
Definition LOG_CRIT : Z := 1.
Definition LOG_ERROR : Z := 2.
Definition LOG_WARN : Z := 3.
Definition LOG_INFO : Z := 4.
Definition LOG_DEBUG : Z := 5.
Definition LOG_VERB : Z := 6.
Definition LOG_VVERB : Z := 7.

Definition BACKTRACE_DEPTH : Z := 64.

Definition level_str : list string :=
  ["ALWAYS"; "CRIT"; "ERROR"; "WARN"; "INFO"; "DEBUG"; "VERB"; "VVERB"].

Definition text (s : string) : list byte := map (fun c => Z.of_N (N_of_ascii c)) (String.list_ascii_of_string s).

Record debug_module := DebugModule {
  dlogger : option logger;
  dlevel : Z;
  debug_init : bool;
  dmetrics : metrics_st;
  drbuf : rbuf_module;
  nwrite : nat;
  dout : list (Z * list byte);
}.

(** The handlers debug_setup installs. *)
Definition h_stacktrace : sig_fn := Handler 1.
Definition h_logrotate : sig_fn := Handler 2.

(** cc_scnprintf(buf, size, ...) of a text that formats to [t]: what it leaves in
    the buffer before the terminating NUL. *)
Definition scn (size : Z) (t : list byte) : list byte := take (Z.to_nat (_scnprintf (zlen t) size)) t.

Section Debug.
Context (answers : nat -> Z).

(** log_stderr(...) *)
Definition log_stderr (t : list byte) (d : debug_module) : debug_module :=
  let '(ms, out) := _log_fd t (answers (nwrite d)) (dmetrics d) in
  DebugModule (dlogger d) (dlevel d) (debug_init d) ms (drbuf d) (S (nwrite d))
    (dout d ++ [(STDERR_FILENO, out)]).

(** log_write(dl->logger, buf, len) *)
Definition dwrite (l : logger) (buf : list byte) (d : debug_module) : option debug_module :=
  '(_, l', ms, out) ← log_write l buf (zlen buf) (answers (nwrite d)) (dmetrics d);
  Some (DebugModule (Some l') (dlevel d) (debug_init d) ms (drbuf d) (S (nwrite d))
          (dout d ++ [(fd l, out)])).

(** log_destroy(&dlog->logger) *)
Definition ddestroy (d : debug_module) : option debug_module :=
  '(l, ms, rm, out) ← log_destroy (dlogger d) (answers (nwrite d)) (answers (S (nwrite d)))
                        (dmetrics d) (drbuf d);
  Some (DebugModule l (dlevel d) (debug_init d) ms rm (S (S (nwrite d)))
          (dout d ++ match dlogger d with Some x => [(fd x, out)] | None => [] end)).

(** [%d] %s of the j-th line of a backtrace. *)
Definition frame (j : Z) (symbol : list byte) : list byte :=
  text "[" ++ (if j <? 10 then [48 + j] else [48 + j / 10; 48 + j mod 10]) ++ text "] " ++ symbol.

Fixpoint print_frames (j : Z) (symbols : list (list byte)) (d : debug_module) : debug_module :=
  match symbols with
  | [] => d
  | s :: symbols => print_frames (j + 1) symbols (log_stderr (frame j s) d)
  end.

(** Whether it called abort(), and the output.  [bt]: [None] without CC_BACKTRACE,
    else what backtrace_symbols returns for the frames of backtrace. *)
Definition debug_stacktrace (bt : option (option (list (list byte)))) (skip_count : Z) (d : debug_module)
  : bool * debug_module :=
  match bt with
  | None => (false, d)
  | Some symbols =>
      let d := log_stderr (text "printing stracktrace (depth limit: 64)") d in
      match symbols with
      | None => (false, log_stderr (text "Could not print backtrace; no symbols") d)
      | Some symbols =>
          let symbols := take (Z.to_nat BACKTRACE_DEPTH) symbols in
          let skip_count := skip_count + 1 in
          (true, print_frames 0 (drop (Z.to_nat skip_count) symbols) d)
      end
  end.

(** A failed assertion; [t] is the report.  Whether it aborts, and the output. *)
Definition debug_assert (bt : option (option (list (list byte)))) (t : list byte) (panic : bool) (d : debug_module)
  : bool * debug_module :=
  let d := log_stderr t d in
  if panic then (true, (debug_stacktrace bt 1 d).2) else (false, d).

(** The handler of SIGSEGV: it reports the signal [signo], formatted as [t], and
    raises it again unless debug_stacktrace aborts. *)
Definition _stacktrace (bt : option (option (list (list byte)))) (t : list byte) (signo : Z) (d : debug_module)
  : option Z * debug_module :=
  let d := log_stderr t d in
  let '(aborted, d) := debug_stacktrace bt 2 d in
  (if aborted then None else Some signo, d).

(** The handler of SIGHUP; [ofd] is what open returns.  A NULL logger is
    followed. *)
Definition _logrotate (ofd : Z) (d : debug_module) : option debug_module :=
  l ← dlogger d;
  let '(_, l, ms) := log_reopen l ofd (dmetrics d) in
  Some (DebugModule (Some l) (dlevel d) (debug_init d) ms (drbuf d) (nwrite d) (dout d)).

Definition debug_log_flush (d : debug_module) : option debug_module :=
  l ← dlogger d;
  '(_, l', ms, out) ← log_flush l (answers (nwrite d)) (answers (S (nwrite d))) (dmetrics d);
  Some (DebugModule (Some l') (dlevel d) (debug_init d) ms (drbuf d) (S (S (nwrite d)))
          (dout d ++ [(fd l, out)])).

Definition set_dlevel (n : Z) (d : debug_module) : debug_module :=
  DebugModule (dlogger d) n (debug_init d) (dmetrics d) (drbuf d) (nwrite d) (dout d).
Definition set_dinit (b : bool) (d : debug_module) : debug_module :=
  DebugModule (dlogger d) (dlevel d) b (dmetrics d) (drbuf d) (nwrite d) (dout d).

(** dlog->logger = log_create(filename, nbuf); [lg], [mem], [ofd] answer malloc,
    malloc and open. *)
Definition dcreate (filename : option string) (nbuf : Z) (lg : bool) (mem : option (list byte))
    (ofd : Z) (d : debug_module) : debug_module :=
  let '(l, ms, rm) := log_create filename (u32 nbuf) lg mem ofd (dmetrics d) (drbuf d) in
  DebugModule l (dlevel d) (debug_init d) ms rm (nwrite d) (dout d).

(** [options]: debug_log_file, debug_log_nbuf and debug_log_level. *)
Definition debug_setup {K} `{!SigKernel K} (options : option (option string * Z * Z)) (lg : bool)
    (mem : option (list byte)) (ofd : Z) (s : debug_module * (list signal * proc K))
  : option (Z * (debug_module * (list signal * proc K))) :=
  let '(d, sg) := s in
  let d := log_stderr (text "Set up the ccommon::debug module") d in
  d ← (if debug_init d then
         let d := log_stderr (text "ccommon::debug has already been setup, overwrite") d in
         match dlogger d with Some _ => ddestroy d | None => Some d end
       else Some d);
  let d := set_dlevel DEBUG_LOG_LEVEL d in
  let '(filename, nbuf, d) :=
    match options with
    | Some (f, n, lv) => (f, n, set_dlevel (i32 lv) d)
    | None => (None, DEBUG_LOG_NBUF, d)
    end in
  let d := dcreate filename nbuf lg mem ofd d in
  let error d sg := d ← ddestroy d; Some (CC_ERROR, (d, sg)) in
  match dlogger d with
  | None => error (log_stderr (text "Could not create logger") d) sg
  | Some _ =>
      '(r, sg) ← signal_override SIGSEGV "printing stacktrace when segfault" 0 0 h_stacktrace sg;
      if r <? 0 then error d sg else
      '(r, sg) ← signal_override SIGHUP "reopen log file" 0 0 h_logrotate sg;
      if r <? 0 then error d sg else
      Some (CC_OK, (set_dinit true d, sg))
  end.

Definition debug_teardown (d : debug_module) : option debug_module :=
  let d := log_stderr (text "Tear down the ccommon::debug module") d in
  let d := if debug_init d then d else log_stderr (text "ccommon::debug was never setup") d in
  d ← (match dlogger d with Some _ => ddestroy d | None => Some d end);
  Some (set_dinit false d).

(** _log on the default logger: [pre] is the formatted time, thread, level, file
    and line, [msg] the formatted message.  Reading level_str or writing the
    newline out of range is undefined. *)
Definition _log (pre msg : list byte) (level : Z) (d : debug_module) : option debug_module :=
  match dlogger d with
  | None => Some d
  | Some l =>
      if dlevel d <? level then Some d else
      if negb ((0 <=? level) && (level <? zlen level_str)) then None else
      let buf := scn LOG_MAX_LEN pre in
      let buf := buf ++ scn (LOG_MAX_LEN - zlen buf) msg in
      if zlen buf <? LOG_MAX_LEN then dwrite l (buf ++ [10]) d else None
  end.

(** ** Hex dumps *)

Definition hexdigit (n : Z) : byte := if n <? 10 then 48 + n else 87 + n.

(** %0dx *)
Fixpoint hex (d : nat) (n : Z) : list byte :=
  match d with O => [] | S d => hex d (n / 16) ++ [hexdigit (n mod 16)] end.

Definition sep (i : nat) : list byte := if Nat.eqb i 7 then [32; 32] else [32].
Definition dotted (c : byte) : byte := if (32 <=? c) && (c <=? 126) then c else 46.
Definition HEX_SIZE : Z := 8 * LOG_MAX_LEN.

(** len += cc_scnprintf(buf + len, size - len, ...) *)
Definition add (buf t : list byte) : list byte := buf ++ scn (HEX_SIZE - zlen buf) t.

Fixpoint hex_cols (i : nat) (row buf : list byte) : list byte :=
  match row with [] => buf | c :: row => hex_cols (S i) row (add buf (hex 2 c ++ sep i)) end.
Fixpoint pad_cols (todo i : nat) (buf : list byte) : list byte :=
  match todo with O => buf | S todo => pad_cols todo (S i) (add buf ([32; 32] ++ sep i)) end.
Fixpoint char_cols (row buf : list byte) : list byte :=
  match row with [] => buf | c :: row => char_cols row (add buf [dotted c]) end.

Fixpoint hexdump_loop (fuel : nat) (off : Z) (data buf : list byte) : option (list byte) :=
  match data with
  | [] => Some buf
  | _ =>
      if negb (zlen buf <? HEX_SIZE - 1) then Some buf else
      match fuel with
      | O => None
      | S fuel =>
          let row := take 16 data in
          let buf := add buf (hex 8 off ++ [32; 32]) in
          let buf := hex_cols 0 row buf in
          let buf := pad_cols (16 - length row) (length row) buf in
          let buf := add buf [32; 32; 124] in
          let buf := char_cols row buf in
          let buf := add buf [124; 10] in
          hexdump_loop fuel (off + 16) (drop 16 data) buf
      end
  end.

(** _log_hexdump on the default logger, datalen being the length of [data]. *)
Definition _log_hexdump (fuel : nat) (level : Z) (data : list byte) (d : debug_module)
  : option debug_module :=
  match dlogger d with
  | None => Some d
  | Some l =>
      if dlevel d <? level then Some d else
      buf ← hexdump_loop fuel 0 data [];
      dwrite l buf d
  end.

(** ** The macros, with CC_LOGGING on *)

Definition loga (pre msg : list byte) (d : debug_module) : option debug_module := _log pre msg LOG_ALWAYS d.
Definition loga_hexdump (fuel : nat) (pre msg data : list byte) (d : debug_module) : option debug_module :=
  d ← _log pre msg LOG_ALWAYS d; _log_hexdump fuel (-1) data d.

(** The state in which abort() ends the process. *)
Definition log_panic (pre msg : list byte) (d : debug_module) : option debug_module := _log pre msg LOG_CRIT d.

Definition log_crit (pre msg : list byte) (d : debug_module) : option debug_module :=
  if LOG_CRIT <=? dlevel d then _log pre msg LOG_CRIT d else Some d.
Definition log_error (pre msg : list byte) (d : debug_module) : option debug_module :=
  if LOG_ERROR <=? dlevel d then _log pre msg LOG_ERROR d else Some d.
Definition log_warn (pre msg : list byte) (d : debug_module) : option debug_module :=
  if LOG_WARN <=? dlevel d then _log pre msg LOG_WARN d else Some d.
Definition log_info (pre msg : list byte) (d : debug_module) : option debug_module :=
  if LOG_INFO <=? dlevel d then _log pre msg LOG_INFO d else Some d.
Definition log_debug (pre msg : list byte) (d : debug_module) : option debug_module :=
  if LOG_DEBUG <=? dlevel d then _log pre msg LOG_DEBUG d else Some d.
Definition log_verb (pre msg : list byte) (d : debug_module) : option debug_module :=
  if LOG_VERB <=? dlevel d then _log pre msg LOG_VERB d else Some d.
Definition log_vverb (pre msg : list byte) (d : debug_module) : option debug_module :=
  if LOG_VVERB <=? dlevel d then _log pre msg LOG_VVERB d else Some d.

Definition log_level (level : Z) (pre msg : list byte) (d : debug_module) : option debug_module :=
  _log pre msg level d.
Definition log_hexdump (fuel : nat) (level : Z) (pre msg data : list byte) (d : debug_module) : option debug_module :=
  d ← _log pre msg level d; _log_hexdump fuel level data d.

(** ASSERT under CC_ASSERT_PANIC, under CC_ASSERT_LOG and without either; [t] is the
    report of debug_assert. *)
Inductive assert_mode := Assert_panic | Assert_log | Assert_off.
Definition ASSERT (bt : option (option (list (list byte)))) (m : assert_mode) (x : bool) (t : list byte)
    (d : debug_module) : bool * debug_module :=
  match m with
  | Assert_panic => if negb x then debug_assert bt t true d else (false, d)
  | Assert_log => if negb x then debug_assert bt t false d else (false, d)
  | Assert_off => (false, d)
  end.
Definition NOT_REACHED (bt : option (option (list (list byte)))) (m : assert_mode) (t : list byte)
    (d : debug_module) : bool * debug_module :=
  ASSERT bt m false t d.

(** An ASSERT ends the process exactly if it fails and CC_ASSERT_PANIC is set. *)
Lemma assert_aborts bt m x t d : (ASSERT bt m x t d).1 = true <-> m = Assert_panic /\ x = false.
Proof. destruct m, x; simpl; naive_solver. Qed.

(** With frames the handler of SIGSEGV ends the process, after one line for the
    report, one for the title and one for each frame above the handler. *)
Lemma stacktrace_ends frames t signo d :
  zlen frames <= BACKTRACE_DEPTH -> (3 <= length frames)%nat ->
  exists d', _stacktrace (Some (Some frames)) t signo d = (None, d') /\
    nwrite d' = (nwrite d + 2 + (length frames - 3))%nat.
Proof.
  assert (Hp : forall symbols j d, nwrite (print_frames j symbols d) = (nwrite d + length symbols)%nat).
  { intros symbols. induction symbols as [|s symbols IH]; intros j d0; simpl; [lia|].
    rewrite IH. unfold log_stderr. destruct (_log_fd _ _ _). simpl. lia. }
  intros H1 H2. eexists. split; [done|]. rewrite Hp.
  change (Z.to_nat (2 + 1)) with 3%nat. rewrite length_drop, take_ge.
  - unfold log_stderr. repeat destruct (_log_fd _ _ _). simpl. lia.
  - unfold zlen, BACKTRACE_DEPTH in *. lia.
Qed.

(** Without CC_BACKTRACE, or without symbols, the handler raises the signal again
    while it is still installed: [n] deliveries are followed by another. *)
Fixpoint deliveries (n : nat) (bt : option (option (list (list byte)))) (t : list byte) (signo : Z)
    (d : debug_module) : option Z * debug_module :=
  match n with
  | O => (Some signo, d)
  | S n => match _stacktrace bt t signo d with
           | (Some signo, d) => deliveries n bt t signo d
           | r => r
           end
  end.

Lemma segfault_loops n bt t signo d :
  bt = None \/ bt = Some None -> exists d', deliveries n bt t signo d = (Some signo, d').
Proof.
  intros Hbt. revert d. induction n as [|n IH]; intros d; [by eexists|].
  destruct Hbt as [-> | ->]; apply IH.
Qed.

(** The level test of the macros is the one of _log. *)
Lemma log_macros_filter pre msg d :
  log_crit pre msg d = _log pre msg LOG_CRIT d /\ log_error pre msg d = _log pre msg LOG_ERROR d /\
  log_warn pre msg d = _log pre msg LOG_WARN d /\ log_info pre msg d = _log pre msg LOG_INFO d /\
  log_debug pre msg d = _log pre msg LOG_DEBUG d /\ log_verb pre msg d = _log pre msg LOG_VERB d /\
  log_vverb pre msg d = _log pre msg LOG_VVERB d.
Proof.
  assert (H : forall level, (if level <=? dlevel d then _log pre msg level d else Some d) = _log pre msg level d).
  { intros level. destruct (Z.leb_spec level (dlevel d)); [done|]. unfold _log. destruct (dlogger d); [|done].
    by rewrite (proj2 (Z.ltb_lt _ _)). }
  repeat split; apply H.
Qed.

End Debug.

(** ** Formatting *)

Lemma scn_take size t :
  1 <= size < 2 ^ 31 -> zlen t < 2 ^ 31 -> scn size t = take (Z.to_nat (size - 1)) t.
Proof.
  intros Hs Ht. unfold scn, _scnprintf, _vscnprintf. pose proof (zlen_nonneg t).
  assert (i32 size = size) as -> by (apply i32_small; lia).
  assert (Hi : forall n, 0 <= n < 2 ^ 31 -> i32 n = n) by (intros n Hn; apply i32_small; lia).
  destruct (Z.leb_spec (zlen t) 0); [|destruct (Z.ltb_spec (zlen t) size)].
  - destruct t; [by rewrite !take_nil|]. rewrite zlen_cons in *. pose proof (zlen_nonneg t). lia.
  - rewrite Hi by lia. rewrite !take_ge; [done|unfold zlen in *; lia|unfold zlen in *; lia].
  - rewrite u64_small by lia. by rewrite Hi by lia.
Qed.

(** The line _log writes: as much of the message as fits, and a newline. *)
Definition line (pre msg : list byte) : list byte :=
  take (Z.to_nat (LOG_MAX_LEN - 1)) (pre ++ msg) ++ [10].

Lemma line_spec pre msg :
  zlen pre < 2 ^ 31 -> zlen msg < 2 ^ 31 ->
  let buf := scn LOG_MAX_LEN pre in
  let buf := buf ++ scn (LOG_MAX_LEN - zlen buf) msg in
  buf ++ [10] = line pre msg /\ zlen buf < LOG_MAX_LEN.
Proof.
  intros Hp Hm buf. subst buf. unfold LOG_MAX_LEN, line in *.
  rewrite (scn_take 2560 pre) by lia.
  assert (Hz : zlen (take (Z.to_nat (2560 - 1)) pre) = Z.min 2559 (zlen pre))
    by (unfold zlen; rewrite length_take; lia).
  rewrite Hz, scn_take by (pose proof (zlen_nonneg pre); lia). split.
  - f_equal. rewrite take_app. f_equal. f_equal. unfold zlen, LOG_MAX_LEN in *. lia.
  - rewrite zlen_app, Hz. unfold zlen. rewrite length_take. unfold zlen in *. lia.
Qed.

(** A hex dump as a whole: one row for each 16 bytes. *)
Definition row_text (off : Z) (row : list byte) : list byte :=
  hex 8 off ++ [32; 32] ++
  concat (imap (fun i c => hex 2 c ++ sep i) row) ++
  concat (map (fun i => [32; 32] ++ sep i) (seq (length row) (16 - length row))) ++
  [32; 32; 124] ++ map dotted row ++ [124; 10].

Fixpoint dump_rows (n : nat) (off : Z) (data : list byte) : list byte :=
  match n with
  | O => []
  | S n => row_text off (take 16 data) ++ dump_rows n (off + 16) (drop 16 data)
  end.

Definition nrows (data : list byte) : nat := ((length data + 15) / 16)%nat.

(** The buffer holds the first HEX_SIZE - 1 bytes of [t]. *)
Definition holds (buf t : list byte) : Prop := buf = take (Z.to_nat (HEX_SIZE - 1)) t.

Lemma holds_add buf t u : holds buf t -> zlen u < 2 ^ 31 -> holds (add buf u) (t ++ u).
Proof.
  unfold holds, add, HEX_SIZE, LOG_MAX_LEN. intros -> Hu.
  assert (Hz : zlen (take (Z.to_nat (8 * 2560 - 1)) t) = Z.min 20479 (zlen t))
    by (unfold zlen; rewrite length_take; lia).
  rewrite Hz, scn_take by (pose proof (zlen_nonneg t); lia).
  rewrite take_app. do 2 f_equal. unfold zlen in *. lia.
Qed.

Lemma hex_length d n : length (hex d n) = d.
Proof. revert n. induction d as [|d IH]; intros n; simpl; [done|]. rewrite length_app, IH. simpl. lia. Qed.

Lemma sep_length i : (1 <= length (sep i) <= 2)%nat.
Proof. unfold sep. destruct (Nat.eqb i 7); simpl; lia. Qed.

Lemma hex_cols_spec i row buf t :
  holds buf t -> holds (hex_cols i row buf) (t ++ concat (imap (fun j c => hex 2 c ++ sep (i + j)) row)).
Proof.
  revert i buf t. induction row as [|c row IH]; intros i buf t H; [by rewrite app_nil_r|].
  cbn [hex_cols imap concat]. rewrite Nat.add_0_r. rewrite app_assoc.
  replace (imap ((fun j c => hex 2 c ++ sep (i + j)) ∘ S) row)
    with (imap (fun j c => hex 2 c ++ sep (S i + j)) row)
    by (apply imap_ext; intros j x _; simpl; by rewrite Nat.add_succ_r).
  apply IH, holds_add; [done|]. pose proof (sep_length i). unfold zlen.
  rewrite length_app, hex_length. lia.
Qed.

Lemma pad_cols_spec todo i buf t :
  holds buf t -> holds (pad_cols todo i buf) (t ++ concat (map (fun i => [32; 32] ++ sep i) (seq i todo))).
Proof.
  revert i buf t. induction todo as [|todo IH]; intros i buf t H; [by rewrite app_nil_r|].
  cbn [pad_cols seq map concat]. rewrite app_assoc. apply IH, holds_add; [done|].
  pose proof (sep_length i). unfold zlen. rewrite length_app. simpl. lia.
Qed.

Lemma char_cols_spec row buf t : holds buf t -> holds (char_cols row buf) (t ++ map dotted row).
Proof.
  revert buf t. induction row as [|c row IH]; intros buf t H; [by rewrite app_nil_r|].
  cbn [char_cols map]. change (dotted c :: map dotted row) with ([dotted c] ++ map dotted row).
  rewrite app_assoc. apply IH, holds_add; [done|]. done.
Qed.

Lemma nrows_drop data : data ≠ [] -> nrows data = S (nrows (drop 16 data)).
Proof.
  intros Hne. unfold nrows. rewrite length_drop. destruct data as [|x data]; [done|]. simpl length.
  destruct (Nat.le_gt_cases 16 (S (length data))) as [Hle|Hgt].
  - replace (S (length data) + 15)%nat with (S (length data) - 16 + 15 + 1 * 16)%nat by lia.
    rewrite Nat.div_add by lia. lia.
  - replace (S (length data) - 16)%nat with 0%nat by lia.
    rewrite (Nat.div_small (0 + 15) 16) by lia.
    symmetry. apply (Nat.div_unique _ _ _ (S (length data) + 15 - 16)); lia.
Qed.

Lemma hexdump_loop_spec fuel off data buf t :
  (nrows data <= fuel)%nat -> holds buf t ->
  exists buf', hexdump_loop fuel off data buf = Some buf' /\
    holds buf' (t ++ dump_rows (nrows data) off data).
Proof.
  revert off data buf t. induction fuel as [|fuel IH]; intros off data buf t Hf H;
    (destruct (decide (data = [])) as [->|Hne]; [exists buf; by rewrite app_nil_r|]);
    pose proof (nrows_drop data Hne) as Hn; [lia|]. rewrite Hn.
  assert (Hfull : zlen buf <? HEX_SIZE - 1 = false -> holds buf (t ++ dump_rows (S (nrows (drop 16 data))) off data)).
  { intros Hz. apply Z.ltb_ge in Hz. unfold holds in *. rewrite H in Hz |- *. unfold zlen in Hz.
    rewrite length_take in Hz. rewrite take_app_le by lia. done. }
  destruct data as [|x data]; [done|]. cbn [hexdump_loop].
  destruct (zlen buf <? HEX_SIZE - 1); cbn [negb]; [|eexists; split; [done|]; by apply Hfull].
  set (row := take 16 (x :: data)). cbn [dump_rows].
  match goal with |- context [hexdump_loop fuel _ _ ?b] => set (buf1 := b) end.
  assert (H1 : holds buf1 (t ++ row_text off row)).
  { unfold buf1, row_text. rewrite !app_assoc. apply holds_add; [|done]. apply char_cols_spec.
    apply holds_add; [|done]. apply pad_cols_spec. apply (hex_cols_spec 0).
    rewrite <- app_assoc. apply holds_add; [done|]. unfold zlen. rewrite length_app, hex_length. simpl. lia. }
  destruct (IH (off + 16) (drop 16 (x :: data)) buf1 _ ltac:(lia) H1) as (buf' & E & H2).
  exists buf'. split; [exact E|]. by rewrite app_assoc.
Qed.

(** ** Histories of messages *)

Inductive debug_op :=
| DLog (pre msg : list byte) (level : Z)
| DHex (level : Z) (data : list byte)
| DFlush.

Definition debug_op_ok (o : debug_op) : Prop :=
  match o with
  | DLog pre msg level => zlen pre < 2 ^ 31 /\ zlen msg < 2 ^ 31 /\ 0 <= level < zlen level_str
  | _ => True
  end.

(** What is to be logged at level [lv]. *)
Definition wanted (lv : Z) (o : debug_op) : option (list byte) :=
  match o with
  | DLog pre msg level => if level <=? lv then Some (line pre msg) else None
  | DHex level data =>
      if level <=? lv then Some (take (Z.to_nat (HEX_SIZE - 1)) (dump_rows (nrows data) 0 data)) else None
  | DFlush => None
  end.

Section History.
Context (answers : nat -> Z).
Implicit Types (d : debug_module) (l : logger) (b : rbuf).

Definition debug_step (o : debug_op) d : option debug_module :=
  match o with
  | DLog pre msg level => _log answers pre msg level d
  | DHex level data => _log_hexdump answers (nrows data) level data d
  | DFlush => debug_log_flush answers d
  end.

Fixpoint debug_run (ops : list debug_op) d : option debug_module :=
  match ops with
  | [] => Some d
  | o :: ops => d ← debug_step o d; debug_run ops d
  end.

Lemma log_write_buffered l b msg len r ms :
  lbuf l = Some b -> log_write l msg len r ms = log_write l msg len 0 ms.
Proof using Type. intros E. unfold log_write. by rewrite E. Qed.

(** The bytes [out] went to the descriptor of the logger, which now holds [b']. *)
Definition went d l (out : list byte) d' b' : Prop :=
  exists l', dlogger d' = Some l' /\ lbuf l' = Some b' /\ fd l' = fd l /\ rbuf_wf b' /\
    dlevel d' = dlevel d /\ exists tr, dout d' = dout d ++ map (pair (fd l)) tr /\ concat tr = out.

Lemma went_refl d l b : dlogger d = Some l -> lbuf l = Some b -> rbuf_wf b -> went d l [] d b.
Proof using Type. intros H1 H2 H3. exists l. split_and!; try done. exists []. by rewrite app_nil_r. Qed.

Lemma dwrite_spec d l b msg :
  dlogger d = Some l -> lbuf l = Some b -> rbuf_wf b -> zlen msg <= UINT32_MAX ->
  exists (ok : bool) d' b', dwrite answers l msg d = Some d' /\ went d l [] d' b' /\
    contents b' = contents b ++ (if ok then msg else []) /\
    ok = (zlen msg <=? cap b - zlen (contents b)).
Proof using Type.
  intros Hl Hb Hwf Hm. unfold dwrite. rewrite (log_write_buffered l b) by done.
  destruct (write_step l b msg (dmetrics d) Hb Hwf Hm)
    as (ok & l' & b' & ms' & -> & Hb' & Hfd & Hwf' & Hc & Hok & _ & _). simpl.
  exists ok. do 2 eexists. split; [done|]. split; [|split; [destruct ok; by rewrite ?app_nil_r|done]].
  exists l'. simpl. split_and!; try done. by exists [[]].
Qed.

Lemma debug_step_spec o d l b :
  dlogger d = Some l -> lbuf l = Some b -> rbuf_wf b -> 0 <= fd l -> debug_op_ok o ->
  exists d' b' out (ok : bool), debug_step o d = Some d' /\ went d l out d' b' /\
    contents b ++ (if ok then default [] (wanted (dlevel d) o) else []) = out ++ contents b'.
Proof using Type.
  intros Hl Hb Hwf Hfd Hok.
  destruct o as [pre msg level|level data|]; cbn [debug_step wanted].
  - destruct Hok as (Hp & Hm & Hlv). unfold _log. rewrite Hl.
    destruct (Z.leb_spec level (dlevel d)) as [Hle|Hgt]; cycle 1.
    { rewrite (proj2 (Z.ltb_lt _ _)) by lia. exists d, b, [], true. split; [done|].
      split; [by apply went_refl|]. by rewrite app_nil_r. }
    rewrite (proj2 (Z.ltb_ge _ _)) by lia.
    rewrite (proj2 (Z.leb_le _ _)), (proj2 (Z.ltb_lt level _)) by lia. cbn [andb negb].
    destruct (line_spec pre msg Hp Hm) as [-> Hz]. rewrite (proj2 (Z.ltb_lt _ _)) by done.
    destruct (dwrite_spec d l b (line pre msg) Hl Hb Hwf) as (ok & d' & b' & -> & Hw & Hc & _).
    { unfold line, zlen, UINT32_MAX. rewrite length_app, length_take. unfold LOG_MAX_LEN. cbn [length]. lia. }
    exists d', b', [], ok. simpl. by rewrite Hc.
  - unfold _log_hexdump. rewrite Hl.
    destruct (Z.leb_spec level (dlevel d)) as [Hle|Hgt]; cycle 1.
    { rewrite (proj2 (Z.ltb_lt _ _)) by lia. exists d, b, [], true. split; [done|].
      split; [by apply went_refl|]. by rewrite app_nil_r. }
    rewrite (proj2 (Z.ltb_ge _ _)) by lia.
    destruct (hexdump_loop_spec (nrows data) 0 data [] []) as (buf & -> & Hh);
      [done|unfold holds; by rewrite take_nil|]. simpl in Hh. simpl.
    destruct (dwrite_spec d l b buf Hl Hb Hwf) as (ok & d' & b' & -> & Hw & Hc & _).
    { rewrite Hh. unfold zlen, HEX_SIZE, LOG_MAX_LEN, UINT32_MAX. rewrite length_take. lia. }
    exists d', b', [], ok. rewrite Hc, Hh. done.
  - unfold debug_log_flush. rewrite Hl. simpl.
    destruct (flush_step l b (answers (nwrite d)) (answers (S (nwrite d))) (dmetrics d) Hb Hwf Hfd)
      as (n & l' & b' & ms' & out & -> & Hb' & Hfd' & Hwf' & Hc & _). simpl.
    do 2 eexists. exists out, true. split; [done|]. split; [|by rewrite app_nil_r].
    exists l'. simpl. split_and!; try done. exists [out]. simpl. by rewrite app_nil_r.
Qed.

Lemma debug_run_spec ops d l b :
  dlogger d = Some l -> lbuf l = Some b -> rbuf_wf b -> 0 <= fd l -> Forall debug_op_ok ops ->
  exists d' b' out acc, debug_run ops d = Some d' /\ went d l out d' b' /\
    acc `sublist_of` omap (wanted (dlevel d)) ops /\
    contents b ++ concat acc = out ++ contents b'.
Proof using Type.
  intros Hl Hb Hwf Hfd Hok. revert d l b Hl Hb Hwf Hfd.
  induction Hok as [|o ops Ho _ IH]; intros d l b Hl Hb Hwf Hfd.
  - exists d, b, [], []. rewrite app_nil_r. split_and!; try done. by apply went_refl.
  - destruct (debug_step_spec o d l b Hl Hb Hwf Hfd Ho)
      as (d1 & b1 & out1 & ok & E1 & (l1 & L1 & B1 & F1 & W1 & V1 & tr1 & T1 & O1) & Hc1).
    destruct (IH d1 l1 b1 L1 B1 W1) as (d2 & b2 & out2 & acc & E2 & Hw2 & Hs & Hc2); [lia|].
    destruct Hw2 as (l2 & L2 & B2 & F2 & W2 & V2 & tr2 & T2 & O2).
    rewrite V1 in Hs. exists d2, b2, (out1 ++ out2),
      (match (if ok then wanted (dlevel d) o else None) with Some x => x :: acc | None => acc end).
    simpl. rewrite E1. split; [done|]. split; [|split].
    + exists l2. split_and!; try done; [congruence|congruence|]. exists (tr1 ++ tr2).
      rewrite T2, T1, F1, map_app, concat_app, O1, O2, app_assoc. done.
    + destruct ok, (wanted (dlevel d) o) as [x|]; simpl; try done;
        [by apply sublist_skip|by apply sublist_cons].
    + rewrite <- app_assoc, <- Hc2, app_assoc, <- Hc1, <- app_assoc.
      destruct ok, (wanted (dlevel d) o) as [x|]; simpl; by rewrite ?app_nil_r.
Qed.

End History.

(** ** Setup and teardown *)

Section Lifecycle.
Context (answers : nat -> Z).
Implicit Types (d : debug_module) (l : logger).

(** The logger's buffer is well formed, log_curr counts it among [n] others, and
    there is none unless the module was set up. *)
Record debug_wf (n : Z) d : Prop := {
  dw_buf : logger_wf (dlogger d);
  dw_curr : gauge_of (dmetrics d) "log_curr" = Some (i64 (n + loggers (dlogger d)));
  dw_init : debug_init d = false -> dlogger d = None;
}.

Lemma log_stderr_wf n t d : debug_wf n d -> debug_wf n (log_stderr answers t d).
Proof.
  intros [H1 H2 H3]. unfold log_stderr. pose proof (log_fd_gauge t (answers (nwrite d)) (dmetrics d)) as Hg.
  destruct (_log_fd _ _ _) as [ms out]. simpl in Hg. split; simpl; [done|by rewrite Hg|done].
Qed.

Lemma log_stderr_fields t d :
  dlogger (log_stderr answers t d) = dlogger d /\ debug_init (log_stderr answers t d) = debug_init d /\
  dlevel (log_stderr answers t d) = dlevel d.
Proof. unfold log_stderr. by destruct (_log_fd _ _ _). Qed.

(** Destroying the logger, if any: afterwards there is none. *)
Lemma ddestroy_spec n d :
  debug_wf n d -> exists d', ddestroy answers d = Some d' /\ debug_wf n d' /\ dlogger d' = None /\
    debug_init d' = debug_init d /\ dlevel d' = dlevel d.
Proof.
  intros [H1 H2 H3]. unfold ddestroy.
  destruct (log_destroy_spec n (dlogger d) (answers (nwrite d)) (answers (S (nwrite d)))
    (dmetrics d) (drbuf d) H1 H2) as (ms' & rm' & out & -> & Hg). simpl.
  eexists. split; [done|]. split; [|done]. by split.
Qed.

(** Creating one where there is none. *)
Lemma dcreate_spec n filename nbuf lg mem ofd d :
  debug_wf n d -> dlogger d = None ->
  (forall dt, mem = Some dt -> zlen dt = u32 nbuf + 1) -> u32 nbuf < UINT32_MAX ->
  let d' := dcreate filename nbuf lg mem ofd d in
  gauge_of (dmetrics d') "log_curr" = Some (i64 (n + loggers (dlogger d'))) /\
  logger_wf (dlogger d') /\ debug_init d' = debug_init d /\ dlevel d' = dlevel d.
Proof.
  intros [H1 H2 H3] Hn Hmem Hnb. rewrite Hn in H2. unfold dcreate.
  pose proof (log_create_spec n filename (u32 nbuf) lg mem ofd (dmetrics d) (drbuf d) H2) as Hc.
  destruct (log_create _ _ _ _ _ _ _) as [[l ms] rm]. simpl.
  destruct Hc as [? ?]; [split; [apply u32_range|done]|done|done].
Qed.

End Lifecycle.

Lemma debug_teardown_spec answers n d :
  debug_wf n d -> exists d', debug_teardown answers d = Some d' /\ debug_wf n d' /\
    dlogger d' = None /\ debug_init d' = false.
Proof.
  intros Hwf. unfold debug_teardown.
  set (d1 := log_stderr answers _ d). assert (H1 : debug_wf n d1) by (by apply log_stderr_wf).
  set (d2 := if debug_init d1 then d1 else _).
  assert (H2 : debug_wf n d2) by (unfold d2; destruct (debug_init d1); [done|by apply log_stderr_wf]).
  destruct (dlogger d2) as [l|] eqn:El.
  - destruct (ddestroy_spec answers n d2 H2) as (d3 & -> & [W1 W2 W3] & Hn & _). simpl.
    eexists. split; [done|]. split; [by split|]. done.
  - simpl. eexists. split; [done|]. destruct H2 as [W1 W2 W3]. split; [by split|]. done.
Qed.

(** What the calls of debug_setup leave in the table of signals. *)
Definition handlers_set (tbl tbl' : list signal) : Prop :=
  tbl' !! Z.to_nat SIGSEGV = Some (Signal "printing stacktrace when segfault" 0 h_stacktrace 0) /\
  tbl' !! Z.to_nat SIGHUP = Some (Signal "reopen log file" 0 h_logrotate 0) /\
  forall j, j ≠ Z.to_nat SIGSEGV -> j ≠ Z.to_nat SIGHUP -> tbl' !! j = tbl !! j.

(** How debug_setup may end. *)
Definition setup_post (n level : Z) (tbl : list signal) (r : Z) (d' : debug_module)
    (tbl' : list signal) : Prop :=
  debug_wf n d' /\
  (r = CC_OK /\ debug_init d' = true /\ is_Some (dlogger d') /\ dlevel d' = i32 level /\
     handlers_set tbl tbl' \/
   r = CC_ERROR /\ dlogger d' = None).

(** The error label. *)
Lemma setup_error {K} answers n level tbl d (sg : list signal * proc K) :
  gauge_of (dmetrics d) "log_curr" = Some (i64 (n + loggers (dlogger d))) ->
  logger_wf (dlogger d) ->
  exists r d' tbl' p', (d ← ddestroy answers d; Some (CC_ERROR, (d, sg))) =
      Some (r, (d', (tbl', p'))) /\ setup_post n level tbl r d' tbl'.
Proof.
  intros G1 G2. destruct sg as [tb q].
  destruct (ddestroy_spec answers n (set_dinit true d)) as (d6 & E & [W1 W2 W3] & Hn6 & _); [by split|].
  unfold ddestroy in *. simpl in E.
  destruct (log_destroy (dlogger d) _ _ _ _) as [[[[l ms] rm] out]|]; simpl in *; [|done].
  injection E as <-. simpl in *. do 4 eexists. split; [done|]. split; [by split|by right].
Qed.

(** A second setup first destroys the logger of the first. *)
Lemma drop_old answers n t d :
  debug_wf n d ->
  exists d', (if debug_init d then
      match dlogger (log_stderr answers t d) with
      | Some _ => ddestroy answers (log_stderr answers t d)
      | None => Some (log_stderr answers t d)
      end else Some d) = Some d' /\ debug_wf n d' /\ dlogger d' = None.
Proof.
  intros Hwf. destruct (debug_init d) eqn:Ei; [|exists d; split_and!; try done; by apply Hwf].
  set (d2 := log_stderr answers t d). assert (debug_wf n d2) by (by apply log_stderr_wf).
  destruct (dlogger d2) eqn:El; [|by exists d2].
  destruct (ddestroy_spec answers n d2) as (d3 & -> & H3 & H4 & _); [done|]. by exists d3.
Qed.

(** ** Properties *)

(** C31: for the debug logger with a ring buffer, any sequence of
    messages, hex dumps and flushes, whatever write answers: what reached the log
    file followed by what is buffered is what was buffered before followed by a
    subsequence, in order, of the lines wanted at the logger's level.  Each line
    is there whole: the formatted message cut to LOG_MAX_LEN - 1 bytes with a
    newline, or the dump, 16 bytes to a row, cut to HEX_SIZE - 1 bytes.  Nothing
    is written to another descriptor, no buffer is overrun, and the level and the
    descriptor stay. *)
Theorem debug_stream (answers : nat -> Z) (ops : list debug_op) (d : debug_module) (l : logger)
    (b : rbuf) :
  dlogger d = Some l -> lbuf l = Some b -> rbuf_wf b -> 0 <= fd l -> Forall debug_op_ok ops ->
  exists d' l' b' tr acc, debug_run answers ops d = Some d' /\ dlogger d' = Some l' /\
    lbuf l' = Some b' /\ rbuf_wf b' /\ fd l' = fd l /\ dlevel d' = dlevel d /\
    dout d' = dout d ++ map (pair (fd l)) tr /\
    acc `sublist_of` omap (wanted (dlevel d)) ops /\
    contents b ++ concat acc = concat tr ++ contents b'.
Proof.
  intros Hl Hb Hwf Hfd Hok.
  destruct (debug_run_spec answers ops d l b Hl Hb Hwf Hfd Hok)
    as (d' & b' & out & acc & E & (l' & L & B & F & W & V & tr & T & O) & Hs & Hc).
  subst out. by exists d', l', b', tr, acc.
Qed.

Definition debug_sample : debug_module :=
  DebugModule (Some (Logger (Some "log") 3 (Some (Rbuf 0 0 100 (replicate 101 0))))) 4 true None
    (RbufModule None true) 0 [].

Lemma debug_stream_witness :
  exists d', debug_run (fun _ => 100)
      [DLog (text "[x] ") (text "hi") LOG_INFO; DLog (text "[x] ") (text "no") LOG_VERB; DFlush]
      debug_sample = Some d' /\
    dout d' = [(3, []); (3, text "[x] hi" ++ [10])].
Proof.
  destruct (debug_stream (fun _ => 100)
      [DLog (text "[x] ") (text "hi") LOG_INFO; DLog (text "[x] ") (text "no") LOG_VERB; DFlush]
      debug_sample (Logger (Some "log") 3 (Some (Rbuf 0 0 100 (replicate 101 0))))
      (Rbuf 0 0 100 (replicate 101 0))) as (d' & l' & b' & tr & acc & E & _);
    [reflexivity|reflexivity|split; vm_compute; try split; congruence|vm_compute; congruence
    |repeat constructor; vm_compute; congruence|].
  exists d'. split; [exact E|]. vm_compute in E. by injection E as <-.
Defined.

(** With a buffered logger, the message of log_panic is still in the buffer when
    abort() ends the process, which does not flush it. *)
Example log_panic_unflushed :
  exists d', log_panic (fun _ => 100) (text "[x] ") (text "bye") debug_sample = Some d' /\ dout d' = [(3, [])].
Proof. eexists. split; [vm_compute; reflexivity|reflexivity]. Qed.

Definition log_metrics_gauge : metrics_st :=
  Some (list_to_map [METRIC_INIT "log_curr" METRIC_GAUGE ""]).

(** Debug_setup returns CC_OK with a logger at the level of the
    options, the handlers of SIGSEGV and SIGHUP installed and every other entry of
    the table as it was; or CC_ERROR with no logger left.  A logger from an
    earlier setup is destroyed, so log_curr always counts exactly the loggers that
    exist; debug_teardown destroys the last one. *)
Theorem debug_setup_teardown {K : Type} `{!SigKernel K} (answers : nat -> Z)
    (filename : option string) (nbuf level : Z) (lg : bool) (mem : option (list byte)) (ofd n : Z)
    (d : debug_module) (tbl : list signal) (p : proc K) :
  debug_wf n d -> zlen tbl = SIGNAL_MAX -> u32 nbuf < UINT32_MAX ->
  (forall dt, mem = Some dt -> zlen dt = u32 nbuf + 1) ->
  exists r d' tbl' p',
    debug_setup answers (Some (filename, nbuf, level)) lg mem ofd (d, (tbl, p)) =
      Some (r, (d', (tbl', p'))) /\
    setup_post n level tbl r d' tbl' /\
    exists d'', debug_teardown answers d' = Some d'' /\ debug_wf n d'' /\ dlogger d'' = None /\
      debug_init d'' = false.
Proof.
  intros Hwf Ht Hnb Hmem.
  assert (Hmain : exists r d' tbl' p',
    debug_setup answers (Some (filename, nbuf, level)) lg mem ofd (d, (tbl, p)) =
      Some (r, (d', (tbl', p'))) /\ setup_post n level tbl r d' tbl'); cycle 1.
  { destruct Hmain as (r & d' & tbl' & p' & E & Hr). exists r, d', tbl', p'.
    do 2 (split; [done|]). by apply debug_teardown_spec, Hr. }
  unfold debug_setup. cbv zeta.
  set (d1 := log_stderr answers _ d). assert (H1 : debug_wf n d1) by (by apply log_stderr_wf).
  destruct (drop_old answers n (text "ccommon::debug has already been setup, overwrite") d1 H1)
    as (d2 & -> & H2 & Hnone). cbn [mbind option_bind].
  assert (H3 : debug_wf n (set_dlevel (i32 level) (set_dlevel DEBUG_LOG_LEVEL d2))) by (by destruct H2).
  destruct (dcreate_spec n filename nbuf lg mem ofd _ H3 Hnone Hmem Hnb) as (Hg & Hb & Hi & Hlv).
  set (d4 := dcreate filename nbuf lg mem ofd _) in *.
  destruct (dlogger d4) as [l|] eqn:El; cycle 1.
  { pose proof (log_stderr_fields answers (text "Could not create logger") d4) as (F1 & _).
    apply setup_error.
    - rewrite F1, El. unfold log_stderr.
      pose proof (log_fd_gauge (text "Could not create logger") (answers (nwrite d4)) (dmetrics d4)) as G.
      destruct (_log_fd _ _ _) as [ms out]. simpl in *. by rewrite G.
    - rewrite F1. by rewrite El. }
  destruct (signal_override_spec tbl p SIGSEGV "printing stacktrace when segfault" 0 0 h_stacktrace Ht)
    as (r1 & [t1 p1] & -> & S1 & S2 & S3 & _); [unfold SIGSEGV, SIGNAL_MAX; lia|]. simpl in S1, S2, S3.
  cbn [mbind option_bind]. destruct (r1 <? 0); [apply setup_error; by rewrite El|].
  destruct (signal_override_spec t1 p1 SIGHUP "reopen log file" 0 0 h_logrotate S3)
    as (r2 & [t2 p2] & -> & U1 & U2 & U3 & _); [unfold SIGHUP, SIGNAL_MAX; lia|]. simpl in U1, U2, U3.
  cbn [mbind option_bind]. destruct (r2 <? 0); [apply setup_error; by rewrite El|].
  do 4 eexists. split; [done|]. split; [split; simpl; [by rewrite El..|done]|].
  left. split; [done|]. split; [done|]. split; [simpl; rewrite El; by eexists|]. split; [done|].
  split_and!; [by rewrite U2|done|]. intros j J1 J2. by rewrite U2, S2.
Qed.

Lemma debug_setup_teardown_witness :
  exists d' sg, debug_setup (fun _ => 100) (Some (None, 0, 5)) true None 0
      (DebugModule None 0 false log_metrics_gauge (RbufModule None true) 0 [], (signals_init, Proc (Net ∅ 0) 0)) =
      Some (CC_OK, (d', sg)) /\ debug_wf 0 d'.
Proof.
  destruct (debug_setup_teardown (K := net) (fun _ => 100) None 0 5 true None 0 0
    (DebugModule None 0 false log_metrics_gauge (RbufModule None true) 0 []) signals_init
    (Proc (Net ∅ 0) 0)) as (r & d' & tbl' & p' & E & [Hw _] & _);
    [by split|reflexivity|reflexivity|done|].
  exists d', (tbl', p'). split; [|exact Hw]. rewrite E. do 2 f_equal. vm_compute in E. by injection E.
Defined.
