(* ===== verification/LogFlush.v ===== *)
(** * Flushing the log from the timing wheel (src/cc_debug.c, src/time/cc_wheel.c)

    debug_log_flush has the signature of a timeout callback so that an event of a
    timing wheel can flush the debug log.  Here the two components run together:
    in each round the program logs, the wheel ticks, and the callback of a
    recurring event flushes the log. *)

From S2P Require Import Prelude Metric Mm Rbuf Log Print Queue Tailq Pool Timer Wheel WheelRecur Sys Signal Debug.
Local Open Scope Z_scope.

Section Rounds.
Variable answers : nat -> Z.
Variable clocks : nat -> clock.
Variable callback : Z -> Z -> wstate -> option wstate.
(** The number that stands for debug_log_flush among the callbacks. *)
Variable f : Z.
Variable fuel : nat.
Implicit Types (s : wstate) (d : debug_module) (slots : list (list positive)) (l : logger) (b : rbuf).







Hypothesis quiet : forall g (x : Z) s, callback g x s = Some s.
Hypothesis full : forall i, UINT32_MAX <= answers i.
Variables (arg : Z) (p : positive) (delay : timeout) (k : Z).





End Rounds.



