(* ===== verification/Stats.v ===== *)
(** * Printing metrics and the stats log (src/stats/cc_metric.c, cc_stats_log.c)

    metric_print formats a metric, metric_describe_all lists a module's metrics on
    stdout, and the stats log dumps arrays of metrics as rows of a text file through
    a logger of [Log].  The conversions of printf that the code uses (%llu, %lld, %f
    and the strings) are written out.  [answers i] is what the i-th write system
    call answers; [sout] is what went to the log file. *)

From Stdlib Require Import SpecFloat.
From S2P Require Import Prelude Double Metric Mm Rbuf Log Bstring Print Debug.
Local Open Scope Z_scope.

Definition VALUE_PRINT_LEN : Z := 30.
Definition PRINT_BUF_LEN : Z := 64.
Definition STATS_LOG_NBUF : Z := 0.
Definition CRLF : list byte := [13; 10].

(** ** The conversions of printf *)

(** The decimal digits of [n] in front of [acc]; a step for each bit is enough. *)
Fixpoint dec_loop (fuel : nat) (n : Z) (acc : list byte) : list byte :=
  match fuel with
  | O => (48 + n mod 10) :: acc
  | S fuel => if n <? 10 then (48 + n) :: acc
              else dec_loop fuel (n / 10) ((48 + n mod 10) :: acc)
  end.

Definition fmt_llu (n : Z) : list byte := dec_loop (Z.to_nat (Z.log2 n)) n [].

Definition fmt_lld (n : Z) : list byte := if n <? 0 then 45 :: fmt_llu (- n) else fmt_llu n.

(** |x| in millionths, to the nearest, ties to even. *)
Definition millionths (m : positive) (e : Z) : Z :=
  let x := Zpos m * 1000000 in
  if 0 <=? e then x * 2 ^ e else
  let d := 2 ^ (- e) in
  let q := x / d in
  match 2 * (x mod d) ?= d with
  | Lt => q
  | Gt => q + 1
  | Eq => if Z.even q then q else q + 1
  end.

Definition fmt_f (x : spec_float) : list byte :=
  let sign (s : bool) := if s then [45] else [] in
  match x with
  | S754_zero s => sign s ++ text "0.000000"
  | S754_infinity s => sign s ++ text "inf"
  | S754_nan => text "nan"
  | S754_finite s m e =>
      let q := millionths m e in
      sign s ++ fmt_llu (q / 1000000) ++ [46] ++ render 6 (q mod 1000000)
  end.

(** %-ws *)
Definition pad (w : nat) (t : list byte) : list byte := t ++ replicate (w - length t) 32.

(** ** Metrics *)

Definition metric_value (m : metric) : list byte :=
  match m_val m with
  | Counter n => fmt_llu n
  | Gauge n => fmt_lld n
  | Fpn d => fmt_f d
  end.

(** What the call returns and leaves in the buffer of [nbuf] bytes; [fmt] is what
    the format makes of the name and the value.  A NULL metric prints nothing. *)
Definition metric_print (nbuf : Z) (fmt : list byte -> list byte -> list byte)
    (m : option metric) : Z * list byte :=
  match m with
  | None => (0, [])
  | Some m =>
      let val_buf := scn VALUE_PRINT_LEN (metric_value m) in
      let t := fmt (text (m_name m)) val_buf in
      (u64 (_scnprintf (zlen t) nbuf), scn nbuf t)
  end.

Definition metric_type_str (t : metric_type_e) : string :=
  match t with
  | METRIC_COUNTER => "counter"
  | METRIC_GAUGE => "gauge"
  | METRIC_FPN => "floating point"
  end.

(** METRIC_DESCRIBE_FMT *)
Definition describe_fmt (name type desc : string) : list byte :=
  pad 31 (text name) ++ [32] ++ pad 15 (text type) ++ [32] ++ text desc.

Fixpoint describe_loop (answers : nat -> Z) (i todo : nat) (metrics : list metric)
    (ms : metrics_st) : option (metrics_st * list byte) :=
  match todo, metrics with
  | O, _ => Some (ms, [])
  | S todo, m :: metrics =>
      let '(ms, out) := _log_fd (describe_fmt (m_name m) (metric_type_str (m_type m)) (m_desc m))
                          (answers i) ms in
      '(ms, out') ← describe_loop answers (S i) todo metrics ms;
      Some (ms, out ++ out')
  | S _, [] => None
  end.

(** The metrics of the log module and what went to stdout. *)
Definition metric_describe_all (answers : nat -> Z) (metrics : list metric) (nmetric : Z)
    (ms : metrics_st) : option (metrics_st * list byte) :=
  let '(ms, out) := _log_fd (describe_fmt "NAME" "TYPE" "DESCRIPTION") (answers 0%nat) ms in
  '(ms, out') ← describe_loop answers 1 (Z.to_nat nmetric) metrics ms;
  Some (ms, out ++ out').

(** ** The stats log *)

(** STATS_LOG_FMT *)
Definition stats_fmt (name value : list byte) : list byte := name ++ [58; 32] ++ value ++ [44; 32].

Record stats_module := StatsModule {
  slog : option logger;
  stats_log_init : bool;
  smetrics : metrics_st;
  srbuf : rbuf_module;
  snwrite : nat;
  sout : list byte;
}.

Section StatsLog.
Context (answers : nat -> Z).
Implicit Types (s : stats_module).

(** log_destroy(&slog) *)
Definition sdestroy s : option stats_module :=
  '(l, ms, rm, out) ← log_destroy (slog s) (answers (snwrite s)) (answers (S (snwrite s)))
                        (smetrics s) (srbuf s);
  Some (StatsModule l (stats_log_init s) ms rm (S (S (snwrite s))) (sout s ++ out)).

Definition set_sinit (b : bool) s : stats_module :=
  StatsModule (slog s) b (smetrics s) (srbuf s) (snwrite s) (sout s).

(** [options]: stats_log_file and stats_log_nbuf; [lg], [mem] and [ofd] answer
    malloc, malloc and open. *)
Definition stats_log_setup (options : option (option string * Z)) (lg : bool)
    (mem : option (list byte)) (ofd : Z) s : option stats_module :=
  s ← (if stats_log_init s
       then match slog s with Some _ => sdestroy s | None => Some s end
       else Some s);
  let '(filename, log_nbuf) :=
    match options with Some o => o | None => (None, STATS_LOG_NBUF) end in
  let s := match filename with
           | Some _ =>
               let '(l, ms, rm) :=
                 log_create filename (u32 log_nbuf) lg mem ofd (smetrics s) (srbuf s) in
               StatsModule l (stats_log_init s) ms rm (snwrite s) (sout s)
           | None => s
           end in
  Some (set_sinit true s).

Definition stats_log_teardown s : option stats_module :=
  s ← (match slog s with Some _ => sdestroy s | None => Some s end);
  Some (set_sinit false s).

(** log_write(slog, buf, len) *)
Definition swrite (buf : list byte) (len : Z) s : option stats_module :=
  l ← slog s;
  '(_, l', ms, out) ← log_write l buf len (answers (snwrite s)) (smetrics s);
  Some (StatsModule (Some l') (stats_log_init s) ms (srbuf s) (S (snwrite s)) (sout s ++ out)).

Fixpoint stats_loop (todo : nat) (metrics : list metric) s : option stats_module :=
  match todo, metrics with
  | O, _ => Some s
  | S todo, m :: metrics =>
      let '(len, buf) := metric_print PRINT_BUF_LEN stats_fmt (Some m) in
      s ← swrite buf (i32 len) s;
      stats_loop todo metrics s
  | S _, [] => None
  end.

Definition stats_log (metrics : list metric) (nmetric : Z) s : option stats_module :=
  match slog s with
  | None => Some s
  | Some _ =>
      s ← stats_loop (Z.to_nat nmetric) metrics s;
      swrite CRLF 2 s
  end.

Definition stats_log_flush s : option stats_module :=
  match slog s with
  | None => Some s
  | Some l =>
      '(_, l', ms, out) ← log_flush l (answers (snwrite s)) (answers (S (snwrite s))) (smetrics s);
      Some (StatsModule (Some l') (stats_log_init s) ms (srbuf s) (S (S (snwrite s))) (sout s ++ out))
  end.

End StatsLog.

(** ** Decimal text *)

Lemma render_shift d n : render (S d) n = render d (n / 10) ++ [48 + n mod 10].
Proof. done. Qed.

Lemma dec_loop_spec fuel n acc :
  0 <= n < 2 ^ (Z.of_nat fuel + 1) ->
  exists d, ndigits n d /\ dec_loop fuel n acc = render d n ++ acc.
Proof.
  revert n acc. induction fuel as [|fuel IH]; intros n acc Hn; simpl.
  - change (2 ^ (0 + 1)) with 2 in Hn. exists 1%nat. split; [|done].
    split; [lia|]. split; [simpl; lia|by left].
  - rewrite Nat2Z.inj_succ in Hn. replace (Z.succ (Z.of_nat fuel) + 1) with (Z.succ (Z.of_nat fuel + 1)) in Hn by lia.
    rewrite Z.pow_succ_r in Hn by lia.
    destruct (Z.ltb_spec n 10).
    + exists 1%nat. split; [split; [lia|]; split; [simpl; lia|by left]|]. simpl.
      by rewrite (Z.mod_small n 10) by lia.
    + destruct (IH (n / 10) ((48 + n mod 10) :: acc)) as (d & (Hd1 & Hd2 & Hd3) & ->); [mlia|].
      exists (S d). rewrite render_shift, <- app_assoc. split; [|done]. split; [lia|].
      rewrite Nat2Z.inj_succ. split; [rewrite Z.pow_succ_r by lia; mlia|]. right.
      replace (Z.succ (Z.of_nat d) - 1) with (Z.succ (Z.of_nat d - 1)) by lia.
      rewrite Z.pow_succ_r by lia. destruct Hd3 as [->|Hd3]; [simpl; lia|mlia].
Qed.

Lemma fmt_llu_spec n : 0 <= n -> exists d, ndigits n d /\ fmt_llu n = render d n.
Proof.
  intros Hn. unfold fmt_llu. destruct (dec_loop_spec (Z.to_nat (Z.log2 n)) n []) as (d & Hd & ->).
  - pose proof (Z.log2_nonneg n). rewrite Z2Nat.id by done. split; [done|].
    destruct (decide (n = 0)) as [->|]; [done|]. apply Z.log2_spec. lia.
  - exists d. by rewrite app_nil_r.
Qed.

(** A number of at most 20 digits is printed in full and reads back. *)
Lemma fmt_llu_dec n :
  0 <= n < 10 ^ 20 -> zlen (fmt_llu n) <= 20 /\ all_digits (fmt_llu n) /\ dec 0 (fmt_llu n) = n.
Proof.
  intros Hn. destruct (fmt_llu_spec n) as (d & (H1 & H2 & H3) & ->); [lia|].
  rewrite render_length. split; [|split; [apply render_digits|by apply dec_render]].
  destruct H3 as [->|H3]; [simpl; lia|]. destruct (Z.le_gt_cases (Z.of_nat d) 20); [done|].
  assert (10 ^ 20 <= 10 ^ (Z.of_nat d - 1)) by (apply Z.pow_le_mono_r; lia). lia.
Qed.

(** ** Records *)

(** What is logged of a metric: its name and value, cut to what the buffers
    hold. *)
Definition record (m : metric) : list byte :=
  take 63 (stats_fmt (text (m_name m)) (take 29 (metric_value m))).

Definition row (ms : list metric) : list byte := concat (map record ms) ++ CRLF.

(** Lengths that int can count. *)
Definition printable (m : metric) : Prop :=
  zlen (text (m_name m)) < 2 ^ 30 /\ zlen (metric_value m) < 2 ^ 31.

Lemma scn_len size t :
  1 <= size < 2 ^ 31 -> zlen t < 2 ^ 31 -> _scnprintf (zlen t) size = zlen (scn size t).
Proof.
  intros Hs Ht. rewrite scn_take by done. unfold _scnprintf, _vscnprintf.
  pose proof (zlen_nonneg t). unfold zlen. rewrite length_take. fold (zlen t).
  rewrite (i32_small size) by lia.
  destruct (Z.leb_spec (zlen t) 0); [|destruct (Z.ltb_spec (zlen t) size)].
  - unfold zlen in *. rewrite i32_small by lia. lia.
  - unfold zlen in *. rewrite i32_small by lia. lia.
  - rewrite u64_small by lia. unfold zlen in *. rewrite i32_small by lia. lia.
Qed.

Lemma print_spec m :
  printable m -> metric_print PRINT_BUF_LEN stats_fmt (Some m) = (zlen (record m), record m).
Proof.
  intros [Hn Hv]. unfold metric_print, PRINT_BUF_LEN, VALUE_PRINT_LEN.
  rewrite (scn_take 30) by lia. change (Z.to_nat (30 - 1)) with 29%nat.
  set (t := stats_fmt _ _).
  assert (Ht : zlen t < 2 ^ 31).
  { unfold t, stats_fmt. rewrite !zlen_app. change (zlen [58; 32]) with 2. change (zlen [44; 32]) with 2.
    assert (zlen (take 29 (metric_value m)) <= 29) by (unfold zlen; rewrite length_take; lia). lia. }
  rewrite scn_len, scn_take by lia. change (Z.to_nat (64 - 1)) with 63%nat.
  fold (record m). rewrite u64_small; [done|].
  unfold record, zlen. rewrite length_take. lia.
Qed.

Lemma record_length m : zlen (record m) <= 63.
Proof. unfold record, zlen. rewrite length_take. lia. Qed.

(** ** The stats log as a history of its logger *)

Section Histories.
Context (answers : nat -> Z).
Implicit Types (s : stats_module) (l : logger) (b : rbuf).

Inductive stats_op := SLog (metrics : list metric) (nmetric : Z) | SFlush.

Definition stats_op_ok (o : stats_op) : Prop :=
  match o with
  | SLog metrics nmetric => nmetric <= zlen metrics /\ Forall printable metrics
  | SFlush => True
  end.

Definition stats_step (o : stats_op) s : option stats_module :=
  match o with
  | SLog metrics nmetric => stats_log answers metrics nmetric s
  | SFlush => stats_log_flush answers s
  end.

Fixpoint stats_run (ops : list stats_op) s : option stats_module :=
  match ops with
  | [] => Some s
  | o :: ops => s ← stats_step o s; stats_run ops s
  end.

(** The messages of a history. *)
Definition pieces (o : stats_op) : list (list byte) :=
  match o with
  | SLog metrics nmetric => map record (take (Z.to_nat nmetric) metrics) ++ [CRLF]
  | SFlush => []
  end.

(** The operations of the logger that the history performs, from the [i]-th
    system call on. *)
Fixpoint log_ops (i : nat) (ops : list stats_op) : list log_op :=
  match ops with
  | [] => []
  | SFlush :: ops => OpFlush (answers i) (answers (S i)) :: log_ops (S (S i)) ops
  | SLog _ _ as o :: ops => map OpWrite (pieces o) ++ log_ops (i + length (pieces o)) ops
  end.

(** [s'] is [s] after the logger went through [ops]. *)
Definition follows s l (ops : list log_op) (k : nat) s' : Prop :=
  exists r, log_run l (smetrics s) ops = Some r /\ slog s' = Some (lr_logger r) /\
    smetrics s' = lr_metrics r /\ sout s' = sout s ++ lr_out r /\ snwrite s' = (snwrite s + k)%nat.

Lemma log_run_app l ms ops1 ops2 r1 :
  log_run l ms ops1 = Some r1 ->
  log_run l ms (ops1 ++ ops2) =
    (r2 ← log_run (lr_logger r1) (lr_metrics r1) ops2;
     Some (LogResult (lr_logger r2) (lr_metrics r2) (lr_out r1 ++ lr_out r2)
             (lr_acc r1 ++ lr_acc r2) (lr_skip r1 ++ lr_skip r2))).
Proof using Type.
  revert l ms r1. induction ops1 as [|o ops1 IH]; intros l ms r1.
  - intros [= <-]. simpl. by destruct (log_run l ms ops2) as [[]|].
  - simpl. destruct o as [msg|a1 a2].
    + destruct (log_write l msg (zlen msg) 0 ms) as [[[[ok l'] ms'] out]|]; simpl; [|done].
      destruct (log_run l' ms' ops1) as [r|] eqn:E; simpl; [|done]. intros [= <-].
      rewrite (IH _ _ _ E). simpl. destruct (log_run _ _ ops2); simpl; [|done].
      rewrite <- app_assoc. by destruct ok.
    + destruct (log_flush l a1 a2 ms) as [[[[n l'] ms'] out]|]; simpl; [|done].
      destruct (log_run l' ms' ops1) as [r|] eqn:E; simpl; [|done]. intros [= <-].
      rewrite (IH _ _ _ E). simpl. destruct (log_run _ _ ops2); simpl; [|done].
      by rewrite <- app_assoc.
Qed.

Lemma follows_app s l ops1 k1 s1 l1 ops2 k2 s2 :
  follows s l ops1 k1 s1 -> slog s1 = Some l1 -> follows s1 l1 ops2 k2 s2 ->
  follows s l (ops1 ++ ops2) (k1 + k2) s2.
Proof using Type.
  intros (r1 & E1 & L1 & M1 & O1 & N1) Hl (r2 & E2 & L2 & M2 & O2 & N2).
  rewrite L1 in Hl. injection Hl as <-. rewrite M1 in E2.
  eexists. rewrite (log_run_app _ _ _ _ _ E1), E2. simpl. split; [done|]. simpl.
  split_and!; [done..| |lia]. by rewrite O2, O1, app_assoc.
Qed.

(** The logger has a buffer and a file. *)
Definition buffered l : Prop := exists b, lbuf l = Some b /\ rbuf_wf b /\ 0 <= fd l.

Lemma swrite_follows s l msg :
  slog s = Some l -> buffered l -> zlen msg <= UINT32_MAX ->
  exists s' l', swrite answers msg (zlen msg) s = Some s' /\
    follows s l [OpWrite msg] 1 s' /\ slog s' = Some l' /\ buffered l'.
Proof using Type.
  intros Hl (b & Hb & Hwf & Hfd) Hm. unfold swrite. rewrite Hl. simpl.
  rewrite (log_write_buffered l b) by done.
  destruct (write_step l b msg (smetrics s) Hb Hwf Hm)
    as (ok & l' & b' & ms' & E & Hb' & Hfd' & Hwf' & _). rewrite E. simpl.
  do 2 eexists. split; [done|]. split; [|split; [done|exists b'; split_and!; [done..|lia]]].
  eexists. simpl. rewrite E. simpl. split; [done|]. simpl. rewrite app_nil_r. split_and!; [done..|lia].
Qed.

Lemma stats_loop_follows metrics : forall n s l,
  slog s = Some l -> buffered l -> (n <= length metrics)%nat -> Forall printable metrics ->
  exists s' l', stats_loop answers n metrics s = Some s' /\
    follows s l (map OpWrite (map record (take n metrics))) n s' /\
    slog s' = Some l' /\ buffered l'.
Proof using Type.
  induction metrics as [|m metrics IH]; intros n s l Hl Hb Hn Hp.
  - destruct n; [|simpl in Hn; lia]. exists s, l. split_and!; try done.
    eexists. split; [done|]. simpl. rewrite app_nil_r. split_and!; [done..|lia].
  - destruct n as [|n].
    { exists s, l. split_and!; try done.
      eexists. split; [done|]. simpl. rewrite app_nil_r. split_and!; [done..|lia]. }
    apply Forall_cons in Hp as [Hm Hp]. cbn [stats_loop]. rewrite print_spec by done.
    pose proof (record_length m). pose proof (zlen_nonneg (record m)).
    rewrite i32_small by lia.
    destruct (swrite_follows s l (record m) Hl Hb) as (s1 & l1 & -> & F1 & L1 & B1);
      [unfold UINT32_MAX; lia|]. cbn [mbind option_bind].
    destruct (IH n s1 l1 L1 B1) as (s' & l' & -> & F & L & B); [simpl in Hn; lia|done|].
    exists s', l'. split_and!; try done. simpl.
    apply (follows_app s l [OpWrite (record m)] 1 s1 l1 _ n s' F1 L1 F).
Qed.

Lemma stats_step_follows o s l :
  slog s = Some l -> buffered l -> stats_op_ok o ->
  exists s' l' k, stats_step o s = Some s' /\ slog s' = Some l' /\ buffered l' /\
    follows s l (log_ops (snwrite s) [o]) k s' /\
    (forall ops, log_ops (snwrite s) (o :: ops) = log_ops (snwrite s) [o] ++ log_ops (snwrite s') ops).
Proof using Type.
  intros Hl Hb Hok. destruct o as [metrics n|].
  - destruct Hok as [Hn Hp]. cbn [stats_step]. unfold stats_log. rewrite Hl.
    destruct (stats_loop_follows metrics (Z.to_nat n) s l Hl Hb) as (s1 & l1 & -> & F1 & L1 & B1);
      [unfold zlen in Hn; lia|done|]. cbn [mbind option_bind].
    destruct (swrite_follows s1 l1 CRLF L1 B1) as (s' & l' & E & F & L & B); [done|].
    change (zlen CRLF) with 2 in E. rewrite E.
    pose proof (follows_app _ _ _ _ _ _ _ _ _ F1 L1 F) as Fa.
    assert (Hn' : snwrite s' = (snwrite s + length (pieces (SLog metrics n)))%nat).
    { destruct Fa as (r & _ & _ & _ & _ & ->). simpl. rewrite length_app, length_map, length_take.
      simpl. unfold zlen in Hn. lia. }
    do 3 eexists. split_and!; try done.
    + simpl. rewrite app_nil_r, map_app. exact Fa.
    + intros ops. simpl. rewrite Hn', app_nil_r. done.
  - cbn [stats_step]. unfold stats_log_flush. rewrite Hl. destruct Hb as (b & Hb & Hwf & Hfd).
    destruct (flush_step l b (answers (snwrite s)) (answers (S (snwrite s))) (smetrics s) Hb Hwf Hfd)
      as (n & l' & b' & ms' & out & E & Hb' & Hfd' & Hwf' & _). rewrite E. simpl.
    do 3 eexists. split; [done|]. split; [done|]. split; [exists b'; split_and!; [done..|lia]|].
    split; [|done]. eexists. simpl. rewrite E. simpl. split; [done|]. simpl. rewrite app_nil_r.
    split_and!; try done. by rewrite (Nat.add_comm _ 2).
Qed.

Lemma stats_run_follows ops : forall s l,
  slog s = Some l -> buffered l -> Forall stats_op_ok ops ->
  exists s' k, stats_run ops s = Some s' /\ follows s l (log_ops (snwrite s) ops) k s'.
Proof using Type.
  induction ops as [|o ops IH]; intros s l Hl Hb Hok.
  - exists s, 0%nat. split; [done|]. eexists. split; [done|]. simpl. rewrite app_nil_r. split_and!; [done..|lia].
  - apply Forall_cons in Hok as [Ho Hok].
    destruct (stats_step_follows o s l Hl Hb Ho) as (s1 & l1 & k1 & E & L1 & B1 & F1 & Hops).
    destruct (IH s1 l1 L1 B1 Hok) as (s' & k & E' & F). exists s', (k1 + k)%nat.
    cbn [stats_run]. rewrite E, Hops. split; [done|]. by eapply follows_app.
Qed.

(** What is accepted is a part of what is written, in order. *)
Definition writes (ops : list log_op) : list (list byte) :=
  omap (fun o => match o with OpWrite m => Some m | OpFlush _ _ => None end) ops.

Lemma log_run_acc l ms ops r : log_run l ms ops = Some r -> lr_acc r `sublist_of` writes ops.
Proof using Type.
  revert l ms r. induction ops as [|o ops IH]; intros l ms r; simpl.
  - by intros [= <-].
  - destruct o as [msg|a1 a2].
    + destruct (log_write _ _ _ _ _) as [[[[ok l'] ms'] out]|]; simpl; [|done].
      destruct (log_run l' ms' ops) as [r'|] eqn:E; simpl; [|done]. intros [= <-]. simpl.
      apply IH in E. destruct ok; by constructor.
    + destruct (log_flush _ _ _ _) as [[[[n l'] ms'] out]|]; simpl; [|done].
      destruct (log_run l' ms' ops) as [r'|] eqn:E; simpl; [|done]. intros [= <-]. by apply IH in E.
Qed.

Lemma writes_log_ops i ops : writes (log_ops i ops) = concat (map pieces ops).
Proof using Type.
  revert i. induction ops as [|[ms n|] ops IH]; intros i; [done| |simpl; apply IH].
  cbn [log_ops map concat]. unfold writes. rewrite omap_app. f_equal; [|apply IH].
  induction (pieces (SLog ms n)); simpl; by f_equal.
Qed.

(** Messages that fit are accepted, all of them. *)
Lemma writes_fit msgs : forall l b ms,
  lbuf l = Some b -> rbuf_wf b -> Forall (fun m => zlen m <= UINT32_MAX) msgs ->
  zlen (concat msgs) <= cap b - zlen (contents b) ->
  exists r b', log_run l ms (map OpWrite msgs) = Some r /\ lbuf (lr_logger r) = Some b' /\
    contents b' = contents b ++ concat msgs /\ lr_acc r = msgs /\ lr_out r = [].
Proof using Type.
  induction msgs as [|m msgs IH]; intros l b ms Hb Hwf Hm Hf.
  - do 2 eexists. split; [done|]. simpl. by rewrite app_nil_r.
  - apply Forall_cons in Hm as [Hm Hms]. rewrite zlen_concat_cons in Hf.
    pose proof (zlen_nonneg (concat msgs)).
    destruct (write_step l b m ms Hb Hwf Hm)
      as (ok & l' & b' & ms' & E & Hb' & Hfd & Hwf' & Hc & Hok & Hcap & _).
    rewrite (proj2 (Z.leb_le _ _)) in Hok by lia. subst ok.
    destruct (IH l' b' ms' Hb' Hwf' Hms) as (r & b'' & E' & B & C & A & O).
    { rewrite Hc, Hcap, zlen_app. lia. }
    simpl. rewrite E. simpl. rewrite E'. simpl. do 2 eexists. split; [done|]. simpl.
    split_and!; [done| |by rewrite A|done]. by rewrite C, Hc, app_assoc.
Qed.

End Histories.

(** ** Setup and teardown *)

Section Lifecycle.
Context (answers : nat -> Z).
Implicit Types (s : stats_module).

(** The logger's buffer is well formed, log_curr counts it among [n] others, and
    there is none unless the module was set up. *)
Record stats_wf (n : Z) s : Prop := {
  sw_buf : logger_wf (slog s);
  sw_curr : gauge_of (smetrics s) "log_curr" = Some (i64 (n + loggers (slog s)));
  sw_init : stats_log_init s = false -> slog s = None;
}.

Lemma sdestroy_spec n s :
  stats_wf n s -> exists s', sdestroy answers s = Some s' /\ stats_wf n s' /\ slog s' = None.
Proof using Type.
  intros [H1 H2 H3]. unfold sdestroy.
  destruct (log_destroy_spec n (slog s) (answers (snwrite s)) (answers (S (snwrite s)))
    (smetrics s) (srbuf s) H1 H2) as (ms' & rm' & out & -> & Hg). simpl.
  eexists. split; [done|]. split; [|done]. by split.
Qed.

(** Destroying the logger where the code does so only if there is one. *)
Lemma sdestroy_if n s :
  stats_wf n s ->
  exists s', match slog s with Some _ => sdestroy answers s | None => Some s end = Some s' /\
    stats_wf n s' /\ slog s' = None.
Proof using Type.
  intros Hwf. destruct (slog s) eqn:E; [by apply sdestroy_spec|by exists s].
Qed.

Lemma stats_log_setup_spec n filename nbuf lg mem ofd s :
  stats_wf n s -> u32 nbuf < UINT32_MAX ->
  (forall dt, mem = Some dt -> zlen dt = u32 nbuf + 1) ->
  exists s', stats_log_setup answers (Some (filename, nbuf)) lg mem ofd s = Some s' /\
    stats_wf n s' /\ stats_log_init s' = true /\ (filename = None -> slog s' = None).
Proof using Type.
  intros Hwf Hnb Hmem. unfold stats_log_setup.
  assert (Hd : exists s1, (if stats_log_init s
      then match slog s with Some _ => sdestroy answers s | None => Some s end
      else Some s) = Some s1 /\ stats_wf n s1 /\ slog s1 = None).
  { destruct (stats_log_init s) eqn:Ei; [by apply sdestroy_if|]. exists s.
    split_and!; try done. by apply Hwf. }
  destruct Hd as (s1 & -> & [W1 W2 W3] & Hn). cbn [mbind option_bind].
  destruct filename as [f|].
  - rewrite Hn in W2.
    pose proof (log_create_spec n (Some f) (u32 nbuf) lg mem ofd (smetrics s1) (srbuf s1) W2) as Hc.
    destruct (log_create _ _ _ _ _ _ _) as [[l ms] rm].
    destruct Hc as [C1 C2]; [split; [apply u32_range|done]|done|].
    eexists. split; [done|]. simpl. split_and!; try done.
  - eexists. split; [done|]. split; [by split|done].
Qed.

Lemma stats_log_teardown_spec n s :
  stats_wf n s ->
  exists s', stats_log_teardown answers s = Some s' /\ stats_wf n s' /\ slog s' = None /\
    stats_log_init s' = false.
Proof using Type.
  intros Hwf. unfold stats_log_teardown.
  destruct (sdestroy_if n s Hwf) as (s1 & -> & [W1 W2 W3] & Hn). simpl.
  eexists. split; [done|]. split; [by split|done].
Qed.

End Lifecycle.

(** ** Properties *)

(** For the stats log with a ring buffer, any history of dumps and
    flushes, whatever write answers: what reached the file followed by what is
    buffered is what was buffered before followed by a subsequence, in order, of the
    records (name, ": ", value, ", ", cut to 63 bytes) and row ends of the history;
    log_write_byte grows by exactly those bytes.  A dump that finds room for its
    whole row is logged whole. *)
Theorem stats_log_stream (answers : nat -> Z) (ops : list stats_op) (s : stats_module) (l : logger)
    (b : rbuf) (w k : Z) :
  slog s = Some l -> lbuf l = Some b -> rbuf_wf b -> 0 <= fd l -> Forall stats_op_ok ops ->
  counter_of (smetrics s) "log_write_byte" = Some (u64 w) ->
  counter_of (smetrics s) "log_skip_byte" = Some (u64 k) ->
  exists s' l' b' out acc, stats_run answers ops s = Some s' /\ slog s' = Some l' /\
    lbuf l' = Some b' /\ rbuf_wf b' /\ sout s' = sout s ++ out /\
    acc `sublist_of` concat (map pieces ops) /\
    contents b ++ concat acc = out ++ contents b' /\
    counter_of (smetrics s') "log_write_byte" = Some (u64 (w + zlen (concat acc))) /\
    (forall ms, ops = [SLog ms (zlen ms)] -> zlen (row ms) <= cap b - zlen (contents b) ->
      out = [] /\ contents b' = contents b ++ row ms).
Proof.
  intros Hl Hb Hwf Hfd Hok Hw Hk.
  destruct (stats_run_follows answers ops s l Hl) as (s' & n & E & r & R & L & M & O & N);
    [by exists b|done|].
  assert (Hops : Forall op_ok (log_ops answers (snwrite s) ops)).
  { clear. generalize (snwrite s). induction ops as [|[ms m|] ops IH]; intros i; [constructor| |].
    - cbn [log_ops]. apply Forall_app. split; [|apply IH]. apply Forall_map, Forall_app. split.
      + apply Forall_map, Forall_forall. intros x _. pose proof (record_length x).
        unfold op_ok, UINT32_MAX. lia.
      + by repeat constructor.
    - constructor; [done|apply IH]. }
  destruct (run_stream l b (smetrics s) _ w k Hb Hwf Hfd Hops Hw Hk)
    as (r' & b' & R' & B & W & C & _ & Cw & _).
  rewrite R in R'. injection R' as <-.
  exists s', (lr_logger r), b', (lr_out r), (lr_acc r).
  rewrite M. split_and!; try done.
  - rewrite <- (writes_log_ops answers (snwrite s)). by eapply log_run_acc.
  - intros ms -> Hroom. cbn [log_ops] in R. rewrite app_nil_r in R.
    assert (Hp : concat (pieces (SLog ms (zlen ms))) = row ms).
    { unfold row. simpl. rewrite concat_app. simpl. unfold zlen. by rewrite Nat2Z.id, firstn_all. }
    destruct (writes_fit (pieces (SLog ms (zlen ms))) l b (smetrics s) Hb Hwf)
      as (r' & b2 & R' & B' & C' & _ & O').
    + apply Forall_app. split; [|by repeat constructor]. apply Forall_map, Forall_forall.
      intros x _. pose proof (record_length x). unfold UINT32_MAX. lia.
    + by rewrite Hp.
    + rewrite R in R'. injection R' as <-. rewrite B in B'. injection B' as <-.
      by rewrite Hp in C'.
Qed.

Definition stats_sample : stats_module :=
  StatsModule (Some (Logger (Some "stats") 3 (Some (Rbuf 0 0 100 (replicate 101 0))))) true
    log_metrics0 (RbufModule None true) 0 [].

Definition metrics_sample : list metric :=
  [Metric "req" "requests" (Counter 42); Metric "conn" "connections" (Gauge (-1));
   Metric "load" "load" (Fpn (S754_finite false 6755399441055744 (-52)))].

Lemma stats_log_stream_witness :
  exists s', stats_run (fun _ => 100) [SLog metrics_sample 3; SFlush] stats_sample = Some s' /\
    sout s' = text "req: 42, conn: -1, load: 1.500000, " ++ CRLF.
Proof.
  destruct (stats_log_stream (fun _ => 100) [SLog metrics_sample 3; SFlush] stats_sample
      (Logger (Some "stats") 3 (Some (Rbuf 0 0 100 (replicate 101 0))))
      (Rbuf 0 0 100 (replicate 101 0)) 0 0) as (s' & l' & b' & out & acc & E & _);
    [reflexivity|reflexivity|split; vm_compute; try split; congruence|vm_compute; congruence
    |repeat constructor; vm_compute; congruence|reflexivity|reflexivity|].
  exists s'. split; [exact E|]. vm_compute in E. by injection E as <-.
Defined.

(** The value of a counter or gauge is printed in full, as its
    decimal digits with a minus sign for a negative gauge: reading them back gives
    the value, for every value of the type. *)
Theorem metric_value_roundtrip (m : metric) :
  match m_val m with
  | Counter n => 0 <= n <= UINT64_MAX ->
      scn VALUE_PRINT_LEN (metric_value m) = fmt_llu n /\ all_digits (fmt_llu n) /\ dec 0 (fmt_llu n) = n
  | Gauge n => INT64_MIN <= n <= INT64_MAX ->
      scn VALUE_PRINT_LEN (metric_value m) = fmt_lld n /\
      exists t, fmt_lld n = (if n <? 0 then [45] else []) ++ t /\ all_digits t /\ dec 0 t = Z.abs n
  | Fpn d => True
  end.
Proof.
  assert (Hcut : forall t, zlen t <= 21 -> scn VALUE_PRINT_LEN t = t).
  { intros t Ht. unfold VALUE_PRINT_LEN. rewrite scn_take by lia. apply take_ge. unfold zlen in Ht. lia. }
  unfold metric_value. destruct (m_val m) as [n|n|d]; [| |done]; intros Hn.
  - unfold UINT64_MAX in Hn. destruct (fmt_llu_dec n) as (Hz & Hd & Hv); [lia|].
    split_and!; try done. apply Hcut. lia.
  - unfold INT64_MIN, INT64_MAX in Hn. destruct (fmt_llu_dec (Z.abs n)) as (Hz & Hd & Hv); [lia|].
    unfold fmt_lld. destruct (Z.ltb_spec n 0).
    + replace (Z.abs n) with (- n) in * by lia. split; [apply Hcut; rewrite zlen_cons; lia|].
      by exists (fmt_llu (- n)).
    + replace (Z.abs n) with n in * by lia. split; [apply Hcut; lia|]. by exists (fmt_llu n).
Qed.

Lemma metric_value_roundtrip_witness :
  scn VALUE_PRINT_LEN (metric_value (Metric "m" "" (Gauge INT64_MIN))) = text "-9223372036854775808".
Proof.
  destruct (metric_value_roundtrip (Metric "m" "" (Gauge INT64_MIN))) as [-> _];
    [vm_compute; split; congruence|reflexivity].
Defined.

(** A floating point metric of 10^22 or more does not fit the 30 bytes of val_buf:
    its fraction and then its digits are cut off. *)
Example metric_print_fpn_cut :
  scn VALUE_PRINT_LEN (metric_value (Metric "m" "" (Fpn (double_of_Z (10 ^ 30))))) =
    text "10000000000000000198846248386".
Proof. vm_compute. reflexivity. Qed.

(** Stats_log_setup destroys the logger of an earlier setup and
    leaves a logger only if a file was named and everything succeeded;
    stats_log_teardown destroys it.  In every case log_curr counts exactly the
    loggers that exist. *)
Theorem stats_log_setup_teardown (answers : nat -> Z) (filename : option string) (nbuf : Z)
    (lg : bool) (mem : option (list byte)) (ofd n : Z) (s : stats_module) :
  stats_wf n s -> u32 nbuf < UINT32_MAX ->
  (forall dt, mem = Some dt -> zlen dt = u32 nbuf + 1) ->
  exists s' s'', stats_log_setup answers (Some (filename, nbuf)) lg mem ofd s = Some s' /\
    stats_wf n s' /\ stats_log_init s' = true /\ (filename = None -> slog s' = None) /\
    stats_log_teardown answers s' = Some s'' /\ stats_wf n s'' /\ slog s'' = None /\
    stats_log_init s'' = false.
Proof.
  intros Hwf Hnb Hmem.
  destruct (stats_log_setup_spec answers n filename nbuf lg mem ofd s Hwf Hnb Hmem)
    as (s' & E & W & I & F).
  destruct (stats_log_teardown_spec answers n s' W) as (s'' & E' & W' & N & I').
  by exists s', s''.
Qed.

Lemma stats_log_setup_teardown_witness :
  exists s', stats_log_setup (fun _ => 100) (Some (Some "stats"%string, 4)) true (Some [0; 0; 0; 0; 0]) 7
      (StatsModule None false log_metrics_gauge (RbufModule None true) 0 []) = Some s' /\
    stats_wf 0 s' /\ slog s' = Some (Logger (Some "stats"%string) 7 (Some (Rbuf 0 0 4 [0; 0; 0; 0; 0]))).
Proof.
  destruct (stats_log_setup_teardown (fun _ => 100) (Some "stats"%string) 4 true (Some [0; 0; 0; 0; 0]) 7 0
    (StatsModule None false log_metrics_gauge (RbufModule None true) 0 []))
    as (s' & s'' & E & W & _); [by split|reflexivity|by intros dt [= <-]|].
  exists s'. split; [exact E|]. split; [exact W|]. vm_compute in E. by injection E as <-.
Defined.

(** metric_describe_all writes the heading and one line per metric, in order. *)
Theorem metric_describe_all_lines (answers : nat -> Z) (metrics : list metric) (ms : metrics_st) :
  (forall i, LOG_MAX_LEN <= answers i) ->
  exists ms', metric_describe_all answers metrics (zlen metrics) ms =
    Some (ms', concat (map (fun t => take (Z.to_nat (LOG_MAX_LEN - 1)) t ++ [10])
      (describe_fmt "NAME" "TYPE" "DESCRIPTION" ::
       map (fun m => describe_fmt (m_name m) (metric_type_str (m_type m)) (m_desc m)) metrics))).
Proof.
  intros Ha.
  assert (Hfd : forall t i ms0, exists ms1, _log_fd t (answers i) ms0 =
    (ms1, take (Z.to_nat (LOG_MAX_LEN - 1)) t ++ [10])).
  { intros t i ms0. unfold _log_fd, sys_write. specialize (Ha i). unfold LOG_MAX_LEN in *.
    rewrite (proj2 (Z.ltb_ge _ _)) by lia. set (x := take _ t ++ [10]).
    assert (zlen x <= 2560) by (unfold x, zlen; rewrite length_app, length_take; cbn [length]; lia).
    rewrite Z.min_r by lia. replace (Z.to_nat (zlen x)) with (length x) by (unfold zlen; lia).
    rewrite firstn_all.
    destruct (_ <? _), (_ <? _); eauto. }
  unfold metric_describe_all. destruct (Hfd (describe_fmt "NAME" "TYPE" "DESCRIPTION") 0%nat ms) as [ms1 ->].
  assert (Hl : forall metrics i ms0, exists ms',
    describe_loop answers i (length metrics) metrics ms0 = Some (ms', concat (map
      (fun t => take (Z.to_nat (LOG_MAX_LEN - 1)) t ++ [10])
      (map (fun m => describe_fmt (m_name m) (metric_type_str (m_type m)) (m_desc m)) metrics)))).
  { clear -Hfd. induction metrics as [|m metrics IH]; intros i ms0; [by exists ms0|].
    cbn [describe_loop length map concat].
    destruct (Hfd (describe_fmt (m_name m) (metric_type_str (m_type m)) (m_desc m)) i ms0) as [ms1 ->].
    destruct (IH (S i) ms1) as [ms' ->]. by exists ms'. }
  unfold zlen. rewrite Nat2Z.id. destruct (Hl metrics 1%nat ms1) as [ms' ->]. by exists ms'.
Qed.
