(* ===== verification/Optprint.v ===== *)
(** * Printing options (src/cc_option.c)

    option_print, option_print_all and option_describe_all, which write to stdout
    through [Log]; the conversions of printf are those of [Stats].  [answers i] is
    what the i-th write answers.  A member of the union that was not the one written
    last, or a type without one, is [None]. *)

From Stdlib Require Import SpecFloat.
From S2P Require Import Prelude Mm Metric Log Bstring Print Option Debug Stats.
Local Open Scope Z_scope.

Definition PATH_MAX : Z := 4096.

(** snprintf(s, len, ...) of a text: the string it leaves. *)
Definition snp (len : Z) (t : list byte) : list byte := take (Z.to_nat (len - 1)) t.

Definition option_type_str (t : option_type_e) : option string :=
  match t with
  | OPTION_TYPE_BOOL => Some "boolean"%string
  | OPTION_TYPE_UINT => Some "unsigned int"%string
  | OPTION_TYPE_FPN => Some "double"%string
  | OPTION_TYPE_STR => Some "string"%string
  | OPTION_TYPE_SENTINEL => None
  end.

Definition option_print_val (len : Z) (type : option_type_e) (val : option_val_u)
  : option (list byte) :=
  match type, val with
  | OPTION_TYPE_BOOL, Vbool b => Some (snp len (text (if b then "yes" else "no")))
  | OPTION_TYPE_UINT, Vuint n => Some (snp len (fmt_llu n))
  | OPTION_TYPE_FPN, Vfpn f => Some (snp len (fmt_f f))
  | OPTION_TYPE_STR, Vstr s => Some (snp len (default (text "NULL") s))
  | _, _ => None
  end.

(** OPTION_INFO_FMT and OPTION_DESCRIBE_FMT *)
Definition info_fmt (name : list byte) (type : string) (current default : list byte) : list byte :=
  text "name: " ++ pad 31 name ++ text " type: " ++ pad 15 (text type) ++ text "  current: " ++
  pad 20 current ++ text " ( default: " ++ pad 20 default ++ text " )".
Definition odescribe_fmt (name type default desc : list byte) : list byte :=
  pad 31 name ++ [32] ++ pad 15 type ++ [32] ++ pad 20 default ++ [32] ++ desc.

Section Stdout.
Context (answers : nat -> Z).

(** The metrics of the log module, the number of writes so far and what reached
    stdout. *)
Abbreviation out_st := (metrics_st * nat * list byte)%type.

(** log_stdout(...) of a text *)
Definition log_stdout (t : list byte) (s : out_st) : out_st :=
  let '(ms, i, out) := s in
  let '(ms, o) := _log_fd t (answers i) ms in (ms, S i, out ++ o).

Definition option_print (o : opt) (s : out_st) : option out_st :=
  default_s ← option_print_val PATH_MAX (otype o) (odefault o);
  current_s ← option_print_val PATH_MAX (otype o) (oval o);
  type ← option_type_str (otype o);
  Some (log_stdout (info_fmt (oname o) type current_s default_s) s).

Fixpoint option_print_all (options : list opt) (nopt : nat) (s : out_st) : option out_st :=
  match nopt, options with
  | O, _ => Some s
  | S nopt, o :: options => s ← option_print o s; option_print_all options nopt s
  | S _, [] => None
  end.

Definition _option_describe (o : opt) (s : out_st) : option out_st :=
  default_s ← option_print_val (PATH_MAX + 10) (otype o) (odefault o);
  type ← option_type_str (otype o);
  Some (log_stdout (odescribe_fmt (oname o) (text type) default_s (odesc o)) s).

Fixpoint describe_options (options : list opt) (nopt : nat) (s : out_st) : option out_st :=
  match nopt, options with
  | O, _ => Some s
  | S nopt, o :: options => s ← _option_describe o s; describe_options options nopt s
  | S _, [] => None
  end.

Definition option_describe_all (options : list opt) (nopt : nat) (s : out_st) : option out_st :=
  describe_options options nopt
    (log_stdout (odescribe_fmt (text "NAME") (text "TYPE") (text "DEFAULT") (text "DESCRIPTION")) s).

End Stdout.

(** ** What reaches stdout *)

(** A line as _log_fd writes it. *)
Definition out_line (t : list byte) : list byte := take (Z.to_nat (LOG_MAX_LEN - 1)) t ++ [10].

(** The line option_print makes of an option. *)
Definition info_line (o : opt) : option (list byte) :=
  d ← option_print_val PATH_MAX (otype o) (odefault o);
  c ← option_print_val PATH_MAX (otype o) (oval o);
  t ← option_type_str (otype o);
  Some (out_line (info_fmt (oname o) t c d)).

Section Lines.
Context (answers : nat -> Z).
Hypothesis answers_ok : forall i, LOG_MAX_LEN <= answers i.

Lemma log_fd_all t i ms : exists ms', _log_fd t (answers i) ms = (ms', out_line t).
Proof using answers_ok.
  unfold _log_fd, sys_write. pose proof (answers_ok i) as Ha. unfold LOG_MAX_LEN in *.
  rewrite (proj2 (Z.ltb_ge _ _)) by lia. fold (out_line t).
  assert (zlen (out_line t) <= 2560).
  { unfold out_line, zlen, LOG_MAX_LEN. rewrite length_app, length_take. cbn [length]. lia. }
  change (take (Z.to_nat (2560 - 1)) t ++ [10]) with (out_line t).
  rewrite Z.min_r by lia. replace (Z.to_nat (zlen (out_line t))) with (length (out_line t)) by (unfold zlen; lia).
  rewrite firstn_all. destruct (_ <? _), (_ <? _); eauto.
Qed.

Lemma option_print_all_spec options : forall lines ms i out,
  mapM info_line options = Some lines ->
  exists ms' i', option_print_all answers options (length options) (ms, i, out) =
    Some (ms', i', out ++ concat lines).
Proof using answers_ok.
  induction options as [|o options IH]; intros lines ms i out.
  - intros [= <-]. simpl. rewrite app_nil_r. eauto.
  - simpl. intros H. destruct (info_line o) as [ln|] eqn:El; [|done]. simpl in H.
    destruct (mapM info_line options) as [ls|] eqn:E; [|done]. injection H as <-.
    unfold info_line in El. unfold option_print.
    destruct (option_print_val _ _ (odefault o)) as [d|]; [|done].
    destruct (option_print_val _ _ (oval o)) as [c|]; [|done].
    destruct (option_type_str (otype o)) as [t|]; [|done]. simpl in El. injection El as <-. simpl.
    unfold log_stdout. destruct (log_fd_all (info_fmt (oname o) t c d) i ms) as [ms1 ->].
    destruct (IH ls ms1 (S i) (out ++ out_line (info_fmt (oname o) t c d)) eq_refl) as (ms' & i' & ->).
    exists ms', i'. simpl. by rewrite <- app_assoc.
Qed.

End Lines.

(** ** Properties *)

(** What option_print_val shows of a value option_set takes back: setting
    an option to the printed text gives the same value, for booleans, unsigned
    numbers below 2^63 and strings that fit the buffer. *)
Theorem option_print_roundtrip (strtod : list byte -> spec_float * Z * bool) (erange : bool) (o : opt)
    (v : option_val_u) :
  match otype o, v with
  | OPTION_TYPE_BOOL, Vbool _ => True
  | OPTION_TYPE_UINT, Vuint n => 0 <= n <= INT64_MAX
  | OPTION_TYPE_STR, Vstr (Some s) => zlen s < PATH_MAX
  | _, _ => False
  end ->
  exists t, option_print_val PATH_MAX (otype o) v = Some t /\
    option_set strtod erange true o t = Some (CC_OK, set_val o v).
Proof.
  intros Hv. unfold option_set. destruct (otype o) eqn:Et, v as [b|n|f|[s|]]; try done; simpl.
  - eexists. split; [done|]. by destruct b.
  - unfold INT64_MAX in Hv. destruct (fmt_llu_dec n) as (Hz & Hd & Hn); [lia|].
    assert (Hs : snp PATH_MAX (fmt_llu n) = fmt_llu n).
    { unfold snp, PATH_MAX. apply take_ge. unfold zlen in Hz. lia. }
    rewrite Hs. eexists. split; [done|]. unfold _option_parse_uint.
    assert (Hne : fmt_llu n ≠ []).
    { destruct (fmt_llu_spec n) as (d & (H1 & _) & ->); [lia|]. destruct d; [lia|].
      simpl. by destruct (render d (n / 10)). }
    change (fmt_llu n) with (show fmt_llu (Num n)).
    rewrite (eval_show fmt_llu (Num n)); [done| |simpl; unfold OPTVAL_MAXLEN; lia].
    simpl. unfold INT64_MAX. split_and!; try done; lia.
  - eexists. split; [done|]. unfold snp, PATH_MAX in *. rewrite take_ge; [done|]. unfold zlen in Hv. lia.
Qed.

Definition uint_opt : opt := Opt (text "size") false OPTION_TYPE_UINT (Vuint 1) (Vuint 1) (text "a size").

Lemma option_print_roundtrip_witness :
  exists t, option_print_val PATH_MAX OPTION_TYPE_UINT (Vuint 1048576) = Some t /\
    option_set (fun _ => (S754_nan, 0, false)) false true uint_opt t =
      Some (CC_OK, set_val uint_opt (Vuint 1048576)).
Proof.
  apply (option_print_roundtrip (fun _ => (S754_nan, 0, false)) false uint_opt (Vuint 1048576)).
  vm_compute. split; congruence.
Defined.

(** option_print_all writes one line per option, in order, each with its name,
    type, current and default value, if write takes whole lines. *)
Theorem option_print_all_lines (answers : nat -> Z) (options : list opt) (lines : list (list byte))
    (ms : metrics_st) :
  (forall i, LOG_MAX_LEN <= answers i) -> mapM info_line options = Some lines ->
  exists ms' i, option_print_all answers options (length options) (ms, 0%nat, []) =
    Some (ms', i, concat lines).
Proof. intros Ha Hl. by apply (option_print_all_spec answers Ha options lines ms 0 []). Qed.

(** ** Releasing the strings

    An option is its type and the pointer of its value; the strings are blocks of the
    heap. *)

Definition option_type_eqb (a b : option_type_e) : bool :=
  match a, b with
  | OPTION_TYPE_BOOL, OPTION_TYPE_BOOL | OPTION_TYPE_UINT, OPTION_TYPE_UINT | OPTION_TYPE_FPN, OPTION_TYPE_FPN
  | OPTION_TYPE_STR, OPTION_TYPE_STR | OPTION_TYPE_SENTINEL, OPTION_TYPE_SENTINEL => true
  | _, _ => false
  end.

Fixpoint option_free (h : heap) (options : list (option_type_e * Z)) : option (heap * list (option_type_e * Z)) :=
  match options with
  | [] => Some (h, [])
  | (type, vstr) :: options =>
      '(vstr, h) ← (if option_type_eqb type OPTION_TYPE_STR && negb (vstr =? 0) then cc_free h vstr else Some (vstr, h));
      '(h, options) ← option_free h options;
      Some (h, (type, vstr) :: options)
  end.

(** The strings of the options. *)
Definition owned (options : list (option_type_e * Z)) : list Z :=
  omap (fun o => if option_type_eqb o.1 OPTION_TYPE_STR && negb (o.2 =? 0) then Some o.2 else None) options.

Lemma option_free_none h options : owned options = [] -> option_free h options = Some (h, options).
Proof.
  induction options as [|[t p] options IH]; intros Ho; cbn [option_free]; [done|]. unfold owned in Ho. simpl in Ho.
  destruct (option_type_eqb t OPTION_TYPE_STR && negb (p =? 0)); [done|]. cbn [mbind option_bind]. by rewrite IH.
Qed.

(** When the strings of the options are different live blocks, option_free frees
    exactly them and leaves no pointer to them, so that a second call does nothing. *)
Theorem option_free_once (options : list (option_type_e * Z)) : forall h : heap,
  NoDup (owned options) -> (forall p, p ∈ owned options -> is_Some (h !! p)) ->
  exists h' options', option_free h options = Some (h', options') /\
    (forall q, h' !! q = if decide (q ∈ owned options) then None else h !! q) /\
    owned options' = [] /\ option_free h' options' = Some (h', options').
Proof.
  induction options as [|[t p] options IH]; intros h Hnd Hlive; cbn [option_free].
  { exists h, []. split; [done|]. split; [|done]. intros q. rewrite decide_False; [done|]. apply not_elem_of_nil. }
  assert (Hcons : owned ((t, p) :: options) =
    if option_type_eqb t OPTION_TYPE_STR && negb (p =? 0) then p :: owned options else owned options).
  { unfold owned. cbn [omap list_omap fst snd]. by destruct (option_type_eqb t OPTION_TYPE_STR && negb (p =? 0)). }
  rewrite Hcons in *. destruct (option_type_eqb t OPTION_TYPE_STR && negb (p =? 0)) eqn:E.
  - apply NoDup_cons in Hnd as [Hni Hnd]. destruct (Hlive p) as [blk Hb]; [apply list_elem_of_here|].
    assert (p <> 0) by (intros ->; by rewrite andb_false_r in E).
    unfold cc_free, _cc_free, free. rewrite (proj2 (Z.eqb_neq p 0)), Hb by done. cbn [mbind option_bind].
    destruct (IH (delete p h)) as (h' & o' & -> & Hq & Ho & Hag); [done| |].
    { intros q Hq. rewrite lookup_delete_ne by (intros ->; done). apply Hlive. by apply list_elem_of_further. }
    cbn [mbind option_bind]. exists h', ((t, 0) :: o'). split; [done|].
    assert (Ho' : owned ((t, 0) :: o') = []) by (unfold owned in *; simpl; by rewrite andb_false_r).
    split; [|split; [done|by apply option_free_none]].
    intros q. rewrite Hq. destruct (decide (q = p)) as [->|Hne].
    + rewrite (decide_True (P := p ∈ p :: owned options)) by apply list_elem_of_here. case_decide; [done|apply lookup_delete_eq].
    + rewrite lookup_delete_ne by done. repeat case_decide; set_solver.
  - cbn [mbind option_bind]. destruct (IH h Hnd Hlive) as (h' & o' & -> & Hq & Ho & Hag). cbn [mbind option_bind].
    exists h', ((t, p) :: o'). split; [done|]. assert (Ho' : owned ((t, p) :: o') = []) by (unfold owned in *; simpl; by rewrite E).
    split; [done|]. split; [done|]. by apply option_free_none.
Qed.
