(* ===== verification/Config.v ===== *)
(** * Configuration (the METRIC and OPTION tables of include/)

    Every module declares its metrics and its options in a table, from which
    METRIC_INIT and OPTION_INIT make the structs an application passes to the setup
    functions.  The tables of all modules, the structs they make, the way from the
    defaults and a configuration file to what a setup function reads, and the
    metrics of a logger on the heap (log_metrics_create of src/cc_log.c). *)

From Stdlib Require Import SpecFloat.
From S2P Require Import Prelude Double Metric Pool Buf Dbuf Array Option Sys Signal Tcp Pipe Sockio Debug Stats.
Local Open Scope Z_scope.
Local Open Scope string_scope.

(** (name, type, description) and (name, type, default, description) *)
Abbreviation mdecl := (string * metric_type_e * string)%type.
Abbreviation odecl := (string * option_type_e * option_val_u * string)%type.

Definition BUF_METRIC : list mdecl := [
  ("buf_curr", METRIC_GAUGE, "# buf allocated");
  ("buf_active", METRIC_GAUGE, "# buf in use/borrowed");
  ("buf_create", METRIC_COUNTER, "# buf creates");
  ("buf_create_ex", METRIC_COUNTER, "# buf create exceptions");
  ("buf_destroy", METRIC_COUNTER, "# buf destroys");
  ("buf_borrow", METRIC_COUNTER, "# buf borrows");
  ("buf_borrow_ex", METRIC_COUNTER, "# buf borrow exceptions");
  ("buf_return", METRIC_COUNTER, "# buf returns");
  ("buf_memory", METRIC_GAUGE, "memory alloc'd to buf including header")
].

Definition DBUF_METRIC : list mdecl := [
  ("dbuf_double", METRIC_COUNTER, "# double completed");
  ("dbuf_double_ex", METRIC_COUNTER, "# double failed");
  ("dbuf_shrink", METRIC_COUNTER, "# shrink completed");
  ("dbuf_shrink_ex", METRIC_COUNTER, "# shrink failed");
  ("dbuf_fit", METRIC_COUNTER, "# fit completed");
  ("dbuf_fit_ex", METRIC_COUNTER, "# fit failed")
].

Definition SOCKIO_METRIC : list mdecl := [
  ("buf_sock_create", METRIC_COUNTER, "# buf sock created");
  ("buf_sock_create_ex", METRIC_COUNTER, "# buf sock create exceptions");
  ("buf_sock_destroy", METRIC_COUNTER, "# buf sock destroyed");
  ("buf_sock_curr", METRIC_GAUGE, "# buf sock allocated");
  ("buf_sock_borrow", METRIC_COUNTER, "# buf sock borrowed");
  ("buf_sock_borrow_ex", METRIC_COUNTER, "# buf sock borrow exceptions");
  ("buf_sock_return", METRIC_COUNTER, "# buf sock returned");
  ("buf_sock_active", METRIC_GAUGE, "# buf sock being borrowed")
].

Definition TCP_METRIC : list mdecl := [
  ("tcp_conn_create", METRIC_COUNTER, "# tcp connections created");
  ("tcp_conn_create_ex", METRIC_COUNTER, "# tcp conn create exceptions");
  ("tcp_conn_destroy", METRIC_COUNTER, "# tcp connections destroyed");
  ("tcp_conn_curr", METRIC_GAUGE, "# tcp conn allocated");
  ("tcp_conn_borrow", METRIC_COUNTER, "# tcp connections borrowed");
  ("tcp_conn_borrow_ex", METRIC_COUNTER, "# tcp conn borrow exceptions");
  ("tcp_conn_return", METRIC_COUNTER, "# tcp connections returned");
  ("tcp_conn_active", METRIC_GAUGE, "# tcp conn being borrowed");
  ("tcp_accept", METRIC_COUNTER, "# tcp connection accepts");
  ("tcp_accept_ex", METRIC_COUNTER, "# tcp accept exceptions");
  ("tcp_reject", METRIC_COUNTER, "# tcp connection rejects");
  ("tcp_reject_ex", METRIC_COUNTER, "# tcp reject exceptions");
  ("tcp_connect", METRIC_COUNTER, "# tcp connects made");
  ("tcp_connect_ex", METRIC_COUNTER, "# tcp connect exceptions ");
  ("tcp_close", METRIC_COUNTER, "# tcp connection closed");
  ("tcp_recv", METRIC_COUNTER, "# recv attempted");
  ("tcp_recv_ex", METRIC_COUNTER, "# recv exceptions");
  ("tcp_recv_byte", METRIC_COUNTER, "# bytes received");
  ("tcp_send", METRIC_COUNTER, "# send attempted");
  ("tcp_send_ex", METRIC_COUNTER, "# send exceptions");
  ("tcp_send_byte", METRIC_COUNTER, "# bytes sent")
].

Definition PIPE_METRIC : list mdecl := [
  ("pipe_conn_create", METRIC_COUNTER, "# pipe connections created");
  ("pipe_conn_create_ex", METRIC_COUNTER, "# pipe conn create exceptions");
  ("pipe_conn_destroy", METRIC_COUNTER, "# pipe connections destroyed");
  ("pipe_conn_curr", METRIC_GAUGE, "# pipe conn allocated");
  ("pipe_conn_borrow", METRIC_COUNTER, "# pipe connections borrowed");
  ("pipe_conn_borrow_ex", METRIC_COUNTER, "# pipe conn borrow exceptions");
  ("pipe_conn_return", METRIC_COUNTER, "# pipe connections returned");
  ("pipe_conn_active", METRIC_GAUGE, "# pipe conn being borrowed");
  ("pipe_open", METRIC_COUNTER, "# pipe connects made");
  ("pipe_open_ex", METRIC_COUNTER, "# pipe connect exceptions");
  ("pipe_close", METRIC_COUNTER, "# pipe connection closed");
  ("pipe_recv", METRIC_COUNTER, "# recv attempted");
  ("pipe_recv_ex", METRIC_COUNTER, "# recv exceptions");
  ("pipe_recv_byte", METRIC_COUNTER, "# bytes received");
  ("pipe_send", METRIC_COUNTER, "# send attempted");
  ("pipe_send_ex", METRIC_COUNTER, "# send exceptions");
  ("pipe_send_byte", METRIC_COUNTER, "# bytes sent");
  ("pipe_flag_ex", METRIC_COUNTER, "# pipe flag exceptions")
].

Definition EVENT_METRIC : list mdecl := [
  ("event_total", METRIC_COUNTER, "# events returned");
  ("event_loop", METRIC_COUNTER, "# event loop returns");
  ("event_read", METRIC_COUNTER, "# reads registered");
  ("event_write", METRIC_COUNTER, "# writes registered")
].

Definition RBUF_METRIC : list mdecl := [
  ("rbuf_create", METRIC_COUNTER, "# rbuf created");
  ("rbuf_create_ex", METRIC_COUNTER, "# rbuf create errors");
  ("rbuf_destroy", METRIC_COUNTER, "# rbuf destroyed");
  ("rbuf_curr", METRIC_GAUGE, "# rbuf allocated");
  ("rbuf_byte", METRIC_GAUGE, "# rbuf bytes allocated")
].

Definition LOG_METRIC : list mdecl := [
  ("log_create", METRIC_COUNTER, "# loggers created");
  ("log_create_ex", METRIC_COUNTER, "# log create errors");
  ("log_destroy", METRIC_COUNTER, "# loggers destroyed");
  ("log_curr", METRIC_GAUGE, "current # loggers");
  ("log_open", METRIC_COUNTER, "# files opened by loggers");
  ("log_open_ex", METRIC_COUNTER, "# logger open file errors");
  ("log_write", METRIC_COUNTER, "# log messages written");
  ("log_write_byte", METRIC_COUNTER, "# bytes written by log");
  ("log_write_ex", METRIC_COUNTER, "# log write errors");
  ("log_skip", METRIC_COUNTER, "# messages not completely logged");
  ("log_skip_byte", METRIC_COUNTER, "# bytes unable to be logged");
  ("log_flush", METRIC_COUNTER, "# log flushes to disk");
  ("log_flush_ex", METRIC_COUNTER, "# errors flushing to disk")
].

Definition TIMING_WHEEL_METRIC : list mdecl := [
  ("timeout_event_curr", METRIC_GAUGE, "# timeout events allocated");
  ("timeout_event_active", METRIC_GAUGE, "# timeout events in use");
  ("timeout_event_borrow", METRIC_COUNTER, "# timeout events borrowed");
  ("timeout_event_borrow_ex", METRIC_COUNTER, "# tevents borrow errors");
  ("timeout_event_return", METRIC_COUNTER, "# timeout events returned");
  ("timing_wheel_insert", METRIC_COUNTER, "# tevent insertions");
  ("timing_wheel_remove", METRIC_COUNTER, "# tevent removal");
  ("timing_wheel_event", METRIC_GAUGE, "# tevents in timing wheels");
  ("timing_wheel_process", METRIC_COUNTER, "# tevents processed");
  ("timing_wheel_tick", METRIC_COUNTER, "# ticks processed");
  ("timing_wheel_exec", METRIC_COUNTER, "# timing wheel executions ")
].

(** METRIC_INIT of a table: a struct of metrics. *)
Definition metrics_of (tbl : list mdecl) : gmap string metric :=
  list_to_map (map (fun '(n, t, d) => METRIC_INIT n t d) tbl).

(** The tables METRIC_CARDINALITY counts. *)
Definition METRIC_CARDINALITY (tbl : list mdecl) : Z := zlen tbl.

Definition BUF_OPTION : list odecl := [
  ("buf_init_size", OPTION_TYPE_UINT, Vuint (16 * 1024), "init buf size incl header");
  ("buf_poolsize", OPTION_TYPE_UINT, Vuint BUF_POOLSIZE, "buf pool size")
].

Definition DBUF_OPTION : list odecl := [
  ("dbuf_max_power", OPTION_TYPE_UINT, Vuint DBUF_DEFAULT_MAX, "max number of doubles")
].

Definition SOCKIO_OPTION : list odecl := [
  ("buf_sock_poolsize", OPTION_TYPE_UINT, Vuint BUFSOCK_POOLSIZE, "buf_sock limit")
].

Definition TCP_OPTION : list odecl := [
  ("tcp_backlog", OPTION_TYPE_UINT, Vuint TCP_BACKLOG, "tcp conn backlog limit");
  ("tcp_poolsize", OPTION_TYPE_UINT, Vuint TCP_POOLSIZE, "tcp conn pool size")
].

Definition PIPE_OPTION : list odecl := [
  ("pipe_poolsize", OPTION_TYPE_UINT, Vuint PIPE_POOLSIZE, "pipe conn pool size")
].

Definition ARRAY_OPTION : list odecl := [
  ("array_nelem_delta", OPTION_TYPE_UINT, Vuint NELEM_DELTA, "max nelem delta during expansion")
].

Definition STATS_LOG_OPTION : list odecl := [
  ("stats_log_file", OPTION_TYPE_STR, Vstr None, "file storing stats");
  ("stats_log_nbuf", OPTION_TYPE_UINT, Vuint STATS_LOG_NBUF, "stats log buf size")
].

Definition DEBUG_OPTION : list odecl := [
  ("debug_log_level", OPTION_TYPE_UINT, Vuint DEBUG_LOG_LEVEL, "debug log level");
  ("debug_log_file", OPTION_TYPE_STR, Vstr None, "debug log file");
  ("debug_log_nbuf", OPTION_TYPE_UINT, Vuint DEBUG_LOG_NBUF, "debug log buf size")
].

(** OPTION_INIT: the value is zero until one is set. *)
Definition OPTION_INIT (d : odecl) : opt :=
  let '(name, type, default, desc) := d in
  Opt (text name) false type default (Vbool false) (text desc).

Definition option_tables : list (list odecl) :=
  [BUF_OPTION; DBUF_OPTION; SOCKIO_OPTION; TCP_OPTION; PIPE_OPTION; ARRAY_OPTION; STATS_LOG_OPTION; DEBUG_OPTION].

(** ** What the setup functions read

    [None] if a member of a union is read that was not the last one written. *)

(** A char pointer as a file name. *)
Definition file_name (s : option (list byte)) : option string :=
  String.string_of_list_ascii ∘ map (fun c => Ascii.ascii_of_N (Z.to_N c)) <$> s.

Definition uints1 (l : list opt) : option Z :=
  match l with [a] => option_uint a | _ => None end.
Definition uints2 (l : list opt) : option (Z * Z) :=
  match l with [a; b] => x ← option_uint a; y ← option_uint b; Some (x, y) | _ => None end.
Definition stats_log_options (l : list opt) : option (option string * Z) :=
  match l with [a; b] => f ← option_str a; n ← option_uint b; Some (file_name f, n) | _ => None end.
Definition debug_options (l : list opt) : option (option string * Z * Z) :=
  match l with
  | [a; b; c] => lv ← option_uint a; f ← option_str b; n ← option_uint c; Some (file_name f, n, lv)
  | _ => None
  end.

(** The options of a table after option_load_default; [mem]: whether strdup can
    allocate. *)
Definition defaults (tbl : list odecl) : list opt := (option_load_default true (map OPTION_INIT tbl)).2.

(** ** Metrics on the heap

    [block]: whether malloc has a block for the struct.  log_panic aborts. *)
Definition log_metrics_create (block : bool) : outcome metrics_st :=
  if block then Returns (Some (metrics_of LOG_METRIC)) else Exits.

(** [m] is the pointer to the caller's pointer: freed and cleared. *)
Definition log_metrics_destroy (m : option metrics_st) : outcome metrics_st :=
  match m with None => Exits | Some _ => Returns None end.

(** ** The types of the options *)

(** What the accessor of a type returns for an option. *)
Definition reads (t : option_type_e) (o : opt) : Prop :=
  match t with
  | OPTION_TYPE_BOOL => is_Some (option_bool o)
  | OPTION_TYPE_UINT => exists n, option_uint o = Some n /\ 0 <= n <= UINT64_MAX
  | OPTION_TYPE_FPN => is_Some (option_fpn o)
  | OPTION_TYPE_STR => is_Some (option_str o)
  | OPTION_TYPE_SENTINEL => False
  end.

(** An option as its table declares it, with a value of the declared type. *)
Definition declared (d : odecl) (o : opt) : Prop :=
  let '(name, type, default, desc) := d in
  oname o = text name /\ otype o = type /\ odefault o = default /\ odesc o = text desc /\ reads type o.

(** A default of the declared type; strings default to NULL. *)
Definition default_ok (d : odecl) : Prop :=
  match d with
  | (_, OPTION_TYPE_BOOL, Vbool _, _) | (_, OPTION_TYPE_FPN, Vfpn _, _) => True
  | (_, OPTION_TYPE_STR, Vstr None, _) => True
  | (_, OPTION_TYPE_UINT, Vuint n, _) => 0 <= n <= UINT64_MAX
  | _ => False
  end.

Lemma typed_reads o : typed o -> reads (otype o) o.
Proof.
  unfold typed, reads, option_bool, option_uint, option_fpn, option_str.
  destruct (otype o), (oval o); intros H; try done; eauto.
Qed.

Lemma default_declared mem d :
  default_ok d -> exists o, option_default mem (OPTION_INIT d) = (CC_OK, o) /\ declared d o /\ typed o.
Proof.
  intros Hd. destruct d as [[[name t] v] desc].
  destruct t, v as [| | |[]]; simpl in Hd; try done; eexists; (split; [done|]); unfold typed; simpl;
    split_and!; first [done | lia | by eexists].
Qed.

Lemma load_default_declared mem tbl :
  Forall default_ok tbl ->
  exists opts, option_load_default mem (map OPTION_INIT tbl) = (CC_OK, opts) /\
    Forall2 declared tbl opts /\ Forall typed opts.
Proof.
  induction 1 as [|d tbl Hd _ (opts & IH & Hdecl & Ht)]; cbn [map option_load_default].
  - exists []. split; [done|]. split; constructor.
  - destruct (default_declared mem d Hd) as (o & -> & Ho & Hto). simpl. rewrite IH.
    eexists. split; [done|]. split; by constructor.
Qed.

Lemma kept_declared P tbl opts opts' :
  Forall2 declared tbl opts -> Forall typed opts -> Forall2 (kept P) opts opts' ->
  Forall2 declared tbl opts'.
Proof.
  intros Hd. revert opts'. induction Hd as [|d o tbl opts Ho Hd IH]; intros opts' Ht Hk;
    inversion Hk as [|? o' ? opts1 Ho' Hk']; subst; constructor; inversion Ht; subst; [|by eauto].
  destruct d as [[[name t] df] desc], Ho as (Hn & Hty & Hdf & Hdesc & _), Ho' as ((E1 & E2 & E3 & E4) & Hty' & _).
  repeat (split; [congruence|]). rewrite <- Hty, <- E2. apply typed_reads. auto.
Qed.

Lemma tables_ok : Forall (Forall default_ok) option_tables.
Proof. by repeat constructor. Qed.

(** C34: the options of every module have their declared types.  The defaults
    of a module's table load without an allocation, and after that a
    configuration file with any content leaves every option with its declared
    name, default and description and with a value the accessor of its type can
    read, the unsigned ones in the range of uintmax_t, even where the file is
    rejected. *)
Theorem config_typed (strtod : list byte -> spec_float * Z * bool) (erange mem ferror : bool)
    (lines : list (list byte)) (tbl : list odecl) :
  tbl ∈ option_tables ->
  exists opts st opts', option_load_default mem (map OPTION_INIT tbl) = (CC_OK, opts) /\
    option_load_file strtod erange mem ferror lines opts = Some (st, opts') /\
    Forall2 declared tbl opts'.
Proof.
  intros Htbl. destruct (load_default_declared mem tbl) as (opts & E & Hd & Ht).
  { by eapply Forall_forall in Htbl; [|apply tables_ok]. }
  destruct (load_file_spec strtod erange mem ferror lines opts) as (st & opts' & E' & Hk & _).
  exists opts, st, opts'. split; [done|]. split; [done|]. by eapply kept_declared.
Qed.

(** A file that sets one option, has a comment and then a line for no option. *)
Lemma config_typed_witness :
  DEBUG_OPTION ∈ option_tables /\
  exists opts st opts', option_load_default false (map OPTION_INIT DEBUG_OPTION) = (CC_OK, opts) /\
    option_load_file (fun _ => (S754_zero false, 0, false)) false true false
      (map text ["debug_log_level: 3 + 2"; "# a comment"; "no_such_option: 1"]) opts = Some (st, opts') /\
    debug_options opts' = Some (None, 0, 5) /\ st = CC_ERROR.
Proof.
  assert (H : DEBUG_OPTION ∈ option_tables) by (apply list_elem_of_In; simpl; tauto).
  split; [done|].
  destruct (config_typed (fun _ => (S754_zero false, 0, false)) false true false
    (map text ["debug_log_level: 3 + 2"; "# a comment"; "no_such_option: 1"]) DEBUG_OPTION H)
    as (opts & st & opts' & E1 & E2 & _).
  exists opts, st, opts'. vm_compute in E1. injection E1 as <-. split; [by vm_compute|]. split; [done|].
  vm_compute in E2. injection E2 as <- <-. split; by vm_compute.
Defined.

(** ** Setting up with defaults

    A setup function that is given the loaded defaults does what it does for a
    NULL pointer, from the state of the static initialisers. *)

Lemma buf_null fuel ms s :
  buf_init_size (world (bufp s)) = BUF_INIT_SIZE ->
  exists o, uints2 (defaults BUF_OPTION) = Some o /\ buf_setup fuel (Some o) ms s = buf_setup fuel None ms s.
Proof. intros E. eexists. split; [by vm_compute|]. unfold buf_setup. by rewrite E. Qed.

Lemma dbuf_null ms m w :
  buf_init_size w = BUF_INIT_SIZE ->
  exists o, uints1 (defaults DBUF_OPTION) = Some o /\
    dbuf_setup (Some o) ms (dbuf_static m w) = dbuf_setup None ms (dbuf_static m w).
Proof. intros E. eexists. split; [by vm_compute|]. unfold dbuf_setup. simpl. by rewrite E. Qed.

Lemma sockio_null fuel ms s :
  exists o, uints1 (defaults SOCKIO_OPTION) = Some o /\
    sockio_setup fuel (Some o) ms s = sockio_setup fuel None ms s.
Proof. eexists. split; [by vm_compute|done]. Qed.

Lemma array_null b :
  exists o, uints1 (defaults ARRAY_OPTION) = Some o /\
    array_setup (Some o) (ArrayModule b NELEM_DELTA) = array_setup None (ArrayModule b NELEM_DELTA).
Proof. eexists. split; [by vm_compute|done]. Qed.

Section Null.
Context {K : Type} `{!SigKernel K}.
Implicit Types (sys : list signal * proc K).

Lemma tcp_null fuel ms s sys :
  max_backlog (world (Tcp.cp s)) = TCP_BACKLOG ->
  exists o, uints2 (defaults TCP_OPTION) = Some o /\
    tcp_setup fuel (Some o) ms (s, sys) = tcp_setup fuel None ms (s, sys).
Proof. intros E. eexists. split; [by vm_compute|]. unfold tcp_setup. by rewrite E. Qed.

Lemma pipe_null fuel ms s sys :
  exists o, uints1 (defaults PIPE_OPTION) = Some o /\
    pipe_setup fuel (Some o) ms (s, sys) = pipe_setup fuel None ms (s, sys).
Proof. eexists. split; [by vm_compute|done]. Qed.

Lemma stats_log_null answers lg mem ofd s :
  exists o, stats_log_options (defaults STATS_LOG_OPTION) = Some o /\
    stats_log_setup answers (Some o) lg mem ofd s = stats_log_setup answers None lg mem ofd s.
Proof. eexists. split; [by vm_compute|done]. Qed.

Lemma debug_null answers lg mem ofd (s : debug_module * (list signal * proc K)) :
  exists o, debug_options (defaults DEBUG_OPTION) = Some o /\
    debug_setup answers (Some o) lg mem ofd s = debug_setup answers None lg mem ofd s.
Proof. eexists. split; [by vm_compute|done]. Qed.

End Null.

(** ** The types of the metrics *)

Definition metric_tables : list (list mdecl) :=
  [BUF_METRIC; DBUF_METRIC; SOCKIO_METRIC; TCP_METRIC; PIPE_METRIC; EVENT_METRIC; RBUF_METRIC; LOG_METRIC;
   TIMING_WHEEL_METRIC].

(** The updates the modules make. *)
Inductive update :=
| Incr (field : string) (n : Z)
| Decr (field : string) (n : Z)
| Update (field : string) (v : Z).

Definition run_update (ms : metrics_st) (u : update) : metrics_st :=
  match u with
  | Incr f n => INCR_N ms f n
  | Decr f n => DECR_N ms f n
  | Update f v => UPDATE_VAL ms f v
  end.

Definition val_ok (v : metric_val) : Prop :=
  match v with
  | Counter n => 0 <= n <= UINT64_MAX
  | Gauge n => INT64_MIN <= n <= INT64_MAX
  | Fpn _ => True
  end.

(** The metric of a declaration: its name, description and type, and a value in
    the range of the type. *)
Definition metric_ok (d : mdecl) (m : metric) : Prop :=
  let '(name, type, desc) := d in
  m_name m = name /\ m_desc m = desc /\ m_type m = type /\ val_ok (m_val m).

(** A struct of metrics made from a table has exactly its fields. *)
Definition struct_ok (tbl : list mdecl) (ms : metrics_st) : Prop :=
  exists s, ms = Some s /\ dom s = list_to_set (map (fun d => d.1.1) tbl) /\
    forall d, d ∈ tbl -> exists m, s !! d.1.1 = Some m /\ metric_ok d m.

Lemma update_metric_ok d m u :
  metric_ok d m ->
  metric_ok d (match u with
               | Incr _ n => metric_incr_n m n
               | Decr _ n => metric_decr_n m n
               | Update _ v => metric_update_val m v
               end).
Proof.
  destruct d as [[name t] desc]. intros (Hn & Hd & Ht & Hv). destruct m as [n' d' v].
  destruct v, u as [? k|? k|? k]; simpl in *; split_and!; try done; unfold UINT64_MAX, INT64_MIN, INT64_MAX in *;
    try lia; match goal with
    | |- context [u64 ?x] => pose proof (u64_range x)
    | |- context [i64 ?x] => pose proof (i64_range x)
    end; lia.
Qed.

Lemma update_struct_ok tbl ms u : struct_ok tbl ms -> struct_ok tbl (run_update ms u).
Proof.
  intros (s & -> & Hdom & Hf).
  assert (H : exists field f, run_update (Some s) u = Some (alter f field s) /\
    forall d m, metric_ok d m -> metric_ok d (f m)).
  { destruct u as [field n|field n|field n]; exists field; eexists; (split; [done|]); intros d m Hm.
    - apply (update_metric_ok d m (Incr field n) Hm).
    - apply (update_metric_ok d m (Decr field n) Hm).
    - apply (update_metric_ok d m (Update field n) Hm). }
  destruct H as (field & f & -> & Hup). eexists. split; [done|]. split; [by rewrite dom_alter_L|].
  intros d Hd. destruct (Hf d Hd) as (m & Hl & Hm). destruct (decide (d.1.1 = field)) as [<-|Hne].
  - exists (f m). split; [by rewrite lookup_alter_eq, Hl|auto].
  - exists m. split; [by rewrite lookup_alter_ne|done].
Qed.

Lemma init_struct_ok tbl : NoDup (map (fun d => d.1.1) tbl) -> struct_ok tbl (Some (metrics_of tbl)).
Proof.
  intros Hnd. eexists. split; [done|].
  assert (Hk : (map (fun '(n, t, d) => METRIC_INIT n t d) tbl).*1 = map (fun d => d.1.1) tbl).
  { clear Hnd. induction tbl as [|[[n t] d] tbl IH]; simpl; [done|]. f_equal. apply IH. }
  unfold metrics_of. split; [by rewrite dom_list_to_map_L, Hk|].
  intros [[n t] desc] Hd. exists (Metric n desc (zero_val t)). split; [|by destruct t].
  apply elem_of_list_to_map; [by rewrite Hk|]. apply list_elem_of_fmap. by exists (n, t, desc).
Qed.

Lemma metric_names_distinct : Forall (fun tbl => NoDup (map (fun d : mdecl => d.1.1) tbl)) metric_tables.
Proof. apply (bool_decide_unpack _). by vm_compute. Qed.

(** The metrics of every module have their declared types.  The names of a
    table differ, and whatever increments, decrements and updates are made, the
    struct has exactly the fields of its table, each with its name, description
    and type and a value in the range of the type. *)
Theorem metrics_typed (tbl : list mdecl) (us : list update) :
  tbl ∈ metric_tables ->
  NoDup (map (fun d => d.1.1) tbl) /\ struct_ok tbl (foldl run_update (Some (metrics_of tbl)) us).
Proof.
  intros Htbl. assert (Hnd : NoDup (map (fun d => d.1.1) tbl)).
  { by eapply Forall_forall in Htbl; [|apply metric_names_distinct]. }
  split; [done|]. pose proof (init_struct_ok tbl Hnd) as H. revert H.
  generalize (Some (metrics_of tbl)). induction us as [|u us IH]; intros ms H; simpl; [done|].
  apply IH. by apply update_struct_ok.
Qed.

(** A counter that is decremented keeps its value, a gauge goes below zero. *)
Lemma metrics_typed_witness :
  BUF_METRIC ∈ metric_tables /\
  exists ms, foldl run_update (Some (metrics_of BUF_METRIC))
               [Incr "buf_create" 1; Decr "buf_create" 1; Decr "buf_curr" 1] = ms /\
    struct_ok BUF_METRIC ms /\ counter_of ms "buf_create" = Some 1 /\ gauge_of ms "buf_curr" = Some (-1).
Proof.
  assert (H : BUF_METRIC ∈ metric_tables) by (apply list_elem_of_In; simpl; tauto).
  split; [done|]. eexists. split; [done|]. split; [by apply metrics_typed|]. split; by vm_compute.
Defined.

(** The gauges the theorems on the pools start from. *)
Lemma gauges_start :
  Forall (fun '(tbl, f) => gauge_of (Some (metrics_of tbl)) f = Some 0)
    [(BUF_METRIC, "buf_curr"); (BUF_METRIC, "buf_active"); (BUF_METRIC, "buf_memory");
     (SOCKIO_METRIC, "buf_sock_curr"); (SOCKIO_METRIC, "buf_sock_active");
     (TCP_METRIC, "tcp_conn_curr"); (TCP_METRIC, "tcp_conn_active");
     (PIPE_METRIC, "pipe_conn_curr"); (PIPE_METRIC, "pipe_conn_active");
     (TIMING_WHEEL_METRIC, "timeout_event_curr"); (TIMING_WHEEL_METRIC, "timeout_event_active");
     (TIMING_WHEEL_METRIC, "timing_wheel_event")].
Proof. by repeat constructor. Qed.

(** What log_metrics_create hands to its caller can be destroyed once; the
    caller's pointer is then NULL, and destroying it again does nothing. *)
Lemma log_metrics_lifetime m :
  log_metrics_create true = Returns m ->
  struct_ok LOG_METRIC m /\ log_metrics_destroy (Some m) = Returns None /\
  log_metrics_destroy (Some None) = Returns None.
Proof.
  intros [= <-]. split; [|done]. apply init_struct_ok.
  pose proof (proj1 (Forall_forall _ _) metric_names_distinct) as H. apply H. apply list_elem_of_In. simpl. tauto.
Qed.
